(* ===== verification/_CoqProject ===== *)
-Q . S2P
Prelude.v
Canon.v
Moment.v
Text.v
Intake.v
OrderPolicy.v
OrderFacts.v
OrderComponents.v
OrderWitness.v
Reservation.v
ReservationLogic.v
ReservationFacts.v
ReservationBytes.v
ReservationWitness.v
Stall.v
StallFacts.v
Redaction.v
RedactionFacts.v
PyJson.v
EventStore.v
EventStoreLogic.v
EventStoreFacts.v
EventStoreTheorems.v
EventContracts.v
ContractFacts.v
EventLog.v
StoreLog.v
WorkGeneration.v
WorkGenerationLogic.v
WorkGenerationFacts.v
WorkGenerationTheorems.v
FenceStore.v
StoreWitness.v
FenceWitness.v
SubmissionEpoch.v
SubmissionFacts.v
SubmissionWitness.v
Evidence.v
EvidenceFacts.v
Ambiguity.v
AmbiguityLogic.v
AmbiguityFacts.v
AmbiguityTheorems.v
PathStore.v
RowCodec.v
AmbiguityWitness.v
LaneTopology.v
LaneFacts.v
FenceInterface.v
FinalContracts.v
LaneController.v
LaneLogic.v
LaneSteps.v
LaneTheorems.v
LaneWitness.v
MomentFormat.v
FinalInterval.v
FinalLogic.v
FinalFacts.v
FinalSteps.v
FinalTheorems.v
FinalStore.v
FinalSettlement.v
FinalWitness.v
FinalReceipt.v
FinalReceiptFacts.v
JsonText.v
Lease.v
LeaseLedger.v
LeaseEffects.v
LeaseInvariant.v
LeaseFacts.v
LeaseTheorems.v
LeaseSafety.v
LeaseWitness.v
InstanceLedger.v
LedgerFacts.v
Reconciliation.v
ReconciliationFacts.v
ReconciliationWitness.v
