(* ===== verification/Prelude.v ===== *)
(** The decision, durability and fencing core of the solver, verified.

    The program ([src/solver/]) runs a capture-the-flag event unattended.  A Run reads the
    Board ([intake_qualification.py]), decides which Challenge gets the next Attempt
    ([order_policy.py]), watches the Attempt ([stall.py]), performs effects on the outside
    world at most once ([write_reservation*.py]), and keeps everything it learns in one
    hash-chained event log ([event_store_core.py]), from which components such as the Work
    generation fence ([work_generation.py]) project their state.  A found flag is sent to the
    Board as one submission of a numbered epoch, whose outcome may stay ambiguous
    ([submission/]).  Instances the Board deploys are held by Leases
    ([instance_lease.py]), and a Boot admits Work only after the Board's ledger, the Leases
    and the generations agree ([instance_reconciliation.py]).  What leaves an Attempt is
    redacted first ([redaction.py]).

    * How code becomes definitions

    A Python function is a Rocq function of the same name; one that raises returns [result]
    ([Ok] or [Err] with the exception); a method that mutates its object returns the new
    record.  Code that writes to disk is a program over an explicit world whose outcome is
    [Done], [Raised] or [Crashed]: a world carries the number of durable writes left before
    power is lost, so "wherever power is lost" is a quantifier over that number, and (for the
    event store) whether the write it stops is torn.  Integers are [Z]; Python's [Fraction]
    is [Qc]; times are microseconds ([Moment]); JSON values are [json] without floats; dicts
    whose order the code observes are association lists with the update in place that
    Python's insertion order gives.  Every definition is executable; recursion is structural,
    so no fuel bounds a loop except where the code itself polls ([await_terminal], whose
    number of polls is an argument), in SHA-256, whose fuel is the message length, and in the
    reader of [RowCodec], whose fuel is the length of its text.  The submission fence keeps
    times as floats of seconds; here they are integers of microseconds.

    * The files

    [Prelude] (this file): [result] and its bind, the exceptions, [outcome], Python's list and
    dict built-ins, stable sorting, the development's tactics ([inv_ok], [bool_to_prop]) and
    hint databases.  [Canon]: canonical JSON and SHA-256.  [Moment]: [datetime].  [Text]:
    string methods and the regular expressions the code uses.  [PyJson]: equality, truth and
    [repr] of Python values read from JSON.

    [Intake], [OrderPolicy] ([OrderFacts], [OrderComponents], [OrderWitness]): the snapshot and
    the Order decision over it.

    [Reservation] ([ReservationLogic], [ReservationFacts], [ReservationBytes],
    [ReservationWitness]): the write authority, its ledger of fixed record cells, extents and
    object slots, and [ReservedEffect].

    [Stall] ([StallFacts]): deadlines, the watch and the breaker.

    [Redaction] ([RedactionFacts]): the spellings of a secret and their removal.

    [EventStore] ([EventStoreLogic], [EventStoreFacts], [EventStoreTheorems], [StoreWitness]):
    the two JSON-lines streams, sealed bodies, verification and the appends.
    [EventContracts] ([ContractFacts]): the payloads of Observation, Lifecycle and
    Work-generation events.

    [EventLog]: the interface a component projected from the log relies on, as a pair of
    classes - the operations and what they promise - with a small program logic over it and
    histories of programs.  [StoreLog]: the event store implements it.  [WorkGeneration] ([WorkGenerationLogic], [WorkGenerationFacts],
    [WorkGenerationTheorems]): the fence, written and proved over any log of the interface.
    [FenceStore] ([FenceWitness]): the fence over the store, by the contract theorem.


    [SubmissionEpoch] ([SubmissionFacts], [SubmissionWitness]): the epoch
    counter of a Board in the event log and the row of a submission ([submission/epoch.py],
    [submission/ledger.py]).

    [Evidence] ([EvidenceFacts]): the identity of a submission, authenticated
    evidence of its verdict and the broker's probe ([submission/ambiguity_types.py],
    [submission/reconciliation.py]).

    [Ambiguity] ([AmbiguityLogic], [AmbiguityFacts], [AmbiguityTheorems]): the sixty-second fence of
    possibly-sent submissions ([submission/ambiguity.py]), over an interface of the write
    authority ([PathAuthority] and its promises [PathAuthorityOk]).  [PathStore]: the
    authority of [Reservation] keeps those promises while no path is refused or aborted,
    and what happens when one is.  [RowCodec], [AmbiguityWitness]: a text for journals, and runs.

    [LaneTopology], [LaneFacts]: the Lane contracts, the admission journal and the bookkeeping of a
    scheduling cycle ([lane_topology_contracts.py], [lane_topology_journal.py],
    [lane_topology.py]).  [FenceInterface]: what the generation fence promises its callers, and
    that the fence over any sound event log keeps it.  [LaneController] ([LaneLogic],
    [LaneSteps], [LaneTheorems], [LaneWitness]): admission, settlement and restart
    of the controller over that interface.

    [MomentFormat]: [isoformat()] reads back.  [FinalContracts]: the facts of the final interval of a
    Run, their contract and replay ([final_interval_contracts.py], [final_interval_projection.py]).
    [FinalInterval]: its controller ([final_interval.py]) over the log interface and a class of
    write authorities.  [FinalLogic], [FinalFacts], [FinalSteps], [FinalTheorems]: the abstract
    interval, rules for the controller's programs, its operations one by one, and histories.
    [FinalStore]: the event store takes every fact.  [FinalSettlement]: the authority of
    [Reservation] as its write authority.  [FinalWitness]: runs.

    [FinalReceipt] ([FinalReceiptFacts]): the verification of a
    final-interval receipt ([final_interval_receipt.py]).

    [JsonText]: [json.loads] over text, and that it reads back what [dumps] wrote.

    [Lease] ([LeaseLedger], [LeaseEffects], [LeaseInvariant], [LeaseFacts], [LeaseTheorems],
    [LeaseSafety], [LeaseWitness]): the Leases of Board Instances, their replay from the
    write authority's ledger and their coordinator ([instance_lease_contracts.py],
    [instance_lease_projection.py], [instance_lease.py]).

    [InstanceLedger] ([LedgerFacts]): the Board's ledger of Instances, whose rows are ours and
    the receipt of a reading ([instance_ledger.py]).  [Reconciliation]
    ([ReconciliationFacts], [ReconciliationWitness]): the Boot barrier that joins rows, Leases
    and Work generations ([instance_reconciliation.py]), the archive of earlier Runs
    ([instance_lease_archive.py]) and their composition in [__main__.py].

    * What the theorems show

    Order: rows are exactly the eligible unsolved Challenges, each once, ranked by the
    documented key; a Challenge that used its Attempts sinks below untouched ones; a grant has
    a positive budget that ends before every deadline, and goes to an entitled Challenge; the
    working set is what the remaining time affords; components are normalised, percentiles
    equal their rank formula, tiers and budgets are in range, exploration gets its turn, and
    the crowd reading compares the samples it documents.

    Effects: over every interleaving, failure and reboot an effect is claimed at most once per
    release, the ledger is append-only and lawful, restarts close what they find open,
    objects are disjoint, and bytes are conserved while nothing fails.

    Event store: what it reads is a chain, its head binds the history unless two events of the
    two chains have different documents and one digest, an append adds its event or nothing
    under failing hooks and lost power, a repeated append is exactly-once, compare-and-append
    compares, what is appended reads back; these theorems are of stores without retirement
    tombstones and of events that are none.  The contracts accept exactly the payloads that,
    in the fields they name, their events write.

    Fence: ownership refines an abstract exclusive ledger along every history, late output of
    a closed generation never runs its caller's write, acquiring is exclusive, a restart
    fences everything that was active; and all of it holds of the fence over the store.

    Stall and redaction: an Attempt's time is bounded, giving up is final, no Attempt outlives
    the cliff, a Checkpoint is a change that repeats, the breaker counts barren Attempts, and
    no spelling of a declared secret survives: the value, its percent-encoding, and in base64
    what belongs to the value alone, from eight characters on - shorter ones do survive.


    Submissions: epochs count up without gap along every history, a closed ambiguity opens one
    successor however often it is retried, and a verdict is believed only against its intent.

    Ambiguous submissions: a Candidate is spent once along every history over the authority in
    which no path is refused or aborted, nothing closes without four probes or an exact
    authenticated verdict, beginning raises the barrier, and the fence expires; but a refused
    path stops the fence, and no row of the submission ledger ever passes as evidence.

    Lanes: Attempts at work hold different Lanes and fit the profile; the journal and the fence
    stay in step along every history of the controller and the fence's other users; a restart
    settles every Lane, as an explicit map of the rows and of the ledger, and raises only what
    others raised.

    Final interval: with a document that is the replay of the log, the controller refines an
    abstract machine whose modes, ended chances, definite outcomes and end never go back; a Lane
    has one final chance, spent before the cutoff; a closing that returns is settled and
    idempotent; settled Candidates are not submitted again; a local transaction settles once;
    and an accepted window leaves time for a submission after its cutoff. A receipt that
    verifies is the replay of its trace; but a drain under a moving clock writes one that does
    not verify.

    Leases: along every history - operations that return, raise or lose power, other users of
    the authority, reboots, coordinators rebuilt from the ledger - a Challenge has at most one
    open Lease and a closed Lease stays closed, unless two different effects of those the
    history presented have one fingerprint; histories keep to stored records that read back
    whole ([intact]) - a subject over 512 bytes is cut, and its Lease replays as if it had not
    been released - and an operation finds no Lease effect half reserved ([settled]).  The
    Board is asked
    only with authority, and nothing by the Attempt of a closed generation; but a retried
    release conflicts with itself.

    Boot barrier: an open verdict means a settled ledger, proved ownership, no active
    generation, a committed cleanup or archive record for every open Lease, and no row of ours
    unclaimed; cleanup and archive are not called within fifteen seconds of quarantine; the
    receipt of a reading under a settled identity verifies.  But the cleanup of another Run's
    Lease settles whatever the Board said, a Lease of the Run itself is not archived while the
    Run's writer is live, and a quarantine record cut by a restart stops its row.

    * What is assumed

    Nothing: there are no axioms.  Digests enter as a class [Digester]; no theorem assumes
    that they do not collide.  Where a digest matters, a hypothesis names the one body that
    must be unique, or the conclusion names the values that would have to collide: two
    documents of the stores compared, two names of one log's facts, two effects a history
    presented - never just any two.  Contracts of modules that are not modelled are a
    parameter of the store.  Each operation is atomic here.  In the code most are so by a
    lock of the process; [acquire] and [replace] of the Work-generation fence take none, and
    that nothing comes between their projection and their append is an assumption.  An
    operation of the final interval runs on a document that is the replay of the log.  The
    writer lock of a Run's directory is a registry in [Reconciliation]; the other file locks,
    [fsync], HTTP, processes, containers and models are not modelled.  The component list of
    the manifest names every part that is left out and why.

    * What is left

    The parser of a stored Order input and the Order runtime's projections,
    recovery incidents, candidate admission, the schedule, the receipts of Leases and of the
    Boot reconciliation, and the qualification of raw Board captures.  Processes, containers,
    HTTP and the model harness are I/O around this core. *)

From stdpp Require Export base tactics list gmap sets strings pretty numbers sorting.
From Stdlib Require Export QArith_base Qreduction Qcanon.
From Stdlib Require Import Permutation Sorted Lqa.

#[export] Set Default Goal Selector "!".
#[global] Close Scope Qc_scope.
#[global] Close Scope Q_scope.

(** The development's hint databases: [py] for the built-ins and dicts of the language,
    [order] for the rationals Order weighs. *)
Create HintDb py.
Create HintDb order.

(** ** Results: Python's exceptions as values *)

(** The exception classes the modelled code raises, each with its message. *)
Inductive exn : Type :=
  | ValueError (msg : string)
  | TypeError (msg : string)
  | KeyError (msg : string)
  | ReservationConflict (msg : string)
  | ReservationUnavailable (msg : string)
  | EffectIndeterminate (msg : string)
  | InvalidEventError (msg : string)
  | DuplicateSequenceError (msg : string)
  | SequenceGapError (msg : string)
  | PreviousDigestMismatchError (msg : string)
  | EventDigestMismatchError (msg : string)
  | UnknownSchemaError (msg : string)
  | BlobDigestMismatchError (msg : string)
  | MissingBlobError (msg : string)
  | RunSealedError (msg : string)
  | RunNotTerminalError (msg : string)
  | TornAppendError (msg : string)
  | GenerationConflict (msg : string)
  | UnknownGeneration (msg : string)
  | IllegalGenerationTransition (msg : string)
  | FenceClosed (msg : string)
  | OSError (msg : string)
  | OverflowError (msg : string)
  | AttributeError (msg : string)
  | StaleLease (msg : string)
  | LeaseContended (msg : string)
  | RuntimeError (msg : string)
  | EffectError (msg : string).

#[export] Instance exn_eq_dec : EqDecision exn.
Proof. solve_decision. Defined.

Inductive result (A : Type) : Type :=
  | Ok (a : A)
  | Err (e : exn).
Arguments Ok {A} a.
Arguments Err {A} e.

#[export] Instance result_eq_dec {A} `{EqDecision A} : EqDecision (result A).
Proof. solve_decision. Defined.

#[export] Instance result_ret : MRet result := fun A a => Ok a.
#[export] Instance result_bind : MBind result := fun A B f m =>
  match m with Ok a => f a | Err e => Err e end.
#[export] Instance result_fmap : FMap result := fun A B f m =>
  match m with Ok a => Ok (f a) | Err e => Err e end.

(** How a run over durable state ends: it returns, it raises, or power is lost, which no
    handler catches. *)
Inductive outcome (A : Type) : Type :=
  | Done (a : A)
  | Raised (e : exn)
  | Crashed.
Arguments Done {A} a.
Arguments Raised {A} e.
Arguments Crashed {A}.

(** A program over a durable world. *)

Definition Prog (W A : Type) : Type := W -> W * outcome A.

#[export] Instance Prog_ret W : MRet (Prog W) := fun A a w => (w, Done a).
#[export] Instance Prog_bind W : MBind (Prog W) := fun A B f m w =>
  match m w with
  | (w', Done a) => f a w'
  | (w', Raised e) => (w', Raised e)
  | (w', Crashed) => (w', Crashed)
  end.

Definition fail {W A} (e : exn) : Prog W A := fun w => (w, Raised e).
Definition try {W A} (r : result A) : Prog W A := fun w =>
  match r with Ok a => (w, Done a) | Err e => (w, Raised e) end.
Definition ask {W A} (f : W -> A) : Prog W A := fun w => (w, Done (f w)).

(** [raise_unless b e] is Python's [if not b: raise e]. *)
Definition raise_unless (b : bool) (e : exn) : result unit :=
  if b then Ok tt else Err e.

(** [raise_if b e] is Python's [if b: raise e]. *)
Definition raise_if (b : bool) (e : exn) : result unit :=
  if b then Err e else Ok tt.

Definition is_ok {A} (m : result A) : bool :=
  match m with Ok _ => true | Err _ => false end.

Lemma bind_ok {A B} (f : A -> result B) (m : result A) (b : B) :
  m ≫= f = Ok b <-> exists a, m = Ok a /\ f a = Ok b.
Proof.
  destruct m as [a|e]; cbn; split; intros H.
  - by exists a.
  - destruct H as (a' & [= ->] & H). done.
  - done.
  - by destruct H as (a' & ? & _).
Qed.

Lemma raise_if_ok b e u : raise_if b e = Ok u <-> b = false.
Proof. by destruct b, u. Qed.

Lemma raise_unless_ok b e u : raise_unless b e = Ok u <-> b = true.
Proof. by destruct b, u. Qed.

(** Split a successful monadic computation into its successful steps. *)
Ltac inv_ok :=
  repeat match goal with
  | H : mbind _ _ = Ok _ |- _ =>
      let a := fresh "a" in let H1 := fresh "Hok" in
      apply bind_ok in H as (a & H1 & H)
  | H : raise_if _ _ = Ok _ |- _ => apply raise_if_ok in H
  | H : raise_unless _ _ = Ok _ |- _ => apply raise_unless_ok in H
  | H : Ok _ = Ok _ |- _ => injection H as H; try subst
  | H : Err _ = Ok _ |- _ => discriminate H
  | H : Ok _ = Err _ |- _ => discriminate H
  | H : mret _ = Ok _ |- _ => unfold mret, result_ret in H
  | H : unit |- _ => destruct H
  end.

(** ** Booleans *)

(** Turn boolean tests of the code into the propositions they decide. *)
Ltac bool_to_prop :=
  repeat match goal with
  | H : _ && _ = true |- _ => apply andb_true_iff in H as [? ?]
  | H : _ && _ = false |- _ => apply andb_false_iff in H
  | H : _ || _ = false |- _ => apply orb_false_iff in H as [? ?]
  | H : _ || _ = true |- _ => apply orb_true_iff in H
  | H : negb _ = true |- _ => apply negb_true_iff in H
  | H : negb _ = false |- _ => apply negb_false_iff in H
  | H : bool_decide _ = true |- _ => apply bool_decide_eq_true in H
  | H : bool_decide _ = false |- _ => apply bool_decide_eq_false in H
  | H : (_ <? _)%Z = true |- _ => apply Z.ltb_lt in H
  | H : (_ <? _)%Z = false |- _ => apply Z.ltb_ge in H
  | H : (_ <=? _)%Z = true |- _ => apply Z.leb_le in H
  | H : (_ <=? _)%Z = false |- _ => apply Z.leb_gt in H
  | H : (_ =? _)%Z = true |- _ => apply Z.eqb_eq in H
  | H : (_ =? _)%Z = false |- _ => apply Z.eqb_neq in H
  end.

(** ** Python's built-ins over lists *)

Section builtins.
Local Open Scope Z_scope.

(** [sum(iterable)] of integers. *)
Definition sumZ (l : list Z) : Z := foldr Z.add 0 l.

(** [any] and [all]. *)
Definition py_any {A} (p : A -> bool) (l : list A) : bool := existsb p l.
Definition py_all {A} (p : A -> bool) (l : list A) : bool := forallb p l.

(** [next((x for x in l if p(x)), None)]. *)
Definition py_next {A} (p : A -> bool) (l : list A) : option A := List.find p l.

(** [max(l, default=d)] of integers. *)
Definition maxZ (d : Z) (l : list Z) : Z :=
  match l with [] => d | x :: r => foldr Z.max x r end.

(** [len(l)]. *)
Definition py_len {A} (l : list A) : Z := Z.of_nat (length l).

(** [enumerate(l, start=n)]. *)
Fixpoint enumerate {A} (n : Z) (l : list A) : list (Z * A) :=
  match l with [] => [] | x :: r => (n, x) :: enumerate (n + 1) r end.

(** [l[:n]], for the non-negative bounds the code takes. *)
Definition py_take {A} (n : Z) (l : list A) : list A := take (Z.to_nat n) l.

Lemma sumZ_app l1 l2 : sumZ (l1 ++ l2) = sumZ l1 + sumZ l2.
Proof. unfold sumZ. induction l1; cbn; lia. Qed.

Lemma sumZ_nonneg l : Forall (fun x => 0 <= x) l -> 0 <= sumZ l.
Proof. unfold sumZ. induction 1; cbn; lia. Qed.

Lemma sumZ_perm l1 l2 : l1 ≡ₚ l2 -> sumZ l1 = sumZ l2.
Proof. unfold sumZ. induction 1; cbn in *; lia. Qed.

Lemma maxZ_ge d l x : x ∈ l -> x <= maxZ d l.
Proof.
  destruct l as [|y r]; cbn; [set_solver|].
  intros Hx%list_elem_of_In.
  destruct Hx as [->|Hx].
  - induction r as [|z r IH]; cbn; lia.
  - induction r as [|z r IH]; cbn in *; [done|]. destruct Hx as [->|Hx]; [lia|].
    specialize (IH Hx). lia.
Qed.

Lemma enumerate_snd {A} n (l : list A) : (enumerate n l).*2 = l.
Proof. revert n; induction l as [|x l IH]; intros n; csimpl; [done|]. by rewrite IH. Qed.

Lemma enumerate_length {A} n (l : list A) : length (enumerate n l) = length l.
Proof. revert n; induction l as [|x l IH]; intros n; csimpl; [done|]. by rewrite IH. Qed.

Lemma enumerate_lookup {A} n (l : list A) (i : nat) :
  enumerate n l !! i = (fun x => (n + Z.of_nat i, x)) <$> l !! i.
Proof.
  revert n i; induction l as [|x l IH]; intros n [|i]; csimpl; try done.
  - by rewrite Z.add_0_r.
  - rewrite IH. destruct (l !! i); csimpl; [|done].
    do 2 f_equal. lia.
Qed.

Lemma py_next_Some {A} (p : A -> bool) l x :
  py_next p l = Some x -> x ∈ l /\ p x = true.
Proof.
  intros [Hin Hp]%List.find_some. by rewrite list_elem_of_In.
Qed.

Lemma py_next_None {A} (p : A -> bool) l x :
  py_next p l = None -> x ∈ l -> p x = false.
Proof. intros H Hx. eapply List.find_none; [done|]. by apply list_elem_of_In. Qed.
End builtins.

(** ** Orders: Python's comparison of the key types the code sorts by *)

Class Cmp (A : Type) : Type := cmp : A -> A -> comparison.

Class CmpOk (A : Type) `{Cmp A} : Prop := {
  cmp_sym (x y : A) : cmp y x = CompOpp (cmp x y);
  cmp_trans (a b c : A) (Hab : cmp a b = Lt) (Hbc : cmp b c = Lt) : cmp a c = Lt;
  cmp_eq (x y : A) : cmp x y = Eq <-> x = y
}.

Definition cmp_leb {A} `{Cmp A} (x y : A) : bool :=
  match cmp x y with Gt => false | _ => true end.
Definition cmp_ltb {A} `{Cmp A} (x y : A) : bool :=
  match cmp x y with Lt => true | _ => false end.

#[export] Instance Z_cmp : Cmp Z := Z.compare.
#[export] Instance Z_cmp_ok : CmpOk Z.
Proof.
  split; unfold cmp, Z_cmp. all: cycle 2.
  - apply Z.compare_eq_iff.
  - intros. by rewrite Z.compare_antisym.
  - intros x y z. rewrite !Z.compare_lt_iff. lia.
Qed.

#[export] Instance bool_cmp : Cmp bool := Bool.compare.
#[export] Instance bool_cmp_ok : CmpOk bool.
Proof. split; unfold cmp, bool_cmp; [by intros [] []|by intros [] [] []|by intros [] []]. Qed.

#[export] Instance Qc_cmp : Cmp Qc := Qccompare.
#[export] Instance Qc_cmp_ok : CmpOk Qc.
Proof.
  split; unfold cmp, Qc_cmp. all: cycle 2.
  - intros x y. symmetry. apply Qceq_alt.
  - intros x y. unfold Qccompare, Qcompare. apply Z.compare_antisym.
  - intros x y z Hx Hy. apply Qclt_alt in Hx, Hy. apply Qclt_alt. eapply Qclt_trans; eauto.
Qed.

(** Tuples compare by their first difference. *)
#[export] Instance prod_cmp {A B} `{Cmp A, Cmp B} : Cmp (A * B) := fun p q =>
  match cmp p.1 q.1 with Eq => cmp p.2 q.2 | c => c end.
#[export] Instance prod_cmp_ok {A B} `{CmpOk A, CmpOk B} : CmpOk (A * B).
Proof.
  split; unfold cmp, prod_cmp. all: cycle 2.
  - intros [a b] [a' b']; cbn. destruct (cmp a a') eqn:E.
    + apply cmp_eq in E as ->. rewrite cmp_eq. naive_solver.
    + split; [done|]. intros [= -> ->]. by rewrite (proj2 (cmp_eq a' a') eq_refl) in E.
    + split; [done|]. intros [= -> ->]. by rewrite (proj2 (cmp_eq a' a') eq_refl) in E.
  - intros [a b] [a' b']; cbn. rewrite (cmp_sym a a').
    destruct (cmp a a'); cbn; [apply cmp_sym|done|done].
  - intros [a b] [a' b'] [a'' b'']; cbn.
    destruct (cmp a a') eqn:E1; [apply cmp_eq in E1 as ->| |done].
    + destruct (cmp a' a''); [|done|done]. apply cmp_trans.
    + destruct (cmp a' a'') eqn:E2; [apply cmp_eq in E2 as <-; by rewrite E1| |done].
      by rewrite (cmp_trans _ _ _ E1 E2).
Qed.

#[export] Instance list_cmp {A} `{Cmp A} : Cmp (list A) :=
  fix go l k := match l, k with
  | [], [] => Eq
  | [], _ :: _ => Lt
  | _ :: _, [] => Gt
  | x :: l, y :: k => match cmp x y with Eq => go l k | c => c end
  end.
#[export] Instance list_cmp_ok {A} `{CmpOk A} : CmpOk (list A).
Proof.
  assert (Hr : forall a : A, cmp a a = Eq) by (intros; by apply cmp_eq).
  split; unfold cmp, list_cmp. all: cycle 2.
  - intros l; induction l as [|x l IH]; intros [|y k]; try done.
    destruct (cmp x y) eqn:E; fold (@cmp A _) in *.
    + apply cmp_eq in E as ->. rewrite IH. split; [by intros ->|by intros [= ->]].
    + split; [done|]. intros [= -> ->]. by rewrite Hr in E.
    + split; [done|]. intros [= -> ->]. by rewrite Hr in E.
  - intros l; induction l as [|x l IH]; intros [|y k]; try done.
    rewrite (cmp_sym x y). destruct (cmp x y); cbn; [apply IH|done|done].
  - intros l; induction l as [|x l IH]; intros [|y k] [|z m]; try done.
    destruct (cmp x y) eqn:E1; [apply cmp_eq in E1 as ->| |done].
    + destruct (cmp y z); [apply IH|done|done].
    + destruct (cmp y z) eqn:E2; [apply cmp_eq in E2 as <-; by rewrite E1| |done].
      by rewrite (cmp_trans _ _ _ E1 E2).
Qed.

(** Strings compare by code points. *)
Definition codes (s : string) : list Z :=
  (fun c => Z.of_N (Ascii.N_of_ascii c)) <$> String.list_ascii_of_string s.
Lemma codes_inj s t : codes s = codes t -> s = t.
Proof.
  intros H. unfold codes in H.
  assert (Hl : String.list_ascii_of_string s = String.list_ascii_of_string t).
  { eapply (list_fmap_eq_inj _); [|exact H]. intros a b Hab%N2Z.inj.
    by rewrite <-(Ascii.ascii_N_embedding a), <-(Ascii.ascii_N_embedding b), Hab. }
  by rewrite <-(String.string_of_list_ascii_of_string s), Hl,
    String.string_of_list_ascii_of_string.
Qed.
#[export] Instance string_cmp : Cmp string := fun s t => cmp (codes s) (codes t).
#[export] Instance string_cmp_ok : CmpOk string.
Proof.
  split; unfold cmp, string_cmp. all: cycle 2.
  - intros s t. rewrite cmp_eq. split; [apply codes_inj|by intros ->].
  - intros. apply cmp_sym.
  - intros s t u. apply cmp_trans.
Qed.

(** Every integer sorts before every string (the code tags them 0 and 1). *)
#[export] Instance sum_cmp {A B} `{Cmp A, Cmp B} : Cmp (A + B) := fun p q =>
  match p, q with
  | inl a, inl b => cmp a b
  | inl _, inr _ => Lt
  | inr _, inl _ => Gt
  | inr a, inr b => cmp a b
  end.
#[export] Instance sum_cmp_ok {A B} `{CmpOk A, CmpOk B} : CmpOk (A + B).
Proof.
  split; unfold cmp, sum_cmp. all: cycle 2.
  - intros [a|a] [b|b]; try done; rewrite cmp_eq; naive_solver.
  - intros [a|a] [b|b]; try done; apply cmp_sym.
  - intros [a|a] [b|b] [c|c]; try done; apply cmp_trans.
Qed.

Section cmp_facts.
Context {A : Type} `{CmpOk A}.

Lemma cmp_refl (x : A) : cmp x x = Eq.
Proof. by apply cmp_eq. Qed.

Lemma cmp_leb_refl (x : A) : cmp_leb x x = true.
Proof. unfold cmp_leb. by rewrite cmp_refl. Qed.

Lemma cmp_leb_total (x y : A) : cmp_leb x y = true \/ cmp_leb y x = true.
Proof. unfold cmp_leb. rewrite (cmp_sym x y). destruct (cmp x y); cbn; auto. Qed.

Lemma cmp_leb_trans (x y z : A) :
  cmp_leb x y = true -> cmp_leb y z = true -> cmp_leb x z = true.
Proof.
  unfold cmp_leb. destruct (cmp x y) eqn:E1; [apply cmp_eq in E1 as ->; done| |done].
  destruct (cmp y z) eqn:E2; [apply cmp_eq in E2 as <-; by rewrite E1| |done].
  by rewrite (cmp_trans _ _ _ E1 E2).
Qed.

Lemma cmp_leb_antisym (x y : A) : cmp_leb x y = true -> cmp_leb y x = true -> x = y.
Proof.
  unfold cmp_leb. rewrite (cmp_sym x y). destruct (cmp x y) eqn:E; cbn; try done.
  intros _ _. by apply cmp_eq.
Qed.

Lemma cmp_ltb_leb (x y : A) : cmp_ltb x y = negb (cmp_leb y x).
Proof. unfold cmp_ltb, cmp_leb. rewrite (cmp_sym x y). by destruct (cmp x y). Qed.

Lemma cmp_ltb_leb_weaken (x y : A) : cmp_ltb x y = true -> cmp_leb x y = true.
Proof. unfold cmp_ltb, cmp_leb. by destruct (cmp x y). Qed.
End cmp_facts.

Lemma cmp_leb_pair {A B} `{CmpOk A, CmpOk B} (p q : A * B) :
  cmp_leb p q = true <-> cmp p.1 q.1 = Lt \/ p.1 = q.1 /\ cmp_leb p.2 q.2 = true.
Proof.
  unfold cmp_leb at 1. unfold cmp at 1, prod_cmp.
  destruct (cmp p.1 q.1) eqn:E.
  - apply cmp_eq in E. unfold cmp_leb. split; [by right|]. by intros [?|[_ ?]].
  - split; [by left|done].
  - split; [done|]. intros [?|[Heq _]]; [done|]. by rewrite Heq, cmp_refl in E.
Qed.

(** ** [list.sort], [min] and [max] with a key *)

Section sorting.
Context {A K : Type} `{CmpOk K} (key : A -> K).

Fixpoint insert_by (x : A) (l : list A) : list A :=
  match l with
  | [] => [x]
  | y :: r => if cmp_leb (key x) (key y) then x :: y :: r else y :: insert_by x r
  end.

(** Python's [sort(key=...)]: stable, so an insertion sort from the right
    that puts an element before its equals. *)
Definition sort_by (l : list A) : list A := foldr insert_by [] l.

(** [min(l, key=...)]: the first element whose key is least. *)
Definition min_by (l : list A) : option A :=
  foldl (fun best x => match best with
    | None => Some x
    | Some b => if cmp_ltb (key x) (key b) then Some x else Some b
    end) None l.

(** [max(l, key=...)]: the first element whose key is greatest. *)
Definition max_by (l : list A) : option A :=
  foldl (fun best x => match best with
    | None => Some x
    | Some b => if cmp_ltb (key b) (key x) then Some x else Some b
    end) None l.

Definition key_le (x y : A) : Prop := cmp_leb (key x) (key y) = true.

Lemma insert_by_perm x l : insert_by x l ≡ₚ x :: l.
Proof.
  induction l as [|y l IH]; cbn; [done|].
  destruct (cmp_leb _ _); [done|]. rewrite IH. apply Permutation_swap.
Qed.

Lemma sort_by_perm l : sort_by l ≡ₚ l.
Proof. induction l as [|x l IH]; cbn; [done|]. by rewrite insert_by_perm, IH. Qed.

Lemma insert_by_sorted x l :
  StronglySorted key_le l -> StronglySorted key_le (insert_by x l).
Proof.
  induction 1 as [|y l Hs IH Hall]; cbn; [by repeat constructor|].
  destruct (cmp_leb (key x) (key y)) eqn:E.
  - constructor; [by constructor|]. constructor; [done|].
    eapply Forall_impl; [exact Hall|]. intros z Hz. unfold key_le in *.
    eapply cmp_leb_trans; eauto.
  - constructor; [done|]. rewrite insert_by_perm. constructor; [|done].
    unfold key_le. destruct (cmp_leb_total (key x) (key y)); congruence.
Qed.

Lemma sort_by_sorted l : StronglySorted key_le (sort_by l).
Proof. induction l; cbn; [constructor|]. by apply insert_by_sorted. Qed.

(** Two sorted arrangements of the same elements agree when the key
    separates those elements. *)
Lemma sorted_perm_unique l1 l2 :
  (forall x y, x ∈ l1 -> y ∈ l1 -> key x = key y -> x = y) ->
  StronglySorted key_le l1 -> StronglySorted key_le l2 -> l1 ≡ₚ l2 -> l1 = l2.
Proof.
  intros Hinj Hs1. revert l2 Hinj.
  induction Hs1 as [|x l1 Hs1 IH Hx]; intros l2 Hinj Hs2 Hp.
  - by apply Permutation_nil_l.
  - destruct Hs2 as [|y l2 Hs2 Hy].
    { symmetry in Hp. by apply Permutation_nil_l in Hp. }
    assert (x = y) as ->.
    { assert (Hxin : x ∈ y :: l2) by (rewrite <-Hp; set_solver).
      assert (Hyin : y ∈ x :: l1) by (rewrite Hp; set_solver).
      apply elem_of_cons in Hxin as [->|Hxin]; [done|].
      apply elem_of_cons in Hyin as [->|Hyin]; [done|].
      apply Hinj; [set_solver|set_solver|].
      rewrite Forall_forall in Hx, Hy. unfold key_le in *.
      apply cmp_leb_antisym; [by apply Hx|by apply Hy]. }
    f_equal. apply IH; [|done|by apply Permutation_cons_inv in Hp].
    intros u v Hu Hv. apply Hinj; set_solver.
Qed.

Lemma sort_by_unique l1 l2 :
  (forall x y, x ∈ l1 -> y ∈ l1 -> key x = key y -> x = y) ->
  l1 ≡ₚ l2 -> sort_by l1 = sort_by l2.
Proof.
  intros Hinj Hp. apply sorted_perm_unique.
  - intros x y. rewrite !sort_by_perm. apply Hinj.
  - apply sort_by_sorted.
  - apply sort_by_sorted.
  - by rewrite !sort_by_perm.
Qed.

Lemma min_by_acc l b x :
  foldl (fun best x => match best with
    | None => Some x
    | Some b => if cmp_ltb (key x) (key b) then Some x else Some b
    end) (Some b) l = Some x ->
  x ∈ b :: l /\ Forall (fun y => cmp_leb (key x) (key y) = true) (b :: l).
Proof.
  revert b. induction l as [|y l IH]; intros b; cbn.
  - intros [= ->]. split; [set_solver|]. constructor; [apply cmp_leb_refl|done].
  - destruct (cmp_ltb (key y) (key b)) eqn:E; intros [Hin Hall]%IH.
    + split; [set_solver|]. inversion_clear Hall as [|? ? Hy Hl].
      repeat constructor; [|done|done].
      eapply cmp_leb_trans; [done|]. by apply cmp_ltb_leb_weaken.
    + split; [set_solver|]. inversion_clear Hall as [|? ? Hb Hl].
      repeat constructor; [done| |done].
      rewrite cmp_ltb_leb in E. apply negb_false_iff in E.
      by eapply cmp_leb_trans.
Qed.

Lemma min_by_spec l x :
  min_by l = Some x -> x ∈ l /\ Forall (fun y => cmp_leb (key x) (key y) = true) l.
Proof. unfold min_by. destruct l as [|b l]; cbn; [done|]. apply min_by_acc. Qed.

Lemma max_by_acc l b x :
  foldl (fun best x => match best with
    | None => Some x
    | Some b => if cmp_ltb (key b) (key x) then Some x else Some b
    end) (Some b) l = Some x ->
  x ∈ b :: l /\ Forall (fun y => cmp_leb (key y) (key x) = true) (b :: l).
Proof.
  revert b. induction l as [|y l IH]; intros b; cbn.
  - intros [= ->]. split; [set_solver|]. constructor; [apply cmp_leb_refl|done].
  - destruct (cmp_ltb (key b) (key y)) eqn:E; intros [Hin Hall]%IH.
    + split; [set_solver|]. inversion_clear Hall as [|? ? Hy Hl].
      repeat constructor; [|done|done].
      eapply cmp_leb_trans; [|done]. by apply cmp_ltb_leb_weaken.
    + split; [set_solver|]. inversion_clear Hall as [|? ? Hb Hl].
      repeat constructor; [done| |done].
      rewrite cmp_ltb_leb in E. apply negb_false_iff in E.
      by eapply cmp_leb_trans.
Qed.

Lemma max_by_spec l x :
  max_by l = Some x -> x ∈ l /\ Forall (fun y => cmp_leb (key y) (key x) = true) l.
Proof. unfold max_by. destruct l as [|b l]; cbn; [done|]. apply max_by_acc. Qed.

Lemma min_by_is_some l : l <> [] -> is_Some (min_by l).
Proof.
  unfold min_by. destruct l as [|b l]; cbn; [done|]. intros _. revert b.
  induction l as [|y l IH]; intros b; cbn; [by eexists|]. by destruct (cmp_ltb _ _).
Qed.
End sorting.

(** ** Python dicts: association lists in insertion order *)

Section dict.
Context {K V : Type} `{EqDecision K}.
Implicit Types (d : list (K * V)) (k : K).

Fixpoint dict_get k d : option V :=
  match d with
  | [] => None
  | (k', v) :: r => if bool_decide (k = k') then Some v else dict_get k r
  end.

(** [d[k] = v]: replace in place, or append a new key at the end. *)
Fixpoint dict_set k (v : V) d : list (K * V) :=
  match d with
  | [] => [(k, v)]
  | (k', v') :: r =>
      if bool_decide (k = k') then (k', v) :: r else (k', v') :: dict_set k v r
  end.

Fixpoint dict_del k d : list (K * V) :=
  match d with
  | [] => []
  | (k', v') :: r => if bool_decide (k = k') then r else (k', v') :: dict_del k r
  end.

Definition dict_has k d : bool := bool_decide (is_Some (dict_get k d)).
Definition dict_keys d : list K := d.*1.
Definition dict_values d : list V := d.*2.

Lemma dict_get_set_eq k v d : dict_get k (dict_set k v d) = Some v.
Proof.
  induction d as [|[k' v'] d IH]; cbn; [by rewrite bool_decide_true|].
  case_bool_decide; cbn; [by rewrite bool_decide_true|]. by rewrite bool_decide_false.
Qed.

Lemma dict_get_set_ne k k' v d : k <> k' -> dict_get k (dict_set k' v d) = dict_get k d.
Proof.
  intros Hne. induction d as [|[k'' v''] d IH]; cbn; [by rewrite bool_decide_false|].
  destruct (decide (k' = k'')) as [->|Hk].
  - rewrite bool_decide_true by done. cbn. by rewrite !(bool_decide_false (k = k'')).
  - rewrite (bool_decide_false (k' = k'')) by done. cbn. by rewrite IH.
Qed.

Lemma dict_get_set k k' v d :
  dict_get k (dict_set k' v d) = if bool_decide (k = k') then Some v else dict_get k d.
Proof. case_bool_decide; [subst; apply dict_get_set_eq|by apply dict_get_set_ne]. Qed.

Lemma dict_get_Some_elem k v d : dict_get k d = Some v -> (k, v) ∈ d.
Proof.
  induction d as [|[k' v'] d IH]; cbn; [done|].
  case_bool_decide; [intros [= ->]; subst; set_solver|]. intros ?%IH. set_solver.
Qed.

Lemma dict_get_None k d : dict_get k d = None <-> k ∉ d.*1.
Proof.
  induction d as [|[k' v'] d IH]; csimpl; [set_solver|].
  case_bool_decide; [subst|rewrite IH]; set_solver.
Qed.

Lemma dict_elem_get k v d : NoDup d.*1 -> (k, v) ∈ d -> dict_get k d = Some v.
Proof.
  induction d as [|[k' v'] d IH]; csimpl; [set_solver|].
  intros [Hk Hd]%NoDup_cons [[= -> ->]|Hin]%elem_of_cons; [by rewrite bool_decide_true|].
  rewrite bool_decide_false; [by apply IH|]. intros ->. apply Hk.
  apply list_elem_of_fmap. by exists (k', v).
Qed.

Lemma dict_set_keys k v d :
  (dict_set k v d).*1 = if bool_decide (k ∈ d.*1) then d.*1 else d.*1 ++ [k].
Proof.
  induction d as [|[k' v'] d IH]; csimpl; [done|].
  destruct (decide (k = k')) as [->|Hne].
  - rewrite !bool_decide_true by set_solver. done.
  - rewrite (bool_decide_false (k = k')) by done. csimpl. rewrite IH.
    destruct (decide (k ∈ d.*1)).
    + by rewrite !bool_decide_true by set_solver.
    + by rewrite !bool_decide_false by set_solver.
Qed.

Lemma dict_set_NoDup k v d : NoDup d.*1 -> NoDup (dict_set k v d).*1.
Proof.
  intros Hd. rewrite dict_set_keys. case_bool_decide; [done|].
  apply NoDup_app. split; [done|]. split; [set_solver|]. apply NoDup_singleton.
Qed.

Lemma dict_set_Forall (P : K * V -> Prop) k v d :
  Forall P d -> (forall k', k' = k -> P (k', v)) -> Forall P (dict_set k v d).
Proof.
  intros Hd Hv. induction Hd as [|[k' v'] d Hx Hd IH]; cbn; [by repeat constructor; apply Hv|].
  case_bool_decide; constructor; auto.
Qed.

Lemma dict_get_del_ne k k' d : k <> k' -> dict_get k (dict_del k' d) = dict_get k d.
Proof.
  intros Hne. induction d as [|[k'' v''] d IH]; cbn; [done|].
  destruct (decide (k' = k'')) as [->|Hk].
  - rewrite (bool_decide_true (k'' = k'')) by done. by rewrite (bool_decide_false (k = k'')).
  - rewrite (bool_decide_false (k' = k'')) by done. cbn. by rewrite IH.
Qed.

Lemma dict_del_keys_sub k d : (dict_del k d).*1 `sublist_of` d.*1.
Proof.
  induction d as [|[k' v'] d IH]; csimpl; [done|].
  case_bool_decide; csimpl; [by apply sublist_cons|by apply sublist_skip].
Qed.

Lemma dict_del_NoDup k d : NoDup d.*1 -> NoDup (dict_del k d).*1.
Proof. intros. eapply sublist_NoDup; [done|]. apply dict_del_keys_sub. Qed.

Lemma dict_get_del_eq k d : NoDup d.*1 -> dict_get k (dict_del k d) = None.
Proof.
  induction d as [|[k' v'] d IH]; csimpl; [done|]. intros [Hk Hd]%NoDup_cons.
  destruct (decide (k = k')) as [->|Hne].
  - rewrite bool_decide_true by done. by apply dict_get_None.
  - rewrite bool_decide_false by done. cbn. rewrite bool_decide_false by done. by apply IH.
Qed.

Lemma dict_set_new k v d : dict_get k d = None -> dict_set k v d = d ++ [(k, v)].
Proof.
  induction d as [|[k' v'] d IH]; [done|]. cbn [dict_get]. case_bool_decide as E; [done|].
  intros Hd. unfold dict_set. rewrite bool_decide_false by done. fold (dict_set k v d). by rewrite IH.
Qed.
End dict.

#[export] Hint Resolve sumZ_nonneg maxZ_ge : py.
#[export] Hint Resolve dict_get_Some_elem dict_elem_get dict_set_NoDup dict_del_NoDup : py.

(** [{key(x): x for x in l}]. *)
Definition dict_of {A K} `{EqDecision K} (key : A -> K) (l : list A) : list (K * A) :=
  foldl (fun d x => dict_set (key x) x d) [] l.

Lemma find_app {A} (p : A -> bool) l1 l2 :
  List.find p (l1 ++ l2) =
  match List.find p l1 with Some x => Some x | None => List.find p l2 end.
Proof. induction l1 as [|x l1 IH]; cbn; [done|]. by destruct (p x). Qed.

Section dict_of.
Context {A K : Type} `{EqDecision K} (key : A -> K).

Lemma dict_of_acc l d k :
  dict_get k (foldl (fun d x => dict_set (key x) x d) d l) =
  match List.find (fun x => bool_decide (k = key x)) (rev l) with
  | Some x => Some x
  | None => dict_get k d
  end.
Proof.
  revert d. induction l as [|x l IH]; intros d; cbn; [done|].
  rewrite IH, find_app. destruct (List.find _ (rev l)); [done|]. cbn.
  rewrite dict_get_set. by case_bool_decide.
Qed.

(** A comprehension keyed without repetition finds exactly its members. *)
Lemma dict_of_get l k x :
  NoDup (key <$> l) ->
  dict_get k (dict_of key l) = Some x <-> x ∈ l /\ key x = k.
Proof.
  intros Hnd. unfold dict_of. rewrite dict_of_acc. cbn.
  destruct (List.find _ (rev l)) as [y|] eqn:E.
  - apply List.find_some in E as [Hy Hk]. apply bool_decide_eq_true in Hk.
    apply in_rev, list_elem_of_In in Hy. split.
    + intros [= ->]. done.
    + intros [Hx Hkx]. f_equal.
      apply list_elem_of_lookup in Hx as [i Hi]. apply list_elem_of_lookup in Hy as [j Hj].
      assert (i = j) as ->.
      { eapply NoDup_lookup; [exact Hnd| |].
        - by rewrite list_lookup_fmap, Hi.
        - rewrite list_lookup_fmap, Hj. cbn. congruence. }
      congruence.
  - split; [done|]. intros [Hx Hkx].
    apply (List.find_none _ _ ) with (x := x) in E.
    + by rewrite bool_decide_true in E.
    + by apply in_rev, list_elem_of_In; rewrite rev_involutive.
Qed.
End dict_of.

(** ** Decimal text *)

Section decimal.
Local Open Scope Z_scope.

(** [str(n)]. *)
Definition str_int (n : Z) : string := pretty n.

Definition digit_value (c : Ascii.ascii) : option Z :=
  let n := Z.of_N (Ascii.N_of_ascii c) in
  if (48 <=? n) && (n <=? 57) then Some (n - 48) else None.

(** [int(s)] for a run of decimal digits, [None] for any other text. *)
Fixpoint int_digits (acc : Z) (s : string) : option Z :=
  match s with
  | EmptyString => Some acc
  | String c s => match digit_value c with Some d => int_digits (acc * 10 + d) s | None => None end
  end.
Definition parse_digits (s : string) : option Z :=
  match s with EmptyString => None | _ => int_digits 0 s end.

Fixpoint zeros (n : nat) : string :=
  match n with O => EmptyString | S n => "0" +:+ zeros n end.

(** [f"{n:06d}"]. *)
Definition pad6 (n : Z) : string :=
  let s := str_int n in (zeros (6 - String.length s) +:+ s)%string.

Lemma digit_value_pretty x :
  (x < 10)%N -> digit_value (pretty_N_char x) = Some (Z.of_N x).
Proof.
  intros Hx. assert (Hin : In x [0;1;2;3;4;5;6;7;8;9]%N).
  { destruct (N.lt_ge_cases x 5); cbn; lia. }
  cbn in Hin. repeat (destruct Hin as [<-|Hin]; [reflexivity|]). done.
Qed.

Lemma int_digits_pretty_go x s : int_digits 0 (pretty_N_go x s) = int_digits (Z.of_N x) s.
Proof.
  revert s. induction (N.lt_wf_0 x) as [x _ IH]; intros s.
  destruct (decide (0 < x)%N) as [Hx|Hx]; cycle 1.
  { assert (x = 0%N) as -> by lia. by rewrite pretty_N_go_0. }
  rewrite pretty_N_go_step by done. rewrite IH by (apply N.div_lt; lia).
  cbn [int_digits]. rewrite digit_value_pretty by (apply N.mod_lt; lia).
  f_equal. rewrite N2Z.inj_div, N2Z.inj_mod. cbn.
  pose proof (Z.div_mod (Z.of_N x) 10). lia.
Qed.

Lemma int_digits_str_int n : 0 <= n -> int_digits 0 (str_int n) = Some n.
Proof.
  intros Hn. destruct n as [|p|p]; [done| |lia].
  change (str_int (Zpos p)) with (pretty_N_go (Npos p) "").
  by rewrite int_digits_pretty_go.
Qed.

Lemma int_digits_zeros k s : int_digits 0 (zeros k +:+ s) = int_digits 0 s.
Proof. induction k as [|k IH]; cbn; [done|]. apply IH. Qed.

Lemma str_int_nonempty n : str_int n <> "".
Proof.
  destruct (Z.le_gt_cases 0 n) as [Hn|Hn].
  - intros E. pose proof (int_digits_str_int n Hn) as H. rewrite E in H. cbn in H.
    injection H as <-. done.
  - destruct n; try lia. unfold str_int, pretty, pretty_Z. done.
Qed.

(** Zero padding is invisible to the parser. *)
Lemma parse_pad6 n : 0 <= n -> parse_digits (pad6 n) = Some n.
Proof.
  intros Hn. unfold parse_digits.
  assert (Hd : int_digits 0 (pad6 n) = Some n).
  { unfold pad6. rewrite int_digits_zeros. by apply int_digits_str_int. }
  destruct (pad6 n) eqn:E; [|done].
  unfold pad6 in E. destruct (6 - String.length (str_int n))%nat; [|done].
  cbn in E. by apply str_int_nonempty in E.
Qed.

Lemma parse_str_int n : 0 <= n -> parse_digits (str_int n) = Some n.
Proof.
  intros Hn. unfold parse_digits. pose proof (int_digits_str_int n Hn) as H.
  destruct (str_int n) eqn:E; [|done]. by apply str_int_nonempty in E.
Qed.

Lemma pad6_inj n m : 0 <= n -> 0 <= m -> pad6 n = pad6 m -> n = m.
Proof.
  intros Hn Hm E. apply parse_pad6 in Hn, Hm. rewrite E in Hn. congruence.
Qed.
End decimal.

(** [s.startswith(p)], with the rest of [s] after [p]. *)
Fixpoint strip_prefix (p s : string) : option string :=
  match p, s with
  | EmptyString, _ => Some s
  | String a p, String b s => if bool_decide (a = b) then strip_prefix p s else None
  | String _ _, EmptyString => None
  end.

Definition startswith (p s : string) : bool := bool_decide (is_Some (strip_prefix p s)).

Lemma strip_prefix_app p s : strip_prefix p (p +:+ s) = Some s.
Proof.
  induction p as [|a p IH]; [done|].
  change (String a p +:+ s) with (String a (p +:+ s)). cbn. by rewrite bool_decide_true.
Qed.

Lemma strip_prefix_Some p s t : strip_prefix p s = Some t -> s = p +:+ t.
Proof.
  revert s. induction p as [|a p IH]; intros s; cbn; [by intros [= ->]|].
  destruct s as [|b s]; [done|]. case_bool_decide; [subst|done]. by intros ->%IH.
Qed.

Lemma str_app_assoc (a b c : string) : (a +:+ b) +:+ c = a +:+ (b +:+ c).
Proof.
  induction a as [|x a IH]; [done|].
  change (String x ((a +:+ b) +:+ c) = String x (a +:+ (b +:+ c))). by rewrite IH.
Qed.

Lemma string_app_inj_l p s t : p +:+ s = p +:+ t -> s = t.
Proof.
  intros E. pose proof (strip_prefix_app p s) as H. rewrite E, strip_prefix_app in H. congruence.
Qed.

(** ** Linear arithmetic over the canonical rationals *)

(** Move a statement about [Qc] to [Q], where [lra] and [nra] work. *)
Lemma eq_subrelation_Qeq (x y : Q) : x = y -> (x == y)%Q.
Proof. by intros ->. Qed.

Ltac qc_to_q :=
  repeat match goal with
  | H : @eq Qc _ _ |- _ => apply (f_equal this) in H; apply eq_subrelation_Qeq in H
  end;
  try match goal with |- @eq Qc _ _ => apply Qc_is_canon end;
  unfold Qcminus, Qcplus, Qcmult, Qcopp, Qcle, Qclt in *;
  cbn [this Q2Qc] in *;
  repeat match goal with
  | H : context [Qred _] |- _ => rewrite !Qred_correct in H
  end;
  rewrite ?Qred_correct.
Ltac qlra := qc_to_q; lra.
