(* ===== verification/Canon.v ===== *)
(** Canonical documents and their digests.

    [src/solver/event_store_storage.py]: [canonical_bytes] is
    [json.dumps(value, ensure_ascii=True, sort_keys=True, separators=(",", ":"))]
    and [digest_bytes] is [hashlib.sha256(body).hexdigest()].  Both are
    executable here: [json] is the value space of Python's JSON without floats,
    [dumps] its printer, [sha256] the FIPS 180-4 compression over 32-bit words
    kept as [Z] with the wrap-around written out.

    Text is [string]; each character stands for the code point of its byte
    (U+0000 to U+00FF), and [dumps] escapes everything outside [' '..'~'] as
    [ensure_ascii] does. *)

From Stdlib Require Import Ascii.
From S2P Require Import Prelude.
Local Open Scope Z_scope.

(** ** JSON values *)

Inductive json : Type :=
  | JNull
  | JBool (b : bool)
  | JInt (n : Z)
  | JStr (s : string)
  | JList (l : list json)
  | JObj (fields : list (string * json)).

(** [json] nests through lists, so its induction principle is stated by hand. *)
Section json_ind.
Variable P : json -> Prop.
Hypothesis HNull : P JNull.
Hypothesis HBool : forall b, P (JBool b).
Hypothesis HInt : forall n, P (JInt n).
Hypothesis HStr : forall s, P (JStr s).
Hypothesis HList : forall l, Forall P l -> P (JList l).
Hypothesis HObj : forall fs, Forall (fun f => P f.2) fs -> P (JObj fs).

Fixpoint json_rect_nested (j : json) : P j :=
  match j with
  | JNull => HNull
  | JBool b => HBool b
  | JInt n => HInt n
  | JStr s => HStr s
  | JList l => HList l ((fix go l : Forall P l :=
      match l with
      | [] => List.Forall_nil _
      | x :: r => List.Forall_cons _ _ _ (json_rect_nested x) (go r)
      end) l)
  | JObj fs => HObj fs ((fix go fs : Forall (fun f => P f.2) fs :=
      match fs with
      | [] => List.Forall_nil _
      | f :: r => List.Forall_cons _ _ _ (json_rect_nested f.2) (go r)
      end) fs)
  end.
End json_ind.

Fixpoint json_eqb (x y : json) : bool :=
  match x, y with
  | JNull, JNull => true
  | JBool a, JBool b => Bool.eqb a b
  | JInt a, JInt b => a =? b
  | JStr a, JStr b => bool_decide (a = b)
  | JList l, JList k =>
      (fix go l k := match l, k with
       | [], [] => true
       | a :: l, b :: k => json_eqb a b && go l k
       | _, _ => false
       end) l k
  | JObj l, JObj k =>
      (fix go l k := match l, k with
       | [], [] => true
       | (s, a) :: l, (t, b) :: k => bool_decide (s = t) && json_eqb a b && go l k
       | _, _ => false
       end) l k
  | _, _ => false
  end.

Lemma json_eqb_eq x y : json_eqb x y = true <-> x = y.
Proof.
  revert y. induction x as [|b|n|s|l IH|fs IH] using json_rect_nested;
    intros [|b'|n'|s'|l'|fs']; cbn; try done.
  - rewrite Bool.eqb_true_iff. naive_solver.
  - rewrite Z.eqb_eq. naive_solver.
  - rewrite bool_decide_eq_true. naive_solver.
  - revert l'. induction IH as [|a l Ha _ IHl]; intros [|b l']; try done.
    rewrite andb_true_iff, Ha. specialize (IHl l').
    split; [intros [-> H%IHl]|intros [= -> ->]; split; [done|by apply IHl]]; congruence.
  - revert fs'. induction IH as [|[s a] l Ha _ IHl]; intros [|[t b] l']; try done.
    cbn in Ha. rewrite !andb_true_iff, Ha, bool_decide_eq_true. specialize (IHl l').
    split; [intros [[-> ->] H%IHl]|intros [= -> -> ->]; split; [done|by apply IHl]]; congruence.
Qed.

#[export] Instance json_eq_dec : EqDecision json.
Proof.
  intros x y. destruct (json_eqb x y) eqn:E.
  - left. by apply json_eqb_eq.
  - right. intros H%json_eqb_eq. congruence.
Defined.

(** ** [json.dumps(..., sort_keys=True)] *)

Definition hex_digit (n : Z) : Ascii.ascii :=
  Ascii.ascii_of_N (Z.to_N (if n <? 10 then 48 + n else 87 + n)).

(** A byte as two lowercase hexadecimal digits. *)
Definition hex_byte (n : Z) : string :=
  String (hex_digit (n / 16)) (String (hex_digit (n mod 16)) EmptyString).

Definition quote : Ascii.ascii := Ascii.ascii_of_N 34.
Definition backslash : Ascii.ascii := Ascii.ascii_of_N 92.

Definition escape_char (c : Ascii.ascii) : string :=
  let n := Z.of_N (Ascii.N_of_ascii c) in
  let esc d := String backslash (String d EmptyString) in
  if n =? 34 then esc quote
  else if n =? 92 then esc backslash
  else if n =? 10 then esc "n"%char
  else if n =? 13 then esc "r"%char
  else if n =? 9 then esc "t"%char
  else if n =? 8 then esc "b"%char
  else if n =? 12 then esc "f"%char
  else if (32 <=? n) && (n <=? 126) then String c EmptyString
  else String backslash ("u00" +:+ hex_byte n).

Fixpoint escape (s : string) : string :=
  match s with EmptyString => EmptyString | String c r => escape_char c +:+ escape r end.

Definition dump_string (s : string) : string :=
  String quote (escape s +:+ String quote EmptyString).

Fixpoint join (sep : string) (l : list string) : string :=
  match l with
  | [] => ""
  | [x] => x
  | x :: r => x +:+ sep +:+ join sep r
  end.

Fixpoint dumps (j : json) : string :=
  match j with
  | JNull => "null"
  | JBool true => "true"
  | JBool false => "false"
  | JInt n => str_int n
  | JStr s => dump_string s
  | JList l => "[" +:+ join "," (List.map dumps l) +:+ "]"
  | JObj fs =>
      let printed := List.map (fun f => (f.1, dump_string f.1 +:+ ":" +:+ dumps f.2)) fs in
      "{" +:+ join "," (sort_by fst printed).*2 +:+ "}"
  end.

Definition canonical_bytes (value : json) : string := dumps value.

(** ** SHA-256 *)

Definition bytes_of (s : string) : list Z := codes s.

Definition w32 (x : Z) : Z := x mod 2 ^ 32.
Definition rotr (n x : Z) : Z := Z.lor (Z.shiftr x n) (w32 (Z.shiftl x (32 - n))).

(** The round constants and the initial state are the first 32 bits of the fractional
    parts of the cube and square roots of the first primes. *)
Definition is_prime (n : Z) : bool :=
  (1 <? n) && forallb (fun d => negb (n mod Z.of_nat d =? 0)) (seq 2 (Z.to_nat n - 2)).

Definition primes_below (n : nat) : list Z := List.filter is_prime (Z.of_nat <$> seq 0 n).

(** The integer cube root below [2 ^ bits], bit by bit. *)
Fixpoint cube_root (bits : nat) (root n : Z) : Z :=
  match bits with
  | O => root
  | S b =>
      let next := root + 2 ^ Z.of_nat b in
      cube_root b (if next * next * next <=? n then next else root) n
  end.

Definition sha_k : list Z := Eval vm_compute in
  (fun p => w32 (cube_root 36 0 (p * 2 ^ 96))) <$> primes_below 312.

Definition sha_init : list Z := Eval vm_compute in
  (fun p => w32 (Z.sqrt (p * 2 ^ 64))) <$> primes_below 20.

(** The message schedule, latest word first: 16 words of the block, then 48 more. *)
Definition schedule_step (ws : list Z) : list Z :=
  let w n := nth n ws 0 in
  let s0 := Z.lxor (Z.lxor (rotr 7 (w 14%nat)) (rotr 18 (w 14%nat))) (Z.shiftr (w 14%nat) 3) in
  let s1 := Z.lxor (Z.lxor (rotr 17 (w 1%nat)) (rotr 19 (w 1%nat))) (Z.shiftr (w 1%nat) 10) in
  w32 (w 15%nat + s0 + w 6%nat + s1) :: ws.

Definition schedule (block : list Z) : list Z :=
  rev (Nat.iter 48 schedule_step (rev block)).

Definition sha_round (st : list Z) (kw : Z * Z) : list Z :=
  match st with
  | [a; b; c; d; e; f; g; h] =>
      let S1 := Z.lxor (Z.lxor (rotr 6 e) (rotr 11 e)) (rotr 25 e) in
      let ch := Z.lxor (Z.land e f) (Z.land (Z.lxor e 0xffffffff) g) in
      let t1 := h + S1 + ch + kw.1 + kw.2 in
      let S0 := Z.lxor (Z.lxor (rotr 2 a) (rotr 13 a)) (rotr 22 a) in
      let maj := Z.lxor (Z.lxor (Z.land a b) (Z.land a c)) (Z.land b c) in
      [w32 (t1 + S0 + maj); a; b; c; w32 (d + t1); e; f; g]
  | _ => st
  end.

Definition sha_block (st block : list Z) : list Z :=
  let st' := foldl sha_round st (zip sha_k (schedule block)) in
  zip_with (fun x y => w32 (x + y)) st st'.

(** The [n] low-order bytes of [x], most significant first. *)
Fixpoint be_bytes (n : nat) (x : Z) : list Z :=
  match n with O => [] | S n => Z.shiftr x (8 * Z.of_nat n) mod 256 :: be_bytes n x end.

Fixpoint words (bs : list Z) : list Z :=
  match bs with
  | a :: b :: c :: d :: r => (((a * 256 + b) * 256 + c) * 256 + d) :: words r
  | _ => []
  end.

Definition sha_pad (bs : list Z) : list Z :=
  let n := py_len bs in
  bs ++ [0x80] ++ replicate (Z.to_nat ((55 - n) mod 64)) 0 ++ be_bytes 8 (8 * n).

Fixpoint sha_blocks (fuel : nat) (st ws : list Z) : list Z :=
  match fuel, ws with
  | S fuel, _ :: _ => sha_blocks fuel (sha_block st (take 16 ws)) (drop 16 ws)
  | _, _ => st
  end.

Definition sha256 (body : string) : list Z :=
  let ws := words (sha_pad (bytes_of body)) in
  sha_blocks (length ws) sha_init ws.

Definition hexdigest (st : list Z) : string :=
  foldr (fun w acc => join "" (hex_byte <$> be_bytes 4 w) +:+ acc) "" st.

(** What the components need of [digest_bytes]: a function from bodies to text.
    The program's instance is SHA-256 in hexadecimal; no theorem relies on more
    than that it is a function, and those that speak of tampering exhibit the
    colliding documents instead of assuming there are none. *)
Class Digester : Type := digest_bytes : string -> string.

(** [digest_bytes(body) = hashlib.sha256(body).hexdigest()]. *)
Definition sha256_digester : Digester := fun body => hexdigest (sha256 body).

(** [digest_bytes(canonical_bytes(document))], the composition every [_digest] helper is. *)
Definition digest `{Digester} (document : json) : string :=
  digest_bytes (canonical_bytes document).

Definition EMPTY_BLOB_DIGEST : string :=
  "e3b0c44298fc1c149afbf4c8996fb92427ae41e4649b934ca495991b7852b855".

(** The published test vectors, and the constant of [event_store_contracts.py]. *)
Example sha256_empty : sha256_digester "" = EMPTY_BLOB_DIGEST.
Proof. vm_compute. reflexivity. Qed.
Example sha256_abc :
  sha256_digester "abc" = "ba7816bf8f01cfea414140de5dae2223b00361a396177a9cb410ff61f20015ad".
Proof. vm_compute. reflexivity. Qed.
