(* ===== verification/Moment.v ===== *)
(** Moments: the [datetime] values the modelled code compares, subtracts and prints.

    A moment is a wall-clock reading in microseconds since 1970-01-01T00:00:00 and,
    when it is timezone-aware, its offset from UTC in seconds.  Comparison and
    subtraction go by the instant, as Python's do between aware values.  Python
    computes [total_seconds()] as a correctly rounded quotient of microseconds by
    10^6; comparing it with whole seconds and truncating it agree with the integer
    arithmetic here for every span under 2^53 microseconds (285 years). *)

From S2P Require Import Prelude.
Local Open Scope Z_scope.

Record moment : Type := Moment { wall_us : Z; utc_offset : option Z }.

#[export] Instance moment_eq_dec : EqDecision moment.
Proof. solve_decision. Defined.

Definition us_per_second : Z := 1000000.

Definition instant (m : moment) : Z :=
  wall_us m - us_per_second * default 0 (utc_offset m).

(** [m.tzinfo is None]. *)
Definition naive (m : moment) : bool := bool_decide (utc_offset m = None).

Definition before (a b : moment) : bool := instant a <? instant b.
Definition at_or_before (a b : moment) : bool := instant a <=? instant b.

(** [(a - b)] in microseconds, and [int((a - b).total_seconds())]. *)
Definition us_between (a b : moment) : Z := instant a - instant b.
Definition seconds_between (a b : moment) : Z := Z.quot (us_between a b) us_per_second.

(** [m + timedelta(seconds=s)]. *)
Definition plus_seconds (m : moment) (s : Z) : moment :=
  Moment (wall_us m + us_per_second * s) (utc_offset m).

(** ** [isoformat()] *)

(** The proleptic Gregorian date of a day counted from 1970-01-01. *)
Definition civil_of_days (day : Z) : Z * Z * Z :=
  let z := day + 719468 in
  let era := z / 146097 in
  let doe := z mod 146097 in
  let yoe := (doe - doe / 1460 + doe / 36524 - doe / 146096) / 365 in
  let doy := doe - (365 * yoe + yoe / 4 - yoe / 100) in
  let mp := (5 * doy + 2) / 153 in
  let d := doy - (153 * mp + 2) / 5 + 1 in
  let m := if mp <? 10 then mp + 3 else mp - 9 in
  let y := yoe + era * 400 + (if m <=? 2 then 1 else 0) in
  (y, m, d).

(** [f"{n:0{w}d}"] of a non-negative number. *)
Definition pad (w : nat) (n : Z) : string :=
  let s := str_int n in zeros (w - String.length s) +:+ s.

Definition offset_text (o : Z) : string :=
  let a := Z.abs o in
  (if o <? 0 then "-" else "+") +:+ pad 2 (a / 3600) +:+ ":" +:+ pad 2 (a / 60 mod 60)
  +:+ (if a mod 60 =? 0 then "" else ":" +:+ pad 2 (a mod 60)).

Definition isoformat (m : moment) : string :=
  let secs := wall_us m / us_per_second in
  let us := wall_us m mod us_per_second in
  let '(y, mo, d) := civil_of_days (secs / 86400) in
  let tod := secs mod 86400 in
  pad 4 y +:+ "-" +:+ pad 2 mo +:+ "-" +:+ pad 2 d +:+ "T"
  +:+ pad 2 (tod / 3600) +:+ ":" +:+ pad 2 (tod / 60 mod 60) +:+ ":" +:+ pad 2 (tod mod 60)
  +:+ (if us =? 0 then "" else "." +:+ pad 6 us)
  +:+ match utc_offset m with None => "" | Some o => offset_text o end.

Example isoformat_example :
  isoformat (Moment 1789000000123456 (Some 28800)) = "2026-09-10T00:26:40.123456+08:00".
Proof. vm_compute. reflexivity. Qed.

(** ** Arithmetic of instants *)

Lemma instant_plus m s : instant (plus_seconds m s) = instant m + us_per_second * s.
Proof. unfold instant, plus_seconds. cbn. lia. Qed.

Lemma seconds_between_le a b s :
  0 < s -> s <= seconds_between a b -> us_per_second * s <= us_between a b.
Proof.
  unfold seconds_between. intros Hs H.
  destruct (Z.le_gt_cases 0 (us_between a b)) as [Hn|Hn].
  - pose proof (Z.quot_rem' (us_between a b) us_per_second) as Hd.
    pose proof (Z.rem_bound_pos (us_between a b) us_per_second Hn ltac:(done)).
    unfold us_per_second in *. lia.
  - pose proof (Z.quot_opp_l (- us_between a b) us_per_second ltac:(done)) as Hq.
    rewrite Z.opp_involutive in Hq.
    pose proof (Z.quot_pos (- us_between a b) us_per_second ltac:(lia) ltac:(done)). lia.
Qed.

Lemma before_false a b : before a b = false -> instant b <= instant a.
Proof. unfold before. by intros ?%Z.ltb_ge. Qed.
