(* ===== verification/Text.v ===== *)
(** Python text operations and the fragment of [re] the modelled code uses.

    A pattern is a sequence of greedily repeated character classes; [re_match]
    tries the longest repetition first and backtracks, as Python's engine does on
    such patterns, and [re_search] takes the leftmost start.  Classes are exact for
    the code points U+0000 to U+00FF that [string] represents. *)

From Stdlib Require Import Ascii.
From S2P Require Import Prelude.
Local Open Scope Z_scope.

Definition code (c : ascii) : Z := Z.of_N (N_of_ascii c).
Definition between (lo hi : Z) (c : ascii) : bool := (lo <=? code c) && (code c <=? hi).
Definition is_code (n : Z) (c : ascii) : bool := code c =? n.

Definition is_lower (c : ascii) : bool := between 97 122 c.
Definition is_upper (c : ascii) : bool := between 65 90 c.
Definition is_letter (c : ascii) : bool := is_lower c || is_upper c.
Definition is_digit (c : ascii) : bool := between 48 57 c.

(** [str.isspace] and [\s]. *)
Definition is_space (c : ascii) : bool :=
  between 9 13 c || between 28 32 c || is_code 133 c || is_code 160 c.

(** [\w]: alphanumeric or underscore. *)
Definition is_word (c : ascii) : bool :=
  is_letter c || is_digit c || is_code 95 c
  || is_code 170 c || is_code 181 c || is_code 186 c
  || between 178 179 c || is_code 185 c || between 188 190 c
  || between 192 214 c || between 216 246 c || between 248 255 c.

Definition chars (s : string) : list ascii := String.list_ascii_of_string s.
Definition text (l : list ascii) : string := String.string_of_list_ascii l.

(** ** [str] methods *)

Fixpoint drop_while {A} (p : A -> bool) (l : list A) : list A :=
  match l with [] => [] | x :: r => if p x then drop_while p r else l end.

Definition lstrip_chars (l : list ascii) : list ascii := drop_while is_space l.
Definition rstrip_by (p : ascii -> bool) (l : list ascii) : list ascii :=
  rev (drop_while p (rev l)).

Definition lstrip (s : string) : string := text (lstrip_chars (chars s)).
Definition strip (s : string) : string := text (rstrip_by is_space (lstrip_chars (chars s))).

Definition lower_char (c : ascii) : ascii :=
  if is_upper c then ascii_of_N (N_of_ascii c + 32) else c.
Definition upper_char (c : ascii) : ascii :=
  if is_lower c then ascii_of_N (N_of_ascii c - 32) else c.
Definition lower (s : string) : string := text (lower_char <$> chars s).
Definition upper (s : string) : string := text (upper_char <$> chars s).

(** [s.split()]: the maximal runs of non-space characters. *)
Fixpoint split_words (l : list ascii) (word : list ascii) : list (list ascii) :=
  match l with
  | [] => match word with [] => [] | _ => [rev word] end
  | c :: r =>
      if is_space c
      then match word with [] => split_words r [] | _ => rev word :: split_words r [] end
      else split_words r (c :: word)
  end.

Fixpoint join_chars (sep : list ascii) (ls : list (list ascii)) : list ascii :=
  match ls with
  | [] => []
  | [x] => x
  | x :: r => x ++ sep ++ join_chars sep r
  end.

(** [" ".join(s.split())]. *)
Definition squeeze (l : list ascii) : list ascii :=
  join_chars [ascii_of_N 32] (split_words l []).

(** [phrase in s]. *)
Fixpoint contains (p s : string) : bool :=
  startswith p s || match s with EmptyString => false | String _ r => contains p r end.

(** [s.splitlines()] breaks at each line boundary, [\r\n] counting once. *)
Definition is_line_break (c : ascii) : bool :=
  between 10 13 c || between 28 30 c || is_code 133 c.

Fixpoint split_lines (l : list ascii) (line : list ascii) : list (list ascii) :=
  match l with
  | [] => match line with [] => [] | _ => [rev line] end
  | c :: r =>
      if is_line_break c then
        match r with
        | d :: r' =>
            if is_code 13 c && is_code 10 d
            then rev line :: split_lines r' [] else rev line :: split_lines r []
        | [] => [rev line]
        end
      else split_lines r (c :: line)
  end.

(** ** Patterns *)

Record atom : Type := Atom { cls : ascii -> bool; lo : nat; hi : option nat }.

Definition one (p : ascii -> bool) : atom := Atom p 1 (Some 1%nat).
Definition star (p : ascii -> bool) : atom := Atom p 0 None.
Definition plus (p : ascii -> bool) : atom := Atom p 1 None.
Definition upto (n : nat) (p : ascii -> bool) : atom := Atom p 0 (Some n).
Definition literal (s : string) : list atom :=
  (fun c => one (fun d => bool_decide (d = c))) <$> chars s.
(** The same under [re.IGNORECASE]. *)
Definition literal_i (s : string) : list atom :=
  (fun c => one (fun d => bool_decide (lower_char d = lower_char c))) <$> chars s.

(** The longest run of the class at the start of [s], capped. *)
Fixpoint run_length (p : ascii -> bool) (cap : option nat) (s : list ascii) : nat :=
  match cap, s with
  | Some O, _ => O
  | _, [] => O
  | Some (S k), c :: r => if p c then S (run_length p (Some k) r) else O
  | None, c :: r => if p c then S (run_length p None r) else O
  end.

Section matcher.
Context (rest : list ascii -> option (list (list ascii) * list ascii)).

(** Try [n] repetitions, then fewer, down to [low]. *)
Fixpoint try_from (low n : nat) (s : list ascii) : option (list (list ascii) * list ascii) :=
  if (n <? low)%nat then None else
  match rest (drop n s) with
  | Some (gs, tail) => Some (take n s :: gs, tail)
  | None => match n with O => None | S m => try_from low m s end
  end.
End matcher.

(** The segments matched by each atom, and the unmatched tail. *)
Fixpoint re_match (pat : list atom) (s : list ascii) : option (list (list ascii) * list ascii) :=
  match pat with
  | [] => Some ([], s)
  | a :: pat => try_from (re_match pat) (lo a) (run_length (cls a) (hi a) s) s
  end.

(** [re.search]: the match at the leftmost start that has one. *)
Fixpoint re_search (pat : list atom) (s : list ascii) : option (list (list ascii) * list ascii) :=
  match re_match pat s with
  | Some m => Some m
  | None => match s with [] => None | _ :: r => re_search pat r end
  end.

Lemma try_from_Some rest low n s gs tail :
  try_from rest low n s = Some (gs, tail) ->
  exists k gs', (low <= k <= n)%nat /\ rest (drop k s) = Some (gs', tail) /\ gs = take k s :: gs'.
Proof.
  induction n as [|n IH]; cbn [try_from].
  - destruct (Nat.ltb_spec 0 low); [done|].
    destruct (rest (drop 0 s)) as [[gs' tl]|] eqn:E; [|done].
    intros [= <- <-]. exists 0%nat, gs'. split; [lia|done].
  - destruct (Nat.ltb_spec (S n) low); [done|].
    destruct (rest (drop (S n) s)) as [[gs' tl]|] eqn:E.
    + intros [= <- <-]. exists (S n), gs'. split; [lia|done].
    + intros (k & gs' & Hk & ?)%IH. exists k, gs'. split; [lia|done].
Qed.

(** A match consumes exactly the segments it reports. *)
Lemma re_match_concat pat s gs tail :
  re_match pat s = Some (gs, tail) -> s = concat gs ++ tail /\ length gs = length pat.
Proof.
  revert s gs. induction pat as [|a pat IH]; intros s gs; cbn; [by intros [= <- <-]|].
  intros (k & gs' & _ & [Hs Hl]%IH & ->)%try_from_Some. cbn. rewrite Hl. split; [|done].
  by rewrite <-app_assoc, <-Hs, take_drop.
Qed.

(** ** UTF-8

    [str.encode()] of the code points a [string] represents takes one byte below U+0080 and two from
    there on; [bytes.decode("utf-8", "replace")] puts U+FFFD for every byte that belongs to no such
    character.  U+FFFD is not among the represented code points: it stands as the control character
    U+001A (substitute). *)

Definition byte_of (n : Z) : ascii := ascii_of_N (Z.to_N n).

Fixpoint utf8_encode (s : string) : string :=
  match s with
  | EmptyString => EmptyString
  | String c r =>
      if code c <? 128 then String c (utf8_encode r)
      else String (byte_of (192 + code c / 64)) (String (byte_of (128 + code c mod 64)) (utf8_encode r))
  end.

Fixpoint utf8_decode (s : string) : string :=
  match s with
  | EmptyString => EmptyString
  | String b r =>
      if code b <? 128 then String b (utf8_decode r)
      else
        match r with
        | String c r' =>
            if between 194 195 b && between 128 191 c
            then String (byte_of ((code b - 192) * 64 + (code c - 128))) (utf8_decode r')
            else String (byte_of 26) (utf8_decode r)
        | EmptyString => String (byte_of 26) EmptyString
        end
  end.

Lemma utf8_round_trip s : utf8_decode (utf8_encode s) = s.
Proof.
  induction s as [|c r IH]; [done|]. cbn [utf8_encode]. destruct (code c <? 128) eqn:E; [cbn [utf8_decode]; by rewrite E, IH|].
  assert (Hc : forall c, (code c <? 128) = false ->
    (code (byte_of (192 + code c / 64)) <? 128) = false
    /\ between 194 195 (byte_of (192 + code c / 64)) && between 128 191 (byte_of (128 + code c mod 64)) = true
    /\ byte_of ((code (byte_of (192 + code c / 64)) - 192) * 64 + (code (byte_of (128 + code c mod 64)) - 128)) = c).
  { intros [[] [] [] [] [] [] [] []]; vm_compute; first [discriminate|by repeat split]. }
  destruct (Hc c E) as (H1 & H2 & H3). cbn [utf8_decode]. rewrite H1, H2, H3, IH. done.
Qed.
