(* ===== verification/Intake.v ===== *)
(** Coherent Intake snapshots: the Board as Order reads it.

    [src/solver/intake_qualification.py], the data half: identities, present
    values, value facts, attachments, Challenges, tombstones and the snapshot,
    each with the [document()] its digest is taken over. *)

From S2P Require Import Prelude Canon Moment.
Local Open Scope Z_scope.

(** ** [TypedId] *)

(** Every place that makes an identity - [TypedId.parse], [_id_value], [order_policy._typed_id]
    and the readers of [order_runtime.py] - gives an integer value exactly to the kind
    ["integer"], so an identity with a text has another kind. *)
Inductive TypedId : Type :=
  | IntegerId (value : Z)
  | TextId (kind : string) (value : string) (other_kind : bool_decide (kind = "integer") = false).

#[export] Instance TypedId_eq_dec : EqDecision TypedId.
Proof.
  intros [a|k a Hk] [b|l b Hl]; try (right; discriminate).
  - destruct (decide (a = b)) as [->|Hne]; [by left|right; congruence].
  - destruct (decide (k = l)) as [->|Hne]; [|right; congruence]. destruct (decide (a = b)) as [->|Hne]; [|right; congruence].
    left. f_equal. apply proof_irrel.
Defined.

Definition tid_kind (i : TypedId) : string :=
  match i with IntegerId _ => "integer" | TextId k _ _ => k end.

(** [str(self.value)]. *)
Definition tid_text (i : TypedId) : string :=
  match i with IntegerId v => str_int v | TextId _ v _ => v end.

Definition TypedId_parse (value : json) : result TypedId :=
  match value with
  | JBool _ => Err (ValueError "challenge ID is boolean")
  | JInt n => if 0 <=? n then Ok (IntegerId n) else Err (ValueError "challenge ID is unsupported")
  | JStr s =>
      if bool_decide (s = "") then Err (ValueError "challenge ID is unsupported")
      else Ok (TextId "string" s eq_refl)
  | _ => Err (ValueError "challenge ID is unsupported")
  end.

Definition TypedId_document (i : TypedId) : json :=
  JObj [("type", JStr (tid_kind i)); ("value", JStr (tid_text i))].

(** [sort_key]: integers numerically, before texts by their bytes. *)
Definition TypedId_sort_key (i : TypedId) : Z + string :=
  match i with IntegerId v => inl v | TextId _ v _ => inr v end.

(** ** Field values *)

Record PresentValue : Type := { pv_state : string; pv_value : json }.

Definition PresentValue_from_field (source : list (string * json)) (name : string) : PresentValue :=
  match dict_get name source with
  | None => {| pv_state := "missing"; pv_value := JNull |}
  | Some JNull => {| pv_state := "null"; pv_value := JNull |}
  | Some v => {| pv_state := "value"; pv_value := v |}
  end.

Definition PresentValue_document (p : PresentValue) : json :=
  JObj (("state", JStr (pv_state p)) ::
    (if bool_decide (pv_state p = "value") then [("value", pv_value p)] else [])).

Definition moment_json (m : option moment) : json :=
  match m with Some m => JStr (isoformat m) | None => JNull end.

Record ValueFact : Type := {
  vf_value : json;
  vf_source : string;
  vf_outcome : string;
  vf_observed_at : option moment
}.

Definition ValueFact_document (v : ValueFact) : json :=
  JObj [("value", vf_value v); ("source", JStr (vf_source v)); ("outcome", JStr (vf_outcome v));
        ("observed_at", moment_json (vf_observed_at v))].

Record AttachmentSnapshot : Type := {
  at_resource_identity : string;
  at_name : string;
  at_content_digest : string;
  at_nbytes : Z;
  at_content_type : string;
  at_outcome : string;
  at_complete : bool;
  at_reason : string;
  at_original_bytes : Z;
  at_stored_bytes : Z;
  at_location_digest : string;
  at_final_host : string;
  at_over_limit : option (list (string * Z));
  at_hops : list (list (string * json))
}.

Definition AttachmentSnapshot_document (a : AttachmentSnapshot) : json :=
  JObj [
    ("resource_identity", JStr (at_resource_identity a));
    ("name", JStr (at_name a));
    ("content_digest", JStr (at_content_digest a));
    ("bytes", JInt (at_nbytes a));
    ("content_type", JStr (at_content_type a));
    ("outcome", JStr (at_outcome a));
    ("complete", JBool (at_complete a));
    ("reason", JStr (at_reason a));
    ("original_bytes", JInt (at_original_bytes a));
    ("stored_bytes", JInt (at_stored_bytes a));
    ("location_digest", JStr (at_location_digest a));
    ("final_host", JStr (at_final_host a));
    ("over_limit", match at_over_limit a with
      | Some ((_ :: _) as l) => JObj ((fun kv => (kv.1, JInt kv.2)) <$> l)
      | _ => JNull
      end);
    ("hops", JList (JObj <$> at_hops a))].

(** ** Challenges and snapshots *)

Record ChallengeSnapshot : Type := {
  challenge_id : TypedId;
  cs_name : string;
  cs_category : string;
  challenge_type : string;
  cs_statement : string;
  cs_value : ValueFact;
  cs_solves : ValueFact;
  cs_solved : ValueFact;
  cs_position : PresentValue;
  cs_attempts : Z;
  cs_max_attempts : PresentValue;
  cs_shared : PresentValue;
  cs_timeout : PresentValue;
  cs_destroy_on_flag : PresentValue;
  cs_mana_cost : PresentValue;
  cs_attachments : list AttachmentSnapshot;
  revision_digest : string
}.

Definition ChallengeSnapshot_files (c : ChallengeSnapshot) : list string :=
  at_resource_identity <$> cs_attachments c.

Definition ChallengeSnapshot_document (c : ChallengeSnapshot) : json :=
  JObj [
    ("id", TypedId_document (challenge_id c));
    ("name", JStr (cs_name c));
    ("category", JStr (cs_category c));
    ("type", JStr (challenge_type c));
    ("statement", JStr (cs_statement c));
    ("value", ValueFact_document (cs_value c));
    ("solves", ValueFact_document (cs_solves c));
    ("solved", ValueFact_document (cs_solved c));
    ("position", PresentValue_document (cs_position c));
    ("attempts", JInt (cs_attempts c));
    ("max_attempts", PresentValue_document (cs_max_attempts c));
    ("shared", PresentValue_document (cs_shared c));
    ("timeout", PresentValue_document (cs_timeout c));
    ("destroy_on_flag", PresentValue_document (cs_destroy_on_flag c));
    ("mana_cost", PresentValue_document (cs_mana_cost c));
    ("attachments", JList (AttachmentSnapshot_document <$> cs_attachments c));
    ("revision_digest", JStr (revision_digest c))].

Record TombstoneSnapshot : Type := {
  ts_challenge_id : TypedId;
  ts_prior_revision_digest : string;
  ts_prior_snapshot_digest : string;
  ts_absence_evidence : list (string * json) * list (string * json);
  ts_observed_at : moment;
  ts_reason : string
}.

Definition TombstoneSnapshot_document (t : TombstoneSnapshot) : json :=
  JObj [
    ("id", TypedId_document (ts_challenge_id t));
    ("prior_revision_digest", JStr (ts_prior_revision_digest t));
    ("prior_snapshot_digest", JStr (ts_prior_snapshot_digest t));
    ("absence_evidence", JList [JObj (ts_absence_evidence t).1; JObj (ts_absence_evidence t).2]);
    ("observed_at", JStr (isoformat (ts_observed_at t)));
    ("reason", JStr (ts_reason t))].

Record IntakeSnapshot : Type := {
  snapshot_id : string;
  profile_digest : string;
  observed_at : moment;
  challenges : list ChallengeSnapshot;
  empty_diagnosis : string;
  tombstones : list TombstoneSnapshot;
  scoreboard : list (list (string * json));
  mana : option (list (string * json))
}.

Definition IntakeSnapshot_document (s : IntakeSnapshot) : json :=
  JObj [
    ("schema_version", JInt 1);
    ("snapshot_id", JStr (snapshot_id s));
    ("profile_digest", JStr (profile_digest s));
    ("observed_at", JStr (isoformat (observed_at s)));
    ("empty_diagnosis", JStr (empty_diagnosis s));
    ("challenges", JList (ChallengeSnapshot_document <$> challenges s));
    ("tombstones", JList (TombstoneSnapshot_document <$> tombstones s));
    ("scoreboard", JList (JObj <$> scoreboard s));
    ("mana", match mana s with Some ((_ :: _) as m) => JObj m | _ => JNull end)].

Definition snapshot_digest `{Digester} (s : IntakeSnapshot) : string :=
  digest (IntakeSnapshot_document s).

Record PriorFence : Type := {
  pf_profile_digest : string;
  pf_event_id : string;
  pf_event_digest : string;
  pf_snapshot_digest : string
}.

Definition PriorFence_genesis (profile : string) : PriorFence :=
  {| pf_profile_digest := profile; pf_event_id := "genesis";
     pf_event_digest := ""; pf_snapshot_digest := "" |}.

Definition PriorFence_document (f : PriorFence) : json :=
  JObj [
    ("profile_digest", JStr (pf_profile_digest f));
    ("event_id", JStr (pf_event_id f));
    ("event_digest", JStr (pf_event_digest f));
    ("snapshot_digest", JStr (pf_snapshot_digest f))].
