(* ===== verification/OrderPolicy.v ===== *)
(** Truthful Order over one coherent Intake boundary.

    [src/solver/order_policy.py]: the facts Order consumes, the decision it
    returns and the pure policy between them.  Python's [Fraction] is [Qc], the
    canonical rationals, so numerators, denominators and equality are the same.
    [decide_order] returns [Err] where the code raises. *)

From Stdlib Require Import Ascii.
From S2P Require Import Prelude Canon Moment Text Intake.
Local Open Scope Z_scope.

(** ** Fractions *)

Definition qc (n : Z) : Qc := Q2Qc (inject_Z n).

(** [Fraction(n, d)]; every denominator the policy builds is positive. *)
Definition frac (n d : Z) : Qc := (qc n / qc d)%Qc.

Definition numerator (q : Qc) : Z := Qnum (this q).
Definition denominator (q : Qc) : Z := Zpos (Qden (this q)).

(** [int(q)] truncates towards zero; [q // r] is the floor of the quotient. *)
Definition q_trunc (q : Qc) : Z := Z.quot (numerator q) (denominator q).
Definition q_floordiv (q r : Qc) : Z := let x := (q / r)%Qc in numerator x / denominator x.

Definition q_leb (x y : Qc) : bool := cmp_leb x y.
Definition q_min (x y : Qc) : Qc := if q_leb x y then x else y.
Definition q_max (x y : Qc) : Qc := if q_leb y x then x else y.

Definition fraction_json (q : Qc) : json :=
  JObj [("numerator", JInt (numerator q)); ("denominator", JInt (denominator q))].

Definition half : Qc := frac 1 2.

(** ** The dials *)

Record PolicyDials : Type := {
  version : Z;
  sample_min_seconds : Z;
  crowd_max_age_seconds : Z;
  crowd_min_new_solves : Z;
  crowd_min_moving_challenges : Z;
  crowd_min_distinct_velocities : Z;
  crowd_max_tie_numerator : Z;
  crowd_max_tie_denominator : Z;
  w_crowd : Qc;
  w_value : Qc;
  w_lease : Qc;
  w_progress : Qc;
  w_category : Qc;
  w_spend : Qc;
  knee_seconds : Z;
  floor_seconds : Z;
  tier_step : Qc;
  ceiling_fraction : Qc;
  attempts_full : Z;
  checkpoints_full : Z;
  tier_cap : Z;
  explore_every : Z;
  concurrency : Z
}.

(** [PolicyDials()]: the defaults. *)
Definition default_dials : PolicyDials := {|
  version := 2;
  sample_min_seconds := 300;
  crowd_max_age_seconds := 1800;
  crowd_min_new_solves := 5;
  crowd_min_moving_challenges := 3;
  crowd_min_distinct_velocities := 3;
  crowd_max_tie_numerator := 3;
  crowd_max_tie_denominator := 4;
  w_crowd := frac 1 1;
  w_value := frac 1 2;
  w_lease := frac 3 4;
  w_progress := frac 5 4;
  w_category := frac 1 1;
  w_spend := frac 3 2;
  knee_seconds := 600;
  floor_seconds := 300;
  tier_step := frac 1 4;
  ceiling_fraction := frac 1 5;
  attempts_full := 6;
  checkpoints_full := 3;
  tier_cap := 3;
  explore_every := 4;
  concurrency := 1
|}.

Definition PolicyDials_document (d : PolicyDials) : json :=
  JObj [
    ("version", JInt (version d));
    ("sample_min_seconds", JInt (sample_min_seconds d));
    ("crowd_max_age_seconds", JInt (crowd_max_age_seconds d));
    ("crowd_min_new_solves", JInt (crowd_min_new_solves d));
    ("crowd_min_moving_challenges", JInt (crowd_min_moving_challenges d));
    ("crowd_min_distinct_velocities", JInt (crowd_min_distinct_velocities d));
    ("crowd_max_tie_numerator", JInt (crowd_max_tie_numerator d));
    ("crowd_max_tie_denominator", JInt (crowd_max_tie_denominator d));
    ("w_crowd", fraction_json (w_crowd d));
    ("w_value", fraction_json (w_value d));
    ("w_lease", fraction_json (w_lease d));
    ("w_progress", fraction_json (w_progress d));
    ("w_category", fraction_json (w_category d));
    ("w_spend", fraction_json (w_spend d));
    ("knee_seconds", JInt (knee_seconds d));
    ("floor_seconds", JInt (floor_seconds d));
    ("tier_step", fraction_json (tier_step d));
    ("ceiling_fraction", fraction_json (ceiling_fraction d));
    ("attempts_full", JInt (attempts_full d));
    ("checkpoints_full", JInt (checkpoints_full d));
    ("tier_cap", JInt (tier_cap d));
    ("explore_every", JInt (explore_every d));
    ("concurrency", JInt (concurrency d))].

(** ** The facts Order consumes *)

Record CrowdSource : Type := {
  structurally_trusted : bool;
  synthetic : bool;
  control_digest : string
}.

Definition CrowdSource_document (c : CrowdSource) : json :=
  JObj [
    ("structurally_trusted", JBool (structurally_trusted c));
    ("synthetic", JBool (synthetic c));
    ("control_digest", JStr (control_digest c))].

Record OrderAuthority : Type := {
  snapshot : IntakeSnapshot;
  fence : PriorFence;
  history : list IntakeSnapshot;
  effective_max_challenges : Z;
  crowd_source : CrowdSource
}.

Definition OrderAuthority_document `{Digester} (a : OrderAuthority) : json :=
  JObj [
    ("snapshot_digest", JStr (snapshot_digest (snapshot a)));
    ("fence", PriorFence_document (fence a));
    ("history_digests", JList ((fun item => JStr (snapshot_digest item)) <$> history a));
    ("effective_max_challenges", JInt (effective_max_challenges a));
    ("crowd_source", CrowdSource_document (crowd_source a))].

Record AdmissionFact : Type := {
  af_challenge_id : TypedId;
  admissible : bool;
  af_reason : string;
  evidence_digest : string;
  safe_deadline : option moment
}.

Definition AdmissionFact_document (f : AdmissionFact) : json :=
  JObj [
    ("challenge_id", TypedId_document (af_challenge_id f));
    ("admissible", JBool (admissible f));
    ("reason", JStr (af_reason f));
    ("evidence_digest", JStr (evidence_digest f));
    ("safe_deadline", moment_json (safe_deadline f))].

Record AttemptFact : Type := {
  at_challenge_id : TypedId;
  at_attempt_id : string;
  at_category : string;
  seconds_ms : Z;
  checkpoints : Z;
  disposition : string;
  at_source_event_digest : string;
  checkpoint_event_digests : list string
}.

Definition AttemptFact_document (f : AttemptFact) : json :=
  JObj [
    ("challenge_id", TypedId_document (at_challenge_id f));
    ("attempt_id", JStr (at_attempt_id f));
    ("category", JStr (at_category f));
    ("seconds_ms", JInt (seconds_ms f));
    ("checkpoints", JInt (checkpoints f));
    ("disposition", JStr (disposition f));
    ("source_event_digest", JStr (at_source_event_digest f));
    ("checkpoint_event_digests", JList (JStr <$> checkpoint_event_digests f))].

Record PriorCrowd : Type := {
  pc_challenge_id : TypedId;
  pc_state : string;
  consecutive_passes : Z;
  consecutive_failures : Z;
  pc_velocity : option Qc;
  last_qualified_tier : option Z;
  pc_source_event_digest : string;
  qualified_at : option moment
}.

Definition option_json {A} (f : A -> json) (o : option A) : json :=
  match o with Some a => f a | None => JNull end.

Definition PriorCrowd_document (p : PriorCrowd) : json :=
  JObj [
    ("challenge_id", TypedId_document (pc_challenge_id p));
    ("state", JStr (pc_state p));
    ("consecutive_passes", JInt (consecutive_passes p));
    ("consecutive_failures", JInt (consecutive_failures p));
    ("velocity", option_json fraction_json (pc_velocity p));
    ("last_qualified_tier", option_json JInt (last_qualified_tier p));
    ("source_event_digest", JStr (pc_source_event_digest p));
    ("qualified_at", moment_json (qualified_at p))].

Record DurableTier : Type := {
  dt_challenge_id : TypedId;
  dt_tier : Z;
  dt_source_event_digest : string
}.

Definition DurableTier_document (t : DurableTier) : json :=
  JObj [
    ("challenge_id", TypedId_document (dt_challenge_id t));
    ("tier", JInt (dt_tier t));
    ("source_event_digest", JStr (dt_source_event_digest t))].

Record ActiveGrant : Type := {
  ag_attempt_id : string;
  ag_generation_id : string;
  ag_challenge_id : TypedId;
  ag_tier : Z;
  ag_budget_s : Z;
  ag_deadline : moment;
  ag_order_event_digest : string
}.

Definition ActiveGrant_document (g : ActiveGrant) : json :=
  JObj [
    ("attempt_id", JStr (ag_attempt_id g));
    ("generation_id", JStr (ag_generation_id g));
    ("challenge_id", TypedId_document (ag_challenge_id g));
    ("tier", JInt (ag_tier g));
    ("budget_s", JInt (ag_budget_s g));
    ("deadline", JStr (isoformat (ag_deadline g)));
    ("order_event_digest", JStr (ag_order_event_digest g))].

Record OrderFence : Type := {
  of_publication_id : string;
  of_decision_digest : string;
  of_boundary_event_digest : string
}.

Definition OrderFence_document (f : OrderFence) : json :=
  JObj [
    ("publication_id", JStr (of_publication_id f));
    ("decision_digest", JStr (of_decision_digest f));
    ("boundary_event_digest", JStr (of_boundary_event_digest f))].

Record OrderRunFacts : Type := {
  boundary_id : string;
  boundary_at : moment;
  final_submission_cutoff : moment;
  window_seconds : Z;
  next_generation : Z;
  window_digest : string;
  generation_projection_digest : string;
  intake_event_digest : string;
  submission_tail_seconds : Z;
  boundary_clock_event_digest : string;
  leased : list TypedId;
  solved : list TypedId;
  active_grants : list ActiveGrant;
  attempts : list AttemptFact;
  prior_crowd : list PriorCrowd;
  durable_tiers : list DurableTier;
  admission : list AdmissionFact;
  prior_order_fence : OrderFence;
  boundary_fact_event_digest : string;
  final_chance_available : bool
}.

Definition OrderRunFacts_document (r : OrderRunFacts) : json :=
  JObj [
    ("boundary_id", JStr (boundary_id r));
    ("boundary_at", JStr (isoformat (boundary_at r)));
    ("final_submission_cutoff", JStr (isoformat (final_submission_cutoff r)));
    ("window_seconds", JInt (window_seconds r));
    ("next_generation", JInt (next_generation r));
    ("window_digest", JStr (window_digest r));
    ("generation_projection_digest", JStr (generation_projection_digest r));
    ("intake_event_digest", JStr (intake_event_digest r));
    ("submission_tail_seconds", JInt (submission_tail_seconds r));
    ("boundary_clock_event_digest", JStr (boundary_clock_event_digest r));
    ("leased", JList (TypedId_document <$> leased r));
    ("solved", JList (TypedId_document <$> solved r));
    ("active_grants", JList (ActiveGrant_document <$> active_grants r));
    ("attempts", JList (AttemptFact_document <$> attempts r));
    ("prior_crowd", JList (PriorCrowd_document <$> prior_crowd r));
    ("durable_tiers", JList (DurableTier_document <$> durable_tiers r));
    ("admission", JList (AdmissionFact_document <$> admission r));
    ("prior_order_fence", OrderFence_document (prior_order_fence r));
    ("boundary_fact_event_digest", JStr (boundary_fact_event_digest r));
    ("final_chance_available", JBool (final_chance_available r))].

Record OrderInput : Type := {
  oi_authority : OrderAuthority;
  oi_run : OrderRunFacts;
  oi_dials : PolicyDials
}.

Definition OrderInput_document `{Digester} (i : OrderInput) : json :=
  JObj [
    ("schema_version", JInt 1);
    ("authority", OrderAuthority_document (oi_authority i));
    ("run", OrderRunFacts_document (oi_run i));
    ("dials", PolicyDials_document (oi_dials i))].

(** ** The decision *)

Record CrowdDecision : Type := {
  cd_state : string;
  cd_reason : string;
  cd_velocity : option Qc;
  cd_percentile : Qc;
  cd_reliability : Qc;
  cd_activity_digest : string
}.

Record Components : Type := {
  c_crowd : Qc;
  c_value : Qc;
  c_lease : Qc;
  c_progress : Qc;
  c_category : Qc;
  c_spend : Qc
}.

(** [(position, 0, int)] or [(position, 1, str)]. *)
Definition tie_break_key : Type := Z * (Z + string).

Record OrderRow : Type := {
  row_challenge_id : TypedId;
  row_name : string;
  row_category : string;
  row_revision_digest : string;
  rank : Z;
  order_value : Qc;
  components : Components;
  row_crowd : CrowdDecision;
  base_tier : Z;
  final_tier : Z;
  budget_s : Z;
  committed : bool;
  demoted : bool;
  deferred_reason : string;
  deferred_evidence_digest : string;
  tie_break : tie_break_key
}.

Record OrderDecision : Type := {
  od_boundary_id : string;
  od_boundary_at : moment;
  od_snapshot_digest : string;
  od_intake_fence : PriorFence;
  od_policy_digest : string;
  od_input_digest : string;
  od_input_document : json;
  order_value_basis : string;
  fallback_reason : string;
  rows : list OrderRow;
  working_set : list TypedId;
  od_active_grants : list ActiveGrant;
  grant : option ActiveGrant;
  grant_exploring : bool;
  interval : string;
  final_interval_seconds : Z;
  history_digests : list string
}.

Record Transition : Type := {
  passed : bool;
  tr_reason : string;
  tr_velocities : list (TypedId * Qc);
  tr_activity_digest : string
}.

Definition boundary_source_document (r : OrderRunFacts) : json :=
  JObj [
    ("schema_version", JInt 1);
    ("record", JStr "boundary-facts");
    ("boundary_id", JStr (boundary_id r));
    ("boundary_at", JStr (isoformat (boundary_at r)));
    ("final_submission_cutoff", JStr (isoformat (final_submission_cutoff r)));
    ("window_seconds", JInt (window_seconds r));
    ("next_generation", JInt (next_generation r));
    ("window_digest", JStr (window_digest r));
    ("generation_projection_digest", JStr (generation_projection_digest r));
    ("intake_event_digest", JStr (intake_event_digest r));
    ("submission_tail_seconds", JInt (submission_tail_seconds r));
    ("boundary_clock_event_digest", JStr (boundary_clock_event_digest r));
    ("leased", JList (TypedId_document <$> leased r));
    ("solved", JList (TypedId_document <$> solved r));
    ("prior_order_fence", OrderFence_document (prior_order_fence r));
    ("final_chance_available", JBool (final_chance_available r))].

Definition CrowdDecision_document (c : CrowdDecision) : json :=
  JObj [
    ("state", JStr (cd_state c));
    ("reason", JStr (cd_reason c));
    ("velocity", option_json fraction_json (cd_velocity c));
    ("percentile", fraction_json (cd_percentile c));
    ("reliability", fraction_json (cd_reliability c));
    ("activity_digest", JStr (cd_activity_digest c))].

Definition Components_document (c : Components) : json :=
  JObj [
    ("crowd", fraction_json (c_crowd c));
    ("value", fraction_json (c_value c));
    ("lease", fraction_json (c_lease c));
    ("progress", fraction_json (c_progress c));
    ("category", fraction_json (c_category c));
    ("spend", fraction_json (c_spend c))].

Definition tie_break_json (t : tie_break_key) : json :=
  JList match t with
  | (p, inl v) => [JInt p; JInt 0; JInt v]
  | (p, inr v) => [JInt p; JInt 1; JStr v]
  end.

Definition OrderRow_document (r : OrderRow) : json :=
  JObj [
    ("challenge_id", TypedId_document (row_challenge_id r));
    ("name", JStr (row_name r));
    ("category", JStr (row_category r));
    ("revision_digest", JStr (row_revision_digest r));
    ("rank", JInt (rank r));
    ("order_value", fraction_json (order_value r));
    ("components", Components_document (components r));
    ("crowd", CrowdDecision_document (row_crowd r));
    ("base_tier", JInt (base_tier r));
    ("final_tier", JInt (final_tier r));
    ("budget_s", JInt (budget_s r));
    ("committed", JBool (committed r));
    ("demoted", JBool (demoted r));
    ("deferred_reason", JStr (deferred_reason r));
    ("deferred_evidence_digest", JStr (deferred_evidence_digest r));
    ("tie_break", tie_break_json (tie_break r))].

Definition OrderDecision_document (d : OrderDecision) : json :=
  JObj [
    ("schema_version", JInt 1);
    ("boundary_id", JStr (od_boundary_id d));
    ("boundary_at", JStr (isoformat (od_boundary_at d)));
    ("snapshot_digest", JStr (od_snapshot_digest d));
    ("intake_fence", PriorFence_document (od_intake_fence d));
    ("policy_digest", JStr (od_policy_digest d));
    ("input_digest", JStr (od_input_digest d));
    ("input_document", od_input_document d);
    ("order_value_basis", JStr (order_value_basis d));
    ("fallback_reason", JStr (fallback_reason d));
    ("rows", JList (OrderRow_document <$> rows d));
    ("working_set", JList (TypedId_document <$> working_set d));
    ("active_grants", JList (ActiveGrant_document <$> od_active_grants d));
    ("grant", option_json ActiveGrant_document (grant d));
    ("grant_exploring", JBool (grant_exploring d));
    ("interval", JStr (interval d));
    ("final_interval_seconds", JInt (final_interval_seconds d));
    ("history_digests", JList (JStr <$> history_digests d))].

(** ** Population and values *)

Definition elem {A} `{EqDecision A} (x : A) (l : list A) : bool := bool_decide (x ∈ l).

Definition undeployable (c : ChallengeSnapshot) : bool :=
  let shared := bool_decide (pv_state (cs_shared c) = "value")
                && bool_decide (pv_value (cs_shared c) = JBool true) in
  let instanced := negb (elem (challenge_type c) ["standard"; "dynamic"; ""]) in
  shared && instanced.

Definition population (cs : list ChallengeSnapshot) (solved : list TypedId) : list ChallengeSnapshot :=
  List.filter (fun c =>
    negb (elem (challenge_id c) solved)
    && negb (bool_decide (vf_outcome (cs_solved c) = "answered")
             && bool_decide (vf_value (cs_solved c) = JBool true))
    && negb (undeployable c)) cs.

(** A settled non-negative integer fact, [None] for anything else. *)
Definition settled_int (v : ValueFact) : option Z :=
  if bool_decide (vf_outcome v = "answered") then
    match vf_value v with JInt n => if 0 <=? n then Some n else None | _ => None end
  else None.

Definition unsettled (v : ValueFact) : bool := bool_decide (settled_int v = None).
Definition int_value (v : ValueFact) : Z := default 0 (settled_int v).

Definition value_basis (pop : list ChallengeSnapshot) : string * string * list (TypedId * Qc) :=
  match min_by (fun c => TypedId_sort_key (challenge_id c))
          (List.filter (fun c => unsettled (cs_value c)) pop) with
  | Some first =>
      ("unit-fallback",
       "challenge-value-unsettled:" +:+ tid_kind (challenge_id first) +:+ ":"
         +:+ tid_text (challenge_id first),
       (fun c => (challenge_id c, frac 1 1)) <$> pop)
  | None =>
      let maximum := maxZ 0 ((fun c => int_value (cs_value c)) <$> pop) in
      ("coherent-challenge-values", "",
       (fun c => (challenge_id c,
          if maximum =? 0 then frac 0 1 else frac (int_value (cs_value c)) maximum)) <$> pop)
  end.

(** ** The snapshots Order compares *)

Section order.
Context `{Digester}.

Definition history_candidates (a : OrderAuthority) : list IntakeSnapshot :=
  let current := snapshot a in
  let eligible := List.filter (fun i => at_or_before (observed_at i) (observed_at current)) (history a) in
  dict_values (dict_set (snapshot_digest current) current (dict_of snapshot_digest eligible)).

(** The latest candidate at least [sample_min_seconds] before [before_] and no
    older than [crowd_max_age_seconds] before the current snapshot. *)
Definition earlier_sample (cands : list IntakeSnapshot) (current before_ : IntakeSnapshot)
    (d : PolicyDials) : option IntakeSnapshot :=
  let lower := instant (observed_at current) - us_per_second * crowd_max_age_seconds d in
  let upper := instant (observed_at before_) - us_per_second * sample_min_seconds d in
  max_by (fun i => (instant (observed_at i), snapshot_digest i))
    (List.filter (fun i => (lower <=? instant (observed_at i)) && (instant (observed_at i) <=? upper)) cands).

Fixpoint history_samples (n : nat) (cands : list IntakeSnapshot) (current before_ : IntakeSnapshot)
    (d : PolicyDials) : list IntakeSnapshot :=
  match n with
  | O => []
  | S n =>
      match earlier_sample cands current before_ d with
      | None => []
      | Some s => s :: history_samples n cands current s d
      end
  end.

Definition select_history (a : OrderAuthority) (d : PolicyDials) : list IntakeSnapshot :=
  snapshot a :: history_samples 2 (history_candidates a) (snapshot a) (snapshot a) d.

(** ** Crowd *)

(** [Counter(values)]. *)
Definition counter (l : list Qc) : list (Qc * Z) :=
  foldl (fun d x => dict_set x (default 0 (dict_get x d) + 1) d) [] l.

Definition row_get (name : string) (row : list (string * json)) : json :=
  default JNull (dict_get name row).

Definition scoreboard_rows (s : IntakeSnapshot) : list (json * json * json) :=
  (fun row => (row_get "rank" row, row_get "name" row, row_get "score" row)) <$>
  List.filter (fun row =>
    bool_decide (row_get "source" row = JStr "scoreboard")
    && bool_decide (row_get "observed_at" row = JStr (isoformat (observed_at s)))) (scoreboard s).

Definition scoreboard_activity (earlier later : IntakeSnapshot) : bool :=
  let before_ := scoreboard_rows earlier in
  let after := scoreboard_rows later in
  negb (bool_decide (before_ = [])) && negb (bool_decide (after = []))
  && negb (bool_decide (before_ = after)).

Definition transition (earlier later : IntakeSnapshot) (pop : list ChallengeSnapshot)
    (d : PolicyDials) : Transition :=
  let elapsed_us := us_between (observed_at later) (observed_at earlier) in
  let earlier_by_id := dict_of challenge_id (challenges earlier) in
  let later_by_id := dict_of challenge_id (challenges later) in
  let pairs := omap (fun k =>
      e ← dict_get k earlier_by_id; l ← dict_get k later_by_id; Some (k, (cs_solves e, cs_solves l)))
    (remove_dups (challenge_id <$> pop)) in
  if py_any (fun p => unsettled p.2.1 || unsettled p.2.2) pairs then
    {| passed := false; tr_reason := "solve-values-unsettled"; tr_velocities := [];
       tr_activity_digest := "" |}
  else
    let deltas := (fun p => (p.1, Z.max 0 (int_value p.2.2 - int_value p.2.1))) <$> pairs in
    let velocities :=
      if 0 <? elapsed_us
      then (fun p => (p.1, frac (p.2 * 1000000) elapsed_us)) <$> deltas
      else [] in
    let separated := (sample_min_seconds d * 1000000 <=? elapsed_us)
                     && (elapsed_us <=? crowd_max_age_seconds d * 1000000) in
    let activity := scoreboard_activity earlier later in
    let activity_digest :=
      if activity then digest (JObj [
        ("earlier_at", JStr (isoformat (observed_at earlier)));
        ("later_at", JStr (isoformat (observed_at later)));
        ("earlier_scoreboard", JList (JObj <$> scoreboard earlier));
        ("later_scoreboard", JList (JObj <$> scoreboard later))])
      else "" in
    let counts := counter (dict_values velocities) in
    let discrimination :=
      (crowd_min_new_solves d <=? sumZ (dict_values deltas))
      && (crowd_min_moving_challenges d <=? py_len (List.filter (fun x => 0 <? x) (dict_values deltas)))
      && (crowd_min_distinct_velocities d <=? py_len counts)
      && negb (bool_decide (counts = []))
      && (maxZ 0 (dict_values counts) * crowd_max_tie_denominator d
            <? py_len velocities * crowd_max_tie_numerator d) in
    {| passed := separated && activity && discrimination;
       tr_reason :=
         if separated && activity && discrimination then "qualified-transition"
         else if negb separated then "sample-separation-invalid"
         else if negb activity then "activity-unproved"
         else "discrimination-unproved";
       tr_velocities := velocities;
       tr_activity_digest := activity_digest |}.

(** Cumulative counts over the sorted distinct values. *)
Fixpoint percentile_table (n cumulative : Z) (sorted : list (Qc * Z)) : list (Qc * Qc) :=
  match sorted with
  | [] => []
  | (value, equal) :: rest =>
      (value, frac (2 * cumulative + equal - 1) (2 * (n - 1)))
      :: percentile_table n (cumulative + equal) rest
  end.

Definition percentiles (values : list (TypedId * Qc)) : list (TypedId * Qc) :=
  if py_len values =? 1 then (fun kv => (kv.1, half)) <$> values
  else
    let table := percentile_table (py_len values) 0 (sort_by fst (counter (dict_values values))) in
    (fun kv => (kv.1, default half (dict_get kv.2 table))) <$> values.

(** [bool(t and t.passed and key in t.velocities)]. *)
Definition pass_for (t : option Transition) (key : TypedId) : bool :=
  match t with
  | Some t => passed t && bool_decide (is_Some (dict_get key (tr_velocities t)))
  | None => false
  end.

(** State, reason and, unless it expired, the velocity of one Challenge. *)
Definition crowd_state (run : OrderRunFacts) (d : PolicyDials) (newest older : option Transition)
    (previous : option PriorCrowd) (key : TypedId) : string * string * option Qc :=
  let expired := match previous with
    | Some p => match last_qualified_tier p, qualified_at p with
      | Some _, Some q => us_per_second * crowd_max_age_seconds d <? us_between (boundary_at run) q
      | _, _ => false
      end
    | None => false
    end in
  if expired then ("unavailable", "last-qualified-expired", None) else
  let current_pass := pass_for newest key in
  let older_pass := pass_for older key in
  let was_qualified := match previous with
    | Some p => bool_decide (pc_state p = "qualified") | None => false end in
  let passes := match previous with Some p => 1 <=? consecutive_passes p | None => false end in
  let few_failures := match previous with Some p => consecutive_failures p <? 1 | None => false end in
  let '(state, reason) :=
    if current_pass && (older_pass || was_qualified || passes)
    then ("qualified", "two-qualifying-transitions")
    else if was_qualified && negb current_pass && few_failures
    then ("qualified", "last-qualified-held")
    else ("provisional", match newest with
      | Some t => if negb (passed t) then tr_reason t
                  else if current_pass then "one-qualifying-transition" else "sample-unavailable"
      | None => if current_pass then "one-qualifying-transition" else "sample-unavailable"
      end) in
  let prior_velocity := p ← previous; pc_velocity p in
  let newest_velocity := t ← newest; dict_get key (tr_velocities t) in
  let held := bool_decide (state = "qualified") && bool_decide (reason = "last-qualified-held")
              && bool_decide (is_Some prior_velocity) in
  (state, reason,
   if held then prior_velocity
   else match newest_velocity with Some v => Some v | None => prior_velocity end).

Definition unavailable_crowd (reason : string) : CrowdDecision := {|
  cd_state := "unavailable"; cd_reason := reason; cd_velocity := None;
  cd_percentile := half; cd_reliability := qc 0; cd_activity_digest := "" |}.

Definition crowd (pop : list ChallengeSnapshot) (hist : list IntakeSnapshot) (source : CrowdSource)
    (run : OrderRunFacts) (d : PolicyDials) : list (TypedId * CrowdDecision) :=
  let prior := dict_of pc_challenge_id (prior_crowd run) in
  let all c := (fun item => (challenge_id item, c)) <$> pop in
  if synthetic source || negb (structurally_trusted source) then
    all (unavailable_crowd (if synthetic source then "synthetic-source" else "source-untrusted"))
  else
    let stale := match hist with
      | current :: _ =>
          us_per_second * crowd_max_age_seconds d <? us_between (boundary_at run) (observed_at current)
      | [] => false
      end in
    if stale then all (unavailable_crowd "observation-expired") else
    let transitions := zip_with (fun later earlier => transition earlier later pop d) hist (tail hist) in
    let newest := transitions !! 0%nat in
    let older := transitions !! 1%nat in
    let states := (fun c => let key := challenge_id c in
      (key, crowd_state run d newest older (dict_get key prior) key)) <$> pop in
    let velocities := omap (fun ks => v ← ks.2.2; Some (ks.1, v)) states in
    let table := percentiles velocities in
    (fun ks => let '(key, (state, reason, velocity)) := ks in
      (key, {|
        cd_state := state; cd_reason := reason; cd_velocity := velocity;
        cd_percentile := default half (dict_get key table);
        cd_reliability :=
          if bool_decide (state = "unavailable") then qc 0
          else if bool_decide (state = "qualified") then qc 1 else frac 1 4;
        cd_activity_digest := match newest with Some t => tr_activity_digest t | None => "" end
      |})) <$> states.

Definition crowd_component (c : CrowdDecision) : Qc :=
  (half + cd_reliability c * (cd_percentile c - half))%Qc.

(** ** Tiers *)

Definition FLOOR : Z := 2.

(** [triage.STATED]: the words a stated difficulty is stated in. *)
Definition STATED : list (string * Z) := [
  ("trivial", 1); ("beginner", 1); ("very easy", 1); ("easy", 1); ("baby", 1);
  ("medium", 2); ("moderate", 2); ("intermediate", 2); ("normal", 2);
  ("hard", 3); ("difficult", 3); ("advanced", 3);
  ("very hard", 4); ("insane", 4); ("expert", 4); ("extreme", 4); ("impossible", 4)].

(** [difficulty\W{0,4}[:\-]\W{0,4}\s*([A-Za-z][A-Za-z \-]{0,24})] with [re.I]; the en and em
    dashes of the class are outside the represented code points. *)
Definition difficulty_pattern : list atom :=
  literal_i "difficulty" ++ [
    upto 4 (fun c => negb (is_word c));
    one (fun c => is_code 58 c || is_code 45 c);
    upto 4 (fun c => negb (is_word c));
    star is_space;
    one is_letter;
    upto 24 (fun c => is_letter c || is_code 32 c || is_code 45 c)].

Definition stated_tier (statement : string) : option Z :=
  match re_search difficulty_pattern (chars statement) with
  | Some (groups, _) =>
      let group := concat (drop 14 groups) in
      let word := text (squeeze (lower_char <$> group)) in
      dict_get word STATED
  | None => None
  end.

Definition base_tier_of (c : ChallengeSnapshot) (cd : CrowdDecision) (prior : option PriorCrowd)
    (durable : option DurableTier) : Z :=
  let otherwise :=
    match (p ← prior; last_qualified_tier p) with
    | Some t => t
    | None =>
        match stated_tier (cs_statement c) with
        | Some t => t
        | None =>
            match durable with
            | Some t => if (1 <=? dt_tier t) && (dt_tier t <=? 4) then dt_tier t else FLOOR
            | None => FLOOR
            end
        end
    end in
  match cd_velocity cd with
  | Some v =>
      if bool_decide (cd_state cd = "qualified")
         && negb (bool_decide (cd_reason cd = "last-qualified-held"))
      then if bool_decide (v = qc 0) then 4
           else Z.max 1 (4 - 4 * numerator (cd_percentile cd) / denominator (cd_percentile cd))
      else otherwise
  | None => otherwise
  end.

(** ** Spend, demotion and length *)

(** [_attempts]: the Attempts of each Challenge, in order. *)
Definition attempts_of (l : list AttemptFact) (key : TypedId) : list AttemptFact :=
  List.filter (fun a => bool_decide (at_challenge_id a = key)) l.

Definition ceiling_ms (window : Z) (d : PolicyDials) : Z :=
  Z.max 1 (q_trunc (ceiling_fraction d * qc window * qc 1000)%Qc).

Definition total_ms (l : list AttemptFact) : Z := sumZ (seconds_ms <$> l).

Definition spend_ratio (l : list AttemptFact) (window : Z) (d : PolicyDials) : Qc :=
  q_max (frac (total_ms l) (ceiling_ms window d)) (frac (py_len l) (attempts_full d)).

Definition spend (l : list AttemptFact) (window : Z) (d : PolicyDials) : Qc :=
  q_min (qc 1) (spend_ratio l window d).

Definition is_demoted (l : list AttemptFact) (window : Z) (d : PolicyDials) : bool :=
  py_any (fun a => bool_decide (disposition a = "interrupt")) l
  || q_leb (qc 1) (spend_ratio l window d).

Definition tier_length (tier : Z) (d : PolicyDials) : Z :=
  let weight := (qc 1 + qc (tier - FLOOR) * tier_step d)%Qc in
  Z.max (floor_seconds d) (q_trunc (qc (knee_seconds d) * weight)%Qc).

Definition position (c : ChallengeSnapshot) : Z :=
  match pv_value (cs_position c) with
  | JInt n => if bool_decide (pv_state (cs_position c) = "value") then n else 2 ^ 63 - 1
  | _ => 2 ^ 63 - 1
  end.

Definition tie_break_of (pos : Z) (i : TypedId) : tie_break_key :=
  match i with IntegerId v => (pos, inl v) | TextId _ v _ => (pos, inr v) end.

Definition attempts_affordable (seconds : Z) (lengths : list Z) (floor : Z) : Z :=
  if (seconds <? floor) || bool_decide (lengths = []) then 0
  else Z.max 1 (q_floordiv (frac seconds 1) (frac (sumZ lengths) (py_len lengths))).

(** ** Categories *)

Definition max_q (l : list Qc) : Qc := default (qc 0) (max_by id l).

(** [grouped]: Attempts by category, first seen first. *)
Definition by_category (l : list AttemptFact) : list (string * list AttemptFact) :=
  foldl (fun d a => dict_set (at_category a) (default [] (dict_get (at_category a) d) ++ [a]) d) [] l.

Definition category_rate (items : list AttemptFact) : Qc :=
  frac (py_len (List.filter (fun a => bool_decide (disposition a = "complete")) items) * 4
          + sumZ (checkpoints <$> items))
       (4 * Z.max 1 (total_ms items)).

Definition category_rates (l : list AttemptFact) : list (string * Qc) :=
  (fun ci => (ci.1, category_rate ci.2)) <$>
  List.filter (fun ci => (3 <=? py_len ci.2) && (1200000 <=? total_ms ci.2)) (by_category l).

Definition category_component (rates : list (string * Qc)) (category : string) : Qc :=
  let top := max_q (dict_values rates) in
  match dict_get category rates with
  | Some rate => if bool_decide (top = qc 0) then half else (rate / top)%Qc
  | None => half
  end.

Definition weak_categories (rates : list (string * Qc)) : list string :=
  if 4 <=? py_len rates then
    let ordered := sort_by id (dict_values rates) in
    match ordered !! Z.to_nat ((py_len ordered - 1) / 4) with
    | Some boundary => dict_keys (List.filter (fun cr => q_leb cr.2 boundary) rates)
    | None => []
    end
  else [].

(** ** Validation *)

Definition distinct {A} `{EqDecision A} (l : list A) : bool := bool_decide (NoDup l).

Definition validate_facts (a : OrderAuthority) (run : OrderRunFacts) (d : PolicyDials) : result unit :=
  raise_unless (distinct (challenge_id <$> challenges (snapshot a)))
    (ValueError "Order Intake contains duplicate Challenge identities");;
  raise_if (py_any (fun i => negb (bool_decide (profile_digest i = profile_digest (snapshot a)))) (history a))
    (ValueError "Order history crosses Intake profiles");;
  raise_if (before (final_submission_cutoff run) (boundary_at run)
            || (window_seconds run <? 0) || (next_generation run <? 1))
    (ValueError "Order Run facts contain an invalid clock or generation");;
  raise_if ((floor_seconds d <=? 0) || (knee_seconds d <=? 0) || (attempts_full d <=? 0)
            || (checkpoints_full d <=? 0) || (explore_every d <=? 0) || (concurrency d <=? 0))
    (ValueError "Order policy dials must be positive");;
  raise_unless (distinct ((fun i => (at_challenge_id i, at_attempt_id i)) <$> attempts run)
                && distinct (pc_challenge_id <$> prior_crowd run)
                && distinct (dt_challenge_id <$> durable_tiers run)
                && distinct (af_challenge_id <$> admission run))
    (ValueError "Order Run facts contain duplicate identities").

(** ** The decision *)

(** Everything one row reads besides its Challenge. *)
Record RowContext : Type := {
  rc_run : OrderRunFacts;
  rc_dials : PolicyDials;
  rc_values : list (TypedId * Qc);
  rc_crowd : list (TypedId * CrowdDecision);
  rc_rates : list (string * Qc);
  rc_admission : list (TypedId * AdmissionFact);
  rc_durable : list (TypedId * DurableTier);
  rc_prior : list (TypedId * PriorCrowd)
}.

Definition weighted (d : PolicyDials) (c : Components) : Qc :=
  (w_crowd d * c_crowd c + w_value d * c_value c + w_lease d * c_lease c
   + w_progress d * c_progress c + w_category d * c_category c - w_spend d * c_spend c)%Qc.

Definition deadline_too_short (run : OrderRunFacts) (d : PolicyDials) (fact : option AdmissionFact) : bool :=
  match (f ← fact; safe_deadline f) with
  | Some s => us_between s (boundary_at run) <? us_per_second * floor_seconds d
  | None => false
  end.

Definition deferral (run : OrderRunFacts) (d : PolicyDials) (key : TypedId)
    (fact : option AdmissionFact) : string :=
  if elem key (ag_challenge_id <$> active_grants run) then "active-grant"
  else
    let too_short :=
      if deadline_too_short run d fact then "safe-deadline-below-floor" else "" in
    match fact with
    | Some f => if negb (admissible f) then af_reason f else too_short
    | None => too_short
    end.

Definition provisional_row (x : RowContext) (c : ChallengeSnapshot) : OrderRow :=
  let run := rc_run x in
  let d := rc_dials x in
  let key := challenge_id c in
  let spent := attempts_of (attempts run) key in
  let cd := default (unavailable_crowd "") (dict_get key (rc_crowd x)) in
  let base := base_tier_of c cd (dict_get key (rc_prior x)) (dict_get key (rc_durable x)) in
  let checks := sumZ (checkpoints <$> spent) in
  let weak := if elem (cs_category c) (weak_categories (rc_rates x)) then 1 else 0 in
  let final := Z.min 4 (Z.max 1 (base + weak + Z.min (tier_cap d) checks)) in
  let cs := {|
    c_crowd := crowd_component cd;
    c_value := default (qc 0) (dict_get key (rc_values x));
    c_lease := if elem key (leased run) then frac 1 1 else frac 0 1;
    c_progress := q_min (frac 1 1) (frac checks (checkpoints_full d));
    c_category := category_component (rc_rates x) (cs_category c);
    c_spend := spend spent (window_seconds run) d
  |} in
  let fact := dict_get key (rc_admission x) in
  let deferred := deferral run d key fact in
  {| row_challenge_id := key;
     row_name := cs_name c;
     row_category := cs_category c;
     row_revision_digest := revision_digest c;
     rank := 0;
     order_value := weighted d cs;
     components := cs;
     row_crowd := cd;
     base_tier := base;
     final_tier := final;
     budget_s := tier_length final d;
     committed := false;
     demoted := is_demoted spent (window_seconds run) d;
     deferred_reason := deferred;
     deferred_evidence_digest :=
       match fact with
       | Some f => if bool_decide (deferred = "") then "" else evidence_digest f
       | None => ""
       end;
     tie_break := tie_break_of (position c) key |}.

(** [(row.demoted, -row.order_value, row.tie_break)]. *)
Definition row_key (r : OrderRow) : bool * (Qc * tie_break_key) :=
  (demoted r, ((- order_value r)%Qc, tie_break r)).

Definition with_rank (n : Z) (b : bool) (r : OrderRow) : OrderRow := {|
  row_challenge_id := row_challenge_id r; row_name := row_name r; row_category := row_category r;
  row_revision_digest := row_revision_digest r; rank := n; order_value := order_value r;
  components := components r; row_crowd := row_crowd r; base_tier := base_tier r;
  final_tier := final_tier r; budget_s := budget_s r; committed := b; demoted := demoted r;
  deferred_reason := deferred_reason r; deferred_evidence_digest := deferred_evidence_digest r;
  tie_break := tie_break r |}.

Definition not_deferred (r : OrderRow) : bool := bool_decide (deferred_reason r = "").

(** Sort, commit what the clock affords, and number the rows from one. *)
Definition commit_rows (provisional : list OrderRow) (remaining floor : Z) : list OrderRow :=
  let sorted := sort_by row_key provisional in
  let open_ := List.filter not_deferred sorted in
  let affordable := attempts_affordable remaining (budget_s <$> open_) floor in
  let committed_ids := row_challenge_id <$> py_take affordable open_ in
  (fun ir => with_rank ir.1 (elem (row_challenge_id ir.2) committed_ids) ir.2)
    <$> enumerate 1 sorted.

Definition interval_of (remaining floor : Z) : string :=
  if remaining <=? 0 then "closed" else if remaining <? floor then "final-interval" else "ordinary".

(** [(-(row.order_value - w_crowd * row.components.crowd), row.tie_break)]. *)
Definition explore_key (d : PolicyDials) (r : OrderRow) : Qc * tie_break_key :=
  ((- (order_value r - w_crowd d * c_crowd (components r)))%Qc, tie_break r).

Definition explore_turn (run : OrderRunFacts) (d : PolicyDials) : bool :=
  (next_generation run - 1) mod explore_every d =? explore_every d - 1.

(** The row chosen and whether the exploration share chose it. *)
Definition choose (run : OrderRunFacts) (d : PolicyDials) (inter : string) (final_chance : bool)
    (rs : list OrderRow) : option OrderRow * bool :=
  let open_ := List.filter (fun r => (committed r || final_chance) && not_deferred r) rs in
  if bool_decide (inter = "ordinary") && negb (bool_decide (open_ = [])) && explore_turn run d then
    match min_by (explore_key d)
            (List.filter (fun r => negb (bool_decide (cd_state (row_crowd r) = "qualified"))) open_) with
    | Some r => (Some r, true)
    | None => (head open_, false)
    end
  else (head open_, false).

Definition attempt_name (run : OrderRunFacts) (i : TypedId) : string :=
  let sequence := 1 + py_len (attempts_of (attempts run) i) in
  (match i with
   | IntegerId _ => "i"
   | TextId _ _ _ => "s"
   end) +:+ ":" +:+ tid_text i +:+ "-" +:+ str_int sequence.

Definition grant_for (run : OrderRunFacts) (d : PolicyDials) (remaining : Z) (final_chance : bool)
    (fact : option AdmissionFact) (r : OrderRow) : option ActiveGrant :=
  let safe := match (f ← fact; safe_deadline f) with
    | Some s => seconds_between s (boundary_at run)
    | None => remaining
    end in
  let budget := Z.min (Z.min (budget_s r) remaining) safe in
  if (floor_seconds d <=? budget) || (final_chance && (0 <? budget)) then
    Some {|
      ag_attempt_id := attempt_name run (row_challenge_id r);
      ag_generation_id := "generation-" +:+ pad6 (next_generation run);
      ag_challenge_id := row_challenge_id r;
      ag_tier := final_tier r;
      ag_budget_s := budget;
      ag_deadline := plus_seconds (boundary_at run) budget;
      ag_order_event_digest := "" |}
  else None.

Definition decide_grant (run : OrderRunFacts) (d : PolicyDials) (remaining : Z) (inter : string)
    (adm : list (TypedId * AdmissionFact)) (rs : list OrderRow) : option ActiveGrant * bool :=
  if elem inter ["ordinary"; "final-interval"] && (py_len (active_grants run) <? concurrency d) then
    let final_chance := bool_decide (inter = "final-interval") && final_chance_available run in
    let '(chosen, exploring) := choose run d inter final_chance rs in
    (match chosen with
     | Some r => grant_for run d remaining final_chance (dict_get (row_challenge_id r) adm) r
     | None => None
     end, exploring)
  else (None, false).

Definition row_context (a : OrderAuthority) (hist : list IntakeSnapshot) (run : OrderRunFacts)
    (d : PolicyDials) (pop : list ChallengeSnapshot) : RowContext := {|
  rc_run := run;
  rc_dials := d;
  rc_values := (value_basis pop).2;
  rc_crowd := crowd pop hist (crowd_source a) run d;
  rc_rates := category_rates (attempts run);
  rc_admission := dict_of af_challenge_id (admission run);
  rc_durable := dict_of dt_challenge_id (durable_tiers run);
  rc_prior := dict_of pc_challenge_id (prior_crowd run) |}.

Definition remaining_seconds (run : OrderRunFacts) : Z :=
  Z.max 0 (seconds_between (final_submission_cutoff run) (boundary_at run)).

(** The guards of [decide_order], in its order. *)
Definition check_order (a : OrderAuthority) (run : OrderRunFacts) (d : PolicyDials) : result unit :=
  raise_unless ((0 <=? effective_max_challenges a) && (effective_max_challenges a <=? 100000))
    (ValueError "Order Intake contract maximum is outside the supported bound");;
  raise_unless (bool_decide (pf_snapshot_digest (fence a) = snapshot_digest (snapshot a)))
    (ValueError "Order Intake fence does not name its snapshot");;
  raise_unless (bool_decide (pf_profile_digest (fence a) = profile_digest (snapshot a)))
    (ValueError "Order Intake fence names another profile");;
  raise_if (effective_max_challenges a <? py_len (challenges (snapshot a)))
    (ValueError "Order population exceeds the sealed Intake contract");;
  raise_if (naive (boundary_at run) || naive (final_submission_cutoff run))
    (ValueError "Order boundary clocks must be timezone-aware");;
  raise_if (before (boundary_at run) (observed_at (snapshot a)))
    (ValueError "Order boundary precedes its Intake observation");;
  validate_facts a run d.

Definition decide_order (request : OrderInput) : result OrderDecision :=
  let run := oi_run request in
  let d := oi_dials request in
  let hist := select_history (oi_authority request) d in
  let a := {|
    snapshot := snapshot (oi_authority request);
    fence := fence (oi_authority request);
    history := hist;
    effective_max_challenges := effective_max_challenges (oi_authority request);
    crowd_source := crowd_source (oi_authority request) |} in
  let request := {| oi_authority := a; oi_run := run; oi_dials := d |} in
  check_order a run d;;
  let pop := population (challenges (snapshot a)) (solved run) in
  let x := row_context a hist run d pop in
  let remaining := remaining_seconds run in
  let rs := commit_rows (provisional_row x <$> pop) remaining (floor_seconds d) in
  let inter := interval_of remaining (floor_seconds d) in
  let '(granted, exploring) := decide_grant run d remaining inter (rc_admission x) rs in
  Ok {|
    od_boundary_id := boundary_id run;
    od_boundary_at := boundary_at run;
    od_snapshot_digest := snapshot_digest (snapshot a);
    od_intake_fence := fence a;
    od_policy_digest := digest (PolicyDials_document d);
    od_input_digest := digest (OrderInput_document request);
    od_input_document := OrderInput_document request;
    order_value_basis := (value_basis pop).1.1;
    fallback_reason := (value_basis pop).1.2;
    rows := rs;
    working_set := row_challenge_id <$> List.filter committed rs;
    od_active_grants := active_grants run;
    grant := granted;
    grant_exploring := exploring;
    interval := inter;
    final_interval_seconds := if bool_decide (inter = "final-interval") then remaining else 0;
    history_digests := snapshot_digest <$> hist |}.
End order.

(** ** What the next boundary reads of this one *)

(** [order_runtime._prior_rows] on one replayed row: the row's document carries the fields
    read here, each exactly. *)
Definition prior_of_row (at_ : moment) (event_digest : string) (r : OrderRow) : PriorCrowd := {|
  pc_challenge_id := row_challenge_id r;
  pc_state := cd_state (row_crowd r);
  consecutive_passes :=
    if bool_decide (cd_state (row_crowd r) = "qualified") then 2
    else if bool_decide (cd_state (row_crowd r) = "provisional") then 1 else 0;
  consecutive_failures := if bool_decide (cd_reason (row_crowd r) = "last-qualified-held") then 1 else 0;
  pc_velocity := cd_velocity (row_crowd r);
  last_qualified_tier :=
    if bool_decide (cd_state (row_crowd r) = "qualified") then Some (base_tier r) else None;
  pc_source_event_digest := event_digest;
  qualified_at := if bool_decide (cd_state (row_crowd r) = "qualified") then Some at_ else None |}.

Definition prior_rows (dec : OrderDecision) (event_digest : string) : list PriorCrowd :=
  prior_of_row (od_boundary_at dec) event_digest <$> rows dec.

(** ** Fractions compare by cross multiplication *)

Lemma qc_le a b : (qc a <= qc b)%Qc <-> a <= b.
Proof.
  unfold qc, Qcle. cbn [this Q2Qc]. rewrite !Qred_correct. by rewrite <-Zle_Qle.
Qed.

Lemma qc_lt a b : (qc a < qc b)%Qc <-> a < b.
Proof.
  unfold qc, Qclt. cbn [this Q2Qc]. rewrite !Qred_correct. by rewrite <-Zlt_Qlt.
Qed.

Lemma qc_inj a b : qc a = qc b -> a = b.
Proof. intros E. apply Z.le_antisymm; apply qc_le; rewrite E; apply Qcle_refl. Qed.

Lemma qc_mul a b : (qc a * qc b)%Qc = qc (a * b).
Proof.
  apply Qc_is_canon. unfold qc, Qcmult. cbn [this Q2Qc]. rewrite !Qred_correct.
  by rewrite inject_Z_mult.
Qed.

Lemma qc_pos d : 0 < d -> (0 < qc d)%Qc.
Proof. intros Hd. change 0%Qc with (qc 0). by apply qc_lt. Qed.

Lemma frac_mul n d : 0 < d -> (frac n d * qc d)%Qc = qc n.
Proof.
  intros Hd. unfold frac, Qcdiv. rewrite <-Qcmult_assoc, (Qcmult_comm (/ _)), Qcmult_inv_r.
  - apply Qcmult_1_r.
  - intros E. apply (qc_inj d 0) in E. lia.
Qed.

Lemma frac_le n d q : 0 < d -> (frac n d <= q)%Qc <-> (qc n <= q * qc d)%Qc.
Proof. intros Hd. rewrite <-(frac_mul n d Hd). apply Qcmult_le_mono_pos_r, qc_pos, Hd. Qed.

Lemma frac_ge n d q : 0 < d -> (q <= frac n d)%Qc <-> (q * qc d <= qc n)%Qc.
Proof. intros Hd. rewrite <-(frac_mul n d Hd). apply Qcmult_le_mono_pos_r, qc_pos, Hd. Qed.

Lemma frac_le_1 n d : 0 < d -> (frac n d <= qc 1)%Qc <-> n <= d.
Proof. intros Hd. rewrite frac_le, qc_mul, qc_le by done. by rewrite Z.mul_1_l. Qed.

Lemma frac_ge_1 n d : 0 < d -> (qc 1 <= frac n d)%Qc <-> d <= n.
Proof. intros Hd. rewrite frac_ge, qc_mul, qc_le by done. by rewrite Z.mul_1_l. Qed.

Lemma frac_nonneg n d : 0 < d -> 0 <= n -> (qc 0 <= frac n d)%Qc.
Proof. intros Hd Hn. rewrite frac_ge, qc_mul, qc_le by done. lia. Qed.

Lemma q_leb_le x y : q_leb x y = true <-> (x <= y)%Qc.
Proof.
  unfold q_leb, cmp_leb, cmp, Qc_cmp. rewrite Qcle_alt. destruct (Qccompare x y); split; congruence.
Qed.

Lemma q_max_ge x y z : (z <= q_max x y)%Qc <-> (z <= x)%Qc \/ (z <= y)%Qc.
Proof.
  unfold q_max. destruct (q_leb y x) eqn:E.
  - apply q_leb_le in E. split; [auto|]. intros [?|?]; [done|]. by eapply Qcle_trans.
  - split; [auto|]. intros [?|?]; [|done].
    destruct (Qclt_le_dec x y) as [?|Hle]; [|by apply q_leb_le in Hle; congruence].
    eapply Qcle_trans; [done|]. by apply Qclt_le_weak.
Qed.

Lemma q_min_bounds x y : (q_min x y <= x)%Qc /\ (q_min x y <= y)%Qc.
Proof.
  unfold q_min. destruct (q_leb x y) eqn:E.
  - apply q_leb_le in E. split; [apply Qcle_refl|done].
  - destruct (Qclt_le_dec y x) as [?|Hle]; [|by apply q_leb_le in Hle; congruence].
    split; [by apply Qclt_le_weak|apply Qcle_refl].
Qed.

Lemma q_min_ge x y z : (z <= x)%Qc -> (z <= y)%Qc -> (z <= q_min x y)%Qc.
Proof. unfold q_min. by destruct (q_leb x y). Qed.
