(* ===== verification/OrderFacts.v ===== *)
(** Properties of Order: what [OrderPolicy.decide_order] promises to whoever
    publishes or consumes its decision. *)

From S2P Require Import Prelude Canon Moment Text Intake OrderPolicy.
From Stdlib Require Import Sorted.
Local Open Scope Z_scope.

(** ** Rows and ranks *)

Lemma commit_rows_lookup prov remaining floor (i : nat) :
  exists b, commit_rows prov remaining floor !! i
    = (fun r => with_rank (1 + Z.of_nat i) (b r) r) <$> sort_by row_key prov !! i.
Proof.
  eexists. unfold commit_rows. rewrite list_lookup_fmap, enumerate_lookup.
  destruct (sort_by row_key prov !! i); cbn; [|done].
  instantiate (1 := fun r => elem (row_challenge_id r) _). reflexivity.
Qed.

Lemma commit_rows_ids prov remaining floor :
  row_challenge_id <$> commit_rows prov remaining floor
  = row_challenge_id <$> sort_by row_key prov.
Proof.
  apply list_eq. intros i. rewrite !list_lookup_fmap.
  destruct (commit_rows_lookup prov remaining floor i) as [b ->].
  by destruct (sort_by row_key prov !! i).
Qed.

Lemma commit_rows_length prov remaining floor :
  length (commit_rows prov remaining floor) = length prov.
Proof.
  unfold commit_rows. rewrite length_fmap, enumerate_length.
  apply Permutation_length, sort_by_perm.
Qed.

Lemma commit_rows_elem prov remaining floor r :
  r ∈ commit_rows prov remaining floor ->
  exists p n b, p ∈ prov /\ r = with_rank n b p.
Proof.
  intros [i Hi]%list_elem_of_lookup.
  destruct (commit_rows_lookup prov remaining floor i) as [b Hb].
  rewrite Hb in Hi. destruct (sort_by row_key prov !! i) as [p|] eqn:E; [|done].
  cbn in Hi. injection Hi as <-. exists p. do 2 eexists. split; [|done].
  rewrite <-(sort_by_perm row_key). apply list_elem_of_lookup. eauto.
Qed.

Lemma commit_rows_key prov remaining floor (i : nat) r :
  commit_rows prov remaining floor !! i = Some r ->
  exists p, sort_by row_key prov !! i = Some p /\ row_key r = row_key p.
Proof.
  destruct (commit_rows_lookup prov remaining floor i) as [b ->].
  destruct (sort_by row_key prov !! i) as [p|]; [|done]. cbn. intros [= <-]. eauto.
Qed.

Lemma StronglySorted_lookup {A} (R : A -> A -> Prop) (l : list A) (i j : nat) (x y : A) :
  StronglySorted R l -> (i < j)%nat -> l !! i = Some x -> l !! j = Some y -> R x y.
Proof.
  intros Hs. revert i j. induction Hs as [|z l Hs IH Hz]; intros i j Hij; [done|].
  destruct i as [|i], j as [|j]; try lia; cbn.
  - intros [= ->] Hj. rewrite Forall_forall in Hz. apply Hz. apply list_elem_of_lookup. eauto.
  - apply IH. lia.
Qed.

(** What [decide_order] returned, as the parts it was assembled from. *)
Section decided.
Context `{Digester} (request : OrderInput) (dec : OrderDecision).

Definition the_history : list IntakeSnapshot := select_history (oi_authority request) (oi_dials request).
Definition the_authority : OrderAuthority := {|
  snapshot := snapshot (oi_authority request); fence := fence (oi_authority request);
  history := the_history;
  effective_max_challenges := effective_max_challenges (oi_authority request);
  crowd_source := crowd_source (oi_authority request) |}.
Definition the_population : list ChallengeSnapshot :=
  population (challenges (snapshot (oi_authority request))) (solved (oi_run request)).
Definition the_context : RowContext :=
  row_context the_authority the_history (oi_run request) (oi_dials request) the_population.

Hypothesis Hdec : decide_order request = Ok dec.

Lemma decide_order_checked :
  check_order the_authority (oi_run request) (oi_dials request) = Ok tt.
Proof.
  unfold decide_order in Hdec. cbn zeta in Hdec.
  change (check_order _ _ _) with
    (check_order the_authority (oi_run request) (oi_dials request)) in Hdec.
  destruct (check_order the_authority (oi_run request) (oi_dials request)) as [[]|]; [done|discriminate].
Qed.

Lemma decide_order_parts :
  rows dec = commit_rows (provisional_row the_context <$> the_population)
    (remaining_seconds (oi_run request)) (floor_seconds (oi_dials request))
  /\ interval dec = interval_of (remaining_seconds (oi_run request)) (floor_seconds (oi_dials request))
  /\ (grant dec, grant_exploring dec) =
     decide_grant (oi_run request) (oi_dials request) (remaining_seconds (oi_run request))
       (interval dec) (rc_admission the_context) (rows dec).
Proof.
  pose proof decide_order_checked as Hc.
  unfold decide_order in Hdec. cbn zeta in Hdec.
  change (check_order _ _ _) with
    (check_order the_authority (oi_run request) (oi_dials request)) in Hdec.
  rewrite Hc in Hdec. cbn -[decide_grant commit_rows] in Hdec.
  fold the_population the_history in Hdec.
  change (row_context _ _ _ _ _) with the_context in Hdec.
  destruct (decide_grant _ _ _ _ _ _) as [g e] eqn:E in Hdec.
  injection Hdec as <-. cbn -[decide_grant commit_rows]. by rewrite <-E.
Qed.

Lemma decide_order_working_set :
  working_set dec = row_challenge_id <$> List.filter committed (rows dec).
Proof.
  pose proof decide_order_checked as Hc.
  unfold decide_order in Hdec. cbn zeta in Hdec.
  change (check_order _ _ _) with
    (check_order the_authority (oi_run request) (oi_dials request)) in Hdec.
  rewrite Hc in Hdec. cbn -[decide_grant commit_rows] in Hdec.
  destruct (decide_grant _ _ _ _ _ _) as [g e] in Hdec. by injection Hdec as <-.
Qed.
End decided.

(** What passing every guard establishes. *)
Record sound_input (a : OrderAuthority) (run : OrderRunFacts) (d : PolicyDials) : Prop := {
  si_distinct : NoDup (challenge_id <$> challenges (snapshot a));
  si_cutoff : instant (boundary_at run) <= instant (final_submission_cutoff run);
  si_observed : instant (observed_at (snapshot a)) <= instant (boundary_at run);
  si_window : 0 <= window_seconds run;
  si_generation : 1 <= next_generation run;
  si_floor : 0 < floor_seconds d;
  si_knee : 0 < knee_seconds d;
  si_attempts : 0 < attempts_full d;
  si_checkpoints : 0 < checkpoints_full d;
  si_explore : 0 < explore_every d;
  si_concurrency : 0 < concurrency d;
  si_prior : NoDup (pc_challenge_id <$> prior_crowd run);
  si_durable : NoDup (dt_challenge_id <$> durable_tiers run);
  si_admission : NoDup (af_challenge_id <$> admission run)
}.

Lemma check_order_sound `{Digester} a run d :
  check_order a run d = Ok tt -> sound_input a run d.
Proof.
  unfold check_order, validate_facts, distinct, before. intros Hc. inv_ok. bool_to_prop.
  split; try done; lia.
Qed.

Lemma decided_sound `{Digester} request dec :
  decide_order request = Ok dec ->
  sound_input (the_authority request) (oi_run request) (oi_dials request).
Proof. intros Hdec. by eapply check_order_sound, decide_order_checked. Qed.

Lemma population_sublist cs done_ : population cs done_ `sublist_of` cs.
Proof.
  unfold population. induction cs as [|c cs IH]; cbn; [done|].
  destruct (_ && _); [by apply sublist_skip|by apply sublist_cons].
Qed.

Lemma population_NoDup cs done_ :
  NoDup (challenge_id <$> cs) -> NoDup (challenge_id <$> population cs done_).
Proof.
  intros Hnd. eapply sublist_NoDup; [exact Hnd|]. apply fmap_sublist, population_sublist.
Qed.

Lemma population_elem cs done_ c :
  c ∈ population cs done_ <->
  c ∈ cs /\ (challenge_id c ∉ done_)
  /\ ~ (vf_outcome (cs_solved c) = "answered" /\ vf_value (cs_solved c) = JBool true)
  /\ undeployable c = false.
Proof.
  unfold population, elem. rewrite (list_elem_of_In (List.filter _ cs)), List.filter_In.
  rewrite <-list_elem_of_In, !andb_true_iff, !negb_true_iff, andb_false_iff, !bool_decide_eq_false.
  destruct (decide (vf_outcome (cs_solved c) = "answered")),
    (decide (vf_value (cs_solved c) = JBool true)); tauto.
Qed.

Lemma provisional_ids `{Digester} request :
  row_challenge_id <$> (provisional_row (the_context request) <$> the_population request)
  = challenge_id <$> the_population request.
Proof. rewrite <-list_fmap_compose. by apply list_fmap_ext. Qed.

Lemma order_rank `{Digester} request dec (Hdec : decide_order request = Ok dec) (i : nat) r :
  rows dec !! i = Some r -> rank r = 1 + Z.of_nat i.
Proof.
  destruct (decide_order_parts _ _ Hdec) as (-> & _ & _). intros Hi.
  edestruct commit_rows_lookup as [b Hb]. rewrite Hb in Hi.
  destruct (sort_by row_key _ !! i); [|done]. by injection Hi as <-.
Qed.

(** A Challenge of the Board that Order ranks: the Run has not solved it, the Board does not say that
    it is solved, and it is not an Instance the whole event shares. *)
Definition eligible (solved_ : list TypedId) (c : ChallengeSnapshot) : Prop :=
  (challenge_id c ∉ solved_)
  /\ ~ (vf_outcome (cs_solved c) = "answered" /\ vf_value (cs_solved c) = JBool true)
  /\ ~ (pv_state (cs_shared c) = "value" /\ pv_value (cs_shared c) = JBool true
         /\ (challenge_type c ∉ ["standard"; "dynamic"; ""])).

Lemma population_eligible cs done_ c : c ∈ population cs done_ <-> c ∈ cs /\ eligible done_ c.
Proof.
  rewrite population_elem. unfold eligible, undeployable, elem.
  rewrite !andb_false_iff, negb_false_iff, !bool_decide_eq_false, bool_decide_eq_true.
  destruct (decide (pv_state (cs_shared c) = "value")), (decide (pv_value (cs_shared c) = JBool true)),
    (decide (challenge_type c ∈ ["standard"; "dynamic"; ""])); tauto.
Qed.

(** C1. Order is total over the eligible Board: a Challenge has a row exactly if the Board shows it,
    neither the Run nor the Board has it solved and it is not a shared Instance; no Challenge has
    two, and the rows are numbered 1, 2, ... in the order they stand. *)
Theorem order_rows_total `{Digester} request dec :
  decide_order request = Ok dec ->
  (forall k, k ∈ row_challenge_id <$> rows dec <->
     exists c, c ∈ challenges (snapshot (oi_authority request)) /\ challenge_id c = k /\ eligible (solved (oi_run request)) c)
  /\ NoDup (row_challenge_id <$> rows dec)
  /\ forall (i : nat) r, rows dec !! i = Some r -> rank r = 1 + Z.of_nat i.
Proof.
  intros Hdec. pose proof (order_rank _ _ Hdec) as Hrank.
  pose proof (decided_sound _ _ Hdec) as Hs.
  destruct (decide_order_parts _ _ Hdec) as (Hrows & _ & _). rewrite Hrows in *.
  assert (Hp : row_challenge_id <$> commit_rows (provisional_row (the_context request) <$>
    the_population request) (remaining_seconds (oi_run request)) (floor_seconds (oi_dials request))
    ≡ₚ challenge_id <$> the_population request).
  { rewrite commit_rows_ids, <-provisional_ids.
    apply Permutation_map, sort_by_perm. }
  split; [|split; [rewrite Hp; apply population_NoDup, Hs|exact Hrank]].
  intros k. rewrite Hp, list_elem_of_fmap. unfold the_population. setoid_rewrite population_eligible. naive_solver.
Qed.

(** The place of a Challenge on the Board: its number, or the last one when it has none. *)
Inductive at_position (c : ChallengeSnapshot) : Z -> Prop :=
  | position_given n : pv_state (cs_position c) = "value" -> pv_value (cs_position c) = JInt n -> at_position c n
  | position_none : (forall n, ~ (pv_state (cs_position c) = "value" /\ pv_value (cs_position c) = JInt n)) ->
      at_position c (2 ^ 63 - 1).

(** Integer identities by number, before texts by their characters. *)
Definition id_le (i j : TypedId) : Prop :=
  match i, j with
  | IntegerId a, IntegerId b => a <= b
  | IntegerId _, TextId _ _ _ => True
  | TextId _ _ _, IntegerId _ => False
  | TextId _ a _, TextId _ b _ => cmp a b <> Gt
  end.

Definition board_before (c d : ChallengeSnapshot) : Prop :=
  exists p q, at_position c p /\ at_position d q /\ (p < q \/ p = q /\ id_le (challenge_id c) (challenge_id d)).

Definition stands_before (r s : OrderRow) : Prop :=
  (demoted r = false /\ demoted s = true)
  \/ demoted r = demoted s
     /\ ((order_value s < order_value r)%Qc
         \/ order_value r = order_value s /\ cmp_leb (tie_break r) (tie_break s) = true).

Lemma rows_stand `{Digester} request dec (i j : nat) r s :
  decide_order request = Ok dec ->
  (i < j)%nat -> rows dec !! i = Some r -> rows dec !! j = Some s -> stands_before r s.
Proof.
  intros Hdec Hij Hr Hs. destruct (decide_order_parts _ _ Hdec) as (Hrows & _ & _).
  rewrite Hrows in Hr, Hs.
  apply commit_rows_key in Hr as (p & Hp & Hkr), Hs as (q & Hq & Hks).
  assert (Hle : cmp_leb (row_key r) (row_key s) = true).
  { rewrite Hkr, Hks. exact (StronglySorted_lookup _ _ _ _ _ _ (sort_by_sorted _ _) Hij Hp Hq). }
  unfold row_key in Hle. rewrite !cmp_leb_pair in Hle. cbn [fst snd] in Hle.
  destruct Hle as [Hd|[Hd [Hv|[Hv Ht]]]].
  - left. by destruct (demoted r), (demoted s).
  - right. split; [done|]. left. apply Qclt_alt in Hv. qlra.
  - right. split; [done|]. right. split; [qlra|done].
Qed.

(** Every row is the provisional row of an eligible Challenge, numbered. *)
Lemma rows_elem `{Digester} request dec r :
  decide_order request = Ok dec -> r ∈ rows dec ->
  exists c n b, c ∈ the_population request
    /\ r = with_rank n b (provisional_row (the_context request) c).
Proof.
  intros Hdec Hr. destruct (decide_order_parts _ _ Hdec) as (Hrows & _ & _).
  rewrite Hrows in Hr. apply commit_rows_elem in Hr as (p & n & b & Hp & ->).
  apply list_elem_of_fmap in Hp as (c & -> & Hc). by exists c, n, b.
Qed.

Lemma position_at c : at_position c (position c).
Proof.
  unfold position. destruct (pv_value (cs_position c)) eqn:E; try (apply position_none; intros m [_ H]; congruence).
  case_bool_decide; [by apply position_given|]. apply position_none. by intros m [? _].
Qed.

Lemma tie_before c d :
  cmp_leb (tie_break_of (position c) (challenge_id c)) (tie_break_of (position d) (challenge_id d)) = true -> board_before c d.
Proof.
  intros Hle. exists (position c), (position d). split; [apply position_at|]. split; [apply position_at|]. unfold tie_break_of in Hle.
  destruct (challenge_id c) as [a|k a ?], (challenge_id d) as [b|l b ?]; cbn [id_le];
    apply cmp_leb_pair in Hle as [?%Z.compare_lt_iff|[? Hle]]; auto; right; (split; [done|]); unfold cmp_leb in Hle; cbn in Hle; try done.
  - intros Hgt. change (match a ?= b with Gt => false | _ => true end = true) in Hle. by rewrite Hgt in Hle.
  - intros Hgt. change (match cmp a b with Gt => false | _ => true end = true) in Hle. by rewrite Hgt in Hle.
Qed.

(** C2. The rows stand in Order: an un-demoted Challenge before a demoted one, then the larger order
    value, then the smaller Board position - a Challenge without one standing last - and then the
    identity, integers by number before texts by their characters. *)
Theorem order_rows_sorted `{Digester} request dec (i j : nat) r s :
  decide_order request = Ok dec ->
  (i < j)%nat -> rows dec !! i = Some r -> rows dec !! j = Some s ->
  exists c d, c ∈ challenges (snapshot (oi_authority request)) /\ d ∈ challenges (snapshot (oi_authority request))
    /\ row_challenge_id r = challenge_id c /\ row_challenge_id s = challenge_id d
    /\ ((demoted r = false /\ demoted s = true)
        \/ demoted r = demoted s
           /\ ((order_value s < order_value r)%Qc \/ order_value r = order_value s /\ board_before c d)).
Proof.
  intros Hdec Hij Hr Hs. pose proof (rows_stand _ _ _ _ _ _ Hdec Hij Hr Hs) as Hst.
  destruct (rows_elem _ _ _ Hdec (list_elem_of_lookup_2 _ _ _ Hr)) as (c & n & b & [Hc _]%population_eligible & ->).
  destruct (rows_elem _ _ _ Hdec (list_elem_of_lookup_2 _ _ _ Hs)) as (d & m & b' & [Hd _]%population_eligible & ->).
  exists c, d. do 4 (split; [done|]). destruct Hst as [?|[? [?|[? Ht%tie_before]]]]; auto.
Qed.

Lemma demoted_by_count l window d :
  0 < attempts_full d -> attempts_full d <= py_len l -> is_demoted l window d = true.
Proof.
  intros Hpos Hlen. unfold is_demoted. apply orb_true_iff. right.
  apply q_leb_le, q_max_ge. right. by apply frac_ge_1.
Qed.

Lemma ceiling_pos window d : 0 < ceiling_ms window d.
Proof. unfold ceiling_ms. generalize (q_trunc (ceiling_fraction d * qc window * qc 1000)%Qc). lia. Qed.

Lemma fresh_not_demoted window d : 0 < attempts_full d -> is_demoted [] window d = false.
Proof.
  intros Hpos. unfold is_demoted. cbn [py_any existsb orb].
  destruct (q_leb _ _) eqn:E; [|done]. exfalso. apply q_leb_le, q_max_ge in E as [E|E].
  - rewrite frac_ge_1 in E by apply ceiling_pos. pose proof (ceiling_pos window d).
    change (total_ms []) with 0 in E. lia.
  - rewrite frac_ge_1 in E by done. change (py_len []) with 0 in E. lia.
Qed.

(** C3. No livelock: a Challenge that has used its full count of Attempts ranks below
    every Challenge nobody has attempted yet, whatever their other components say. *)
Theorem order_no_livelock `{Digester} request dec r s :
  decide_order request = Ok dec -> r ∈ rows dec -> s ∈ rows dec ->
  attempts_full (oi_dials request)
    <= py_len (attempts_of (attempts (oi_run request)) (row_challenge_id r)) ->
  attempts_of (attempts (oi_run request)) (row_challenge_id s) = [] ->
  rank s < rank r.
Proof.
  intros Hdec Hr Hs Hfull Hfresh.
  pose proof (decided_sound _ _ Hdec) as Hso.
  assert (Hpos := si_attempts _ _ _ Hso).
  assert (Dr : demoted r = true).
  { destruct (rows_elem _ _ _ Hdec Hr) as (c & n & b & _ & ->). by apply demoted_by_count. }
  assert (Ds : demoted s = false).
  { destruct (rows_elem _ _ _ Hdec Hs) as (c & n & b & _ & ->). cbn in *. rewrite Hfresh.
    by apply fresh_not_demoted. }
  apply list_elem_of_lookup in Hr as [i Hi], Hs as [j Hj].
  rewrite (order_rank _ _ Hdec _ _ Hi), (order_rank _ _ Hdec _ _ Hj).
  destruct (Nat.lt_trichotomy i j) as [Hij|[->|Hij]]; [|congruence|lia].
  destruct (rows_stand _ _ _ _ _ _ Hdec Hij Hi Hj) as [[? _]|[? _]]; congruence.
Qed.

(** ** Grants *)

(** A grant comes from the chosen row. *)
Lemma decide_grant_Some run d remaining inter adm rs g e :
  decide_grant run d remaining inter adm rs = (Some g, e) ->
  inter ∈ ["ordinary"; "final-interval"] /\ py_len (active_grants run) < concurrency d
  /\ let final_chance := bool_decide (inter = "final-interval") && final_chance_available run in
     exists r, choose run d inter final_chance rs = (Some r, e)
       /\ grant_for run d remaining final_chance (dict_get (row_challenge_id r) adm) r = Some g.
Proof.
  unfold decide_grant, elem. destruct (_ && _) eqn:E; [|done]. bool_to_prop.
  destruct (choose _ _ _ _ _) as [[r|] e'] eqn:Ec; [|done]. intros [= Hg ->].
  split; [done|]. split; [done|]. by exists r.
Qed.

Lemma choose_elem run d inter final_chance rs r e :
  choose run d inter final_chance rs = (Some r, e) ->
  r ∈ rs /\ (committed r = true \/ final_chance = true) /\ deferred_reason r = "".
Proof.
  unfold choose. set (open_ := List.filter _ rs).
  assert (Hopen : forall r, r ∈ open_ ->
    r ∈ rs /\ (committed r = true \/ final_chance = true) /\ deferred_reason r = "").
  { intros r'. unfold open_. rewrite list_elem_of_In, List.filter_In, <-list_elem_of_In.
    unfold not_deferred. intros [? Hb]. bool_to_prop. auto. }
  assert (Hhead : forall r, head open_ = Some r -> r ∈ open_).
  { destruct open_; cbn; [done|]. intros ? [= ->]. set_solver. }
  destruct (_ && _); [|by intros [= ? _]; apply Hopen, Hhead].
  destruct (min_by _ _) as [r'|] eqn:E; [|by intros [= ? _]; apply Hopen, Hhead].
  intros [= <- _]. apply Hopen. apply min_by_spec in E as [Hin _].
  rewrite list_elem_of_In, List.filter_In in Hin. apply list_elem_of_In, Hin.
Qed.

Lemma grant_for_Some run d remaining final_chance fact r g :
  0 < floor_seconds d ->
  grant_for run d remaining final_chance fact r = Some g ->
  0 < ag_budget_s g /\ ag_budget_s g <= remaining /\ ag_budget_s g <= budget_s r
  /\ (final_chance = false -> floor_seconds d <= ag_budget_s g)
  /\ ag_deadline g = plus_seconds (boundary_at run) (ag_budget_s g)
  /\ ag_challenge_id g = row_challenge_id r
  /\ ag_tier g = final_tier r
  /\ forall f s, fact = Some f -> safe_deadline f = Some s ->
       ag_budget_s g <= seconds_between s (boundary_at run).
Proof.
  intros Hf. unfold grant_for. set (safe := match _ with Some _ => _ | None => _ end).
  destruct (_ || _) eqn:E; [|done]. intros [= <-]. cbn [ag_budget_s ag_deadline ag_challenge_id ag_tier].
  assert (Hs : forall f s, fact = Some f -> safe_deadline f = Some s ->
    safe = seconds_between s (boundary_at run)).
  { intros f s -> Hs. unfold safe. cbn. by rewrite Hs. }
  assert (Hb : floor_seconds d <= Z.min (Z.min (budget_s r) remaining) safe
    \/ final_chance = true /\ 0 < Z.min (Z.min (budget_s r) remaining) safe).
  { bool_to_prop. destruct E; [left|right]; bool_to_prop; auto. }
  split; [lia|]. split; [lia|]. split; [lia|]. split.
  - intros ->. destruct Hb as [?|[? _]]; [done|discriminate].
  - split; [done|]. split; [done|]. split; [done|].
    intros f s Hfact Hd. rewrite <-(Hs f s Hfact Hd). lia.
Qed.

(** A grant, its row and the row's Challenge. *)
Lemma decided_grant `{Digester} request dec g :
  decide_order request = Ok dec -> grant dec = Some g ->
  exists r c n b final_chance,
    r ∈ rows dec /\ c ∈ the_population request
    /\ r = with_rank n b (provisional_row (the_context request) c)
    /\ final_chance = bool_decide (interval dec = "final-interval") && final_chance_available (oi_run request)
    /\ interval dec ∈ ["ordinary"; "final-interval"]
    /\ py_len (active_grants (oi_run request)) < concurrency (oi_dials request)
    /\ choose (oi_run request) (oi_dials request) (interval dec) final_chance (rows dec)
       = (Some r, grant_exploring dec)
    /\ grant_for (oi_run request) (oi_dials request) (remaining_seconds (oi_run request)) final_chance
         (dict_get (row_challenge_id r) (rc_admission (the_context request))) r = Some g.
Proof.
  intros Hdec Hg. destruct (decide_order_parts _ _ Hdec) as (_ & _ & Hgr).
  rewrite Hg in Hgr. symmetry in Hgr. apply decide_grant_Some in Hgr as (Hi & Hc & r & Hch & Hfor).
  destruct (choose_elem _ _ _ _ _ _ _ Hch) as (Hin & _ & _).
  destruct (rows_elem _ _ _ Hdec Hin) as (c & n & b & Hpop & Hr).
  exists r, c, n, b. eexists. eauto 10.
Qed.

(** C4. A grant can always finish: its budget is positive, its deadline is the boundary
    plus the budget, and that deadline passes neither the final submission cutoff nor the
    safe deadline of the Challenge's admission fact. *)
Theorem grant_finishes `{Digester} request dec g :
  decide_order request = Ok dec -> grant dec = Some g ->
  0 < ag_budget_s g
  /\ instant (ag_deadline g)
       = instant (boundary_at (oi_run request)) + us_per_second * ag_budget_s g
  /\ instant (ag_deadline g) <= instant (final_submission_cutoff (oi_run request))
  /\ forall f s, f ∈ admission (oi_run request) -> af_challenge_id f = ag_challenge_id g ->
       safe_deadline f = Some s -> instant (ag_deadline g) <= instant s.
Proof.
  intros Hdec Hg. pose proof (decided_sound _ _ Hdec) as Hs.
  destruct (decided_grant _ _ _ Hdec Hg) as (r & c & n & b & fc & _ & _ & _ & _ & _ & _ & _ & Hfor).
  apply grant_for_Some in Hfor as (Hpos & Hrem & _ & _ & Hdl & Hid & _ & Hsafe); [|apply Hs].
  assert (Hfit : forall m, ag_budget_s g <= seconds_between m (boundary_at (oi_run request)) ->
    instant (ag_deadline g) <= instant m).
  { intros m Hm%seconds_between_le; [|done]. rewrite Hdl, instant_plus.
    unfold us_between in Hm. lia. }
  rewrite Hdl at 1. rewrite instant_plus. split; [done|]. split; [done|]. split.
  - apply Hfit. unfold remaining_seconds in Hrem. lia.
  - intros f s Hf Hfid Hsd. apply Hfit. apply (Hsafe f s); [|done].
    apply dict_of_get; [apply Hs|]. split; [done|congruence].
Qed.

(** C5. A grant goes only to Work that may be worked: an eligible unsolved Challenge
    with no active grant, while a Lane is free and the interval is not closed, and never
    against an admission fact that gives a reason to refuse it. *)
Theorem grant_entitled `{Digester} request dec g :
  decide_order request = Ok dec -> grant dec = Some g ->
  ag_challenge_id g ∈ (challenge_id <$> the_population request)
  /\ (ag_challenge_id g ∉ solved (oi_run request))
  /\ (ag_challenge_id g ∉ (ag_challenge_id <$> active_grants (oi_run request)))
  /\ py_len (active_grants (oi_run request)) < concurrency (oi_dials request)
  /\ interval dec <> "closed"
  /\ forall f, f ∈ admission (oi_run request) -> af_challenge_id f = ag_challenge_id g ->
       admissible f = true \/ af_reason f = "".
Proof.
  intros Hdec Hg. pose proof (decided_sound _ _ Hdec) as Hs.
  destruct (decided_grant _ _ _ Hdec Hg)
    as (r & c & n & b & fc & _ & Hpop & -> & _ & Hi & Hc & Hch & Hfor).
  apply grant_for_Some in Hfor as (_ & _ & _ & _ & _ & -> & _ & _); [|apply Hs].
  apply choose_elem in Hch as (_ & _ & Hdef). cbn in Hdef. cbn.
  unfold deferral, elem in Hdef. case_bool_decide as Hact; [done|].
  split; [by apply list_elem_of_fmap_2|].
  split; [by apply population_elem in Hpop as (_ & ? & _)|].
  split; [done|]. split; [done|]. split; [by intros E; rewrite E in Hi; set_solver|].
  intros f Hf Hfid.
  assert (Hget : dict_get (challenge_id c) (dict_of af_challenge_id (admission (oi_run request))) = Some f).
  { apply dict_of_get; [apply Hs|]. done. }
  rewrite Hget in Hdef. destruct (admissible f); cbn in Hdef; auto.
Qed.

(** ** The working set *)

Lemma filter_members {A} (f : A -> TypedId) (sub l : list A) :
  sub `sublist_of` l -> NoDup (f <$> l) ->
  List.filter (fun x => elem (f x) (f <$> sub)) l = sub.
Proof.
  induction 1 as [|x sub l Hsub IH|x sub l Hsub IH]; intros Hnd; [done| |].
  - cbn [List.filter]. unfold elem at 1. rewrite bool_decide_true by set_solver. f_equal.
    apply NoDup_cons in Hnd as [Hx Hnd]. etrans; [|by apply IH].
    apply List.filter_ext_in. intros y Hy%list_elem_of_In. unfold elem.
    apply bool_decide_ext. assert (f y <> f x); [|set_solver].
    intros E. apply Hx. rewrite <-E. by apply list_elem_of_fmap_2.
  - apply NoDup_cons in Hnd as [Hx Hnd]. cbn [List.filter]. unfold elem at 1.
    rewrite bool_decide_false; [by apply IH|].
    intros Hin. apply Hx. eapply (sublist_subseteq); [|exact Hin]. by apply fmap_sublist.
Qed.

Lemma list_filter_sublist {A} (p : A -> bool) (l : list A) : List.filter p l `sublist_of` l.
Proof.
  induction l as [|x l IH]; cbn; [done|].
  destruct (p x); [by apply sublist_skip|by apply sublist_cons].
Qed.

(** Filtering numbered rows by a test that ignores the number and the commitment. *)
Lemma numbered_filter {B} (g : OrderRow -> B) (p h : OrderRow -> bool) :
  (forall n b r, p (with_rank n b r) = p r) -> (forall n b r, g (with_rank n b r) = g r) ->
  forall n l, g <$> List.filter p ((fun ir => with_rank ir.1 (h ir.2) ir.2) <$> enumerate n l)
              = g <$> List.filter p l.
Proof.
  intros Hp Hg n l; revert n. induction l as [|r l IH]; intros n; [done|].
  cbn [enumerate List.filter]. csimpl. rewrite Hp. destruct (p r); csimpl; by rewrite ?Hg, IH.
Qed.

Lemma commit_rows_filter {B} (g : OrderRow -> B) prov remaining floor (p : OrderRow -> bool) :
  (forall n b r, p (with_rank n b r) = p r) -> (forall n b r, g (with_rank n b r) = g r) ->
  g <$> List.filter p (commit_rows prov remaining floor) = g <$> List.filter p (sort_by row_key prov).
Proof.
  intros Hp Hg. unfold commit_rows.
  exact (numbered_filter g p (fun r => elem (row_challenge_id r) _) Hp Hg 1 _).
Qed.

Lemma numbered_committed (h : OrderRow -> bool) n l :
  row_challenge_id <$> List.filter committed ((fun ir => with_rank ir.1 (h ir.2) ir.2) <$> enumerate n l)
  = row_challenge_id <$> List.filter h l.
Proof.
  revert n. induction l as [|r l IH]; intros n; [done|].
  cbn [enumerate List.filter]. csimpl. destruct (h r); csimpl; by rewrite IH.
Qed.

Lemma commit_rows_committed prov remaining floor :
  NoDup (row_challenge_id <$> prov) ->
  let open_ := List.filter not_deferred (sort_by row_key prov) in
  row_challenge_id <$> List.filter committed (commit_rows prov remaining floor)
  = row_challenge_id <$>
      py_take (attempts_affordable remaining (budget_s <$> open_) floor) open_.
Proof.
  intros Hnd open_.
  set (chosen := py_take _ open_).
  assert (Hsub : chosen `sublist_of` sort_by row_key prov).
  { etrans; [apply sublist_take|]. apply list_filter_sublist. }
  assert (Hnd' : NoDup (row_challenge_id <$> sort_by row_key prov)).
  { by rewrite (sort_by_perm row_key). }
  etrans; [|exact (f_equal (fmap row_challenge_id) (filter_members row_challenge_id _ _ Hsub Hnd'))].
  exact (numbered_committed (fun r => elem (row_challenge_id r) (row_challenge_id <$> chosen)) 1 _).
Qed.

Lemma floordiv_le s total n k :
  0 < total -> 0 < n -> k <= q_floordiv (frac s 1) (frac total n) -> k * total <= s * n.
Proof.
  intros Ht Hn. unfold q_floordiv, numerator, denominator.
  set (x := (frac s 1 / frac total n)%Qc). intros Hk.
  assert (Hfloor : (qc k <= x)%Qc).
  { unfold qc, Qcle. cbn [this Q2Qc]. rewrite Qred_correct. unfold Qle. cbn [Qnum Qden inject_Z].
    revert Hk. generalize (Qnum (this x)), (Qden (this x)). intros a b Hk.
    pose proof (Z.mul_div_le a (Z.pos b) ltac:(lia)). nia. }
  assert (Hpos : (0 < frac total n)%Qc).
  { apply Qcnot_le_lt. intros Hle. rewrite frac_le in Hle by done.
    change 0%Qc with (qc 0) in Hle. rewrite qc_mul, qc_le in Hle. lia. }
  assert (Hx : (x * frac total n)%Qc = qc s).
  { unfold x, Qcdiv. rewrite <-Qcmult_assoc, (Qcmult_comm (/ _)), Qcmult_inv_r.
    - rewrite Qcmult_1_r. rewrite <-(Qcmult_1_r (frac s 1)).
      change 1%Qc with (qc 1). by apply frac_mul.
    - intros E. rewrite E in Hpos. by apply Qclt_not_eq in Hpos. }
  assert (H1 : (qc k * frac total n <= qc s)%Qc).
  { rewrite <-Hx. apply Qcmult_le_compat_r; [done|]. by apply Qclt_le_weak. }
  apply (Qcmult_le_compat_r _ _ (qc n)) in H1; [|by apply Qclt_le_weak, qc_pos].
  rewrite <-Qcmult_assoc, frac_mul, !qc_mul in H1 by done. by apply qc_le.
Qed.

Lemma affordable_fits seconds lengths floor :
  0 < floor -> Forall (fun l => floor <= l) lengths ->
  let k := attempts_affordable seconds lengths floor in
  0 <= k /\ (1 < k -> k * sumZ lengths <= seconds * py_len lengths)
  /\ (seconds < floor -> k = 0).
Proof.
  intros Hf Hall. unfold attempts_affordable.
  destruct (seconds <? floor) eqn:E; cbn; [lia|]. bool_to_prop.
  case_bool_decide as Hnil; [lia|]. set (q := q_floordiv _ _).
  split; [lia|]. split; [|lia]. intros Hk. apply (floordiv_le _ _ _ _).
  - destruct Hall as [|x l Hx Hall]; [done|].
    assert (0 <= sumZ l). { apply sumZ_nonneg. eapply Forall_impl; [exact Hall|]. cbn. lia. }
    unfold sumZ in *. cbn. lia.
  - destruct lengths; [done|]. unfold py_len. cbn. lia.
  - fold q. lia.
Qed.

Lemma tier_length_floor t d : floor_seconds d <= tier_length t d.
Proof. unfold tier_length. apply Z.le_max_l. Qed.

Lemma row_budget `{Digester} request dec r :
  decide_order request = Ok dec -> r ∈ rows dec ->
  1 <= final_tier r <= 4 /\ budget_s r = tier_length (final_tier r) (oi_dials request).
Proof.
  intros Hdec Hr. destruct (rows_elem _ _ _ Hdec Hr) as (c & n & b & _ & ->). cbn.
  split; [|done]. lia.
Qed.

Lemma length_fmap_Z {A B} (f : A -> B) (l : list A) : py_len (f <$> l) = py_len l.
Proof. unfold py_len. by rewrite length_fmap. Qed.

(** C6. The working set is what the clock can buy: the first [k] rows of Order that are
    not deferred, where [k] Attempts of mean length fit into the remaining seconds (one
    Attempt is committed whenever the floor still fits), and none does below the floor. *)
Theorem working_set_affordable `{Digester} request dec :
  decide_order request = Ok dec ->
  let open_ := List.filter not_deferred (rows dec) in
  let remaining := remaining_seconds (oi_run request) in
  exists k, working_set dec = py_take k (row_challenge_id <$> open_)
    /\ 0 <= k
    /\ (1 < k -> k * sumZ (budget_s <$> open_) <= remaining * py_len open_)
    /\ (remaining < floor_seconds (oi_dials request) -> k = 0)
    /\ (floor_seconds (oi_dials request) <= remaining -> open_ <> [] -> 1 <= k).
Proof.
  intros Hdec open_ remaining. pose proof (decided_sound _ _ Hdec) as Hs.
  pose proof (fun r Hr => row_budget _ _ r Hdec Hr) as Hb.
  destruct (decide_order_parts _ _ Hdec) as (Hrows & _ & _).
  exists (attempts_affordable remaining (budget_s <$> open_) (floor_seconds (oi_dials request))).
  split.
  - rewrite (decide_order_working_set _ _ Hdec). unfold open_. rewrite Hrows.
    rewrite commit_rows_committed by (rewrite provisional_ids; apply population_NoDup, Hs).
    unfold py_take. rewrite !fmap_take. f_equal; [|symmetry; by apply commit_rows_filter].
    by rewrite commit_rows_filter.
  - assert (Hall : Forall (fun l => floor_seconds (oi_dials request) <= l) (budget_s <$> open_)).
    { apply Forall_fmap, Forall_forall. intros r Hr. cbn.
      unfold open_ in Hr. rewrite list_elem_of_In, List.filter_In, <-list_elem_of_In in Hr.
      destruct (Hb r (proj1 Hr)) as [_ ->]. apply tier_length_floor. }
    destruct (affordable_fits remaining _ _ (si_floor _ _ _ Hs) Hall) as (H0 & H1 & H2).
    split; [done|]. split; [by rewrite <-(length_fmap_Z budget_s open_)|]. split; [done|].
    intros Hfl Hne. unfold attempts_affordable.
    assert (E : (remaining <? floor_seconds (oi_dials request)) = false) by (apply Z.ltb_ge; lia).
    rewrite E, bool_decide_false; [cbn; lia|]. by destruct open_.
Qed.
