(* ===== verification/OrderComponents.v ===== *)
(** Properties of the components Order weighs: percentiles against their rank
    formula, the range of every component, tiers and budgets, the samples a
    crowd reading compares, the crowd's hysteresis and the exploration share. *)

From S2P Require Import Prelude Canon Moment Text Intake OrderPolicy OrderFacts.
From Stdlib Require Import Sorted.
Local Open Scope Z_scope.

(** ** Percentiles *)

Section percentile.

(** The multiplicities a counter gives to the keys that satisfy [p]. *)
Definition mass (p : Qc -> bool) (c : list (Qc * Z)) : Z :=
  sumZ (snd <$> List.filter (fun kv => p kv.1) c).

Definition count (p : Qc -> bool) (l : list Qc) : Z := py_len (List.filter p l).

Definition below (v : Qc) (x : Qc) : bool := cmp_ltb x v.
Definition same (v : Qc) (x : Qc) : bool := bool_decide (x = v).

(** The rank of [v] among [l], on the scale from 0 to 1: how many are below it and
    half of how many others equal it. *)
Definition percentile_rank (l : list Qc) (v : Qc) : Qc :=
  if py_len l =? 1 then half
  else frac (2 * count (below v) l + count (same v) l - 1) (2 * (py_len l - 1)).

Lemma mass_cons p k n c : mass p ((k, n) :: c) = (if p k then n else 0) + mass p c.
Proof. unfold mass. cbn. by destruct (p k). Qed.

Lemma mass_perm p c1 c2 : c1 ≡ₚ c2 -> mass p c1 = mass p c2.
Proof.
  intros Hp. unfold mass. apply sumZ_perm, Permutation_map.
  induction Hp as [|x l l' _ IH|x y l|l l' l'' _ IH1 _ IH2]; cbn; [done| | |by etrans].
  - destruct (p x.1); by rewrite IH.
  - destruct (p x.1), (p y.1); done || apply Permutation_swap.
Qed.

Lemma mass_bump p x c :
  mass p (dict_set x (default 0 (dict_get x c) + 1) c) = mass p c + (if p x then 1 else 0).
Proof.
  induction c as [|[k n] c IH]; cbn [dict_set dict_get].
  - rewrite mass_cons. unfold mass. cbn. destruct (p x); lia.
  - case_bool_decide as E; rewrite !mass_cons; [subst; cbn; destruct (p k); lia|lia].
Qed.

Lemma mass_counter p l : mass p (counter l) = count p l.
Proof.
  assert (Hacc : forall c, mass p (foldl (fun d x => dict_set x (default 0 (dict_get x d) + 1) d) c l)
                           = mass p c + count p l).
  { induction l as [|x l IH]; intros c; cbn [foldl]; [unfold count, py_len; cbn; lia|].
    rewrite IH, mass_bump. unfold count, py_len. cbn. destruct (p x); cbn; lia. }
  unfold counter. rewrite Hacc. unfold mass. cbn. lia.
Qed.

Lemma counter_keys l : NoDup (counter l).*1 /\ forall v, v ∈ l -> v ∈ (counter l).*1.
Proof.
  assert (Hacc : forall c, NoDup c.*1 ->
    let c' := foldl (fun d x => dict_set x (default 0 (dict_get x d) + 1) d) c l in
    NoDup c'.*1 /\ forall v, v ∈ l \/ v ∈ c.*1 -> v ∈ c'.*1).
  { induction l as [|x l IH]; intros c Hc; cbn [foldl]; [split; [done|]; intros v [Hv|?]; [set_solver|done]|].
    destruct (IH (dict_set x (default 0 (dict_get x c) + 1) c)) as [H1 H2]; [by apply dict_set_NoDup|].
    split; [done|]. intros v Hv. apply H2. rewrite dict_set_keys.
    case_bool_decide; set_solver. }
  destruct (Hacc [] ltac:(constructor)) as [H1 H2]. split; [done|]. auto.
Qed.

Lemma mass_none p (c : list (Qc * Z)) : Forall (fun kv => p kv.1 = false) c -> mass p c = 0.
Proof. induction 1 as [|[k n] c Hk _ IH]; [done|]. rewrite mass_cons, IH. cbn in Hk. by rewrite Hk. Qed.

(** Walking the sorted counter, each value meets its own rank. *)
Lemma percentile_table_get n v c cumulative :
  StronglySorted (key_le fst) c -> NoDup c.*1 -> v ∈ c.*1 ->
  dict_get v (percentile_table n cumulative c)
  = Some (frac (2 * (cumulative + mass (below v) c) + mass (same v) c - 1) (2 * (n - 1))).
Proof.
  intros Hs. revert cumulative. induction Hs as [|[k e] c Hs IH Hk]; intros cumulative Hnd Hv.
  { by apply elem_of_nil in Hv. }
  apply NoDup_cons in Hnd as [Hx Hnd]. cbn [percentile_table dict_get].
  rewrite !mass_cons. rewrite Forall_forall in Hk. unfold key_le in Hk. cbn in Hk.
  case_bool_decide as E.
  - subst v. rewrite (mass_none (below k)), (mass_none (same k)).
    + unfold below at 1, cmp_ltb, same. rewrite cmp_refl, bool_decide_true by done.
      do 2 f_equal. lia.
    + apply Forall_forall. intros kv Hkv. unfold same. apply bool_decide_eq_false. intros <-.
      apply Hx. exact (list_elem_of_fmap_2 fst _ _ Hkv).
    + apply Forall_forall. intros kv Hkv. unfold below. rewrite cmp_ltb_leb. by rewrite (Hk kv Hkv).
  - csimpl. assert (Hv' : v ∈ c.*1) by set_solver. rewrite IH by done.
    assert (Hlt : below v k = true).
    { unfold below. rewrite cmp_ltb_leb. apply negb_true_iff, not_true_iff_false. intros Hle.
      apply list_elem_of_fmap in Hv' as (kv & -> & Hkv). apply E. symmetry.
      apply cmp_leb_antisym; [by apply Hk|done]. }
    unfold same at 2. rewrite Hlt, (bool_decide_false (k = v)) by congruence.
    do 2 f_equal. lia.
Qed.

(** The table and the formula agree. *)
Lemma percentiles_rank_eq (values : list (TypedId * Qc)) :
  percentiles values = (fun kv => (kv.1, percentile_rank (dict_values values) kv.2)) <$> values.
Proof.
  assert (Hlen : py_len (dict_values values) = py_len values) by apply length_fmap_Z.
  unfold percentiles, percentile_rank. rewrite ?Hlen.
  destruct (py_len values =? 1); [done|].
  apply list_fmap_ext. intros i kv Hi. f_equal.
  destruct (counter_keys (dict_values values)) as [Hnd Hin].
  rewrite percentile_table_get.
  - cbn [default]. rewrite !(mass_perm _ _ _ (sort_by_perm fst _)), !mass_counter, Z.add_0_l.
    reflexivity.
  - apply sort_by_sorted.
  - by rewrite (sort_by_perm fst).
  - rewrite (sort_by_perm fst). apply Hin. unfold dict_values. apply list_elem_of_fmap_2.
    by eapply list_elem_of_lookup_2.
Qed.

(** The percentile table is the rank formula: each Challenge's percentile is
    (2·below + equal - 1) / (2·(n - 1)) over the values compared, and one half when
    there is only one. *)
Theorem percentiles_rank (values : list (TypedId * Qc)) :
  percentiles values = (fun kv => (kv.1, percentile_rank (dict_values values) kv.2)) <$> values.
Proof. apply percentiles_rank_eq. Qed.
End percentile.

(** ** The range of the components *)

Ltac unit_lra := change (qc 0) with 0%Qc in *; change (qc 1) with 1%Qc in *; qlra.

Definition in_unit (q : Qc) : Prop := (qc 0 <= q)%Qc /\ (q <= qc 1)%Qc.

Lemma frac_unit n d : 0 < d -> 0 <= n <= d -> in_unit (frac n d).
Proof. intros Hd Hn. split; [apply frac_nonneg; lia|]. apply frac_le_1; lia. Qed.

Lemma half_unit : in_unit half.
Proof. apply frac_unit; lia. Qed.

Lemma zero_unit : in_unit (qc 0).
Proof. split; [apply Qcle_refl|]. rewrite qc_le. lia. Qed.

Lemma one_unit : in_unit (qc 1).
Proof. split; [|apply Qcle_refl]. rewrite qc_le. lia. Qed.

Lemma q_min_unit q : (qc 0 <= q)%Qc -> in_unit (q_min (qc 1) q).
Proof. intros Hq. split; [|apply q_min_bounds]. apply q_min_ge; [apply one_unit|done]. Qed.

#[export] Hint Resolve half_unit zero_unit one_unit q_min_unit : order.

Lemma count_split (v : Qc) l : count (below v) l + count (same v) l <= py_len l.
Proof.
  unfold count, py_len. induction l as [|x l IH]; cbn; [lia|].
  destruct (below v x) eqn:E1, (same v x) eqn:E2; cbn; try lia.
  unfold below, same in *. bool_to_prop. subst. unfold cmp_ltb in E1. by rewrite cmp_refl in E1.
Qed.

Lemma count_same_pos (v : Qc) l : v ∈ l -> 1 <= count (same v) l.
Proof.
  unfold count, py_len. induction l as [|x l IH]; [set_solver|]. intros [->|Hv]%elem_of_cons; cbn.
  - unfold same at 1. rewrite bool_decide_true by done. cbn. lia.
  - specialize (IH Hv). destruct (same v x); cbn; lia.
Qed.

Lemma percentile_rank_unit l v : v ∈ l -> in_unit (percentile_rank l v).
Proof.
  intros Hv. unfold percentile_rank. pose proof (count_split v l). pose proof (count_same_pos v l Hv).
  assert (0 <= count (below v) l) by (unfold count, py_len; lia).
  destruct (py_len l =? 1) eqn:E; [auto with order|]. bool_to_prop.
  assert (1 <= py_len l). { destruct l; [set_solver|]. unfold py_len. cbn. lia. }
  apply frac_unit; lia.
Qed.

Lemma percentile_of_unit key values : in_unit (default half (dict_get key (percentiles values))).
Proof.
  destruct (dict_get key (percentiles values)) as [q|] eqn:E; [|apply half_unit]. cbn.
  apply dict_get_Some_elem in E. rewrite percentiles_rank_eq in E.
  apply list_elem_of_fmap in E as (kv & [= _ ->] & Hkv). apply percentile_rank_unit.
  unfold dict_values. by apply list_elem_of_fmap_2.
Qed.

Lemma crowd_component_unit c :
  in_unit (cd_percentile c) -> in_unit (cd_reliability c) -> in_unit (crowd_component c).
Proof.
  unfold crowd_component. intros [Hp0 Hp1] [Hr0 Hr1]. destruct half_unit as [Hh0 Hh1].
  set (r := cd_reliability c) in *. set (p := cd_percentile c) in *.
  assert (E : (half + r * (p - half) = (qc 1 - r) * half + r * p)%Qc) by (change (qc 1) with 1%Qc; ring).
  assert (H1r : (qc 0 <= qc 1 - r)%Qc) by unit_lra.
  rewrite E. split.
  - assert (qc 0 <= (qc 1 - r) * half)%Qc by (by apply Qcmult_nonneg_nonneg).
    assert (qc 0 <= r * p)%Qc by (by apply Qcmult_nonneg_nonneg). unit_lra.
  - assert ((qc 1 - r) * half <= (qc 1 - r) * qc 1)%Qc by (by apply Qcmult_le_mono_nonneg_l).
    assert (r * p <= r * qc 1)%Qc by (by apply Qcmult_le_mono_nonneg_l).
    unit_lra.
Qed.

Lemma crowd_unit `{Digester} pop hist source run d key :
  in_unit (crowd_component (default (unavailable_crowd "") (dict_get key (crowd pop hist source run d)))).
Proof.
  assert (Hu : forall reason, in_unit (crowd_component (unavailable_crowd reason))).
  { intros reason. apply crowd_component_unit; cbn; auto with order. }
  destruct (dict_get key _) as [c|] eqn:E; [|apply Hu]. cbn.
  apply dict_get_Some_elem in E. unfold crowd in E.
  destruct (_ || _) in E; [apply list_elem_of_fmap in E as (? & [= _ ->] & _); apply Hu|].
  destruct (match hist with [] => _ | _ :: _ => _ end) in E;
    [apply list_elem_of_fmap in E as (? & [= _ ->] & _); apply Hu|].
  apply list_elem_of_fmap in E as ([k [[st re] ve]] & [= _ ->] & _).
  apply crowd_component_unit; cbn; [apply percentile_of_unit|].
  do 2 (case_bool_decide; [auto with order|]). apply frac_unit; lia.
Qed.

Lemma int_value_nonneg v : 0 <= int_value v.
Proof.
  unfold int_value, settled_int. case_bool_decide; [|done]. destruct (vf_value v); try done.
  destruct (_ <=? _) eqn:E; [|done]. bool_to_prop. done.
Qed.

Lemma value_unit pop key : in_unit (default (qc 0) (dict_get key (value_basis pop).2)).
Proof.
  destruct (dict_get key _) as [q|] eqn:E; [|apply zero_unit]. cbn.
  apply dict_get_Some_elem in E. unfold value_basis in E.
  destruct (min_by _ _) as [first|]; cbn in E.
  - apply list_elem_of_fmap in E as (c & [= _ ->] & _). apply frac_unit; lia.
  - apply list_elem_of_fmap in E as (c & [= _ ->] & Hc).
    set (m := maxZ _ _). assert (Hle : int_value (cs_value c) <= m).
    { apply maxZ_ge. by apply (list_elem_of_fmap_2 (fun c => int_value (cs_value c))). }
    pose proof (int_value_nonneg (cs_value c)).
    destruct (m =? 0) eqn:Em; [apply frac_unit; lia|]. bool_to_prop. apply frac_unit; lia.
Qed.

Lemma div_unit r t : (qc 0 <= r)%Qc -> (r <= t)%Qc -> t <> qc 0 -> in_unit (r / t)%Qc.
Proof.
  intros H0 Hle Hne.
  assert (Ht : (qc 0 < t)%Qc).
  { apply Qcle_lt_or_eq in Hle as Hle'. destruct (Qcle_lt_or_eq _ _ (Qcle_trans _ _ _ H0 Hle)) as [?|E];
      [done|]. congruence. }
  assert (E : (r / t * t = r)%Qc).
  { unfold Qcdiv. rewrite <-Qcmult_assoc, (Qcmult_comm (/ t)), Qcmult_inv_r by done. apply Qcmult_1_r. }
  split; apply (Qcmult_le_mono_pos_r _ _ t Ht); rewrite E.
  - by replace (qc 0 * t)%Qc with (qc 0) by (change (qc 0) with 0%Qc; ring).
  - by replace (qc 1 * t)%Qc with t by (change (qc 1) with 1%Qc; ring).
Qed.

Lemma max_q_ge l q : q ∈ l -> (q <= max_q l)%Qc.
Proof.
  intros Hq. unfold max_q. destruct (max_by id l) as [m|] eqn:E.
  - apply max_by_spec in E as [_ Hall]. rewrite Forall_forall in Hall. apply q_leb_le. by apply Hall.
  - exfalso. unfold max_by in E. destruct l as [|x l]; [set_solver|]. cbn in E. clear Hq.
    revert x E. induction l as [|y l IH]; intros x E; cbn in E; [done|].
    destruct (cmp_ltb _ _); by eapply IH.
Qed.

Section measured.
(** Durations and checkpoint counts are not negative. *)
Definition measured (a : AttemptFact) : Prop := 0 <= seconds_ms a /\ 0 <= checkpoints a.

Lemma total_ms_nonneg l : Forall measured l -> 0 <= total_ms l.
Proof.
  intros Hl. apply sumZ_nonneg, Forall_fmap. eapply Forall_impl; [exact Hl|]. by intros a [? _].
Qed.

Lemma checkpoints_nonneg l : Forall measured l -> 0 <= sumZ (checkpoints <$> l).
Proof.
  intros Hl. apply sumZ_nonneg, Forall_fmap. eapply Forall_impl; [exact Hl|]. by intros a [_ ?].
Qed.

Lemma attempts_of_measured l key : Forall measured l -> Forall measured (attempts_of l key).
Proof.
  intros Hl. apply Forall_forall. intros a. unfold attempts_of.
  rewrite list_elem_of_In, List.filter_In, <-list_elem_of_In. intros [Ha _].
  rewrite Forall_forall in Hl. auto.
Qed.

(** Grouping keeps every Attempt measured. *)
Lemma by_category_measured l :
  Forall measured l -> Forall (fun ci => Forall measured ci.2) (by_category l).
Proof.
  intros Hl. unfold by_category.
  assert (Hacc : forall d : list (string * list AttemptFact), Forall (fun ci => Forall measured ci.2) d ->
    Forall (fun ci => Forall measured ci.2)
      (foldl (fun d a => dict_set (at_category a) (default [] (dict_get (at_category a) d) ++ [a]) d) d l)).
  { induction Hl as [|a l Ha Hl IH]; intros d Hd; [done|]. cbn. apply IH.
    apply dict_set_Forall; [done|]. intros k _. cbn. apply Forall_app. split; [|by apply Forall_singleton].
    destruct (dict_get _ d) as [items|] eqn:E; [|constructor]. cbn.
    apply dict_get_Some_elem in E. rewrite Forall_forall in Hd. exact (Hd _ E). }
  apply Hacc. constructor.
Qed.

Lemma category_rate_nonneg items : Forall measured items -> (qc 0 <= category_rate items)%Qc.
Proof.
  intros Hm. apply frac_nonneg; [lia|]. pose proof (checkpoints_nonneg _ Hm).
  unfold py_len. lia.
Qed.

Lemma category_unit l category :
  Forall measured l -> in_unit (category_component (category_rates l) category).
Proof.
  intros Hm. unfold category_component. destruct (dict_get _ _) as [rate|] eqn:E; [|auto with order].
  case_bool_decide as Et; [auto with order|]. apply dict_get_Some_elem in E. apply div_unit; [| |done].
  - unfold category_rates in E. apply list_elem_of_fmap in E as (ci & [= _ ->] & Hci).
    apply category_rate_nonneg. rewrite list_elem_of_In, List.filter_In, <-list_elem_of_In in Hci.
    pose proof (by_category_measured _ Hm) as Hg. rewrite Forall_forall in Hg. exact (Hg _ (proj1 Hci)).
  - apply max_q_ge. unfold dict_values. apply list_elem_of_fmap. by exists (category, rate).
Qed.

Lemma spend_unit l window d : 0 < attempts_full d -> in_unit (spend l window d).
Proof.
  intros Hd. apply q_min_unit. unfold spend_ratio. apply q_max_ge. right.
  apply frac_nonneg; [done|]. unfold py_len. lia.
Qed.
End measured.

Definition components_unit (c : Components) : Prop :=
  in_unit (c_crowd c) /\ in_unit (c_value c) /\ in_unit (c_lease c)
  /\ in_unit (c_progress c) /\ in_unit (c_category c) /\ in_unit (c_spend c).

Lemma provisional_unit `{Digester} request c :
  0 < attempts_full (oi_dials request) -> 0 < checkpoints_full (oi_dials request) ->
  Forall measured (attempts (oi_run request)) ->
  components_unit (components (provisional_row (the_context request) c)).
Proof.
  intros Ha Hc Hm. unfold components_unit. cbn. split_and!.
  - apply crowd_unit.
  - apply value_unit.
  - destruct (elem _ _); apply frac_unit; lia.
  - change (frac 1 1) with (qc 1). apply q_min_unit, frac_nonneg; [done|].
    by apply checkpoints_nonneg, attempts_of_measured.
  - by apply category_unit.
  - by apply spend_unit.
Qed.

Definition weights_nonneg (d : PolicyDials) : Prop :=
  Forall (fun w => (qc 0 <= w)%Qc) [w_crowd d; w_value d; w_lease d; w_progress d; w_category d; w_spend d].

Lemma scale_unit w q : (qc 0 <= w)%Qc -> in_unit q -> (qc 0 <= w * q)%Qc /\ (w * q <= w)%Qc.
Proof.
  intros Hw [H0 H1]. split; [by apply Qcmult_nonneg_nonneg|].
  rewrite <-(Qcmult_1_r w) at 2. by apply Qcmult_le_mono_nonneg_l.
Qed.

Lemma weighted_bounds d c :
  weights_nonneg d -> components_unit c ->
  (- w_spend d <= weighted d c)%Qc
  /\ (weighted d c <= w_crowd d + w_value d + w_lease d + w_progress d + w_category d)%Qc.
Proof.
  unfold weights_nonneg. intros Hw (H1 & H2 & H3 & H4 & H5 & H6).
  repeat match goal with H : Forall _ (_ :: _) |- _ => apply Forall_cons in H as [? H] end.
  unfold weighted.
  repeat match goal with
  | Hw : (qc 0 <= ?w)%Qc, Hq : in_unit ?q |- context [(?w * ?q)%Qc] =>
      destruct (scale_unit w q Hw Hq); generalize dependent (w * q)%Qc; intros
  end.
  split; unit_lra.
Qed.

(** What Order weighs is normalised: over attempts whose durations and checkpoint
    counts are not negative, all six components of every row lie in [0, 1], so with
    non-negative weights the order value stays between minus the spend weight and the
    sum of the others. *)
Theorem components_normalised `{Digester} request dec r :
  decide_order request = Ok dec -> r ∈ rows dec ->
  Forall measured (attempts (oi_run request)) -> weights_nonneg (oi_dials request) ->
  components_unit (components r)
  /\ (- w_spend (oi_dials request) <= order_value r)%Qc
  /\ (order_value r <= w_crowd (oi_dials request) + w_value (oi_dials request)
        + w_lease (oi_dials request) + w_progress (oi_dials request)
        + w_category (oi_dials request))%Qc.
Proof.
  intros Hdec Hr Hm Hw. pose proof (decided_sound _ _ Hdec) as Hs.
  destruct (rows_elem _ _ _ Hdec Hr) as (c & n & b & _ & ->).
  assert (Hu := provisional_unit request c (si_attempts _ _ _ Hs) (si_checkpoints _ _ _ Hs) Hm).
  split; [done|]. by apply weighted_bounds.
Qed.

(** ** Tiers and budgets *)

Lemma q_trunc_mono p q : (qc 0 <= p)%Qc -> (p <= q)%Qc -> q_trunc p <= q_trunc q.
Proof.
  unfold q_trunc, numerator, denominator, Qcle, Qle. cbn. intros H0 Hle.
  destruct p as [[a b] ?], q as [[c e] ?]. cbn in *.
  change (Qred (inject_Z 0)) with 0%Q in H0. cbn in H0. assert (0 <= a) by lia. assert (0 <= c) by nia.
  rewrite !Z.quot_div_nonneg by lia.
  apply Z.div_le_lower_bound; [lia|]. pose proof (Z.mul_div_le a (Z.pos b) ltac:(lia)). nia.
Qed.

Lemma tier_length_mono t u d :
  0 < knee_seconds d -> (qc 0 <= tier_step d)%Qc -> (tier_step d <= qc 1)%Qc ->
  1 <= t <= u -> tier_length t d <= tier_length u d.
Proof.
  intros Hk Hs Hs1 Htu. unfold tier_length, FLOOR.
  apply Z.max_le_compat_l, q_trunc_mono.
  - apply Qcmult_nonneg_nonneg; [by apply Qclt_le_weak, qc_pos|].
    assert (Hw : (qc (-1) * tier_step d <= qc (t - 2) * tier_step d)%Qc).
    { apply Qcmult_le_mono_nonneg_r; [done|]. rewrite qc_le. lia. }
    change (qc (-1)) with (- (1))%Qc in Hw. unit_lra.
  - apply Qcmult_le_mono_nonneg_l; [by apply Qclt_le_weak, qc_pos|].
    apply Qcplus_le_mono_l, Qcmult_le_mono_nonneg_r; [done|]. rewrite qc_le. lia.
Qed.

(** Tiers and Attempt lengths: every row's final tier is 1 to 4 and never shallower
    than its base tier (while no Checkpoint count and no cap is negative), its budget is
    the length of that tier and at least the floor, and a deeper tier never buys a
    shorter Attempt (for a tier step between 0 and 1). *)
Theorem tiers_and_budgets `{Digester} request dec r s :
  decide_order request = Ok dec -> r ∈ rows dec -> s ∈ rows dec ->
  Forall measured (attempts (oi_run request)) -> 0 <= tier_cap (oi_dials request) ->
  in_unit (tier_step (oi_dials request)) ->
  1 <= final_tier r <= 4
  /\ Z.min 4 (base_tier r) <= final_tier r
  /\ budget_s r = tier_length (final_tier r) (oi_dials request)
  /\ floor_seconds (oi_dials request) <= budget_s r
  /\ (final_tier r <= final_tier s -> budget_s r <= budget_s s).
Proof.
  intros Hdec Hr Hs Hm Hcap [Hs0 Hs1]. pose proof (decided_sound _ _ Hdec) as Hso.
  destruct (row_budget _ _ _ Hdec Hr) as [Ht Hb], (row_budget _ _ _ Hdec Hs) as [Hu Hc].
  split; [done|]. split.
  - destruct (rows_elem _ _ _ Hdec Hr) as (c & n & b & _ & ->). cbn -[Z.min Z.max].
    pose proof (checkpoints_nonneg _ (attempts_of_measured _ (challenge_id c) Hm)).
    destruct (elem _ _); lia.
  - split; [done|]. rewrite Hb, Hc. split; [apply tier_length_floor|].
    intros Hle. apply tier_length_mono; [apply Hso|done|done|lia].
Qed.

(** ** The exploration share *)

Lemma choose_exploring run d inter fc rs r :
  choose run d inter fc rs = (Some r, true) ->
  inter = "ordinary" /\ explore_turn run d = true /\ cd_state (row_crowd r) <> "qualified"
  /\ forall s, s ∈ rs -> committed s = true -> deferred_reason s = "" ->
       cd_state (row_crowd s) <> "qualified" ->
       cmp_leb (explore_key d r) (explore_key d s) = true.
Proof.
  unfold choose. destruct (_ && explore_turn run d) eqn:E; [|done]. bool_to_prop.
  destruct (min_by _ _) as [r'|] eqn:Em; [|done]. intros [= <-].
  apply min_by_spec in Em as [Hin Hall]. rewrite list_elem_of_In, List.filter_In in Hin.
  destruct Hin as [_ Hq]. bool_to_prop. rewrite Forall_forall in Hall.
  do 3 (split; [done|]). intros s Hs Hc Hd Hqs. apply Hall.
  rewrite !list_elem_of_In, !List.filter_In, <-list_elem_of_In. unfold not_deferred.
  rewrite Hc, !bool_decide_true, bool_decide_false by done. done.
Qed.

Lemma choose_first run d inter rs r s :
  choose run d inter false rs = (Some r, false) ->
  s ∈ rs -> committed s = true -> deferred_reason s = "" ->
  exists i j : nat, (i <= j)%nat /\ rs !! i = Some r /\ rs !! j = Some s
    /\ (inter = "ordinary" -> explore_turn run d = true -> cd_state (row_crowd s) = "qualified").
Proof.
  unfold choose. set (open_ := List.filter _ rs). intros Hch Hs Hc Hd.
  assert (Hsin : s ∈ open_).
  { unfold open_, not_deferred. rewrite list_elem_of_In, List.filter_In, <-list_elem_of_In.
    by rewrite Hc, bool_decide_true. }
  assert (Hhead : head open_ = Some r /\
    (inter = "ordinary" -> explore_turn run d = true -> cd_state (row_crowd s) = "qualified")).
  { destruct (_ && explore_turn run d) eqn:E.
    - destruct (min_by _ _) as [r'|] eqn:Em; [done|]. split; [congruence|]. intros _ _.
      destruct (decide (cd_state (row_crowd s) = "qualified")) as [|Hn]; [done|]. exfalso.
      edestruct (min_by_is_some (explore_key d)
        (List.filter (fun r => negb (bool_decide (cd_state (row_crowd r) = "qualified"))) open_)) as [x Hx];
        [|by rewrite Hx in Em].
      apply (elem_of_not_nil s). rewrite list_elem_of_In, List.filter_In, <-list_elem_of_In.
      by rewrite bool_decide_false.
    - split; [congruence|]. intros -> Ht. exfalso.
      destruct (decide (open_ = [])) as [Hn|Hn]; [by rewrite Hn in Hsin; apply elem_of_nil in Hsin|].
      by rewrite Ht, bool_decide_true, bool_decide_false in E. }
  destruct Hhead as [Hh Hq]. clear Hch. unfold open_ in Hh, Hsin. clear open_.
  induction rs as [|x rs IH]; [by apply elem_of_nil in Hs|]. cbn in Hh, Hsin.
  destruct ((committed x || false) && not_deferred x) eqn:Ex.
  - injection Hh as ->. apply list_elem_of_lookup in Hs as [j Hj]. exists 0%nat, j.
    split; [lia|]. done.
  - apply elem_of_cons in Hs as [->|Hs].
    { unfold not_deferred in Ex. by rewrite Hc, bool_decide_true in Ex. }
    destruct IH as (i & j & ? & ? & ? & ?); [done..|]. exists (S i), (S j). split; [lia|]. done.
Qed.

(** The exploration share: on an exploration turn of the ordinary interval the grant
    goes to the committed Challenge without a qualified crowd reading that stands best
    without its crowd term, whenever there is one; otherwise it goes to the committed,
    undeferred Challenge of the best rank. *)
Theorem exploration_share `{Digester} request dec g :
  decide_order request = Ok dec -> grant dec = Some g -> interval dec = "ordinary" ->
  exists r, r ∈ rows dec /\ row_challenge_id r = ag_challenge_id g /\
  if grant_exploring dec then
    explore_turn (oi_run request) (oi_dials request) = true
    /\ cd_state (row_crowd r) <> "qualified"
    /\ forall s, s ∈ rows dec -> committed s = true -> deferred_reason s = "" ->
         cd_state (row_crowd s) <> "qualified" ->
         cmp_leb (explore_key (oi_dials request) r) (explore_key (oi_dials request) s) = true
  else forall s, s ∈ rows dec -> committed s = true -> deferred_reason s = "" ->
         rank r <= rank s
         /\ (explore_turn (oi_run request) (oi_dials request) = true ->
             cd_state (row_crowd s) = "qualified").
Proof.
  intros Hdec Hg Hi. pose proof (order_rank _ _ Hdec) as Hrank.
  destruct (decided_grant _ _ _ Hdec Hg) as (r & c & n & b & fc & Hin & _ & _ & -> & _ & _ & Hch & Hfor).
  pose proof (decided_sound _ _ Hdec) as Hs.
  apply grant_for_Some in Hfor as (_ & _ & _ & _ & _ & Hid & _ & _); [|apply Hs].
  exists r. split; [done|]. split; [done|]. rewrite Hi in Hch. cbn in Hch.
  destruct (grant_exploring dec).
  - by apply choose_exploring in Hch as (_ & ? & ? & ?).
  - intros s Hsin Hc Hd.
    destruct (choose_first _ _ _ _ _ _ Hch Hsin Hc Hd) as (i & j & Hij & Hr & Hj & Hq).
    rewrite (Hrank _ _ Hr), (Hrank _ _ Hj). split; [lia|]. auto.
Qed.

(** ** The samples a crowd reading compares *)

Lemma earlier_sample_spec `{Digester} cands current before_ d s :
  earlier_sample cands current before_ d = Some s ->
  s ∈ cands
  /\ us_per_second * sample_min_seconds d <= us_between (observed_at before_) (observed_at s)
  /\ us_between (observed_at current) (observed_at s) <= us_per_second * crowd_max_age_seconds d
  /\ forall t, t ∈ cands ->
       us_per_second * sample_min_seconds d <= us_between (observed_at before_) (observed_at t) ->
       us_between (observed_at current) (observed_at t) <= us_per_second * crowd_max_age_seconds d ->
       instant (observed_at t) <= instant (observed_at s).
Proof.
  unfold earlier_sample, us_between. intros [Hin Hall]%max_by_spec.
  rewrite list_elem_of_In, List.filter_In, <-list_elem_of_In in Hin.
  destruct Hin as [Hin Hb]. bool_to_prop. split; [done|]. split; [lia|]. split; [lia|].
  intros t Ht Ht1 Ht2. rewrite Forall_forall in Hall.
  assert (Hle : cmp_leb (instant (observed_at t), snapshot_digest t)
                        (instant (observed_at s), snapshot_digest s) = true).
  { apply (Hall t). rewrite list_elem_of_In, List.filter_In, <-list_elem_of_In.
    split; [done|]. apply andb_true_iff. rewrite !Z.leb_le. lia. }
  apply cmp_leb_pair in Hle as [Hlt|[Heq _]]; cbn [fst snd] in *; [|lia].
  unfold cmp, Z_cmp in Hlt. rewrite Z.compare_lt_iff in Hlt. lia.
Qed.

(** Each sample is the latest that is far enough from the one after it and not too old. *)
Inductive spaced (cands : list IntakeSnapshot) (current : IntakeSnapshot) (d : PolicyDials) :
    IntakeSnapshot -> list IntakeSnapshot -> Prop :=
  | spaced_nil b : spaced cands current d b []
  | spaced_cons b s l :
      s ∈ cands ->
      us_per_second * sample_min_seconds d <= us_between (observed_at b) (observed_at s) ->
      us_between (observed_at current) (observed_at s) <= us_per_second * crowd_max_age_seconds d ->
      (forall t, t ∈ cands ->
         us_per_second * sample_min_seconds d <= us_between (observed_at b) (observed_at t) ->
         us_between (observed_at current) (observed_at t) <= us_per_second * crowd_max_age_seconds d ->
         instant (observed_at t) <= instant (observed_at s)) ->
      spaced cands current d s l -> spaced cands current d b (s :: l).

Lemma history_samples_spaced `{Digester} n cands current b d :
  spaced cands current d b (history_samples n cands current b d)
  /\ (length (history_samples n cands current b d) <= n)%nat.
Proof.
  revert b. induction n as [|n IH]; intros b; cbn; [split; [constructor|done]|].
  destruct (earlier_sample _ _ _ _) as [s|] eqn:E; [|split; [constructor|cbn; lia]].
  apply earlier_sample_spec in E as (? & ? & ? & ?). destruct (IH s) as [? ?].
  split; [by constructor|cbn; lia].
Qed.

(** The samples Order compares: the current snapshot and at most two before it, each
    the latest candidate at least the separation before the sample that follows it and no
    older than the maximum age before the current one. *)
Theorem history_sampled `{Digester} a d :
  exists earlier, select_history a d = snapshot a :: earlier
    /\ (length earlier <= 2)%nat
    /\ spaced (history_candidates a) (snapshot a) d (snapshot a) earlier.
Proof.
  eexists. split; [reflexivity|].
  destruct (history_samples_spaced 2 (history_candidates a) (snapshot a) (snapshot a) d). done.
Qed.

(** ** Crowd hysteresis *)

Lemma crowd_unqualified run d newest older previous key :
  pass_for newest key = false ->
  (crowd_state run d newest older previous key).1.1 = "qualified" ->
  (crowd_state run d newest older previous key).1.2 = "last-qualified-held"
  /\ exists p, previous = Some p /\ pc_state p = "qualified" /\ consecutive_failures p < 1.
Proof.
  intros Hp. unfold crowd_state. rewrite Hp. destruct (match previous with Some p => _ | None => false end); [done|]. cbn [andb].
  destruct previous as [p|]; cbn; [|done]. case_bool_decide; [|done]. cbn.
  destruct (_ <? 1) eqn:E; [|done]. bool_to_prop. eauto.
Qed.

(** Two consecutive failures end a qualified crowd: when neither of two consecutive
    boundaries has a qualifying newest transition for a Challenge, the second does not
    call it qualified, whatever came before. *)
Theorem two_failures_unqualify run1 run2 d n1 o1 n2 o2 previous key row at_ event :
  (cd_state (row_crowd row), cd_reason (row_crowd row)) = (crowd_state run1 d n1 o1 previous key).1 ->
  pass_for n1 key = false -> pass_for n2 key = false ->
  (crowd_state run2 d n2 o2 (Some (prior_of_row at_ event row)) key).1.1 <> "qualified".
Proof.
  intros Hrow H1 H2 Hq. apply crowd_unqualified in Hq as (_ & p & [= <-] & Hst & Hf); [|done].
  cbn in Hst, Hf. destruct (crowd_state run1 d n1 o1 previous key) as [[st re] v] eqn:E.
  injection Hrow as Hs Hr. subst st.
  pose proof (crowd_unqualified run1 d n1 o1 previous key H1) as Hh. rewrite E in Hh.
  destruct (Hh Hst) as [Hre _]. cbn in Hre. rewrite Hr, Hre, bool_decide_true in Hf by done. lia.
Qed.

(** One qualifying transition is enough after any provisional reading: a Challenge
    first seen at a boundary with no qualifying transition is called qualified by "two
    qualifying transitions" at the next boundary if its newest transition qualifies,
    although only one has. *)
Theorem one_pass_after_provisional run1 run2 d n1 o1 n2 o2 key row at_ event :
  (cd_state (row_crowd row), cd_reason (row_crowd row)) = (crowd_state run1 d n1 o1 None key).1 ->
  pass_for n1 key = false -> pass_for n2 key = true -> pass_for o2 key = false ->
  cd_state (row_crowd row) = "provisional"
  /\ (crowd_state run2 d n2 o2 (Some (prior_of_row at_ event row)) key).1
     = ("qualified", "two-qualifying-transitions").
Proof.
  intros Hrow H1 H2 H3.
  assert (Hst : cd_state (row_crowd row) = "provisional").
  { unfold crowd_state in Hrow. rewrite H1 in Hrow. cbn in Hrow. by injection Hrow as -> _. }
  split; [done|]. unfold crowd_state. rewrite H2, H3. cbn. rewrite Hst. done.
Qed.
