(* ===== verification/OrderWitness.v ===== *)
(** A small Board on which the properties of Order are instantiated: three Challenges,
    one of them solved and one attempted six times, at an ordinary boundary. *)

From S2P Require Import Prelude Canon Moment Text Intake OrderPolicy OrderFacts OrderComponents.
Local Open Scope Z_scope.

(** A cheap digest: the length of what is digested. *)
Definition length_digester : Digester := fun s => str_int (Z.of_nat (String.length s)).
#[local] Existing Instance length_digester.

Definition answered (v : json) : ValueFact :=
  {| vf_value := v; vf_source := "detail"; vf_outcome := "answered"; vf_observed_at := None |}.
Definition missing : PresentValue := {| pv_state := "missing"; pv_value := JNull |}.

Definition sample_challenge (id value : Z) (solved_ : bool) (statement : string) : ChallengeSnapshot := {|
  challenge_id := IntegerId id; cs_name := "challenge"; cs_category := "crypto";
  challenge_type := "standard"; cs_statement := statement; cs_value := answered (JInt value);
  cs_solves := answered (JInt 3); cs_solved := answered (JBool solved_);
  cs_position := {| pv_state := "value"; pv_value := JInt id |}; cs_attempts := 0;
  cs_max_attempts := missing; cs_shared := missing; cs_timeout := missing;
  cs_destroy_on_flag := missing; cs_mana_cost := missing; cs_attachments := [];
  revision_digest := "revision" |}.

Definition utc (seconds : Z) : moment := Moment (us_per_second * seconds) (Some 0).
Definition noon : Z := 1780000000.

Definition sample_snapshot : IntakeSnapshot := {|
  snapshot_id := "snapshot-1"; profile_digest := "profile"; observed_at := utc noon;
  challenges := [sample_challenge 1 100 false "Difficulty: easy"; sample_challenge 2 200 false "";
                 sample_challenge 3 50 true ""];
  empty_diagnosis := ""; tombstones := []; scoreboard := []; mana := None |}.

Definition sample_attempt (n : Z) : AttemptFact := {|
  at_challenge_id := IntegerId 1; at_attempt_id := str_int n; at_category := "crypto";
  seconds_ms := 60000; checkpoints := 0; disposition := "exhausted";
  at_source_event_digest := ""; checkpoint_event_digests := [] |}.

Definition sample_admission : AdmissionFact := {|
  af_challenge_id := IntegerId 2; admissible := true; af_reason := ""; evidence_digest := "";
  safe_deadline := Some (utc (noon + 400)) |}.

Definition sample_run (generation : Z) : OrderRunFacts := {|
  boundary_id := "boundary-1"; boundary_at := utc (noon + 60);
  final_submission_cutoff := utc (noon + 4060); window_seconds := 18000;
  next_generation := generation; window_digest := ""; generation_projection_digest := "";
  intake_event_digest := ""; submission_tail_seconds := 60; boundary_clock_event_digest := "";
  leased := []; solved := []; active_grants := []; attempts := sample_attempt <$> [1; 2; 3; 4; 5; 6];
  prior_crowd := []; durable_tiers := []; admission := [sample_admission];
  prior_order_fence := {| of_publication_id := ""; of_decision_digest := ""; of_boundary_event_digest := "" |};
  boundary_fact_event_digest := ""; final_chance_available := false |}.

Definition sample_request (generation : Z) : OrderInput := {|
  oi_authority := {|
    snapshot := sample_snapshot;
    fence := {| pf_profile_digest := "profile"; pf_event_id := "event-1"; pf_event_digest := "";
                pf_snapshot_digest := snapshot_digest sample_snapshot |};
    history := []; effective_max_challenges := 100;
    crowd_source := {| structurally_trusted := true; synthetic := false; control_digest := "" |} |};
  oi_run := sample_run generation; oi_dials := default_dials |}.

Definition granted (r : result OrderDecision) : option ActiveGrant :=
  match r with Ok d => grant d | Err _ => None end.
Definition ranked (r : result OrderDecision) : list OrderRow :=
  match r with Ok d => rows d | Err _ => [] end.
Definition interval_in (r : result OrderDecision) : string :=
  match r with Ok d => interval d | Err _ => "" end.

Definition sample_grant : ActiveGrant := {|
  ag_attempt_id := "i:2-1"; ag_generation_id := "generation-000001"; ag_challenge_id := IntegerId 2;
  ag_tier := 2; ag_budget_s := 340; ag_deadline := utc (noon + 400); ag_order_event_digest := "" |}.

Example sample_ids : row_challenge_id <$> ranked (decide_order (sample_request 1)) = [IntegerId 2; IntegerId 1].
Proof. vm_compute. reflexivity. Qed.

Example sample_granted : granted (decide_order (sample_request 1)) = Some sample_grant.
Proof. vm_compute. reflexivity. Qed.

Lemma in_first {A} (x y : A) : x ∈ [x; y].
Proof. set_solver. Qed.
Lemma in_second {A} (x y : A) : y ∈ [x; y].
Proof. set_solver. Qed.

(** The decided sample, its two rows and its grant. *)
Lemma sample_decided : exists dec r s,
  decide_order (sample_request 1) = Ok dec /\ rows dec = [s; r]
  /\ row_challenge_id s = IntegerId 2 /\ row_challenge_id r = IntegerId 1
  /\ grant dec = Some sample_grant /\ interval dec = "ordinary".
Proof.
  pose proof sample_ids as Hi. pose proof sample_granted as Hg.
  assert (Hn : interval_in (decide_order (sample_request 1)) = "ordinary") by (vm_compute; reflexivity).
  destruct (decide_order (sample_request 1)) as [dec|]; [|discriminate]. cbn in Hi, Hg, Hn.
  destruct (rows dec) as [|s [|r []]] eqn:E; try discriminate. injection Hi as H2 H1.
  by exists dec, r, s.
Qed.

Lemma sample_measured : Forall measured (attempts (sample_run 1)).
Proof. repeat (apply Forall_cons; split; [split; cbn; lia|]). apply Forall_nil_2. Qed.

Lemma default_weights : weights_nonneg default_dials.
Proof.
  repeat (apply Forall_cons; split; [apply q_leb_le; vm_compute; reflexivity|]). apply Forall_nil_2.
Qed.

Lemma order_rows_total_witness : exists dec,
  decide_order (sample_request 1) = Ok dec
  /\ forall k, k ∈ row_challenge_id <$> rows dec <->
       exists c, c ∈ challenges (snapshot (oi_authority (sample_request 1))) /\ challenge_id c = k
         /\ eligible (solved (oi_run (sample_request 1))) c.
Proof.
  destruct sample_decided as (dec & r & s & Hd & _). exists dec. split; [exact Hd|].
  exact (proj1 (order_rows_total (sample_request 1) dec Hd)).
Defined.

Lemma order_rows_sorted_witness : exists dec r s c d,
  decide_order (sample_request 1) = Ok dec /\ rows dec = [s; r]
  /\ row_challenge_id s = challenge_id c /\ row_challenge_id r = challenge_id d
  /\ ((demoted s = false /\ demoted r = true)
      \/ demoted s = demoted r /\ ((order_value r < order_value s)%Qc \/ order_value s = order_value r /\ board_before c d)).
Proof.
  destruct sample_decided as (dec & r & s & Hd & Hr & _).
  destruct (order_rows_sorted (sample_request 1) dec 0 1 s r Hd) as (c & d & _ & _ & Hc); [lia|rewrite Hr; reflexivity|rewrite Hr; reflexivity|].
  exists dec, r, s, c, d. split; [exact Hd|]. split; [exact Hr|]. exact Hc.
Defined.

Lemma order_no_livelock_witness : exists dec r s,
  decide_order (sample_request 1) = Ok dec /\ rows dec = [s; r] /\ rank s < rank r.
Proof.
  destruct sample_decided as (dec & r & s & Hd & Hr & Hs2 & Hr1 & _). exists dec, r, s.
  split; [exact Hd|]. split; [exact Hr|].
  apply (order_no_livelock (sample_request 1) dec r s Hd).
  - rewrite Hr. apply in_second.
  - rewrite Hr. apply in_first.
  - rewrite Hr1. vm_compute. congruence.
  - rewrite Hs2. vm_compute. reflexivity.
Defined.

Lemma grant_finishes_witness : exists dec,
  decide_order (sample_request 1) = Ok dec
  /\ instant (ag_deadline sample_grant) <= instant (final_submission_cutoff (sample_run 1)).
Proof.
  destruct sample_decided as (dec & r & s & Hd & _ & _ & _ & Hg & _). exists dec. split; [exact Hd|].
  exact (proj1 (proj2 (proj2 (grant_finishes (sample_request 1) dec sample_grant Hd Hg)))).
Defined.

Lemma grant_entitled_witness :
  ag_challenge_id sample_grant ∈ (challenge_id <$> the_population (sample_request 1)).
Proof.
  destruct sample_decided as (dec & r & s & Hd & _ & _ & _ & Hg & _).
  exact (proj1 (grant_entitled (sample_request 1) dec sample_grant Hd Hg)).
Defined.

Lemma working_set_affordable_witness : exists dec k,
  decide_order (sample_request 1) = Ok dec
  /\ working_set dec = py_take k (row_challenge_id <$> List.filter not_deferred (rows dec)).
Proof.
  destruct sample_decided as (dec & r & s & Hd & _). exists dec.
  destruct (working_set_affordable (sample_request 1) dec Hd) as (k & Hk & _).
  exists k. split; [exact Hd|exact Hk].
Defined.

Lemma components_normalised_witness : exists dec r,
  decide_order (sample_request 1) = Ok dec /\ r ∈ rows dec /\ components_unit (components r).
Proof.
  destruct sample_decided as (dec & r & s & Hd & Hr & _).
  assert (Hin : r ∈ rows dec) by (rewrite Hr; apply in_second).
  exists dec, r. split; [exact Hd|]. split; [exact Hin|].
  exact (proj1 (components_normalised (sample_request 1) dec r Hd Hin sample_measured default_weights)).
Defined.

Lemma tiers_and_budgets_witness : exists dec r,
  decide_order (sample_request 1) = Ok dec /\ r ∈ rows dec /\ 1 <= final_tier r <= 4.
Proof.
  destruct sample_decided as (dec & r & s & Hd & Hr & _).
  assert (Hin : r ∈ rows dec) by (rewrite Hr; apply in_second).
  exists dec, r. split; [exact Hd|]. split; [exact Hin|].
  refine (proj1 (tiers_and_budgets (sample_request 1) dec r r Hd Hin Hin sample_measured _ _)).
  - cbn. lia.
  - apply frac_unit; lia.
Defined.

Lemma exploration_share_witness : exists dec r,
  decide_order (sample_request 1) = Ok dec /\ r ∈ rows dec
  /\ row_challenge_id r = ag_challenge_id sample_grant.
Proof.
  destruct sample_decided as (dec & r & s & Hd & _ & _ & _ & Hg & Hi). exists dec.
  destruct (exploration_share (sample_request 1) dec sample_grant Hd Hg Hi) as (x & Hx & Hid & _).
  exists x. split; [exact Hd|]. split; [exact Hx|exact Hid].
Defined.

(** A row first read without a qualifying transition, and a transition that qualifies. *)
Definition sample_transition (pass : bool) : Transition := {|
  passed := pass; tr_reason := "activity-unproved"; tr_velocities := [(IntegerId 1, frac 1 300)];
  tr_activity_digest := "" |}.

Definition provisional_sample : OrderRow :=
  let c := {| cd_state := "provisional"; cd_reason := "activity-unproved"; cd_velocity := None;
              cd_percentile := half; cd_reliability := frac 1 4; cd_activity_digest := "" |} in
  let zero := {| c_crowd := qc 0; c_value := qc 0; c_lease := qc 0; c_progress := qc 0;
                 c_category := qc 0; c_spend := qc 0 |} in
  {| row_challenge_id := IntegerId 1; row_name := ""; row_category := ""; row_revision_digest := "";
     rank := 1; order_value := qc 0; components := zero; row_crowd := c; base_tier := 2; final_tier := 2;
     budget_s := 600; committed := true; demoted := false; deferred_reason := "";
     deferred_evidence_digest := ""; tie_break := (1, inl 1) |}.

Lemma two_failures_unqualify_witness :
  (crowd_state (sample_run 2) default_dials (Some (sample_transition false)) None
     (Some (prior_of_row (utc noon) "" provisional_sample)) (IntegerId 1)).1.1 <> "qualified".
Proof.
  apply (two_failures_unqualify (sample_run 1) (sample_run 2) default_dials
    (Some (sample_transition false)) None (Some (sample_transition false)) None None (IntegerId 1)
    provisional_sample (utc noon) ""); reflexivity.
Defined.

Lemma one_pass_after_provisional_witness :
  (crowd_state (sample_run 2) default_dials (Some (sample_transition true)) None
     (Some (prior_of_row (utc noon) "" provisional_sample)) (IntegerId 1)).1
  = ("qualified", "two-qualifying-transitions").
Proof.
  apply (one_pass_after_provisional (sample_run 1) (sample_run 2) default_dials
    (Some (sample_transition false)) None (Some (sample_transition true)) None (IntegerId 1)
    provisional_sample (utc noon) ""); reflexivity.
Defined.
