(* ===== verification/Reservation.v ===== *)
(** Authority-space reservation and the at-most-once effect boundary.

    [src/solver/write_reservation_contracts.py], [write_reservation_storage.py],
    [write_reservation.py] and [write_reservation_receipt.py].

    The disk is explicit: per pool a ledger of fixed record cells, an extent and
    its precreated object slots.  An operation is a program over a [World], the
    disk and the number of durable writes left before power is lost; it returns
    ([Done]), raises ([Raised], with every write made so far kept) or is cut off
    between two durable writes ([Crashed], which no handler catches).  Every
    operation holds the authority's lock throughout, so operations are atomic to
    each other.  One durable write (a record, a truncation, an extension) happens
    whole or not at all; a record cell holds the row whose canonical bytes it
    stores.  OS failures the code tolerates are given by [Faults]. *)

From S2P Require Import Prelude Canon Text.
Local Open Scope Z_scope.

(** ** Contracts *)

Definition LEDGER_RECORD_BYTES : Z := 2048.
Definition SCHEMA_VERSION : Z := 1.
Definition RECEIPT_TYPE : string := "write-reservation".
Definition MANIFEST_ROW_ID : string := "core.canonical-state-replay-restart".
Definition MANIFEST_RECEIPT_REF : string := "receipt:write-reservation".

Record Capacity : Type := {
  bytes : Z;
  objects : Z;
  operations : Z;
  create : Z;
  append : Z;
  rename : Z;
  unlink : Z;
  durability : Z
}.

#[export] Instance Capacity_eq_dec : EqDecision Capacity.
Proof. solve_decision. Defined.

Definition cap_values (c : Capacity) : list (string * Z) := [
  ("bytes", bytes c); ("objects", objects c); ("operations", operations c); ("create", create c);
  ("append", append c); ("rename", rename c); ("unlink", unlink c); ("durability", durability c)].

(** The dataclass constructor with its [__post_init__]. *)
Definition Capacity_new (c : Capacity) : result Capacity :=
  raise_if (py_any (fun nv => nv.2 <? 0) (cap_values c))
    (ValueError "reservation capacity cannot be negative");;
  Ok c.

(** [Capacity(bytes, objects, operations)]: the other counts default to zero. *)
Definition capacity (b o n : Z) : Capacity := {|
  bytes := b; objects := o; operations := n; create := 0; append := 0; rename := 0; unlink := 0;
  durability := 0 |}.

Definition cap_as_dict (c : Capacity) : json :=
  JObj ((fun nv => (nv.1, JInt nv.2)) <$>
    (if py_any (fun nv => negb (nv.2 =? 0)) (drop 3 (cap_values c)) then cap_values c
     else take 3 (cap_values c))).

Definition fits (have need : Capacity) : bool :=
  forallb (fun p => p.2.2 <=? p.1.2) (zip (cap_values have) (cap_values need)).

Definition cap_map2 (f : Z -> Z -> Z) (a b : Capacity) : Capacity := {|
  bytes := f (bytes a) (bytes b); objects := f (objects a) (objects b);
  operations := f (operations a) (operations b); create := f (create a) (create b);
  append := f (append a) (append b); rename := f (rename a) (rename b);
  unlink := f (unlink a) (unlink b); durability := f (durability a) (durability b) |}.

Definition cap_sub (a b : Capacity) : result Capacity := Capacity_new (cap_map2 Z.sub a b).
Definition cap_add (a b : Capacity) : result Capacity := Capacity_new (cap_map2 Z.add a b).

Inductive Pool : Type := ORDINARY | SHARED | TERMINAL_POOL | RECOVERY.

#[export] Instance Pool_eq_dec : EqDecision Pool.
Proof. solve_decision. Defined.

Definition pool_value (p : Pool) : string :=
  match p with
  | ORDINARY => "ordinary" | SHARED => "shared" | TERMINAL_POOL => "terminal" | RECOVERY => "recovery"
  end.

(** Iterating the enumeration. *)
Definition all_pools : list Pool := [ORDINARY; SHARED; TERMINAL_POOL; RECOVERY].

(** One value per pool. *)
Record pools (A : Type) : Type := Pools {
  in_ordinary : A; in_shared : A; in_terminal : A; in_recovery : A }.
Arguments Pools {A} _ _ _ _.
Arguments in_ordinary {A} _.
Arguments in_shared {A} _.
Arguments in_terminal {A} _.
Arguments in_recovery {A} _.

Definition at_pool {A} (x : pools A) (p : Pool) : A :=
  match p with
  | ORDINARY => in_ordinary x | SHARED => in_shared x
  | TERMINAL_POOL => in_terminal x | RECOVERY => in_recovery x
  end.

Definition set_pool {A} (p : Pool) (a : A) (x : pools A) : pools A :=
  match p with
  | ORDINARY => Pools a (in_shared x) (in_terminal x) (in_recovery x)
  | SHARED => Pools (in_ordinary x) a (in_terminal x) (in_recovery x)
  | TERMINAL_POOL => Pools (in_ordinary x) (in_shared x) a (in_recovery x)
  | RECOVERY => Pools (in_ordinary x) (in_shared x) (in_terminal x) a
  end.

Definition WriteProfile : Type := pools Capacity.

Definition profile_as_dict (w : WriteProfile) : json :=
  JObj ((fun p => (pool_value p, cap_as_dict (at_pool w p))) <$> all_pools).

Definition DEFAULT_WRITE_PROFILE : WriteProfile :=
  Pools (capacity 0 0 0) (capacity (512 * 1024) 16 256) (capacity (64 * 1024) 2 16) (capacity 0 0 0).

Record EffectIdentity : Type := {
  operation : string;
  subject : string;
  payload_digest : string
}.

#[export] Instance EffectIdentity_eq_dec : EqDecision EffectIdentity.
Proof. solve_decision. Defined.

Definition identity_as_dict (i : EffectIdentity) : json :=
  JObj [("operation", JStr (operation i)); ("subject", JStr (subject i));
        ("payload_digest", JStr (payload_digest i))].

Definition fingerprint `{Digester} (i : EffectIdentity) : string := digest (identity_as_dict i).

Inductive ReservationState : Type :=
  | RESERVED | STARTED | COMMITTED | ABORTED | POSSIBLY_SENT | REFUSED | TERMINAL | RELEASED.

#[export] Instance ReservationState_eq_dec : EqDecision ReservationState.
Proof. solve_decision. Defined.

Definition state_value (s : ReservationState) : string :=
  match s with
  | RESERVED => "reserved" | STARTED => "started" | COMMITTED => "committed" | ABORTED => "aborted"
  | POSSIBLY_SENT => "possibly-sent" | REFUSED => "refused" | TERMINAL => "terminal"
  | RELEASED => "released"
  end.

(** [FINAL_STATES]. *)
Definition is_final (s : ReservationState) : bool :=
  match s with RESERVED | STARTED => false | _ => true end.

Inductive RetentionPolicy : Type := RELEASE | RECORD | RECEIPT.

#[export] Instance RetentionPolicy_eq_dec : EqDecision RetentionPolicy.
Proof. solve_decision. Defined.

Definition retention_value (r : RetentionPolicy) : string :=
  match r with RELEASE => "release" | RECORD => "retain-record" | RECEIPT => "retain-receipt" end.

Definition retains_object (r : RetentionPolicy) : bool := negb (bool_decide (r = RELEASE)).
Definition requires_receipt (r : RetentionPolicy) : bool := bool_decide (r = RECEIPT).

Record WriteReservation : Type := {
  key : string;
  identity : EffectIdentity;
  effect_fingerprint : string;
  need : Capacity;
  pool : Pool;
  state : ReservationState;
  object_slots : list string;
  observation : option json;
  boot_id : string;
  retention : RetentionPolicy;
  grant_remaining_bytes : Z;
  grant_headroom : option (list (string * Capacity))
}.

#[export] Instance WriteReservation_eq_dec : EqDecision WriteReservation.
Proof. solve_decision. Defined.

(** [transitioned]: the boot and the retention change only when given. *)
Definition transitioned (r : WriteReservation) (s : ReservationState) (obs : option json)
    (boot : option string) (ret : option RetentionPolicy) : WriteReservation := {|
  key := key r; identity := identity r; effect_fingerprint := effect_fingerprint r; need := need r;
  pool := pool r; state := s; object_slots := object_slots r; observation := obs;
  boot_id := match boot with Some b => if bool_decide (b = "") then boot_id r else b | None => boot_id r end;
  retention := default (retention r) ret;
  grant_remaining_bytes := grant_remaining_bytes r; grant_headroom := grant_headroom r |}.

(** ** The disk *)

Record Row : Type := { ordinal : Z; written : WriteReservation }.

Record Store : Type := {
  profile : WriteProfile;
  ledgers : pools (list (option Row));
  extents : pools Z;
  slots : pools (list (string * string))
}.

(** Which tolerated OS failures an operation meets. *)
Record Faults : Type := {
  clear_fails : Pool -> string -> bool;
  grow_fails : Pool -> bool;
  (** [shrink_extent_locked] raises [OSError], after ([true]) or before ([false]) it truncated. *)
  shrink_fails : Pool -> option bool
}.

Definition no_faults : Faults := {|
  clear_fails := fun _ _ => false; grow_fails := fun _ => false; shrink_fails := fun _ => None |}.

(** [effects] records the keys whose effect was run, latest first. *)
Record World : Type := { disk : Store; writes_left : nat; effects : list string }.

(** ** Programs over the world *)

Definition M (A : Type) : Type := World -> World * outcome A.

#[export] Instance M_ret : MRet M := fun A a w => (w, Done a).
#[export] Instance M_fmap : FMap M := fun A B f m w =>
  match m w with
  | (w', Done a) => (w', Done (f a))
  | (w', Raised e) => (w', Raised e)
  | (w', Crashed) => (w', Crashed)
  end.
#[export] Instance M_bind : MBind M := fun A B f m w =>
  match m w with
  | (w', Done a) => f a w'
  | (w', Raised e) => (w', Raised e)
  | (w', Crashed) => (w', Crashed)
  end.

Definition raise {A} (e : exn) : M A := fun w => (w, Raised e).

(** [except BaseException]: the handler sees the exception, never a crash. *)
Definition catch {A} (m : M A) (h : exn -> M A) : M A := fun w =>
  match m w with (w', Raised e) => h e w' | r => r end.

Definition get : M Store := fun w => (w, Done (disk w)).

Definition lift {A} (r : result A) : M A :=
  match r with Ok a => mret a | Err e => raise e end.

(** One durable write. *)
Definition durable (f : Store -> Store) : M unit := fun w =>
  match writes_left w with
  | O => (w, Crashed)
  | S n => ({| disk := f (disk w); writes_left := n; effects := effects w |}, Done tt)
  end.

(** The effect of [k] runs. *)
Definition run_effect (k : string) : M unit := fun w =>
  ({| disk := disk w; writes_left := writes_left w; effects := k :: effects w |}, Done tt).

(** ** Storage *)

Definition set_cell (p : Pool) (i : nat) (row : Row) (s : Store) : Store := {|
  profile := profile s;
  ledgers := set_pool p (<[i := Some row]> (at_pool (ledgers s) p)) (ledgers s);
  extents := extents s; slots := slots s |}.

Definition set_extent (p : Pool) (size : Z) (s : Store) : Store := {|
  profile := profile s; ledgers := ledgers s; extents := set_pool p size (extents s); slots := slots s |}.

Definition set_slot (p : Pool) (name body : string) (s : Store) : Store := {|
  profile := profile s; ledgers := ledgers s; extents := extents s;
  slots := set_pool p (dict_set name body (at_pool (slots s) p)) (slots s) |}.

Definition is_empty (c : option Row) : bool := match c with None => true | Some _ => false end.

(** [_first_empty_record]. *)
Fixpoint first_empty_record (ledger : list (option Row)) : option nat :=
  match ledger with
  | [] => None
  | None :: _ => Some O
  | Some _ :: rest => S <$> first_empty_record rest
  end.

Definition rows_locked (s : Store) : list Row :=
  sort_by ordinal (omap id (all_pools ≫= at_pool (ledgers s))).

(** What reading a row back gives: an absent headroom becomes an empty one. *)
Definition reservation_of (row : Row) : WriteReservation :=
  let r := written row in {|
  key := key r; identity := identity r; effect_fingerprint := effect_fingerprint r; need := need r;
  pool := pool r; state := state r; object_slots := object_slots r; observation := observation r;
  boot_id := boot_id r; retention := retention r; grant_remaining_bytes := grant_remaining_bytes r;
  grant_headroom := Some (default [] (grant_headroom r)) |}.

Definition latest_of (rows : list Row) : list (string * WriteReservation) :=
  foldl (fun d row => dict_set (key (written row)) (reservation_of row) d) [] rows.

Definition latest_locked (s : Store) : list (string * WriteReservation) := latest_of (rows_locked s).

Definition headroom_json (h : list (string * Capacity)) : json :=
  JObj ((fun nc => (nc.1, cap_as_dict nc.2)) <$> h).

Definition row_document (ord : Z) (r : WriteReservation) : json :=
  JObj ([
    ("schema_version", JInt SCHEMA_VERSION);
    ("ordinal", JInt ord);
    ("key", JStr (key r));
    ("effect_fingerprint", JStr (effect_fingerprint r));
    ("identity", identity_as_dict (identity r));
    ("need", cap_as_dict (need r));
    ("pool", JStr (pool_value (pool r)));
    ("state", JStr (state_value (state r)));
    ("object_slots", JList (JStr <$> object_slots r));
    ("observation", default JNull (observation r));
    ("boot_id", JStr (boot_id r));
    ("retention", JStr (retention_value (retention r)));
    ("grant_remaining_bytes", JInt (grant_remaining_bytes r))]
   ++ match grant_headroom r with
      | Some ((_ :: _) as h) => [("grant_headroom", headroom_json h)]
      | _ => []
      end).

Definition next_ordinal (s : Store) : Z := maxZ 0 (ordinal <$> rows_locked s) + 1.

Definition append_locked (r : WriteReservation) (ledger_pool : option Pool) : M unit :=
  let p := default (pool r) ledger_pool in
  s ← get;
  match first_empty_record (at_pool (ledgers s) p) with
  | None =>
      raise (ReservationUnavailable (pool_value (pool r) +:+ " durability-operation reserve is exhausted"))
  | Some slot =>
      let ord := next_ordinal s in
      if LEDGER_RECORD_BYTES <? Z.of_nat (String.length (canonical_bytes (row_document ord r))) + 1 then
        raise (ReservationUnavailable "authority record exceeds its preallocated durable slot")
      else durable (set_cell p slot {| ordinal := ord; written := r |})
  end.

Definition is_open (s : ReservationState) : bool := bool_decide (s = RESERVED) || bool_decide (s = STARTED).

(** A reservation that still owns its capacity. *)
Definition holds (p : Pool) (r : WriteReservation) : bool :=
  bool_decide (pool r = p) && (is_open (state r) || retains_object (retention r)).

Definition held_in (p : Pool) (s : Store) : list WriteReservation :=
  List.filter (holds p) (dict_values (latest_locked s)).

Definition available_operations (p : Pool) (s : Store) : Z :=
  py_len (List.filter is_empty (at_pool (ledgers s) p)).

Definition trace_length (k : string) (rows : list Row) : Z :=
  py_len (List.filter (fun row => bool_decide (key (written row) = k)) rows).

Definition future_operations (p : Pool) (s : Store) : Z :=
  sumZ ((fun r => Z.max (operations (need r) - trace_length (key r) (rows_locked s)) 0) <$> held_in p s).

Section faulty.
Context `{Digester} (faults : Faults).

(** [_clear_slot]: truncating a slot that is not there fails too. *)
Definition clear_slot (p : Pool) (name : string) : M bool :=
  s ← get;
  if clear_fails faults p name || negb (dict_has name (at_pool (slots s) p)) then mret false
  else durable (set_slot p name "");; mret true.

Definition claimed (p : Pool) (s : Store) : list string := held_in p s ≫= object_slots.

(** The loop over the sorted slots; it stops at [count]. *)
Fixpoint take_slots (p : Pool) (claimed : list string) (count : nat) (names : list string) : M (list string) :=
  match names with
  | [] => mret []
  | name :: rest =>
      if bool_decide (name ∈ claimed) then take_slots p claimed count rest
      else
        ok ← clear_slot p name;
        if (ok : bool) then
          match count with
          | S (S n) => l ← take_slots p claimed (S n) rest; mret (name :: l)
          | _ => mret [name]
          end
        else take_slots p claimed count rest
  end.

Definition available_object_slots (p : Pool) (count : Z) : M (list string) :=
  if count =? 0 then mret []
  else
    s ← get;
    take_slots p (claimed p s) (Z.to_nat count) (sort_by id (dict_keys (at_pool (slots s) p))).

Definition available_capacity (p : Pool) : M Capacity :=
  s ← get;
  let limit := at_pool (profile s) p in
  let held := held_in p s in
  let left (f : Capacity -> Z) := f limit - sumZ ((fun r => f (need r)) <$> held) in
  names ← available_object_slots p (objects limit);
  lift (Capacity_new {|
    bytes := at_pool (extents s) p;
    objects := py_len names;
    operations := Z.max (available_operations p s - future_operations p s) 0;
    create := left create; append := left append; rename := left rename; unlink := left unlink;
    durability := left durability |}).

Fixpoint headroom_of (ps : list Pool) : M (list (string * Capacity)) :=
  match ps with
  | [] => mret []
  | p :: ps => c ← available_capacity p; rest ← headroom_of ps; mret ((pool_value p, c) :: rest)
  end.

Definition headroom_locked : M (list (string * Capacity)) := headroom_of all_pools.

(** [release_object_slots_locked]: every slot is cleared, whatever the ones before did. *)
Fixpoint release_slots (p : Pool) (names : list string) (released : bool) : M bool :=
  match names with
  | [] => mret released
  | name :: rest => ok ← clear_slot p name; release_slots p rest ((ok : bool) && released)
  end.

Definition release_object_slots (r : WriteReservation) : M bool :=
  release_slots (pool r) (object_slots r) true.

Definition shrink_extent (p : Pool) (amount : Z) : M unit :=
  s ← get;
  let size := at_pool (extents s) p in
  if size <? amount then
    raise (ReservationUnavailable (pool_value p +:+ " physical byte reserve is exhausted"))
  else
    match shrink_fails faults p with
    | None => durable (set_extent p (size - amount))
    | Some true => durable (set_extent p (size - amount));; raise (OSError "shrink")
    | Some false => raise (OSError "shrink")
    end.

(** [replenish_extent_locked]: a failed extension is rolled back and tolerated. *)
Definition replenish_extent (p : Pool) (amount : Z) : M unit :=
  s ← get;
  let original := at_pool (extents s) p in
  let wanted := Z.min amount (bytes (at_pool (profile s) p) - original) in
  if (wanted <=? 0) || grow_fails faults p then mret tt
  else durable (set_extent p (original + wanted)).

(** [write_object] of storage: one truncating write into the reservation's first slot. *)
Definition write_object (r : WriteReservation) (body : string) : M unit :=
  if negb (retains_object (retention r)) || bool_decide (object_slots r = []) then
    raise (ReservationConflict "reservation retained no object capacity for this record")
  else if bytes (need r) <? Z.of_nat (String.length body) then
    raise (ReservationUnavailable "record exceeds its reserved byte capacity")
  else
    s ← get;
    match dict_get (key r) (latest_locked s), head (object_slots r) with
    | Some current, Some name =>
        if bool_decide (effect_fingerprint current = effect_fingerprint r)
           && retains_object (retention current)
           && bool_decide (object_slots current = object_slots r)
        then
          if dict_has name (at_pool (slots s) (pool r)) then durable (set_slot (pool r) name body)
          else raise (OSError "no such slot")
        else raise (ReservationConflict "record reservation no longer matches durable authority")
    | _, _ => raise (ReservationConflict "record reservation no longer matches durable authority")
    end.

(** ** The authority *)

(** The redactor the authority is constructed with, on bytes. *)
Context (redact : string -> string).

Definition MAX_OBSERVATION_TEXT : Z := 512.

Definition str_take (n : nat) (s : string) : string := String.substring 0 n s.
Definition str_last (n : nat) (s : string) : string :=
  String.substring (String.length s - n) n s.

Definition bounded_text (value : string) : string :=
  let sanitized := redact (utf8_encode value) in
  if Z.of_nat (String.length sanitized) <=? MAX_OBSERVATION_TEXT then utf8_decode sanitized
  else
    utf8_decode (str_take 192 sanitized) +:+ "[truncated:" +:+ str_int (Z.of_nat (String.length sanitized)) +:+ ":"
      +:+ digest_bytes sanitized +:+ "]" +:+ utf8_decode (str_last 64 sanitized).

Fixpoint bounded (value : json) : json :=
  match value with
  | JStr s => JStr (bounded_text s)
  | JObj fields => JObj ((fix go fs := match fs with
      | [] => []
      | (k, v) :: rest => (k, bounded v) :: go rest
      end) fields)
  | JList l => JList ((fix go l := match l with [] => [] | v :: rest => bounded v :: go rest end) l)
  | other => other
  end.

(** The identifier this process drew at construction. *)
Context (boot : string).

Definition assert_same_effect (current : WriteReservation) (print : string) : M unit :=
  if bool_decide (effect_fingerprint current = print) then mret tt
  else raise (ReservationConflict "idempotency key is already bound to a different semantic effect").

Definition current_locked (k : string) : M (option WriteReservation) :=
  s ← get; mret (dict_get k (latest_locked s)).

Definition require_current (proposed : WriteReservation) : M WriteReservation :=
  found ← current_locked (key proposed);
  match found with
  | None => raise (ReservationConflict ("unknown reservation " +:+ key proposed))
  | Some current => assert_same_effect current (effect_fingerprint proposed);; mret current
  end.

Definition sanitized_identity (i : EffectIdentity) : EffectIdentity := {|
  operation := bounded_text (operation i); subject := bounded_text (subject i);
  payload_digest := bounded_text (payload_digest i) |}.

(** The arguments of [reserve]. *)
Record Request : Type := {
  rq_key : string;
  rq_identity : EffectIdentity;
  rq_need : Capacity;
  rq_pool : Pool;
  rq_retention : RetentionPolicy;
  rq_floor : option Capacity;
  rq_refusal_pool : option Pool;
  rq_capture_headroom : bool;
  rq_retry_aborted : bool;
  rq_retry_released : bool
}.

Definition refusal (rq : Request) (headroom : list (string * Capacity)) : WriteReservation := {|
  key := rq_key rq; identity := sanitized_identity (rq_identity rq);
  effect_fingerprint := fingerprint (rq_identity rq); need := rq_need rq; pool := rq_pool rq;
  state := REFUSED; object_slots := []; observation := Some (JObj [("reason", JStr "capacity-exhausted")]);
  boot_id := boot; retention := RELEASE;
  grant_remaining_bytes := default 0 (bytes <$> dict_get (pool_value (rq_pool rq)) headroom);
  grant_headroom := if rq_capture_headroom rq then Some headroom else None |}.

Definition record_refusal (rq : Request) (headroom : list (string * Capacity)) : M unit :=
  let ledger_pool := default (rq_pool rq) (rq_refusal_pool rq) in
  s ← get;
  if available_operations ledger_pool s <? 1 then mret tt
  else append_locked (refusal rq headroom) (Some ledger_pool).

Definition retryable (rq : Request) (current : WriteReservation) : bool :=
  (rq_retry_aborted rq && bool_decide (state current = ABORTED))
  || (rq_retry_released rq && bool_decide (state current = RELEASED)).

(** [release_object_slots_locked] and, if that succeeded, [replenish_extent_locked]. *)
Definition give_back (r : WriteReservation) : M unit :=
  released ← release_object_slots r;
  if (released : bool) then replenish_extent (pool r) (bytes (need r)) else mret tt.

Definition admit_request (rq : Request) : M WriteReservation :=
  headroom ← headroom_locked;
  let p := rq_pool rq in
  let remaining := default (capacity 0 0 0) (dict_get (pool_value p) headroom) in
  names ← available_object_slots p (objects (rq_need rq));
  let short := negb (fits remaining (rq_need rq)) || (py_len names <? objects (rq_need rq)) in
  below_floor ← (if short then mret true
    else match rq_floor rq with
    | None => mret false
    | Some floor => left ← lift (cap_sub remaining (rq_need rq)); mret (negb (fits left floor))
    end);
  if (below_floor : bool) then
    record_refusal rq headroom;;
    raise (ReservationUnavailable
      "whole effect path does not fit reserved bytes, objects, and durability operations")
  else
    left ← lift (cap_sub remaining (rq_need rq));
    let grant := dict_set (pool_value p) left headroom in
    let reservation := {|
      key := rq_key rq; identity := sanitized_identity (rq_identity rq);
      effect_fingerprint := fingerprint (rq_identity rq); need := rq_need rq; pool := p;
      state := RESERVED; object_slots := names; observation := None; boot_id := boot;
      retention := rq_retention rq; grant_remaining_bytes := bytes left;
      grant_headroom := if rq_capture_headroom rq then Some grant else None |} in
    append_locked reservation None;;
    catch (shrink_extent p (bytes (rq_need rq))) (fun e =>
      let aborted := transitioned reservation ABORTED None None (Some RELEASE) in
      append_locked aborted None;; give_back aborted;; raise e);;
    mret reservation.

Definition reserve (rq : Request) : M WriteReservation :=
  if bool_decide (rq_key rq = "") || (operations (rq_need rq) <? 3) then
    raise (ValueError "a reservation needs a key and at least three durability operations")
  else
    found ← current_locked (rq_key rq);
    match found with
    | Some current =>
        assert_same_effect current (fingerprint (rq_identity rq));;
        if retryable rq current then admit_request rq
        else if negb (bool_decide (state current = ABORTED) || bool_decide (state current = REFUSED))
                && negb (bool_decide (retention current = rq_retention rq))
        then raise (ReservationConflict "idempotency key changed its reserved-record policy")
        else mret current
    | None => admit_request rq
    end.

(** [_claim_start]: whether this caller is the one that started the effect. *)
Definition claim_start (r : WriteReservation) : M (WriteReservation * bool) :=
  current ← require_current r;
  if bool_decide (state current = RESERVED) then
    let started := transitioned current STARTED None None None in
    append_locked started None;; mret (started, true)
  else mret (current, false).

Definition start (r : WriteReservation) : M WriteReservation := fst <$> claim_start r.

(** The state each closing state must follow; [_finish] is only called with these four. *)
Definition expected (s : ReservationState) : option ReservationState :=
  match s with
  | COMMITTED | POSSIBLY_SENT => Some STARTED
  | ABORTED | TERMINAL => Some RESERVED
  | _ => None
  end.

Definition finish (r : WriteReservation) (s : ReservationState) (obs : json) : M WriteReservation :=
  current ← require_current r;
  if is_final (state current) then mret current
  else if negb (bool_decide (expected s = Some (state current))) then
    raise (ReservationConflict (state_value (state current) +:+ " cannot transition to " +:+ state_value s))
  else
    let ret := if bool_decide (s = ABORTED) then RELEASE else retention current in
    let closed := transitioned current s (Some (bounded obs)) None (Some ret) in
    append_locked closed None;;
    (if retains_object (retention closed) then mret tt else give_back closed);;
    mret closed.

Definition commit (r : WriteReservation) (obs : json) : M WriteReservation := finish r COMMITTED obs.

(** [{"reason": reason, **observation}]: a reason in the observation wins. *)
Definition possibly_sent (r : WriteReservation) (reason : string) (obs : list (string * json)) :
    M WriteReservation :=
  finish r POSSIBLY_SENT
    (JObj (foldl (fun d kv => dict_set kv.1 kv.2 d) [("reason", JStr reason)] obs)).

Definition abort_ (r : WriteReservation) (reason : string) : M WriteReservation :=
  finish r ABORTED (JObj [("reason", JStr reason)]).

Definition refuse_indeterminate (r : WriteReservation) (reason : string) : M WriteReservation :=
  current ← require_current r;
  if bool_decide (state current = TERMINAL) then mret current
  else if negb (bool_decide (state current = POSSIBLY_SENT)) then
    raise (ReservationConflict (state_value (state current) +:+ " is not an indeterminate effect"))
  else
    let closed := transitioned current TERMINAL
      (Some (JObj [("classification", JStr (bounded_text reason))])) None None in
    append_locked closed None;; mret closed.

Definition release_retained (r : WriteReservation) (reason : string) : M WriteReservation :=
  current ← require_current r;
  if bool_decide (state current = RELEASED) then mret current
  else if negb (retains_object (retention current)) || negb (is_final (state current)) then
    raise (ReservationConflict "only a crash-durable retained grant can be released")
  else
    let released := transitioned current RELEASED
      (Some (JObj [("reason", JStr (bounded_text reason))])) None (Some RELEASE) in
    append_locked released None;; give_back released;; mret released.

(** [reserve(key, identity, need, pool=...)]: the other arguments at their defaults. *)
Definition plain_request (k : string) (i : EffectIdentity) (n : Capacity) (p : Pool)
    (ret : RetentionPolicy) : Request := {|
  rq_key := k; rq_identity := i; rq_need := n; rq_pool := p; rq_retention := ret; rq_floor := None;
  rq_refusal_pool := None; rq_capture_headroom := false; rq_retry_aborted := false;
  rq_retry_released := false |}.

Definition record_terminal (k : string) (i : EffectIdentity) (n : Capacity) (classification : string) :
    M WriteReservation :=
  reservation ← reserve (plain_request k i n TERMINAL_POOL RELEASE);
  if bool_decide (state reservation = TERMINAL) then mret reservation
  else if negb (bool_decide (state reservation = RESERVED)) then
    raise (EffectIndeterminate ("terminal transaction " +:+ k +:+ " is already "
      +:+ state_value (state reservation)))
  else finish reservation TERMINAL (JObj [("classification", JStr classification)]).

(** What [_reconcile_prior_boots_locked] does with one reservation. *)
Definition recover (r : WriteReservation) : M unit :=
  if bool_decide (boot_id r = boot) then mret tt
  else
    match state r with
    | RESERVED =>
        let recovered := transitioned r ABORTED
          (Some (JObj [("reason", JStr "restart-before-effect")])) (Some boot) (Some RELEASE) in
        append_locked recovered None;; give_back recovered
    | STARTED =>
        let recovered := transitioned r POSSIBLY_SENT
          (Some (JObj [("reason", JStr "restart-after-effect-admission")])) (Some boot) None in
        append_locked recovered None;;
        (if retains_object (retention recovered) then mret tt else give_back recovered)
    | _ => mret tt
    end.

Fixpoint recover_all (l : list WriteReservation) : M unit :=
  match l with [] => mret tt | r :: rest => recover r;; recover_all rest end.

Definition reconcile_prior_boots : M unit :=
  s ← get; recover_all (dict_values (latest_locked s)).

(** ** Receipts *)

(** The controlled proof [load_controlled_proof] reads from the release. *)
Context (proof : list (string * json)).

Definition row_json (row : Row) : json := row_document (ordinal row) (written row).

Definition trace (k : string) (s : Store) : list Row :=
  List.filter (fun row => bool_decide (key (written row) = k)) (rows_locked s).

Definition receipt_fields (s : Store) (r : WriteReservation) : list (string * json) := [
  ("schema_version", JInt SCHEMA_VERSION);
  ("receipt_type", JStr RECEIPT_TYPE);
  ("profile_digest", JStr (digest (profile_as_dict (profile s))));
  ("key", JStr (key r));
  ("effect_fingerprint", JStr (effect_fingerprint r));
  ("pool", JStr (pool_value (pool r)));
  ("need", cap_as_dict (need r));
  ("object_slots", JList (JStr <$> object_slots r));
  ("state", JStr (state_value (state r)));
  ("trace", JList (row_json <$> trace (key r) s));
  ("grant_remaining_bytes", JInt (grant_remaining_bytes r));
  ("controlled_proof_digest", JStr (digest (JObj proof)));
  ("crash_point_outcomes", default JNull (dict_get "crash_point_outcomes" proof));
  ("fault_injection_result", default JNull (dict_get "fault_injection_result" proof));
  ("reserved_capacity_exhaustion_result",
     default JNull (dict_get "reserved_capacity_exhaustion_result" proof));
  ("manifest_link", JObj [("row_id", JStr MANIFEST_ROW_ID); ("receipt_ref", JStr MANIFEST_RECEIPT_REF)])].

Definition newline : string := String (Ascii.ascii_of_N 10) EmptyString.

Definition write_receipt (k : string) : M unit :=
  found ← current_locked k;
  match found with
  | None => raise (ValueError ("unknown reservation " +:+ k))
  | Some r =>
      if negb (requires_receipt (retention r)) then
        raise (ReservationConflict "reservation did not retain capacity for a receipt")
      else if bool_decide (object_slots r = []) then
        raise (ReservationConflict "reservation has no such precreated object slot")
      else
        s ← get;
        let document := receipt_fields s r in
        let signed := document ++ [("receipt_digest", JStr (digest (JObj document)))] in
        write_object r (canonical_bytes (JObj signed) +:+ newline)
  end.

Fixpoint write_receipts (ks : list string) : M unit :=
  match ks with [] => mret tt | k :: rest => write_receipt k;; write_receipts rest end.

(** [WriteAuthority.__init__] over storage that exists: reconcile, then rewrite receipts. *)
Definition open_authority : M unit :=
  reconcile_prior_boots;;
  s ← get;
  write_receipts (key <$> List.filter (fun r => requires_receipt (retention r) && is_final (state r))
    (dict_values (latest_locked s))).

(** ** The operations other threads interleave *)

Inductive op : Type :=
  | OpReserve (rq : Request)
  | OpStart (r : WriteReservation)
  | OpCommit (r : WriteReservation) (obs : json)
  | OpPossiblySent (r : WriteReservation) (reason : string) (obs : list (string * json))
  | OpAbort (r : WriteReservation) (reason : string)
  | OpRefuseIndeterminate (r : WriteReservation) (reason : string)
  | OpReleaseRetained (r : WriteReservation) (reason : string)
  | OpRecordTerminal (k : string) (i : EffectIdentity) (n : Capacity) (classification : string)
  | OpWriteReceipt (k : string).

Definition run_op (o : op) : M unit :=
  match o with
  | OpReserve rq => reserve rq;; mret tt
  | OpStart r => start r;; mret tt
  | OpCommit r obs => commit r obs;; mret tt
  | OpPossiblySent r reason obs => possibly_sent r reason obs;; mret tt
  | OpAbort r reason => abort_ r reason;; mret tt
  | OpRefuseIndeterminate r reason => refuse_indeterminate r reason;; mret tt
  | OpReleaseRetained r reason => release_retained r reason;; mret tt
  | OpRecordTerminal k i n c => record_terminal k i n c;; mret tt
  | OpWriteReceipt k => write_receipt k
  end.

(** Another thread's exception stays in that thread. *)
Fixpoint run_ops (l : list op) : M unit :=
  match l with [] => mret tt | o :: rest => catch (run_op o) (fun _ => mret tt);; run_ops rest end.

(** ** [ReservedEffect] *)

(** [_await_terminal]: one entry per sleep until the deadline, what other threads do in it. *)
Fixpoint await_terminal (polls : list (list op)) (current : WriteReservation) : M WriteReservation :=
  if is_open (state current) then
    match polls with
    | [] => mret current
    | others :: rest =>
        run_ops others;;
        found ← current_locked (key current);
        await_terminal rest (default current found)
    end
  else mret current.

Definition exn_name (e : exn) : string :=
  match e with
  | ValueError _ => "ValueError" | TypeError _ => "TypeError" | KeyError _ => "KeyError"
  | ReservationConflict _ => "ReservationConflict" | ReservationUnavailable _ => "ReservationUnavailable"
  | EffectIndeterminate _ => "EffectIndeterminate" | OSError _ => "OSError" | RuntimeError _ => "RuntimeError"
  | _ => "Exception"
  end.

(** [except (OSError, ReservationError)]. *)
Definition tolerated (e : exn) : bool :=
  match e with
  | OSError _ | ReservationConflict _ | ReservationUnavailable _ | EffectIndeterminate _ => true
  | _ => false
  end.

(** The caller's side of one execution: what the effect returns, already encoded, or
    raises; what it adds to an indeterminate outcome; what its observer raises. *)
Record Effect : Type := {
  eff_result : result json;
  eff_indeterminate : exn -> list (string * json);
  eff_observe : option exn
}.

Definition receipt_if_required (r : WriteReservation) : M unit :=
  if requires_receipt (retention r) then write_receipt (key r) else mret tt.

(** [execute] up to [decode], which the caller applies to the returned observation. *)
Definition execute (k : string) (i : EffectIdentity) (n : Capacity) (ret : RetentionPolicy)
    (eff : Effect) (polls late_polls : list (list op)) : M json :=
  reservation ← reserve (plain_request k i n SHARED ret);
  if bool_decide (state reservation = COMMITTED) then
    receipt_if_required reservation;; mret (default (JObj []) (observation reservation))
  else
  reservation ← (if bool_decide (state reservation = STARTED) then await_terminal polls reservation
                 else mret reservation);
  if bool_decide (state reservation = COMMITTED) then
    receipt_if_required reservation;; mret (default (JObj []) (observation reservation))
  else if negb (bool_decide (state reservation = RESERVED)) then
    (if requires_receipt (retention reservation) && is_final (state reservation) then write_receipt k
     else mret tt);;
    raise (EffectIndeterminate ("effect " +:+ k +:+ " is " +:+ state_value (state reservation)
      +:+ " and cannot be repeated"))
  else
    claim ← claim_start reservation;
    let '(started, acquired) := (claim : WriteReservation * bool) in
    if negb acquired then
      ended ← await_terminal late_polls started;
      if bool_decide (state ended = COMMITTED) then mret (default (JObj []) (observation ended))
      else raise (EffectIndeterminate ("effect " +:+ k +:+ " was not admitted exactly once"))
    else
      committed ← catch (run_effect k;; obs ← lift (eff_result eff); commit started obs) (fun e =>
        found ← current_locked k;
        (match found with
         | Some current =>
             if bool_decide (state current = STARTED) then
               sent ← possibly_sent started (exn_name e) (eff_indeterminate eff e);
               if requires_receipt (retention sent) then
                 catch (write_receipt k) (fun e' => if tolerated e' then mret tt else raise e')
               else mret tt
             else mret tt
         | None => mret tt
         end);;
        raise e);
      receipt_if_required committed;;
      match eff_observe eff with
      | Some (OSError _) | None => mret (default (JObj []) (observation committed))
      | Some e => raise e
      end.
End faulty.

(** ** Provisioning *)

(** [f"{index:04d}.slot"]. *)
Definition slot_name (index : nat) : string :=
  let digits := str_int (Z.of_nat index) in
  String.substring 0 (4 - String.length digits) "0000" +:+ digits +:+ ".slot".

Definition pools_of {A} (f : Pool -> A) : pools A :=
  Pools (f ORDINARY) (f SHARED) (f TERMINAL_POOL) (f RECOVERY).

(** [_provision_locked] of a Run that has no authority yet. *)
Definition fresh_store (w : WriteProfile) : Store := {|
  profile := w;
  ledgers := pools_of (fun p => replicate (Z.to_nat (operations (at_pool w p))) None);
  extents := pools_of (fun p => bytes (at_pool w p));
  slots := pools_of (fun p => (fun i => (slot_name i, "")) <$> seq 0 (Z.to_nat (objects (at_pool w p)))) |}.
