(* ===== verification/ReservationLogic.v ===== *)
(** Reasoning about the authority's programs.

    [runs rs es m Q E]: from any world whose ledger reads [rs] and whose effects are
    [es], [m] either returns with [Q] or raises or loses power with [E].  The rules
    below are the calculus the properties use; [lawful] is the history a ledger may
    hold. *)

From S2P Require Import Prelude Canon Reservation.
From Stdlib Require Import Sorted.
Local Open Scope Z_scope.

#[global] Arguments rows_locked : simpl never.
#[global] Arguments latest_locked : simpl never.
#[global] Arguments latest_of : simpl never.
#[global] Arguments next_ordinal : simpl never.

(** ** Rows of a ledger *)

Definition cells (s : Store) : list Row := omap id (all_pools ≫= at_pool (ledgers s)).

Definition wf_rows (rs : list Row) : Prop := NoDup (ordinal <$> rs).

Lemma omap_insert_empty (l : list (option Row)) i row :
  first_empty_record l = Some i -> omap id (<[i := Some row]> l) ≡ₚ row :: omap id l.
Proof.
  revert i. induction l as [|[x|] l IH]; intros i Hi; [done| |].
  - cbn in Hi. destruct (first_empty_record l) as [j|] eqn:E; [|done]. injection Hi as <-.
    cbn. rewrite (IH j eq_refl). apply Permutation_swap.
  - injection Hi as <-. done.
Qed.

Lemma cells_set_cell s p i row :
  first_empty_record (at_pool (ledgers s) p) = Some i ->
  cells (set_cell p i row s) ≡ₚ row :: cells s.
Proof.
  intros Hi. unfold cells. cbn. rewrite !omap_app.
  destruct p; cbn in Hi |- *; rewrite (omap_insert_empty _ _ _ Hi); solve_Permutation.
Qed.

Lemma next_ordinal_above s row : row ∈ rows_locked s -> ordinal row < next_ordinal s.
Proof.
  intros Hin. unfold next_ordinal.
  pose proof (maxZ_ge 0 (ordinal <$> rows_locked s) (ordinal row)) as Hge.
  specialize (Hge (list_elem_of_fmap_2 _ _ _ Hin)). lia.
Qed.

Lemma sorted_snoc (l : list Row) row :
  StronglySorted (key_le ordinal) l -> Forall (fun x => ordinal x < ordinal row) l ->
  StronglySorted (key_le ordinal) (l ++ [row]).
Proof.
  induction 1 as [|x l Hs IH Hx]; intros Hlt; cbn; [by repeat constructor|].
  apply Forall_cons in Hlt as [Hxr Hlt]. constructor; [by apply IH|].
  apply Forall_app. split; [done|]. apply Forall_singleton.
  unfold key_le, cmp_leb, cmp, Z_cmp. by rewrite (proj2 (Z.compare_lt_iff _ _) Hxr).
Qed.

Lemma wf_ordinal_inj rs x y : wf_rows rs -> x ∈ rs -> y ∈ rs -> ordinal x = ordinal y -> x = y.
Proof.
  unfold wf_rows. induction rs as [|z rs IH]; [set_solver|].
  intros [Hz Hnd]%NoDup_cons Hx Hy Heq.
  apply elem_of_cons in Hx as [->|Hx], Hy as [->|Hy]; [done| | |by apply IH].
  - destruct Hz. rewrite Heq. by apply list_elem_of_fmap_2.
  - destruct Hz. rewrite <-Heq. by apply list_elem_of_fmap_2.
Qed.

(** Writing a record into an empty cell appends it to what the ledger reads. *)
Lemma rows_set_cell s p i r :
  wf_rows (rows_locked s) -> first_empty_record (at_pool (ledgers s) p) = Some i ->
  let row := {| ordinal := next_ordinal s; written := r |} in
  rows_locked (set_cell p i row s) = rows_locked s ++ [row] /\ wf_rows (rows_locked s ++ [row]).
Proof.
  intros Hwf Hi row.
  assert (Hlt : Forall (fun x => ordinal x < ordinal row) (rows_locked s)).
  { apply Forall_forall. intros x Hx. by apply next_ordinal_above. }
  assert (Hwf' : wf_rows (rows_locked s ++ [row])).
  { unfold wf_rows. rewrite fmap_app. apply NoDup_app. split; [done|]. split; [|apply NoDup_singleton].
    intros o (x & -> & Hx)%list_elem_of_fmap Ho. rewrite Forall_forall in Hlt. specialize (Hlt x Hx).
    apply list_elem_of_singleton in Ho. cbn in *. lia. }
  split; [|done]. symmetry. apply (sorted_perm_unique ordinal).
  - intros x y. by apply wf_ordinal_inj.
  - apply sorted_snoc; [apply sort_by_sorted|done].
  - apply sort_by_sorted.
  - unfold rows_locked at 2. fold (cells (set_cell p i row s)).
    rewrite (sort_by_perm ordinal), (cells_set_cell _ _ _ _ Hi).
    unfold rows_locked. fold (cells s). rewrite (sort_by_perm ordinal). solve_Permutation.
Qed.

Lemma rows_ledgers s s' : ledgers s = ledgers s' -> rows_locked s = rows_locked s'.
Proof. unfold rows_locked. by intros ->. Qed.

Definition norm (r : WriteReservation) : WriteReservation := reservation_of {| ordinal := 0; written := r |}.

(** The latest record of a key. *)
Definition status (k : string) (rs : list Row) : option WriteReservation := dict_get k (latest_of rs).

Lemma status_snoc k rs row :
  status k (rs ++ [row]) =
  if bool_decide (k = key (written row)) then Some (norm (written row)) else status k rs.
Proof.
  unfold status, latest_of. rewrite foldl_app. cbn. apply dict_get_set.
Qed.

Lemma status_key k rs r : status k rs = Some r -> key r = k.
Proof.
  induction rs as [|row rs IH] using rev_ind; [done|]. rewrite status_snoc.
  case_bool_decide; [|done]. by intros [= <-].
Qed.

(** ** The calculus *)

Section runs.
Context {A : Type}.
Implicit Types (rs : list Row) (es : list string).

Definition runs rs es (m : M A) (Q : A -> list Row -> list string -> Prop)
    (E : list Row -> list string -> Prop) : Prop :=
  forall w, rows_locked (disk w) = rs -> effects w = es ->
    match m w with
    | (w', Done a) => Q a (rows_locked (disk w')) (effects w')
    | (w', _) => E (rows_locked (disk w')) (effects w')
    end.

(** Programs that write neither the ledger nor the effects. *)
Definition quiet (m : M A) : Prop := forall w,
  ledgers (disk (m w).1) = ledgers (disk w) /\ effects (m w).1 = effects w.

Lemma runs_ret rs es (a : A) (Q : A -> list Row -> list string -> Prop) E :
  Q a rs es -> runs rs es (mret a) Q E.
Proof. intros HQ w <- <-. exact HQ. Qed.

Lemma runs_raise rs es e Q (E : list Row -> list string -> Prop) :
  E rs es -> runs rs es (raise e) Q E.
Proof. intros HE w <- <-. exact HE. Qed.

Lemma runs_weaken rs es m Q Q' (E E' : list Row -> list string -> Prop) :
  runs rs es m Q E -> (forall a rs es, Q a rs es -> Q' a rs es) ->
  (forall rs es, E rs es -> E' rs es) -> runs rs es m Q' E'.
Proof.
  intros Hm HQ HE w Hr He. specialize (Hm w Hr He). destruct (m w) as [w' [a| |]]; auto.
Qed.

Lemma runs_quiet rs es m (Q : A -> list Row -> list string -> Prop) (E : list Row -> list string -> Prop) :
  quiet m -> (forall a, Q a rs es) -> E rs es -> runs rs es m Q E.
Proof.
  intros Hm HQ HE w <- <-. destruct (Hm w) as [Hl He]. destruct (m w) as [w' o]. cbn [fst] in Hl, He.
  destruct o; by rewrite (rows_ledgers _ _ Hl), He.
Qed.

Lemma runs_catch rs es m h Q (E : list Row -> list string -> Prop) :
  runs rs es m Q (fun rs' es' => E rs' es' /\ forall e, runs rs' es' (h e) Q E) ->
  runs rs es (catch m h) Q E.
Proof.
  intros Hm w Hr He. specialize (Hm w Hr He). unfold catch.
  destruct (m w) as [w' [a|e|]]; [done| |by destruct Hm].
  destruct Hm as [_ Hh]. by apply Hh.
Qed.
End runs.

Lemma runs_bind {A B} rs es (m : M A) (f : A -> M B) Q E :
  runs rs es m (fun a rs' es' => runs rs' es' (f a) Q E) E -> runs rs es (m ≫= f) Q E.
Proof.
  intros Hm w Hr He. specialize (Hm w Hr He). unfold mbind, M_bind.
  destruct (m w) as [w' [a|e|]]; [|done|done]. by apply Hm.
Qed.

Lemma runs_fmap {A B} rs es (m : M A) (f : A -> B) Q E :
  runs rs es m (fun a => Q (f a)) E -> runs rs es (f <$> m) Q E.
Proof.
  intros Hm w Hr He. specialize (Hm w Hr He). unfold fmap, M_fmap.
  by destruct (m w) as [w' [a|e|]].
Qed.

Lemma runs_get {B} rs es (f : Store -> M B) Q E :
  (forall s, rows_locked s = rs -> runs rs es (f s) Q E) -> runs rs es (get ≫= f) Q E.
Proof. intros Hf w Hr He. by apply (Hf (disk w)). Qed.

Lemma runs_get_at rs es (Q : Store -> list Row -> list string -> Prop) E :
  (forall s, Q s rs es) -> runs rs es get Q E.
Proof. intros HQ w <- <-. apply HQ. Qed.

Lemma runs_append rs es r lp (Q : unit -> list Row -> list string -> Prop)
    (E : list Row -> list string -> Prop) :
  wf_rows rs ->
  (forall n, let rs' := rs ++ [{| ordinal := n; written := r |}] in wf_rows rs' -> Q tt rs' es) ->
  E rs es -> runs rs es (append_locked r lp) Q E.
Proof.
  intros Hwf HQ HE w Hr He. unfold append_locked, mbind, M_bind, get.
  destruct (first_empty_record _) as [i|] eqn:Hi; cbn; [|by rewrite Hr, He].
  destruct (_ <? _); [cbn; by rewrite Hr, He|].
  unfold durable. destruct (writes_left w); cbn; [by rewrite Hr, He|].
  rewrite <-Hr in Hwf. destruct (rows_set_cell _ _ _ r Hwf Hi) as [-> Hwf'].
  rewrite He. rewrite Hr in Hwf' |- *. by apply HQ.
Qed.

(** ** What never writes a record *)

Create HintDb quiet.

Section quiet_rules.
Context {A B : Type}.

Lemma quiet_ret (a : A) : quiet (mret a).
Proof. done. Qed.

Lemma quiet_raise e : quiet (raise (A := A) e).
Proof. done. Qed.

Lemma quiet_bind (m : M A) (f : A -> M B) :
  quiet m -> (forall a, quiet (f a)) -> quiet (m ≫= f).
Proof.
  intros Hm Hf w. unfold mbind, M_bind. destruct (Hm w) as [Hl He].
  destruct (m w) as [w' [a|e|]]; cbn [fst] in *; [|done|done].
  destruct (Hf a w') as [Hl' He']. by rewrite Hl', He'.
Qed.

Lemma quiet_lift (r : result A) : quiet (lift r).
Proof. by destruct r. Qed.
End quiet_rules.

Lemma quiet_get : quiet get.
Proof. done. Qed.

Lemma quiet_durable f : (forall s, ledgers (f s) = ledgers s) -> quiet (durable f).
Proof. intros Hf w. unfold durable. destruct (writes_left w); cbn; [done|]. by rewrite Hf. Qed.

#[export] Hint Resolve quiet_ret quiet_raise quiet_lift quiet_get : quiet.
#[export] Hint Extern 1 (quiet (durable _)) => apply quiet_durable; done : quiet.
#[export] Hint Extern 1 (quiet (_ ≫= _)) => apply quiet_bind; [|intros ?] : quiet.
#[export] Hint Extern 2 (quiet (if ?b then _ else _)) => destruct b : quiet.
#[export] Hint Extern 2 (quiet (match ?o with Some _ => _ | None => _ end)) => destruct o : quiet.

Ltac solve_quiet := repeat (auto with quiet; match goal with
  | |- quiet (_ ≫= _) => apply quiet_bind; [|intros ?]
  | |- quiet (durable _) => apply quiet_durable; done
  | |- quiet (if ?b then _ else _) => destruct b
  | |- quiet (match ?o with _ => _ end) => destruct o
  | |- quiet (let _ := _ in _) => cbn zeta
  end); auto with quiet.

Section quiet_ops.
Context `{Digester} (faults : Faults).

Lemma quiet_clear_slot p name : quiet (clear_slot faults p name).
Proof. unfold clear_slot. solve_quiet. Qed.
Hint Resolve quiet_clear_slot : quiet.

Lemma quiet_take_slots p cl count names : quiet (take_slots faults p cl count names).
Proof.
  revert count. induction names as [|name names IH]; intros count; cbn; [solve_quiet|].
  case_bool_decide; [apply IH|]. apply quiet_bind; [solve_quiet|]. intros [|]; [|apply IH].
  destruct count as [|[|n]]; [solve_quiet|solve_quiet|].
  apply quiet_bind; [apply IH|]. solve_quiet.
Qed.
Hint Resolve quiet_take_slots : quiet.

Lemma quiet_available_object_slots p count : quiet (available_object_slots faults p count).
Proof. unfold available_object_slots. solve_quiet. Qed.
Hint Resolve quiet_available_object_slots : quiet.

Lemma quiet_available_capacity p : quiet (available_capacity faults p).
Proof. unfold available_capacity. solve_quiet. Qed.
Hint Resolve quiet_available_capacity : quiet.

Lemma quiet_headroom ps : quiet (headroom_of faults ps).
Proof. induction ps as [|p ps IH]; cbn; solve_quiet. Qed.

Lemma quiet_headroom_locked : quiet (headroom_locked faults).
Proof. apply quiet_headroom. Qed.

Lemma quiet_release_slots p names b : quiet (release_slots faults p names b).
Proof. revert b. induction names as [|n names IH]; intros b; cbn; solve_quiet. Qed.
Hint Resolve quiet_release_slots : quiet.

Lemma quiet_shrink p n : quiet (shrink_extent faults p n).
Proof. unfold shrink_extent. solve_quiet. Qed.

Lemma quiet_replenish p n : quiet (replenish_extent faults p n).
Proof. unfold replenish_extent. solve_quiet. Qed.
Hint Resolve quiet_replenish : quiet.

Lemma quiet_give_back r : quiet (give_back faults r).
Proof. unfold give_back, release_object_slots. solve_quiet. Qed.

Lemma quiet_write_object r body : quiet (write_object r body).
Proof. unfold write_object. solve_quiet. Qed.
Hint Resolve quiet_write_object : quiet.

Lemma quiet_current k : quiet (current_locked k).
Proof. unfold current_locked. solve_quiet. Qed.
Hint Resolve quiet_current : quiet.

Lemma quiet_write_receipt proof k : quiet (write_receipt proof k).
Proof. unfold write_receipt. solve_quiet. Qed.

Lemma quiet_write_receipts proof ks : quiet (write_receipts proof ks).
Proof. induction ks as [|k ks IH]; cbn; solve_quiet. apply quiet_write_receipt. Qed.
End quiet_ops.

#[export] Hint Resolve quiet_clear_slot quiet_available_object_slots quiet_headroom_locked quiet_shrink
  quiet_replenish quiet_give_back quiet_write_object quiet_write_receipt quiet_write_receipts : quiet.

Lemma runs_current {B} rs es k (f : option WriteReservation -> M B) Q E :
  runs rs es (f (status k rs)) Q E -> runs rs es (current_locked k ≫= f) Q E.
Proof.
  intros Hf w Hr He. unfold current_locked, latest_locked. cbn.
  unfold mbind, M_bind, get, mret, M_ret. rewrite Hr. by apply Hf.
Qed.

(** Either the reservation is unknown or bound to another effect, or it is the latest
    record of its key. *)
Lemma runs_require {B} rs es r (f : WriteReservation -> M B) Q (E : list Row -> list string -> Prop) :
  E rs es ->
  (forall c, status (key r) rs = Some c -> effect_fingerprint c = effect_fingerprint r ->
     runs rs es (f c) Q E) ->
  runs rs es (require_current r ≫= f) Q E.
Proof.
  intros HE Hf. unfold require_current. apply runs_bind, runs_current.
  destruct (status (key r) rs) as [c|] eqn:Es; [|by apply runs_raise].
  unfold assert_same_effect. apply runs_bind. case_bool_decide; [|by apply runs_raise].
  apply runs_ret. by apply runs_ret, Hf.
Qed.

(** ** Lawful histories *)

(** The slots of a pool that some reservation still owns. *)
Definition claimed_rows (p : Pool) (rs : list Row) : list string :=
  List.filter (holds p) (dict_values (latest_of rs)) ≫= object_slots.

(** A record that opens, on slots nobody owns, or refuses a reservation. *)
Definition opens (rs : list Row) (r : WriteReservation) : Prop :=
  state r = RESERVED /\ Forall (fun x => x ∉ claimed_rows (pool r) rs) (object_slots r)
  \/ state r = REFUSED /\ retention r = RELEASE.

(** A record that moves the reservation [c] on. *)
Definition follows (c r : WriteReservation) : Prop :=
  need r = need c /\ pool r = pool c /\ object_slots r = object_slots c /\
  match state c, state r with
  | RESERVED, STARTED | RESERVED, TERMINAL | STARTED, COMMITTED | STARTED, POSSIBLY_SENT
  | POSSIBLY_SENT, TERMINAL => retention r = retention c
  | RESERVED, ABORTED => retention r = RELEASE
  | _, RELEASED => is_final (state c) = true /\ retains_object (retention c) = true /\ retention r = RELEASE
  | _, _ => False
  end.

Definition legal_next (rs : list Row) (r : WriteReservation) : Prop :=
  match status (key r) rs with
  | None => opens rs r
  | Some c =>
      effect_fingerprint r = effect_fingerprint c
      /\ (opens rs r /\ (state c = ABORTED \/ state c = RELEASED) \/ follows c r)
  end.

Inductive lawful : list Row -> Prop :=
  | lawful_nil : lawful []
  | lawful_snoc rs row :
      lawful rs -> legal_next rs (written row) -> lawful (rs ++ [row]).

(** What every operation keeps: a lawful ledger that only grew. *)
Definition kept (rs : list Row) (rs' : list Row) : Prop :=
  wf_rows rs' /\ lawful rs' /\ rs `prefix_of` rs'.

Lemma kept_refl rs : wf_rows rs -> lawful rs -> kept rs rs.
Proof. by repeat split. Qed.

Lemma kept_trans rs1 rs2 rs3 : kept rs1 rs2 -> kept rs2 rs3 -> kept rs1 rs3.
Proof. intros (_ & _ & ?) (? & ? & ?). split; [done|]. split; [done|]. by etrans. Qed.

Lemma kept_append rs rs' n r :
  kept rs rs' -> wf_rows (rs' ++ [{| ordinal := n; written := r |}]) ->
  legal_next rs' r -> kept rs (rs' ++ [{| ordinal := n; written := r |}]).
Proof.
  intros (_ & Hl & Hp) Hwf Hn. split; [done|]. split; [by apply lawful_snoc|].
  by apply prefix_app_r.
Qed.

(** The slots an operation is offered are free. *)
Lemma take_slots_free faults p cl count names w w' l :
  take_slots faults p cl count names w = (w', Done l) -> Forall (fun x => x ∉ cl) l.
Proof.
  revert count w w' l. induction names as [|name names IH]; intros count w w' l; cbn.
  { intros [= _ <-]. constructor. }
  case_bool_decide as Hc; [apply IH|]. unfold mbind, M_bind.
  destruct (clear_slot faults p name w) as [w1 [[|]| |]]; [|apply IH|done|done].
  destruct count as [|[|n]].
  - intros [= _ <-]. by apply Forall_singleton.
  - intros [= _ <-]. by apply Forall_singleton.
  - destruct (take_slots _ _ _ _ _ w1) as [w2 [l'| |]] eqn:E; [|done|done].
    intros [= _ <-]. constructor; [done|by eapply IH].
Qed.

Lemma runs_object_slots {B} faults rs es p count (f : list string -> M B) Q (E : list Row -> list string -> Prop) :
  E rs es ->
  (forall names, Forall (fun x => x ∉ claimed_rows p rs) names -> runs rs es (f names) Q E) ->
  runs rs es (available_object_slots faults p count ≫= f) Q E.
Proof.
  intros HE Hf w Hr He. destruct (quiet_available_object_slots faults p count w) as [Hl Hq].
  unfold mbind, M_bind. destruct (available_object_slots faults p count w) as [w' o] eqn:Ew.
  cbn [fst] in Hl, Hq. apply rows_ledgers in Hl. rewrite Hr in Hl. rewrite He in Hq.
  destruct o as [names|e|]; [|by rewrite Hl, Hq|by rewrite Hl, Hq]. apply Hf; [|done|done].
  unfold available_object_slots in Ew. destruct (count =? 0).
  - injection Ew as _ <-. constructor.
  - cbn in Ew. unfold mbind, M_bind, get in Ew. apply take_slots_free in Ew.
    unfold claimed, held_in, latest_locked in Ew. by rewrite Hr in Ew.
Qed.
