(* ===== verification/ReservationFacts.v ===== *)
(** Properties of the write authority: the ledger is append-only and lawful under every
    operation, failure and loss of power; an effect starts at most once; restarts close
    what they find open. *)

From S2P Require Import Prelude Canon Reservation ReservationLogic.
Local Open Scope Z_scope.

Lemma runs_quiet_bind {A B} rs es (m : M A) (f : A -> M B) Q (E : list Row -> list string -> Prop) :
  quiet m -> E rs es -> (forall a, runs rs es (f a) Q E) -> runs rs es (m ≫= f) Q E.
Proof. intros Hm HE Hf. by apply runs_bind, runs_quiet. Qed.

(** [m] keeps the ledger lawful and runs no effect, however it ends. *)
Definition keeps (rs0 rs : list Row) (es0 es : list string) : Prop := kept rs0 rs /\ es = es0.

Definition safe {A} (m : M A) : Prop := forall rs es, wf_rows rs -> lawful rs ->
  runs rs es m (fun _ rs' es' => keeps rs rs' es es') (fun rs' es' => keeps rs rs' es es').

Lemma keeps_refl rs es : wf_rows rs -> lawful rs -> keeps rs rs es es.
Proof. intros. split; [by apply kept_refl|done]. Qed.

Lemma safe_quiet {A} (m : M A) : quiet m -> safe m.
Proof. intros Hm rs es Hwf Hl. apply runs_quiet; [done|intros _|]; by apply keeps_refl. Qed.

Lemma safe_bind {A B} (m : M A) (f : A -> M B) : safe m -> (forall a, safe (f a)) -> safe (m ≫= f).
Proof.
  intros Hm Hf rs es Hwf Hl. apply runs_bind.
  eapply runs_weaken; [by apply Hm| |done]. cbn. intros a rs' es' [Hk ->].
  eapply runs_weaken; [apply Hf; apply Hk| |]; intros; destruct_and?; unfold keeps in *;
    naive_solver eauto using kept_trans.
Qed.

Lemma safe_fmap {A B} (m : M A) (f : A -> B) : safe m -> safe (f <$> m).
Proof. intros Hm rs es Hwf Hl. apply runs_fmap. by apply Hm. Qed.

Section operations.
Context `{Digester} (faults : Faults) (redact : string -> string) (boot : string)
  (proof : list (string * json)).

(** Appending one legal record. *)
Lemma runs_append_kept rs0 rs es0 es r lp (Q : unit -> list Row -> list string -> Prop) :
  keeps rs0 rs es0 es -> legal_next rs r ->
  (forall n, let rs' := rs ++ [{| ordinal := n; written := r |}] in
     keeps rs0 rs' es0 es -> Q tt rs' es) ->
  runs rs es (append_locked r lp) Q (fun rs' es' => keeps rs0 rs' es0 es').
Proof.
  intros [Hk He] Hn HQ. apply runs_append; [apply Hk| |done].
  intros n rs' Hwf. apply HQ. split; [by apply kept_append|done].
Qed.

(** Appending one legal record and then writing no further one. *)
Lemma runs_append_then {A} rs es r lp (m : M A) :
  wf_rows rs -> lawful rs -> legal_next rs r -> quiet m ->
  runs rs es (append_locked r lp;; m) (fun _ rs' es' => keeps rs rs' es es')
    (fun rs' es' => keeps rs rs' es es').
Proof.
  intros Hwf Hl Hn Hm. apply runs_bind. apply runs_append_kept; [by apply keeps_refl|done|].
  intros n rs' Hk. by apply runs_quiet.
Qed.

(** The states a transition may start from, read off the current record. *)
Lemma legal_transition rs r c s obs b ret :
  status (key r) rs = Some c -> follows c (transitioned c s obs b ret) ->
  legal_next rs (transitioned c s obs b ret).
Proof.
  intros Hs Hf. unfold legal_next. cbn [key transitioned]. rewrite (status_key _ _ _ Hs), Hs. cbn. auto.
Qed.

Lemma safe_admission rq : forall rs es, wf_rows rs -> lawful rs ->
  match status (rq_key rq) rs with
  | None => True
  | Some c => effect_fingerprint c = fingerprint (rq_identity rq) /\ (state c = ABORTED \/ state c = RELEASED)
  end ->
  runs rs es (admit_request faults redact boot rq)
    (fun _ rs' es' => keeps rs rs' es es') (fun rs' es' => keeps rs rs' es es').
Proof.
  intros rs es Hwf Hl Hcur.
  assert (Hk := keeps_refl rs es Hwf Hl).
  assert (Hopen : forall r, key r = rq_key rq -> effect_fingerprint r = fingerprint (rq_identity rq) ->
    opens rs r -> legal_next rs r).
  { intros r Hkey Hf Ho. unfold legal_next. rewrite Hkey.
    destruct (status (rq_key rq) rs) as [c|]; [|done].
    destruct Hcur as [Hc Hst]. split; [congruence|]. auto. }
  unfold admit_request. apply runs_quiet_bind; [auto with quiet|done|]. intros headroom.
  apply runs_object_slots; [done|]. intros names Hfree.
  apply runs_quiet_bind; [solve_quiet|done|]. intros [|].
  - apply runs_bind. unfold record_refusal. apply runs_bind, runs_get_at. intros s.
    destruct (_ <? 1); [by apply runs_ret, runs_raise|].
    apply runs_append_kept; [done|apply Hopen; [done|done|by right]|].
    intros n rs' Hk'. by apply runs_raise.
  - apply runs_quiet_bind; [auto with quiet|done|]. intros left.
    apply runs_bind. apply runs_append_kept; [done|apply Hopen; [done|done|by left]|].
    intros n rs' Hk'. apply runs_bind.
    apply (runs_weaken _ _ _ (fun _ rs' es' => keeps rs rs' es es') _ (fun rs' es' => keeps rs rs' es es'));
      [|intros; by apply runs_ret|done].
    apply runs_catch. apply runs_quiet; [auto with quiet|done|]. split; [done|]. intros e.
    apply runs_bind. eapply runs_append_kept; [done| |].
    + unfold rs', legal_next. cbn [key transitioned]. rewrite status_snoc. cbn [written key].
      rewrite bool_decide_true by done. cbn. split; [done|]. right. by repeat split.
    + intros n' rs'' Hk''. apply runs_quiet_bind; [auto with quiet|done|].
      intros _. by apply runs_raise.
Qed.

Lemma safe_reserve rq : safe (reserve faults redact boot rq).
Proof.
  intros rs es Hwf Hl. assert (Hk := keeps_refl rs es Hwf Hl). unfold reserve.
  destruct (_ || _); [by apply runs_raise|]. apply runs_current.
  destruct (status (rq_key rq) rs) as [c|] eqn:Es.
  - apply runs_bind. unfold assert_same_effect. case_bool_decide as Hf; [|by apply runs_raise].
    apply runs_ret. destruct (retryable rq c) eqn:Er.
    + apply safe_admission; [done|done|]. rewrite Es. split; [done|].
      unfold retryable in Er. bool_to_prop. destruct Er; bool_to_prop; auto.
    + destruct (_ && _); [by apply runs_raise|by apply runs_ret].
  - apply safe_admission; [done|done|]. by rewrite Es.
Qed.

Lemma safe_claim_start r : safe (claim_start r).
Proof.
  intros rs es Hwf Hl. assert (Hk := keeps_refl rs es Hwf Hl). unfold claim_start.
  apply runs_require; [done|]. intros c Hs Hf. case_bool_decide as Hst; [|by apply runs_ret].
  apply runs_append_then; [done|done| |solve_quiet].
  apply (legal_transition rs r); [done|]. split; [done|]. cbn. by rewrite Hst.
Qed.

Lemma safe_finish r s obs : safe (finish faults redact r s obs).
Proof.
  intros rs es Hwf Hl. assert (Hk := keeps_refl rs es Hwf Hl). unfold finish.
  apply runs_require; [done|]. intros c Hs Hf. destruct (is_final (state c)); [by apply runs_ret|].
  case_bool_decide as He; cbn [negb]; [|by apply runs_raise].
  apply runs_append_then; [done|done| |solve_quiet].
  apply (legal_transition rs r); [done|]. split; [done|]. cbn.
  destruct s; try discriminate He; injection He as <-; by cbn.
Qed.

Lemma safe_refuse_indeterminate r reason : safe (refuse_indeterminate redact r reason).
Proof.
  intros rs es Hwf Hl. assert (Hk := keeps_refl rs es Hwf Hl). unfold refuse_indeterminate.
  apply runs_require; [done|]. intros c Hs Hf. case_bool_decide; [by apply runs_ret|].
  case_bool_decide as Hst; cbn [negb]; [|by apply runs_raise].
  apply runs_append_then; [done|done| |solve_quiet].
  apply (legal_transition rs r); [done|]. split; [done|]. cbn. by rewrite Hst.
Qed.

Lemma safe_release_retained r reason : safe (release_retained faults redact r reason).
Proof.
  intros rs es Hwf Hl. assert (Hk := keeps_refl rs es Hwf Hl). unfold release_retained.
  apply runs_require; [done|]. intros c Hs Hf. case_bool_decide; [by apply runs_ret|].
  destruct (_ || _) eqn:E; [by apply runs_raise|]. bool_to_prop.
  apply runs_append_then; [done|done| |solve_quiet].
  apply (legal_transition rs r); [done|]. split; [done|]. cbn. by destruct (state c).
Qed.

Lemma safe_record_terminal k i n c : safe (record_terminal faults redact boot k i n c).
Proof.
  apply safe_bind; [apply safe_reserve|]. intros r.
  case_bool_decide; [apply safe_quiet; solve_quiet|].
  destruct (negb _); [apply safe_quiet; solve_quiet|apply safe_finish].
Qed.

Lemma safe_run_op o : safe (run_op faults redact boot proof o).
Proof.
  destruct o; cbn; try (apply safe_bind; [|intros; apply safe_quiet; solve_quiet]).
  - apply safe_reserve.
  - apply safe_fmap, safe_claim_start.
  - apply safe_finish.
  - apply safe_finish.
  - apply safe_finish.
  - apply safe_refuse_indeterminate.
  - apply safe_release_retained.
  - apply safe_record_terminal.
  - apply safe_quiet. auto with quiet.
Qed.

(** Recovery of the reservations a restart finds; the ones still to come are untouched. *)
Lemma safe_recover_all l : forall rs es, wf_rows rs -> lawful rs ->
  NoDup (key <$> l) -> Forall (fun r => status (key r) rs = Some r) l ->
  runs rs es (recover_all faults boot l) (fun _ rs' es' => keeps rs rs' es es')
    (fun rs' es' => keeps rs rs' es es').
Proof.
  induction l as [|r l IH]; intros rs es Hwf Hl Hnd Hall; cbn [recover_all].
  { by apply runs_ret, keeps_refl. }
  apply NoDup_cons in Hnd as [Hnew Hnd]. apply Forall_cons in Hall as [Hr Hall].
  assert (Hk := keeps_refl rs es Hwf Hl).
  assert (Hstep : forall s obs ret (m : M unit),
    follows r (transitioned r s obs (Some boot) ret) -> quiet m ->
    runs rs es (append_locked (transitioned r s obs (Some boot) ret) None;; m)
      (fun _ rs' es' => runs rs' es' (recover_all faults boot l)
         (fun _ rs' es' => keeps rs rs' es es') (fun rs' es' => keeps rs rs' es es'))
      (fun rs' es' => keeps rs rs' es es')).
  { intros s obs ret m Hf Hm. apply runs_bind, runs_append_kept; [done| |].
    { by apply (legal_transition rs r). }
    intros n rs' Hk'. apply runs_quiet; [done| |done]. intros _.
    eapply runs_weaken; [apply IH; [apply Hk'|apply Hk'|done|]| |].
    - rewrite Forall_forall in Hall |- *. intros x Hx. unfold rs'. rewrite status_snoc.
      rewrite bool_decide_false; [by apply Hall|]. cbn. intros E. apply Hnew. rewrite <-E.
      by apply list_elem_of_fmap_2.
    - intros _ ? ? [Hk2 ->]. split; [by eapply kept_trans; [apply Hk'|]|done].
    - intros ? ? [Hk2 ->]. split; [by eapply kept_trans; [apply Hk'|]|done]. }
  apply runs_bind. unfold recover. case_bool_decide; [by apply runs_ret, IH|].
  destruct (state r) eqn:Es; try (by apply runs_ret, IH).
  - apply Hstep; [|auto with quiet]. split; [done|]. cbn. by rewrite Es.
  - apply Hstep; [|solve_quiet]. split; [done|]. cbn. by rewrite Es.
Qed.
End operations.

(** ** The latest records *)

Lemma latest_keys rs : NoDup (latest_of rs).*1 /\ forall k r, (k, r) ∈ latest_of rs -> key r = k.
Proof.
  induction rs as [|row rs [Hnd Hk]] using rev_ind.
  { split; [constructor|]. intros k r Hin. by apply elem_of_nil in Hin. }
  unfold latest_of in *. rewrite foldl_app. cbn. split; [by apply dict_set_NoDup|].
  cut (Forall (fun kr => key kr.2 = kr.1) (dict_set (key (written row)) (reservation_of row)
    (foldl (fun d row => dict_set (key (written row)) (reservation_of row) d) [] rs))).
  { rewrite Forall_forall. intros Hall k r Hin. exact (Hall _ Hin). }
  apply dict_set_Forall.
  - apply Forall_forall. intros [k r] Hin. exact (Hk k r Hin).
  - intros k' ->. done.
Qed.

Lemma latest_values rs :
  NoDup (key <$> dict_values (latest_of rs))
  /\ Forall (fun r => status (key r) rs = Some r) (dict_values (latest_of rs)).
Proof.
  destruct (latest_keys rs) as [Hnd Hk]. unfold dict_values, status. split.
  - rewrite <-list_fmap_compose.
    rewrite (list_fmap_ext (key ∘ snd) fst); [done|]. intros i [k r] Hi. cbn.
    apply Hk. by eapply list_elem_of_lookup_2.
  - apply Forall_forall. intros r ([k r'] & -> & Hin)%list_elem_of_fmap. cbn.
    rewrite (Hk _ _ Hin). by apply dict_elem_get.
Qed.

Section restarting.
Context `{Digester} (faults : Faults) (redact : string -> string) (boot : string)
  (proof : list (string * json)).

Lemma safe_reconcile : safe (reconcile_prior_boots faults boot).
Proof.
  intros rs es Hwf Hl. apply runs_get. intros s Hs. unfold latest_locked. rewrite Hs.
  destruct (latest_values rs). by apply safe_recover_all.
Qed.

Lemma safe_open : safe (open_authority faults boot proof).
Proof.
  apply safe_bind; [apply safe_reconcile|]. intros _. apply safe_quiet. solve_quiet.
Qed.
End restarting.

(** ** At most one start *)

Definition occurrences (k : string) (es : list string) : nat :=
  length (List.filter (fun x => bool_decide (x = k)) es).

(** How often a key's record entered a state. *)
Definition entered (s : ReservationState) (k : string) (rs : list Row) : nat :=
  length (List.filter (fun row => bool_decide (key (written row) = k) && bool_decide (state (written row) = s)) rs).

Lemma entered_app s k rs1 rs2 : entered s k (rs1 ++ rs2) = (entered s k rs1 + entered s k rs2)%nat.
Proof. unfold entered. by rewrite List.filter_app, length_app. Qed.

Lemma entered_one s k row :
  entered s k [row] = if bool_decide (key (written row) = k) && bool_decide (state (written row) = s) then 1%nat else 0%nat.
Proof. unfold entered. cbn. by destruct (_ && _). Qed.

Lemma entered_kept s k rs rs' : kept rs rs' -> (entered s k rs <= entered s k rs')%nat.
Proof. intros (_ & _ & l & ->). rewrite entered_app. lia. Qed.

(** Whether the reservation has been started, or closed for good, since its last release. *)
Definition spent (current : option WriteReservation) : nat :=
  match current with
  | Some c => match state c with STARTED | COMMITTED | POSSIBLY_SENT | TERMINAL => 1%nat | _ => 0%nat end
  | None => 0%nat
  end.

(** Nothing that holds no capacity retains an object. *)
Lemma lawful_retention rs k c :
  lawful rs -> status k rs = Some c ->
  state c = ABORTED \/ state c = REFUSED \/ state c = RELEASED -> retention c = RELEASE.
Proof.
  intros Hl. revert k c. induction Hl as [|rs row Hl IH Hn]; intros k c; [done|].
  rewrite status_snoc. case_bool_decide as Hk; [|by apply IH]. intros [= <-]. cbn. intros Hst.
  unfold legal_next in Hn. destruct (status _ rs) as [d|] eqn:Ed; cbn in Hn.
  - destruct Hn as [_ [[Ho _]|(_ & _ & _ & Hf)]].
    + destruct Ho as [[Ho _]|[_ Ho]]; [|done]. destruct Hst as [Hst|[Hst|Hst]]; congruence.
    + destruct Hst as [Hst|[Hst|Hst]]; rewrite Hst in Hf; destruct (state d); naive_solver.
  - destruct Hn as [[Ho _]|[_ Ho]]; [|done]. destruct Hst as [Hst|[Hst|Hst]]; congruence.
Qed.

Lemma lawful_starts rs k :
  lawful rs -> (entered STARTED k rs <= entered RELEASED k rs + spent (status k rs))%nat.
Proof.
  intros Hl. induction Hl as [|rs row Hl IH Hn]; [done|].
  rewrite status_snoc, !entered_app, !entered_one.
  destruct (decide (key (written row) = k)) as [<-|Hk].
  - rewrite !(bool_decide_true (key (written row) = _)) by done. cbn [andb].
    unfold legal_next in Hn. destruct (status _ rs) as [d|] eqn:Ed; cbn in Hn.
    + destruct Hn as [_ [[Ho Hd]|(_ & _ & _ & Hf)]].
      * assert (Hs : spent (Some d) = 0%nat) by (destruct Hd as [E|E]; cbn; by rewrite E).
        rewrite Hs in IH. destruct Ho as [[Ho _]|[Ho _]]; cbn; rewrite Ho; repeat case_bool_decide; done || lia.
      * pose proof (lawful_retention _ _ _ Hl Ed) as Hret.
        destruct (state d) eqn:Esd, (state (written row)) eqn:Esr; cbn in Hf, IH |- *;
          rewrite ?Esd, ?Esr in *; try done; repeat case_bool_decide; try done; try lia;
          destruct Hf as (_ & Hr & _); rewrite Hret in Hr by auto; done.
    + cbn in IH. destruct Hn as [[Ho _]|[Ho _]]; cbn; rewrite Ho; repeat case_bool_decide; done || lia.
  - rewrite !(bool_decide_false (key (written row) = k)), (bool_decide_false (k = _)) by congruence.
    cbn [andb]. lia.
Qed.

(** ** Effects run at most as often as they were started *)

Lemma occurrences_app k l1 l2 : occurrences k (l1 ++ l2) = (occurrences k l1 + occurrences k l2)%nat.
Proof. unfold occurrences. by rewrite List.filter_app, length_app. Qed.

Lemma occurrences_cons k x l :
  occurrences k (x :: l) = ((if bool_decide (x = k) then 1 else 0) + occurrences k l)%nat.
Proof. unfold occurrences. cbn. by case_bool_decide. Qed.

(** [claims] are the starts callers hold whose effects have yet to run. *)
Section claims.
Context (claims : list string).

Definition sound (rs : list Row) (es : list string) : Prop :=
  wf_rows rs /\ lawful rs
  /\ forall k, (occurrences k es + occurrences k claims <= entered STARTED k rs)%nat.

Definition stable {A} (m : M A) : Prop := forall rs es, sound rs es ->
  runs rs es m (fun _ => sound) sound.

Lemma sound_kept rs rs' es : sound rs es -> kept rs rs' -> sound rs' es.
Proof.
  intros (_ & _ & Hc) Hk. split; [apply Hk|]. split; [apply Hk|]. intros k.
  etrans; [apply Hc|]. by apply entered_kept.
Qed.

Lemma stable_safe {A} (m : M A) : safe m -> stable m.
Proof.
  intros Hm rs es Hs. eapply runs_weaken; [apply Hm; apply Hs| |];
    cbn; intros; by match goal with H : keeps _ _ _ _ |- _ =>
      destruct H as [? ->]; eapply sound_kept end.
Qed.

Lemma stable_quiet {A} (m : M A) : quiet m -> stable m.
Proof. intros. by apply stable_safe, safe_quiet. Qed.

Lemma stable_bind {A B} (m : M A) (f : A -> M B) : stable m -> (forall a, stable (f a)) -> stable (m ≫= f).
Proof.
  intros Hm Hf rs es Hs. apply runs_bind.
  eapply runs_weaken; [by apply Hm| |done]. cbn. intros a rs' es' Hs'. by apply Hf.
Qed.

Lemma stable_catch {A} (m : M A) h : stable m -> (forall e, stable (h e)) -> stable (catch m h).
Proof.
  intros Hm Hh rs es Hs. apply runs_catch. eapply runs_weaken; [by apply Hm|done|].
  cbn. intros rs' es' Hs'. split; [done|]. intros e. by apply Hh.
Qed.

(** [m] returns only values with [P]. *)
Definition returns {A} (m : M A) (P : A -> Prop) : Prop :=
  forall w w' a, m w = (w', Done a) -> P a.

Lemma returns_ret {A} (a : A) (P : A -> Prop) : P a -> returns (mret a) P.
Proof. by intros HP w w' b [= _ <-]. Qed.

Lemma returns_raise {A} e (P : A -> Prop) : returns (raise e) P.
Proof. by intros w w' a. Qed.

Lemma returns_bind {A B} (m : M A) (f : A -> M B) P :
  (forall a, returns (f a) P) -> returns (m ≫= f) P.
Proof.
  intros Hf w w' b. unfold mbind, M_bind. destruct (m w) as [w1 [a| |]]; [|done|done]. apply Hf.
Qed.

(** What is read back under a key has that key. *)
Lemma returns_current {B} k (f : option WriteReservation -> M B) P :
  returns (f None) P -> (forall c, key c = k -> returns (f (Some c)) P) ->
  returns (current_locked k ≫= f) P.
Proof.
  intros Hnone Hsome w w' b. unfold current_locked. cbn.
  unfold mbind, M_bind, get, mret, M_ret, latest_locked.
  change (dict_get k (latest_of (rows_locked (disk w)))) with (status k (rows_locked (disk w))).
  destruct (status k _) as [c|] eqn:E; [|by apply Hnone]. apply Hsome. by eapply status_key.
Qed.

Lemma runs_returns {A} rs es (m : M A) Q E (P : A -> Prop) :
  runs rs es m Q E -> returns m P -> runs rs es m (fun a rs es => Q a rs es /\ P a) E.
Proof.
  intros Hm HP w Hr He. specialize (Hm w Hr He). specialize (HP w).
  destruct (m w) as [w' [a| |]]; [|done|done]. eauto.
Qed.

Section executing.
Context `{Digester} (faults : Faults) (redact : string -> string) (boot : string)
  (proof : list (string * json)).

Lemma returns_admission rq : returns (admit_request faults redact boot rq) (fun r => key r = rq_key rq).
Proof.
  unfold admit_request. apply returns_bind. intros headroom. apply returns_bind. intros names.
  apply returns_bind. intros [|].
  - apply returns_bind. intros []. apply returns_raise.
  - apply returns_bind. intros left. apply returns_bind. intros []. apply returns_bind. intros [].
    by apply returns_ret.
Qed.

Lemma returns_reserve rq : returns (reserve faults redact boot rq) (fun r => key r = rq_key rq).
Proof.
  unfold reserve. destruct (_ || _); [apply returns_raise|].
  apply returns_current; [apply returns_admission|]. intros c Hc.
  apply returns_bind. intros []. destruct (retryable rq c); [apply returns_admission|].
  destruct (_ && _); [apply returns_raise|]. by apply returns_ret.
Qed.

Lemma stable_run_ops l : stable (run_ops faults redact boot proof l).
Proof.
  induction l as [|o l IH]; cbn; [apply stable_quiet; solve_quiet|].
  apply stable_bind; [|done]. apply stable_catch; [apply stable_safe, safe_run_op|].
  intros _. apply stable_quiet. solve_quiet.
Qed.

Lemma stable_await polls r : stable (await_terminal faults redact boot proof polls r).
Proof.
  revert r. induction polls as [|others polls IH]; intros r; cbn;
    (destruct (is_open (state r)); [|apply stable_quiet; solve_quiet]).
  - apply stable_quiet. solve_quiet.
  - apply stable_bind; [apply stable_run_ops|]. intros [].
    apply stable_bind; [apply stable_quiet, quiet_current|]. intros found. apply IH.
Qed.

Lemma returns_await polls r : returns (await_terminal faults redact boot proof polls r) (fun r' => key r' = key r).
Proof.
  revert r. induction polls as [|others polls IH]; intros r; cbn;
    (destruct (is_open (state r)); [|by apply returns_ret]).
  - by apply returns_ret.
  - apply returns_bind. intros []. apply returns_current; [apply IH|]. intros c Hc.
    intros w w' a Ha. apply IH in Ha. cbn in Ha. congruence.
Qed.

(** Claiming the start of [r] appends one start of its key when it says so. *)
Lemma runs_claim rs es r :
  sound rs es ->
  runs rs es (claim_start r) (fun a rs' es' => sound rs' es' /\
    (a.2 = true -> key a.1 = key r /\ (occurrences (key r) es' + occurrences (key r) claims < entered STARTED (key r) rs')%nat))
    sound.
Proof.
  intros Hs. destruct Hs as (Hwf & Hl & Hc). unfold claim_start. apply runs_require; [done|].
  intros c Hcur Hf. pose proof (status_key _ _ _ Hcur) as Hk.
  case_bool_decide as Hst; [|by apply runs_ret; split; [|done]].
  assert (Hleg : legal_next rs (transitioned c STARTED None None None)).
  { apply (legal_transition rs r); [done|]. split; [done|]. cbn. by rewrite Hst. }
  apply runs_bind, runs_append; [done| |done]. intros n rs' Hwf'. apply runs_ret.
  assert (Hkept : kept rs rs') by (by apply kept_append; [by apply kept_refl|..]).
  split; [by eapply sound_kept; [|exact Hkept]|]. intros _. split; [done|].
  unfold rs'. rewrite entered_app, entered_one. cbn. rewrite !bool_decide_true by done. cbn.
  specialize (Hc (key r)). lia.
Qed.

Lemma runs_effect rs es k (Q : unit -> list Row -> list string -> Prop) E :
  Q tt rs (k :: es) -> runs rs es (run_effect k) Q E.
Proof. intros HQ w <- <-. exact HQ. Qed.

Lemma sound_effect rs es k :
  sound rs es -> (occurrences k es + occurrences k claims < entered STARTED k rs)%nat ->
  sound rs (k :: es).
Proof.
  intros (Hwf & Hl & Hc) Hlt. split; [done|]. split; [done|]. intros k'. rewrite occurrences_cons. specialize (Hc k').
  case_bool_decide as E; [subst|]; lia.
Qed.

Lemma stable_receipt r : stable (receipt_if_required proof r).
Proof. unfold receipt_if_required. apply stable_quiet. solve_quiet. Qed.

(** The handler of a failed effect records at most an indeterminate outcome. *)
Lemma stable_handler {A} k started eff (e : exn) :
  stable (A := A) (
    found ← current_locked k;
    (match found with
     | Some current =>
         if bool_decide (state current = STARTED) then
           sent ← possibly_sent faults redact started (exn_name e) (eff_indeterminate eff e);
           if requires_receipt (retention sent) then
             catch (write_receipt proof k) (fun e' => if tolerated e' then mret tt else raise e')
           else mret tt
         else mret tt
     | None => mret tt
     end);;
    raise e).
Proof.
  apply stable_bind; [apply stable_quiet, quiet_current|]. intros found.
  apply stable_bind; [|intros []; apply stable_quiet; solve_quiet].
  destruct found as [current|]; [|apply stable_quiet; solve_quiet].
  case_bool_decide; [|apply stable_quiet; solve_quiet].
  apply stable_bind; [apply stable_safe, safe_finish|]. intros sent.
  destruct (requires_receipt _); [|apply stable_quiet; solve_quiet].
  apply stable_catch; [apply stable_quiet; auto with quiet|].
  intros e'. apply stable_quiet. solve_quiet.
Qed.

Lemma stable_execute k i n ret eff polls late :
  stable (execute faults redact boot proof k i n ret eff polls late).
Proof.
  intros rs es Hs. unfold execute. apply runs_bind.
  eapply runs_weaken;
    [apply runs_returns; [by apply stable_safe; [apply safe_reserve|]|apply returns_reserve]| |done].
  cbn. intros r rs1 es1 [Hs1 Hk1].
  assert (Hcommitted : forall x, stable (receipt_if_required proof x;; mret (default (JObj []) (observation x)))).
  { intros x. apply stable_bind; [apply stable_receipt|]. intros []. apply stable_quiet. solve_quiet. }
  case_bool_decide; [by apply Hcommitted|]. apply runs_bind.
  apply (runs_weaken _ _ _ (fun x rs es => sound rs es /\ key x = k) _ sound); [| |done].
  { case_bool_decide; [|by apply runs_ret].
    rewrite <-Hk1. apply runs_returns; [by apply stable_await|apply returns_await]. }
  intros x rs2 es2 [Hs2 Hk2]. case_bool_decide; [by apply Hcommitted|].
  case_bool_decide as Hres; cbn [negb]; [|by apply stable_bind; [|intros []|];
    [apply stable_quiet; solve_quiet|apply stable_quiet; solve_quiet|done]].
  apply runs_bind. eapply runs_weaken; [by apply runs_claim| |done].
  intros [started acquired] rs3 es3 [Hs3 Hclaim]. cbn in Hclaim |- *.
  destruct acquired; cbn [negb].
  - destruct (Hclaim eq_refl) as [_ Hlt]. rewrite Hk2 in Hlt. apply runs_bind, runs_catch.
    apply runs_bind, runs_effect. pose proof (sound_effect _ _ _ Hs3 Hlt) as Hs4.
    eapply runs_weaken; [apply stable_bind; [apply stable_quiet; solve_quiet|intros obs; apply stable_safe, safe_finish|exact Hs4]| |].
    + cbn. intros c rs5 es5 Hs5. apply stable_bind; [apply stable_receipt|intros []|done].
      apply stable_quiet. destruct (eff_observe eff) as [[]|]; solve_quiet.
    + cbn. intros rs5 es5 Hs5. split; [done|]. intros e.
      eapply runs_weaken; [by apply stable_handler| |done]. cbn. intros c rs6 es6 Hs6.
      apply stable_bind; [apply stable_receipt|intros []|done].
      apply stable_quiet. destruct (eff_observe eff) as [[]|]; solve_quiet.
  - apply stable_bind; [apply stable_await|intros ended|done]. apply stable_quiet. solve_quiet.
Qed.
End executing.
End claims.

(** ** Everything the authority's users can do *)

Section reachable.
Context `{Digester}.

(** A world and the starts claimed in it whose effects have not run yet: operations of
    any thread under any failures, executions, effects run on a claim, and power lost at
    any durable write followed by a new boot, which claims do not survive. *)
Inductive reachable : World -> list string -> Prop :=
  | reach_provision profile n :
      reachable {| disk := fresh_store profile; writes_left := n; effects := [] |} []
  | reach_op faults redact boot proof o w claims :
      reachable w claims -> reachable (run_op faults redact boot proof o w).1 claims
  | reach_claim r w w' started claims :
      reachable w claims -> claim_start r w = (w', Done (started, true)) ->
      reachable w' (key started :: claims)
  | reach_effect k w claims1 claims2 :
      reachable w (claims1 ++ k :: claims2) -> reachable (run_effect k w).1 (claims1 ++ claims2)
  | reach_execute faults redact boot proof k i n ret eff polls late w claims :
      reachable w claims ->
      reachable (execute faults redact boot proof k i n ret eff polls late w).1 claims
  | reach_boot faults boot proof n w claims :
      reachable w claims ->
      reachable (open_authority faults boot proof
        {| disk := disk w; writes_left := n; effects := effects w |}).1 [].

Lemma runs_world {A} rs es (m : M A) (P : list Row -> list string -> Prop) w :
  runs rs es m (fun _ => P) P -> rows_locked (disk w) = rs -> effects w = es ->
  P (rows_locked (disk (m w).1)) (effects (m w).1).
Proof. intros Hm Hr He. specialize (Hm w Hr He). by destruct (m w) as [w' []]. Qed.

Lemma stable_world {A} claims (m : M A) w :
  stable claims m -> sound claims (rows_locked (disk w)) (effects w) ->
  sound claims (rows_locked (disk (m w).1)) (effects (m w).1).
Proof. intros Hm Hs. by eapply runs_world; [apply Hm| |]. Qed.

Lemma fresh_rows w : rows_locked (fresh_store w) = [].
Proof.
  assert (Hr : forall n, omap id (replicate n (None : option Row)) = []).
  { induction n as [|n IH]; [done|]. exact IH. }
  unfold rows_locked. replace (omap id _) with (@nil Row); [done|].
  cbn. by rewrite !omap_app, !Hr.
Qed.

Lemma reachable_sound w claims :
  reachable w claims -> sound claims (rows_locked (disk w)) (effects w).
Proof.
  induction 1 as [prof n|faults redact boot proof o w claims _ IH
    |r w w' started claims _ IH Hcl|k w c1 c2 _ IH|faults redact boot proof k i n ret eff polls late w claims _ IH
    |faults boot proof n w claims _ IH].
  - cbn. rewrite fresh_rows. split; [constructor|]. split; [constructor|]. intros k. cbn. lia.
  - apply stable_world; [|done]. by apply stable_safe, safe_run_op.
  - pose proof (runs_claim claims _ _ r IH w eq_refl eq_refl) as Hw. rewrite Hcl in Hw.
    destruct Hw as [(Hwf & Hl & Hc) Hlt]. destruct (Hlt eq_refl) as [Hk Hlt']. cbn in Hk.
    split; [done|]. split; [done|]. intros k. rewrite occurrences_cons. specialize (Hc k).
    case_bool_decide as E; [|lia]. subst k. rewrite Hk. lia.
  - destruct IH as (Hwf & Hl & Hc). split; [done|]. split; [done|]. intros k'. specialize (Hc k').
    cbn [run_effect fst disk effects]. rewrite ?occurrences_app, ?occurrences_cons in *. lia.
  - by apply stable_world; [apply stable_execute|].
  - destruct IH as (Hwf & Hl & Hc). apply stable_world; [by apply stable_safe, safe_open|]. cbn.
    split; [done|]. split; [done|]. intros k. specialize (Hc k).
    change (occurrences k []) with 0%nat. lia.
Qed.

(** The ledger is append-only and lawful: whatever an operation does, in every
    reachable world, under every tolerated OS failure and with power lost at any durable
    write, the records before it stay a prefix of the records after it, each key's records
    follow the reservation state machine, and every record of a key is bound to the
    effect its first record was. *)
Theorem ledger_append_only faults redact boot proof o w claims :
  reachable w claims ->
  let w' := (run_op faults redact boot proof o w).1 in
  rows_locked (disk w) `prefix_of` rows_locked (disk w') /\ lawful (rows_locked (disk w')).
Proof.
  intros (Hwf & Hl & _)%reachable_sound w'.
  destruct (runs_world _ _ _ (fun rs es => keeps (rows_locked (disk w)) rs (effects w) es) w
    (safe_run_op faults redact boot proof o _ (effects w) Hwf Hl) eq_refl eq_refl) as [(_ & Hl' & Hp) _].
  done.
Qed.

Lemma starts_bounded rs k : lawful rs -> (entered STARTED k rs <= entered RELEASED k rs + 1)%nat.
Proof.
  intros Hl. etrans; [by apply lawful_starts|]. unfold spent.
  destruct (status k rs) as [c|]; [destruct (state c)|]; lia.
Qed.

(** C7. An effect runs at most once: over every interleaving of operations, executions,
    failures, lost power and reboots, the effect of a key has run, and is still claimed to
    run, at most once more often than its reservation was released. *)
Theorem effect_at_most_once w claims k :
  reachable w claims ->
  (occurrences k (effects w) + occurrences k claims
   <= entered RELEASED k (rows_locked (disk w)) + 1)%nat.
Proof.
  intros (_ & Hl & Hc)%reachable_sound. etrans; [apply Hc|]. by apply starts_bounded.
Qed.
End reachable.

(** ** Restart *)

Section restart.
Context `{Digester} (faults : Faults) (boot : string) (proof : list (string * json)).

(** What a boot makes of the state it finds a reservation of another boot in. *)
Definition after_boot (s : ReservationState) : ReservationState :=
  match s with RESERVED => ABORTED | STARTED => POSSIBLY_SENT | s => s end.

Definition recovered_state (r : WriteReservation) : ReservationState :=
  if bool_decide (boot_id r = boot) then state r else after_boot (state r).

Definition recovered (rs0 rs : list Row) (l : list WriteReservation) : Prop :=
  wf_rows rs /\ (forall k, k ∉ key <$> l -> status k rs = status k rs0)
  /\ Forall (fun r => state <$> status (key r) rs = Some (recovered_state r)) l.

Lemma recovered_cons rs0 rs1 rs r l :
  wf_rows rs -> key r ∉ key <$> l -> recovered rs1 rs l ->
  (forall k, k <> key r -> status k rs1 = status k rs0) ->
  state <$> status (key r) rs1 = Some (recovered_state r) -> recovered rs0 rs (r :: l).
Proof.
  intros Hwf Hr (_ & Hout & Hin) Hne Hst. split; [done|]. csimpl. split.
  - intros k [Hk Hkl]%not_elem_of_cons. rewrite Hout by done. by apply Hne.
  - constructor; [by rewrite Hout|done].
Qed.

Lemma recover_states r :
  (exists s obs ret m, recover faults boot r = (append_locked (transitioned r s obs (Some boot) ret) None;; m)
     /\ quiet m /\ recovered_state r = s)
  \/ recover faults boot r = mret tt /\ recovered_state r = state r.
Proof.
  unfold recover, recovered_state. case_bool_decide; [by right|].
  destruct (state r) eqn:E; try (right; by split).
  - left. do 4 eexists. split; [reflexivity|]. split; [auto with quiet|done].
  - left. do 4 eexists. split; [reflexivity|]. split; [solve_quiet|done].
Qed.

Lemma runs_recover_all l : forall rs es, wf_rows rs -> NoDup (key <$> l) ->
  Forall (fun r => status (key r) rs = Some r) l ->
  runs rs es (recover_all faults boot l) (fun _ rs' _ => recovered rs rs' l) (fun _ _ => True).
Proof.
  induction l as [|r l IH]; intros rs es Hwf Hnd Hall; cbn [recover_all].
  { apply runs_ret. by repeat split. }
  apply NoDup_cons in Hnd as [Hnew Hnd]. apply Forall_cons in Hall as [Hr Hall].
  apply runs_bind. destruct (recover_states r) as [(s & obs & ret & m & -> & Hm & Hs)|[-> Hs]].
  - apply runs_bind, runs_append; [done| |done]. intros n rs' Hwf'.
    apply runs_quiet; [done|intros _|done].
    assert (Hne : forall k, k <> key r -> status k rs' = status k rs).
    { intros k Hk. unfold rs'. rewrite status_snoc. by rewrite bool_decide_false. }
    eapply runs_weaken; [apply (IH rs' es Hwf' Hnd)| |done].
    + rewrite Forall_forall in Hall |- *. intros x Hx. rewrite Hne; [by apply Hall|].
      intros E. apply Hnew. rewrite <-E. by apply list_elem_of_fmap_2.
    + cbn. intros _ rs2 _ Hrec. eapply recovered_cons; [apply Hrec|done|done|done|].
      unfold rs'. rewrite status_snoc. cbn. rewrite bool_decide_true by done. cbn. by rewrite Hs.
  - apply runs_ret. eapply runs_weaken; [by apply (IH rs es)| |done]. cbn. intros _ rs2 _ Hrec.
    eapply recovered_cons; [apply Hrec|done|done|done|]. by rewrite Hr, Hs.
Qed.

(** A boot closes what the last one left open: when opening the authority returns,
    a reservation of another boot that was only reserved is aborted, one that was started
    is possibly sent (never started again), every other state stands, and nothing of
    another boot is left open. *)
Theorem restart_closes w claims n w' k r :
  reachable w claims ->
  open_authority faults boot proof {| disk := disk w; writes_left := n; effects := effects w |} = (w', Done tt) ->
  status k (rows_locked (disk w)) = Some r -> boot_id r <> boot ->
  exists r', status k (rows_locked (disk w')) = Some r'
    /\ state r' = after_boot (state r) /\ is_final (state r') = true.
Proof.
  intros (Hwf & Hl & _)%reachable_sound Hopen Hk Hboot.
  change (disk w) with (disk {| disk := disk w; writes_left := n; effects := effects w |}) in Hwf, Hk.
  revert Hwf Hk Hopen. generalize {| disk := disk w; writes_left := n; effects := effects w |}.
  clear Hl w. intros w Hwf Hk Hopen.
  unfold open_authority, mbind, M_bind in Hopen.
  destruct (reconcile_prior_boots faults boot w) as [w1 [[]| |]] eqn:E1; [|done|done].
  assert (Hrec : recovered (rows_locked (disk w)) (rows_locked (disk w1))
    (dict_values (latest_of (rows_locked (disk w))))).
  { destruct (latest_values (rows_locked (disk w))) as [Hnd Hall].
    pose proof (runs_recover_all _ _ (effects w) Hwf Hnd Hall w eq_refl eq_refl) as Hr.
    change (reconcile_prior_boots faults boot w) with
      (recover_all faults boot (dict_values (latest_of (rows_locked (disk w)))) w) in E1.
    by rewrite E1 in Hr. }
  assert (Hrows : rows_locked (disk w') = rows_locked (disk w1)).
  { unfold get in Hopen. destruct (quiet_write_receipts proof (key <$> List.filter
      (fun r => requires_receipt (retention r) && is_final (state r)) (dict_values (latest_locked (disk w1)))) w1)
      as [Hq _]. rewrite Hopen in Hq. by apply rows_ledgers. }
  destruct Hrec as (_ & _ & Hall). rewrite Forall_forall in Hall.
  assert (Hin : r ∈ dict_values (latest_of (rows_locked (disk w)))).
  { unfold status in Hk. apply dict_get_Some_elem in Hk. unfold dict_values.
    apply list_elem_of_fmap. by exists (k, r). }
  specialize (Hall r Hin). rewrite (status_key _ _ _ Hk) in Hall. rewrite Hrows.
  destruct (status k (rows_locked (disk w1))) as [r'|]; [|done]. injection Hall as Hst.
  unfold recovered_state in Hst. rewrite bool_decide_false in Hst by done.
  exists r'. split; [done|]. split; [done|]. rewrite Hst. by destruct (state r).
Qed.
End restart.

(** ** Object slots *)

Definition slots_apart (rs : list Row) : Prop := forall p k1 k2 c1 c2,
  k1 <> k2 -> status k1 rs = Some c1 -> status k2 rs = Some c2 ->
  holds p c1 = true -> holds p c2 = true -> object_slots c1 ## object_slots c2.

Lemma claimed_rows_elem p rs k c x :
  status k rs = Some c -> holds p c = true -> x ∈ object_slots c -> x ∈ claimed_rows p rs.
Proof.
  intros Hs Hh Hx. unfold claimed_rows. apply list_elem_of_bind. exists c. split; [done|].
  rewrite list_elem_of_In, List.filter_In, <-list_elem_of_In. split; [|done].
  unfold status in Hs. apply dict_get_Some_elem in Hs. unfold dict_values.
  apply list_elem_of_fmap. by exists (k, c).
Qed.

(** A reservation that moved on and still owns its slots owned them before. *)
Lemma follows_holds p d r : follows d r -> holds p (norm r) = true -> holds p d = true.
Proof.
  intros (_ & Hp & _ & Hf). unfold holds, norm. cbn. rewrite Hp. intros [-> Hor]%andb_true_iff.
  cbn [andb]. unfold is_open in *.
  destruct (state d) eqn:Ed; try done; destruct (state r) eqn:Er; try done;
    first [by rewrite Hf in Hor | destruct Hf as (_ & _ & Hf); by rewrite Hf in Hor].
Qed.

(** The new record of a key stays apart from every other key's. *)
Lemma new_apart rs row p k c :
  slots_apart rs -> legal_next rs (written row) -> k <> key (written row) -> status k rs = Some c ->
  holds p (norm (written row)) = true -> holds p c = true -> object_slots (written row) ## object_slots c.
Proof.
  intros Hd Hn Hne Hs Hr Hc x Hx Hxc.
  assert (Hopen : opens rs (written row) -> False).
  { intros [[_ Hfree]|[Hst Hret]].
    - rewrite Forall_forall in Hfree. apply (Hfree x Hx). unfold holds in Hr. cbn in Hr. bool_to_prop.
      subst p. by eapply claimed_rows_elem.
    - unfold holds in Hr. cbn in Hr. rewrite Hst, Hret in Hr. by rewrite andb_false_r in Hr. }
  unfold legal_next in Hn. destruct (status (key (written row)) rs) as [d|] eqn:Ed; [|auto].
  destruct Hn as [_ [[Ho _]|Hf]]; [auto|].
  assert (Hsl : object_slots d = object_slots (written row)) by (symmetry; apply Hf).
  refine (Hd p (key (written row)) k d c _ Ed Hs _ Hc x _ Hxc); [congruence| |congruence].
  by eapply follows_holds.
Qed.

Lemma lawful_slots rs : lawful rs -> slots_apart rs.
Proof.
  induction 1 as [|rs row Hl IH Hn]; [done|].
  intros p k1 k2 c1 c2 Hne. rewrite !status_snoc.
  case_bool_decide as E1; case_bool_decide as E2; [congruence| | |by apply IH].
  - intros [= <-] Hs H1 H2. cbn. by eapply new_apart; [..|exact H1|exact H2].
  - intros Hs [= <-] H1 H2. intros x Hx1 Hx2.
    by eapply (new_apart rs row p k1 c1); [..|exact Hx2|exact Hx1].
Qed.

(** No two reservations share an object: in every reachable world, two keys that
    hold capacity of one pool, being open or retained, own disjoint sets of its precreated
    slots. *)
Theorem slots_disjoint `{Digester} w claims p k1 k2 c1 c2 :
  reachable w claims -> k1 <> k2 ->
  status k1 (rows_locked (disk w)) = Some c1 -> status k2 (rows_locked (disk w)) = Some c2 ->
  holds p c1 = true -> holds p c2 = true -> object_slots c1 ## object_slots c2.
Proof. intros (_ & Hl & _)%reachable_sound. by apply lawful_slots. Qed.

(** A committed effect is replayed, not repeated: executing again a key whose latest
    record is committed, for the same identity and without a receipt to rewrite, returns
    the committed observation, runs no effect and changes nothing. *)
Theorem committed_replayed `{Digester} faults redact boot proof k i n ret eff polls late w c :
  status k (rows_locked (disk w)) = Some c -> state c = COMMITTED ->
  effect_fingerprint c = fingerprint i -> retention c = ret -> requires_receipt ret = false ->
  k <> "" -> 3 <= operations n ->
  execute faults redact boot proof k i n ret eff polls late w
  = (w, Done (default (JObj []) (observation c))).
Proof.
  intros Hs Hst Hf Hret Hrec Hk Hn. unfold execute. unfold mbind at 1, M_bind at 1.
  assert (Hr : reserve faults redact boot (plain_request k i n SHARED ret) w = (w, Done c)).
  { unfold reserve. cbn [rq_key rq_need plain_request]. rewrite bool_decide_false by done.
    rewrite (proj2 (Z.ltb_ge _ _) Hn). cbn [orb].
    unfold current_locked, mbind, M_bind, get, mret, M_ret, latest_locked. cbn -[assert_same_effect].
    change (dict_get k (latest_of (rows_locked (disk w)))) with (status k (rows_locked (disk w))).
    rewrite Hs. unfold assert_same_effect. cbn [rq_identity plain_request].
    rewrite bool_decide_true by done. unfold mret, M_ret, retryable. cbn. rewrite Hst, Hret.
    by rewrite (bool_decide_true (ret = ret)), andb_false_r. }
  rewrite Hr, bool_decide_true by done. unfold receipt_if_required. by rewrite Hret, Hrec.
Qed.
