(* ===== verification/ReservationBytes.v ===== *)
(** Byte accounting of the write authority without OS failures and without lost power:
    in every pool the extent and the bytes of the reservations that hold capacity add up
    to the sealed profile.  [acts s m Q E] is the calculus for it: from a world whose disk
    is [s], [m] returns with [Q] or raises with [E], or loses power. *)

From S2P Require Import Prelude Canon Reservation ReservationLogic ReservationFacts.
Local Open Scope Z_scope.

(** ** The calculus *)

Section acts.
Context {A : Type}.

Definition acts (s : Store) (m : M A) (Q : A -> Store -> Prop) (E : Store -> Prop) : Prop :=
  forall w, disk w = s ->
    match m w with
    | (w', Done a) => Q a (disk w')
    | (w', Raised _) => E (disk w')
    | (_, Crashed) => True
    end.

Lemma acts_ret s (a : A) (Q : A -> Store -> Prop) E : Q a s -> acts s (mret a) Q E.
Proof. intros HQ w <-. exact HQ. Qed.

Lemma acts_raise s e Q (E : Store -> Prop) : E s -> acts s (raise e) Q E.
Proof. intros HE w <-. exact HE. Qed.

Lemma acts_weaken s m Q Q' (E E' : Store -> Prop) :
  acts s m Q E -> (forall a s, Q a s -> Q' a s) -> (forall s, E s -> E' s) -> acts s m Q' E'.
Proof. intros Hm HQ HE w Hd. specialize (Hm w Hd). destruct (m w) as [w' [a| |]]; auto. Qed.

Lemma acts_catch s m h Q (E : Store -> Prop) :
  acts s m Q (fun s' => forall e, acts s' (h e) Q E) -> acts s (catch m h) Q E.
Proof.
  intros Hm w Hd. specialize (Hm w Hd). unfold catch. destruct (m w) as [w' [a|e|]]; [done| |done].
  by apply Hm.
Qed.
End acts.

Lemma acts_bind {A B} s (m : M A) (f : A -> M B) Q E :
  acts s m (fun a s' => acts s' (f a) Q E) E -> acts s (m ≫= f) Q E.
Proof.
  intros Hm w Hd. specialize (Hm w Hd). unfold mbind, M_bind.
  destruct (m w) as [w' [a|e|]]; [|done|done]. by apply Hm.
Qed.

Lemma acts_fmap {A B} s (m : M A) (f : A -> B) Q E :
  acts s m (fun a => Q (f a)) E -> acts s (f <$> m) Q E.
Proof. intros Hm w Hd. specialize (Hm w Hd). unfold fmap, M_fmap. by destruct (m w) as [w' []]. Qed.

Lemma acts_get {B} s (f : Store -> M B) Q E : acts s (f s) Q E -> acts s (get ≫= f) Q E.
Proof. intros Hf w <-. by apply Hf. Qed.

Lemma acts_durable s f (Q : unit -> Store -> Prop) E : Q tt (f s) -> acts s (durable f) Q E.
Proof. intros HQ w <-. unfold durable. by destruct (writes_left w). Qed.

Lemma acts_lift {A} s (r : result A) (Q : A -> Store -> Prop) (E : Store -> Prop) :
  (forall a, r = Ok a -> Q a s) -> E s -> acts s (lift r) Q E.
Proof. destruct r as [a|e]; intros HQ HE; [by apply acts_ret, HQ|by apply acts_raise]. Qed.

(** ** Disks that differ in slot contents only *)

Definition slot_names (p : Pool) (s : Store) : list string := (at_pool (slots s) p).*1.

Definition alike (s s' : Store) : Prop :=
  profile s' = profile s /\ ledgers s' = ledgers s /\ extents s' = extents s
  /\ forall p, slot_names p s' = slot_names p s.

Lemma alike_refl s : alike s s.
Proof. by repeat split. Qed.

Lemma alike_trans s1 s2 s3 : alike s1 s2 -> alike s2 s3 -> alike s1 s3.
Proof. intros (? & ? & ? & Hn1) (? & ? & ? & Hn2). repeat split; [congruence..|]. intros p. by rewrite Hn2. Qed.

Lemma at_set_pool {A} p q (a : A) (x : pools A) :
  at_pool (set_pool p a x) q = if bool_decide (q = p) then a else at_pool x q.
Proof. by destruct p, q. Qed.

Lemma alike_set_slot s p name body : name ∈ slot_names p s -> alike s (set_slot p name body s).
Proof.
  intros Hin. repeat split. intros q. unfold slot_names, set_slot. cbn. rewrite at_set_pool.
  case_bool_decide; [subst q|done]. rewrite dict_set_keys. by rewrite bool_decide_true.
Qed.

Lemma dict_has_keys {V} k (d : list (string * V)) : dict_has k d = bool_decide (k ∈ d.*1).
Proof.
  unfold dict_has. apply bool_decide_ext. rewrite <-not_eq_None_Some, dict_get_None.
  destruct (decide (k ∈ d.*1)); tauto.
Qed.

Section slots.
Context `{Digester}.

Lemma acts_clear s p name :
  acts s (clear_slot no_faults p name)
    (fun ok s' => alike s s' /\ ok = bool_decide (name ∈ slot_names p s)) (fun _ => False).
Proof.
  unfold clear_slot. apply acts_get. cbn. rewrite dict_has_keys. fold (slot_names p s).
  case_bool_decide as Hin; cbn.
  - apply acts_bind, acts_durable, acts_ret. split; [by apply alike_set_slot|done].
  - apply acts_ret. split; [apply alike_refl|done].
Qed.

Lemma acts_take_slots s p cl count names :
  acts s (take_slots no_faults p cl count names)
    (fun l s' => alike s s' /\ Forall (fun x => x ∈ slot_names p s) l) (fun _ => False).
Proof.
  revert s count. induction names as [|name names IH]; intros s count; cbn.
  { apply acts_ret. split; [apply alike_refl|constructor]. }
  case_bool_decide; [apply IH|]. apply acts_bind.
  eapply acts_weaken; [apply acts_clear| |done]. cbn. intros ok s1 [Hs1 ->].
  assert (Hn := Hs1). destruct Hn as (_ & _ & _ & Hn).
  assert (Hrest : forall c (f : list string -> list string),
    (forall l, Forall (fun x => x ∈ slot_names p s) l -> Forall (fun x => x ∈ slot_names p s) (f l)) ->
    acts s1 (l ← take_slots no_faults p cl c names; mret (f l))
      (fun l s' => alike s s' /\ Forall (fun x => x ∈ slot_names p s) l) (fun _ => False)).
  { intros c f Hf. apply acts_bind. eapply acts_weaken; [apply IH| |done]. cbn. intros l s2 [Hs2 Hl].
    apply acts_ret. split; [by eapply alike_trans|]. apply Hf. by rewrite <-Hn. }
  case_bool_decide as Hin.
  - destruct count as [|[|n]].
    + apply acts_ret. split; [done|]. by apply Forall_singleton.
    + apply acts_ret. split; [done|]. by apply Forall_singleton.
    + apply (Hrest (S n) (cons name)). intros l Hl. by constructor.
  - eapply acts_weaken; [apply IH| |done]. cbn. intros l s2 [Hs2 Hl].
    split; [by eapply alike_trans|]. by rewrite <-Hn.
Qed.

Lemma acts_object_slots s p count :
  acts s (available_object_slots no_faults p count)
    (fun l s' => alike s s' /\ Forall (fun x => x ∈ slot_names p s) l) (fun _ => False).
Proof.
  unfold available_object_slots. destruct (count =? 0).
  - apply acts_ret. split; [apply alike_refl|constructor].
  - apply acts_get, acts_take_slots.
Qed.

Lemma acts_free_slots s p count :
  acts s (available_object_slots no_faults p count)
    (fun l s' => alike s s' /\ Forall (fun x => x ∈ slot_names p s) l
       /\ Forall (fun x => x ∉ claimed_rows p (rows_locked s)) l) (fun _ => False).
Proof.
  intros w Hw. pose proof (acts_object_slots s p count w Hw) as Ha.
  destruct (available_object_slots no_faults p count w) as [w' [l| |]] eqn:E; [|done|done].
  destruct Ha as [Hal Hin]. split; [done|]. split; [done|]. unfold available_object_slots in E.
  destruct (count =? 0); [injection E as _ <-; constructor|].
  unfold mbind, M_bind, get in E. apply take_slots_free in E.
  unfold claimed, held_in, latest_locked in E. by rewrite Hw in E.
Qed.

(** Reading a pool's headroom gives its extent. *)
Lemma acts_capacity s p :
  acts s (available_capacity no_faults p)
    (fun c s' => alike s s' /\ bytes c = at_pool (extents s) p) (fun s' => alike s s').
Proof.
  unfold available_capacity. apply acts_get, acts_bind.
  eapply acts_weaken; [apply acts_object_slots| |done]. cbn. intros names s1 [Hs1 _].
  apply acts_lift; [|done]. intros c Hc. unfold Capacity_new in Hc. split; [done|].
  destruct (py_any _ _); cbn in Hc; [discriminate|]. by injection Hc as <-.
Qed.

Lemma pool_value_inj p q : pool_value p = pool_value q -> p = q.
Proof. by destruct p, q. Qed.

Lemma acts_headroom s ps :
  acts s (headroom_of no_faults ps)
    (fun h s' => alike s s' /\ forall p, p ∈ ps ->
       exists c, dict_get (pool_value p) h = Some c /\ bytes c = at_pool (extents s) p)
    (fun s' => alike s s').
Proof.
  revert s. induction ps as [|p ps IH]; intros s; cbn [headroom_of].
  { apply acts_ret. split; [apply alike_refl|]. intros q Hq. by apply elem_of_nil in Hq. }
  apply acts_bind. eapply acts_weaken; [apply acts_capacity| |done]. cbn. intros c s1 [Hs1 Hc].
  apply acts_bind. eapply acts_weaken; [apply IH| |intros s2 Hs2; by eapply alike_trans].
  cbn. intros h s2 [Hs2 Hh]. apply acts_ret. split; [by eapply alike_trans|].
  intros q Hq. cbn. case_bool_decide as E; [apply pool_value_inj in E as ->; eauto|].
  apply elem_of_cons in Hq as [->|Hq]; [done|]. destruct (Hh q Hq) as (c' & Hg & Hb).
  exists c'. split; [done|]. rewrite Hb. destruct Hs1 as (_ & _ & -> & _). done.
Qed.
End slots.

(** ** The account *)

Definition weight (p : Pool) (c : WriteReservation) : Z := if holds p c then bytes (need c) else 0.

Definition held (p : Pool) (rs : list Row) : Z := sumZ (weight p <$> dict_values (latest_of rs)).

Definition weight_of (p : Pool) (current : option WriteReservation) : Z :=
  match current with Some c => weight p c | None => 0 end.

Lemma sum_dict_set {V} (f : V -> Z) k v (d : list (string * V)) :
  sumZ (f <$> dict_values (dict_set k v d))
  = sumZ (f <$> dict_values d) - match dict_get k d with Some old => f old | None => 0 end + f v.
Proof.
  unfold dict_values, sumZ. induction d as [|[k' v'] d IH]; csimpl; [lia|].
  case_bool_decide; csimpl; [lia|]. rewrite IH. lia.
Qed.

Lemma held_snoc p rs row :
  held p (rs ++ [row])
  = held p rs - weight_of p (status (key (written row)) rs) + weight p (norm (written row)).
Proof. unfold held at 1, latest_of. rewrite foldl_app. apply sum_dict_set. Qed.

(** The pool's extent and what is held of it miss the profile by [g]. *)
Record accounted (g : Pool -> Z) (s : Store) : Prop := {
  ac_wf : wf_rows (rows_locked s);
  ac_lawful : lawful (rows_locked s);
  ac_need : forall k c, status k (rows_locked s) = Some c -> 0 <= bytes (need c);
  ac_slots : forall p k c, status k (rows_locked s) = Some c -> holds p c = true ->
    Forall (fun x => x ∈ slot_names p s) (object_slots c);
  ac_sum : forall p, at_pool (extents s) p + held p (rows_locked s) + g p = bytes (at_pool (profile s) p)
}.

Definition balanced (s : Store) : Prop := accounted (fun _ => 0) s.

Lemma accounted_ext g g' s : (forall p, g p = g' p) -> accounted g s -> accounted g' s.
Proof. intros Hg [? ? ? ? Hs]. split; try done. intros p. by rewrite <-Hg. Qed.

Lemma accounted_alike g s s' : alike s s' -> accounted g s -> accounted g s'.
Proof.
  intros (Hp & Hl & He & Hn) [? ? ? Hsl Hs]. apply rows_ledgers in Hl.
  split; rewrite ?Hl, ?Hp, ?He; try done. intros p k c Hc Hh. rewrite Hn. by eapply Hsl.
Qed.

Lemma held_nonneg g s p : accounted g s -> 0 <= held p (rows_locked s).
Proof.
  intros Ha. apply sumZ_nonneg, Forall_fmap, Forall_forall. intros c Hc. cbn. unfold weight.
  destruct (holds p c); [|done]. destruct (latest_values (rows_locked s)) as [_ Hall].
  rewrite Forall_forall in Hall. by eapply ac_need, Hall.
Qed.

(** A record changes the account by the difference of what its key holds. *)
Lemma acts_append g s r lp :
  accounted g s -> legal_next (rows_locked s) r -> 0 <= bytes (need r) ->
  (holds (pool r) r = true -> Forall (fun x => x ∈ slot_names (pool r) s) (object_slots r)) ->
  acts s (append_locked r lp) (fun _ s' =>
    accounted (fun p => g p + weight_of p (status (key r) (rows_locked s)) - weight p (norm r)) s'
    /\ extents s' = extents s /\ profile s' = profile s /\ (forall p, slot_names p s' = slot_names p s)
    /\ status (key r) (rows_locked s') = Some (norm r))
    (accounted g).
Proof.
  intros Ha Hn Hnn Hsl. unfold append_locked. apply acts_get.
  destruct (first_empty_record _) as [i|] eqn:Hi; [|by apply acts_raise].
  destruct (_ <? _); [by apply acts_raise|]. apply acts_durable.
  destruct (rows_set_cell _ _ _ r (ac_wf _ _ Ha) Hi) as [Hrows Hwf]. set (row := Build_Row _ _) in *.
  set (s' := set_cell _ _ _ s) in *.
  assert (Hst : forall k, status k (rows_locked s') =
    if bool_decide (k = key r) then Some (norm r) else status k (rows_locked s)).
  { intros k. rewrite Hrows. apply status_snoc. }
  split; [|split; [done|split; [done|split; [done|by rewrite Hst, bool_decide_true]]]].
  split.
  - by rewrite Hrows.
  - rewrite Hrows. apply lawful_snoc; [apply Ha|done].
  - intros k c. rewrite Hst. case_bool_decide; [by intros [= <-]|apply Ha].
  - intros p k c. rewrite Hst. case_bool_decide; [|apply (ac_slots _ _ Ha)].
    intros [= <-] Hh. assert (p = pool r) as ->; [|by apply Hsl].
    unfold holds in Hh. cbn in Hh. by bool_to_prop.
  - intros p. rewrite Hrows, held_snoc. pose proof (ac_sum _ _ Ha p). cbn [key written row].
    change (extents s') with (extents s). change (profile s') with (profile s). cbn. lia.
Qed.

Lemma acts_release s p names b :
  Forall (fun x => x ∈ slot_names p s) names ->
  acts s (release_slots no_faults p names b) (fun ok s' => alike s s' /\ ok = b) (fun _ => False).
Proof.
  revert s b. induction names as [|n names IH]; intros s b Hall; cbn.
  { apply acts_ret. split; [apply alike_refl|done]. }
  apply Forall_cons in Hall as [Hn Hall]. apply acts_bind.
  eapply acts_weaken; [apply acts_clear| |done]. cbn. intros ok s1 [Hs1 ->].
  rewrite bool_decide_true by done. cbn [andb]. assert (Hk := Hs1). destruct Hk as (_ & _ & _ & Hk).
  eapply acts_weaken; [apply IH| |done].
  - eapply Forall_impl; [exact Hall|]. intros x Hx. by rewrite Hk.
  - cbn. intros ok s2 [Hs2 ->]. split; [by eapply alike_trans|done].
Qed.

(** Giving back what is missing balances the account. *)
Lemma acts_give_back s r :
  accounted (fun p => if bool_decide (p = pool r) then bytes (need r) else 0) s ->
  0 <= bytes (need r) -> Forall (fun x => x ∈ slot_names (pool r) s) (object_slots r) ->
  acts s (give_back no_faults r) (fun _ => balanced) (fun _ => False).
Proof.
  intros Ha Hnn Hsl. unfold give_back, release_object_slots. apply acts_bind.
  eapply acts_weaken; [by apply acts_release| |done]. cbn. intros ok s1 [Hs1 ->].
  apply (accounted_alike _ _ _ Hs1) in Ha. clear s Hs1 Hsl. rename s1 into s.
  unfold replenish_extent. apply acts_get. pose proof (ac_sum _ _ Ha (pool r)) as Hsum.
  cbv beta in Hsum. rewrite bool_decide_true in Hsum by done. pose proof (held_nonneg _ _ (pool r) Ha) as Hh.
  destruct (_ || _) eqn:E.
  - apply acts_ret. rewrite orb_false_r in E. bool_to_prop. revert Ha. apply accounted_ext.
    intros p. case_bool_decide; [|done]. lia.
  - apply acts_durable. rewrite orb_false_r in E. bool_to_prop.
    destruct Ha as [? ? ? Hslots Hs]. split; try done. intros p. cbn.
    change (rows_locked (set_extent (pool r) _ s)) with (rows_locked s). rewrite at_set_pool.
    specialize (Hs p). cbn in Hs. case_bool_decide; [subst p|]; lia.
Qed.

(** ** Operations *)

Definition steady {A} (m : M A) : Prop := forall s, balanced s -> acts s m (fun _ => balanced) balanced.

Lemma steady_ret {A} (a : A) : steady (mret a).
Proof. intros s Hs. by apply acts_ret. Qed.

Lemma steady_raise {A} e : steady (raise (A := A) e).
Proof. intros s Hs. by apply acts_raise. Qed.

Lemma steady_bind {A B} (m : M A) (f : A -> M B) : steady m -> (forall a, steady (f a)) -> steady (m ≫= f).
Proof.
  intros Hm Hf s Hs. apply acts_bind. eapply acts_weaken; [by apply Hm| |done]. cbn.
  intros a s' Hs'. by apply Hf.
Qed.

Lemma steady_catch {A} (m : M A) h : steady m -> (forall e, steady (h e)) -> steady (catch m h).
Proof.
  intros Hm Hh s Hs. apply acts_catch. eapply acts_weaken; [by apply Hm|done|]. cbn.
  intros s' Hs' e. by apply Hh.
Qed.

Lemma steady_fmap {A B} (m : M A) (f : A -> B) : steady m -> steady (f <$> m).
Proof. intros Hm s Hs. apply acts_fmap. by apply Hm. Qed.

Lemma acts_current {B} s k (f : option WriteReservation -> M B) Q E :
  acts s (f (status k (rows_locked s))) Q E -> acts s (current_locked k ≫= f) Q E.
Proof. intros Hf w <-. by apply Hf. Qed.

Lemma acts_require {B} s r (f : WriteReservation -> M B) Q (E : Store -> Prop) :
  E s ->
  (forall c, status (key r) (rows_locked s) = Some c -> acts s (f c) Q E) ->
  acts s (require_current r ≫= f) Q E.
Proof.
  intros HE Hf. unfold require_current. apply acts_bind, acts_current.
  destruct (status (key r) _) as [c|] eqn:Es; [|by apply acts_raise].
  unfold assert_same_effect. apply acts_bind. case_bool_decide; [|by apply acts_raise].
  apply acts_ret. by apply acts_ret, Hf.
Qed.

Lemma weight_pool p c : weight p c = if bool_decide (p = pool c) then weight (pool c) c else 0.
Proof.
  destruct (decide (p = pool c)) as [->|E]; [by rewrite bool_decide_true|].
  rewrite (bool_decide_false (p = pool c)) by done. unfold weight, holds.
  by rewrite (bool_decide_false (pool c = p)) by congruence.
Qed.

Section moves.
Context (s : Store) (r c : WriteReservation).
Context (Hs : balanced s) (Hc : status (key r) (rows_locked s) = Some c).
Context (st : ReservationState) (obs : option json) (b : option string) (ret : option RetentionPolicy).
Let moved := transitioned c st obs b ret.
Context (Hf : follows c moved).

(** The record of a move. *)
Lemma acts_move :
  acts s (append_locked moved None) (fun _ s' =>
    accounted (fun p => weight p c - weight p moved) s' /\ (forall p, slot_names p s' = slot_names p s))
    balanced.
Proof.
  assert (Hk := status_key _ _ _ Hc).
  eapply acts_weaken; [apply (acts_append (fun _ => 0)); [done|by apply (legal_transition _ r)| |]| |done].
  - exact (ac_need _ _ Hs _ _ Hc).
  - intros Hh. refine (ac_slots _ _ Hs _ _ c Hc _). by eapply follows_holds.
  - cbn. intros _ s' (Ha & _ & _ & Hn & _). split; [|done]. revert Ha. apply accounted_ext.
    intros p. rewrite Hk, Hc. cbn. change (weight p (norm moved)) with (weight p moved). lia.
Qed.

(** A move that keeps what is held. *)
Lemma acts_keep {A} (a : A) :
  holds (pool c) moved = holds (pool c) c ->
  acts s (append_locked moved None;; mret a) (fun _ => balanced) balanced.
Proof.
  intros Hh. apply acts_bind. eapply acts_weaken; [apply acts_move| |done]. cbn.
  intros _ s' [Ha _]. apply acts_ret. revert Ha. apply accounted_ext. intros p.
  rewrite (weight_pool p c), (weight_pool p moved). cbn [pool moved transitioned].
  case_bool_decide; [|lia]. unfold weight. rewrite Hh. destruct (holds (pool c) c); cbn; lia.
Qed.

(** A move that gives back everything held, before [m] goes on. *)
Lemma acts_close_with {A} (m : M A) :
  holds (pool c) c = true -> holds (pool c) moved = false ->
  (forall s', acts s' (give_back no_faults moved) (fun _ => balanced) (fun _ => False) ->
     acts s' m (fun _ => balanced) balanced) ->
  acts s (append_locked moved None;; m) (fun _ => balanced) balanced.
Proof.
  intros Hh Hm Hnext. apply acts_bind. eapply acts_weaken; [apply acts_move| |done]. cbn.
  intros _ s' [Ha Hn]. apply Hnext, acts_give_back.
  - revert Ha. apply accounted_ext. intros p. rewrite (weight_pool p c), (weight_pool p moved).
    cbn [pool moved transitioned]. case_bool_decide; [|lia]. unfold weight. rewrite Hh, Hm. cbn. lia.
  - exact (ac_need _ _ Hs _ _ Hc).
  - cbn. rewrite Hn. exact (ac_slots _ _ Hs _ _ _ Hc Hh).
Qed.

Lemma acts_close {A} (a : A) :
  holds (pool c) c = true -> holds (pool c) moved = false ->
  acts s (append_locked moved None;; give_back no_faults moved;; mret a) (fun _ => balanced) balanced.
Proof.
  intros Hh Hm. apply acts_close_with; [done|done|]. intros s' Hg. apply acts_bind.
  eapply acts_weaken; [exact Hg| |done]. cbn. intros _ s2 Hs2. by apply acts_ret.
Qed.

Lemma acts_close_last :
  holds (pool c) c = true -> holds (pool c) moved = false ->
  acts s (append_locked moved None;; give_back no_faults moved) (fun _ => balanced) balanced.
Proof.
  intros Hh Hm. apply acts_close_with; [done|done|]. intros s' Hg.
  by eapply acts_weaken; [exact Hg| |].
Qed.
End moves.

Lemma open_holds c : is_final (state c) = false -> holds (pool c) c = true.
Proof. unfold holds, is_open. rewrite bool_decide_true by done. by destruct (state c). Qed.

(** Recovering one reservation leaves the records of the others. *)
Lemma recover_others faults boot r w k :
  wf_rows (rows_locked (disk w)) -> k <> key r ->
  status k (rows_locked (disk (recover faults boot r w).1)) = status k (rows_locked (disk w)).
Proof.
  intros Hwf Hk.
  assert (Hr : runs (rows_locked (disk w)) (effects w) (recover faults boot r)
    (fun _ rs _ => status k rs = status k (rows_locked (disk w)))
    (fun rs _ => status k rs = status k (rows_locked (disk w)))).
  { destruct (recover_states faults boot r) as [(s & obs & ret & m & -> & Hm & _)|[-> _]]; [|by apply runs_ret].
    apply runs_bind, runs_append; [done| |done]. intros n rs' _.
    assert (E : status k rs' = status k (rows_locked (disk w))).
    { unfold rs'. rewrite status_snoc. by rewrite bool_decide_false. }
    by apply runs_quiet. }
  specialize (Hr w eq_refl eq_refl). by destruct (recover faults boot r w) as [w' []].
Qed.

Section steady_ops.
Context `{Digester} (redact : string -> string) (boot : string) (proof : list (string * json)).

Lemma steady_claim_start r : steady (claim_start r).
Proof.
  intros s Hs. unfold claim_start. apply acts_require; [done|]. intros c Hc.
  case_bool_decide as Hst; [|by apply acts_ret].
  apply (acts_keep s r); [done|done| |].
  - split; [done|]. cbn. by rewrite Hst.
  - unfold holds, is_open. cbn. by rewrite Hst.
Qed.

Lemma steady_finish r st obs : steady (finish no_faults redact r st obs).
Proof.
  intros s Hs. unfold finish. apply acts_require; [done|]. intros c Hc.
  destruct (is_final (state c)) eqn:Hfin; [by apply acts_ret|].
  case_bool_decide as He; cbn [negb]; [|by apply acts_raise].
  set (ret := if bool_decide (st = ABORTED) then RELEASE else retention c).
  assert (Hfol : follows c (transitioned c st (Some (bounded redact obs)) None (Some ret))).
  { split; [done|]. cbn. destruct st; try discriminate He; injection He as <-; by cbn. }
  assert (Hst : is_open st = false) by (by destruct st).
  destruct (retains_object (retention (transitioned c st _ None (Some ret)))) eqn:Hr.
  - apply (acts_keep s r); [done|done|done|]. rewrite (open_holds c Hfin). unfold holds. cbn in Hr |- *.
    by rewrite Hr, orb_true_r, bool_decide_true.
  - apply (acts_close s r); [done|done|done|by apply open_holds|]. unfold holds. cbn in Hr |- *.
    by rewrite Hr, Hst, andb_false_r.
Qed.

Lemma steady_refuse_indeterminate r reason : steady (refuse_indeterminate redact r reason).
Proof.
  intros s Hs. unfold refuse_indeterminate. apply acts_require; [done|]. intros c Hc.
  case_bool_decide; [by apply acts_ret|].
  case_bool_decide as Hst; cbn [negb]; [|by apply acts_raise].
  apply (acts_keep s r); [done|done| |].
  - split; [done|]. cbn. by rewrite Hst.
  - unfold holds, is_open. cbn. by rewrite Hst.
Qed.

Lemma steady_release_retained r reason : steady (release_retained no_faults redact r reason).
Proof.
  intros s Hs. unfold release_retained. apply acts_require; [done|]. intros c Hc.
  case_bool_decide; [by apply acts_ret|].
  destruct (_ || _) eqn:E; [by apply acts_raise|]. bool_to_prop.
  apply (acts_close s r); [done|done| | |].
  - split; [done|]. cbn. by destruct (state c).
  - unfold holds. rewrite bool_decide_true by done. apply orb_true_iff. auto.
  - unfold holds. by rewrite andb_false_r.
Qed.

(** Within what the headroom showed, the extent can shrink. *)
Lemma acts_shrink s p n :
  n <= at_pool (extents s) p ->
  acts s (shrink_extent no_faults p n) (fun _ s' => s' = set_extent p (at_pool (extents s) p - n) s)
    (fun _ => False).
Proof.
  intros Hn. unfold shrink_extent. apply acts_get. cbn.
  rewrite (proj2 (Z.ltb_ge _ _) Hn). by apply acts_durable.
Qed.

Lemma fits_bytes a b : fits a b = true -> bytes b <= bytes a.
Proof. unfold fits. cbn. intros Hf. bool_to_prop. done. Qed.

(** Recording a grant and taking its bytes balances. *)
Lemma acts_grant {A} s r (h : exn -> M unit) (a : A) :
  balanced s -> legal_next (rows_locked s) r -> state r = RESERVED -> 0 <= bytes (need r) ->
  Forall (fun x => x ∈ slot_names (pool r) s) (object_slots r) ->
  (forall p, weight_of p (status (key r) (rows_locked s)) = 0) ->
  bytes (need r) <= at_pool (extents s) (pool r) ->
  acts s (append_locked r None;; catch (shrink_extent no_faults (pool r) (bytes (need r))) h;; mret a)
    (fun _ => balanced) balanced.
Proof.
  intros Hs Hn Hst Hnn Hsl Hw Hb. apply acts_bind.
  eapply acts_weaken; [by apply (acts_append (fun _ => 0))| |done]. cbn.
  intros _ s1 (Ha & He & Hp & Hnames & _). apply acts_bind, acts_catch.
  eapply acts_weaken; [apply acts_shrink; by rewrite He| |done]. cbn. intros _ s2 ->.
  apply acts_ret. destruct Ha as [? ? ? ? Hsum]. split; try done. intros p. cbn.
  change (rows_locked (set_extent _ _ s1)) with (rows_locked s1). specialize (Hsum p). cbn in Hsum.
  assert (Hh : holds (pool r) (norm r) = true) by (apply (open_holds (norm r)); cbn; by rewrite Hst).
  rewrite at_set_pool. rewrite (weight_pool p (norm r)) in Hsum. cbn [norm reservation_of pool written] in Hsum.
  rewrite Hw in Hsum. case_bool_decide as Ep; [|lia].
  subst p. unfold weight in Hsum. rewrite Hh in Hsum. cbn in Hsum. lia.
Qed.

(** What a request may find under its key before it is admitted. *)
Definition admissible_now (rq : Request) (rs : list Row) : Prop :=
  match status (rq_key rq) rs with
  | None => True
  | Some c => effect_fingerprint c = fingerprint (rq_identity rq) /\ (state c = ABORTED \/ state c = RELEASED)
  end.

Lemma admissible_opens rq rs r :
  admissible_now rq rs -> key r = rq_key rq -> effect_fingerprint r = fingerprint (rq_identity rq) ->
  opens rs r -> legal_next rs r.
Proof.
  unfold admissible_now, legal_next. intros Hcur -> Hf Ho.
  destruct (status (rq_key rq) rs) as [c|]; [|done]. destruct Hcur as [Hc Hst].
  split; [congruence|]. auto.
Qed.

Lemma admissible_weight rq g s p :
  accounted g s -> admissible_now rq (rows_locked s) -> weight_of p (status (rq_key rq) (rows_locked s)) = 0.
Proof.
  intros Ha Hcur. unfold admissible_now in Hcur. destruct (status _ _) as [c|] eqn:Ec; [|done].
  cbn. unfold weight, holds, is_open.
  assert (Hr : retention c = RELEASE).
  { eapply lawful_retention; [apply Ha|exact Ec|]. tauto. }
  rewrite Hr. destruct Hcur as [_ [-> | ->]]; by rewrite andb_false_r.
Qed.

Lemma acts_refusal rq headroom s :
  balanced s -> admissible_now rq (rows_locked s) -> 0 <= bytes (rq_need rq) ->
  acts s (record_refusal redact boot rq headroom) (fun _ => balanced) balanced.
Proof.
  intros Hs Hcur Hnn. unfold record_refusal. apply acts_get. destruct (_ <? 1); [by apply acts_ret|].
  assert (Hno : forall p, holds p (refusal redact boot rq headroom) = false).
  { intros p. unfold holds. cbn. by rewrite andb_false_r. }
  eapply acts_weaken; [apply (acts_append (fun _ => 0)); [done| |done|by rewrite Hno]| |done].
  - eapply admissible_opens; [done..|by right].
  - cbn. intros _ s' [Ha _]. revert Ha. apply accounted_ext. intros p.
    rewrite (admissible_weight rq _ _ _ Hs Hcur). unfold weight.
    change (holds p (norm _)) with (holds p (refusal redact boot rq headroom)). rewrite Hno. lia.
Qed.

Lemma steady_admission rq s :
  balanced s -> admissible_now rq (rows_locked s) -> 0 <= bytes (rq_need rq) ->
  acts s (admit_request no_faults redact boot rq) (fun _ => balanced) balanced.
Proof.
  intros Hs Hcur Hnn. unfold admit_request. apply acts_bind.
  eapply acts_weaken; [apply acts_headroom| |intros s'; intros Hal; by apply (accounted_alike _ _ _ Hal)].
  cbn beta. intros headroom s1 [Hal1 Hroom]. apply acts_bind.
  eapply acts_weaken; [apply acts_free_slots| |done]. cbn beta.
  intros names s2 (Hal2 & Hnames & Hfree).
  pose proof (alike_trans _ _ _ Hal1 Hal2) as Hal. pose proof (accounted_alike _ _ _ Hal Hs) as Hs2.
  assert (Hrows : rows_locked s2 = rows_locked s) by (apply rows_ledgers, Hal).
  assert (Hcur2 := Hcur). rewrite <-Hrows in Hcur2.
  destruct (Hroom (rq_pool rq)) as (room & Hget & Hbytes); [by destruct (rq_pool rq); set_solver|].
  rewrite Hget. cbn [default]. set (short := _ || _). apply acts_bind.
  apply (acts_weaken _ _ (fun b s' => s' = s2 /\ (b = false -> short = false)) _ balanced); [| |done].
  { destruct short; [by apply acts_ret|]. destruct (rq_floor rq) as [floor|]; [|by apply acts_ret].
    apply acts_bind, acts_lift; [|done]. intros left _. by apply acts_ret. }
  intros [|] s' [-> Hshort].
  - apply acts_bind. eapply acts_weaken; [by apply acts_refusal| |done].
    cbn. intros _ s3 Hs3. by apply acts_raise.
  - apply acts_bind, acts_lift; [|done]. intros left _. specialize (Hshort eq_refl).
    unfold short in Hshort. bool_to_prop. refine (acts_grant s2 _ _ _ Hs2 _ _ _ _ _ _); cbn.
    + eapply admissible_opens; [done..|]. left. cbn. split; [done|].
      assert (E1 : rows_locked s1 = rows_locked s2) by (symmetry; apply rows_ledgers, Hal2).
      by rewrite <-E1.
    + done.
    + done.
    + destruct Hal2 as (_ & _ & _ & Hn). by rewrite Hn.
    + intros p. by eapply admissible_weight.
    + destruct Hal as (_ & _ & -> & _). rewrite <-Hbytes. by apply fits_bytes.
Qed.

Lemma steady_reserve rq : 0 <= bytes (rq_need rq) -> steady (reserve no_faults redact boot rq).
Proof.
  intros Hnn s Hs. unfold reserve. destruct (_ || _); [by apply acts_raise|]. apply acts_current.
  destruct (status (rq_key rq) (rows_locked s)) as [c|] eqn:Es.
  - apply acts_bind. unfold assert_same_effect. case_bool_decide as Hf; [|by apply acts_raise].
    apply acts_ret. destruct (retryable rq c) eqn:Er.
    + apply steady_admission; [done| |done]. unfold admissible_now. rewrite Es. split; [done|].
      unfold retryable in Er. bool_to_prop. destruct Er; bool_to_prop; auto.
    + destruct (_ && _); [by apply acts_raise|by apply acts_ret].
  - apply steady_admission; [done| |done]. unfold admissible_now. by rewrite Es.
Qed.

Lemma steady_record_terminal k i n c :
  0 <= bytes n -> steady (record_terminal no_faults redact boot k i n c).
Proof.
  intros Hn. apply steady_bind; [by apply steady_reserve|]. intros r.
  case_bool_decide; [apply steady_ret|].
  destruct (negb _); [apply steady_raise|apply steady_finish].
Qed.

Lemma steady_write_object r body : steady (write_object r body).
Proof.
  intros s Hs. unfold write_object. destruct (_ || _); [by apply acts_raise|].
  destruct (_ <? _); [by apply acts_raise|]. apply acts_get.
  destruct (dict_get _ _) as [c|]; [|by apply acts_raise].
  destruct (head _) as [name|]; [|by apply acts_raise].
  destruct (_ && _); [|by apply acts_raise].
  destruct (dict_has _ _) eqn:Eh; [|by apply acts_raise]. apply acts_durable.
  rewrite dict_has_keys in Eh. bool_to_prop. eapply accounted_alike; [by apply alike_set_slot|done].
Qed.

Lemma steady_write_receipt k : steady (write_receipt proof k).
Proof.
  intros s Hs. unfold write_receipt. apply acts_current.
  destruct (status k (rows_locked s)) as [r|]; [|by apply acts_raise].
  destruct (negb _); [by apply acts_raise|]. case_bool_decide; [by apply acts_raise|].
  apply acts_get. by apply steady_write_object.
Qed.

Lemma steady_write_receipts ks : steady (write_receipts proof ks).
Proof.
  induction ks as [|k ks IH]; cbn; [apply steady_ret|].
  apply steady_bind; [apply steady_write_receipt|done].
Qed.

(** An operation whose capacity was constructed is not negative. *)
Definition well_asked (o : op) : Prop :=
  match o with
  | OpReserve rq => 0 <= bytes (rq_need rq)
  | OpRecordTerminal _ _ n _ => 0 <= bytes n
  | _ => True
  end.

Lemma steady_run_op o : well_asked o -> steady (run_op no_faults redact boot proof o).
Proof.
  destruct o; cbn; intros Ho; try (apply steady_bind; [|intros; apply steady_ret]).
  - by apply steady_reserve.
  - apply steady_fmap, steady_claim_start.
  - apply steady_finish.
  - apply steady_finish.
  - apply steady_finish.
  - apply steady_refuse_indeterminate.
  - apply steady_release_retained.
  - by apply steady_record_terminal.
  - apply steady_write_receipt.
Qed.

Lemma acts_recover s r :
  balanced s -> status (key r) (rows_locked s) = Some r ->
  acts s (recover no_faults boot r) (fun _ => balanced) balanced.
Proof.
  intros Hs Hr. unfold recover. case_bool_decide; [by apply acts_ret|].
  destruct (state r) eqn:Es; try by apply acts_ret.
  - apply (acts_close_last s r); [done|done| | |].
    + split; [done|]. cbn. by rewrite Es.
    + apply open_holds. by rewrite Es.
    + unfold holds. by rewrite andb_false_r.
  - set (moved := transitioned r POSSIBLY_SENT _ _ _).
    assert (Hf : follows r moved) by (split; [done|]; cbn; by rewrite Es).
    destruct (retains_object (retention moved)) eqn:Er.
    + apply (acts_keep s r); [done|done|done|]. rewrite open_holds by (by rewrite Es).
      unfold holds. cbn in Er |- *. by rewrite Er, orb_true_r, bool_decide_true.
    + apply (acts_close_last s r); [done|done|done|apply open_holds; by rewrite Es|].
      unfold holds. cbn in Er |- *. by rewrite Er, andb_false_r.
Qed.

Lemma acts_recover_all l s :
  balanced s -> NoDup (key <$> l) -> Forall (fun r => status (key r) (rows_locked s) = Some r) l ->
  acts s (recover_all no_faults boot l) (fun _ => balanced) balanced.
Proof.
  revert s. induction l as [|r l IH]; intros s Hs Hnd Hall; cbn; [by apply acts_ret|].
  apply NoDup_cons in Hnd as [Hnew Hnd]. apply Forall_cons in Hall as [Hr Hall].
  apply acts_bind. intros w Hw.
  pose proof (acts_recover s r Hs Hr w Hw) as Hb.
  pose proof (recover_others no_faults boot r w) as Ho. rewrite Hw in Ho.
  destruct (recover no_faults boot r w) as [w' [[]| |]]; [|done|done].
  apply IH; [done|done|]. rewrite Forall_forall in Hall |- *. intros x Hx.
  rewrite Ho; [by apply Hall|apply Hs|]. intros E. apply Hnew. rewrite <-E. by apply list_elem_of_fmap_2.
Qed.

Lemma steady_open : steady (open_authority no_faults boot proof).
Proof.
  apply steady_bind.
  - intros s Hs. apply acts_get. destruct (latest_values (rows_locked s)).
    by apply acts_recover_all.
  - intros []. apply steady_bind; [|intros s; apply steady_write_receipts].
    intros s Hs w <-. exact Hs.
Qed.

Lemma steady_run_ops l : Forall well_asked l -> steady (run_ops no_faults redact boot proof l).
Proof.
  induction 1 as [|o l Ho Hl IH]; cbn; [apply steady_ret|].
  apply steady_bind; [|done]. apply steady_catch; [by apply steady_run_op|]. intros _. apply steady_ret.
Qed.

Lemma steady_current k : steady (current_locked k).
Proof. intros s Hs w <-. exact Hs. Qed.

Lemma steady_await polls r :
  Forall (Forall well_asked) polls -> steady (await_terminal no_faults redact boot proof polls r).
Proof.
  intros Hp. revert r. induction Hp as [|others polls Ho Hp IH]; intros r; cbn;
    (destruct (is_open (state r)); [|apply steady_ret]); [apply steady_ret|].
  apply steady_bind; [by apply steady_run_ops|]. intros [].
  apply steady_bind; [apply steady_current|]. intros found. apply IH.
Qed.

Lemma steady_receipt r : steady (receipt_if_required proof r).
Proof.
  unfold receipt_if_required. destruct (requires_receipt _); [apply steady_write_receipt|apply steady_ret].
Qed.

Lemma steady_execute k i n ret eff polls late :
  0 <= bytes n -> Forall (Forall well_asked) polls -> Forall (Forall well_asked) late ->
  steady (execute no_faults redact boot proof k i n ret eff polls late).
Proof.
  intros Hn Hp Hl. unfold execute. apply steady_bind; [by apply steady_reserve|]. intros r.
  assert (Hback : forall x, steady (receipt_if_required proof x;; mret (default (JObj []) (observation x)))).
  { intros x. apply steady_bind; [apply steady_receipt|]. intros []. apply steady_ret. }
  case_bool_decide; [apply Hback|]. apply steady_bind.
  { case_bool_decide; [by apply steady_await|apply steady_ret]. }
  intros x. case_bool_decide; [apply Hback|]. case_bool_decide; cbn [negb].
  - apply steady_bind; [apply steady_claim_start|]. intros [started [|]]; cbn [negb].
    + apply steady_bind.
      * apply steady_catch.
        { apply steady_bind; [intros s Hs w <-; exact Hs|]. intros [].
          apply steady_bind; [|intros obs; apply steady_finish].
          destruct (eff_result eff); [apply steady_ret|apply steady_raise]. }
        intros e. apply steady_bind; [apply steady_current|]. intros found.
        apply steady_bind; [|intros []; apply steady_raise].
        destruct found as [current|]; [|apply steady_ret].
        case_bool_decide; [|apply steady_ret]. apply steady_bind; [apply steady_finish|]. intros sent.
        destruct (requires_receipt _); [|apply steady_ret].
        apply steady_catch; [apply steady_write_receipt|]. intros e'.
        destruct (tolerated e'); [apply steady_ret|apply steady_raise].
      * intros c. apply steady_bind; [apply steady_receipt|]. intros [].
        destruct (eff_observe eff) as [[]|]; (apply steady_ret || apply steady_raise).
    + apply steady_bind; [by apply steady_await|]. intros ended.
      case_bool_decide; [apply steady_ret|apply steady_raise].
  - apply steady_bind; [|intros []; apply steady_raise].
    destruct (_ && _); [apply steady_write_receipt|apply steady_ret].
Qed.
End steady_ops.

(** ** Conservation *)

Section calm.
Context `{Digester}.

(** Worlds reached without an OS failure and without losing power: every operation ends by
    itself, returning or raising; a process may end between operations and another boot. *)
Inductive calm : World -> Prop :=
  | calm_provision profile n :
      calm {| disk := fresh_store profile; writes_left := n; effects := [] |}
  | calm_op redact boot proof o w w' out :
      calm w -> well_asked o -> run_op no_faults redact boot proof o w = (w', out) -> out <> Crashed -> calm w'
  | calm_execute redact boot proof k i n ret eff polls late w w' out :
      calm w -> 0 <= bytes n -> Forall (Forall well_asked) polls -> Forall (Forall well_asked) late ->
      execute no_faults redact boot proof k i n ret eff polls late w = (w', out) -> out <> Crashed -> calm w'
  | calm_boot boot proof w w' out n :
      calm w ->
      open_authority no_faults boot proof {| disk := disk w; writes_left := n; effects := effects w |} = (w', out) ->
      out <> Crashed -> calm w'.

Lemma steady_world {A} (m : M A) w w' out :
  steady m -> balanced (disk w) -> m w = (w', out) -> out <> Crashed -> balanced (disk w').
Proof.
  intros Hm Hb Hw Hne. specialize (Hm _ Hb w eq_refl). rewrite Hw in Hm. by destruct out.
Qed.

Lemma fresh_balanced profile : balanced (fresh_store profile).
Proof.
  split; rewrite ?fresh_rows; try done; try constructor. intros p. unfold held, latest_of. cbn.
  destruct p; cbn; lia.
Qed.

Lemma calm_balanced w : calm w -> balanced (disk w).
Proof.
  induction 1 as [prof n|redact boot proof o w w' out _ IH Ho Hw Hne
    |redact boot proof k i n ret eff polls late w w' out _ IH Hn Hp Hl Hw Hne|boot proof w w' out n _ IH Hw Hne].
  - apply fresh_balanced.
  - exact (steady_world _ _ _ _ (steady_run_op redact boot proof o Ho) IH Hw Hne).
  - exact (steady_world _ _ _ _ (steady_execute redact boot proof k i n ret eff polls late Hn Hp Hl) IH Hw Hne).
  - exact (steady_world _ {| disk := disk w; writes_left := n; effects := effects w |} _ _
      (steady_open boot proof) IH Hw Hne).
Qed.

Lemma held_weight p s : sumZ ((fun r => bytes (need r)) <$> held_in p s) = held p (rows_locked s).
Proof.
  unfold held, held_in, weight, latest_locked. induction (dict_values _) as [|c l IH]; [done|].
  cbn. destruct (holds p c); cbn; unfold sumZ in *; cbn; lia.
Qed.

(** C35. Bytes are conserved: without OS failures and lost power, after any operations,
    executions, refusals and reboots, each pool's extent and the bytes of the reservations
    that hold capacity of it add up to the pool's sealed bytes, so the bytes held never
    exceed the profile. *)
Theorem bytes_conserved w p :
  calm w ->
  at_pool (extents (disk w)) p + sumZ ((fun r => bytes (need r)) <$> held_in p (disk w))
  = bytes (at_pool (profile (disk w)) p).
Proof.
  intros Hb%calm_balanced. rewrite held_weight. pose proof (ac_sum _ _ Hb p) as Hs. cbn in Hs. lia.
Qed.
End calm.
