(* ===== verification/ReservationWitness.v ===== *)
(** Concrete runs of the write authority: the worlds on which its properties are
    instantiated, and two in which its capacity accounting fails. *)

From S2P Require Import Prelude Canon Reservation ReservationLogic ReservationFacts ReservationBytes.
Local Open Scope Z_scope.

Definition short_digester : Digester := fun s => str_int (Z.of_nat (String.length s)).
#[local] Existing Instance short_digester.

Definition small_profile : WriteProfile :=
  Pools (capacity 0 0 0) (capacity 100 2 8) (capacity 10 1 4) (capacity 0 0 0).

Definition fresh (n : nat) : World := {| disk := fresh_store small_profile; writes_left := n; effects := [] |}.

Definition submit : EffectIdentity := {| operation := "submit"; subject := "challenge-1"; payload_digest := "" |}.

Definition plain (s : string) : string := s.

(** One unit of work of a process that draws [boot]. *)
Definition ask (k : string) (n : Capacity) (ret : RetentionPolicy) : op :=
  OpReserve (plain_request k submit n SHARED ret).

Definition does (boot : string) (o : op) (w : World) : World := (run_op no_faults plain boot [] o w).1.

Definition reboot (boot : string) (n : nat) (w : World) : World :=
  (open_authority no_faults boot [] {| disk := disk w; writes_left := n; effects := effects w |}).1.

Definition submission : Effect := {|
  eff_result := Ok (JObj [("status", JStr "correct")]); eff_indeterminate := fun _ => [];
  eff_observe := None |}.

Definition executed (w : World) : World * outcome json :=
  execute no_faults plain "boot-1" [] "k" submit (capacity 20 1 3) RELEASE submission [] [] w.

Definition states (w : World) : list (string * ReservationState) :=
  (fun row => (key (written row), state (written row))) <$> rows_locked (disk w).

(** The bytes a pool's open and retained reservations account for. *)
Definition held_bytes (p : Pool) (s : Store) : Z := sumZ ((fun r => bytes (need r)) <$> held_in p s).

(** An execution from start to end. *)
Example executed_once :
  (executed (fresh 50)).2 = Done (JObj [("status", JStr "correct")])
  /\ states (executed (fresh 50)).1 = [("k", RESERVED); ("k", STARTED); ("k", COMMITTED)]
  /\ effects (executed (fresh 50)).1 = ["k"].
Proof. vm_compute. repeat split. Qed.

(** Power lost after the effect and before its outcome is recorded. *)
Definition cut_off : World := (executed (fresh 7)).1.

Example cut_off_states : states cut_off = [("k", RESERVED); ("k", STARTED)] /\ effects cut_off = ["k"].
Proof. vm_compute. repeat split. Qed.

Lemma reach_cut_off : reachable cut_off [].
Proof. apply reach_execute, reach_provision. Qed.

Lemma ledger_append_only_witness :
  lawful (rows_locked (disk (does "boot-1" (ask "j" (capacity 10 1 3) RELEASE) cut_off))).
Proof.
  exact (proj2 (ledger_append_only no_faults plain "boot-1" [] (ask "j" (capacity 10 1 3) RELEASE)
    cut_off [] reach_cut_off)).
Defined.

Lemma effect_at_most_once_witness :
  (occurrences "k" (effects cut_off) + occurrences "k" [] <= entered RELEASED "k" (rows_locked (disk cut_off)) + 1)%nat.
Proof. exact (effect_at_most_once cut_off [] "k" reach_cut_off). Defined.

Lemma cut_off_started : exists r,
  status "k" (rows_locked (disk cut_off)) = Some r /\ state r = STARTED /\ boot_id r = "boot-1".
Proof. vm_compute. eexists. repeat split. Qed.

Lemma reopened : exists w',
  open_authority no_faults "boot-2" [] {| disk := disk cut_off; writes_left := 50; effects := effects cut_off |}
  = (w', Done tt).
Proof.
  assert (Ho : (open_authority no_faults "boot-2" []
    {| disk := disk cut_off; writes_left := 50; effects := effects cut_off |}).2 = Done tt)
    by (vm_compute; reflexivity).
  destruct (open_authority _ _ _ _) as [w' o]. cbn in Ho. subst o. by exists w'.
Qed.

Lemma restart_closes_witness : exists w' r',
  open_authority no_faults "boot-2" [] {| disk := disk cut_off; writes_left := 50; effects := effects cut_off |}
  = (w', Done tt)
  /\ status "k" (rows_locked (disk w')) = Some r' /\ state r' = POSSIBLY_SENT.
Proof.
  destruct cut_off_started as (r & Hr & Hst & Hb), reopened as [w' Hw].
  assert (Hne : boot_id r <> "boot-2") by (rewrite Hb; discriminate).
  destruct (restart_closes no_faults "boot-2" [] cut_off [] 50 w' "k" r reach_cut_off Hw Hr Hne)
    as (r' & Hs & Hst' & _).
  exists w', r'. split; [exact Hw|]. split; [exact Hs|]. rewrite Hst', Hst. reflexivity.
Defined.

(** Two reservations open at once. *)
Definition two_open : World :=
  does "boot-1" (ask "b" (capacity 30 1 3) RELEASE) (does "boot-1" (ask "a" (capacity 20 1 3) RELEASE) (fresh 50)).

Lemma two_open_slots : exists c1 c2,
  status "a" (rows_locked (disk two_open)) = Some c1 /\ status "b" (rows_locked (disk two_open)) = Some c2
  /\ holds SHARED c1 = true /\ holds SHARED c2 = true
  /\ object_slots c1 = ["0000.slot"] /\ object_slots c2 = ["0001.slot"].
Proof. vm_compute. do 2 eexists. repeat split. Qed.

Lemma slots_disjoint_witness : exists c1 c2,
  status "a" (rows_locked (disk two_open)) = Some c1 /\ status "b" (rows_locked (disk two_open)) = Some c2
  /\ object_slots c1 ## object_slots c2.
Proof.
  destruct two_open_slots as (c1 & c2 & H1 & H2 & Hh1 & Hh2 & _). exists c1, c2.
  split; [exact H1|]. split; [exact H2|].
  apply (slots_disjoint two_open [] SHARED "a" "b" c1 c2); [|discriminate|exact H1|exact H2|exact Hh1|exact Hh2].
  apply reach_op, reach_op, reach_provision.
Defined.

Lemma committed_sample : exists c,
  status "k" (rows_locked (disk (executed (fresh 50)).1)) = Some c /\ state c = COMMITTED
  /\ effect_fingerprint c = fingerprint submit /\ retention c = RELEASE
  /\ observation c = Some (JObj [("status", JStr "correct")]).
Proof. vm_compute. eexists. repeat split. Qed.

Lemma committed_replayed_witness :
  executed (executed (fresh 50)).1 = ((executed (fresh 50)).1, Done (JObj [("status", JStr "correct")])).
Proof.
  destruct committed_sample as (c & Hs & Hst & Hf & Hr & Ho). unfold executed at 1.
  rewrite (committed_replayed no_faults plain "boot-1" [] "k" submit (capacity 20 1 3) RELEASE submission [] []
    (executed (fresh 50)).1 c Hs Hst Hf Hr); [by rewrite Ho|reflexivity|discriminate|cbn; lia].
Defined.

Lemma two_open_calm : calm two_open.
Proof.
  set (w1 := does "boot-1" (ask "a" (capacity 20 1 3) RELEASE) (fresh 50)).
  assert (H1 : calm w1).
  { unfold w1, does. destruct (run_op _ _ _ _ _ (fresh 50)) as [w o] eqn:E.
    eapply calm_op; [apply calm_provision| |exact E|]; [cbn; lia|].
    assert (Ho : (run_op no_faults plain "boot-1" [] (ask "a" (capacity 20 1 3) RELEASE) (fresh 50)).2 = Done tt)
      by (vm_compute; reflexivity).
    rewrite E in Ho. cbn in Ho. by subst o. }
  assert (Ho : (run_op no_faults plain "boot-1" [] (ask "b" (capacity 30 1 3) RELEASE) w1).2 = Done tt)
    by (vm_compute; reflexivity).
  unfold two_open, does at 1. fold w1.
  destruct (run_op _ _ _ _ _ w1) as [w o] eqn:E. cbn in Ho.
  eapply calm_op; [exact H1| |exact E|by subst o]. cbn. lia.
Qed.

Lemma bytes_conserved_witness :
  at_pool (extents (disk two_open)) SHARED
  + sumZ ((fun r => bytes (need r)) <$> held_in SHARED (disk two_open))
  = bytes (at_pool (profile (disk two_open)) SHARED).
Proof. exact (bytes_conserved two_open SHARED two_open_calm). Defined.

(** ** Where the accounting fails *)

(** A pool of four record cells. *)
Definition tight_profile : WriteProfile :=
  Pools (capacity 0 0 0) (capacity 100 0 4) (capacity 0 0 0) (capacity 0 0 0).

(** One reservation is admitted; three more are refused for want of bytes. *)
Definition starved : World :=
  foldl (fun w k => does "boot-1" (ask k (capacity 80 0 3) RELEASE) w)
    {| disk := fresh_store tight_profile; writes_left := 50; effects := [] |} ["a"; "b"; "c"; "d"].

(** The admitted reservation as the ledger reads it back. *)
Definition admitted : WriteReservation := {|
  key := "a"; identity := submit; effect_fingerprint := fingerprint submit; need := capacity 80 0 3;
  pool := SHARED; state := RESERVED; object_slots := []; observation := None; boot_id := "boot-1";
  retention := RELEASE; grant_remaining_bytes := 20; grant_headroom := Some [] |}.

(** Refusals consume the records an admitted reservation still needs: each refusal is
    written while any record cell is empty, whether or not it is spoken for, so after three
    of them a reservation that was admitted with three durability operations can record
    neither its start nor its abort, and the next boot cannot reconcile it. *)
Theorem refusals_starve_admitted :
  let exhausted := ReservationUnavailable "shared durability-operation reserve is exhausted" in
  reachable starved []
  /\ status "a" (rows_locked (disk starved)) = Some admitted
  /\ states starved = [("a", RESERVED); ("b", REFUSED); ("c", REFUSED); ("d", REFUSED)]
  /\ (start admitted starved).2 = Raised exhausted
  /\ (abort_ no_faults plain admitted "cancelled" starved).2 = Raised exhausted
  /\ (open_authority no_faults "boot-2" [] starved).2 = Raised exhausted.
Proof.
  split; [do 4 apply reach_op; apply reach_provision|].
  split; [vm_compute; reflexivity|]. split; [vm_compute; reflexivity|].
  split; [vm_compute; reflexivity|]. split; vm_compute; reflexivity.
Qed.

(** A committed reservation retains sixty bytes; power is lost after the record of a second
    one of thirty and before its bytes were taken. *)
Definition retained : World :=
  (execute no_faults plain "boot-1" [] "a" submit (capacity 60 0 3) RECORD submission [] [] (fresh 50)).1.

Definition interrupted : World :=
  does "boot-2" (ask "b" (capacity 30 0 3) RELEASE) (reboot "boot-2" 4 retained).

(** Lost power overcommits bytes: when power fails between a reservation's record and
    the shrinking of its pool's extent, the next boot returns bytes that were never taken,
    and the extent together with the bytes still held exceeds the sealed profile. *)
Theorem lost_power_overcommits :
  let w := reboot "boot-3" 50 interrupted in
  reachable w []
  /\ states w = [("a", RESERVED); ("a", STARTED); ("a", COMMITTED); ("b", RESERVED); ("b", ABORTED)]
  /\ held_bytes SHARED (disk w) = 60
  /\ at_pool (extents (disk w)) SHARED = 70
  /\ bytes (at_pool (profile (disk w)) SHARED) = 100.
Proof.
  split; [apply (reach_boot _ _ _ _ _ []), reach_op, (reach_boot _ _ _ _ _ []), reach_execute, reach_provision|].
  split; [vm_compute; reflexivity|]. split; [vm_compute; reflexivity|].
  split; vm_compute; reflexivity.
Qed.
