(* ===== verification/Stall.v ===== *)
(** When an Attempt ends, and why.

    [src/solver/stall.py]: the deadline an Attempt is killed at, the watch over its
    observations and the breaker over barren Attempts.  The mutable objects are records
    threaded through their methods.  Durations are whole microseconds ([timedelta]'s
    unit); the seconds of the breaker's dials are integers, for which the float products
    of the code are exact up to the point where they exceed the cap. *)

From Stdlib Require Import Ascii.
From S2P Require Import Prelude Moment Text.
Local Open Scope Z_scope.

(** [record.py]: the dispositions this module gives. *)
Definition CUT_REPETITION : string := "cut:repetition".
Definition CUT_NOVELTY : string := "cut:novelty".
Definition CUT_STEP_CLIFF : string := "cut:step-cliff".
Definition CUT_BUDGET : string := "cut:budget".
Definition CUT_INSTANCE_EXPIRED : string := "cut:instance-expired".
Definition CUT_SELF_REPORTED_IMPOSSIBLE : string := "cut:self-reported-impossible".
Definition CRASHED : string := "crashed".

(** ** Commands and prose *)

(** [^\[[a-z][a-z-]*\] ]. *)
Definition MARKED : list atom :=
  literal "[" ++ [one is_lower; star (fun c => is_lower c || is_code 45 c)] ++ literal "] ".

(** [^\S*(?:sh|bash|zsh|dash)\s+-[a-z]*c\s+]: every alternative ends in the first one, whose
    prefix the greedy [\S*] takes, so the match is that of [^\S*sh\s+-[a-z]*c\s+]. *)
Definition SHELL : list atom :=
  [star (fun c => negb (is_space c))] ++ literal "sh" ++ [plus is_space] ++ literal "-"
  ++ [star is_lower] ++ literal "c" ++ [plus is_space].

Definition DECLARES_IMPOSSIBLE : string := "UNWINNABLE:".

Definition IMPOSSIBLE_SAYS : list string :=
  ["this is impossible"; "this challenge is impossible"; "cannot be solved"; "unsolvable"; "i give up"].

Definition declared (prose : string) : bool :=
  py_any (fun line => startswith DECLARES_IMPOSSIBLE (text (upper_char <$> lstrip_chars line)))
    (split_lines (chars prose) []).

Definition is_quote (c : ascii) : bool := is_code 39 c || is_code 34 c.

(** [bare[1:-1]] when it is quoted by one kind of quote. *)
Definition unquote (l : list ascii) : list ascii :=
  match l with
  | first :: (_ :: _) as rest =>
      match last rest with
      | Some c => if bool_decide (first = c) && is_quote first then removelast rest else l
      | None => l
      end
  | _ => l
  end.

Definition normalise (command : string) : string :=
  let stripped := chars (strip command) in
  let bare := match re_match SHELL stripped with Some (_, rest) => rest | None => stripped end in
  strip (text (rstrip_by (is_code 59) (squeeze (unquote bare)))).

Definition replayable (command : string) : bool :=
  negb (bool_decide (strip command = ""))
  && negb (bool_decide (is_Some (re_match MARKED (chars command)))).

(** ** The deadline *)

Record Thresholds : Type := {
  repeats : Z;
  novelty : Z;
  cliff : Z;
  extensions : Z;
  extension_us : Z;
  impossible : list string
}.

Definition default_thresholds : Thresholds := {|
  repeats := 1; novelty := 5; cliff := 25; extensions := 3; extension_us := 120 * us_per_second;
  impossible := IMPOSSIBLE_SAYS |}.

Record Deadline : Type := {
  budget : moment;
  instance : option moment;
  granted : Z;
  sealed : bool;
  base_budget : moment
}.

(** The dataclass with its [__post_init__]. *)
Definition Deadline_new (b : moment) (i : option moment) : Deadline := {|
  budget := b; instance := i; granted := 0; sealed := false; base_budget := b |}.

(** [min(a, b)] of two moments: the first unless the second is earlier. *)
Definition min_moment (a b : moment) : moment := if before b a then b else a.

Definition plus_us (m : moment) (us : Z) : moment := Moment (wall_us m + us) (utc_offset m).

Definition at_ (d : Deadline) : moment :=
  match instance d with Some i => min_moment (budget d) i | None => budget d end.

(** [left(now)], in microseconds. *)
Definition left (d : Deadline) (now : moment) : Z := us_between (at_ d) now.

Definition spent (d : Deadline) (now : moment) : string :=
  if 0 <? left d now then ""
  else match instance d with
    | Some i => if at_or_before i (budget d) then CUT_INSTANCE_EXPIRED else CUT_BUDGET
    | None => CUT_BUDGET
    end.

Definition extend (d : Deadline) (us cap : Z) : Deadline * bool :=
  if sealed d || (cap <=? granted d) then (d, false)
  else ({| budget := plus_us (budget d) us; instance := instance d; granted := granted d + 1;
           sealed := sealed d; base_budget := base_budget d |}, true).

Definition apply_epochs (d : Deadline) (epochs us cap : Z) : Deadline :=
  if sealed d then d
  else
    let n := Z.min (Z.max epochs 0) cap in
    {| budget := plus_us (base_budget d) (us * n); instance := instance d; granted := n;
       sealed := sealed d; base_budget := base_budget d |}.

Definition shorten (d : Deadline) (to : moment) : Deadline := {|
  budget := min_moment (budget d) to; instance := instance d; granted := granted d; sealed := true;
  base_budget := base_budget d |}.

(** ** The watch *)

(** [moved] is the sentence of its three parts: the command, its exit before and after. *)
Record Checkpoint : Type := {
  moved : string * option Z * option Z;
  replay : string;
  evidence_digest : string
}.

Record Tried : Type := { tried_command : string; tried_exit : option Z }.

Record Confirmation : Type := { accepted : bool; newly_recorded : bool }.

Definition answer : Type := option Z * string.

Record Watch : Type := {
  deadline : Deadline;
  thresholds : Thresholds;
  steps : Z;
  checkpoints : list Checkpoint;
  tried : list Tried;
  last_command : string;
  answered : list (string * answer);
  candidates : list (string * (answer * Checkpoint));
  digests : list string;
  repeated_ : list (string * Z);
  stale : Z;
  gave_up : bool;
  confirms : option (Checkpoint -> Confirmation)
}.

(** [Watch(deadline, thresholds)], optionally with its confirming callback. *)
Definition Watch_new (d : Deadline) (t : Thresholds) (c : option (Checkpoint -> Confirmation)) : Watch := {|
  deadline := d; thresholds := t; steps := 0; checkpoints := []; tried := []; last_command := "";
  answered := []; candidates := []; digests := []; repeated_ := []; stale := 0; gave_up := false;
  confirms := c |}.

Definition note_novelty (w : Watch) (digest : string) : Watch :=
  let fresh := negb (bool_decide (digest = "")) && negb (bool_decide (digest ∈ digests w)) in
  {| deadline := deadline w; thresholds := thresholds w; steps := steps w; checkpoints := checkpoints w;
     tried := tried w; last_command := last_command w; answered := answered w; candidates := candidates w;
     digests := if fresh then digests w ++ [digest] else digests w;
     repeated_ := repeated_ w; stale := if fresh then 0 else stale w + 1; gave_up := gave_up w;
     confirms := confirms w |}.

Definition note_repeat (w : Watch) (key : string) (exit_code : option Z) (repeated : bool) : Watch :=
  {| deadline := deadline w; thresholds := thresholds w; steps := steps w; checkpoints := checkpoints w;
     tried := List.filter (fun e => negb (bool_decide (tried_command e = key))) (tried w)
              ++ [{| tried_command := key; tried_exit := exit_code |}];
     last_command := last_command w; answered := answered w; candidates := candidates w;
     digests := digests w;
     repeated_ := if repeated then dict_set key (default 0 (dict_get key (repeated_ w)) + 1) (repeated_ w)
                  else repeated_ w;
     stale := stale w; gave_up := gave_up w; confirms := confirms w |}.

Definition confirmed (w : Watch) (c : Checkpoint) : Watch :=
  let confirmation := match confirms w with
    | Some f => f c
    | None => {| accepted := true; newly_recorded := true |}
    end in
  if negb (accepted confirmation) then w
  else {|
    deadline := match confirms w with
      | None => (extend (deadline w) (extension_us (thresholds w)) (extensions (thresholds w))).1
      | Some _ => deadline w
      end;
    thresholds := thresholds w; steps := 0;
    checkpoints := if newly_recorded confirmation then checkpoints w ++ [c] else checkpoints w;
    tried := []; last_command := last_command w; answered := answered w; candidates := candidates w;
    digests := digests w; repeated_ := []; stale := 0; gave_up := gave_up w; confirms := confirms w |}.

(** The step is counted and, for a command, its answer remembered. *)
Definition note_step (w : Watch) : Watch :=
  {| deadline := deadline w; thresholds := thresholds w; steps := steps w + 1; checkpoints := checkpoints w;
     tried := tried w; last_command := last_command w; answered := answered w; candidates := candidates w;
     digests := digests w; repeated_ := repeated_ w; stale := stale w; gave_up := gave_up w;
     confirms := confirms w |}.

Definition note_answer (w : Watch) (command key : string) (a : answer)
    (cs : list (string * (answer * Checkpoint))) : Watch :=
  {| deadline := deadline w; thresholds := thresholds w; steps := steps w; checkpoints := checkpoints w;
     tried := tried w; last_command := command; answered := dict_set key a (answered w); candidates := cs;
     digests := digests w; repeated_ := repeated_ w; stale := stale w; gave_up := gave_up w;
     confirms := confirms w |}.

Definition observed (w : Watch) (command : string) (exit_code : option Z) (digest : string) :
    Watch * option Checkpoint :=
  let w := note_novelty (note_step w) digest in
  if negb (replayable command) then (w, None)
  else
    let key := normalise command in
    let a := (exit_code, digest) in
    let before_ := dict_get key (answered w) in
    let changed (b : answer) :=
      let c := {| moved := (key, b.1, exit_code); replay := key; evidence_digest := digest |} in
      (note_answer w command key a (dict_set key (a, c) (candidates w)), None) in
    let settled :=
      match before_ with
      | None => (note_repeat (note_answer w command key a (candidates w)) key exit_code false, None)
      | Some b =>
          if bool_decide (b = a)
          then (note_repeat (note_answer w command key a (candidates w)) key exit_code true, None)
          else changed b
      end in
    match dict_get key (candidates w) with
    | Some (b, c) =>
        if bool_decide (b = a)
        then (confirmed (note_answer w command key a (dict_del key (candidates w))) c, Some c)
        else settled
    | None => settled
    end.

Definition said (w : Watch) (prose : string) (now : moment) : Watch * bool :=
  if negb (declared prose) && negb (py_any (fun phrase => contains phrase (lower prose)) (impossible (thresholds w)))
  then (w, false)
  else
    ({| deadline := shorten (deadline w) now; thresholds := thresholds w; steps := steps w;
        checkpoints := checkpoints w; tried := tried w; last_command := last_command w;
        answered := answered w; candidates := candidates w; digests := digests w;
        repeated_ := repeated_ w; stale := stale w; gave_up := true; confirms := confirms w |}, true).

Definition cause (w : Watch) (now : moment) : string :=
  if gave_up w then CUT_SELF_REPORTED_IMPOSSIBLE
  else if repeats (thresholds w) <=? maxZ 0 (dict_values (repeated_ w)) then CUT_REPETITION
  else if novelty (thresholds w) <=? stale w then CUT_NOVELTY
  else if cliff (thresholds w) <=? steps w then CUT_STEP_CLIFF
  else spent (deadline w) now.

(** ** The breaker *)

Record Breaker : Type := {
  limit : Z;
  base_seconds : Z;
  cap_seconds : Z;
  barren : list (string * Z);
  streak : list string
}.

Definition default_breaker : Breaker := {|
  limit := 3; base_seconds := 30; cap_seconds := 900; barren := []; streak := [] |}.

Definition closed (b : Breaker) (challenge : string) (n : Z) : Breaker * string :=
  if negb (n =? 0) then
    ({| limit := limit b; base_seconds := base_seconds b; cap_seconds := cap_seconds b;
        barren := dict_del challenge (barren b); streak := [] |}, "")
  else
    let count := default 0 (dict_get challenge (barren b)) + 1 in
    ({| limit := limit b; base_seconds := base_seconds b; cap_seconds := cap_seconds b;
        barren := dict_set challenge count (barren b); streak := streak b ++ [challenge] |},
     if limit b <=? count then CRASHED else "").

(** [base_seconds * 2 ** k] converts the power to a float, which raises from [2 ** 1024] on. *)
Definition backoff (b : Breaker) : result Z :=
  let k := py_len (streak b) - 2 in
  if py_len (remove_dups (streak b)) <? 2 then Ok 0
  else if 1024 <=? k then Err (OverflowError "int too large to convert to float")
  else Ok (Z.min (cap_seconds b) (base_seconds b * 2 ^ k)).
