(* ===== verification/StallFacts.v ===== *)
(** Properties of the stall call: what an Attempt can buy and cannot, when it ends, what
    a Checkpoint is, and when the breaker trips. *)

From S2P Require Import Prelude Moment Text Stall.
Local Open Scope Z_scope.

Example normalise_shell : normalise "/bin/zsh -lc 'cat  note.txt;'" = "cat note.txt".
Proof. vm_compute. reflexivity. Qed.
Example replayable_marked : replayable "[codex] the turn failed" = false /\ replayable " ls" = true.
Proof. vm_compute. done. Qed.

(** ** Runs of a watch *)

(** What happens to a watch: a Step of the Attempt, or prose of the model. *)
Inductive event : Type :=
  | Step (command : string) (exit_code : option Z) (digest : string)
  | Prose (text : string) (now : moment).

Definition handle (w : Watch) (e : event) : Watch :=
  match e with
  | Step c x d => (observed w c x d).1
  | Prose p now => (said w p now).1
  end.

Definition watch_run (w : Watch) (es : list event) : Watch := foldl handle w es.

(** A property each event keeps is kept by every run. *)
Lemma watch_run_ind (P : Watch -> Prop) w es :
  (forall w e, P w -> P (handle w e)) -> P w -> P (watch_run w es).
Proof. intros Hstep. revert w. induction es as [|e es IH]; intros w Hw; cbn; auto. Qed.

(** The outcomes of one Step on what it does not observe. *)
Lemma observed_cases w c x d :
  let w' := (observed w c x d).1 in
  thresholds w' = thresholds w /\ confirms w' = confirms w /\ gave_up w' = gave_up w
  /\ (deadline w' = deadline w
      \/ confirms w = None /\ deadline w' = (extend (deadline w) (extension_us (thresholds w)) (extensions (thresholds w))).1).
Proof.
  unfold observed. destruct (negb (replayable c)); [by cbn; auto|].
  set (w1 := note_novelty _ _). cbn zeta.
  destruct (dict_get (normalise c) (candidates w1)) as [[b cp]|];
    [case_bool_decide; [unfold confirmed; cbn; destruct (confirms w) as [f|] eqn:Ec; [destruct (accepted (f cp))|]|]|];
    try (destruct (dict_get (normalise c) (answered w1)) as [b'|]; [case_bool_decide|]);
    cbn; split_and!; auto.
Qed.

(** ** What a deadline allows *)

Lemma instant_plus_us m us : instant (plus_us m us) = instant m + us.
Proof. unfold instant, plus_us. cbn. lia. Qed.

Lemma instant_min_moment a b : instant (min_moment a b) = Z.min (instant a) (instant b).
Proof. unfold min_moment, before. destruct (Z.ltb_spec (instant b) (instant a)); lia. Qed.

(** The budget is never past what the granted extensions buy from its base. *)
Definition within (cap us : Z) (d : Deadline) : Prop :=
  0 <= granted d <= Z.max 0 cap /\ instant (budget d) <= instant (base_budget d) + us * granted d.

Lemma extend_within d us cap : within cap us d -> within cap us (extend d us cap).1.
Proof.
  unfold extend. intros [Hg Hb]. destruct (_ || _) eqn:E; [done|]. bool_to_prop. split; cbn; [lia|].
  rewrite instant_plus_us. lia.
Qed.

Lemma shorten_within d to us cap : within cap us d -> within cap us (shorten d to).
Proof. intros [Hg Hb]. split; [done|]. cbn. rewrite instant_min_moment. lia. Qed.

Definition bounded_watch (base : moment) (inst : option moment) (cap us : Z) (w : Watch) : Prop :=
  within cap us (deadline w) /\ base_budget (deadline w) = base /\ instance (deadline w) = inst
  /\ extensions (thresholds w) = cap /\ extension_us (thresholds w) = us.

Lemma handle_bounded base inst cap us w e :
  bounded_watch base inst cap us w -> bounded_watch base inst cap us (handle w e).
Proof.
  intros (Hw & Hb & Hi & Hc & Hu). destruct e as [c x d|p now]; cbn.
  - destruct (observed_cases w c x d) as (Ht & _ & _ & Hd). unfold bounded_watch. rewrite Ht.
    destruct Hd as [->|[_ ->]]; [done|]. rewrite Hc, Hu. split; [by apply extend_within|].
    unfold extend. destruct (_ || _); done.
  - unfold said. destruct (_ && _); [done|]. unfold bounded_watch. cbn. split; [by apply shorten_within|]. done.
Qed.

Lemma at_le_instance d i : instance d = Some i -> instant (at_ d) <= instant i.
Proof. intros Hi. unfold at_. rewrite Hi, instant_min_moment. lia. Qed.

Lemma at_le_budget d : instant (at_ d) <= instant (budget d).
Proof. unfold at_. destruct (instance d); [rewrite instant_min_moment|]; lia. Qed.

(** Progress buys a bounded amount of time: whatever an Attempt observes and says,
    the moment it is killed at is never later than its base budget plus the capped number
    of extensions, nor than the expiry of its Instance. *)
Theorem deadline_bounded b inst t cnf es :
  0 <= extension_us t ->
  let d := deadline (watch_run (Watch_new (Deadline_new b inst) t cnf) es) in
  instant (at_ d) <= instant b + extension_us t * Z.max 0 (extensions t)
  /\ forall i, inst = Some i -> instant (at_ d) <= instant i.
Proof.
  intros Hu d.
  assert (Hw : bounded_watch b inst (extensions t) (extension_us t)
    (watch_run (Watch_new (Deadline_new b inst) t cnf) es)).
  { apply watch_run_ind; [intros; by apply handle_bounded|]. repeat split; cbn; lia. }
  destruct Hw as ((Hg & Hb) & Hbase & Hi & _ & _). fold d in Hg, Hb, Hbase, Hi.
  rewrite Hbase in Hb. split.
  - pose proof (at_le_budget d). nia.
  - intros i ->. by apply at_le_instance.
Qed.

(** ** Giving up *)

Definition sealed_at (now : moment) (w : Watch) : Prop :=
  gave_up w = true /\ sealed (deadline w) = true /\ instant (budget (deadline w)) <= instant now.

Lemma handle_sealed now w e : sealed_at now w -> sealed_at now (handle w e).
Proof.
  intros (Hg & Hs & Hb). destruct e as [c x d|p now']; cbn.
  - destruct (observed_cases w c x d) as (_ & _ & Hg' & Hd). unfold sealed_at. rewrite Hg'.
    destruct Hd as [->|[_ ->]]; [done|]. unfold extend. rewrite Hs. done.
  - unfold said. destruct (_ && _); [done|]. split; [done|]. split; [done|]. cbn.
    rewrite instant_min_moment. lia.
Qed.

(** Giving up only ever shortens: once the model's prose was read as giving up at
    [now], the Attempt is over for that cause at every later time, and nothing observed or
    said afterwards moves its deadline past [now]. *)
Theorem giving_up_is_final w prose now es later :
  (said w prose now).2 = true ->
  let w' := watch_run (said w prose now).1 es in
  cause w' later = CUT_SELF_REPORTED_IMPOSSIBLE /\ instant (at_ (deadline w')) <= instant now.
Proof.
  intros Hs w'.
  assert (Hw : sealed_at now w').
  { apply watch_run_ind; [intros; by apply handle_sealed|]. unfold said in *.
    destruct (_ && _); [done|]. split; [done|]. split; [done|]. cbn. rewrite instant_min_moment. lia. }
  destruct Hw as (Hg & _ & Hb). split; [unfold cause; by rewrite Hg|].
  pose proof (at_le_budget (deadline w')). lia.
Qed.

(** Epochs are restored idempotently: applying a canonical epoch count to an unsealed
    deadline gives the budget of that many capped extensions of the base, whatever was
    granted before, and a sealed deadline is left alone. *)
Theorem epochs_idempotent d e1 e2 us cap :
  apply_epochs (apply_epochs d e1 us cap) e2 us cap = apply_epochs d e2 us cap
  /\ (sealed d = false -> 0 <= cap ->
      budget (apply_epochs d e2 us cap) = plus_us (base_budget d) (us * Z.min (Z.max e2 0) cap)
      /\ 0 <= granted (apply_epochs d e2 us cap) <= cap).
Proof.
  unfold apply_epochs. destruct (sealed d) eqn:Es; [by rewrite Es|].
  cbn. split; [done|]. intros _ Hc. split; [done|lia].
Qed.

(** ** When an Attempt ends *)

(** The accepted Checkpoint of a Step, if it confirmed one. *)
Definition confirms_one (w : Watch) (c : string) (x : option Z) (d : string) : bool :=
  match (observed w c x d).2 with
  | Some cp => match confirms w with Some f => accepted (f cp) | None => true end
  | None => false
  end.

Lemma observed_steps w c x d :
  steps (observed w c x d).1 = if confirms_one w c x d then 0 else steps w + 1.
Proof.
  unfold confirms_one, observed. destruct (negb (replayable c)); [done|].
  set (w1 := note_novelty _ _). cbn zeta.
  destruct (dict_get (normalise c) (candidates w1)) as [[b cp]|];
    [case_bool_decide; [unfold confirmed; cbn; destruct (confirms w) as [f|]; [by destruct (accepted (f cp))|done]|]|];
    (destruct (dict_get (normalise c) (answered w1)) as [b'|]; [case_bool_decide|]; done).
Qed.

(** The last Steps of a run confirmed nothing. *)
Inductive stalled : Watch -> list (string * option Z * string) -> Watch -> Prop :=
  | stalled_nil w : stalled w [] w
  | stalled_cons w c x d es w' :
      confirms_one w c x d = false -> stalled (observed w c x d).1 es w' -> stalled w ((c, x, d) :: es) w'.

Lemma stalled_steps w es w' : stalled w es w' -> steps w' = steps w + py_len es /\ thresholds w' = thresholds w.
Proof.
  induction 1 as [w|w c x d es w' Hc _ [IH IHt]]; [unfold py_len; cbn; split; [lia|done]|].
  rewrite IH, IHt, observed_steps, Hc. destruct (observed_cases w c x d) as (-> & _).
  unfold py_len. cbn. split; [lia|done].
Qed.

(** C40. No Attempt goes on without progress: after as many Steps as the cliff allows
    without a confirmed Checkpoint the Attempt is over, at every time and whatever its
    Steps were. *)
Theorem cliff_ends_attempt w es w' now :
  stalled w es w' -> 0 <= steps w -> cliff (thresholds w) <= py_len es -> cause w' now <> "".
Proof.
  intros [Hs Ht]%stalled_steps H0 Hlen. unfold cause. rewrite Ht, Hs.
  destruct (gave_up w'); [done|]. destruct (_ <=? maxZ _ _); [done|]. destruct (_ <=? stale w'); [done|].
  rewrite (proj2 (Z.leb_le _ _)); [done|]. lia.
Qed.

(** A repetition is cut the moment it happens: a command that answers exactly as it
    last did, with no unconfirmed change of it pending, ends an Attempt whose threshold is
    one repeat, unless the model gave up before. *)
Theorem repetition_cut w c x d now :
  replayable c = true -> dict_get (normalise c) (candidates w) = None ->
  dict_get (normalise c) (answered w) = Some (x, d) ->
  repeats (thresholds w) <= 1 -> Forall (fun kv => 0 <= kv.2) (repeated_ w) ->
  cause (observed w c x d).1 now = if gave_up w then CUT_SELF_REPORTED_IMPOSSIBLE else CUT_REPETITION.
Proof.
  intros Hr Hc Ha Ht Hpos. unfold observed. rewrite Hr. cbn [negb]. cbn zeta.
  change (candidates (note_novelty (note_step w) d)) with (candidates w).
  change (answered (note_novelty (note_step w) d)) with (answered w).
  rewrite Hc, Ha, bool_decide_true by done. unfold cause.
  cbn -[maxZ dict_set dict_values dict_get default].
  destruct (gave_up w); [done|].
  assert (Hge : 1 <= maxZ 0 (dict_values (dict_set (normalise c)
    (default 0 (dict_get (normalise c) (repeated_ w)) + 1) (repeated_ w)))).
  { set (n := default 0 _ + 1).
    assert (Hn : 1 <= n).
    { unfold n. destruct (dict_get (normalise c) (repeated_ w)) as [v|] eqn:E; cbn; [|lia]. apply dict_get_Some_elem in E.
      rewrite Forall_forall in Hpos. specialize (Hpos _ E). cbn in Hpos. unfold id. lia. }
    etrans; [exact Hn|]. apply maxZ_ge. unfold dict_values. apply list_elem_of_fmap.
    exists (normalise c, n). split; [done|]. apply dict_get_Some_elem, dict_get_set_eq. }
  rewrite (proj2 (Z.leb_le _ _)); [done|]. lia.
Qed.

(** ** What a Checkpoint is *)

(** The answers one command gave over a run, in order. *)
Definition answers (k : string) (es : list event) : list answer :=
  omap (fun e => match e with
    | Step c x d => if replayable c && bool_decide (normalise c = k) then Some (x, d) else None
    | Prose _ _ => None
    end) es.

(** What the watch remembers of a command is its last answer, and a change of it waits
    for its confirmation exactly while it is the last thing that happened to it. *)
Definition remembers (w : Watch) (es : list event) : Prop := NoDup (candidates w).*1 /\ forall k,
  dict_get k (answered w) = last (answers k es)
  /\ forall a, (exists cp, dict_get k (candidates w) = Some (a, cp))
       <-> exists l b, answers k es = l ++ [b; a] /\ b <> a.

Lemma answers_snoc k es e : answers k (es ++ [e]) = answers k es ++ answers k [e].
Proof. apply omap_app. Qed.

Lemma last_two {A} (l l' : list A) (a b x : A) : l ++ [x] = l' ++ [b; a] <-> a = x /\ l = l' ++ [b].
Proof.
  change [b; a] with ([b] ++ [a]). rewrite app_assoc. split.
  - intros [-> [= ->]]%app_inj_tail. done.
  - by intros [-> ->].
Qed.

(** How the answer [x] after the answers [l] decides whether a change is waiting. *)
Lemma changed_iff {A} `{EqDecision A} (l : list A) (x a : A) :
  (exists l' b, l ++ [x] = l' ++ [b; a] /\ b <> a) <-> a = x /\ exists b, last l = Some b /\ b <> x.
Proof.
  split.
  - intros (l' & b & [-> ->]%last_two & Hne). split; [done|]. exists b. by rewrite last_snoc.
  - intros [-> (b & Hl & Hne)]. apply last_Some in Hl as [l' ->]. exists l', b.
    split; [by apply last_two|done].
Qed.

Lemma confirmed_memory w c :
  answered (confirmed w c) = answered w /\ candidates (confirmed w c) = candidates w.
Proof. unfold confirmed. destruct (negb _); done. Qed.

(** One replayable Step: whether it confirmed, and what is remembered after it. *)
Definition observed_spec (w : Watch) (c : string) (x : option Z) (d : string) : Prop :=
  let k := normalise c in
  let a := (x, d) in
  let '(w', out) := observed w c x d in
  answered w' = dict_set k a (answered w)
  /\ match dict_get k (candidates w), dict_get k (answered w) with
     | Some (b, cp), before_ =>
         if bool_decide (b = a) then out = Some cp /\ candidates w' = dict_del k (candidates w)
         else out = None /\ match before_ with
           | Some b' => if bool_decide (b' = a) then candidates w' = candidates w
               else exists cp', candidates w' = dict_set k (a, cp') (candidates w)
           | None => candidates w' = candidates w
           end
     | None, Some b' =>
         out = None /\ if bool_decide (b' = a) then candidates w' = candidates w
           else exists cp', candidates w' = dict_set k (a, cp') (candidates w)
     | None, None => out = None /\ candidates w' = candidates w
     end.

Lemma observed_meets_spec w c x d : replayable c = true -> observed_spec w c x d.
Proof.
  intros Hr. unfold observed_spec, observed. rewrite Hr. cbn [negb]. cbn zeta.
  change (candidates (note_novelty (note_step w) d)) with (candidates w).
  change (answered (note_novelty (note_step w) d)) with (answered w).
  destruct (dict_get (normalise c) (candidates w)) as [[b cp]|];
    [case_bool_decide as E1|];
    [|destruct (dict_get (normalise c) (answered w)) as [b'|]; [case_bool_decide as E2|]..];
    [|cbn; eauto..].
  edestruct confirmed_memory as [-> ->]. done.
Qed.

Lemma observed_unreplayable w c x d :
  replayable c = false ->
  (observed w c x d).2 = None /\ answered (observed w c x d).1 = answered w
  /\ candidates (observed w c x d).1 = candidates w.
Proof. intros Hr. unfold observed. by rewrite Hr. Qed.

(** A waiting change is of the last answer. *)
Lemma waiting_last w es k a cp :
  remembers w es -> dict_get k (candidates w) = Some (a, cp) -> last (answers k es) = Some a.
Proof.
  intros [_ Hrem] Hc. destruct (Hrem k) as [_ Hwait]. destruct (proj1 (Hwait a) (ex_intro _ cp Hc)) as (l & b & -> & _).
  change [b; a] with ([b] ++ [a]). by rewrite app_assoc, last_snoc.
Qed.

(** The waiting changes after one replayable Step. *)
Lemma candidates_step w es c x d :
  remembers w es -> replayable c = true ->
  let w' := (observed w c x d).1 in
  NoDup (candidates w').*1
  /\ (forall k, k <> normalise c -> dict_get k (candidates w') = dict_get k (candidates w))
  /\ forall a, (exists cp, dict_get (normalise c) (candidates w') = Some (a, cp))
       <-> a = (x, d) /\ exists b, last (answers (normalise c) es) = Some b /\ b <> (x, d).
Proof.
  intros Hw Hr. pose proof (observed_meets_spec w c x d Hr) as Hspec. unfold observed_spec in Hspec.
  pose proof (waiting_last w es (normalise c)) as Hwl. destruct Hw as [Hnd Hrem].
  destruct (Hrem (normalise c)) as [Hlast _]. rewrite Hlast in Hspec.
  destruct (observed w c x d) as [w' out]. cbn [fst]. cbn zeta. destruct Hspec as [_ Hcand].
  destruct (dict_get (normalise c) (candidates w)) as [[b cp]|] eqn:Ec.
  - rewrite (Hwl b cp (conj Hnd Hrem) eq_refl) in *. case_bool_decide as Eb.
    + destruct Hcand as [_ ->]. split; [by apply dict_del_NoDup|]. split.
      * intros k Hk. by apply dict_get_del_ne.
      * intros a. rewrite dict_get_del_eq by done. naive_solver.
    + destruct Hcand as (_ & cp' & ->). split; [by apply dict_set_NoDup|]. split.
      * intros k Hk. by apply dict_get_set_ne.
      * intros a. rewrite dict_get_set_eq. naive_solver.
  - destruct (last (answers (normalise c) es)) as [b|]; [case_bool_decide as Eb|].
    + destruct Hcand as [_ ->]. split; [done|]. split; [done|]. intros a. rewrite Ec. naive_solver.
    + destruct Hcand as (_ & cp' & ->). split; [by apply dict_set_NoDup|]. split.
      * intros k Hk. by apply dict_get_set_ne.
      * intros a. rewrite dict_get_set_eq. naive_solver.
    + destruct Hcand as [_ ->]. split; [done|]. split; [done|]. intros a. rewrite Ec. naive_solver.
Qed.

Lemma answers_one k c x d :
  answers k [Step c x d] = if replayable c && bool_decide (normalise c = k) then [(x, d)] else [].
Proof. unfold answers. cbn. by destruct (_ && _). Qed.

Lemma remembers_step w es c x d :
  remembers w es -> remembers (observed w c x d).1 (es ++ [Step c x d]).
Proof.
  intros Hw. destruct (replayable c) eqn:Hr.
  2:{ destruct (observed_unreplayable w c x d Hr) as (_ & Ha & Hc). destruct Hw as [Hnd Hrem].
      split; [by rewrite Hc|]. intros k.
      rewrite Ha, Hc, answers_snoc, answers_one, Hr. cbn [andb]. rewrite app_nil_r. apply Hrem. }
  destruct (candidates_step w es c x d Hw Hr) as (Hnd & Hother & Hself).
  pose proof (observed_meets_spec w c x d Hr) as Hspec. unfold observed_spec in Hspec.
  destruct (observed w c x d) as [w' out]. cbn [fst] in *. destruct Hspec as [Hans _].
  split; [done|]. intros k. destruct Hw as [_ Hrem]. destruct (Hrem k) as [Hlast Hwait].
  rewrite Hans, answers_snoc, answers_one, Hr, dict_get_set. cbn [andb].
  destruct (decide (k = normalise c)) as [->|Hk].
  - rewrite !bool_decide_true by done. rewrite last_snoc. split; [done|].
    intros a. by rewrite changed_iff, Hself.
  - rewrite !bool_decide_false by congruence. rewrite app_nil_r, Hother by done. done.
Qed.

Lemma remembers_run d t cnf es : remembers (watch_run (Watch_new d t cnf) es) es.
Proof.
  unfold watch_run. induction es as [|e es IH] using rev_ind.
  - split; [constructor|]. intros k. split; [done|]. cbn. intros a. split; [by intros []|].
    intros (l & b & H & _). by destruct l.
  - rewrite foldl_snoc. destruct e as [c x dg|p now]; [by apply remembers_step|].
    cbn. unfold said. destruct (_ && _); destruct IH as [Hnd Hrem]; (split; [done|]); intros k;
      rewrite answers_snoc; (replace (answers k [Prose p now]) with (@nil answer) by done);
      rewrite app_nil_r; apply Hrem.
Qed.

(** A Checkpoint is a change that repeats: after any run of an Attempt, a Step yields
    one exactly when its command was last seen to answer differently from the time before
    and now answers that same new answer again.  A first answer, a stable answer and a
    change not yet repeated are no progress. *)
Theorem checkpoint_is_stable_change d t cnf es c x dg :
  is_Some (observed (watch_run (Watch_new d t cnf) es) c x dg).2
  <-> replayable c = true
      /\ exists l b, answers (normalise c) es = l ++ [b; (x, dg)] /\ b <> (x, dg).
Proof.
  pose proof (remembers_run d t cnf es) as Hw. set (w := watch_run _ es) in *.
  destruct (replayable c) eqn:Hr.
  2:{ destruct (observed_unreplayable w c x dg Hr) as (-> & _).
      split; [by intros [? ?]|naive_solver]. }
  pose proof (observed_meets_spec w c x dg Hr) as Hspec. unfold observed_spec in Hspec.
  destruct (observed w c x dg) as [w' out]. cbn [snd]. destruct Hspec as [_ Hcand].
  destruct (Hw) as [_ Hrem]. destruct (Hrem (normalise c)) as [_ Hwait]. rewrite <-Hwait.
  destruct (dict_get (normalise c) (candidates w)) as [[b cp]|];
    [case_bool_decide as Eb|destruct (dict_get (normalise c) (answered w))];
    destruct Hcand as [-> _]; subst; naive_solver eauto.
Qed.

(** ** When the breaker trips *)

(** The Attempts of one Challenge since its last productive one, all barren. *)
Fixpoint barren_run (c : string) (closes : list (string * Z)) (n : Z) : Z :=
  match closes with
  | [] => n
  | (c', k) :: rest =>
      barren_run c rest (if bool_decide (c' = c) then (if k =? 0 then n + 1 else 0) else n)
  end.

Definition breaker_run (b : Breaker) (closes : list (string * Z)) : Breaker :=
  foldl (fun b cl => (closed b cl.1 cl.2).1) b closes.

Lemma closed_barren b c k c' :
  NoDup (barren b).*1 ->
  NoDup (barren (closed b c k).1).*1 /\ limit (closed b c k).1 = limit b
  /\ default 0 (dict_get c' (barren (closed b c k).1))
     = if bool_decide (c = c') then (if k =? 0 then default 0 (dict_get c' (barren b)) + 1 else 0)
       else default 0 (dict_get c' (barren b)).
Proof.
  intros Hnd. unfold closed. destruct (Z.eqb_spec k 0) as [->|Hk]; cbn [negb].
  - cbn [fst barren limit]. split; [by apply dict_set_NoDup|]. split; [done|].
    case_bool_decide as E; [subst; by rewrite dict_get_set_eq|by rewrite dict_get_set_ne by congruence].
  - cbn [fst barren limit]. split; [by apply dict_del_NoDup|]. split; [done|].
    case_bool_decide as E; [subst; by rewrite dict_get_del_eq|by rewrite dict_get_del_ne by congruence].
Qed.

Lemma breaker_counts closes : forall b c,
  NoDup (barren b).*1 ->
  limit (breaker_run b closes) = limit b
  /\ default 0 (dict_get c (barren (breaker_run b closes)))
     = barren_run c closes (default 0 (dict_get c (barren b))).
Proof.
  induction closes as [|[c' k] closes IH]; intros b c Hnd; [done|].
  destruct (closed_barren b c' k c Hnd) as (Hnd' & Hl & Hb).
  destruct (IH _ c Hnd') as [IHl IHb]. cbn -[barren_run]. unfold breaker_run in IHl, IHb.
  cbn. rewrite IHl, IHb, Hl, Hb. done.
Qed.

(** The breaker trips exactly on barren returns: whatever Attempts of whatever
    Challenges closed before, closing one more is [crashed] exactly when it did nothing
    and the Challenge's Attempts since its last productive one, this one included, reach
    the limit. *)
Theorem breaker_trips_on_barren b closes c k :
  barren b = [] ->
  (closed (breaker_run b closes) c k).2
  = if (k =? 0) && (limit b <=? barren_run c closes 0 + 1) then CRASHED else "".
Proof.
  intros Hb. destruct (breaker_counts closes b c) as [Hl Hc]; [rewrite Hb; constructor|].
  rewrite Hb in Hc. cbn [dict_get default] in Hc. unfold closed.
  destruct (k =? 0); cbn [negb andb snd]; [|done]. by rewrite Hl, Hc.
Qed.

Lemma distinct_snoc (l : list string) c : py_len (remove_dups l) <= py_len (remove_dups (l ++ [c])).
Proof.
  unfold py_len. apply inj_le, submseteq_length, NoDup_submseteq; [apply NoDup_remove_dups|].
  intros x. rewrite !elem_of_remove_dups. set_solver.
Qed.

(** The global backoff follows the streak: a productive Attempt ends it, a barren one
    never makes it shorter, and it stays within the cap - unless the streak reaches 1026
    barren Attempts, where the power it computes no longer fits a float and the call raises
    instead of answering the cap. *)
Theorem backoff_follows_streak b c k s :
  0 <= base_seconds b -> 0 <= cap_seconds b -> backoff b = Ok s ->
  0 <= s <= cap_seconds b
  /\ match backoff (closed b c k).1 with
     | Ok s' => if k =? 0 then s <= s' <= cap_seconds b else s' = 0
     | Err e => k = 0 /\ e = OverflowError "int too large to convert to float" /\ 1025 <= py_len (streak b)
     end.
Proof.
  intros Hb Hc Hs. unfold backoff in Hs. unfold closed, backoff.
  pose proof (Z.pow_nonneg 2 (py_len (streak b) - 2)) as Hp.
  assert (Hs0 : 0 <= s <= cap_seconds b).
  { destruct (_ <? 2); [injection Hs as <-; lia|]. destruct (1024 <=? _); [done|]. injection Hs as <-. nia. }
  split; [done|]. destruct (Z.eqb_spec k 0) as [->|Hk]; cbn [negb]; [|done].
  cbn [fst streak cap_seconds base_seconds]. pose proof (distinct_snoc (streak b) c) as Hd.
  assert (Hl : py_len (streak b ++ [c]) = py_len (streak b) + 1) by (unfold py_len; rewrite length_app; cbn; lia).
  pose proof (Z.pow_nonneg 2 (py_len (streak b ++ [c]) - 2)) as Hp'.
  destruct (Z.ltb_spec (py_len (remove_dups (streak b ++ [c]))) 2) as [H2|H2].
  { rewrite (proj2 (Z.ltb_lt (py_len (remove_dups (streak b))) 2)) in Hs by lia. injection Hs as <-. lia. }
  destruct (Z.leb_spec 1024 (py_len (streak b ++ [c]) - 2)) as [H3|H3].
  { split_and!; [done..|lia]. }
  destruct (_ <? 2); [injection Hs as <-; nia|]. destruct (1024 <=? _); [done|]. injection Hs as <-.
  assert (2 ^ (py_len (streak b) - 2) <= 2 ^ (py_len (streak b ++ [c]) - 2)).
  { apply Z.pow_le_mono_r; lia. }
  nia.
Qed.

(** ** The stall properties at concrete Attempts. *)

Definition noon : moment := Moment 0 (Some 0).
Definition fresh : Watch := Watch_new (Deadline_new (Moment 600000000 (Some 0)) (Some (Moment 500000000 (Some 0)))) default_thresholds None.

(** [cat a] answers once, changes, repeats its change, then repeats again. *)
Definition progress : list event :=
  [Step "cat a" (Some 1) "x"; Step "cat a" (Some 0) "y"; Step "/bin/sh -c 'cat a'" (Some 0) "y"].

Lemma deadline_bounded_witness :
  0 <= extension_us default_thresholds
  /\ let d := deadline (watch_run fresh progress) in
     granted d = 1 /\ instant (at_ d) <= 600000000 + 360000000 /\ instant (at_ d) <= 500000000.
Proof.
  split; [vm_compute; congruence|]. intros d. split; [vm_compute; reflexivity|].
  assert (H : 0 <= extension_us default_thresholds) by (vm_compute; congruence).
  destruct (deadline_bounded (Moment 600000000 (Some 0)) (Some (Moment 500000000 (Some 0))) default_thresholds None progress H)
    as [H1 H2].
  split; [exact H1|exact (H2 _ eq_refl)].
Defined.

Lemma giving_up_is_final_witness :
  (said fresh "UNWINNABLE: no target" noon).2 = true
  /\ cause (watch_run (said fresh "UNWINNABLE: no target" noon).1 progress) (Moment 5 (Some 0))
     = CUT_SELF_REPORTED_IMPOSSIBLE.
Proof.
  assert (H : (said fresh "UNWINNABLE: no target" noon).2 = true) by (vm_compute; reflexivity).
  split; [exact H|]. apply (giving_up_is_final fresh "UNWINNABLE: no target" noon progress (Moment 5 (Some 0)) H).
Defined.

Lemma epochs_idempotent_witness :
  let d := Deadline_new noon None in
  sealed d = false /\ 0 <= 3 /\ budget (apply_epochs d 7 120 3) = plus_us noon 360.
Proof.
  intros d. split; [reflexivity|]. split; [lia|].
  destruct (epochs_idempotent d 1 7 120 3) as [_ H]. exact (proj1 (H eq_refl ltac:(lia))).
Defined.

Fixpoint idle (n : nat) : list (string * option Z * string) :=
  match n with O => [] | S n => ("", None, "") :: idle n end.

Lemma cliff_ends_attempt_witness :
  exists w', stalled fresh (idle 25) w' /\ 0 <= steps fresh
  /\ cliff (thresholds fresh) <= py_len (idle 25) /\ cause w' noon <> "".
Proof.
  eexists. assert (H : stalled fresh (idle 25) (foldl (fun w e => (observed w e.1.1 e.1.2 e.2).1) fresh (idle 25))).
  { cbn [idle]. repeat (apply stalled_cons; [vm_compute; reflexivity|]). apply stalled_nil. }
  split; [exact H|]. split; [vm_compute; congruence|]. split; [vm_compute; congruence|].
  apply (cliff_ends_attempt fresh (idle 25)); [exact H|vm_compute; congruence..].
Defined.

Definition once : Watch := (observed fresh "cat a" (Some 0) "y").1.

Lemma repetition_cut_witness :
  replayable "cat a" = true /\ dict_get (normalise "cat a") (candidates once) = None
  /\ dict_get (normalise "cat a") (answered once) = Some (Some 0, "y")
  /\ repeats (thresholds once) <= 1 /\ Forall (fun kv => 0 <= kv.2) (repeated_ once)
  /\ cause (observed once "cat a" (Some 0) "y").1 noon = CUT_REPETITION.
Proof.
  assert (H1 : replayable "cat a" = true) by (vm_compute; reflexivity).
  assert (H2 : dict_get (normalise "cat a") (candidates once) = None) by (vm_compute; reflexivity).
  assert (H3 : dict_get (normalise "cat a") (answered once) = Some (Some 0, "y")) by (vm_compute; reflexivity).
  assert (H4 : repeats (thresholds once) <= 1) by (vm_compute; congruence).
  assert (H5 : Forall (fun kv => 0 <= kv.2) (repeated_ once)) by (vm_compute; constructor).
  split; [exact H1|]. split; [exact H2|]. split; [exact H3|]. split; [exact H4|]. split; [exact H5|].
  exact (repetition_cut once "cat a" (Some 0) "y" noon H1 H2 H3 H4 H5).
Defined.

Lemma breaker_trips_on_barren_witness :
  barren default_breaker = []
  /\ (closed (breaker_run default_breaker [("a", 0); ("b", 4); ("a", 0); ("b", 0)]) "a" 0).2 = CRASHED.
Proof.
  split; [reflexivity|].
  rewrite (breaker_trips_on_barren default_breaker [("a", 0); ("b", 4); ("a", 0); ("b", 0)] "a" 0 eq_refl).
  vm_compute. reflexivity.
Defined.

Definition two_barren : Breaker := breaker_run default_breaker [("a", 0); ("b", 0)].

Lemma backoff_follows_streak_witness :
  0 <= base_seconds two_barren /\ 0 <= cap_seconds two_barren /\ backoff two_barren = Ok 30
  /\ 0 <= 30 <= cap_seconds two_barren /\ backoff (closed two_barren "a" 0).1 = Ok 60.
Proof.
  assert (H1 : 0 <= base_seconds two_barren) by (vm_compute; congruence).
  assert (H2 : 0 <= cap_seconds two_barren) by (vm_compute; congruence).
  assert (H3 : backoff two_barren = Ok 30) by (vm_compute; reflexivity).
  split; [exact H1|]. split; [exact H2|]. split; [exact H3|].
  split; [exact (proj1 (backoff_follows_streak two_barren "a" 0 30 H1 H2 H3))|vm_compute; reflexivity].
Defined.

(** A Solver that stays broken for 1026 Attempts has no backoff any more: the call raises. *)
Lemma backoff_overflows :
  let closes := mjoin (replicate 513 [("a", 0); ("b", 0)]) in
  backoff (breaker_run default_breaker closes) = Err (OverflowError "int too large to convert to float").
Proof. vm_compute. reflexivity. Qed.
