(* ===== verification/Redaction.v ===== *)
(** Taking known credentials out of an Observation.

    [src/solver/redaction.py].  Bodies and secrets are byte strings (a [str] is its UTF-8
    encoding); [_forms] is a set in the code and a list here, in the order it is written,
    so only the order of equally long forms is fixed that the code leaves open. *)

From Stdlib Require Import Ascii.
From S2P Require Import Prelude Canon Text.
Local Open Scope Z_scope.

(** ** The spellings of a secret *)

Definition MIN_ENCODED_FRAGMENT : Z := 8.

(** [_SHARED_WITH_WHAT_CAME_BEFORE]. *)
Definition shared_with_what_came_before (offset : nat) : nat :=
  match offset with O => 0 | 1%nat => 2 | _ => 3 end.

Definition STANDARD : string := "ABCDEFGHIJKLMNOPQRSTUVWXYZabcdefghijklmnopqrstuvwxyz0123456789+/".
Definition URLSAFE : string := "ABCDEFGHIJKLMNOPQRSTUVWXYZabcdefghijklmnopqrstuvwxyz0123456789-_".

Definition letter (alphabet : string) (i : Z) : ascii :=
  nth (Z.to_nat i) (chars alphabet) "="%char.

(** [b64encode(raw).rstrip(b"=")]. *)
Fixpoint b64 (alphabet : string) (bs : list Z) : list ascii :=
  let l := letter alphabet in
  match bs with
  | [] => []
  | [a] => [l (a / 4); l (a mod 4 * 16)]
  | [a; b] => [l (a / 4); l (a mod 4 * 16 + b / 16); l (b mod 16 * 4)]
  | a :: b :: c :: r => l (a / 4) :: l (a mod 4 * 16 + b / 16) :: l (b mod 16 * 4 + c / 64) :: l (c mod 64) :: b64 alphabet r
  end.

Definition base64_fragment (alphabet : string) (offset : nat) (raw : list ascii) : list ascii :=
  let encoded := b64 alphabet (replicate offset 0 ++ (code <$> raw)) in
  let tail := (length encoded - if ((offset + length raw) mod 3 =? 0)%nat then 0 else 1)%nat in
  drop (shared_with_what_came_before offset) (take tail encoded).

Definition base64_forms (raw : list ascii) : list (list ascii) :=
  List.filter (fun fragment => MIN_ENCODED_FRAGMENT <=? py_len fragment)
    ([STANDARD; URLSAFE] ≫= fun alphabet => (fun offset => base64_fragment alphabet offset raw) <$> seq 0 3).

Definition upper_hex (n : Z) : ascii := upper_char (hex_digit n).

(** [urllib.parse.quote(value, safe="")], with [plus] for [quote_plus]. *)
Definition quote_char (plus : bool) (c : ascii) : list ascii :=
  if is_letter c || is_digit c || is_code 95 c || is_code 46 c || is_code 45 c || is_code 126 c then [c]
  else if plus && is_code 32 c then ["+"%char]
  else ["%"%char; upper_hex (code c / 16); upper_hex (code c mod 16)].

Definition quote_bytes (plus : bool) (raw : list ascii) : list ascii := raw ≫= quote_char plus.

Definition forms_of (value : string) : list (list ascii) :=
  let raw := chars value in
  remove_dups ([raw; quote_bytes false raw; quote_bytes true raw] ++ base64_forms raw).

(** ** The redactor *)

(** Its forms, longest first, each with the name of its variable. *)
Definition Redactor : Type := list (list ascii * string).

(** A blank value is no secret. *)
Definition declared_secret (secret : string * string) : bool := negb (bool_decide (strip secret.2 = "")).

Definition Redactor_new (secrets : list (string * string)) : Redactor :=
  sort_by (fun pair => - py_len pair.1)
    (foldl (fun d pair => dict_set pair.1 pair.2 d) []
       (List.filter declared_secret secrets ≫= fun nv => (fun form => (form, nv.1)) <$> forms_of nv.2)).

Definition marker (name : string) : list ascii := chars ("[redacted:" +:+ name +:+ "]").

Fixpoint is_prefix (f l : list ascii) : bool :=
  match f, l with
  | [], _ => true
  | a :: f, b :: l => bool_decide (a = b) && is_prefix f l
  | _ :: _, [] => false
  end.

(** [body.split(form)] for a form that is not empty: the pieces between its occurrences,
    found from the left; [skip] characters of an occurrence are still to be passed. *)
Fixpoint split_on (form : list ascii) (skip : nat) (piece l : list ascii) : list (list ascii) :=
  match l with
  | [] => [rev piece]
  | c :: r =>
      match skip with
      | S n => split_on form n piece r
      | O => if is_prefix form l then rev piece :: split_on form (length form - 1) [] r
             else split_on form 0 (c :: piece) r
      end
  end.

(** [body.replace(form, m)], which is [m.join(body.split(form))]. *)
Definition replace (form m body : list ascii) : list ascii := join_chars m (split_on form 0 [] body).

(** Replacing a form that does not occur changes nothing, so [if form in redacted] needs no
    case of its own. *)
Definition redact_bytes (r : Redactor) (body : list ascii) : list ascii :=
  foldl (fun redacted fn => replace fn.1 (marker fn.2) redacted) body r.

Definition redact (r : Redactor) (body : string) : string := text (redact_bytes r (chars body)).

Example redact_basic_auth :
  redact (Redactor_new [("BOARD_TOKEN", "ctfd_3f9a"); ("EMPTY", " ")]) "Basic dXNlcjpjdGZkXzNmOWE=; ctfd_3f9a"
  = "Basic dXNlcjp[redacted:BOARD_TOKEN]E=; [redacted:BOARD_TOKEN]".
Proof. vm_compute. reflexivity. Qed.
