(* ===== verification/RedactionFacts.v ===== *)
(** Redaction is complete: no spelling of a declared secret survives it. *)

From Stdlib Require Import Ascii.
From S2P Require Import Prelude Canon Text Redaction.
Local Open Scope Z_scope.

(** ** Occurrences *)

Definition occurs {A} (f l : list A) : Prop := exists a b, l = a ++ f ++ b.

Lemma is_prefix_spec f l : is_prefix f l = true <-> exists b, l = f ++ b.
Proof.
  revert l. induction f as [|a f IH]; intros l; cbn; [split; eauto|].
  destruct l as [|b l]; [split; [done|by intros []]|].
  rewrite andb_true_iff, bool_decide_eq_true, IH. split; [intros [-> [r ->]]; eauto|].
  intros [r [= -> ->]]. eauto.
Qed.

Lemma occurs_app_l {A} (f l k : list A) : occurs f l -> occurs f (l ++ k).
Proof. intros (a & b & ->). exists a, (b ++ k). by rewrite !app_assoc. Qed.

Lemma occurs_app_r {A} (f l k : list A) : occurs f k -> occurs f (l ++ k).
Proof. intros (a & b & ->). exists (l ++ a), b. by rewrite !app_assoc. Qed.

Lemma occurs_trans {A} (f g l : list A) : occurs f g -> occurs g l -> occurs f l.
Proof. intros (a & b & ->) (c & d & ->). exists (c ++ a), (b ++ d). by rewrite !app_assoc. Qed.

(** What avoids a character cannot straddle it. *)
Lemma occurs_split {A} (f l k : list A) c :
  c ∉ f -> occurs f (l ++ c :: k) -> occurs f l \/ occurs f k.
Proof.
  intros Hc (a & b & H). apply app_eq_inv in H as [(m & -> & H)|(m & -> & H)].
  - symmetry in H. apply app_eq_inv in H as [(n & -> & H)|(n & -> & H)].
    + left. exists a, n. by rewrite !app_assoc.
    + destruct n as [|x n]; [rewrite app_nil_r; left; exists a, []; by rewrite app_nil_r|].
      injection H as <- _. set_solver.
  - destruct m as [|x m].
    + cbn in H. destruct f as [|y f]; [left; exists [], l; done|]. injection H as <- _. set_solver.
    + injection H as _ ->. right. by exists m, b.
Qed.

(** ** Replacing *)

(** No occurrence of the form starts inside the piece scanned so far. *)
Definition scanned (form piece l : list ascii) : Prop :=
  forall i, (i < length piece)%nat -> is_prefix form (drop i (rev piece ++ l)) = false.

Lemma scanned_clean form piece l : form <> [] -> scanned form piece l -> ~ occurs form (rev piece).
Proof.
  intros Hf Hs (a & b & H).
  assert (Hlen : (length a < length piece)%nat).
  { rewrite <-(length_rev piece), H, !length_app. destruct form; [done|]. cbn. lia. }
  specialize (Hs (length a) Hlen). rewrite H, <-app_assoc, drop_app_length in Hs.
  rewrite (proj2 (is_prefix_spec form ((form ++ b) ++ l))) in Hs; [done|].
  exists (b ++ l). by rewrite app_assoc.
Qed.

Lemma split_on_clean form l : forall skip piece p,
  form <> [] -> scanned form piece l -> (skip = 0%nat \/ piece = []) ->
  p ∈ split_on form skip piece l -> ~ occurs form p.
Proof.
  induction l as [|c l IH]; intros skip piece p Hf Hs Hk Hp; cbn [split_on] in Hp.
  { apply list_elem_of_singleton in Hp as ->. by eapply scanned_clean. }
  assert (Hnil : scanned form [] l) by (intros i Hi; cbn in Hi; lia).
  destruct skip as [|n]; [|destruct Hk as [?| ->]; [done|]; eapply (IH n []); eauto].
  destruct (is_prefix form (c :: l)) eqn:E.
  - apply elem_of_cons in Hp as [->|Hp]; [by eapply scanned_clean|].
    eapply (IH (length form - 1)%nat []); eauto.
  - eapply (IH 0%nat (c :: piece)); [done| |by left|exact Hp]. intros i Hi. cbn [rev].
    rewrite <-app_assoc. cbn [app]. destruct (decide (i < length piece)%nat); [by apply Hs|].
    cbn in Hi. replace i with (length (rev piece)) by (rewrite length_rev; lia). by rewrite drop_app_length.
Qed.

Lemma split_on_occurs form l : forall skip piece p,
  (skip = 0%nat \/ piece = []) -> p ∈ split_on form skip piece l -> occurs p (rev piece ++ l).
Proof.
  induction l as [|c l IH]; intros skip piece p Hk Hp; cbn [split_on] in Hp.
  { apply list_elem_of_singleton in Hp as ->. exists [], []. by rewrite !app_nil_r. }
  destruct skip as [|n].
  - destruct (is_prefix form (c :: l)).
    + apply elem_of_cons in Hp as [->|Hp]; [exists [], (c :: l); done|].
      apply occurs_app_r. apply (occurs_app_r p [c]). apply (IH (length form - 1)%nat [] p); auto.
    + specialize (IH 0%nat (c :: piece) p (or_introl eq_refl) Hp). cbn [rev] in IH. by rewrite <-app_assoc in IH.
  - destruct Hk as [?| ->]; [done|]. apply (occurs_app_r p [c]). apply (IH n [] p); auto.
Qed.

(** Markers separate the pieces: what avoids the brackets of a marker and does not occur in
    its text occurs in the result only inside a piece. *)
Lemma join_occurs f inner ps :
  "["%char ∉ f -> "]"%char ∉ f -> f <> [] -> ~ occurs f inner ->
  Forall (fun p => ~ occurs f p) ps -> ~ occurs f (join_chars ("["%char :: inner ++ ["]"%char]) ps).
Proof.
  intros Hl Hr Hf Hin. induction 1 as [|p ps Hp Hps IH]; [intros (a & b & H); by destruct a, f|].
  destruct ps as [|q ps]; [done|]. cbn [join_chars].
  set (rest := join_chars _ (q :: ps)) in *. cbn [app]. rewrite <-app_assoc. cbn [app].
  intros [H|[H|H]%occurs_split]%occurs_split; auto.
Qed.

Lemma marker_shape name : marker name = "["%char :: chars ("redacted:" +:+ name) ++ ["]"%char].
Proof.
  unfold marker. change ("[redacted:" +:+ name +:+ "]") with (String "[" ("redacted:" +:+ name +:+ "]")).
  unfold chars. cbn [String.list_ascii_of_string]. f_equal.
  change ("redacted:" +:+ name +:+ "]") with (("redacted:" +:+ name) +:+ "]").
  generalize ("redacted:" +:+ name) as s. induction s as [|c s IH]; [done|]. cbn. by rewrite <-IH.
Qed.

(** A spelling the markers do not contain. *)
Definition unlike (f : list ascii) (names : list string) : Prop :=
  f <> [] /\ ("["%char ∉ f) /\ ("]"%char ∉ f)
  /\ forall name, name ∈ names -> ~ occurs f (chars ("redacted:" +:+ name)).

Lemma replace_removes f names name body :
  unlike f names -> name ∈ names -> ~ occurs f (replace f (marker name) body).
Proof.
  intros (Hf & Hl & Hr & Hn) Hin. unfold replace. rewrite marker_shape. apply join_occurs; auto.
  apply Forall_forall. intros p. apply (split_on_clean f body 0 []); auto. intros i Hi. cbn in Hi. lia.
Qed.

Lemma replace_keeps f g names name body :
  unlike f names -> name ∈ names -> ~ occurs f body -> ~ occurs f (replace g (marker name) body).
Proof.
  intros (Hf & Hl & Hr & Hn) Hin Hb. unfold replace. rewrite marker_shape. apply join_occurs; auto.
  apply Forall_forall. intros p Hp Hocc. apply Hb. eapply occurs_trans; [exact Hocc|].
  apply (split_on_occurs g body 0 [] p); auto.
Qed.

Lemma redact_keeps f names r body :
  unlike f names -> Forall (fun fn => fn.2 ∈ names) r -> ~ occurs f body -> ~ occurs f (redact_bytes r body).
Proof.
  intros Hu Hr. revert body. unfold redact_bytes. induction Hr as [|[g n] r Hn _ IH]; intros body Hb; cbn; [done|].
  apply IH. by eapply replace_keeps.
Qed.

Lemma redact_removes f name names r body :
  unlike f names -> Forall (fun fn => fn.2 ∈ names) r -> (f, name) ∈ r -> ~ occurs f (redact_bytes r body).
Proof.
  intros Hu Hr (r1 & r2 & ->)%list_elem_of_split. apply Forall_app in Hr as [Hr1 Hr2].
  apply Forall_cons in Hr2 as [Hn Hr2]. unfold redact_bytes. rewrite foldl_app. cbn [foldl fst snd].
  eapply redact_keeps; [done|done|]. by eapply replace_removes.
Qed.

(** ** The forms of a redactor *)

Lemma dict_fold_keys {K V} `{EqDecision K} (l : list (K * V)) : forall d k,
  k ∈ d.*1 \/ k ∈ l.*1 -> k ∈ (foldl (fun d pair => dict_set pair.1 pair.2 d) d l).*1.
Proof.
  induction l as [|[k' v'] l IH]; intros d k Hk; cbn; [set_solver|].
  apply IH. cbn. rewrite dict_set_keys. case_bool_decide; set_solver.
Qed.

Lemma dict_fold_Forall {K V} `{EqDecision K} (P : K * V -> Prop) (l : list (K * V)) : forall d,
  Forall P d -> Forall P l -> Forall P (foldl (fun d pair => dict_set pair.1 pair.2 d) d l).
Proof.
  induction l as [|[k v] l IH]; intros d Hd Hl; cbn; [done|]. apply Forall_cons in Hl as [Hkv Hl].
  apply IH; [|done]. apply dict_set_Forall; [done|]. by intros ? ->.
Qed.

Lemma Redactor_forms secrets name value form :
  (name, value) ∈ secrets -> strip value <> "" -> form ∈ forms_of value ->
  exists n, (form, n) ∈ Redactor_new secrets.
Proof.
  intros Hin Hs Hf. unfold Redactor_new.
  match goal with |- context [sort_by ?k ?d] => pose proof (sort_by_perm k d) as Hperm;
    assert (Hk : form ∈ d.*1) end.
  { apply dict_fold_keys. right. apply list_elem_of_fmap. exists (form, name). split; [done|].
    apply list_elem_of_bind. exists (name, value). split; [apply list_elem_of_fmap; by exists form|].
    apply list_elem_of_In, filter_In. rewrite <-list_elem_of_In. split; [done|].
    unfold declared_secret. cbn. by rewrite bool_decide_false. }
  apply list_elem_of_fmap in Hk as ([f n] & -> & Hk). exists n. by rewrite Hperm.
Qed.

Lemma Redactor_names secrets : Forall (fun fn => fn.2 ∈ secrets.*1) (Redactor_new secrets).
Proof.
  unfold Redactor_new. rewrite (sort_by_perm (fun pair : list ascii * string => - py_len pair.1)).
  apply dict_fold_Forall; [constructor|]. apply Forall_forall. intros [f n].
  intros ([n' v] & ((f' & [= -> ->] & _)%list_elem_of_fmap & Hin))%list_elem_of_bind.
  apply list_elem_of_In, filter_In in Hin as [Hin _]. apply list_elem_of_In in Hin.
  apply list_elem_of_fmap. by exists (n', v).
Qed.

(** ** The spellings of a secret

    What a spelling is, from the encodings themselves: the value, its percent-encoding, and the
    characters of a base64 text that say nothing but the value - wherever in the encoded bytes the
    value stands and whatever stands around it. *)

Definition UNRESERVED : string := "ABCDEFGHIJKLMNOPQRSTUVWXYZabcdefghijklmnopqrstuvwxyz0123456789_.-~".
Definition HEX : string := "0123456789ABCDEF".

Inductive percent_char (plus : bool) (c : ascii) : list ascii -> Prop :=
  | percent_plain : c ∈ chars UNRESERVED -> percent_char plus c [c]
  | percent_space : plus = true -> c = " "%char -> percent_char plus c ["+"%char]
  | percent_escaped h l : c ∉ chars UNRESERVED -> ~ (plus = true /\ c = " "%char) ->
      chars HEX !! Z.to_nat (code c / 16) = Some h -> chars HEX !! Z.to_nat (code c mod 16) = Some l ->
      percent_char plus c ["%"%char; h; l].

Inductive percent (plus : bool) : list ascii -> list ascii -> Prop :=
  | percent_nil : percent plus [] []
  | percent_cons c e raw f : percent_char plus c e -> percent plus raw f -> percent plus (c :: raw) (e ++ f).

(** Bits [6 i] to [6 i + 5] of the bytes, which end in zeros. *)
Definition sextet (bs : list Z) (i : nat) : Z :=
  let byte k := default 0 (bs !! (3 * (i / 4) + k)%nat) in
  match (i mod 4)%nat with
  | 0%nat => byte 0%nat / 4
  | 1%nat => byte 0%nat mod 4 * 16 + byte 1%nat / 16
  | 2%nat => byte 1%nat mod 16 * 4 + byte 2%nat / 64
  | _ => byte 2%nat mod 64
  end.

(** Characters [lo] to [hi - 1] of the base64 text of some bytes. *)
Definition base64_span (alphabet : string) (bs : list Z) (lo hi : nat) : list ascii :=
  (fun i => nth (Z.to_nat (sextet bs i)) (chars alphabet) "="%char) <$> seq lo (hi - lo).

Definition base64_alphabets : list string :=
  ["ABCDEFGHIJKLMNOPQRSTUVWXYZabcdefghijklmnopqrstuvwxyz0123456789+/";
   "ABCDEFGHIJKLMNOPQRSTUVWXYZabcdefghijklmnopqrstuvwxyz0123456789-_"].

(** The first character whose bits all come after [n] bytes, and the first that has a bit after them. *)
Definition first_within (n : nat) : nat := ((8 * n + 5) / 6)%nat.
Definition first_beyond (n : nat) : nat := ((8 * n) / 6)%nat.

Inductive spelling (value : string) : list ascii -> Prop :=
  | spelled_raw : spelling value (chars value)
  | spelled_percent plus f : percent plus (chars value) f -> spelling value f
  | spelled_base64 alphabet before after f :
      alphabet ∈ base64_alphabets ->
      f = base64_span alphabet (before ++ (code <$> chars value) ++ after)
            (first_within (length before)) (first_beyond (length before + length (chars value))) ->
      (8 <= length f)%nat -> spelling value f.

Lemma quote_char_percent plus c : percent_char plus c (quote_char plus c).
Proof.
  destruct plus; destruct c as [[] [] [] [] [] [] [] []];
    first [by apply percent_plain; apply (bool_decide_unpack _); vm_compute
          |by apply percent_space
          |apply percent_escaped; [by apply (bool_decide_unpack _); vm_compute|by intros [? ?]|reflexivity|reflexivity]].
Qed.

Lemma percent_char_fun plus c e e' : percent_char plus c e -> percent_char plus c e' -> e = e'.
Proof.
  assert (Hsp : " "%char ∉ chars UNRESERVED) by (by apply (bool_decide_unpack _); vm_compute).
  intros [Hc|Hp ->|h l Hc Hn Hh Hl] [Hc'|Hp' Hs|h' l' Hc' Hn' Hh' Hl']; subst; try done; try (exfalso; tauto). congruence.
Qed.

Lemma percent_char_quote plus c e : percent_char plus c e -> e = quote_char plus c.
Proof. intros H. exact (percent_char_fun _ _ _ _ H (quote_char_percent plus c)). Qed.

Lemma percent_quote plus raw f : percent plus raw f <-> f = quote_bytes plus raw.
Proof.
  split.
  - induction 1 as [|c e raw f Hc _ IH]; [done|]. cbn. by rewrite (percent_char_quote _ _ _ Hc), IH.
  - intros ->. induction raw as [|c raw IH]; [constructor|]. cbn. constructor; [apply quote_char_percent|done].
Qed.

(** The encoder, character by character. *)
Lemma b64_sextets alphabet n : forall bs, (length bs <= n)%nat ->
  b64 alphabet bs = (fun i => letter alphabet (sextet bs i)) <$> seq 0 ((4 * length bs + 2) / 3).
Proof.
  induction n as [n IH] using lt_wf_ind. intros bs Hn. destruct bs as [|a [|b [|c bs]]]; [done| | |].
  - cbn. unfold sextet. cbn. rewrite Z.add_0_r. done.
  - cbn. unfold sextet. cbn. rewrite Z.add_0_r. done.
  - cbn [b64 length]. replace ((4 * S (S (S (length bs))) + 2) / 3)%nat with (4 + (4 * length bs + 2) / 3)%nat
      by (replace (4 * S (S (S (length bs))) + 2)%nat with (4 * length bs + 2 + 4 * 3)%nat by lia; rewrite Nat.div_add by lia; lia).
    rewrite seq_app, fmap_app. cbn [seq fmap list_fmap]. unfold sextet at 1 2 3 4. cbn -[seq]. do 4 f_equal.
    rewrite (IH (n - 3)%nat) by (cbn in Hn; lia). rewrite <-!(fmap_add_seq 4 0). rewrite <-list_fmap_compose.
    apply list_fmap_ext. intros i x _. cbn. f_equal. unfold sextet.
    replace (S (S (S (S x)))) with (x + 1 * 4)%nat by lia. rewrite Nat.div_add, Nat.Div0.mod_add by lia.
    replace (3 * (x / 4 + 1))%nat with (3 + 3 * (x / 4))%nat by lia. done.
Qed.

Section alignment.
Context (before raw after : list Z).
Let n := length before.
Let o := (n mod 3)%nat.
Let m := (n / 3)%nat.

Lemma byte_within j : (n <= j < n + length raw)%nat ->
  (before ++ raw ++ after) !! j = (replicate o 0 ++ raw) !! (j - 3 * m)%nat.
Proof.
  intros Hj. pose proof (Nat.div_mod_eq n 3) as Hn. pose proof (Nat.mod_upper_bound n 3 ltac:(lia)) as Ho.
  fold m o in Hn, Ho. rewrite lookup_app_r by (fold n; lia). rewrite lookup_app_l by (fold n; lia).
  rewrite (lookup_app_r (replicate o 0)) by (rewrite length_replicate; lia). rewrite length_replicate. f_equal. fold n. lia.
Qed.

Lemma sextet_within i : (first_within n <= i < first_beyond (n + length raw))%nat ->
  (4 * m <= i)%nat /\ sextet (before ++ raw ++ after) i = sextet (replicate o 0 ++ raw) (i - 4 * m).
Proof.
  unfold first_within, first_beyond. intros [Hlo Hhi].
  pose proof (Nat.div_mod_eq (8 * n + 5) 6). pose proof (Nat.mod_upper_bound (8 * n + 5) 6 ltac:(lia)).
  pose proof (Nat.div_mod_eq (8 * (n + length raw)) 6). pose proof (Nat.mod_upper_bound (8 * (n + length raw)) 6 ltac:(lia)).
  pose proof (Nat.div_mod_eq n 3) as Hn. pose proof (Nat.mod_upper_bound n 3 ltac:(lia)) as Ho. fold m o in Hn, Ho.
  assert (Hm : (4 * m <= i)%nat) by lia. split; [done|].
  pose proof (Nat.div_mod_eq i 4) as Hi. pose proof (Nat.mod_upper_bound i 4 ltac:(lia)) as Hr.
  unfold sextet. replace (i - 4 * m)%nat with (i mod 4 + (i / 4 - m) * 4)%nat by lia.
  rewrite Nat.Div0.mod_add, (Nat.div_add _ _ 4) by lia. rewrite (Nat.mod_small (i mod 4) 4), (Nat.div_small (i mod 4) 4) by lia.
  assert (Hb : forall k, (n <= 3 * (i / 4) + k < n + length raw)%nat ->
    (before ++ raw ++ after) !! (3 * (i / 4) + k)%nat = (replicate o 0 ++ raw) !! (3 * (0 + (i / 4 - m)) + k)%nat).
  { intros k Hk. rewrite byte_within by done. f_equal. lia. }
  destruct (i mod 4)%nat as [|[|[|[|]]]]; [..|lia]; rewrite !Hb by lia; done.
Qed.

Lemma span_aligned alphabet :
  base64_span alphabet (before ++ raw ++ after) (first_within n) (first_beyond (n + length raw))
  = base64_span alphabet (replicate o 0 ++ raw) (first_within o) (first_beyond (o + length raw)).
Proof.
  pose proof (Nat.div_mod_eq n 3) as Hn. pose proof (Nat.mod_upper_bound n 3 ltac:(lia)) as Ho. fold m o in Hn, Ho.
  assert (Hlo : first_within n = (4 * m + first_within o)%nat).
  { unfold first_within. replace (8 * n + 5)%nat with (8 * o + 5 + (4 * m) * 6)%nat by lia. rewrite Nat.div_add by lia. lia. }
  assert (Hhi : first_beyond (n + length raw) = (4 * m + first_beyond (o + length raw))%nat).
  { unfold first_beyond. replace (8 * (n + length raw))%nat with (8 * (o + length raw) + (4 * m) * 6)%nat by lia. rewrite Nat.div_add by lia. lia. }
  unfold base64_span. replace (first_beyond (n + length raw) - first_within n)%nat
    with (first_beyond (o + length raw) - first_within o)%nat by lia.
  rewrite Hlo, <-fmap_add_seq, <-list_fmap_compose. apply list_fmap_ext. intros j x Hx%lookup_seq. unfold compose. cbv beta.
  destruct (sextet_within (4 * m + x)) as [_ E]; [lia|]. rewrite E. do 3 f_equal. lia.
Qed.
End alignment.

(** A fragment is the span of the value after as many zero bytes. *)
Lemma fragment_span alphabet o raw : (o < 3)%nat ->
  base64_fragment alphabet o raw = base64_span alphabet (replicate o 0 ++ (code <$> raw)) (first_within o) (first_beyond (o + length raw)).
Proof.
  intros Ho. unfold base64_fragment, base64_span. set (bs := replicate o 0 ++ (code <$> raw)).
  assert (Hl : length bs = (o + length raw)%nat) by (unfold bs; by rewrite length_app, length_replicate, length_fmap).
  rewrite (b64_sextets alphabet (length bs) bs) by lia. rewrite length_fmap, length_seq, Hl.
  assert (Hh : shared_with_what_came_before o = first_within o) by (destruct o as [|[|[|]]]; [done..|lia]).
  set (N := (o + length raw)%nat) in *.
  assert (Ht : ((4 * N + 2) / 3 - (if (N mod 3 =? 0)%nat then 0 else 1))%nat = first_beyond N).
  { unfold first_beyond. pose proof (Nat.div_mod_eq N 3). pose proof (Nat.mod_upper_bound N 3 ltac:(lia)).
    pose proof (Nat.div_mod_eq (4 * N + 2) 3). pose proof (Nat.mod_upper_bound (4 * N + 2) 3 ltac:(lia)).
    pose proof (Nat.div_mod_eq (8 * N) 6). pose proof (Nat.mod_upper_bound (8 * N) 6 ltac:(lia)).
    destruct (Nat.eqb_spec (N mod 3) 0); lia. }
  rewrite Hh, Ht. rewrite <-fmap_take, <-fmap_drop. f_equal.
  apply list_eq. intros i. rewrite lookup_drop.
  assert (Hle : (first_beyond N <= (4 * N + 2) / 3)%nat) by lia.
  destruct (decide (first_within o + i < first_beyond N)%nat).
  - rewrite lookup_take_lt by lia. rewrite !lookup_seq_lt by lia. done.
  - rewrite lookup_take_ge by lia. symmetry. apply lookup_seq_ge. lia.
Qed.

Lemma base64_forms_elem raw f :
  f ∈ base64_forms raw <-> exists alphabet o, alphabet ∈ base64_alphabets /\ (o < 3)%nat /\ f = base64_fragment alphabet o raw /\ (8 <= length f)%nat.
Proof.
  unfold base64_forms. rewrite list_elem_of_In, List.filter_In, <-list_elem_of_In, list_elem_of_bind.
  change [STANDARD; URLSAFE] with base64_alphabets. split.
  - intros [(alphabet & (o & -> & Ho%elem_of_seq)%list_elem_of_fmap & Ha) Hlen%Z.leb_le]. exists alphabet, o.
    unfold MIN_ENCODED_FRAGMENT, py_len in Hlen. split; [done|]. split; [lia|]. split; [done|lia].
  - intros (alphabet & o & Ha & Ho & -> & Hlen). split; [|unfold MIN_ENCODED_FRAGMENT, py_len; lia].
    exists alphabet. split; [|done]. apply list_elem_of_fmap. exists o. split; [done|]. apply elem_of_seq. lia.
Qed.

(** The code's forms are exactly the spellings. *)
Lemma forms_spellings value f : f ∈ forms_of value <-> spelling value f.
Proof.
  unfold forms_of. rewrite elem_of_remove_dups, elem_of_app, base64_forms_elem. split.
  - rewrite !elem_of_cons, elem_of_nil. intros [[->|[->|[->|[]]]]|(alphabet & o & Ha & Ho & -> & Hlen)].
    + apply spelled_raw.
    + by apply (spelled_percent _ false), percent_quote.
    + by apply (spelled_percent _ true), percent_quote.
    + apply (spelled_base64 _ alphabet (replicate o 0) []); [done| |done].
      rewrite app_nil_r, length_replicate. by apply fragment_span.
  - intros [|plus f' Hp%percent_quote|alphabet before after f' Ha -> Hlen].
    + left. apply elem_of_cons. by left.
    + left. rewrite Hp, !elem_of_cons. destruct plus; auto.
    + right. exists alphabet, (length before mod 3)%nat. split; [done|].
      assert (Ho : (length before mod 3 < 3)%nat) by (apply Nat.mod_upper_bound; lia). split; [done|]. split; [|done].
      rewrite fragment_span by done. pose proof (span_aligned before (code <$> chars value) after alphabet) as Hs.
      rewrite !length_fmap in Hs. exact Hs.
Qed.

(** ** Whole spellings *)

Lemma split_on_absent form l : forall piece, (forall i, is_prefix form (drop i l) = true -> drop i l = []) -> split_on form 0 piece l = [rev piece ++ l].
Proof.
  induction l as [|c l IH]; intros piece Hn; cbn [split_on]; [by rewrite app_nil_r|].
  destruct (is_prefix form (c :: l)) eqn:E; [by specialize (Hn 0%nat E)|].
  rewrite IH; [cbn [rev]; by rewrite <-app_assoc|]. intros i. exact (Hn (S i)).
Qed.

Lemma replace_absent form m body : form <> [] -> ~ occurs form body -> replace form m body = body.
Proof.
  intros Hf Hn. unfold replace. rewrite split_on_absent; [done|]. intros i (b & Hb)%is_prefix_spec. exfalso. apply Hn.
  exists (take i body), b. by rewrite <-Hb, take_drop.
Qed.

Lemma replace_self form m : form <> [] -> replace form m form = m.
Proof.
  intros Hf. unfold replace. destruct form as [|c r]; [done|]. cbn [split_on].
  rewrite (proj2 (is_prefix_spec (c :: r) (c :: r))) by (exists []; by rewrite app_nil_r).
  assert (Hs : forall n p l, (length l <= n)%nat -> split_on p n [] l = [[]]).
  { intros n p l. revert n. induction l as [|x l IH]; intros [|n] Hle; cbn in *; [done..|lia|]. apply IH. lia. }
  rewrite Hs by (cbn; lia). cbn. by rewrite app_nil_r.
Qed.

Lemma occurs_longer {A} (f l : list A) : occurs f l -> (length l <= length f)%nat -> f = l.
Proof.
  intros (a & b & ->). rewrite !length_app. intros Hl. destruct a, b; cbn in *; try lia. by rewrite app_nil_r.
Qed.

Lemma marker_free h names name : unlike h names -> name ∈ names -> ~ occurs h (marker name).
Proof.
  intros (Hf & Hl & Hr & Hn) Hin. rewrite marker_shape. intros Ho.
  apply (occurs_split h [] _ "["%char Hl) in Ho as [(a & b & E)|Ho]; [by destruct a, h|].
  apply (occurs_split h _ [] "]"%char Hr) in Ho as [Ho|(a & b & E)]; [by apply (Hn name)|by destruct a, h].
Qed.

(** Longest first: a form meets its turn whole, and what replaces it is left alone. *)
Lemma redact_whole names (r1 r2 : Redactor) f n :
  n ∈ names -> Forall (fun fn => unlike fn.1 names) (r1 ++ (f, n) :: r2) ->
  Forall (fun fn => (length f <= length fn.1)%nat /\ fn.1 <> f) r1 ->
  redact_bytes (r1 ++ (f, n) :: r2) f = marker n.
Proof.
  intros Hn Hu H1. apply Forall_app in Hu as [Hu1 Hu2]. apply Forall_cons in Hu2 as [Huf Hu2]. unfold redact_bytes. rewrite foldl_app.
  assert (E : foldl (fun redacted fn => replace fn.1 (marker fn.2) redacted) f r1 = f).
  { clear Hu2. induction r1 as [|[g k] r1 IH]; [done|]. apply Forall_cons in H1 as [[Hlen Hne] H1], Hu1 as [Hg Hu1]. cbn in *.
    rewrite replace_absent; [by apply IH|apply Hg|]. intros Ho. apply Hne. by apply occurs_longer. }
  rewrite E. cbn [foldl fst snd]. rewrite replace_self by apply Huf. clear E H1.
  induction Hu2 as [|[g k] r2 Hg _ IH]; cbn; [done|]. rewrite replace_absent; [done|apply Hg|]. by eapply marker_free.
Qed.

Lemma Redactor_keys secrets : NoDup (Redactor_new secrets).*1.
Proof.
  unfold Redactor_new. rewrite (sort_by_perm (fun pair : list ascii * string => - py_len pair.1)).
  generalize (List.filter declared_secret secrets ≫= fun nv => (fun form => (form, nv.1)) <$> forms_of nv.2). intros l.
  assert (Hd : forall d, NoDup d.*1 -> NoDup (foldl (fun d (pair : list ascii * string) => dict_set pair.1 pair.2 d) d l).*1).
  { induction l as [|[k v] l IH]; intros d Hnd; cbn; [done|]. apply IH. by apply dict_set_NoDup. }
  apply Hd. constructor.
Qed.

Lemma Redactor_spellings secrets :
  Forall (fun fn => exists name value, (name, value) ∈ secrets /\ strip value <> "" /\ spelling value fn.1) (Redactor_new secrets).
Proof.
  unfold Redactor_new. rewrite (sort_by_perm (fun pair : list ascii * string => - py_len pair.1)).
  apply dict_fold_Forall; [constructor|]. apply Forall_forall. intros [f n].
  intros ([n' v] & ((f' & [= -> ->] & Hf)%list_elem_of_fmap & Hin))%list_elem_of_bind. cbn [fst snd] in *.
  apply list_elem_of_In, filter_In in Hin as [Hin Hs]. apply list_elem_of_In in Hin. unfold declared_secret in Hs. cbn [fst snd] in Hs.
  exists n', v. split; [done|]. split; [by bool_to_prop|]. apply forms_spellings. exact Hf.
Qed.

Lemma Redactor_sorted secrets r1 r2 f n :
  Redactor_new secrets = r1 ++ (f, n) :: r2 -> Forall (fun fn => (length f <= length fn.1)%nat /\ fn.1 <> f) r1.
Proof.
  intros E. apply Forall_forall. intros [g k] Hg. cbn [fst]. split.
  - pose proof (sort_by_sorted (fun pair : list ascii * string => - py_len pair.1)
      (foldl (fun d pair => dict_set pair.1 pair.2 d) [] (List.filter declared_secret secrets ≫= fun nv => (fun form => (form, nv.1)) <$> forms_of nv.2))) as Hs.
    change (sort_by _ _) with (Redactor_new secrets) in Hs. rewrite E in Hs. apply list_elem_of_split in Hg as (a & b & ->).
    rewrite <-app_assoc in Hs. clear E. induction a as [|x a IH]; cbn [app] in Hs; apply StronglySorted_inv in Hs as [Hs Hall]; [|by apply IH].
    rewrite Forall_forall in Hall. specialize (Hall (f, n)). rewrite elem_of_app, elem_of_cons in Hall. specialize (Hall ltac:(auto)).
    unfold key_le, cmp_leb in Hall. cbn [fst] in Hall. unfold py_len in Hall. change (match - Z.of_nat (length g) ?= - Z.of_nat (length f) with Gt => false | _ => true end = true) in Hall.
    destruct (Z.compare_spec (- Z.of_nat (length g)) (- Z.of_nat (length f))); [lia|lia|done].
  - intros ->. pose proof (Redactor_keys secrets) as Hnd. rewrite E, fmap_app in Hnd. apply NoDup_app in Hnd as (_ & Hnd & _).
    apply (Hnd f); [apply list_elem_of_fmap; by exists (f, k)|]. left.
Qed.

(** C39. Redaction is complete: whatever a body holds, no spelling of a declared secret is left in it -
    the value itself, its percent-encoding, or the characters a base64 text around it, in either
    alphabet and at any alignment, devotes to the value alone if they are eight or more - for every
    spelling free of the marker's brackets and not itself part of a marker's text.  And if that holds
    of all the spellings declared, one that stands alone becomes one marker whole, so no part of a
    longer one stays behind after a shorter one. *)
Theorem redact_complete secrets name value form body :
  (name, value) ∈ secrets -> strip value <> "" -> spelling value form -> unlike form secrets.*1 ->
  ~ occurs form (redact_bytes (Redactor_new secrets) (chars body))
  /\ ((forall n v f, (n, v) ∈ secrets -> strip v <> "" -> spelling v f -> unlike f secrets.*1) ->
      exists n, n ∈ secrets.*1 /\ redact_bytes (Redactor_new secrets) form = marker n).
Proof.
  intros Hin Hs Hf%forms_spellings Hu. destruct (Redactor_forms secrets name value form Hin Hs Hf) as [n Hn].
  split; [eapply redact_removes; [done|apply Redactor_names|done]|]. intros Hall.
  pose proof (Redactor_names secrets) as Hnames. pose proof (Redactor_spellings secrets) as Hsp.
  assert (Hunl : Forall (fun fn => unlike fn.1 secrets.*1) (Redactor_new secrets)).
  { eapply Forall_impl; [exact Hsp|]. intros fn (n' & v & Hv & Hv' & Hv''). by eapply Hall. }
  rewrite Forall_forall in Hnames. specialize (Hnames _ Hn). exists n. split; [done|].
  apply list_elem_of_split in Hn as (r1 & r2 & E). rewrite E in Hunl |- *. apply (redact_whole secrets.*1); [done..|]. by eapply Redactor_sorted.
Qed.

(** The token of the example, in the spelling a Basic-auth header gives it after its user name. *)
Lemma redact_complete_witness :
  let secrets := [("BOARD_TOKEN", "ctfd_3f9a")] in
  ("BOARD_TOKEN", "ctfd_3f9a") ∈ secrets /\ strip "ctfd_3f9a" <> ""
  /\ spelling "ctfd_3f9a" (chars "jdGZkXzNmOW") /\ unlike (chars "jdGZkXzNmOW") secrets.*1
  /\ ~ occurs (chars "jdGZkXzNmOW") (redact_bytes (Redactor_new secrets) (chars "Basic dXNlcjpjdGZkXzNmOWE=")).
Proof.
  intros secrets.
  assert (H1 : ("BOARD_TOKEN", "ctfd_3f9a") ∈ secrets) by (apply list_elem_of_singleton; reflexivity).
  assert (H2 : strip "ctfd_3f9a" <> "") by (vm_compute; discriminate).
  assert (H3 : spelling "ctfd_3f9a" (chars "jdGZkXzNmOW")).
  { apply (spelled_base64 _ STANDARD (code <$> chars "user:") []); [left|vm_compute; reflexivity|cbn; lia]. }
  assert (H4 : unlike (chars "jdGZkXzNmOW") secrets.*1).
  { split; [discriminate|].
    split; [apply (bool_decide_eq_true (_ ∉ _)); vm_compute; reflexivity|].
    split; [apply (bool_decide_eq_true (_ ∉ _)); vm_compute; reflexivity|].
    intros name Hn. apply list_elem_of_singleton in Hn as ->. intros (a & b & H).
    assert (Hin : "j"%char ∈ chars ("redacted:" +:+ "BOARD_TOKEN")).
    { cbn [fst] in H. rewrite H. apply elem_of_app. right. apply elem_of_app. left. apply list_elem_of_here. }
    apply (bool_decide_eq_true (_ ∈ _)) in Hin. vm_compute in Hin. discriminate. }
  split; [exact H1|]. split; [exact H2|]. split; [exact H3|]. split; [exact H4|].
  exact (proj1 (redact_complete secrets "BOARD_TOKEN" "ctfd_3f9a" (chars "jdGZkXzNmOW") "Basic dXNlcjpjdGZkXzNmOWE=" H1 H2 H3 H4)).
Defined.

(** The floor of eight characters is needed: the base64 text of a short secret stays. *)
Example short_secret_survives : redact (Redactor_new [("T", "abcde")]) "YWJjZGU=" = "YWJjZGU=".
Proof. vm_compute. reflexivity. Qed.

(** The bracket condition is needed: a marker can complete a secret that has brackets. *)
Example bracketed_secret_survives :
  redact (Redactor_new [("T", "]a[")]) "]]a[a[" = "][redacted:T]a[".
Proof. vm_compute. reflexivity. Qed.

(** ** Text that redaction leaves alone *)

Lemma split_on_nonempty form l : forall skip piece, split_on form skip piece l <> [].
Proof.
  induction l as [|c l IH]; intros skip piece; cbn; [done|].
  destruct skip; [destruct (is_prefix form (c :: l)); [done|]|]; apply IH.
Qed.

Lemma split_on_single form l : forall piece p, split_on form 0 piece l = [p] -> p = rev piece ++ l.
Proof.
  induction l as [|c l IH]; intros piece p H; cbn [split_on] in H.
  - injection H as <-. by rewrite app_nil_r.
  - destruct (is_prefix form (c :: l)).
    + injection H as _ H. by apply split_on_nonempty in H.
    + apply IH in H. cbn [rev] in H. by rewrite <-app_assoc in H.
Qed.

Lemma replace_fixed form name body :
  "["%char ∉ replace form (marker name) body -> replace form (marker name) body = body.
Proof.
  unfold replace. intros H. destruct (split_on form 0 [] body) as [|p [|q ps]] eqn:E.
  - by apply split_on_nonempty in E.
  - by apply split_on_single in E.
  - exfalso. apply H. cbn [join_chars]. apply elem_of_app. right. rewrite marker_shape. apply list_elem_of_here.
Qed.

(** A result without a bracket was not touched. *)
Lemma redact_fixed r body : "["%char ∉ redact_bytes r body -> redact_bytes r body = body.
Proof.
  unfold redact_bytes. induction r as [|[f n] r IH] using rev_ind; [done|].
  rewrite foldl_snoc. cbn [fst snd]. intros H. pose proof (replace_fixed _ _ _ H) as Heq.
  rewrite Heq in H |- *. by apply IH.
Qed.
