(* ===== verification/PyJson.v ===== *)
(** What Python does with values read from JSON: equality, truth, [isinstance], [str].

    A dict is its items in insertion order; the code never observes that order, so two
    dicts are equal when their items are, and [True == 1] as in Python.  [float]s are not
    represented. *)

From Stdlib Require Import Ascii.
From S2P Require Import Prelude Canon Text.
Local Open Scope Z_scope.

Definition fields : Type := list (string * json).

(** A representative of each class of equal values. *)
Fixpoint py_norm (j : json) : json :=
  match j with
  | JBool b => JInt (if b then 1 else 0)
  | JList l => JList (List.map py_norm l)
  | JObj fs => JObj (sort_by fst (List.map (fun f => (f.1, py_norm f.2)) fs))
  | _ => j
  end.

(** [x == y]. *)
Definition py_eqb (x y : json) : bool := bool_decide (py_norm x = py_norm y).

Definition fields_eqb (x y : fields) : bool := py_eqb (JObj x) (JObj y).

(** [bool(x)]. *)
Definition truthy (j : json) : bool :=
  match j with
  | JNull => false
  | JBool b => b
  | JInt n => negb (n =? 0)
  | JStr s => negb (bool_decide (s = ""))
  | JList l => negb (bool_decide (length l = 0%nat))
  | JObj fs => negb (bool_decide (length fs = 0%nat))
  end.

(** [isinstance(x, int)], which holds of a [bool]. *)
Definition as_int (j : json) : option Z :=
  match j with JInt n => Some n | JBool b => Some (if b then 1 else 0) | _ => None end.

Definition is_int (j : json) : bool := bool_decide (is_Some (as_int j)).
Definition is_bool (j : json) : bool := match j with JBool _ => true | _ => false end.
Definition is_str (j : json) : bool := match j with JStr _ => true | _ => false end.
Definition is_none (j : json) : bool := match j with JNull => true | _ => false end.

Definition as_str (j : json) : option string := match j with JStr s => Some s | _ => None end.

(** [d[name]]. *)
Definition item (name : string) (d : fields) : result json :=
  match dict_get name d with Some v => Ok v | None => Err (KeyError name) end.

(** [d.get(name, default)]. *)
Definition get_or (name : string) (dflt : json) (d : fields) : json := default dflt (dict_get name d).

(** ** [repr] and [str] *)

Definition repr_char (q c : ascii) : list ascii :=
  let n := code c in
  if bool_decide (c = q) || (n =? 92) then [backslash; c]
  else if n =? 10 then [backslash; "n"%char]
  else if n =? 13 then [backslash; "r"%char]
  else if n =? 9 then [backslash; "t"%char]
  else if (n <? 32) || ((127 <=? n) && (n <=? 160)) || (n =? 173) then backslash :: "x"%char :: chars (hex_byte n)
  else [c].

Definition repr_str (s : string) : string :=
  let l := chars s in
  let single := ascii_of_N 39 in
  let q := if py_any (fun c => bool_decide (c = single)) l && negb (py_any (fun c => bool_decide (c = quote)) l)
           then quote else single in
  text ([q] ++ (l ≫= repr_char q) ++ [q]).

Fixpoint py_repr (j : json) : string :=
  match j with
  | JNull => "None"
  | JBool true => "True"
  | JBool false => "False"
  | JInt n => str_int n
  | JStr s => repr_str s
  | JList l => "[" +:+ join ", " (List.map py_repr l) +:+ "]"
  | JObj fs => "{" +:+ join ", " (List.map (fun f => repr_str f.1 +:+ ": " +:+ py_repr f.2) fs) +:+ "}"
  end.

Definition py_str (j : json) : string := match j with JStr s => s | _ => py_repr j end.

(** ** Equality *)

Lemma py_eqb_refl x : py_eqb x x = true.
Proof. unfold py_eqb. by rewrite bool_decide_true. Qed.

Lemma py_eqb_str s t : py_eqb (JStr s) (JStr t) = bool_decide (s = t).
Proof. unfold py_eqb. cbn. apply bool_decide_ext. naive_solver. Qed.

Lemma py_eqb_trans x y z : py_eqb x y = true -> py_eqb y z = true -> py_eqb x z = true.
Proof. unfold py_eqb. rewrite !bool_decide_eq_true. congruence. Qed.

Lemma py_eqb_sym x y : py_eqb x y = py_eqb y x.
Proof. unfold py_eqb. by apply bool_decide_ext. Qed.

(** ** Lookup and equality *)

Lemma dict_get_cons {K V} `{EqDecision K} k k' (v : V) (r : list (K * V)) :
  dict_get k ((k', v) :: r) = if bool_decide (k = k') then Some v else dict_get k r.
Proof. reflexivity. Qed.

Lemma dict_get_map (g : json -> json) k (l : fields) :
  dict_get k (List.map (fun f => (f.1, g f.2)) l) = g <$> dict_get k l.
Proof. induction l as [|[k' v] l IH]; cbn; [done|]. by case_bool_decide. Qed.

Lemma dict_get_insert_by k (f : string * json) l :
  dict_get k (insert_by fst f l) = dict_get k (f :: l).
Proof.
  destruct f as [k' v]. induction l as [|[k2 v2] l IH]; [done|]. cbn [insert_by fst].
  destruct (cmp_leb k' k2) eqn:E; [done|]. cbn. cbn in IH. rewrite IH.
  case_bool_decide; [subst|done]. rewrite bool_decide_false; [done|]. intros ->. by rewrite cmp_leb_refl in E.
Qed.

(** Sorting is stable, so lookups do not see it. *)
Lemma dict_get_sort k (l : fields) : dict_get k (sort_by fst l) = dict_get k l.
Proof.
  induction l as [|f l IH]; [done|]. cbn [sort_by foldr]. fold (sort_by (@fst string json) l).
  rewrite dict_get_insert_by. destruct f. cbn. by rewrite IH.
Qed.

(** Equal dicts have equal items. *)
Lemma fields_eq_get x y k :
  py_norm (JObj x) = py_norm (JObj y) -> py_norm <$> dict_get k x = py_norm <$> dict_get k y.
Proof.
  cbn. intros [= E]. rewrite <-!(dict_get_map py_norm), <-(dict_get_sort k (List.map _ x)), E.
  by rewrite dict_get_sort.
Qed.

Lemma py_norm_str j s : py_norm j = JStr s <-> j = JStr s.
Proof. split; [|by intros ->]. by destruct j. Qed.

Lemma py_eqb_is_str j s : py_eqb j (JStr s) = true <-> j = JStr s.
Proof. unfold py_eqb. rewrite bool_decide_eq_true. cbn. apply py_norm_str. Qed.

Lemma py_norm_int j n : py_norm j = JInt n <-> as_int j = Some n.
Proof. destruct j as [|[]| | | |]; cbn; naive_solver. Qed.

Lemma get_or_Some k d v : v <> JNull -> get_or k JNull d = v <-> dict_get k d = Some v.
Proof.
  intros Hv. unfold get_or. destruct (dict_get k d) as [v'|]; cbn; [naive_solver|].
  split; [by intros <-|done].
Qed.
