(* ===== verification/EventStore.v ===== *)
(** The canonical event store of a Run.

    [src/solver/event_store_core.py] with the records of [event_store_contracts.py] it
    keeps.  The durable state is explicit: the reservation stream, the event stream and the
    sealed bodies.  A stream is the sequence of its lines, each as [json.loads] reads it,
    and whether its last line is complete.  An operation is a program over a [World], the
    files and the number of durable writes left before power is lost; losing power during
    an append may leave the incomplete line it had begun.  Every operation holds the Run's
    writer lock throughout ([writer_batch]), so operations are atomic to each other.
    Failures of [read_bytes] are not represented.

    The contracts of the event types are an interface: [Contracts] says what the store asks
    of them. *)

From Stdlib Require Import Ascii.
From S2P Require Import Prelude Canon Text Redaction PyJson.
Local Open Scope Z_scope.

(** ** Contracts *)

Definition CANONICAL_SCHEMA_VERSION : Z := 1.
Definition RUN_OPEN : string := "run-open".
Definition RUN_CLOSE : string := "run-close".

Inductive ReservationStatus : Type := RESERVED | COMMITTED | RECOVERED.

#[export] Instance ReservationStatus_eq_dec : EqDecision ReservationStatus.
Proof. solve_decision. Defined.

Definition status_value (s : ReservationStatus) : string :=
  match s with RESERVED => "reserved" | COMMITTED => "committed" | RECOVERED => "recovered" end.

Definition status_of (j : json) : option ReservationStatus :=
  List.find (fun s => py_eqb j (JStr (status_value s))) [RESERVED; COMMITTED; RECOVERED].

Record CommittedEvent : Type := {
  sequence : Z;
  previous_digest : string;
  event_digest : string;
  event_type : string;
  payload : fields;
  envelope : fields;
  blob_digest : string;
  blob_bytes : Z;
  body : string
}.

Record EventReservation : Type := {
  res_sequence : Z;
  res_previous_digest : string;
  res_run_id : string;
  res_event_type : string;
  res_fingerprint : string;
  res_blob_digest : string;
  res_blob_bytes : Z;
  reservation_id : string;
  status : ReservationStatus
}.

Definition reservation_as_dict (r : EventReservation) : fields := [
  ("schema_version", JInt CANONICAL_SCHEMA_VERSION);
  ("reservation_id", JStr (reservation_id r));
  ("sequence", JInt (res_sequence r));
  ("previous_digest", JStr (res_previous_digest r));
  ("run_id", JStr (res_run_id r));
  ("event_type", JStr (res_event_type r));
  ("event_fingerprint", JStr (res_fingerprint r));
  ("blob_digest", JStr (res_blob_digest r));
  ("blob_bytes", JInt (res_blob_bytes r));
  ("status", JStr (status_value (status r)))].

Record CompareAndAppendResult : Type := { committed_ : option CommittedEvent; observed : option CommittedEvent }.

Record TerminalEventStoreSnapshot : Type := {
  snap_run_id : string;
  snap_events : list CommittedEvent;
  chain_head : string
}.

(** A proposed event: its type, identity, optional [event_id] and payload over the digest
    and length of its body. *)
Record CanonicalEvent : Type := {
  ev_type : string;
  identity : json;
  event_id : option string;
  ev_payload : string -> Z -> fields
}.

(** What the store asks of the contract of an event type. *)
Record Contract : Type := {
  validate_payload : fields -> result unit;
  identity_from_payload : fields -> result json;
  exact_payload_identity : bool
}.

Class Contracts : Type := event_contract : string -> option Contract.

Definition is_hex (c : ascii) : bool := is_digit c || between 97 102 c.

(** [len(digest) == 64 and all(character in "0123456789abcdef" ...)]. *)
Definition is_sha256 (s : string) : bool := (String.length s =? 64)%nat && py_all is_hex (chars s).

(** ** Durable state *)

(** A line as [json.loads] reads it: a document, text that is no JSON, or only whitespace. *)
Inductive line : Type :=
  | Document (j : json)
  | Garbage
  | Blank.

Record Stream : Type := { lines : list line; terminated : bool }.

Definition empty_stream : Stream := {| lines := []; terminated := true |}.

Record Files : Type := {
  events_jsonl : Stream;
  reservations_jsonl : Stream;
  sealed : list (string * string);
  receipts : list (string * json)
}.

Definition empty_files : Files := {|
  events_jsonl := empty_stream; reservations_jsonl := empty_stream; sealed := []; receipts := [] |}.

Record World : Type := { files : Files; writes_left : nat; tears : bool }.

Definition M (A : Type) : Type := World -> World * outcome A.

#[export] Instance M_ret : MRet M := fun A a w => (w, Done a).
#[export] Instance M_bind : MBind M := fun A B f m w =>
  match m w with
  | (w', Done a) => f a w'
  | (w', Raised e) => (w', Raised e)
  | (w', Crashed) => (w', Crashed)
  end.

Definition lift {A} (r : result A) : M A := fun w =>
  match r with Ok a => (w, Done a) | Err e => (w, Raised e) end.

Definition gets {A} (f : Files -> A) : M A := fun w => (w, Done (f (files w))).

(** Text appended after a complete last line is a line of its own; after an incomplete one
    it runs into it. *)
Definition append_line (j : json) (s : Stream) : Stream := {|
  lines := if terminated s then lines s ++ [Document j] else removelast (lines s) ++ [Garbage];
  terminated := true |}.

Definition tear (s : Stream) : Stream := {| lines := lines s ++ [Garbage]; terminated := false |}.

(** One durable write, [f] when it completes and [g] when power is lost inside it. *)
Definition durable (f g : Files -> Files) : M unit := fun w =>
  match writes_left w with
  | O => ({| files := if tears w then g (files w) else files w; writes_left := O; tears := tears w |}, Crashed)
  | S n => ({| files := f (files w); writes_left := n; tears := tears w |}, Done tt)
  end.

Definition on_events (f : Stream -> Stream) (fs : Files) : Files := {|
  events_jsonl := f (events_jsonl fs); reservations_jsonl := reservations_jsonl fs; sealed := sealed fs;
  receipts := receipts fs |}.

Definition on_reservations (f : Stream -> Stream) (fs : Files) : Files := {|
  events_jsonl := events_jsonl fs; reservations_jsonl := f (reservations_jsonl fs); sealed := sealed fs;
  receipts := receipts fs |}.

Definition on_sealed (name content : string) (fs : Files) : Files := {|
  events_jsonl := events_jsonl fs; reservations_jsonl := reservations_jsonl fs;
  sealed := dict_set name content (sealed fs); receipts := receipts fs |}.

Definition on_receipts (name : string) (doc : json) (fs : Files) : Files := {|
  events_jsonl := events_jsonl fs; reservations_jsonl := reservations_jsonl fs; sealed := sealed fs;
  receipts := dict_set name doc (receipts fs) |}.

(** [atomic_write] of a receipt beside the streams: the old one or the new one. *)
Definition write_receipt_file (name : string) (doc : json) : M unit := durable (on_receipts name doc) id.

(** ** The store *)

(** [EventStoreCore(root, run_id, redactor=..., append_hook=...)]. *)
Record Config : Type := {
  run_id : string;
  redactor : Redactor;
  append_hook : string -> result unit
}.

(** [_redact]. *)
Fixpoint redact_json (r : Redactor) (j : json) : json :=
  match j with
  | JStr s => JStr (redact r s)
  | JList l => JList (List.map (redact_json r) l)
  | JObj fs => JObj (List.map (fun f => (f.1, redact_json r f.2)) fs)
  | _ => j
  end.

Definition redact_fields (r : Redactor) (fs : fields) : fields :=
  List.map (fun f => (f.1, redact_json r f.2)) fs.

Section store.
Context {DG : Digester} {CT : Contracts} (cfg : Config).

Definition event_fingerprint (p : fields) : string := digest (JObj p).

(** ** Reading reservations *)

Definition required_fields : list string :=
  ["reservation_id"; "sequence"; "previous_digest"; "run_id"; "event_type"; "event_fingerprint";
   "blob_digest"; "blob_bytes"; "status"].

(** One row of the reservation stream, up to its own consistency. *)
Definition reservation_of_line (l : line) : result EventReservation :=
  row ← match l with
    | Document j => Ok j
    | _ => Err (InvalidEventError "reservation stream contains invalid JSON")
    end;
  row ← match row with JObj d => Ok d | _ => Err (InvalidEventError "reservation is not an object") end;
  raise_unless (py_eqb (get_or "schema_version" JNull row) (JInt CANONICAL_SCHEMA_VERSION))
    (UnknownSchemaError "reservation schema version is unsupported");;
  raise_if (py_any (fun name => negb (dict_has name row)) required_fields)
    (InvalidEventError "reservation is missing required fields");;
  ints ← match as_int (get_or "sequence" JNull row), as_int (get_or "blob_bytes" JNull row) with
    | Some n, Some b => Ok (n, b)
    | _, _ => Err (InvalidEventError "reservation sequence or body size is invalid")
    end;
  st ← match status_of (get_or "status" JNull row) with
    | Some st => Ok st
    | None => Err (InvalidEventError "reservation status is unsupported")
    end;
  let text name := py_str (get_or name JNull row) in
  raise_if (ints.1 <? 1) (InvalidEventError "reservation sequence is not positive");;
  Ok {| res_sequence := ints.1; res_previous_digest := text "previous_digest"; res_run_id := text "run_id";
        res_event_type := text "event_type"; res_fingerprint := text "event_fingerprint";
        res_blob_digest := text "blob_digest"; res_blob_bytes := ints.2;
        reservation_id := text "reservation_id"; status := st |}.

Record ReservationReader : Type := {
  seen : list EventReservation;
  latest_by_id : list (string * EventReservation);
  owner_by_sequence : list (Z * string)
}.

Definition reader_start : ReservationReader := {| seen := []; latest_by_id := []; owner_by_sequence := [] |}.

(** A row of a known reservation closes it and changes nothing else. *)
Definition closes (previous r : EventReservation) : bool :=
  (res_sequence previous =? res_sequence r)
  && bool_decide (res_run_id previous = res_run_id r)
  && bool_decide (res_event_type previous = res_event_type r)
  && bool_decide (res_fingerprint previous = res_fingerprint r)
  && bool_decide (res_blob_digest previous = res_blob_digest r)
  && (res_blob_bytes previous =? res_blob_bytes r)
  && bool_decide (status previous = RESERVED)
  && negb (bool_decide (status r = RESERVED)).

Definition read_reservation (st : ReservationReader) (l : line) : result ReservationReader :=
  r ← reservation_of_line l;
  match dict_get (reservation_id r) (latest_by_id st) with
  | None =>
      match dict_get (res_sequence r) (owner_by_sequence st) with
      | Some owner =>
          raise_if (negb (bool_decide (owner = reservation_id r)))
            (DuplicateSequenceError "reservation sequence was reused")
      | None => Ok tt
      end
  | Some previous =>
      raise_unless (closes previous r) (DuplicateSequenceError "reservation id was reused")
  end;;
  raise_unless (bool_decide (res_run_id r = run_id cfg)) (InvalidEventError "reservation belongs to another Run");;
  Ok {| seen := seen st ++ [r];
        latest_by_id := dict_set (reservation_id r) r (latest_by_id st);
        owner_by_sequence := dict_set (res_sequence r) (reservation_id r) (owner_by_sequence st) |}.

Fixpoint read_rows (st : ReservationReader) (ls : list line) : result ReservationReader :=
  match ls with
  | [] => Ok st
  | l :: ls => st ← read_reservation st l; read_rows st ls
  end.

Definition read_reservations (fs : Files) : result (list EventReservation) :=
  raise_unless (terminated (reservations_jsonl fs))
    (TornAppendError "reservation stream has an incomplete final line");;
  st ← read_rows reader_start (lines (reservations_jsonl fs));
  Ok (seen st).

Definition reservation_for_sequence (n : Z) (fs : Files) : result (option EventReservation) :=
  rs ← read_reservations fs;
  Ok (last (List.filter (fun r => res_sequence r =? n) rs)).

(** ** Reading the chain *)

Definition unsigned (env : fields) : fields :=
  List.filter (fun f => negb (bool_decide (f.1 = "event_digest"))) env.

(** One line of the canonical stream against the head of the chain read so far; [is_last]
    tells whether it is the last line. *)
Definition verify_line (expected : Z) (previous : string) (is_last : bool) (l : line) : result CommittedEvent :=
  j ← match l with
    | Document j => Ok j
    | Garbage => Err (if is_last then TornAppendError "canonical stream contains invalid JSON"
                      else InvalidEventError "canonical stream contains invalid JSON")
    | Blank => Err (TornAppendError "canonical stream contains an empty line")
    end;
  env ← match j with JObj d => Ok d | _ => Err (InvalidEventError "canonical envelope is not an object") end;
  seq_ ← match as_int (get_or "seq" JNull env) with
    | Some n => Ok n
    | None => Err (InvalidEventError "canonical envelope has no integer seq")
    end;
  raise_unless (py_eqb (get_or "schema_version" JNull env) (JInt CANONICAL_SCHEMA_VERSION))
    (UnknownSchemaError "schema version is unsupported");;
  raise_if (seq_ <? expected) (DuplicateSequenceError "canonical sequence was reused");;
  raise_if (expected <? seq_) (SequenceGapError "canonical sequence has a gap");;
  raise_unless (py_eqb (get_or "prev_digest" JNull env) (JStr previous))
    (PreviousDigestMismatchError "predecessor digest does not match chain head");;
  dg ← match as_str (get_or "event_digest" JNull env) with
    | Some s => Ok s
    | None => Err (InvalidEventError "canonical envelope has no event digest")
    end;
  raise_unless (bool_decide (digest (JObj (unsigned env)) = dg))
    (EventDigestMismatchError "event content does not match event digest");;
  typed ← match get_or "event_type" JNull env, get_or "run_id" JNull env, get_or "payload" JNull env with
    | JStr t, JStr r, JObj p => Ok (t, r, p)
    | _, _, _ => Err (InvalidEventError "canonical envelope is missing typed fields")
    end;
  let '(t, r, p) := typed in
  raise_unless (bool_decide (r = run_id cfg)) (InvalidEventError "canonical envelope belongs to another Run");;
  contract ← match event_contract t with
    | Some c => Ok c
    | None => Err (InvalidEventError ("unsupported event type " +:+ repr_str t))
    end;
  validate_payload contract p;;
  blob ← match get_or "blob_digest" JNull p, as_int (get_or "blob_bytes" JNull p) with
    | JStr d, Some n => Ok (d, n)
    | _, _ => Err (InvalidEventError "canonical payload has no blob identity")
    end;
  Ok {| sequence := seq_; previous_digest := previous; event_digest := dg; event_type := t; payload := p;
        envelope := env; blob_digest := blob.1; blob_bytes := blob.2; body := "" |}.

Fixpoint verify_lines (expected : Z) (previous : string) (ls : list line) : result (list CommittedEvent) :=
  match ls with
  | [] => Ok []
  | l :: ls =>
      e ← verify_line expected previous (bool_decide (ls = [])) l;
      rest ← verify_lines (expected + 1) (event_digest e) ls;
      Ok (e :: rest)
  end.

Definition blob (name : string) (fs : Files) : result string :=
  match dict_get name (sealed fs) with
  | None => Err (MissingBlobError "sealed blob is unavailable")
  | Some content =>
      raise_unless (bool_decide (digest_bytes content = name))
        (BlobDigestMismatchError "sealed blob has different content");;
      Ok content
  end.

(** What [for sequence in value] goes over. *)
Definition iterate (j : json) : result (list json) :=
  match j with
  | JList l => Ok l
  | JObj fs => Ok ((fun f => JStr f.1) <$> fs)
  | JStr s => Ok ((fun c => JStr (text [c])) <$> chars s)
  | _ => Err (TypeError "object is not iterable")
  end.

(** One sequence a tombstone releases. *)
Definition released_one (by_sequence : list (Z * CommittedEvent)) (tomb : CommittedEvent) (dg len : json)
    (j : json) : result Z :=
  match j with JList _ | JObj _ => Err (TypeError "unhashable type") | _ => Ok tt end;;
  let wrong := Err (InvalidEventError "retirement tombstone releases a different canonical reference") in
  match as_int j with
  | None => wrong
  | Some n =>
      match dict_get n by_sequence with
      | None => wrong
      | Some target =>
          if (sequence tomb <=? n) || negb (py_eqb (JStr (blob_digest target)) dg)
             || negb (py_eqb (JInt (blob_bytes target)) len)
          then wrong else Ok n
      end
  end.

Fixpoint map_result {A B} (f : A -> result B) (l : list A) : result (list B) :=
  match l with
  | [] => Ok []
  | x :: r => y ← f x; ys ← map_result f r; Ok (y :: ys)
  end.

Definition is_tombstone (e : CommittedEvent) : bool :=
  bool_decide (event_type e = "storage-governor.recorded")
  && py_eqb (get_or "record" JNull (payload e)) (JStr "retirement-tombstone").

Definition released_by (by_sequence : list (Z * CommittedEvent)) (e : CommittedEvent) : result (list Z) :=
  if negb (is_tombstone e) then Ok []
  else
    dg ← item "target_digest" (payload e);
    len ← item "target_length" (payload e);
    path ← item "path" (payload e);
    raise_unless (py_eqb path (JStr ("sealed/sha256/" +:+ py_str dg)))
      (InvalidEventError "retirement tombstone path does not match its digest");;
    seqs ← item "event_sequences" (payload e);
    seqs ← iterate seqs;
    map_result (released_one by_sequence e dg len) seqs.

Definition released_event_sequences (events : list CommittedEvent) : result (list Z) :=
  let by_sequence := foldl (fun d e => dict_set (sequence e) e d) [] events in
  parts ← map_result (released_by by_sequence) events;
  Ok (concat parts).

Definition with_body (e : CommittedEvent) (b : string) : CommittedEvent := {|
  sequence := sequence e; previous_digest := previous_digest e; event_digest := event_digest e;
  event_type := event_type e; payload := payload e; envelope := envelope e;
  blob_digest := blob_digest e; blob_bytes := blob_bytes e; body := b |}.

Definition attach_body (released : list Z) (fs : Files) (e : CommittedEvent) : result CommittedEvent :=
  let free := bool_decide (sequence e ∈ released) in
  b ← match blob (blob_digest e) fs with
    | Err (MissingBlobError m) => if free then Ok "" else Err (MissingBlobError m)
    | r => r
    end;
  let empty := bool_decide (b = "") in
  raise_if (negb empty && negb (Z.of_nat (String.length b) =? blob_bytes e))
    (BlobDigestMismatchError "sealed blob length differs from payload");;
  raise_if (empty && negb (blob_bytes e =? 0) && negb free)
    (BlobDigestMismatchError "sealed blob length differs from payload");;
  Ok (with_body e b).

Definition attach_verified_bodies (events : list CommittedEvent) (fs : Files) : result (list CommittedEvent) :=
  released ← released_event_sequences events;
  map_result (attach_body released fs) events.

Definition read_verified (fs : Files) : result (list CommittedEvent) :=
  read_reservations fs;;
  raise_unless (terminated (events_jsonl fs)) (TornAppendError "canonical stream has an incomplete final line");;
  events ← verify_lines 1 "" (lines (events_jsonl fs));
  attach_verified_bodies events fs.

(** ** Looking up *)

Definition find_exact_identity (existing : list CommittedEvent) (e : CanonicalEvent) (p : fields) :
    option CommittedEvent :=
  py_next (fun prior => bool_decide (event_type prior = ev_type e) && fields_eqb (payload prior) p) existing.

Definition identity_of (prior : CommittedEvent) : result (option json) :=
  match event_contract (event_type prior) with
  | Some c => j ← identity_from_payload c (payload prior); Ok (Some j)
  | None => Ok None
  end.

Definition exact_required (prior : CommittedEvent) : bool :=
  match event_contract (event_type prior) with Some c => exact_payload_identity c | None => false end.

Fixpoint find_identity (existing : list CommittedEvent) (e : CanonicalEvent) (p : fields) :
    result (option CommittedEvent) :=
  match existing with
  | [] => Ok None
  | prior :: rest =>
      id_ ← identity_of prior;
      if negb (bool_decide (event_type prior = ev_type e))
         || negb (match id_ with Some j => py_eqb j (identity e) | None => false end)
      then find_identity rest e p
      else match event_id e with
        | None => if fields_eqb (payload prior) p then Ok (Some prior) else find_identity rest e p
        | Some eid =>
            if negb (py_eqb (get_or "event_id" JNull (payload prior)) (JStr eid)) then find_identity rest e p
            else if py_eqb (JStr (blob_digest prior)) (get_or "blob_digest" JNull p)
                    && (negb (exact_required prior) || fields_eqb (payload prior) p)
            then Ok (Some prior)
            else Err (DuplicateSequenceError "Canonical identity was already committed with different content")
        end
  end.

Definition matches_payload (e : CanonicalEvent) (p : fields) (r : EventReservation) : bool :=
  bool_decide (status r = RESERVED) && bool_decide (res_event_type r = ev_type e)
  && bool_decide (res_run_id r = run_id cfg) && bool_decide (res_fingerprint r = event_fingerprint p)
  && py_eqb (JStr (res_blob_digest r)) (get_or "blob_digest" JNull p)
  && py_eqb (JInt (res_blob_bytes r)) (get_or "blob_bytes" JNull p).

Definition find_reservation_for_payload (e : CanonicalEvent) (p : fields) (fs : Files) :
    result (option EventReservation) :=
  rs ← read_reservations fs;
  match List.filter (matches_payload e p) rs with
  | [] => Ok None
  | [r] => Ok (Some r)
  | _ => Err (DuplicateSequenceError "multiple reservations match one Observation")
  end.

Definition refuse_after_terminal (existing : list CommittedEvent) : result unit :=
  match last existing with
  | Some e => raise_if (py_eqb (get_or "record" JNull (payload e)) (JStr RUN_CLOSE))
                (RunSealedError "canonical Run is sealed by its terminal event")
  | None => Ok tt
  end.

(** ** Writing *)

Definition with_status (st : ReservationStatus) (r : EventReservation) : EventReservation := {|
  res_sequence := res_sequence r; res_previous_digest := res_previous_digest r; res_run_id := res_run_id r;
  res_event_type := res_event_type r; res_fingerprint := res_fingerprint r;
  res_blob_digest := res_blob_digest r; res_blob_bytes := res_blob_bytes r;
  reservation_id := reservation_id r; status := st |}.

Definition record_reservation (r : EventReservation) (st : ReservationStatus) : M unit :=
  durable (on_reservations (append_line (JObj (reservation_as_dict (with_status st r))))) (on_reservations tear).

Definition recover_reservation_locked (e : CommittedEvent) : M unit :=
  found ← gets (reservation_for_sequence (sequence e));
  found ← lift found;
  match found with
  | Some r => if bool_decide (status r = RESERVED) then record_reservation r RECOVERED else mret tt
  | None => mret tt
  end.

Definition last_sequence (existing : list CommittedEvent) : Z :=
  match last existing with Some e => sequence e | None => 0 end.

Definition head_digest (existing : list CommittedEvent) : string :=
  match last existing with Some e => event_digest e | None => "" end.

Definition call_hook (phase : string) : M unit := lift (append_hook cfg phase).

Definition int_of (j : json) : result Z :=
  match as_int j with Some n => Ok n | None => Err (TypeError "int() argument must be a number") end.

Definition reserve_locked (e : CanonicalEvent) (p : fields) (existing : list CommittedEvent) (wanted : option Z) :
    M EventReservation :=
  contract ← lift (match event_contract (ev_type e) with
    | Some c => Ok c
    | None => Err (InvalidEventError ("unsupported event type " +:+ repr_str (ev_type e)))
    end);
  rs ← gets read_reservations;
  rs ← lift rs;
  let highest := maxZ 0 ((sequence <$> existing) ++ (res_sequence <$> rs)) in
  let desired := default (highest + 1) wanted in
  lift (raise_if (desired <=? last_sequence existing)
    (InvalidEventError "reservation sequence is already committed"));;
  let occupied := res_sequence <$> List.filter (fun r => bool_decide (status r = RESERVED)) rs in
  lift (raise_if (bool_decide (desired ∈ occupied))
    (DuplicateSequenceError "reservation sequence is already held"));;
  lift (validate_payload contract p);;
  bd ← lift (item "blob_digest" p);
  bb ← lift (item "blob_bytes" p);
  n ← lift (int_of bb);
  let r := {|
    res_sequence := desired; res_previous_digest := head_digest existing; res_run_id := run_id cfg;
    res_event_type := ev_type e; res_fingerprint := event_fingerprint p;
    res_blob_digest := py_str bd; res_blob_bytes := n;
    reservation_id := run_id cfg +:+ ":" +:+ str_int desired +:+ ":" +:+ ev_type e;
    status := RESERVED |} in
  record_reservation r RESERVED;;
  call_hook "after_reserve";;
  mret r.

Definition seal_blob (name content : string) : M unit :=
  fs ← gets id;
  match dict_get name (sealed fs) with
  | Some existing =>
      lift (raise_if (negb (bool_decide (existing = content)) || negb (bool_decide (digest_bytes existing = name)))
        (BlobDigestMismatchError "sealed blob has different content"))
  | None => durable (on_sealed name content) id
  end.

Definition base_envelope (n : Z) (previous : string) (t : string) (p : fields) : fields := [
  ("schema_version", JInt CANONICAL_SCHEMA_VERSION);
  ("seq", JInt n);
  ("prev_digest", JStr previous);
  ("event_type", JStr t);
  ("run_id", JStr (run_id cfg));
  ("payload", JObj p)].

Definition commit_locked (r : EventReservation) (e : CanonicalEvent) (p : fields) (content : string)
    (existing : list CommittedEvent) : M CommittedEvent :=
  let expected := last_sequence existing + 1 in
  let previous := head_digest existing in
  lift (raise_unless (bool_decide (status r = RESERVED)) (InvalidEventError "reservation is already closed"));;
  lift (raise_unless (res_sequence r =? expected)
    (SequenceGapError "reservation cannot commit before the expected sequence"));;
  lift (raise_unless (bool_decide (res_run_id r = run_id cfg) && bool_decide (res_event_type r = ev_type e))
    (InvalidEventError "reservation belongs to another event store"));;
  lift (raise_unless (bool_decide (res_fingerprint r = event_fingerprint p))
    (InvalidEventError "reservation payload differs from proposed event"));;
  bd ← lift (item "blob_digest" p);
  bb ← lift (item "blob_bytes" p);
  lift (raise_unless (py_eqb (JStr (res_blob_digest r)) bd && py_eqb (JInt (res_blob_bytes r)) bb)
    (BlobDigestMismatchError "reservation blob differs from proposed body"));;
  let base := base_envelope (res_sequence r) previous (ev_type e) p in
  let dg := digest (JObj base) in
  let env := base ++ [("event_digest", JStr dg)] in
  seal_blob (res_blob_digest r) content;;
  call_hook "before_append";;
  durable (on_events (append_line (JObj env))) (on_events tear);;
  call_hook "after_append";;
  record_reservation r COMMITTED;;
  mret {| sequence := res_sequence r; previous_digest := previous; event_digest := dg; event_type := ev_type e;
          payload := p; envelope := env; blob_digest := res_blob_digest r; blob_bytes := res_blob_bytes r;
          body := content |}.

(** ** The operations *)

Definition events : M (list CommittedEvent) :=
  r ← gets read_verified;
  lift r.

(** The redacted payload of an event over its redacted body. *)
Definition payload_of (e : CanonicalEvent) (content : string) : fields :=
  redact_fields (redactor cfg) (ev_payload e (digest_bytes content) (Z.of_nat (String.length content))).

(** The prior event, its reservation closed if a crash left it open. *)
Definition replayed (prior : CommittedEvent) : M CommittedEvent :=
  recover_reservation_locked prior;; mret prior.

(** Reserve unless a reservation of the payload is held, then commit. *)
Definition reserve_and_commit (e : CanonicalEvent) (p : fields) (content : string)
    (existing : list CommittedEvent) : M CommittedEvent :=
  held ← gets (find_reservation_for_payload e p);
  held ← lift held;
  r ← match held with Some r => mret r | None => reserve_locked e p existing None end;
  commit_locked r e p content existing.

Definition append (e : CanonicalEvent) (content : string) : M CommittedEvent :=
  let content := redact (redactor cfg) content in
  let p := payload_of e content in
  existing ← events;
  match find_exact_identity existing e p with
  | Some prior => replayed prior
  | None =>
      lift (refuse_after_terminal existing);;
      prior ← lift (find_identity existing e p);
      match prior with
      | Some prior => replayed prior
      | None => reserve_and_commit e p content existing
      end
  end.

Definition actual_projection (p : fields) (seen_ : option CommittedEvent) : fields :=
  match seen_ with
  | None => [("event_id", JStr "genesis"); ("event_digest", JStr "");
             ("profile_digest", get_or "profile_digest" (JStr "") p); ("snapshot_digest", JStr "")]
  | Some o => [("event_id", get_or "event_id" (JStr "") (payload o)); ("event_digest", JStr (event_digest o));
               ("profile_digest", get_or "profile_digest" (JStr "") (payload o));
               ("snapshot_digest", get_or "snapshot_digest" (JStr "") (payload o))]
  end.

Definition latest_matching (latest_event_type : string) (latest_payload : fields) (existing : list CommittedEvent) :
    option CommittedEvent :=
  py_next (fun candidate => bool_decide (event_type candidate = latest_event_type)
    && py_all (fun nv => py_eqb (get_or nv.1 JNull (payload candidate)) nv.2) latest_payload) (rev existing).

Definition compare_and_append (e : CanonicalEvent) (content : string) (latest_event_type : string)
    (latest_payload expected_projection : fields) : M CompareAndAppendResult :=
  let content := redact (redactor cfg) content in
  let p := payload_of e content in
  existing ← events;
  match find_exact_identity existing e p with
  | Some prior => prior ← replayed prior; mret {| committed_ := Some prior; observed := Some prior |}
  | None =>
      let seen_ := latest_matching latest_event_type latest_payload existing in
      if negb (fields_eqb (actual_projection p seen_) expected_projection)
      then mret {| committed_ := None; observed := seen_ |}
      else
        lift (refuse_after_terminal existing);;
        prior ← lift (find_identity existing e p);
        c ← match prior with
          | Some prior => replayed prior
          | None => reserve_and_commit e p content existing
          end;
        mret {| committed_ := Some c; observed := seen_ |}
  end.

Definition reservation_from_event (e : CommittedEvent) : M EventReservation :=
  found ← gets (reservation_for_sequence (sequence e));
  found ← lift found;
  match found with
  | Some r => mret r
  | None => mret {|
      res_sequence := sequence e; res_previous_digest := previous_digest e; res_run_id := run_id cfg;
      res_event_type := event_type e; res_fingerprint := event_fingerprint (payload e);
      res_blob_digest := blob_digest e; res_blob_bytes := blob_bytes e;
      reservation_id := run_id cfg +:+ ":" +:+ str_int (sequence e) +:+ ":" +:+ event_type e;
      status := COMMITTED |}
  end.

Definition reserve (e : CanonicalEvent) (bd : string) (bb : Z) (wanted : option Z) : M EventReservation :=
  lift (raise_unless (is_sha256 bd) (ValueError "blob_digest must be a lowercase SHA-256 hex digest"));;
  lift (raise_if (bb <? 0) (ValueError "blob_bytes must be non-negative"));;
  let p := redact_fields (redactor cfg) (ev_payload e bd bb) in
  existing ← events;
  match find_exact_identity existing e p with
  | Some prior => recover_reservation_locked prior;; reservation_from_event prior
  | None =>
      held ← gets (find_reservation_for_payload e p);
      held ← lift held;
      match held with
      | Some r => mret r
      | None =>
          lift (refuse_after_terminal existing);;
          prior ← lift (find_identity existing e p);
          match prior with
          | Some prior => recover_reservation_locked prior;; reservation_from_event prior
          | None => reserve_locked e p existing wanted
          end
      end
  end.

Definition commit (r : EventReservation) (e : CanonicalEvent) (content : string) : M CommittedEvent :=
  let content := redact (redactor cfg) content in
  let p := payload_of e content in
  existing ← events;
  match find_exact_identity existing e p with
  | Some prior => replayed prior
  | None =>
      lift (refuse_after_terminal existing);;
      prior ← lift (find_identity existing e p);
      match prior with
      | Some prior => replayed prior
      | None => commit_locked r e p content existing
      end
  end.

Definition has_record (name : string) (e : CommittedEvent) : bool :=
  py_eqb (get_or "record" JNull (payload e)) (JStr name).

Definition terminal_snapshot : M TerminalEventStoreSnapshot :=
  es ← events;
  lift (raise_unless (match es with e :: _ => has_record RUN_OPEN e | [] => false end)
    (RunNotTerminalError "terminal snapshot has no Run genesis"));;
  lift (raise_unless (match last es with Some e => has_record RUN_CLOSE e | None => false end
      && (py_len (List.filter (has_record RUN_OPEN) es) =? 1)
      && (py_len (List.filter (has_record RUN_CLOSE) es) =? 1))
    (RunNotTerminalError "terminal snapshot requires one complete closed Run"));;
  mret {| snap_run_id := run_id cfg; snap_events := es; chain_head := head_digest es |}.
End store.
