(* ===== verification/EventStoreLogic.v ===== *)
(** Reading the streams of an event store: what the readers accept, and what they read
    after one more row, line or sealed body. *)

From Stdlib Require Import Ascii.
From S2P Require Import Prelude Canon Text Redaction RedactionFacts PyJson EventStore.
Local Open Scope Z_scope.

(** ** Reservation identities *)

Definition rid (run : string) (n : Z) (t : string) : string := run +:+ ":" +:+ str_int n +:+ ":" +:+ t.

(** The number before the first colon. *)
Fixpoint int_before_colon (acc : Z) (s : string) : option Z :=
  match s with
  | EmptyString => None
  | String c s =>
      if bool_decide (c = ":"%char) then Some acc
      else match digit_value c with Some d => int_before_colon (acc * 10 + d) s | None => None end
  end.

Lemma int_before_colon_app s t : forall acc n,
  int_digits acc s = Some n -> int_before_colon acc (s +:+ ":" +:+ t) = Some n.
Proof.
  induction s as [|c s IH]; intros acc n Hn; [by injection Hn as <-|].
  change (String c s +:+ ":" +:+ t) with (String c (s +:+ ":" +:+ t)). cbn [int_before_colon].
  cbn [int_digits] in Hn. case_bool_decide; [by subst|]. destruct (digit_value c); [|done]. by apply IH.
Qed.

Lemma rid_inj run n m t u : 0 <= n -> 0 <= m -> rid run n t = rid run m u -> n = m.
Proof.
  intros Hn Hm H. unfold rid in H. apply string_app_inj_l, string_app_inj_l in H.
  pose proof (int_before_colon_app (str_int n) t 0 n (int_digits_str_int n Hn)) as E.
  rewrite H, (int_before_colon_app (str_int m) u 0 m (int_digits_str_int m Hm)) in E. congruence.
Qed.

(** ** The reservation stream *)

Lemma last_filter_snoc {A} (p : A -> bool) l x :
  last (List.filter p (l ++ [x])) = if p x then Some x else last (List.filter p l).
Proof. rewrite List.filter_app. cbn. destruct (p x); [by rewrite last_snoc|by rewrite app_nil_r]. Qed.

Section reader.
Context {DG : Digester} {CT : Contracts} (cfg : Config).

(** A recorded reservation reads back as it was written. *)
Lemma reservation_round_trip r :
  1 <= res_sequence r -> reservation_of_line (Document (JObj (reservation_as_dict r))) = Ok r.
Proof.
  intros Hs. destruct r as [n pd run t fp bd bb i st]. cbn in Hs.
  unfold reservation_of_line, reservation_as_dict. destruct st; lazy -[Z.ltb];
    by rewrite (proj2 (Z.ltb_ge n 1) Hs).
Qed.

(** What the reader keeps agrees with the rows it has seen. *)
Definition reader_ok (st : ReservationReader) : Prop :=
  (forall i, dict_get i (latest_by_id st) = last (List.filter (fun r => bool_decide (reservation_id r = i)) (seen st)))
  /\ (forall n, dict_get n (owner_by_sequence st)
        = reservation_id <$> last (List.filter (fun r => res_sequence r =? n) (seen st)))
  /\ (forall r, r ∈ seen st -> res_run_id r = run_id cfg /\ 1 <= res_sequence r)
  /\ (forall r, r ∈ seen st -> status r = RESERVED ->
        dict_get (reservation_id r) (latest_by_id st) = Some r
        \/ exists r', r' ∈ seen st /\ reservation_id r' = reservation_id r /\ closes r r' = true).

Lemma reader_start_ok : reader_ok reader_start.
Proof. split_and!; try done; intros r Hr; set_solver. Qed.

Definition reader_push (st : ReservationReader) (r : EventReservation) : ReservationReader := {|
  seen := seen st ++ [r];
  latest_by_id := dict_set (reservation_id r) r (latest_by_id st);
  owner_by_sequence := dict_set (res_sequence r) (reservation_id r) (owner_by_sequence st) |}.

(** What a row must satisfy to be read after the rows of [st]. *)
Definition accepts (st : ReservationReader) (r : EventReservation) : Prop :=
  res_run_id r = run_id cfg
  /\ match dict_get (reservation_id r) (latest_by_id st) with
     | None => forall owner, dict_get (res_sequence r) (owner_by_sequence st) = Some owner -> owner = reservation_id r
     | Some previous => closes previous r = true
     end.

Lemma read_reservation_spec st l st' :
  read_reservation cfg st l = Ok st' <->
  exists r, reservation_of_line l = Ok r /\ accepts st r /\ st' = reader_push st r.
Proof.
  unfold read_reservation, accepts. split.
  - intros H. inv_ok. exists a. bool_to_prop. split; [done|]. split; [|done]. split; [done|].
    destruct (dict_get (reservation_id a) _); [by inv_ok|].
    intros owner Ho. rewrite Ho in *. inv_ok. by bool_to_prop.
  - intros (r & -> & [Hrun Hacc] & ->). cbn [mbind result_bind].
    destruct (dict_get (reservation_id r) _) as [previous|].
    + rewrite Hacc. cbn. by rewrite bool_decide_true.
    + destruct (dict_get (res_sequence r) _) as [owner|]; cbn; [rewrite (Hacc owner eq_refl)|];
        rewrite ?bool_decide_true by done; done.
Qed.

Lemma reservation_of_line_positive l r : reservation_of_line l = Ok r -> 1 <= res_sequence r.
Proof. unfold reservation_of_line. intros H. inv_ok. bool_to_prop. cbn. lia. Qed.

Lemma reader_push_ok st r : reader_ok st -> accepts st r -> 1 <= res_sequence r -> reader_ok (reader_push st r).
Proof.
  intros (Hl & Ho & Hr & Hres) [Hrun Hacc] Hpos. split_and!; cbn.
  - intros i. rewrite last_filter_snoc, dict_get_set, Hl.
    destruct (decide (i = reservation_id r)) as [->|Hne]; [by rewrite !bool_decide_true|].
    by rewrite !bool_decide_false by congruence.
  - intros n. rewrite last_filter_snoc, dict_get_set, Ho.
    destruct (Z.eqb_spec (res_sequence r) n) as [->|Hne]; [by rewrite bool_decide_true|].
    by rewrite bool_decide_false by congruence.
  - intros r' [Hr'|Hr']%elem_of_app; [by apply Hr|]. apply list_elem_of_singleton in Hr' as ->. done.
  - intros r' Hr' Hs. rewrite dict_get_set. apply elem_of_app in Hr' as [Hr'|Hr'].
    + case_bool_decide as E; [|destruct (Hres r' Hr' Hs) as [?|(r2 & Hin & ?)]; [by left|right; set_solver]].
      destruct (Hres r' Hr' Hs) as [Hlat|(r2 & Hin & ?)]; [|right; exists r2; set_solver].
      right. exists r. rewrite <-E, Hlat in Hacc. set_solver.
    + apply list_elem_of_singleton in Hr' as ->. left. by rewrite bool_decide_true.
Qed.

Lemma read_rows_ok ls : forall st st', reader_ok st -> read_rows cfg st ls = Ok st' -> reader_ok st'.
Proof.
  induction ls as [|l ls IH]; intros st st' Hst H; cbn in H; [by injection H as <-|].
  apply bind_ok in H as (st1 & (r & Hl & Hacc & ->)%read_reservation_spec & H).
  eapply IH; [|exact H]. apply reader_push_ok; eauto using reservation_of_line_positive.
Qed.

Lemma read_rows_snoc ls l : forall st st' r,
  read_rows cfg st ls = Ok st' -> reservation_of_line l = Ok r -> accepts st' r ->
  read_rows cfg st (ls ++ [l]) = Ok (reader_push st' r).
Proof.
  induction ls as [|x ls IH]; intros st st' r H Hl Hacc; cbn in *.
  - injection H as <-. rewrite (proj2 (read_reservation_spec st l (reader_push st r))); [done|eauto].
  - apply bind_ok in H as (st1 & -> & H). cbn. by apply IH.
Qed.

(** The reservations of a store that reads, with the reader's final state. *)
Lemma read_reservations_state fs rs :
  read_reservations cfg fs = Ok rs <->
  terminated (reservations_jsonl fs) = true
  /\ exists st, read_rows cfg reader_start (lines (reservations_jsonl fs)) = Ok st /\ seen st = rs /\ reader_ok st.
Proof.
  unfold read_reservations. split.
  - intros H. inv_ok. split; [done|]. eexists. split; [done|]. split; [done|].
    eapply read_rows_ok; [apply reader_start_ok|done].
  - intros [-> (st & Hst & <- & _)]. cbn. by rewrite Hst.
Qed.

Lemma read_reservations_events f fs : read_reservations cfg (on_events f fs) = read_reservations cfg fs.
Proof. done. Qed.

Lemma read_reservations_sealed n c fs : read_reservations cfg (on_sealed n c fs) = read_reservations cfg fs.
Proof. done. Qed.

(** One more row. *)
Lemma read_reservations_push fs rs r :
  read_reservations cfg fs = Ok rs -> 1 <= res_sequence r ->
  (forall st, seen st = rs -> reader_ok st -> accepts st r) ->
  read_reservations cfg (on_reservations (append_line (JObj (reservation_as_dict r))) fs) = Ok (rs ++ [r]).
Proof.
  intros (Ht & st & Hst & <- & Hok)%read_reservations_state Hpos Hacc. apply read_reservations_state. cbn.
  split; [done|]. exists (reader_push st r). rewrite Ht. specialize (Hacc st eq_refl Hok). split.
  - eapply read_rows_snoc; [done|by apply reservation_round_trip|done].
  - split; [done|]. by apply reader_push_ok.
Qed.

(** ** Reservations a store writes *)

(** Rows have the store's identities, and only committed sequences are closed. *)
Definition store_rows (committed : Z) (rs : list EventReservation) : Prop :=
  Forall (fun r => reservation_id r = rid (run_id cfg) (res_sequence r) (res_event_type r)
    /\ (status r <> RESERVED -> res_sequence r <= committed)) rs.

Lemma last_filter_None {A} (p : A -> bool) l : (forall x, x ∈ l -> p x = false) -> last (List.filter p l) = None.
Proof.
  induction l as [|x l IH]; intros Hp; [done|]. cbn. rewrite Hp by set_solver. apply IH. set_solver.
Qed.

(** A reservation of a fresh sequence is accepted. *)
Lemma accepts_fresh st rs n r :
  seen st = rs -> reader_ok st -> store_rows n rs -> res_run_id r = run_id cfg -> 1 <= res_sequence r ->
  reservation_id r = rid (run_id cfg) (res_sequence r) (res_event_type r) ->
  res_sequence r ∉ res_sequence <$> rs -> accepts st r.
Proof.
  intros <- (Hl & Ho & Hr & _) Hrows Hrun Hpos Hid Hfresh. split; [done|].
  rewrite Hl, last_filter_None.
  - rewrite Ho, last_filter_None; [done|]. intros x Hx. apply Z.eqb_neq. intros E. apply Hfresh.
    rewrite <-E. by apply list_elem_of_fmap_2.
  - intros x Hx. apply bool_decide_eq_false. intros E. apply Hfresh.
    unfold store_rows in Hrows. rewrite Forall_forall in Hrows. destruct (Hrows x Hx) as [Hidx _]. destruct (Hr x Hx) as [_ Hx1].
    rewrite Hidx, Hid in E. apply rid_inj in E; [|lia..]. rewrite <-E. by apply list_elem_of_fmap_2.
Qed.

Lemma closes_with_status r st : status r = RESERVED -> st <> RESERVED -> closes r (with_status st r) = true.
Proof.
  intros Hs Hn. unfold closes. cbn. rewrite !Z.eqb_refl, !bool_decide_true by done.
  by rewrite bool_decide_false.
Qed.

(** An open reservation past the committed sequences can be closed. *)
Lemma accepts_close st rs n r s :
  seen st = rs -> reader_ok st -> store_rows n rs -> r ∈ rs -> status r = RESERVED -> n < res_sequence r ->
  s <> RESERVED -> accepts st (with_status s r).
Proof.
  intros <- (Hl & Ho & Hr & Hres) Hrows Hin Hs Hn Hne. split; [exact (proj1 (Hr r Hin))|]. cbn.
  destruct (Hres r Hin Hs) as [->|(r' & Hin' & _ & Hc)]; [by apply closes_with_status|].
  exfalso. unfold closes in Hc. bool_to_prop. unfold store_rows in Hrows. rewrite Forall_forall in Hrows.
  destruct (Hrows r' Hin') as [_ Hle]. specialize (Hle ltac:(done)). lia.
Qed.

Lemma last_filter_sub {A} (p q : A -> bool) l x :
  last (List.filter p l) = Some x -> q x = true -> (forall y, y ∈ l -> q y = true -> p y = true) ->
  last (List.filter q l) = Some x.
Proof.
  induction l as [|y l IH] using rev_ind; intros Hl Hq Hsub; [done|].
  rewrite last_filter_snoc in *. destruct (p y) eqn:Ep; [by injection Hl as ->; rewrite Hq|].
  destruct (q y) eqn:Eq; [|apply IH; [done..|set_solver]].
  exfalso. rewrite (Hsub y) in Ep; [done|set_solver|done].
Qed.

(** So can the open reservation that is the last of its sequence. *)
Lemma accepts_recover st rs n r m :
  seen st = rs -> reader_ok st -> store_rows n rs ->
  last (List.filter (fun r => res_sequence r =? m) rs) = Some r -> status r = RESERVED ->
  accepts st (with_status RECOVERED r).
Proof.
  intros <- (Hl & Ho & Hr & _) Hrows Hlast Hs.
  assert (Hin : r ∈ seen st /\ res_sequence r = m).
  { apply last_Some_elem_of in Hlast. apply list_elem_of_In, filter_In in Hlast as [Hin Hm%Z.eqb_eq].
    by rewrite list_elem_of_In. }
  destruct Hin as [Hin Hm]. unfold store_rows in Hrows. rewrite Forall_forall in Hrows.
  split; [exact (proj1 (Hr r Hin))|]. cbn. rewrite Hl, (last_filter_sub _ _ _ _ Hlast).
  - by apply closes_with_status.
  - by rewrite bool_decide_true.
  - intros y Hy E%bool_decide_eq_true. apply Z.eqb_eq.
    destruct (Hrows y Hy) as [Hy1 _], (Hrows r Hin) as [Hr1 _], (Hr y Hy) as [_ ?], (Hr r Hin) as [_ ?].
    rewrite Hy1, Hr1 in E. apply rid_inj in E; [congruence|lia..].
Qed.
End reader.

(** ** The chain *)

Section chain.
Context {DG : Digester} {CT : Contracts} (cfg : Config).

Definition head_or (d : string) (es : list CommittedEvent) : string :=
  match last es with Some e => event_digest e | None => d end.

(** One event in its place: its number, its predecessor's digest and its own, its Run, and
    a payload its contract accepts, all as its envelope has them. *)
Record link (n : Z) (d : string) (e : CommittedEvent) : Prop := {
  link_seq : sequence e = n;
  link_prev : previous_digest e = d;
  link_seq_env : exists j, dict_get "seq" (envelope e) = Some j /\ as_int j = Some n;
  link_prev_env : dict_get "prev_digest" (envelope e) = Some (JStr d);
  link_digest : event_digest e = digest (JObj (unsigned (envelope e)));
  link_type_env : dict_get "event_type" (envelope e) = Some (JStr (event_type e));
  link_run_env : dict_get "run_id" (envelope e) = Some (JStr (run_id cfg));
  link_payload_env : dict_get "payload" (envelope e) = Some (JObj (payload e));
  link_contract : exists c, event_contract (event_type e) = Some c /\ validate_payload c (payload e) = Ok tt;
  link_blob : dict_get "blob_digest" (payload e) = Some (JStr (blob_digest e));
  link_bytes : exists j, dict_get "blob_bytes" (payload e) = Some j /\ as_int j = Some (blob_bytes e)
}.

Fixpoint chained (n : Z) (d : string) (es : list CommittedEvent) : Prop :=
  match es with
  | [] => True
  | e :: es => link n d e /\ chained (n + 1) (event_digest e) es
  end.

Lemma chained_app es1 es2 : forall n d,
  chained n d (es1 ++ es2) <-> chained n d es1 /\ chained (n + py_len es1) (head_or d es1) es2.
Proof.
  induction es1 as [|e es IH]; intros n d.
  - unfold py_len, head_or. cbn. rewrite Z.add_0_r. tauto.
  - cbn [app chained]. rewrite IH. replace (n + 1 + py_len es) with (n + py_len (e :: es)) by (unfold py_len; cbn; lia).
    replace (head_or d (e :: es)) with (head_or (event_digest e) es); [tauto|].
    unfold head_or. rewrite last_cons. by destruct (last es).
Qed.

Lemma as_int_get k d n : as_int (get_or k JNull d) = Some n -> exists j, dict_get k d = Some j /\ as_int j = Some n.
Proof. unfold get_or. destruct (dict_get k d); cbn; eauto. done. Qed.

Lemma verify_line_link n d b l e :
  verify_line cfg n d b l = Ok e -> link n d e /\ l = Document (JObj (envelope e)) /\ body e = "".
Proof.
  unfold verify_line. intros H. inv_ok. destruct l as [j| |]; [|discriminate..]. injection Hok as ->.
  destruct a as [| | | | |env]; try discriminate. injection Hok0 as ->. bool_to_prop.
  destruct (as_int (get_or "seq" JNull a0)) as [sq|] eqn:Eseq; [|done]. injection Hok1 as ->.
  assert (a1 = n) as -> by lia.
  destruct (as_str (get_or "event_digest" JNull a0)) as [dg|] eqn:Edg; [|done]. injection Hok6 as ->.
  destruct (get_or "event_type" JNull a0) as [| | |t| |] eqn:Et; try discriminate.
  destruct (get_or "run_id" JNull a0) as [| | |r| |] eqn:Er; try discriminate.
  destruct (get_or "payload" JNull a0) as [| | | | |p] eqn:Ep; try discriminate.
  injection Hok8 as <-. inv_ok. bool_to_prop. subst r.
  destruct (event_contract t) as [c|] eqn:Ec; [|done]. injection Hok0 as ->.
  destruct (get_or "blob_digest" JNull p) as [| | |bd| |] eqn:Eb; try discriminate.
  destruct (as_int (get_or "blob_bytes" JNull p)) as [bb|] eqn:Ebb; [|done]. injection Hok6 as <-.
  apply py_eqb_is_str in Hok5. apply as_int_get in Eseq, Ebb.
  apply get_or_Some in Et, Er, Ep, Eb, Hok5; try done.
  split; [|done]. split; cbn; eauto.
Qed.

Lemma verify_lines_chained ls : forall n d es,
  verify_lines cfg n d ls = Ok es ->
  chained n d es /\ ls = (fun e => Document (JObj (envelope e))) <$> es.
Proof.
  induction ls as [|l ls IH]; intros n d es Hv; cbn [verify_lines] in Hv; [by injection Hv as <-|].
  inv_ok. apply verify_line_link in Hok as (Hl & -> & _). apply IH in Hok0 as [Hc ->]. done.
Qed.

(** Whether a line is the last matters only to how its damage is called. *)
Lemma verify_line_last n d b b' l e : verify_line cfg n d b l = Ok e -> verify_line cfg n d b' l = Ok e.
Proof. by destruct l. Qed.

Lemma verify_lines_snoc ls l e : forall n d es,
  verify_lines cfg n d ls = Ok es ->
  verify_line cfg (n + py_len es) (head_or d es) true l = Ok e ->
  verify_lines cfg n d (ls ++ [l]) = Ok (es ++ [e]).
Proof.
  induction ls as [|x ls IH]; intros n d es Hv Hl; cbn [verify_lines app] in *.
  - injection Hv as <-. unfold py_len, head_or in Hl. cbn in Hl. rewrite Z.add_0_r in Hl.
    rewrite bool_decide_true by done. by rewrite Hl.
  - inv_ok. rewrite (verify_line_last _ _ _ _ _ _ Hok). cbn.
    rewrite (IH (n + 1) (event_digest a) a0); [done|done|].
    replace (n + 1 + py_len a0) with (n + py_len (a :: a0)) by (unfold py_len; cbn; lia).
    replace (head_or (event_digest a) a0) with (head_or d (a :: a0)); [done|].
    unfold head_or. rewrite last_cons. by destruct (last a0).
Qed.

(** ** Bodies *)

Definition same_event (e e' : CommittedEvent) : Prop := exists b, e' = with_body e b.

Lemma map_result_Forall2 {A B} (f : A -> result B) l k :
  map_result f l = Ok k <-> Forall2 (fun x y => f x = Ok y) l k.
Proof.
  revert k. induction l as [|x l IH]; intros k; cbn.
  - split; [by intros [= <-]|by intros ->%Forall2_nil_inv_l].
  - split.
    + intros Hm. inv_ok. constructor; [done|]. by apply IH.
    + intros (y & k' & Hxy & Hk & ->)%Forall2_cons_inv_l. rewrite Hxy. cbn. by rewrite (proj2 (IH k') Hk).
Qed.

(** The events as the stream has them: their bodies are not there. *)
Definition bare (e : CommittedEvent) : CommittedEvent := with_body e "".

Lemma attach_body_bare released fs e e' : attach_body released fs e = Ok e' -> e' = with_body e (body e').
Proof. unfold attach_body. intros Ha. by inv_ok. Qed.

Lemma link_body n d e b : link n d e <-> link n d (with_body e b).
Proof. split; intros []; split; done. Qed.

Lemma chained_bodies released fs es es' :
  Forall2 (fun e e' => attach_body released fs e = Ok e') es es' ->
  forall n d, chained n d es -> chained n d es'.
Proof.
  induction 1 as [|e e' es es' He _ IH]; intros n d Hc; [done|]. destruct Hc as [Hl Hc].
  apply attach_body_bare in He. split; [rewrite He; by apply link_body|]. rewrite He. cbn. by apply IH.
Qed.

(** No event is a retirement tombstone, so no body was released. *)
Definition unretired (es : list CommittedEvent) : Prop := Forall (fun e => is_tombstone e = false) es.

Lemma released_none es : unretired es -> released_event_sequences es = Ok [].
Proof.
  intros Hu. unfold released_event_sequences. set (d := foldl _ _ _).
  assert (Hm : map_result (released_by d) es = Ok (replicate (length es) [])).
  { clearbody d. induction Hu as [|e es He _ IH]; [done|]. cbn [map_result].
    assert (released_by d e = Ok []) as -> by (unfold released_by; by rewrite He).
    cbn. by rewrite IH. }
  rewrite Hm. cbn. f_equal. generalize (length es) as n. by induction n.
Qed.

(** A body is attached when its blob is sealed with its digest and length. *)
Definition has_body (fs : Files) (e e' : CommittedEvent) : Prop :=
  exists b, e' = with_body e b /\ dict_get (blob_digest e) (sealed fs) = Some b
    /\ digest_bytes b = blob_digest e /\ Z.of_nat (String.length b) = blob_bytes e.

Lemma attach_body_spec fs e e' : attach_body [] fs e = Ok e' <-> has_body fs e e'.
Proof.
  unfold attach_body, has_body, blob. rewrite bool_decide_false by set_solver. split.
  - intros Ha. destruct (dict_get _ _) as [b|]; [|done]. inv_ok. unfold raise_unless in Hok.
    destruct (bool_decide (digest_bytes b = _)) eqn:Ed; cbn in Hok; [|done]. apply bool_decide_eq_true in Ed. injection Hok as <-. exists b. do 3 (split; [done|]).
    destruct b as [|c b]; [rewrite bool_decide_true in * by done|rewrite bool_decide_false in * by done];
      cbn [negb andb] in *; rewrite ?andb_true_r in *; bool_to_prop; [cbn; lia|done].
  - intros (b & -> & -> & Hd & Hl). cbn. rewrite bool_decide_true by done. cbn. rewrite <-Hl, Z.eqb_refl, andb_false_r.
    cbn. destruct b; [done|]. by rewrite bool_decide_false by done.
Qed.

(** What a store without tombstones reads. *)
Lemma read_verified_spec fs es :
  unretired es ->
  read_verified cfg fs = Ok es <->
  (exists rs, read_reservations cfg fs = Ok rs) /\ terminated (events_jsonl fs) = true
  /\ exists es0, verify_lines cfg 1 "" (lines (events_jsonl fs)) = Ok es0 /\ Forall2 (has_body fs) es0 es.
Proof.
  intros Hu. unfold read_verified, attach_verified_bodies. split.
  - intros Hv. apply bind_ok in Hv as (rs & Hrs & Hv). apply bind_ok in Hv as (u & Ht & Hv).
    apply raise_unless_ok in Ht. apply bind_ok in Hv as (es0 & Hv0 & Hv). apply bind_ok in Hv as (rel & Hrel & Hv).
    split; [eauto|]. split; [done|]. exists es0. split; [done|].
    apply map_result_Forall2 in Hv. assert (Hu0 : unretired es0).
    { clear -Hu Hv. induction Hv as [|e e' l l' He _ IH]; [constructor|]. apply Forall_cons in Hu as [H1 H2].
      constructor; [|by apply IH]. apply attach_body_bare in He. by rewrite He in H1. }
    rewrite (released_none _ Hu0) in Hrel. injection Hrel as <-.
    eapply Forall2_impl; [exact Hv|]. intros e e' He. by apply attach_body_spec.
  - intros ((rs & ->) & -> & es0 & Hv & Hb). cbn. rewrite Hv. cbn.
    assert (Hu0 : unretired es0).
    { clear -Hu Hb. induction Hb as [|e e' l l' (b & -> & _) _ IH]; [constructor|]. apply Forall_cons in Hu as [H1 H2].
      constructor; [done|by apply IH]. }
    rewrite (released_none _ Hu0). cbn. apply map_result_Forall2. eapply Forall2_impl; [exact Hb|].
    intros e e' He. by apply attach_body_spec.
Qed.

(** Whatever it reads is a chain. *)
Lemma read_verified_chained fs es : read_verified cfg fs = Ok es -> chained 1 "" es.
Proof.
  unfold read_verified, attach_verified_bodies. intros Hv. inv_ok.
  apply map_result_Forall2 in Hv. apply verify_lines_chained in Hok1 as [Hc _]. by eapply chained_bodies.
Qed.
End chain.
