(* ===== verification/EventStoreFacts.v ===== *)
(** Properties of the canonical event store: the chain it reads, what an append does to it
    under failing hooks and lost power, and what an unfinished append costs. *)

From S2P Require Import Prelude Canon Text Redaction RedactionFacts PyJson EventStore EventStoreLogic.
Local Open Scope Z_scope.

#[global] Arguments read_verified : simpl never.
#[global] Arguments read_reservations : simpl never.
#[global] Arguments dict_get : simpl never.
#[global] Arguments digest : simpl never.

(** ** The chain is what it claims *)

Section facts.
Context {DG : Digester} {CT : Contracts} (cfg : Config).

Lemma chained_sequences es : forall n d, chained cfg n d es -> sequence <$> es = seqZ n (py_len es).
Proof.
  induction es as [|e es IH]; intros n d Hc; [done|]. destruct Hc as [Hl Hc].
  rewrite fmap_cons, (IH _ _ Hc), (link_seq _ _ _ _ Hl). unfold py_len. cbn [length].
  rewrite (seqZ_cons n) by lia. f_equal. f_equal; lia.
Qed.

Lemma chained_last_sequence es : chained cfg 1 "" es -> last_sequence es = py_len es.
Proof.
  unfold last_sequence. destruct es as [|e es _] using rev_ind; [done|]. rewrite last_snoc, chained_app.
  intros [_ [Hl _]]. rewrite (link_seq _ _ _ _ Hl). unfold py_len. rewrite length_app. cbn. lia.
Qed.

Lemma head_digest_or es : head_digest es = head_or "" es.
Proof. done. Qed.

(** ** Programs over the store *)

(** A stream whose last line is incomplete. *)
Definition torn (fs : Files) : Prop :=
  terminated (events_jsonl fs) = false \/ terminated (reservations_jsonl fs) = false.

(** From files that satisfy [P], [m] returns with [Q], raises with [E], or loses power with
    [E] or, when the write was torn, with an incomplete stream. *)
Definition runs {A} (P : Files -> Prop) (m : M A) (Q : A -> Files -> Prop) (E : Files -> Prop) : Prop :=
  forall w, P (files w) ->
    tears (m w).1 = tears w
    /\ match m w with
       | (w', Done a) => Q a (files w')
       | (w', Raised _) => E (files w')
       | (w', Crashed) => E (files w') \/ tears w = true /\ torn (files w')
       end.

Lemma store_ret {A} (P : Files -> Prop) (a : A) (Q : A -> Files -> Prop) E :
  (forall fs, P fs -> Q a fs) -> runs P (mret a) Q E.
Proof. intros HQ w Hw. split; [done|]. by apply HQ. Qed.

Lemma store_bind {A B} P (m : M A) (k : A -> M B) (R : A -> Files -> Prop) Q E :
  runs P m R E -> (forall a, runs (R a) (k a) Q E) -> runs P (m ≫= k) Q E.
Proof.
  intros Hm Hk w Hw. specialize (Hm w Hw). unfold mbind, M_bind.
  destruct (m w) as [w' [a|e|]]; cbn in Hm |- *; [|done..]. destruct Hm as [Ht Hr].
  specialize (Hk a w' Hr). rewrite <-Ht. done.
Qed.

(** A check that writes nothing. *)
Lemma runs_check {A B} (P : Files -> Prop) (r : result A) (k : A -> M B) Q (E : Files -> Prop) :
  (forall fs, P fs -> E fs) -> (forall a, r = Ok a -> runs P (k a) Q E) -> runs P (lift r ≫= k) Q E.
Proof.
  intros HE Hk w Hw. unfold mbind, M_bind, lift. destruct r as [a|e]; [by apply Hk|]. split; [done|]. by apply HE.
Qed.

(** A look at the files. *)
Lemma runs_look {A B} (P : Files -> Prop) (f : Files -> A) (k : A -> M B) Q E :
  (forall fs, P fs -> runs (fun fs' => P fs' /\ fs' = fs) (k (f fs)) Q E) -> runs P (gets f ≫= k) Q E.
Proof. intros Hk w Hw. unfold mbind, M_bind, gets. by apply (Hk (files w) Hw w). Qed.

Lemma runs_durable (P : Files -> Prop) f g (Q : unit -> Files -> Prop) (E : Files -> Prop) :
  (forall fs, P fs -> Q tt (f fs)) -> (forall fs, P fs -> E fs) ->
  (forall fs, P fs -> torn (g fs) \/ E (g fs)) -> runs P (durable f g) Q E.
Proof.
  intros HQ HE Hg w Hw. unfold durable. destruct (writes_left w); (split; [done|]); [|by apply HQ]. cbn.
  destruct (tears w) eqn:Et; [|by left; apply HE]. destruct (Hg _ Hw); auto.
Qed.

Lemma runs_conseq {A} (P P' : Files -> Prop) (m : M A) (Q Q' : A -> Files -> Prop) (E E' : Files -> Prop) :
  runs P m Q E -> (forall fs, P' fs -> P fs) -> (forall a fs, Q a fs -> Q' a fs) -> (forall fs, E fs -> E' fs) ->
  runs P' m Q' E'.
Proof.
  intros Hm HP HQ HE w Hw. specialize (Hm w (HP _ Hw)). destruct (m w) as [w' [a|e|]]; destruct Hm as [Ht Hm];
    (split; [done|]); [by apply HQ|by apply HE|]. destruct Hm; auto.
Qed.

Lemma bind_done {A B} (m : M A) (k : A -> M B) w w' a : m w = (w', Done a) -> (m ≫= k) w = k a w'.
Proof. unfold mbind, M_bind. by intros ->. Qed.

Lemma events_done es w : read_verified cfg (files w) = Ok es -> events cfg w = (w, Done es).
Proof. intros Hv. unfold events, gets, lift, mbind, M_bind. by rewrite Hv. Qed.

(** Use what holds of the files at hand. *)
Lemma runs_now {A} (P : Files -> Prop) (m : M A) Q E :
  (forall fs, P fs -> runs (fun fs' => fs' = fs) m Q E) -> runs P m Q E.
Proof. intros Hm w Hw. by apply (Hm (files w) Hw w). Qed.

(** ** What a store holds *)

(** Every sealed body is named by its digest. *)
Definition intact (fs : Files) : Prop :=
  forall name b, dict_get name (sealed fs) = Some b -> digest_bytes b = name.

(** The store reads [es] and the reservations [rs], which are its own. *)
Definition holds (es : list CommittedEvent) (rs : list EventReservation) (fs : Files) : Prop :=
  unretired es /\ read_verified cfg fs = Ok es /\ read_reservations cfg fs = Ok rs
  /\ store_rows cfg (last_sequence es) rs /\ intact fs.

Lemma holds_chained es rs fs : holds es rs fs -> chained cfg 1 "" es.
Proof. intros (_ & Hv & _). by eapply read_verified_chained. Qed.

Lemma read_rows_last n m rs : store_rows cfg n rs -> n <= m -> store_rows cfg m rs.
Proof.
  intros Hr Hle. eapply Forall_impl; [exact Hr|]. intros r [Hid Hs]. split; [done|]. intros Hne. specialize (Hs Hne). lia.
Qed.

(** One more reservation row. *)
Lemma holds_push es rs fs r :
  holds es rs fs -> 1 <= res_sequence r ->
  (forall st, seen st = rs -> reader_ok cfg st -> accepts cfg st r) ->
  reservation_id r = rid (run_id cfg) (res_sequence r) (res_event_type r) ->
  (status r <> RESERVED -> res_sequence r <= last_sequence es) ->
  holds es (rs ++ [r]) (on_reservations (append_line (JObj (reservation_as_dict r))) fs).
Proof.
  intros (Hu & Hv & Hr & Hrows & Hi) Hpos Hacc Hid Hs.
  assert (Hr' := read_reservations_push cfg fs rs r Hr Hpos Hacc).
  split; [done|]. split; [|split; [done|split; [|done]]].
  - apply (read_verified_spec cfg fs es Hu) in Hv as (_ & Ht & es0 & Hl & Hb).
    apply (read_verified_spec cfg _ es Hu). split; [eauto|]. split; [done|]. eauto.
  - apply Forall_app. split; [done|]. by apply Forall_singleton.
Qed.

(** One more sealed body. *)
Lemma holds_seal es rs fs content :
  holds es rs fs -> dict_get (digest_bytes content) (sealed fs) = None ->
  holds es rs (on_sealed (digest_bytes content) content fs).
Proof.
  intros (Hu & Hv & Hr & Hrows & Hi) Hn. split; [done|]. split; [|split; [done|split; [done|]]].
  2:{ intros name b. cbn. rewrite dict_get_set. case_bool_decide; [naive_solver|by apply Hi]. }
  apply (read_verified_spec cfg fs es Hu) in Hv as (_ & Ht & es0 & Hl & Hb).
  apply (read_verified_spec cfg _ es Hu). split; [eauto|]. split; [done|]. exists es0. split; [done|].
  eapply Forall2_impl; [exact Hb|]. intros e e' (b & -> & Hg & Hrest). exists b. split; [done|]. split; [|done].
  cbn. rewrite dict_get_set_ne; [done|]. congruence.
Qed.

(** ** A proposed event *)

(** What [append] needs of an event: its contract accepts the payload, which names the body
    it comes with, and it retires nothing. *)
Record proper (t : string) (p : fields) (content : string) : Prop := {
  proper_contract : exists c, event_contract t = Some c /\ validate_payload c p = Ok tt;
  proper_blob : dict_get "blob_digest" p = Some (JStr (digest_bytes content));
  proper_bytes : dict_get "blob_bytes" p = Some (JInt (Z.of_nat (String.length content)));
  proper_kind : ~ (t = "storage-governor.recorded" /\ dict_get "record" p = Some (JStr "retirement-tombstone"))
}.

(** The event that continues the chain [es]. *)
Definition next_event (es : list CommittedEvent) (t : string) (p : fields) (content : string) : CommittedEvent :=
  let base := base_envelope cfg (last_sequence es + 1) (head_digest es) t p in
  {| sequence := last_sequence es + 1; previous_digest := head_digest es; event_digest := digest (JObj base);
     event_type := t; payload := p; envelope := base ++ [("event_digest", JStr (digest (JObj base)))];
     blob_digest := digest_bytes content; blob_bytes := Z.of_nat (String.length content); body := content |}.

Lemma next_event_kept es t p content : proper t p content -> is_tombstone (next_event es t p content) = false.
Proof.
  intros [_ _ _ Hk]. unfold is_tombstone. cbn [event_type payload next_event]. apply andb_false_iff.
  destruct (decide (t = "storage-governor.recorded")) as [->|]; [right|left; by apply bool_decide_eq_false].
  apply not_true_is_false. rewrite py_eqb_is_str, get_or_Some by done. naive_solver.
Qed.

(** The line a commit writes verifies as the event it returns. *)
Lemma verify_next es t p content n :
  proper t p content -> n = last_sequence es + 1 ->
  verify_line cfg n (head_digest es) true (Document (JObj (envelope (next_event es t p content))))
  = Ok (bare (next_event es t p content)).
Proof.
  intros [(c & Hc & Hvalid) Hb Hbb _] ->. unfold verify_line, next_event. cbn [envelope].
  set (base := base_envelope _ _ _ _ _). set (dg := digest (JObj base)).
  assert (Hg : forall k, k <> "event_digest" -> dict_get k (base ++ [("event_digest", JStr dg)]) = dict_get k base).
  { intros k Hk. unfold base, base_envelope, dict_get. cbn [app].
    repeat (case_bool_decide; [done|]). done. }
  assert (Hu : unsigned (base ++ [("event_digest", JStr dg)]) = base) by reflexivity.
  assert (Hd : get_or "event_digest" JNull (base ++ [("event_digest", JStr dg)]) = JStr dg) by reflexivity.
  cbn [mbind result_bind]. rewrite Hu, Hd. unfold get_or. rewrite !Hg by done.
  change (dict_get "seq" base) with (Some (JInt (last_sequence es + 1))).
  change (dict_get "schema_version" base) with (Some (JInt CANONICAL_SCHEMA_VERSION)).
  change (dict_get "prev_digest" base) with (Some (JStr (head_digest es))).
  change (dict_get "event_type" base) with (Some (JStr t)).
  change (dict_get "run_id" base) with (Some (JStr (run_id cfg))).
  change (dict_get "payload" base) with (Some (JObj p)).
  cbn [default as_int as_str mbind result_bind]. rewrite !py_eqb_refl. cbn -[bool_decide].
  rewrite Z.ltb_irrefl. cbn -[bool_decide]. rewrite !bool_decide_true by done. cbn. rewrite Hc. cbn.
  rewrite Hvalid. cbn. by rewrite Hb, Hbb.
Qed.

(** One more event, its body sealed. *)
Lemma holds_append es rs fs t p content :
  holds es rs fs -> proper t p content -> dict_get (digest_bytes content) (sealed fs) = Some content ->
  let c := next_event es t p content in
  holds (es ++ [c]) rs (on_events (append_line (JObj (envelope c))) fs).
Proof.
  intros Hh Hp Hsealed c. pose proof (chained_last_sequence _ (holds_chained _ _ _ Hh)) as Hlast.
  destruct Hh as (Hu & Hv & Hr & Hrows & Hi).
  assert (Hu' : unretired (es ++ [c])).
  { apply Forall_app. split; [done|]. apply Forall_singleton. by apply next_event_kept. }
  apply (read_verified_spec cfg fs es Hu) in Hv as (_ & Ht & es0 & Hl & Hb).
  split; [done|]. split; [|split; [done|split; [|done]]].
  - apply (read_verified_spec cfg _ _ Hu'). split; [eauto|]. split; [done|]. exists (es0 ++ [bare c]). split.
    + cbn. rewrite Ht. apply verify_lines_snoc; [done|].
      assert (Hlen : py_len es0 = py_len es) by (unfold py_len; f_equal; by eapply Forall2_length).
      assert (Hhead : head_or "" es0 = head_digest es).
      { clear -Hb. unfold head_or, head_digest. induction Hb as [|e e' l l' (b & -> & _) Hb IH]; [done|].
        rewrite !last_cons. destruct Hb; [done|]. rewrite !last_cons in *. by destruct (last l), (last l'). }
      rewrite Hlen, Hhead. apply (verify_next es t p content); [done|lia].
    + apply Forall2_app; [exact Hb|]. repeat constructor. exists content. done.
  - eapply read_rows_last; [exact Hrows|]. unfold last_sequence at 2. rewrite last_snoc. cbn. lia.
Qed.

(** ** The operations keep the chain *)

Definition ok (es : list CommittedEvent) (fs : Files) : Prop := exists rs, holds es rs fs.

Lemma member_bound es e : chained cfg 1 "" es -> e ∈ es -> 1 <= sequence e <= last_sequence es.
Proof.
  intros Hc Hin. pose proof (chained_sequences _ _ _ Hc) as Hs. rewrite (chained_last_sequence _ Hc).
  assert (Hin' : sequence e ∈ seqZ 1 (py_len es)) by (rewrite <-Hs; by apply list_elem_of_fmap_2).
  apply elem_of_seqZ in Hin'. lia.
Qed.

Lemma runs_record es rs r s :
  1 <= res_sequence r ->
  (forall st, seen st = rs -> reader_ok cfg st -> accepts cfg st (with_status s r)) ->
  reservation_id r = rid (run_id cfg) (res_sequence r) (res_event_type r) ->
  (s <> RESERVED -> res_sequence r <= last_sequence es) ->
  runs (holds es rs) (record_reservation r s) (fun _ => holds es (rs ++ [with_status s r])) (holds es rs).
Proof.
  intros Hpos Hacc Hid Hs. apply runs_durable; [|done|].
  - intros fs Hh. by apply holds_push.
  - intros fs _. left. by right.
Qed.

Lemma holds_row es rs fs r :
  holds es rs fs -> r ∈ rs ->
  1 <= res_sequence r /\ reservation_id r = rid (run_id cfg) (res_sequence r) (res_event_type r).
Proof.
  intros (_ & _ & Hr & Hrows & _) Hin. split.
  - apply read_reservations_state in Hr as (_ & st & _ & <- & Hok). by apply Hok.
  - unfold store_rows in Hrows. rewrite Forall_forall in Hrows. by apply Hrows.
Qed.

Lemma runs_recover es prior :
  prior ∈ es ->
  runs (ok es) (recover_reservation_locked cfg prior) (fun _ => ok es) (ok es).
Proof.
  intros Hin. unfold recover_reservation_locked. apply runs_look. intros fs [rs Hh].
  apply runs_check; [naive_solver|]. intros found Hf. unfold reservation_for_sequence in Hf.
  pose proof Hh as (_ & _ & Hr & Hrows & _). rewrite Hr in Hf. cbn in Hf. injection Hf as <-.
  destruct (last _) as [r|] eqn:El; [|apply store_ret; naive_solver].
  case_bool_decide as Hs; [|apply store_ret; naive_solver].
  assert (Hmem : r ∈ rs /\ res_sequence r = sequence prior).
  { apply last_Some_elem_of, list_elem_of_In, filter_In in El as [? ?%Z.eqb_eq]. by rewrite list_elem_of_In. }
  destruct Hmem as [Hmem Hseq]. destruct (holds_row _ _ _ _ Hh Hmem) as [Hpos Hid].
  pose proof (member_bound _ _ (holds_chained _ _ _ Hh) Hin) as Hb.
  eapply runs_conseq; [apply (runs_record es rs r RECOVERED Hpos)|intros ? [_ ->]; exact Hh|by eexists|by eexists].
  - intros st Hst Hok. by eapply accepts_recover.
  - done.
  - intros _. lia.
Qed.

(** What an append of type [t] with payload [p] and body [content] may leave. *)
Definition grown (es : list CommittedEvent) (t : string) (p : fields) (content : string) (fs : Files) : Prop :=
  ok es fs \/ ok (es ++ [next_event es t p content]) fs.

Lemma runs_seal es rs content :
  runs (holds es rs) (seal_blob (digest_bytes content) content)
    (fun _ fs => holds es rs fs /\ dict_get (digest_bytes content) (sealed fs) = Some content) (holds es rs).
Proof.
  unfold seal_blob. apply runs_look. intros fs Hh. unfold id. destruct (dict_get _ _) as [existing|] eqn:E.
  - intros w [Hw Hfs]. unfold lift. destruct (raise_if _ _) as [[]|] eqn:Hr; (split; [done|]); [|done].
    apply raise_if_ok in Hr. bool_to_prop. split; [done|]. congruence.
  - apply runs_durable; [|by intros fs' [Hh' _]|intros fs' [Hh' _]; by right].
    intros fs' [Hh' ->]. split; [by apply holds_seal|]. cbn. apply dict_get_set_eq.
Qed.

(** Committing a row that is in the stream. *)
Lemma runs_commit es rs r e p content :
  proper (ev_type e) p content -> r ∈ rs ->
  runs (holds es rs) (commit_locked cfg r e p content es)
    (fun c fs => c = next_event es (ev_type e) p content
       /\ holds (es ++ [c]) (rs ++ [with_status COMMITTED r]) fs)
    (fun fs => holds es rs fs \/ holds (es ++ [next_event es (ev_type e) p content]) rs fs).
Proof.
  intros Hp Hr. unfold commit_locked. set (E := fun fs => _ \/ _).
  assert (HE : forall fs, holds es rs fs -> E fs) by (intros; by left).
  apply runs_check; [done|]. intros [] Hs%raise_unless_ok. bool_to_prop.
  apply runs_check; [done|]. intros [] Hseq%raise_unless_ok. apply Z.eqb_eq in Hseq.
  apply runs_check; [done|]. intros [] _. apply runs_check; [done|]. intros [] _.
  unfold item. rewrite (proper_blob _ _ _ Hp), (proper_bytes _ _ _ Hp).
  apply runs_check; [done|]. intros ? [= <-]. apply runs_check; [done|]. intros ? [= <-].
  apply runs_check; [done|]. intros [] Hb%raise_unless_ok. bool_to_prop.
  match goal with H : py_eqb (JStr _) _ = true |- _ => apply py_eqb_is_str in H; injection H as Hbd end.
  match goal with H : py_eqb (JInt _) _ = true |- _ =>
    unfold py_eqb in H; apply bool_decide_eq_true in H; cbn in H; injection H as Hbb end.
  rewrite Hbd, Hbb, Hseq.
  eapply store_bind; [eapply runs_conseq; [apply runs_seal|done|done|exact HE]|intros []].
  apply runs_check; [intros fs [Hh _]; by apply HE|]. intros [] _.
  set (c := next_event es (ev_type e) p content).
  eapply (store_bind _ _ _ (fun _ fs => holds (es ++ [c]) rs fs /\ store_rows cfg (last_sequence es) rs)).
  { apply runs_durable; [|intros fs [Hh _]; by apply HE|intros fs _; left; by left].
    intros fs [Hh Hsealed]. split; [by apply holds_append|apply Hh]. }
  intros []. apply runs_check; [intros fs [Hfs _]; by right|]. intros [] _.
  eapply (store_bind _ _ _ (fun _ => holds (es ++ [c]) (rs ++ [with_status COMMITTED r]))); [|intros []; apply store_ret].
  2:{ intros fs Hfs. done. }
  apply runs_now. intros fs [Hfs Hrows]. destruct (holds_row _ _ _ _ Hfs Hr) as [Hpos Hid].
  assert (Hlast : last_sequence (es ++ [c]) = last_sequence es + 1) by (unfold last_sequence at 1; by rewrite last_snoc).
  eapply runs_conseq; [apply (runs_record (es ++ [c]) rs r COMMITTED Hpos)|by intros ? ->|done|
    intros ? ?; by right].
  - intros st Hst Hok. eapply accepts_close; eauto. lia.
  - done.
  - intros _. lia.
Qed.

(** The reservation made for an event over the streams [es] and [rs]. *)
Definition new_reservation (es : list CommittedEvent) (rs : list EventReservation) (t : string) (p : fields)
    (content : string) (wanted : option Z) : EventReservation :=
  let n := default (maxZ 0 ((sequence <$> es) ++ (res_sequence <$> rs)) + 1) wanted in
  {| res_sequence := n; res_previous_digest := head_digest es; res_run_id := run_id cfg; res_event_type := t;
     res_fingerprint := event_fingerprint p; res_blob_digest := digest_bytes content;
     res_blob_bytes := Z.of_nat (String.length content); reservation_id := rid (run_id cfg) n t;
     status := RESERVED |}.

Lemma runs_reserve es rs e p content wanted :
  proper (ev_type e) p content ->
  let r := new_reservation es rs (ev_type e) p content wanted in
  runs (holds es rs) (reserve_locked cfg e p es wanted)
    (fun r' fs => r' = r /\ holds es (rs ++ [r]) fs) (fun fs => holds es rs fs \/ holds es (rs ++ [r]) fs).
Proof.
  intros Hp r. unfold reserve_locked. apply runs_check; [by left|]. intros c _.
  apply runs_look. intros fs Hh. apply runs_check; [intros ? [? _]; by left|]. intros rs' Hrs.
  pose proof Hh as (_ & _ & Hr & Hrows & _). rewrite Hr in Hrs. injection Hrs as <-.
  change (default _ wanted) with (res_sequence r).
  apply runs_check; [intros ? [? _]; by left|]. intros [] Hd%raise_if_ok. apply Z.leb_gt in Hd.
  apply runs_check; [intros ? [? _]; by left|]. intros [] Hfree%raise_if_ok. apply bool_decide_eq_false in Hfree.
  apply runs_check; [intros ? [? _]; by left|]. intros [] _.
  unfold item. rewrite (proper_blob _ _ _ Hp), (proper_bytes _ _ _ Hp).
  apply runs_check; [intros ? [? _]; by left|]. intros ? [= <-].
  apply runs_check; [intros ? [? _]; by left|]. intros ? [= <-].
  apply runs_check; [intros ? [? _]; by left|]. intros n [= <-].
  assert (H0 : 0 <= last_sequence es).
  { rewrite (chained_last_sequence _ (holds_chained _ _ _ Hh)). unfold py_len. lia. }
  eapply (store_bind _ _ _ (fun _ => holds es (rs ++ [r]))).
  - eapply runs_conseq; [apply (runs_record es rs r RESERVED)|intros ? [Hfs _]; exact Hfs|done|by left].
    + lia.
    + intros st Hst Hok. eapply accepts_fresh; [done|done|exact Hrows|done|cbn [with_status res_sequence]; lia|done|].
      intros Hin. apply list_elem_of_fmap in Hin as (x & Hx & Hin). cbn [with_status res_sequence] in Hx.
      destruct (decide (status x = RESERVED)) as [Hs|Hs].
      * apply Hfree. rewrite Hx. apply list_elem_of_fmap_2, list_elem_of_In, filter_In.
        rewrite <-list_elem_of_In. by rewrite bool_decide_true.
      * unfold store_rows in Hrows. rewrite Forall_forall in Hrows. destruct (Hrows x Hin) as [_ Hle].
        specialize (Hle Hs). lia.
    + done.
    + done.
  - intros []. unfold call_hook. apply runs_check; [by right|]. intros [] _. by apply store_ret.
Qed.

Lemma find_identity_elem es e p c : find_identity es e p = Ok (Some c) -> c ∈ es.
Proof.
  induction es as [|prior es IH]; cbn; [done|]. intros Hf. apply bind_ok in Hf as (i & _ & Hf).
  destruct (_ || _); [set_solver|]. destruct (event_id e).
  - destruct (negb _); [set_solver|]. destruct (_ && _); [|done]. injection Hf as ->. set_solver.
  - destruct (fields_eqb _ _); [injection Hf as ->|]; set_solver.
Qed.

Lemma runs_events es : runs (ok es) (events cfg) (fun es' fs => es' = es /\ ok es fs) (ok es).
Proof.
  unfold events. apply runs_look. intros fs [rs (Hu & Hv & Hrest)]. rewrite Hv. apply store_ret.
  intros fs' [? _]. done.
Qed.

Lemma runs_replayed es prior :
  prior ∈ es -> runs (ok es) (replayed cfg prior) (fun c fs => c = prior /\ ok es fs) (ok es).
Proof.
  intros Hin. unfold replayed. eapply store_bind; [by apply runs_recover|]. intros []. by apply store_ret.
Qed.

(** Appending with no matching reservation, and with one. *)
Lemma runs_fresh es rs e p content :
  proper (ev_type e) p content ->
  List.filter (matches_payload cfg e p) rs = [] ->
  let r := new_reservation es rs (ev_type e) p content None in
  let c := next_event es (ev_type e) p content in
  runs (holds es rs) (reserve_and_commit cfg e p content es)
    (fun c' fs => c' = c /\ holds (es ++ [c]) (rs ++ [r] ++ [with_status COMMITTED r]) fs)
    (fun fs => holds es rs fs \/ holds es (rs ++ [r]) fs \/ holds (es ++ [c]) (rs ++ [r]) fs).
Proof.
  intros Hp Hf r c. unfold reserve_and_commit. apply runs_look. intros fs Hh.
  pose proof Hh as (_ & _ & Hr & _). unfold find_reservation_for_payload. rewrite Hr. cbn [mbind result_bind].
  rewrite Hf. apply runs_check; [intros ? [? _]; by left|]. intros held [= <-].
  eapply store_bind; [eapply runs_conseq; [by apply (runs_reserve es rs e p content None)|by intros ? [? _]|done|naive_solver]|].
  intros r'. apply runs_now. intros fs' [-> Hh'].
  eapply runs_conseq; [apply (runs_commit es (rs ++ [r]) r e p content Hp); set_solver|by intros ? ->| |naive_solver].
  intros a fs2 [-> ?]. split; [done|]. by rewrite app_assoc.
Qed.

Lemma runs_held es rs e p content r :
  proper (ev_type e) p content ->
  List.filter (matches_payload cfg e p) rs = [r] ->
  runs (holds es rs) (reserve_and_commit cfg e p content es)
    (fun c' fs => c' = next_event es (ev_type e) p content /\ holds (es ++ [c']) (rs ++ [with_status COMMITTED r]) fs)
    (fun fs => holds es rs fs \/ holds (es ++ [next_event es (ev_type e) p content]) rs fs).
Proof.
  intros Hp Hf. unfold reserve_and_commit. apply runs_look. intros fs Hh.
  pose proof Hh as (_ & _ & Hr & _). unfold find_reservation_for_payload. rewrite Hr. cbn [mbind result_bind].
  rewrite Hf. apply runs_check; [intros ? [? _]; by left|]. intros held [= <-].
  assert (Hin : r ∈ rs).
  { apply list_elem_of_In, (filter_In (matches_payload cfg e p)). rewrite Hf. by left. }
  eapply (store_bind _ _ _ (fun r' fs' => r' = r /\ holds es rs fs')); [apply store_ret; by intros ? [? _]|].
  intros r'. apply runs_now. intros fs' [-> Hh'].
  eapply runs_conseq; [by apply (runs_commit es rs r e p content Hp)|by intros ? ->|done|done].
Qed.

Lemma runs_reserve_and_commit es e p content :
  proper (ev_type e) p content ->
  runs (ok es) (reserve_and_commit cfg e p content es)
    (fun c fs => c = next_event es (ev_type e) p content /\ ok (es ++ [c]) fs)
    (grown es (ev_type e) p content).
Proof.
  intros Hp. apply runs_now. intros fs [rs Hh].
  destruct (List.filter (matches_payload cfg e p) rs) as [|r [|r2 rest]] eqn:Ef.
  - eapply runs_conseq; [by apply (runs_fresh es rs)|by intros ? ->| |].
    + intros a fs' [-> ?]. split; [done|]. by eexists.
    + intros fs' [?|[?|?]]; [left|left|right]; by eexists.
  - eapply runs_conseq; [by apply (runs_held es rs e p content r)|by intros ? ->| |].
    + intros a fs' [-> ?]. split; [done|]. by eexists.
    + intros fs' [?|?]; [left|right]; by eexists.
  - unfold reserve_and_commit. apply runs_look. intros ? ->. pose proof Hh as (_ & _ & Hr & _).
    unfold find_reservation_for_payload. rewrite Hr. cbn [mbind result_bind]. rewrite Ef.
    apply runs_check; [|done]. intros ? [-> _]. left. by exists rs.
Qed.

(** The body of [append] and of the other appends once the prior events are read. *)
Lemma runs_append_new es e p content :
  proper (ev_type e) p content ->
  runs (ok es) (lift (refuse_after_terminal es);;
      prior ← lift (find_identity es e p);
      match prior with
      | Some prior => replayed cfg prior
      | None => reserve_and_commit cfg e p content es
      end)
    (fun c fs => c ∈ es /\ ok es fs \/ c = next_event es (ev_type e) p content /\ ok (es ++ [c]) fs)
    (grown es (ev_type e) p content).
Proof.
  intros Hp. apply runs_check; [by left|]. intros [] _. apply runs_check; [by left|]. intros [prior|] Hf.
  - apply find_identity_elem in Hf. eapply runs_conseq; [by apply runs_replayed|done|naive_solver|by left].
  - eapply runs_conseq; [by apply runs_reserve_and_commit|done|naive_solver|done].
Qed.

Lemma find_exact_elem es e p c :
  find_exact_identity es e p = Some c -> c ∈ es /\ event_type c = ev_type e /\ fields_eqb (payload c) p = true.
Proof. unfold find_exact_identity. intros [Hin Hb]%py_next_Some. bool_to_prop. done. Qed.

Lemma append_runs es e content :
  let content' := redact (redactor cfg) content in
  let p := payload_of cfg e content' in
  proper (ev_type e) p content' ->
  runs (ok es) (append cfg e content)
    (fun c fs => c ∈ es /\ ok es fs \/ c = next_event es (ev_type e) p content' /\ ok (es ++ [c]) fs)
    (grown es (ev_type e) p content').
Proof.
  intros content' p Hp. unfold append. fold content'. fold p.
  eapply store_bind; [eapply runs_conseq; [apply runs_events|done|done|by left]|]. intros es'.
  apply runs_now. intros fs [-> Hok].
  eapply (runs_conseq (ok es) (fun fs' => fs' = fs)); [|by intros ? ->|by intros ? ?; exact id|by intros ?; exact id].
  destruct (find_exact_identity es e p) as [prior|] eqn:Ef.
  - apply find_exact_elem in Ef as [Hin _]. eapply runs_conseq; [by apply runs_replayed|done|naive_solver|by left].
  - by apply runs_append_new.
Qed.
End facts.
