(* ===== verification/EventStoreTheorems.v ===== *)
(** What the canonical event store promises: its chain, its appends under failing hooks and
    lost power, exactly-once retries, and what an unfinished append costs. *)

From S2P Require Import Prelude Canon Text Redaction RedactionFacts PyJson EventStore EventStoreLogic EventStoreFacts.
Local Open Scope Z_scope.

Section theorems.
Context {DG : Digester} {CT : Contracts} (cfg : Config).

(** What the store reads is a chain: the events are numbered from 1 without a gap, each
    names the digest of its predecessor in an envelope whose digest is its own, belongs to
    this Run and carries a payload its contract accepts. *)
Theorem reads_a_chain fs es :
  read_verified cfg fs = Ok es ->
  sequence <$> es = seqZ 1 (py_len es)
  /\ forall i e, es !! i = Some e ->
       previous_digest e = head_digest (take i es)
       /\ dict_get "prev_digest" (envelope e) = Some (JStr (previous_digest e))
       /\ event_digest e = digest (JObj (unsigned (envelope e)))
       /\ dict_get "run_id" (envelope e) = Some (JStr (run_id cfg))
       /\ dict_get "payload" (envelope e) = Some (JObj (payload e))
       /\ exists c, event_contract (event_type e) = Some c /\ validate_payload c (payload e) = Ok tt.
Proof.
  intros Hc%read_verified_chained. split; [by eapply chained_sequences|]. intros i e Hi.
  rewrite <-(take_drop_middle es i e Hi) in Hc. apply chained_app in Hc as [_ [Hl _]].
  destruct Hl. rewrite link_prev. split_and!; auto.
Qed.

(** ** Tampering *)

Definition same_content (e1 e2 : CommittedEvent) : Prop :=
  py_norm (JObj (unsigned (envelope e1))) = py_norm (JObj (unsigned (envelope e2))).

#[local] Instance same_content_dec e1 e2 : Decision (same_content e1 e2).
Proof. unfold same_content. solve_decision. Defined.

(** Two events of the two histories whose signed documents differ and have one digest. *)
Definition collide (es1 es2 : list CommittedEvent) : Prop :=
  exists e1 e2, e1 ∈ es1 /\ e2 ∈ es2 /\ ~ same_content e1 e2
    /\ digest (JObj (unsigned (envelope e1))) = digest (JObj (unsigned (envelope e2))).

Lemma collide_app es1 es2 l1 l2 : collide es1 es2 -> collide (es1 ++ l1) (es2 ++ l2).
Proof. intros (e1 & e2 & H1 & H2 & H). exists e1, e2. rewrite !elem_of_app. auto. Qed.

Lemma unsigned_get k env : k <> "event_digest" -> dict_get k (unsigned env) = dict_get k env.
Proof.
  intros Hk. induction env as [|[k' v] env IH]; [done|]. unfold unsigned. cbn [List.filter fst].
  rewrite dict_get_cons. case_bool_decide as E; cbn [negb]; fold (unsigned env).
  - by rewrite bool_decide_false by congruence.
  - by rewrite dict_get_cons, IH.
Qed.

Lemma same_content_get e1 e2 k :
  same_content e1 e2 -> k <> "event_digest" ->
  py_norm <$> dict_get k (envelope e1) = py_norm <$> dict_get k (envelope e2).
Proof. intros Hs Hk. rewrite <-(unsigned_get k (envelope e1)), <-(unsigned_get k (envelope e2)) by done. by apply fields_eq_get. Qed.

Lemma links_same n1 n2 d1 d2 e1 e2 :
  link cfg n1 d1 e1 -> link cfg n2 d2 e2 -> event_digest e1 = event_digest e2 ->
  (same_content e1 e2 /\ n1 = n2 /\ d1 = d2) \/ collide [e1] [e2].
Proof.
  intros L1 L2 Hd. rewrite (link_digest _ _ _ _ L1), (link_digest _ _ _ _ L2) in Hd.
  destruct (decide (same_content e1 e2)) as [Hs|Hs]; [left|right; exists e1, e2; rewrite !list_elem_of_singleton; auto].
  split; [done|]. split.
  - destruct (link_seq_env _ _ _ _ L1) as (j1 & G1 & A1), (link_seq_env _ _ _ _ L2) as (j2 & G2 & A2).
    pose proof (same_content_get e1 e2 "seq" Hs ltac:(done)) as Hg. rewrite G1, G2 in Hg. cbn in Hg.
    injection Hg as Hg. apply py_norm_int in A1, A2. congruence.
  - pose proof (same_content_get e1 e2 "prev_digest" Hs ltac:(done)) as Hg.
    rewrite (link_prev_env _ _ _ _ L1), (link_prev_env _ _ _ _ L2) in Hg. by injection Hg.
Qed.

Lemma chains_same es1 : forall es2,
  chained cfg 1 "" es1 -> chained cfg 1 "" es2 -> length es1 = length es2 ->
  head_digest es1 = head_digest es2 -> Forall2 same_content es1 es2 \/ collide es1 es2.
Proof.
  induction es1 as [|e1 es1 IH] using rev_ind; intros es2 C1 C2 Hlen Hhead.
  { destruct es2; [by left|done]. }
  destruct es2 as [|e2 es2 _] using rev_ind; [rewrite length_app in Hlen; cbn in Hlen; lia|].
  rewrite !length_app in Hlen. cbn in Hlen. apply chained_app in C1 as [C1 [L1 _]], C2 as [C2 [L2 _]].
  unfold head_digest in Hhead. rewrite !last_snoc in Hhead.
  destruct (links_same _ _ _ _ _ _ L1 L2 Hhead) as [(Hs & _ & Hd)|Hc].
  2:{ right. destruct Hc as (x & y & Hx & Hy & Hc). exists x, y. rewrite !elem_of_app. auto. }
  destruct (IH es2 C1 C2) as [IH'|]; [lia|done| |right; by apply collide_app]. left. apply Forall2_app; [done|]. by constructor.
Qed.

(** C33. The chain head binds the whole history: two stores of a Run that verify and end in
    the same event digest hold the same envelopes, field by field, from the first event on -
    or some event of the one and some event of the other have documents that differ and one
    digest. *)
Theorem head_binds_history fs1 fs2 es1 es2 :
  read_verified cfg fs1 = Ok es1 -> read_verified cfg fs2 = Ok es2 ->
  es1 <> [] -> es2 <> [] -> head_digest es1 = head_digest es2 ->
  Forall2 same_content es1 es2
  \/ exists e1 e2, e1 ∈ es1 /\ e2 ∈ es2 /\ ~ same_content e1 e2
       /\ digest (JObj (unsigned (envelope e1))) = digest (JObj (unsigned (envelope e2))).
Proof.
  intros C1%read_verified_chained C2%read_verified_chained N1 N2 Hhead. fold (collide es1 es2).
  destruct es1 as [|e1 l1 _] using rev_ind; [done|]. destruct es2 as [|e2 l2 _] using rev_ind; [done|].
  pose proof C1 as C1'. pose proof C2 as C2'. apply chained_app in C1' as [_ [L1 _]], C2' as [_ [L2 _]].
  pose proof Hhead as Hd. unfold head_digest in Hd. rewrite !last_snoc in Hd.
  destruct (links_same _ _ _ _ _ _ L1 L2 Hd) as [(_ & Hn & _)|Hc].
  - apply chains_same; [done..| |done]. rewrite !length_app. unfold py_len in Hn. cbn. lia.
  - right. destruct Hc as (x & y & Hx & Hy & Hc). exists x, y. rewrite !elem_of_app. auto.
Qed.

(** ** Appends *)

(** C8. An append adds its event or nothing.  The store verifies, its reservations are its own, its
    sealed bodies have their digests and it holds no retirement tombstone ([ok]); the event's
    contract accepts it and it is no tombstone itself ([proper]).  Then, whatever hook raises and
    wherever power is lost, the store verifies again afterwards and holds the events it held, or
    those and the one event of the append, linked to the old head; an append that returns an event
    returns that one or one already there.  Only a write that is torn leaves a stream that no
    longer verifies. *)
Theorem append_extends es e content w :
  let content' := redact (redactor cfg) content in
  let p := payload_of cfg e content' in
  let c := next_event cfg es (ev_type e) p content' in
  proper (ev_type e) p content' -> ok cfg es (files w) ->
  match append cfg e content w with
  | (w', Done r) => r ∈ es /\ ok cfg es (files w') \/ r = c /\ ok cfg (es ++ [c]) (files w')
  | (w', Raised _) => ok cfg es (files w') \/ ok cfg (es ++ [c]) (files w')
  | (w', Crashed) => ok cfg es (files w') \/ ok cfg (es ++ [c]) (files w') \/ tears w = true /\ torn (files w')
  end.
Proof.
  intros content' p c Hp Hok. destruct (append_runs cfg es e content Hp w Hok) as [_ Hr].
  destruct (append cfg e content w) as [w' [r|x|]]; [naive_solver|done|]. destruct Hr as [[?|?]|?]; auto.
Qed.

Lemma sealed_body es fs e :
  ok cfg es fs -> e ∈ es -> blob (blob_digest e) fs = Ok (body e).
Proof.
  intros (rs & Hu & Hv & _) He. apply read_verified_spec in Hv as (_ & _ & es0 & _ & Hb); [|done].
  apply list_elem_of_lookup in He as [i Hi]. destruct (Forall2_lookup_r _ _ _ _ _ Hb Hi) as (e0 & _ & b & -> & Hg & Hd & _).
  unfold blob. cbn [blob_digest with_body body] in *. rewrite Hg, bool_decide_true by done. done.
Qed.

(** C34. What is appended reads back: over a store as above without retirement tombstones, an append
    of an event that its contract accepts and that is no tombstone, and which returns a new event,
    leaves a store whose last event has the type and the redacted payload of the append, whose sealed body is the
    redacted body, and whose older events are as they were. *)
Theorem appended_reads_back es e content w w' c :
  let content' := redact (redactor cfg) content in
  let p := payload_of cfg e content' in
  proper (ev_type e) p content' -> ok cfg es (files w) ->
  append cfg e content w = (w', Done c) -> c ∉ es ->
  read_verified cfg (files w') = Ok (es ++ [c])
  /\ event_type c = ev_type e /\ payload c = p /\ body c = content'
  /\ blob (blob_digest c) (files w') = Ok content'.
Proof.
  intros content' p Hp Hok Hrun Hnew. destruct (append_runs cfg es e content Hp w Hok) as [_ Hr]. rewrite Hrun in Hr.
  destruct Hr as [[? _]|[-> Hok']]; [done|]. split; [by destruct Hok' as (rs & _ & ? & _)|]. do 3 (split; [done|]).
  change content' with (body (next_event cfg es (ev_type e) p content')).
  apply (sealed_body _ _ _ Hok'). set_solver.
Qed.

(** Compare-and-append is a compare: from a store that verifies, it commits a new event
    only when the projection of the latest matching event equals the expected one, and when
    it reports no event the files are as they were. *)
Theorem compare_and_append_compares es e content t lp expected w w' res :
  let content' := redact (redactor cfg) content in
  let p := payload_of cfg e content' in
  let c := next_event cfg es (ev_type e) p content' in
  proper (ev_type e) p content' -> ok cfg es (files w) ->
  compare_and_append cfg e content t lp expected w = (w', Done res) ->
  let same := fields_eqb (actual_projection p (latest_matching t lp es)) expected in
  match committed_ res with
  | None => files w' = files w /\ same = false
  | Some r => r ∈ es /\ ok cfg es (files w') \/ r = c /\ ok cfg (es ++ [c]) (files w') /\ same = true
  end.
Proof.
  intros content' p c Hp Hok Hrun same. revert Hrun. unfold compare_and_append. fold content'. fold p.
  pose proof Hok as [rs (_ & Hv & _)]. rewrite (bind_done _ _ _ _ _ (events_done cfg _ _ Hv)).
  destruct (find_exact_identity es e p) as [prior|] eqn:Ef.
  - apply find_exact_elem in Ef as [Hin _]. destruct (runs_replayed cfg es prior Hin w Hok) as [_ Hr].
    unfold mbind, M_bind. destruct (replayed cfg prior w) as [w1 [r|x|]]; [|done..].
    intros [= <- <-]. cbn. naive_solver.
  - fold same. destruct same eqn:Es; cbn [negb]; [|by intros [= <- <-]].
    pose proof (runs_append_new cfg es e p content' Hp w Hok) as [_ Hr].
    intros Hrun. unfold mbind, M_bind, lift in Hr, Hrun.
    destruct (refuse_after_terminal es); [|done]. destruct (find_identity es e p) as [[prior|]|]; [..|done].
    + destruct (replayed cfg prior w) as [w1 [r|x|]]; [|done..]. injection Hrun as <- <-. cbn. naive_solver.
    + destruct (reserve_and_commit cfg e p content' es w) as [w1 [r|x|]]; [|done..].
      injection Hrun as <- <-. cbn. naive_solver.
Qed.

(** ** Progress *)

(** With [k] durable writes left, [m] returns. *)
Definition lives {A} (k : nat) (P : Files -> Prop) (m : M A) : Prop :=
  forall w, P (files w) -> (k <= writes_left w)%nat ->
    exists w' a, m w = (w', Done a) /\ (writes_left w <= writes_left w' + k)%nat.

Lemma lives_ret {A} P (a : A) : lives 0 P (mret a).
Proof. intros w _ _. exists w, a. split; [done|lia]. Qed.

Lemma lives_durable P f g : lives 1 P (durable f g).
Proof.
  intros w _ Hk. unfold durable. destruct (writes_left w) as [|n] eqn:E; [lia|].
  eexists _, _. split; [done|]. cbn. lia.
Qed.

Lemma lives_bind {A B} j k (P : Files -> Prop) (m : M A) (f : A -> M B) (R : A -> Files -> Prop) E :
  lives j P m -> runs P m R E -> (forall a, lives k (R a) (f a)) -> lives (j + k) P (m ≫= f).
Proof.
  intros Hm Hr Hf w Hw Hk. destruct (Hm w Hw) as (w1 & a & Heq & Hle); [lia|].
  pose proof (Hr w Hw) as [_ HR]. rewrite Heq in HR. destruct (Hf a w1 HR) as (w2 & b & Heq2 & Hle2); [lia|].
  exists w2, b. rewrite (bind_done _ _ _ _ _ Heq). split; [done|lia].
Qed.

Lemma lives_check {A B} k P (r : result A) a (f : A -> M B) : r = Ok a -> lives k P (f a) -> lives k P (lift r ≫= f).
Proof. intros -> Hf w Hw Hk. rewrite (bind_done _ _ w w a eq_refl). by apply Hf. Qed.

Lemma lives_look {A B} k (P : Files -> Prop) (g : Files -> A) (f : A -> M B) :
  (forall fs, P fs -> lives k (fun fs' => fs' = fs) (f (g fs))) -> lives k P (gets g ≫= f).
Proof. intros Hf w Hw Hk. rewrite (bind_done _ _ w w (g (files w)) eq_refl). by apply (Hf _ Hw). Qed.

Lemma lives_weaken {A} j k P (m : M A) : lives j P m -> (j <= k)%nat -> lives k P m.
Proof. intros Hm Hjk w Hw Hk. destruct (Hm w Hw) as (w' & a & ? & ?); [lia|]. exists w', a. split; [done|lia]. Qed.

Lemma maxZ_le d l m : d <= m -> (forall x, x ∈ l -> x <= m) -> maxZ d l <= m.
Proof.
  intros Hd Hl. destruct l as [|y r]; [done|]. cbn. assert (Hy : y <= m) by (apply Hl; set_solver).
  assert (Hr : forall x, x ∈ r -> x <= m) by (intros; apply Hl; set_solver). clear Hl.
  induction r as [|z r IH]; cbn; [done|]. pose proof (Hr z ltac:(set_solver)).
  specialize (IH ltac:(intros; apply Hr; set_solver)). lia.
Qed.

(** Every reservation's sequence is committed. *)
Definition settled (es : list CommittedEvent) (rs : list EventReservation) : Prop :=
  Forall (fun r => res_sequence r <= last_sequence es) rs.

Lemma settled_next es rs :
  chained cfg 1 "" es -> (forall r, r ∈ rs -> 1 <= res_sequence r) -> settled es rs ->
  maxZ 0 ((sequence <$> es) ++ (res_sequence <$> rs)) = last_sequence es.
Proof.
  intros Hc Hpos Hs. apply Z.le_antisymm.
  - apply maxZ_le; [rewrite (chained_last_sequence cfg _ Hc); unfold py_len; lia|].
    intros x [(e & -> & He)%list_elem_of_fmap|(r & -> & Hr)%list_elem_of_fmap]%elem_of_app.
    + by apply (member_bound cfg).
    + unfold settled in Hs. rewrite Forall_forall in Hs. by apply Hs.
  - destruct es as [|e es _] using rev_ind.
    + unfold last_sequence. cbn. destruct rs as [|r rs]; [done|].
      etrans; [|apply (maxZ_ge _ _ (res_sequence r)); set_solver].
      pose proof (Hpos r ltac:(set_solver)). lia.
    + unfold last_sequence. rewrite last_snoc. apply maxZ_ge. rewrite fmap_app. set_solver.
Qed.

Lemma holds_next es rs fs rs' : holds cfg es (rs ++ rs') fs -> settled es rs ->
  maxZ 0 ((sequence <$> es) ++ (res_sequence <$> rs)) = last_sequence es.
Proof.
  intros Hh Hs. apply settled_next; [by eapply holds_chained| |done].
  intros r Hr. apply (holds_row cfg _ _ _ r Hh). set_solver.
Qed.

Section progress.
Hypothesis hooks_pass : forall phase, append_hook cfg phase = Ok tt.
Variable content : string.

(** What is sealed under the digest of the body, if anything, is the body. *)
Definition own_seal (fs : Files) : Prop :=
  forall b, dict_get (digest_bytes content) (sealed fs) = Some b -> b = content.

Definition here es rs (fs : Files) : Prop := holds cfg es rs fs /\ own_seal fs.

(** No step of an append puts anything else there. *)
Definition keeps {A} (m : M A) : Prop := forall w, own_seal (files w) -> own_seal (files (m w).1).

Lemma keeps_ret {A} (a : A) : keeps (mret a).
Proof. by intros w. Qed.

Lemma keeps_bind {A B} (m : M A) (k : A -> M B) : keeps m -> (forall a, keeps (k a)) -> keeps (m ≫= k).
Proof.
  intros Hm Hk w Hw. specialize (Hm w Hw). unfold mbind, M_bind. destruct (m w) as [w' [a|x|]]; [by apply Hk|done..].
Qed.

Lemma keeps_lift {A} (r : result A) : keeps (lift r).
Proof. intros w Hw. unfold lift. by destruct r. Qed.

Lemma keeps_gets {A} (f : Files -> A) : keeps (gets f).
Proof. by intros w. Qed.

Lemma keeps_durable f g :
  (forall fs, own_seal fs -> own_seal (f fs)) -> (forall fs, own_seal fs -> own_seal (g fs)) -> keeps (durable f g).
Proof. intros Hf Hg w Hw. unfold durable. destruct (writes_left w); cbn; [destruct (tears w)|]; auto. Qed.

Lemma keeps_record r st : keeps (record_reservation r st).
Proof. by apply keeps_durable. Qed.

Lemma keeps_seal name : keeps (seal_blob name content).
Proof.
  apply keeps_bind; [apply keeps_gets|]. intros fs. destruct (dict_get _ _); [apply keeps_lift|]. apply keeps_durable; [|done].
  intros fs' Hs b. cbn. rewrite dict_get_set. case_bool_decide; [congruence|apply Hs].
Qed.

Ltac solve_keeps :=
  repeat first [apply keeps_ret | apply keeps_lift | apply keeps_gets | apply keeps_record | apply keeps_seal
    | apply keeps_bind; [|intros ?] | by apply keeps_durable | case_match].

Lemma keeps_reserve e p es n : keeps (reserve_locked cfg e p es n).
Proof. unfold reserve_locked, call_hook. solve_keeps. Qed.

Lemma keeps_commit r e p es : keeps (commit_locked cfg r e p content es).
Proof. unfold commit_locked, call_hook. solve_keeps. Qed.

Lemma keeps_reserve_and_commit e p es : keeps (reserve_and_commit cfg e p content es).
Proof.
  unfold reserve_and_commit. apply keeps_bind; [apply keeps_gets|]. intros held. apply keeps_bind; [apply keeps_lift|]. intros found.
  apply keeps_bind; [destruct found; [apply keeps_ret|apply keeps_reserve]|]. intros r. apply keeps_commit.
Qed.

Lemma runs_keep {A} (P : Files -> Prop) (m : M A) Q E :
  runs P m Q E -> keeps m -> runs (fun fs => P fs /\ own_seal fs) m (fun a fs => Q a fs /\ own_seal fs) E.
Proof.
  intros Hm Hk w [Hw Hs]. destruct (Hm w Hw) as [Ht Hr]. split; [done|]. specialize (Hk w Hs).
  destruct (m w) as [w' [a|x|]]; [by split|done..].
Qed.

Lemma lives_seal es rs : lives 1 (here es rs) (seal_blob (digest_bytes content) content).
Proof.
  unfold seal_blob. apply lives_look. intros fs [Hh Hu]. unfold id. destruct (dict_get _ _) as [b|] eqn:E.
  - apply Hu in E as ->.
    rewrite !bool_decide_true by done. apply (lives_weaken 0); [|lia]. intros w Hw _. exists w, tt. split; [done|lia].
  - apply lives_durable.
Qed.

Lemma lives_commit es rs r e p :
  proper (ev_type e) p content -> r ∈ rs -> matches_payload cfg e p r = true ->
  res_sequence r = last_sequence es + 1 -> lives 3 (here es rs) (commit_locked cfg r e p content es).
Proof.
  intros Hp Hr Hm Hseq. unfold matches_payload, get_or in Hm.
  rewrite (proper_blob _ _ _ Hp), (proper_bytes _ _ _ Hp) in Hm. cbn [default] in Hm. unfold id in Hm.
  apply andb_true_iff in Hm as [Hm Hbb]. apply andb_true_iff in Hm as [Hm Hbd]. bool_to_prop.
  unfold commit_locked. apply (lives_check _ _ _ tt); [by rewrite bool_decide_true|].
  apply (lives_check _ _ _ tt); [by rewrite Hseq, Z.eqb_refl|].
  apply (lives_check _ _ _ tt); [by rewrite !bool_decide_true|].
  apply (lives_check _ _ _ tt); [by rewrite bool_decide_true|].
  unfold item. rewrite (proper_blob _ _ _ Hp), (proper_bytes _ _ _ Hp).
  eapply lives_check; [done|]. eapply lives_check; [done|].
  apply (lives_check _ _ _ tt); [by rewrite Hbd, Hbb|].
  apply py_eqb_is_str in Hbd. injection Hbd as ->.
  change 3%nat with (1 + (1 + (1 + 0)))%nat. eapply lives_bind; [apply lives_seal|apply runs_keep; [apply runs_seal|apply keeps_seal]|intros []].
  unfold call_hook. rewrite !hooks_pass. eapply lives_check; [done|].
  eapply lives_bind; [apply lives_durable| |intros []].
  { apply (runs_durable _ _ _ (fun _ _ => True) (fun _ => True)); auto. }
  eapply lives_check; [done|].
  eapply lives_bind; [apply lives_durable| |intros []; apply lives_ret].
  apply (runs_durable _ _ _ (fun _ _ => True) (fun _ => True)); auto.
Qed.

Lemma lives_reserve es rs e p :
  proper (ev_type e) p content -> settled es rs -> lives 1 (holds cfg es rs) (reserve_locked cfg e p es None).
Proof.
  intros Hp Hs w Hw Hk. pose proof Hw as Hn. rewrite <-(app_nil_r rs) in Hn. apply holds_next in Hn; [|done]. revert w Hw Hk.
  change (lives 1 (holds cfg es rs) (reserve_locked cfg e p es None)).
  unfold reserve_locked. destruct (proper_contract _ _ _ Hp) as (c & -> & Hvalid).
  eapply lives_check; [done|]. apply lives_look. intros fs Hh. pose proof Hh as (_ & _ & -> & _).
  eapply lives_check; [done|]. cbn [default]. rewrite Hn.
  apply (lives_check _ _ _ tt); [unfold raise_if; destruct (Z.leb_spec (last_sequence es + 1) (last_sequence es)); [lia|done]|].
  apply (lives_check _ _ _ tt).
  { rewrite bool_decide_false; [done|]. intros (x & Hx & Hin)%list_elem_of_fmap.
    apply list_elem_of_In, filter_In in Hin as [Hin _]. apply list_elem_of_In in Hin.
    unfold settled in Hs. rewrite Forall_forall in Hs. specialize (Hs x Hin). lia. }
  eapply lives_check; [exact Hvalid|].
  unfold item. rewrite (proper_blob _ _ _ Hp), (proper_bytes _ _ _ Hp).
  eapply lives_check; [done|]. eapply lives_check; [done|]. eapply lives_check; [done|].
  change 1%nat with (1 + 0)%nat. eapply lives_bind; [apply lives_durable| |intros []].
  { apply (runs_durable _ _ _ (fun _ _ => True) (fun _ => True)); auto. }
  unfold call_hook. rewrite hooks_pass. eapply lives_check; [done|]. apply lives_ret.
Qed.

Lemma new_reservation_matches es rs e p :
  proper (ev_type e) p content ->
  matches_payload cfg e p (new_reservation cfg es rs (ev_type e) p content None) = true.
Proof.
  intros Hp. unfold matches_payload, get_or. rewrite (proper_blob _ _ _ Hp), (proper_bytes _ _ _ Hp).
  cbn [new_reservation status res_event_type res_run_id res_fingerprint res_blob_digest res_blob_bytes default].
  unfold id. by rewrite !bool_decide_true, !py_eqb_refl by done.
Qed.

Lemma lives_fresh es rs e p :
  proper (ev_type e) p content -> settled es rs -> List.filter (matches_payload cfg e p) rs = [] ->
  lives 4 (here es rs) (reserve_and_commit cfg e p content es).
Proof.
  intros Hp Hs Hf w Hw Hk. pose proof (proj1 Hw) as Hn. rewrite <-(app_nil_r rs) in Hn. apply holds_next in Hn; [|done]. revert w Hw Hk.
  change (lives 4 (here es rs) (reserve_and_commit cfg e p content es)).
  unfold reserve_and_commit. apply lives_look. intros fs [Hh Hu]. pose proof Hh as (_ & _ & Hr & _).
  unfold find_reservation_for_payload. rewrite Hr. cbn [mbind result_bind]. rewrite Hf.
  eapply lives_check; [done|]. change 4%nat with (1 + 3)%nat.
  eapply (lives_bind 1 3 (fun fs' => fs' = fs)).
  - intros w Hw Hk. apply (lives_reserve es rs e p Hp Hs); [by rewrite Hw|done].
  - eapply runs_conseq; [apply runs_keep; [by apply (runs_reserve cfg es rs e p content None)|apply keeps_reserve]|
      by intros ? ->|intros ? ? HQ; exact HQ|intros ? HE; exact HE].
  - intros r w [[-> Hh'] Hu'] Hk. eapply lives_commit; [done| | | |split; [exact Hh'|exact Hu']|done].
    + set_solver.
    + by apply new_reservation_matches.
    + cbn. by rewrite Hn.
Qed.

Lemma lives_held es rs e p r :
  proper (ev_type e) p content -> List.filter (matches_payload cfg e p) rs = [r] ->
  res_sequence r = last_sequence es + 1 -> lives 3 (here es rs) (reserve_and_commit cfg e p content es).
Proof.
  intros Hp Hf Hseq. unfold reserve_and_commit. apply lives_look. intros fs [Hh Hu]. pose proof Hh as (_ & _ & Hr & _).
  unfold find_reservation_for_payload. rewrite Hr. cbn [mbind result_bind]. rewrite Hf.
  eapply lives_check; [done|]. intros w Hw Hk. rewrite (bind_done _ _ w w r eq_refl).
  assert (Hin : In r rs /\ matches_payload cfg e p r = true) by (apply filter_In; rewrite Hf; by left).
  destruct Hin as [Hin Hm]. eapply lives_commit; [done| |done|done|by rewrite Hw|done]. by apply list_elem_of_In.
Qed.

Lemma lives_replayed es rs prior : lives 1 (holds cfg es rs) (replayed cfg prior).
Proof.
  unfold replayed. change 1%nat with (1 + 0)%nat.
  eapply (lives_bind 1 0 _ _ _ (fun _ _ => True) (fun _ => True)); [| |intros []; apply lives_ret].
  - unfold recover_reservation_locked. apply lives_look. intros fs Hh. pose proof Hh as (_ & _ & Hr & _).
    unfold reservation_for_sequence. rewrite Hr. cbn [mbind result_bind]. eapply lives_check; [done|].
    destruct (last _) as [r|]; [case_bool_decide; [apply lives_durable|]|];
      apply (lives_weaken 0); first [lia|apply lives_ret].
  - intros w _. split; [|by destruct (recover_reservation_locked cfg prior w) as [? []]; auto].
    unfold recover_reservation_locked, gets, lift, mbind, M_bind.
    destruct (reservation_for_sequence cfg (sequence prior) (files w)) as [[r|]|]; [case_bool_decide|..]; try done.
    unfold record_reservation, durable. by destruct (writes_left w).
Qed.

(** An append over a chain that does not have its event yet. *)
Lemma append_new es rs e body_ w :
  let content' := redact (redactor cfg) body_ in
  let p := payload_of cfg e content' in
  holds cfg es rs (files w) -> find_exact_identity es e p = None ->
  refuse_after_terminal es = Ok tt -> find_identity es e p = Ok None ->
  append cfg e body_ w = reserve_and_commit cfg e p content' es w.
Proof.
  intros content' p (_ & Hv & _) Hf Ht Hi. unfold append. fold content'. fold p.
  rewrite (bind_done _ _ _ _ _ (events_done cfg _ _ Hv)), Hf, Ht, Hi. done.
Qed.

Lemma append_again es rs e body_ w c :
  let p := payload_of cfg e (redact (redactor cfg) body_) in
  holds cfg es rs (files w) -> find_exact_identity es e p = Some c ->
  append cfg e body_ w = replayed cfg c w.
Proof.
  intros p (_ & Hv & _) Hf. unfold append. fold p. by rewrite (bind_done _ _ _ _ _ (events_done cfg _ _ Hv)), Hf.
Qed.

Lemma py_next_snoc {A} (q : A -> bool) l x : py_next q l = None -> q x = true -> py_next q (l ++ [x]) = Some x.
Proof.
  unfold py_next. induction l as [|y l IH]; cbn; [by intros _ ->|]. by destruct (q y).
Qed.

Lemma find_exact_snoc es e p :
  find_exact_identity es e p = None ->
  find_exact_identity (es ++ [next_event cfg es (ev_type e) p content]) e p
  = Some (next_event cfg es (ev_type e) p content).
Proof.
  intros Hf. apply py_next_snoc; [done|]. cbn [event_type payload next_event].
  unfold fields_eqb. by rewrite bool_decide_true, py_eqb_refl.
Qed.

(** With the writes it needs, a program that keeps [Q] ends in it. *)
Lemma lives_runs {A} k (P : Files -> Prop) (m : M A) Q E w :
  lives k P m -> runs P m Q E -> P (files w) -> (k <= writes_left w)%nat ->
  exists w' a, m w = (w', Done a) /\ Q a (files w').
Proof.
  intros Hl Hr Hw Hk. destruct (Hl w Hw Hk) as (w' & a & Heq & _). pose proof (Hr w Hw) as [_ HQ].
  rewrite Heq in HQ. eauto.
Qed.
End progress.

Section retry.
Context (es : list CommittedEvent) (rs : list EventReservation) (e : CanonicalEvent) (content : string).
Let content' := redact (redactor cfg) content.
Let p := payload_of cfg e content'.
Let c := next_event cfg es (ev_type e) p content'.
Let r := new_reservation cfg es rs (ev_type e) p content' None.
Hypothesis event_proper : proper (ev_type e) p content'.
Hypothesis hooks_pass : forall phase, append_hook cfg phase = Ok tt.
Hypothesis rows_settled : settled es rs.
Hypothesis fingerprint_new : Forall (fun r => res_fingerprint r <> event_fingerprint p) rs.
Hypothesis not_found : find_exact_identity es e p = None.
Hypothesis not_terminal : refuse_after_terminal es = Ok tt.
Hypothesis not_identified : find_identity es e p = Ok None.

(** The append returns the event, which ends the chain. *)
Definition appended (w : World) : Prop :=
  exists w2, append cfg e content w = (w2, Done c) /\ read_verified cfg (files w2) = Ok (es ++ [c]).

Lemma nothing_held : List.filter (matches_payload cfg e p) rs = [].
Proof using fingerprint_new.
  revert fingerprint_new. clear. intros Hfp. induction rs as [|x l IH]; [done|].
  apply Forall_cons in Hfp as [Hx Hfp]. cbn [List.filter].
  assert (matches_payload cfg e p x = false) as ->; [|by apply IH].
  apply not_true_is_false. unfold matches_payload. intros H. bool_to_prop. congruence.
Qed.

Lemma resume_before w : here content' es rs (files w) -> (4 <= writes_left w)%nat -> appended w.
Proof.
  intros [Hh Hu] Hk. unfold appended. rewrite (append_new es rs e content w Hh not_found not_terminal not_identified).
  destruct (lives_runs 4 (here content' es rs) (reserve_and_commit cfg e p content' es) _ _ w
    (lives_fresh hooks_pass content' es rs e p event_proper rows_settled nothing_held)
    (runs_keep _ _ _ _ _ (runs_fresh cfg es rs e p content' event_proper nothing_held) (keeps_reserve_and_commit content' e p es))
    (conj Hh Hu) Hk) as (w2 & a & Heq & [-> (_ & Hv & _)] & _).
  by exists w2.
Qed.

Lemma resume_reserved w : here content' es (rs ++ [r]) (files w) -> (3 <= writes_left w)%nat -> appended w.
Proof.
  intros [Hh Hu] Hk. unfold appended.
  rewrite (append_new es (rs ++ [r]) e content w Hh not_found not_terminal not_identified).
  assert (Hf : List.filter (matches_payload cfg e p) (rs ++ [r]) = [r]).
  { assert (Hm : matches_payload cfg e p r = true) by (by apply new_reservation_matches).
    rewrite List.filter_app, nothing_held. cbn [List.filter app]. by rewrite Hm. }
  assert (Hseq : res_sequence r = last_sequence es + 1).
  { pose proof (holds_next es rs (files w) [r] Hh rows_settled) as Hnext. cbn. by rewrite Hnext. }
  destruct (lives_runs 3 (here content' es (rs ++ [r])) (reserve_and_commit cfg e p content' es) _ _ w
    (lives_held hooks_pass content' es (rs ++ [r]) e p r event_proper Hf Hseq)
    (runs_keep _ _ _ _ _ (runs_held cfg es (rs ++ [r]) e p content' r event_proper Hf) (keeps_reserve_and_commit content' e p es))
    (conj Hh Hu) Hk) as (w2 & a & Heq & [-> (_ & Hv & _)] & _).
  by exists w2.
Qed.

Lemma resume_appended rs' w : holds cfg (es ++ [c]) rs' (files w) -> (1 <= writes_left w)%nat -> appended w.
Proof.
  intros Hh Hk. unfold appended.
  rewrite (append_again (es ++ [c]) rs' e content w c Hh); [|by apply find_exact_snoc].
  destruct (lives_runs 1 (holds cfg (es ++ [c]) rs') (replayed cfg c) (fun c' fs => c' = c /\ ok cfg (es ++ [c]) fs)
    (ok cfg (es ++ [c])) w (lives_replayed (es ++ [c]) rs' c)) as (w2 & a & Heq & -> & (rs2 & _ & Hv & _)); [|done..|by exists w2].
  eapply runs_conseq; [apply (runs_replayed cfg (es ++ [c]) c); set_solver|by eexists|done|done].
Qed.
End retry.

(** C9. An append is exactly-once under lost power, where power that is lost tears no write.  The store
    verifies and has no tombstone, every reservation's sequence is committed - none is orphaned -,
    the event's contract accepts it and it is new: no event and no reservation of it is there, the
    chain is not terminal, and what is sealed under the digest of its body, if anything, is its body;
    and the hooks pass.  Then, wherever power is lost during the append, repeating it on the next boot,
    with the four writes it may need, returns the event, and the chain holds it once, right after the
    events it held before. *)
Theorem append_exactly_once es rs e content w n :
  let content' := redact (redactor cfg) content in
  let p := payload_of cfg e content' in
  let c := next_event cfg es (ev_type e) p content' in
  proper (ev_type e) p content' -> holds cfg es rs (files w) -> settled es rs ->
  Forall (fun r => res_fingerprint r <> event_fingerprint p) rs ->
  find_exact_identity es e p = None -> refuse_after_terminal es = Ok tt -> find_identity es e p = Ok None ->
  (forall phase, append_hook cfg phase = Ok tt) ->
  (forall b, dict_get (digest_bytes content') (sealed (files w)) = Some b -> b = content') ->
  tears w = false -> (4 <= n)%nat ->
  let w1 := (append cfg e content w).1 in
  exists w2, append cfg e content {| files := files w1; writes_left := n; tears := false |} = (w2, Done c)
    /\ read_verified cfg (files w2) = Ok (es ++ [c]).
Proof.
  intros content' p c Hp Hh Hs Hfp Hf Ht Hi Hooks Hu Htear Hn w1.
  set (w0 := {| files := files w1; writes_left := n; tears := false |}).
  change (appended es e content w0).
  pose proof (append_new es rs e content w Hh Hf Ht Hi) as Heq. fold content' in Heq. fold p in Heq.
  pose proof (runs_fresh cfg es rs e p content' Hp (nothing_held rs e content Hfp) w Hh) as [_ Hr].
  pose proof (keeps_reserve_and_commit content' e p es w Hu) as Hu1.
  rewrite <-Heq in Hr, Hu1. unfold w0, w1. clear Heq w0 w1.
  destruct (append cfg e content w) as [w' [a|x|]]; cbn [fst] in *.
  - destruct Hr as [_ Hr]. eapply resume_appended; first [exact Hr|done|cbn; lia].
  - destruct Hr as [Hr|[Hr|Hr]].
    + eapply resume_before; first [done|split; done].
    + eapply resume_reserved; first [done|split; [exact Hr|done]|cbn; lia].
    + eapply resume_appended; first [exact Hr|done|cbn; lia].
  - destruct Hr as [[Hr|[Hr|Hr]]|[Hr _]]; [| | |congruence].
    + eapply resume_before; first [done|split; done].
    + eapply resume_reserved; first [done|split; [exact Hr|done]|cbn; lia].
    + eapply resume_appended; first [exact Hr|done|cbn; lia].
Qed.

(** A reservation of any sequence but the next cannot commit. *)
Lemma runs_gap es rs r e p content :
  res_sequence r <> last_sequence es + 1 ->
  runs (holds cfg es rs) (commit_locked cfg r e p content es) (fun _ _ => False) (holds cfg es rs).
Proof.
  intros Hne. unfold commit_locked. apply runs_check; [done|]. intros [] _. apply runs_check; [done|].
  intros [] Hs%raise_unless_ok. by apply Z.eqb_eq in Hs.
Qed.

(** An append that lost power between its reservation and its event blocks the Run: as
    long as some reservation past the chain is open, every append of an event that is not
    yet known and has no reservation of its own fails, adds no event, and leaves the
    reservation open - so that the next such append fails too. *)
Theorem orphan_blocks_appends es rs e content w r :
  let content' := redact (redactor cfg) content in
  let p := payload_of cfg e content' in
  proper (ev_type e) p content' -> holds cfg es rs (files w) ->
  r ∈ rs -> last_sequence es < res_sequence r -> Forall (fun x => matches_payload cfg e p x = false) rs ->
  find_exact_identity es e p = None -> refuse_after_terminal es = Ok tt -> find_identity es e p = Ok None ->
  tears w = false ->
  (forall c, (append cfg e content w).2 <> Done c)
  /\ exists rs', holds cfg es (rs ++ rs') (files (append cfg e content w).1).
Proof.
  intros content' p Hp Hh Hin Hlt Hm Hf Ht Hi Htear.
  pose proof (append_new es rs e content w Hh Hf Ht Hi) as Heq. fold content' in Heq. fold p in Heq. rewrite Heq.
  set (r' := new_reservation cfg es rs (ev_type e) p content' None).
  assert (Hnone : List.filter (matches_payload cfg e p) rs = []).
  { clear -Hm. induction Hm as [|x l Hx _ IH]; [done|]. cbn. by rewrite Hx. }
  assert (Hgap : res_sequence r' <> last_sequence es + 1).
  { pose proof (maxZ_ge 0 ((sequence <$> es) ++ (res_sequence <$> rs)) (res_sequence r)) as Hge.
    cbn. specialize (Hge ltac:(set_solver)). lia. }
  assert (Hr : runs (holds cfg es rs) (reserve_and_commit cfg e p content' es) (fun _ _ => False)
    (fun fs => holds cfg es rs fs \/ holds cfg es (rs ++ [r']) fs)).
  { unfold reserve_and_commit. apply runs_look. intros fs Hfs. pose proof Hfs as (_ & _ & Hrs & _).
    unfold find_reservation_for_payload. rewrite Hrs. cbn [mbind result_bind]. rewrite Hnone.
    apply runs_check; [intros ? [? _]; by left|]. intros held [= <-].
    eapply store_bind; [eapply runs_conseq; [by apply (runs_reserve cfg es rs e p content' None)|by intros ? [? _]|done|done]|].
    intros r2. apply runs_now. intros fs' [-> Hfs'].
    eapply runs_conseq; [by apply (runs_gap es (rs ++ [r']) r' e p content')|by intros ? ->|done|by right]. }
  destruct (Hr w Hh) as [_ HR]. destruct (reserve_and_commit cfg e p content' es w) as [w' [c|x|]]; [done|..].
  - split; [done|]. cbn [fst]. destruct HR; [exists []; by rewrite app_nil_r|by exists [r']].
  - split; [done|]. cbn [fst].
    destruct HR as [[?|?]|[? _]]; [exists []; by rewrite app_nil_r|by exists [r']|congruence].
Qed.
End theorems.
