(* ===== verification/EventContracts.v ===== *)
(** The event types the store's own contracts module defines.

    [src/solver/event_store_contracts.py]: [ObservationRecorded], [LifecycleRecorded] and
    [WorkGenerationRecorded], the payload each writes and the payloads each accepts.  An
    Observation's [mono] is a float in the code; it is any JSON value here, and a float is
    not representable.  [event_contract] is a table over these and the contracts of other
    modules, which are an argument. *)

From Stdlib Require Import Ascii.
From S2P Require Import Prelude Canon Text Redaction PyJson EventStore.
Local Open Scope Z_scope.

Definition OBSERVATION_RECORDED : string := "observation.recorded".
Definition LIFECYCLE_RECORDED : string := "lifecycle.recorded".
Definition WORK_GENERATION_RECORDED : string := "work-generation.recorded".

(** ** Field types *)

Inductive kind : Type := KStr | KInt | KBool | KFloat | KNone.

(** [isinstance(value, kind)]. *)
Definition isinstance (v : json) (k : kind) : bool :=
  match k with
  | KStr => is_str v
  | KInt => is_int v
  | KBool => is_bool v
  | KFloat => false
  | KNone => is_none v
  end.

Definition kind_name (k : kind) : string :=
  match k with KStr => "str" | KInt => "int" | KBool => "bool" | KFloat => "float" | KNone => "NoneType" end.

Definition missing_from (names : list string) (p : fields) : list string :=
  List.filter (fun name => negb (dict_has name p)) names.

(** [raise InvalidEventError(...)] when fields are missing. *)
Definition require_fields (what : string) (names : list string) (p : fields) : result unit :=
  match missing_from names p with
  | [] => Ok tt
  | missing => Err (InvalidEventError (what +:+ " payload is missing required fields: " +:+ join ", " missing))
  end.

(** The loop over [fields.items()] of the lifecycle and generation contracts. *)
Fixpoint require_types (what : string) (types : list (string * kind)) (p : fields) : result unit :=
  match types with
  | [] => Ok tt
  | (name, k) :: rest =>
      v ← item name p;
      raise_if (negb (isinstance v k) || (match k with KInt => is_bool v | _ => false end))
        (InvalidEventError (what +:+ " payload field " +:+ repr_str name +:+ " has the wrong type"));;
      require_types what rest p
  end.

Definition text_of (name : string) (p : fields) : result string :=
  v ← item name p;
  match v with JStr s => Ok s | _ => Err (TypeError "expected str") end.

Definition int_field (name : string) (p : fields) : result Z := v ← item name p; int_of v.

Definition one_of (s : string) (l : list string) : bool := bool_decide (s ∈ l).

(** [bool(text)]. *)
Definition filled (s : string) : bool := negb (bool_decide (s = "")).

Definition identity_by_event_id (p : fields) : result json :=
  Ok (JStr (py_str (get_or "event_id" (JStr "") p))).

(** ** Lifecycle *)

Inductive LifecycleRecord : Type :=
  | RUN_OPEN_ | SERVICE_STARTED | BOOT_OPEN | SIGNAL_FORWARDED | CHILD_REAPED | BOOT_CLOSE | RUN_CLOSE_.

Definition lifecycle_value (r : LifecycleRecord) : string :=
  match r with
  | RUN_OPEN_ => "run-open" | SERVICE_STARTED => "service-started" | BOOT_OPEN => "boot-open"
  | SIGNAL_FORWARDED => "signal-forwarded" | CHILD_REAPED => "child-reaped" | BOOT_CLOSE => "boot-close"
  | RUN_CLOSE_ => "run-close"
  end.

Definition all_lifecycle : list LifecycleRecord :=
  [RUN_OPEN_; SERVICE_STARTED; BOOT_OPEN; SIGNAL_FORWARDED; CHILD_REAPED; BOOT_CLOSE; RUN_CLOSE_].

Inductive TerminalDisposition : Type := NORMAL | REFUSED_ | INTERRUPTED | CRASHED_.

Definition terminal_value (d : TerminalDisposition) : string :=
  match d with NORMAL => "normal" | REFUSED_ => "refused" | INTERRUPTED => "interrupted" | CRASHED_ => "crashed" end.

Inductive ForwardedSignal : Type := TERM | INT.

Definition signal_value (s : ForwardedSignal) : string := match s with TERM => "SIGTERM" | INT => "SIGINT" end.

Inductive ServiceName : Type :=
  | VERIFIED_REPLAY | STORAGE_ADMISSION | STRICT_ISOLATION | CREDENTIAL_CUSTODY | RUN_CONTROLLER.

Definition service_value (s : ServiceName) : string :=
  match s with
  | VERIFIED_REPLAY => "verified-replay" | STORAGE_ADMISSION => "storage-admission"
  | STRICT_ISOLATION => "strict-isolation" | CREDENTIAL_CUSTODY => "credential-custody"
  | RUN_CONTROLLER => "run-controller"
  end.

Inductive LifecycleFact : Type :=
  | RunOpened
  | ServiceStarted (boot_id : string) (service : ServiceName)
  | BootOpened (boot_id : string)
  | SignalForwarded (boot_id : string) (signal : ForwardedSignal)
  | ChildReaped (boot_id : string) (reaped_children : Z)
  | BootClosed (boot_id : string) (disposition : TerminalDisposition) (detail : string)
  | RunClosed (disposition : TerminalDisposition) (detail : string).

Record LifecycleRecorded : Type := { lc_event_id : string; fact : LifecycleFact; lc_ts : string }.

(** The payload with its empty defaults, updated by the fact. *)
Definition lifecycle_payload (ev : LifecycleRecorded) (bd : string) (bb : Z) : fields :=
  let row record boot service disposition signal reaped detail := [
    ("event_id", JStr (lc_event_id ev)); ("record", JStr (lifecycle_value record)); ("boot_id", JStr boot);
    ("service", JStr service); ("disposition", JStr disposition); ("signal", JStr signal);
    ("reaped_children", JInt reaped); ("detail", JStr detail); ("ts", JStr (lc_ts ev));
    ("blob_digest", JStr bd); ("blob_bytes", JInt bb)] in
  match fact ev with
  | RunOpened => row RUN_OPEN_ "" "" "" "" 0 ""
  | ServiceStarted b s => row SERVICE_STARTED b (service_value s) "" "" 0 ""
  | BootOpened b => row BOOT_OPEN b "" "" "" 0 ""
  | SignalForwarded b s => row SIGNAL_FORWARDED b "" "" (signal_value s) 0 ""
  | ChildReaped b n => row CHILD_REAPED b "" "" "" n ""
  | BootClosed b d t => row BOOT_CLOSE b "" (terminal_value d) "" 0 t
  | RunClosed d t => row RUN_CLOSE_ "" "" (terminal_value d) "" 0 t
  end.

Definition lifecycle_fields : list (string * kind) := [
  ("event_id", KStr); ("record", KStr); ("boot_id", KStr); ("service", KStr); ("disposition", KStr);
  ("signal", KStr); ("reaped_children", KInt); ("detail", KStr); ("ts", KStr); ("blob_digest", KStr);
  ("blob_bytes", KInt)].

Definition lifecycle_validate (p : fields) : result unit :=
  require_fields "Lifecycle" lifecycle_fields.*1 p;;
  require_types "Lifecycle" lifecycle_fields p;;
  eid ← text_of "event_id" p;
  record ← text_of "record" p;
  reaped ← int_field "reaped_children" p;
  bb ← int_field "blob_bytes" p;
  dg ← text_of "blob_digest" p;
  disposition ← text_of "disposition" p;
  boot ← text_of "boot_id" p;
  service ← text_of "service" p;
  signal ← text_of "signal" p;
  raise_if (negb (filled eid) || negb (one_of record (lifecycle_value <$> all_lifecycle)))
    (InvalidEventError "Lifecycle identity or record is unsupported");;
  raise_if ((reaped <? 0) || (bb <? 0)) (InvalidEventError "Lifecycle payload contains a negative count");;
  raise_unless (is_sha256 dg) (InvalidEventError "Lifecycle blob digest is not lowercase SHA-256");;
  raise_if (negb (bb =? 0) || negb (bool_decide (dg = EMPTY_BLOB_DIGEST)))
    (InvalidEventError "Lifecycle events cannot carry a sealed body");;
  (if one_of record ["boot-close"; "run-close"]
   then raise_unless (one_of disposition (terminal_value <$> [NORMAL; REFUSED_; INTERRUPTED; CRASHED_]))
          (InvalidEventError "Lifecycle terminal disposition is unsupported")
   else raise_if (filled disposition) (InvalidEventError "Lifecycle nonterminal record carries a disposition"));;
  (if one_of record ["service-started"; "boot-open"; "signal-forwarded"; "child-reaped"; "boot-close"]
   then raise_unless (filled boot) (InvalidEventError "Lifecycle Boot record has no Boot identity")
   else raise_if (filled boot) (InvalidEventError "Lifecycle Run record carries a Boot identity"));;
  raise_if (negb (Bool.eqb (bool_decide (record = "service-started")) (filled service)))
    (InvalidEventError "Lifecycle service identity disagrees with its record");;
  (if bool_decide (record = "signal-forwarded")
   then raise_unless (one_of signal (signal_value <$> [TERM; INT]))
          (InvalidEventError "Lifecycle forwarded signal is unsupported")
   else raise_if (filled signal) (InvalidEventError "Lifecycle nonsignal record carries a signal"));;
  raise_if (negb (bool_decide (record = "child-reaped")) && negb (reaped =? 0))
    (InvalidEventError "Lifecycle non-reap record carries a child count").

Definition lifecycle_event (ev : LifecycleRecorded) : CanonicalEvent := {|
  ev_type := LIFECYCLE_RECORDED; identity := JStr (lc_event_id ev); event_id := Some (lc_event_id ev);
  ev_payload := lifecycle_payload ev |}.

Definition lifecycle_contract : Contract := {|
  validate_payload := lifecycle_validate; identity_from_payload := identity_by_event_id;
  exact_payload_identity := false |}.

(** ** Work generations *)

Inductive GenerationDisposition : Type := COMPLETE | INTERRUPT | SUPERSEDE | ABANDON.
Inductive GenerationAuthority : Type := CARRY | CANDIDATE | TOOL | AUTHORITY_.
Inductive GenerationRecord : Type := ACQUIRE | CLOSE | AUTHORITY | LATE_EVENT.
Inductive GenerationClassification : Type := CURRENT | CLOSED | SUPERSEDED.

#[export] Instance GenerationDisposition_eq_dec : EqDecision GenerationDisposition.
Proof. solve_decision. Defined.
#[export] Instance GenerationRecord_eq_dec : EqDecision GenerationRecord.
Proof. solve_decision. Defined.
#[export] Instance GenerationClassification_eq_dec : EqDecision GenerationClassification.
Proof. solve_decision. Defined.

Definition disposition_value (d : GenerationDisposition) : string :=
  match d with COMPLETE => "complete" | INTERRUPT => "interrupt" | SUPERSEDE => "supersede" | ABANDON => "abandon" end.
Definition authority_value (a : GenerationAuthority) : string :=
  match a with CARRY => "carry" | CANDIDATE => "candidate" | TOOL => "tool" | AUTHORITY_ => "authority" end.
Definition record_value (r : GenerationRecord) : string :=
  match r with ACQUIRE => "acquire" | CLOSE => "close" | AUTHORITY => "authority" | LATE_EVENT => "late-event" end.
Definition classification_value (c : GenerationClassification) : string :=
  match c with
  | CURRENT => "current-generation" | CLOSED => "closed-generation" | SUPERSEDED => "superseded-generation"
  end.

Definition all_dispositions : list GenerationDisposition := [COMPLETE; INTERRUPT; SUPERSEDE; ABANDON].
Definition all_authorities : list GenerationAuthority := [CARRY; CANDIDATE; TOOL; AUTHORITY_].
Definition all_records : list GenerationRecord := [ACQUIRE; CLOSE; AUTHORITY; LATE_EVENT].

(** [GenerationRecord(value)] and [GenerationDisposition(value)]. *)
Definition record_of (s : string) : option GenerationRecord :=
  List.find (fun r => bool_decide (record_value r = s)) all_records.
Definition disposition_of (s : string) : option GenerationDisposition :=
  List.find (fun d => bool_decide (disposition_value d = s)) all_dispositions.

Record WorkGenerationRecorded : Type := {
  wg_event_id : string;
  wg_generation_id : string;
  wg_work_id : string;
  wg_attempt_id : string;
  wg_record : GenerationRecord;
  wg_disposition : option GenerationDisposition;
  wg_authority : option GenerationAuthority;
  wg_classification : option GenerationClassification;
  wg_ts : string
}.

Definition or_empty {A} (f : A -> string) (o : option A) : string :=
  match o with Some a => f a | None => "" end.

Definition generation_payload (ev : WorkGenerationRecorded) (bd : string) (bb : Z) : fields := [
  ("event_id", JStr (wg_event_id ev));
  ("generation_id", JStr (wg_generation_id ev));
  ("work_id", JStr (wg_work_id ev));
  ("attempt_id", JStr (wg_attempt_id ev));
  ("record", JStr (record_value (wg_record ev)));
  ("disposition", JStr (or_empty disposition_value (wg_disposition ev)));
  ("authority", JStr (or_empty authority_value (wg_authority ev)));
  ("classification", JStr (or_empty classification_value (wg_classification ev)));
  ("ts", JStr (wg_ts ev));
  ("blob_digest", JStr bd);
  ("blob_bytes", JInt bb)].

Definition generation_fields : list (string * kind) := [
  ("event_id", KStr); ("generation_id", KStr); ("work_id", KStr); ("attempt_id", KStr); ("record", KStr);
  ("disposition", KStr); ("authority", KStr); ("classification", KStr); ("ts", KStr); ("blob_digest", KStr);
  ("blob_bytes", KInt)].

Definition require_empty_body (bb : Z) (dg : string) : result unit :=
  raise_if (negb (bb =? 0) || negb (bool_decide (dg = EMPTY_BLOB_DIGEST)))
    (InvalidEventError "Work-generation transition cannot carry a sealed body").

Definition generation_validate (p : fields) : result unit :=
  require_fields "Work-generation" generation_fields.*1 p;;
  require_types "Work-generation" generation_fields p;;
  eid ← text_of "event_id" p;
  gid ← text_of "generation_id" p;
  wid ← text_of "work_id" p;
  aid ← text_of "attempt_id" p;
  record ← text_of "record" p;
  disposition ← text_of "disposition" p;
  authority ← text_of "authority" p;
  classification ← text_of "classification" p;
  dg ← text_of "blob_digest" p;
  bb ← int_field "blob_bytes" p;
  raise_unless (py_all filled [eid; gid; wid; aid]) (InvalidEventError "Work-generation identity is incomplete");;
  raise_unless (one_of record (record_value <$> all_records))
    (InvalidEventError "Work-generation record is unsupported");;
  raise_if (bb <? 0) (InvalidEventError "Work-generation body size is negative");;
  raise_unless (is_sha256 dg) (InvalidEventError "Work-generation blob digest is not lowercase SHA-256");;
  if bool_decide (record = record_value ACQUIRE) then
    raise_if (py_any filled [disposition; authority; classification])
      (InvalidEventError "Work-generation acquisition carries closing data");;
    require_empty_body bb dg
  else if bool_decide (record = record_value CLOSE) then
    raise_unless (one_of disposition (disposition_value <$> all_dispositions))
      (InvalidEventError "Work-generation close disposition is unsupported");;
    raise_if (filled authority || filled classification)
      (InvalidEventError "Work-generation close carries late-event data");;
    require_empty_body bb dg
  else if bool_decide (record = record_value AUTHORITY) then
    raise_if (filled disposition) (InvalidEventError "Work-generation authority reservation carries a disposition");;
    raise_unless (one_of authority (authority_value <$> all_authorities))
      (InvalidEventError "Work-generation authority kind is unsupported");;
    raise_unless (bool_decide (classification = classification_value CURRENT))
      (InvalidEventError "Work-generation authority reservation is not current");;
    require_empty_body bb dg
  else
    raise_if (filled disposition) (InvalidEventError "Work-generation late event carries a close disposition");;
    raise_unless (one_of authority (authority_value <$> all_authorities))
      (InvalidEventError "Work-generation authority kind is unsupported");;
    raise_unless (one_of classification [classification_value CLOSED; classification_value SUPERSEDED])
      (InvalidEventError "Work-generation late-event classification is unsupported").

Definition generation_event (ev : WorkGenerationRecorded) : CanonicalEvent := {|
  ev_type := WORK_GENERATION_RECORDED; identity := JStr (wg_event_id ev); event_id := Some (wg_event_id ev);
  ev_payload := generation_payload ev |}.

Definition generation_contract : Contract := {|
  validate_payload := generation_validate; identity_from_payload := identity_by_event_id;
  exact_payload_identity := false |}.

(** ** Observations *)

Record ObservationRecorded : Type := {
  ob_attempt_id : string;
  step_index : Z;
  command_raw : string;
  command_normalised : string;
  tool : string;
  source : string;
  exit_code : option Z;
  duration_ms : Z;
  checkpoint : option string;
  model : string;
  tokens_in : Z;
  tokens_out : Z;
  cache_read : Z;
  cache_write : Z;
  usage_known : bool;
  ob_ts : option string;
  mono : json;
  ob_event_id : option string
}.

Definition or_none {A} (f : A -> json) (o : option A) : json := match o with Some a => f a | None => JNull end.

Definition observation_payload (ev : ObservationRecorded) (bd : string) (bb : Z) : fields := [
  ("attempt_id", JStr (ob_attempt_id ev)); ("step_index", JInt (step_index ev));
  ("command_raw", JStr (command_raw ev)); ("command_normalised", JStr (command_normalised ev));
  ("tool", JStr (tool ev)); ("source", JStr (source ev)); ("exit_code", or_none JInt (exit_code ev));
  ("duration_ms", JInt (duration_ms ev)); ("checkpoint", or_none JStr (checkpoint ev));
  ("model", JStr (model ev)); ("tokens_in", JInt (tokens_in ev)); ("tokens_out", JInt (tokens_out ev));
  ("cache_read", JInt (cache_read ev)); ("cache_write", JInt (cache_write ev));
  ("usage_known", JBool (usage_known ev)); ("ts", or_none JStr (ob_ts ev)); ("mono", mono ev);
  ("blob_digest", JStr bd); ("blob_bytes", JInt bb); ("event_id", or_none JStr (ob_event_id ev))].

Definition observation_types : list (string * list kind) := [
  ("attempt_id", [KStr]); ("step_index", [KInt]); ("command_raw", [KStr]); ("command_normalised", [KStr]);
  ("tool", [KStr]); ("source", [KStr]); ("exit_code", [KInt; KNone]); ("duration_ms", [KInt]);
  ("checkpoint", [KStr; KNone]); ("model", [KStr]); ("tokens_in", [KInt]); ("tokens_out", [KInt]);
  ("cache_read", [KInt]); ("cache_write", [KInt]); ("usage_known", [KBool]); ("ts", [KStr; KNone]);
  ("mono", [KInt; KFloat; KNone]); ("blob_digest", [KStr]); ("blob_bytes", [KInt]); ("event_id", [KStr; KNone])].

Definition integer_fields : list string :=
  ["exit_code"; "step_index"; "duration_ms"; "tokens_in"; "tokens_out"; "cache_read"; "cache_write"; "blob_bytes"].

Fixpoint observation_typed (types : list (string * list kind)) (p : fields) : result unit :=
  match types with
  | [] => Ok tt
  | (name, expected) :: rest =>
      v ← item name p;
      raise_if (negb (py_any (isinstance v) expected) || (one_of name (integer_fields ++ ["mono"]) && is_bool v))
        (InvalidEventError ("Observation payload field " +:+ repr_str name +:+ " must be "
           +:+ join " or " (kind_name <$> List.filter (fun k => negb (match k with KNone => true | _ => false end)) expected)));;
      observation_typed rest p
  end.

Definition observation_validate (p : fields) : result unit :=
  require_fields "Observation" observation_types.*1 p;;
  observation_typed observation_types p;;
  dg ← text_of "blob_digest" p;
  raise_unless (is_sha256 dg) (InvalidEventError "Observation blob digest is not lowercase SHA-256");;
  step ← int_field "step_index" p;
  duration ← int_field "duration_ms" p;
  counts ← map_result (fun name => int_field name p) ["tokens_in"; "tokens_out"; "cache_read"; "cache_write"; "blob_bytes"];
  raise_if ((step <? 1) || (duration <? 0) || py_any (fun n => n <? 0) counts)
    (InvalidEventError "Observation payload contains a negative count").

(** [str(payload.get("attempt_id", "")), int(payload.get("step_index", -1))]. *)
Definition observation_identity (p : fields) : result json :=
  n ← int_of (get_or "step_index" (JInt (-1)) p);
  Ok (JList [JStr (py_str (get_or "attempt_id" (JStr "") p)); JInt n]).

Definition observation_event (ev : ObservationRecorded) : CanonicalEvent := {|
  ev_type := OBSERVATION_RECORDED; identity := JList [JStr (ob_attempt_id ev); JInt (step_index ev)];
  event_id := ob_event_id ev; ev_payload := observation_payload ev |}.

Definition observation_contract : Contract := {|
  validate_payload := observation_validate; identity_from_payload := observation_identity;
  exact_payload_identity := false |}.

(** ** The table *)

Definition contracts (others : string -> option Contract) : Contracts := fun t =>
  if bool_decide (t = OBSERVATION_RECORDED) then Some observation_contract
  else if bool_decide (t = LIFECYCLE_RECORDED) then Some lifecycle_contract
  else if bool_decide (t = WORK_GENERATION_RECORDED) then Some generation_contract
  else others t.
