(* ===== verification/ContractFacts.v ===== *)
(** What the event contracts accept: exactly the payloads their events write. *)

From Stdlib Require Import Ascii.
From S2P Require Import Prelude Canon Text Redaction PyJson EventStore EventContracts.
Local Open Scope Z_scope.

#[global] Arguments dict_get : simpl never.

(** ** Digests *)

Lemma hex_digit_hex n : 0 <= n < 16 -> is_hex (hex_digit n) = true.
Proof.
  intros Hn. replace n with (Z.of_nat (Z.to_nat n)) by lia. assert (Hk : (Z.to_nat n < 16)%nat) by lia.
  revert Hk. generalize (Z.to_nat n). intros k Hk. do 16 (destruct k as [|k]; [reflexivity|]). lia.
Qed.

Lemma chars_app_str s t : chars (s +:+ t) = chars s ++ chars t.
Proof. induction s as [|c s IH]; [done|]. change (c :: chars (s +:+ t) = c :: (chars s ++ chars t)). by rewrite IH. Qed.

Lemma hex_byte_hex n : 0 <= n < 256 -> Forall (fun c => is_hex c = true) (chars (hex_byte n)).
Proof.
  intros Hn. assert (0 <= n / 16 < 16) by (split; [apply Z.div_pos; lia|apply Z.div_lt_upper_bound; lia]).
  assert (0 <= n mod 16 < 16) by (apply Z.mod_pos_bound; lia).
  cbn. repeat constructor; by apply hex_digit_hex.
Qed.

Lemma be_bytes_bytes n x : Forall (fun b => 0 <= b < 256) (be_bytes n x).
Proof. induction n as [|n IH]; cbn [be_bytes]; constructor; [by apply Z.mod_pos_bound|done]. Qed.

(** Eight hexadecimal digits per word. *)
Lemma word_hex w :
  let s := join "" (hex_byte <$> be_bytes 4 w) in length (chars s) = 8%nat /\ Forall (fun c => is_hex c = true) (chars s).
Proof.
  pose proof (be_bytes_bytes 4 w) as Hb. cbn [be_bytes fmap list_fmap join] in *.
  repeat (apply Forall_cons in Hb as [? Hb]). split; [done|].
  rewrite !chars_app_str, !Forall_app. split_and!; try (by apply hex_byte_hex); constructor.
Qed.

Lemma hexdigest_hex ws :
  length (chars (hexdigest ws)) = (8 * length ws)%nat /\ Forall (fun c => is_hex c = true) (chars (hexdigest ws)).
Proof.
  induction ws as [|w ws [IHl IHf]]; [done|]. cbn [hexdigest foldr]. fold (hexdigest ws).
  destruct (word_hex w) as [Hl Hf]. rewrite chars_app_str, length_app, Hl, IHl, Forall_app. cbn. split; [lia|done].
Qed.

Lemma sha_round_length st kw : length st = 8%nat -> length (sha_round st kw) = 8%nat.
Proof. unfold sha_round. by repeat (destruct st as [|? st]; try done). Qed.

Lemma sha_block_length st block : length st = 8%nat -> length (sha_block st block) = 8%nat.
Proof.
  intros Hst. unfold sha_block. rewrite length_zip_with.
  assert (Hl : forall l s, length s = 8%nat -> length (foldl sha_round s l) = 8%nat).
  { induction l as [|x l IH]; intros s Hs; [done|]. cbn. by apply IH, sha_round_length. }
  rewrite Hl by done. lia.
Qed.

Lemma sha_blocks_length fuel : forall st ws, length st = 8%nat -> length (sha_blocks fuel st ws) = 8%nat.
Proof. induction fuel as [|n IH]; intros st [|w ws] Hst; cbn; try done. by apply IH, sha_block_length. Qed.

Lemma is_sha256_spec s :
  is_sha256 s = true <-> String.length s = 64%nat /\ Forall (fun c => is_hex c = true) (chars s).
Proof.
  unfold is_sha256. rewrite andb_true_iff, Nat.eqb_eq. unfold py_all. rewrite forallb_forall, Forall_forall.
  split; intros [H1 H2]; (split; [done|]); intros c Hc; apply H2; by apply list_elem_of_In.
Qed.

Lemma string_length_chars s : String.length s = length (chars s).
Proof. induction s as [|c s IH]; [done|]. cbn. by rewrite IH. Qed.

(** Every SHA-256 digest is one the contracts take. *)
Lemma sha256_is_sha256 content : is_sha256 (sha256_digester content) = true.
Proof.
  apply is_sha256_spec. rewrite string_length_chars. unfold sha256_digester.
  destruct (hexdigest_hex (sha256 content)) as [-> Hf]. split; [|done].
  unfold sha256. rewrite sha_blocks_length; done.
Qed.

(** ** Reading a payload's fields *)

Lemma text_of_Ok name p s : text_of name p = Ok s <-> dict_get name p = Some (JStr s).
Proof.
  unfold text_of, item. destruct (dict_get name p) as [v|]; cbn; [|split; done].
  destruct v; cbn; split; try done; congruence.
Qed.

Lemma require_fields_ok what names p :
  require_fields what names p = Ok tt <-> Forall (fun n => is_Some (dict_get n p)) names.
Proof.
  unfold require_fields, missing_from. induction names as [|n names IH]; [by split|]. cbn [List.filter].
  rewrite Forall_cons, <-IH. unfold dict_has. case_bool_decide as Hb; cbn [negb]; [naive_solver|].
  split; [done|]. intros [? _]. done.
Qed.

(** A value of the kind the code asks for: [bool] is no [int] here. *)
Definition of_kind (v : json) (k : kind) : bool :=
  isinstance v k && negb (match k with KInt => is_bool v | _ => false end).

Lemma require_types_ok what types p :
  require_types what types p = Ok tt
  <-> Forall (fun nk => exists v, dict_get nk.1 p = Some v /\ of_kind v nk.2 = true) types.
Proof.
  induction types as [|[n k] types IH]; [by split|]. cbn [require_types]. rewrite Forall_cons. cbn [fst snd]. split.
  - intros H. apply bind_ok in H as (v & Hv & H). apply bind_ok in H as ([] & Hb%raise_if_ok & H). split; [|by apply IH].
    unfold item in Hv. destruct (dict_get n p) as [v'|]; [|done]. injection Hv as ->. exists v. split; [done|].
    apply orb_false_iff in Hb as [H1 H2]. unfold of_kind. apply negb_false_iff in H1. by rewrite H1, H2.
  - intros [(v & Hv & Hk) Hrest]. unfold item. rewrite Hv. cbn [mbind result_bind]. unfold of_kind in Hk.
    apply andb_true_iff in Hk as [H1 H2]. apply negb_true_iff in H2. rewrite H1, H2. cbn. by apply IH.
Qed.

Lemma int_kind v : of_kind v KInt = true <-> exists n, v = JInt n.
Proof. destruct v; cbn; (split; [try done; eauto|intros [? ?]; by simplify_eq]). Qed.

Lemma str_kind v : of_kind v KStr = true <-> exists s, v = JStr s.
Proof. destruct v; cbn; (split; [try done; eauto|intros [? ?]; by simplify_eq]). Qed.

Lemma filled_ok s : filled s = true <-> s <> "".
Proof. unfold filled. rewrite negb_true_iff. apply bool_decide_eq_false. Qed.

Lemma filled_no s : filled s = false <-> s = "".
Proof. unfold filled. rewrite negb_false_iff. apply bool_decide_eq_true. Qed.

Lemma one_of_ok s l : one_of s l = true <-> s ∈ l.
Proof. apply bool_decide_eq_true. Qed.

(** ** Work generations *)

(** A generation event that carries just the data of its record. *)
Definition well_formed (ev : WorkGenerationRecorded) (bd : string) (bb : Z) : Prop :=
  wg_event_id ev <> "" /\ wg_generation_id ev <> "" /\ wg_work_id ev <> "" /\ wg_attempt_id ev <> ""
  /\ is_sha256 bd = true /\ 0 <= bb
  /\ match wg_record ev with
     | ACQUIRE => wg_disposition ev = None /\ wg_authority ev = None /\ wg_classification ev = None
         /\ bb = 0 /\ bd = EMPTY_BLOB_DIGEST
     | CLOSE => is_Some (wg_disposition ev) /\ wg_authority ev = None /\ wg_classification ev = None
         /\ bb = 0 /\ bd = EMPTY_BLOB_DIGEST
     | AUTHORITY => wg_disposition ev = None /\ is_Some (wg_authority ev) /\ wg_classification ev = Some CURRENT
         /\ bb = 0 /\ bd = EMPTY_BLOB_DIGEST
     | LATE_EVENT => wg_disposition ev = None /\ is_Some (wg_authority ev)
         /\ (wg_classification ev = Some CLOSED \/ wg_classification ev = Some SUPERSEDED)
     end.

(** [p] has the fields of [q] that [types] name. *)
Definition agrees (types : list (string * kind)) (p q : fields) : Prop :=
  Forall (fun nk => dict_get nk.1 p = dict_get nk.1 q) types.

Lemma require_empty_body_ok bb dg : require_empty_body bb dg = Ok tt <-> bb = 0 /\ dg = EMPTY_BLOB_DIGEST.
Proof.
  unfold require_empty_body. rewrite raise_if_ok, orb_false_iff, !negb_false_iff, Z.eqb_eq. by rewrite bool_decide_eq_true.
Qed.

Lemma or_empty_disposition s : s ∈ disposition_value <$> all_dispositions -> exists d, s = disposition_value d.
Proof. intros (d & -> & _)%list_elem_of_fmap. eauto. Qed.

Lemma one_of_disposition d : one_of (disposition_value d) (disposition_value <$> all_dispositions) = true.
Proof. by destruct d. Qed.

Lemma one_of_authority a : one_of (authority_value a) (authority_value <$> all_authorities) = true.
Proof. by destruct a. Qed.

Lemma after_raise_if b e (m : result unit) : (raise_if b e;; m) = Ok tt <-> b = false /\ m = Ok tt.
Proof. destruct b; cbn; naive_solver. Qed.

Lemma after_raise_unless b e (m : result unit) : (raise_unless b e;; m) = Ok tt <-> b = true /\ m = Ok tt.
Proof. destruct b; cbn; naive_solver. Qed.

Lemma one_of_record r : one_of (record_value r) (record_value <$> all_records) = true.
Proof. by destruct r. Qed.

Lemma any_filled_no a b c : py_any filled [a; b; c] = false <-> a = "" /\ b = "" /\ c = "".
Proof. unfold py_any. cbn [existsb]. rewrite !orb_false_iff, !filled_no. tauto. Qed.

(** Decide the tests on a record that is known, and turn the checks into what they ask. *)
Ltac record_checks :=
  repeat match goal with |- context [bool_decide (record_value ?a = record_value ?b)] =>
    let v := eval vm_compute in (bool_decide (record_value a = record_value b)) in
    change (bool_decide (record_value a = record_value b)) with v
  end;
  cbv beta iota;
  repeat first [rewrite after_raise_if|rewrite after_raise_unless];
  rewrite ?require_empty_body_ok, ?raise_unless_ok, ?one_of_ok, ?orb_false_iff, ?any_filled_no, ?filled_no,
    ?bool_decide_eq_true.

(** The checks on a generation payload once its fields are read. *)
Lemma generation_validate_reads p eid gid wid aid record disposition authority classification ts dg bb :
  dict_get "event_id" p = Some (JStr eid) -> dict_get "generation_id" p = Some (JStr gid) ->
  dict_get "work_id" p = Some (JStr wid) -> dict_get "attempt_id" p = Some (JStr aid) ->
  dict_get "record" p = Some (JStr record) -> dict_get "disposition" p = Some (JStr disposition) ->
  dict_get "authority" p = Some (JStr authority) -> dict_get "classification" p = Some (JStr classification) ->
  dict_get "ts" p = Some (JStr ts) -> dict_get "blob_digest" p = Some (JStr dg) ->
  dict_get "blob_bytes" p = Some (JInt bb) ->
  generation_validate p = Ok tt <->
  (eid <> "" /\ gid <> "" /\ wid <> "" /\ aid <> "") /\ 0 <= bb /\ is_sha256 dg = true
  /\ exists r, record = record_value r /\
     match r with
     | ACQUIRE => (disposition = "" /\ authority = "" /\ classification = "") /\ bb = 0 /\ dg = EMPTY_BLOB_DIGEST
     | CLOSE => disposition ∈ disposition_value <$> all_dispositions /\ (authority = "" /\ classification = "")
         /\ bb = 0 /\ dg = EMPTY_BLOB_DIGEST
     | AUTHORITY => disposition = "" /\ authority ∈ authority_value <$> all_authorities
         /\ classification = classification_value CURRENT /\ bb = 0 /\ dg = EMPTY_BLOB_DIGEST
     | LATE_EVENT => disposition = "" /\ authority ∈ authority_value <$> all_authorities
         /\ classification ∈ [classification_value CLOSED; classification_value SUPERSEDED]
     end.
Proof.
  intros G1 G2 G3 G4 G5 G6 G7 G8 G9 G10 G11. unfold generation_validate.
  rewrite (proj2 (require_fields_ok _ _ p)), (proj2 (require_types_ok _ _ p)); cycle 1.
  { repeat constructor; eexists; (split; [eassumption|done]). }
  { repeat constructor; eexists; eassumption. }
  rewrite (proj2 (text_of_Ok _ _ _) G1), (proj2 (text_of_Ok _ _ _) G2), (proj2 (text_of_Ok _ _ _) G3),
    (proj2 (text_of_Ok _ _ _) G4), (proj2 (text_of_Ok _ _ _) G5), (proj2 (text_of_Ok _ _ _) G6),
    (proj2 (text_of_Ok _ _ _) G7), (proj2 (text_of_Ok _ _ _) G8), (proj2 (text_of_Ok _ _ _) G10).
  unfold int_field, item. rewrite G11. unfold int_of, as_int. cbn [mbind result_bind].
  assert (Hids : py_all filled [eid; gid; wid; aid] = true <-> eid <> "" /\ gid <> "" /\ wid <> "" /\ aid <> "").
  { unfold py_all. cbn [forallb]. rewrite !andb_true_iff, !filled_ok. naive_solver. }
  rewrite !after_raise_unless, after_raise_if, after_raise_unless, Hids, Z.ltb_ge, one_of_ok. split.
  - intros (? & (r & -> & _)%list_elem_of_fmap & ? & ? & Hr). do 3 (split; [done|]). exists r. split; [done|].
    revert Hr. destruct r; record_checks; tauto.
  - intros (? & ? & ? & r & -> & Hr). split; [done|]. split; [apply one_of_ok, one_of_record|]. do 2 (split; [done|]).
    revert Hr. destruct r; record_checks; tauto.
Qed.

Lemma generation_validate_fields p :
  generation_validate p = Ok tt ->
  exists eid gid wid aid record disposition authority classification ts dg bb,
    agrees generation_fields p [
      ("event_id", JStr eid); ("generation_id", JStr gid); ("work_id", JStr wid); ("attempt_id", JStr aid);
      ("record", JStr record); ("disposition", JStr disposition); ("authority", JStr authority);
      ("classification", JStr classification); ("ts", JStr ts); ("blob_digest", JStr dg); ("blob_bytes", JInt bb)].
Proof.
  unfold generation_validate. intros H. apply bind_ok in H as ([] & _ & H). apply bind_ok in H as ([] & Ht & _).
  apply require_types_ok in Ht. repeat (apply Forall_cons in Ht as [(? & ? & Hk) Ht]; cbn [fst snd] in *;
    (apply str_kind in Hk as [? ->] || apply int_kind in Hk as [? ->])).
  do 11 eexists. unfold agrees, generation_fields. repeat constructor; (etrans; [eassumption|reflexivity]).
Qed.

(** Read the optional value back from its text. *)
Definition read_back {A} (value : A -> string) (all : list A) (s : string) : option A :=
  List.find (fun a => bool_decide (value a = s)) all.

Lemma read_back_empty {A} (value : A -> string) all : (forall a, value a <> "") -> read_back value all "" = None.
Proof.
  intros Hv. unfold read_back. induction all as [|a all IH]; [done|]. cbn. by rewrite bool_decide_false.
Qed.

Lemma read_back_one {A} (value : A -> string) all s :
  s ∈ value <$> all -> exists a, read_back value all s = Some a /\ value a = s.
Proof.
  intros (a & -> & Ha)%list_elem_of_fmap. unfold read_back.
  destruct (List.find _ all) as [b|] eqn:E.
  - apply List.find_some in E as [_ Hb]. bool_to_prop. eauto.
  - pose proof (List.find_none _ _ E a ltac:(by apply list_elem_of_In)) as Hn. cbn in Hn. bool_to_prop. done.
Qed.

Lemma read_back_text {A} (value : A -> string) all s :
  (forall a, value a <> "") -> s = "" \/ s ∈ value <$> all -> or_empty value (read_back value all s) = s.
Proof.
  intros Hv [-> | (a & -> & Ha)%read_back_one]; [by rewrite read_back_empty|done].
Qed.

Definition all_classifications : list GenerationClassification := [CURRENT; CLOSED; SUPERSEDED].

(** The event a payload's texts describe. *)
Definition event_of_texts (r : GenerationRecord) (eid gid wid aid disposition authority classification ts : string) :
    WorkGenerationRecorded := {|
  wg_event_id := eid; wg_generation_id := gid; wg_work_id := wid; wg_attempt_id := aid; wg_record := r;
  wg_disposition := read_back disposition_value all_dispositions disposition;
  wg_authority := read_back authority_value all_authorities authority;
  wg_classification := read_back classification_value all_classifications classification; wg_ts := ts |}.

Lemma generation_validate_agrees ev bd bb p :
  well_formed ev bd bb -> agrees generation_fields p (generation_payload ev bd bb) -> generation_validate p = Ok tt.
Proof.
  intros Hw Ha. unfold agrees, generation_fields in Ha.
  repeat (apply Forall_cons in Ha as [? Ha]; cbn [fst] in *).
  eapply (generation_validate_reads p); try (etrans; [eassumption|reflexivity]).
  destruct Hw as (? & ? & ? & ? & ? & ? & Hr). do 3 (split; [done|]). exists (wg_record ev). split; [done|].
  destruct (wg_record ev).
  + destruct Hr as (-> & -> & -> & ? & ?). done.
  + destruct Hr as ([d ->] & -> & -> & ? & ?). split; [apply one_of_ok, one_of_disposition|done].
  + destruct Hr as (-> & [a ->] & -> & ? & ?). split; [done|]. split; [apply one_of_ok, one_of_authority|done].
  + destruct Hr as (-> & [a ->] & Hc). split; [done|]. split; [apply one_of_ok, one_of_authority|].
    destruct Hc as [-> | ->]; [by left|by right; left].
Qed.

Lemma generation_contract_accepts ev bd bb :
  well_formed ev bd bb -> generation_validate (generation_payload ev bd bb) = Ok tt.
Proof. intros Hw. apply (generation_validate_agrees ev bd bb); [done|]. unfold agrees. by apply Forall_true. Qed.

Lemma generation_contract_agrees p :
  generation_validate p = Ok tt <->
  exists ev bd bb, well_formed ev bd bb /\ agrees generation_fields p (generation_payload ev bd bb).
Proof.
  split.
  - intros Hv. destruct (generation_validate_fields p Hv) as (eid & gid & wid & aid & record & dsp & auth & cls & ts & dg & bb & Ha).
    pose proof Ha as Hf. unfold agrees, generation_fields in Hf. repeat (apply Forall_cons in Hf as [? Hf]; cbn [fst] in *).
    eapply (generation_validate_reads p) in Hv; try (etrans; [eassumption|reflexivity]).
    destruct Hv as ((? & ? & ? & ?) & ? & ? & r & -> & Hr). exists (event_of_texts r eid gid wid aid dsp auth cls ts), dg, bb.
    assert (Hd : dsp = "" \/ dsp ∈ disposition_value <$> all_dispositions) by (destruct r; tauto).
    assert (Hu : auth = "" \/ auth ∈ authority_value <$> all_authorities) by (destruct r; tauto).
    assert (Hc : cls = "" \/ cls ∈ classification_value <$> all_classifications).
    { destruct r; try tauto; right; destruct Hr as (_ & _ & Hc); [destruct Hc as [-> _]; by left|by right]. }
    split.
    + unfold well_formed, event_of_texts. cbn [wg_event_id wg_generation_id wg_work_id wg_attempt_id wg_record
        wg_disposition wg_authority wg_classification]. do 6 (split; [done|]). destruct r.
      * destruct Hr as ((-> & -> & ->) & ? & ?). rewrite !read_back_empty by (by intros []). done.
      * destruct Hr as ((d & -> & _)%read_back_one & (-> & ->) & ? & ?). rewrite !read_back_empty by (by intros []). done.
      * destruct Hr as (-> & (a & -> & _)%read_back_one & -> & ? & ?). rewrite read_back_empty by (by intros []). done.
      * destruct Hr as (-> & (a & -> & _)%read_back_one & Hcls). rewrite read_back_empty by (by intros []). split; [done|].
        split; [done|]. apply elem_of_cons in Hcls as [-> | ->%list_elem_of_singleton]; auto.
    + unfold generation_payload, event_of_texts. cbn [wg_event_id wg_generation_id wg_work_id wg_attempt_id wg_record
        wg_disposition wg_authority wg_classification wg_ts].
      rewrite !read_back_text; [exact Ha|by intros []|done|by intros []|done|by intros []|done].
  - intros (ev & bd & bb & Hw & Ha). by eapply generation_validate_agrees.
Qed.

(** Fields of just the named keys that agree with a payload are that payload, in some order. *)
Lemma agrees_perm types (p q : fields) :
  NoDup types.*1 -> p.*1 ≡ₚ types.*1 -> q.*1 ≡ₚ types.*1 -> agrees types p q -> p ≡ₚ q.
Proof.
  intros Hnd Hp Hq Ha. assert (Np : NoDup p.*1) by (by rewrite Hp). assert (Nq : NoDup q.*1) by (by rewrite Hq).
  unfold agrees in Ha. rewrite Forall_forall in Ha.
  apply NoDup_Permutation; [by eapply NoDup_fmap_1|by eapply NoDup_fmap_1|]. intros [k v].
  assert (Hk : k ∈ types.*1 -> dict_get k p = dict_get k q).
  { intros (nk & -> & Hin)%list_elem_of_fmap. by apply Ha. }
  split; intros Hin.
  - apply dict_get_Some_elem. rewrite <-Hk; [by apply dict_elem_get|]. rewrite <-Hp. by apply (list_elem_of_fmap_2 fst) in Hin.
  - apply dict_get_Some_elem. rewrite Hk; [by apply dict_elem_get|]. rewrite <-Hq. by apply (list_elem_of_fmap_2 fst) in Hin.
Qed.

(** C36. The generation contract accepts a payload exactly when, in the eleven fields it names, the
    payload agrees with what some generation event writes that carries just the data of its
    record: identities present, a close with its disposition, an authority reservation current, a
    late event closed or superseded, and a sealed body only under a late event.  It does not look
    at other fields; a payload of exactly those eleven is accepted exactly when, up to the order
    of its fields, some such event writes it. *)
Theorem generation_contract_exact p :
  (generation_validate p = Ok tt <->
   exists ev bd bb, well_formed ev bd bb
     /\ forall name, name ∈ generation_fields.*1 -> dict_get name p = dict_get name (generation_payload ev bd bb))
  /\ (p.*1 ≡ₚ generation_fields.*1 ->
      generation_validate p = Ok tt <-> exists ev bd bb, well_formed ev bd bb /\ p ≡ₚ generation_payload ev bd bb).
Proof.
  assert (Hag : forall q, agrees generation_fields p q <-> forall name, name ∈ generation_fields.*1 -> dict_get name p = dict_get name q).
  { intros q. unfold agrees. rewrite Forall_forall. split; [intros Ha name (nk & -> & Hin)%list_elem_of_fmap; by apply Ha|].
    intros Ha nk Hin. by apply Ha, list_elem_of_fmap_2. }
  rewrite generation_contract_agrees. setoid_rewrite Hag. split; [done|]. intros Hp. setoid_rewrite <-Hag.
  assert (Hnd : NoDup generation_fields.*1) by (by apply (bool_decide_unpack _)).
  split; intros (ev & bd & bb & Hw & Ha); exists ev, bd, bb; (split; [done|]); [by eapply agrees_perm|].
  apply Hag. intros name _. assert (Np : NoDup p.*1) by (by rewrite Hp).
  destruct (dict_get name p) as [v|] eqn:E.
  - symmetry. apply dict_get_Some_elem in E. rewrite Ha in E. apply dict_elem_get; [|done]. by rewrite <-Ha.
  - symmetry. apply dict_get_None. apply dict_get_None in E. by rewrite <-Ha.
Qed.

(** ** Lifecycle *)

Definition fact_boot (f : LifecycleFact) : option string :=
  match f with
  | RunOpened | RunClosed _ _ => None
  | ServiceStarted b _ | BootOpened b | SignalForwarded b _ | ChildReaped b _ | BootClosed b _ _ => Some b
  end.

Lemma eq_comm {A} (x y : A) : x = y <-> y = x.
Proof. done. Qed.

Lemma raise_if_unless_ok (c : bool) a x b y :
  (if c then raise_unless a x else raise_if b y) = Ok tt <-> if c then a = true else b = false.
Proof. destruct c; [apply raise_unless_ok|apply raise_if_ok]. Qed.

Lemma unless_then_if (c : bool) a x b y (m : result unit) :
  ((if c then raise_unless a x else raise_if b y);; m) = Ok tt <-> (if c then a = true else b = false) /\ m = Ok tt.
Proof. destruct c; [apply after_raise_unless|apply after_raise_if]. Qed.

(** The same for a lifecycle record that is known. *)
Ltac lifecycle_checks :=
  repeat match goal with
  | |- context [one_of (lifecycle_value ?a) ?l] =>
      let v := eval vm_compute in (one_of (lifecycle_value a) l) in change (one_of (lifecycle_value a) l) with v
  | |- context [bool_decide (lifecycle_value ?a = ?b)] =>
      let v := eval vm_compute in (bool_decide (lifecycle_value a = b)) in
      change (bool_decide (lifecycle_value a = b)) with v
  end;
  cbv beta iota; rewrite ?one_of_ok, ?filled_ok, ?filled_no,
    ?(eq_comm true (filled _)), ?(eq_comm false (filled _)), ?filled_ok, ?filled_no, ?negb_false_iff, ?Z.eqb_eq.

(** The checks on a lifecycle payload once its fields are read. *)
Lemma lifecycle_validate_reads p eid r boot service disposition signal reaped detail ts dg bb :
  dict_get "event_id" p = Some (JStr eid) -> dict_get "record" p = Some (JStr (lifecycle_value r)) ->
  dict_get "boot_id" p = Some (JStr boot) -> dict_get "service" p = Some (JStr service) ->
  dict_get "disposition" p = Some (JStr disposition) -> dict_get "signal" p = Some (JStr signal) ->
  dict_get "reaped_children" p = Some (JInt reaped) -> dict_get "detail" p = Some (JStr detail) ->
  dict_get "ts" p = Some (JStr ts) -> dict_get "blob_digest" p = Some (JStr dg) ->
  dict_get "blob_bytes" p = Some (JInt bb) ->
  lifecycle_validate p = Ok tt <->
  eid <> "" /\ 0 <= reaped /\ (bb = 0 /\ dg = EMPTY_BLOB_DIGEST)
  /\ match r with
     | BOOT_CLOSE | RUN_CLOSE_ => disposition ∈ terminal_value <$> [NORMAL; REFUSED_; INTERRUPTED; CRASHED_]
     | _ => disposition = ""
     end
  /\ match r with RUN_OPEN_ | RUN_CLOSE_ => boot = "" | _ => boot <> "" end
  /\ match r with SERVICE_STARTED => service <> "" | _ => service = "" end
  /\ match r with SIGNAL_FORWARDED => signal ∈ signal_value <$> [TERM; INT] | _ => signal = "" end
  /\ match r with CHILD_REAPED => True | _ => reaped = 0 end.
Proof.
  intros G1 G2 G3 G4 G5 G6 G7 G8 G9 G10 G11. unfold lifecycle_validate.
  rewrite (proj2 (require_fields_ok _ _ p)), (proj2 (require_types_ok _ _ p)); cycle 1.
  { repeat constructor; eexists; (split; [eassumption|done]). }
  { repeat constructor; eexists; eassumption. }
  rewrite (proj2 (text_of_Ok _ _ _) G1), (proj2 (text_of_Ok _ _ _) G2), (proj2 (text_of_Ok _ _ _) G3),
    (proj2 (text_of_Ok _ _ _) G4), (proj2 (text_of_Ok _ _ _) G5), (proj2 (text_of_Ok _ _ _) G6), (proj2 (text_of_Ok _ _ _) G10).
  unfold int_field, item. rewrite G7, G11. unfold int_of, as_int. cbn [mbind result_bind].
  rewrite !after_raise_if, after_raise_unless, after_raise_if, !unless_then_if, after_raise_if, unless_then_if, raise_if_ok.
  rewrite !orb_false_iff, !negb_false_iff, !Z.ltb_ge, !Z.eqb_eq, filled_ok, bool_decide_eq_true, andb_false_iff.
  rewrite Bool.eqb_true_iff.
  assert (Hs : is_sha256 EMPTY_BLOB_DIGEST = true) by reflexivity.
  assert (Hr : one_of (lifecycle_value r) (lifecycle_value <$> all_lifecycle) = true) by (by destruct r).
  assert (Hb : (bb = 0 /\ dg = EMPTY_BLOB_DIGEST) -> 0 <= bb /\ is_sha256 dg = true) by (intros [-> ->]; done).
  rewrite Hr. clear G1 G2 G3 G4 G5 G6 G7 G8 G9 G10 G11 Hs Hr. assert (Ht : false = true <-> False) by done. assert (true = true) by done.
  destruct r; lifecycle_checks; rewrite ?Ht; tauto.
Qed.

(** The lifecycle contract accepts the payload of a fact exactly when the event has an
    identity and no body, a Boot's fact names its Boot, and a count of children is none below
    zero: of the other fields every fact fills just its own. *)
Theorem lifecycle_contract_exact ev bd bb :
  lifecycle_validate (lifecycle_payload ev bd bb) = Ok tt <->
  lc_event_id ev <> "" /\ (bb = 0 /\ bd = EMPTY_BLOB_DIGEST) /\ fact_boot (fact ev) <> Some ""
  /\ (forall b n, fact ev = ChildReaped b n -> 0 <= n).
Proof.
  destruct ev as [eid f ts].
  destruct f as [|b s|b|b s|b n|b d t|d t]; (rewrite lifecycle_validate_reads; [|reflexivity..]); cbn [fact lc_event_id fact_boot].
  - naive_solver lia.
  - assert (service_value s <> "") by (by destruct s). naive_solver lia.
  - naive_solver lia.
  - assert (signal_value s ∈ signal_value <$> [TERM; INT]) by (apply one_of_ok; by destruct s). naive_solver lia.
  - naive_solver lia.
  - assert (terminal_value d ∈ terminal_value <$> [NORMAL; REFUSED_; INTERRUPTED; CRASHED_]) by (apply one_of_ok; by destruct d).
    naive_solver lia.
  - assert (terminal_value d ∈ terminal_value <$> [NORMAL; REFUSED_; INTERRUPTED; CRASHED_]) by (apply one_of_ok; by destruct d).
    naive_solver lia.
Qed.
