(* ===== verification/EventLog.v ===== *)
(** The interface the ledgers built on the canonical event store rely on.

    The class of worlds that keep an event log: what
    [EventStore.events], [EventStore.append] and a receipt's [atomic_write] promise to the
    components that project their state from the log. *)
From Stdlib Require Import Ascii.
From S2P Require Import Prelude Canon Text PyJson EventStore.
Local Open Scope Z_scope.

(** ** Logs *)

Class EventLog (W : Type) : Type := {
  log_read : W -> result (list CommittedEvent);
  log_append : CanonicalEvent -> string -> Prog W CommittedEvent;
  log_receipt : string -> json -> Prog W unit
}.

(** What appending the event [e] with [content] adds to a log of [es]. *)
Record entry_of (es : list CommittedEvent) (e : CanonicalEvent) (content : string) (c : CommittedEvent) : Prop := {
  entry_type : event_type c = ev_type e;
  entry_payload : exists bd bb, payload c = ev_payload e bd bb;
  entry_sequence : sequence c = last_sequence es + 1
}.

(** No event of the type in [es] has the identity. *)
Definition unseen (es : list CommittedEvent) (t eid : string) : Prop :=
  forall c, c ∈ es -> event_type c = t -> get_or "event_id" JNull (payload c) <> JStr eid.

(** [log_sound w es]: the world's log reads [es] and keeps its own invariants; [log_damaged w]: a
    write was torn and the log no longer reads; [log_accepts e content]: the log takes such an
    event. *)
Class EventLogOk (W : Type) `{EventLog W} : Type := {
  log_sound : W -> list CommittedEvent -> Prop;
  log_damaged : W -> Prop;
  log_accepts : CanonicalEvent -> string -> Prop;
  log_sound_read w es : log_sound w es -> log_read w = Ok es;
  log_append_sound w es e content eid :
    log_sound w es -> log_accepts e content -> event_id e = Some eid -> identity e = JStr eid ->
    unseen es (ev_type e) eid ->
    match log_append e content w with
    | (w', Done c) => entry_of es e content c /\ log_sound w' (es ++ [c])
    | (w', _) => log_sound w' es \/ (exists c, entry_of es e content c /\ log_sound w' (es ++ [c])) \/ log_damaged w'
    end;
  log_append_any w es e content :
    log_sound w es -> log_accepts e content ->
    match log_append e content w with
    | (w', Done _) => log_sound w' es \/ exists c, entry_of es e content c /\ log_sound w' (es ++ [c])
    | (w', _) => log_sound w' es \/ (exists c, entry_of es e content c /\ log_sound w' (es ++ [c])) \/ log_damaged w'
    end;
  log_receipt_sound w es name doc :
    log_sound w es ->
    match log_receipt name doc w with
    | (w', Done _) => log_sound w' es
    | (w', _) => log_sound w' es \/ log_damaged w'
    end
}.

(** ** Reasoning about programs over an event log: what they return, and what every way of
    failing leaves in the log. *)

Section log_runs.
Context {W : Type} `{EventLogOk W}.

(** From a log of [es], [m] returns with [Q], or raises or loses power with [E] - or leaves a
    damaged log. *)
Definition log_runs {A} (es : list CommittedEvent) (m : Prog W A) (Q : A -> list CommittedEvent -> Prop)
    (E : list CommittedEvent -> Prop) : Prop :=
  forall w, log_sound w es ->
    match m w with
    | (w', Done a) => exists es', log_sound w' es' /\ Q a es'
    | (w', _) => (exists es', log_sound w' es' /\ E es') \/ log_damaged w'
    end.

Lemma log_ret {A} es (a : A) (Q : A -> list CommittedEvent -> Prop) E : Q a es -> log_runs es (mret a) Q E.
Proof. intros HQ w Hw. by exists es. Qed.

Lemma log_bind {A B} es (m : Prog W A) (k : A -> Prog W B) R Q E :
  log_runs es m R E -> (forall a es', R a es' -> log_runs es' (k a) Q E) -> log_runs es (m ≫= k) Q E.
Proof.
  intros Hm Hk w Hw. specialize (Hm w Hw). unfold mbind, Prog_bind.
  destruct (m w) as [w' [a|e|]]; [|done..]. destruct Hm as (es' & Hw' & HR). by apply (Hk a es' HR).
Qed.

Lemma log_try {A B} es (r : result A) (k : A -> Prog W B) Q (E : list CommittedEvent -> Prop) :
  E es -> (forall a, r = Ok a -> log_runs es (k a) Q E) -> log_runs es (try r ≫= k) Q E.
Proof.
  intros HE Hk w Hw. unfold mbind, Prog_bind, try. destruct r as [a|e]; [by apply Hk|]. left. by exists es.
Qed.

Lemma log_reading {B} es (k : result (list CommittedEvent) -> Prog W B) Q E :
  log_runs es (k (Ok es)) Q E -> log_runs es (ask log_read ≫= k) Q E.
Proof.
  intros Hk w Hw. unfold mbind, Prog_bind, ask. rewrite (log_sound_read w es Hw). by apply Hk.
Qed.

Lemma log_ask {A B} es (f : W -> A) (k : A -> Prog W B) Q E :
  (forall a, log_runs es (k a) Q E) -> log_runs es (ask f ≫= k) Q E.
Proof. intros Hk w Hw. unfold mbind, Prog_bind, ask. by apply Hk. Qed.

Lemma log_conseq {A} es (m : Prog W A) (Q Q' : A -> list CommittedEvent -> Prop) (E E' : list CommittedEvent -> Prop) :
  log_runs es m Q E -> (forall a es', Q a es' -> Q' a es') -> (forall es', E es' -> E' es') -> log_runs es m Q' E'.
Proof.
  intros Hm HQ HE w Hw. specialize (Hm w Hw). destruct (m w) as [w' [a|e|]]; naive_solver.
Qed.

Lemma log_fail {A} es e (Q : A -> list CommittedEvent -> Prop) (E : list CommittedEvent -> Prop) :
  E es -> log_runs es (fail e) Q E.
Proof. intros HE w Hw. left. by exists es. Qed.

Lemma log_drop {A} es (m : Prog W A) Q (E : list CommittedEvent -> Prop) :
  log_runs es m Q E -> (forall a es', Q a es' -> E es') -> log_runs es (m;; mret tt) (fun _ => E) E.
Proof. intros Hm HQ. eapply log_bind; [exact Hm|]. intros a es' Ha. apply log_ret. eauto. Qed.

(** ** Histories *)

Section history.
Context {Op : Type} (do_op : Op -> Prog W unit) (mine : CommittedEvent -> bool).

(** What happens to the world between two operations of a component: others append their
    events and the process may be started again. *)
Definition elsewhere (w w' : W) : Prop :=
  forall es, log_sound w es ->
    exists others, Forall (fun c => mine c = false) others /\ log_sound w' (es ++ others).

(** A history: operations that return, raise or lose power, and other components' steps
    between them; a torn write ends it. *)
Inductive log_history (w : W) : W -> Prop :=
  | history_start : log_history w w
  | history_op w1 op :
      log_history w w1 -> ~ log_damaged (do_op op w1).1 -> log_history w (do_op op w1).1
  | history_elsewhere w1 w2 : log_history w w1 -> elsewhere w1 w2 -> log_history w w2.

(** What every operation keeps however it ends, and others' events do not disturb, holds
    along every history. *)
Lemma log_history_keeps (I : list CommittedEvent -> Prop) w w' es :
  (forall es op, I es -> log_runs es (do_op op) (fun _ => I) I) ->
  (forall es others, I es -> Forall (fun c => mine c = false) others -> I (es ++ others)) ->
  log_sound w es -> I es -> log_history w w' -> exists es', log_sound w' es' /\ I es'.
Proof.
  intros Hop Helse Hw HI Hh. induction Hh as [|w1 op _ (es1 & Hw1 & HI1) Hnd|w1 w2 _ (es1 & Hw1 & HI1) He].
  - by exists es.
  - pose proof (Hop es1 op HI1 w1 Hw1) as Hr. destruct (do_op op w1) as [w2 [u|x|]]; cbn [fst] in *; [done|by destruct Hr..].
  - destruct (He es1 Hw1) as (others & Ho & Hw2). exists (es1 ++ others). split; [done|]. by apply Helse.
Qed.
End history.
End log_runs.

(** ** Event identities

    Components name their events [part:part:...]; parts without a colon can be read back. *)

Fixpoint before_colon (s : string) : string :=
  match s with
  | EmptyString => EmptyString
  | String c r => if bool_decide (c = ":"%char) then EmptyString else String c (before_colon r)
  end.

Fixpoint after_colon (s : string) : string :=
  match s with EmptyString => EmptyString | String c r => if bool_decide (c = ":"%char) then r else after_colon r end.

Definition colon_free (s : string) : Prop := before_colon s = s.

Lemma colon_split s t : colon_free s -> before_colon (s +:+ ":" +:+ t) = s /\ after_colon (s +:+ ":" +:+ t) = t.
Proof.
  unfold colon_free. induction s as [|c s IH]; intros Hs; [done|].
  change (String c s +:+ ":" +:+ t) with (String c (s +:+ ":" +:+ t)). cbn [before_colon after_colon] in *.
  case_bool_decide; [done|]. injection Hs as Hs. destruct (IH Hs) as [-> ->]. done.
Qed.

Lemma colon_inj s s' t t' : colon_free s -> colon_free s' -> s +:+ ":" +:+ t = s' +:+ ":" +:+ t' -> s = s' /\ t = t'.
Proof.
  intros Hs Hs' H. destruct (colon_split s t Hs) as [H1 H2], (colon_split s' t' Hs') as [H3 H4].
  rewrite H in H1, H2. split; congruence.
Qed.

Lemma colon_free_app s t : colon_free s -> colon_free t -> colon_free (s +:+ t).
Proof.
  unfold colon_free. induction s as [|c s IH]; intros Hs Ht; [done|].
  change (String c s +:+ t) with (String c (s +:+ t)). cbn [before_colon] in *.
  case_bool_decide; [done|]. injection Hs as Hs. by rewrite IH.
Qed.

Lemma digits_colon_free s : forall a n, int_digits a s = Some n -> colon_free s.
Proof.
  unfold colon_free. induction s as [|c s IH]; intros a n Hn; [done|]. cbn in *.
  destruct (digit_value c) as [v|] eqn:Ev; [|done]. case_bool_decide as E; [by subst|]. f_equal. by eapply IH.
Qed.
