(* ===== verification/StoreLog.v ===== *)
(** The canonical event store implements the log interface.

    A store whose redactor leaves the event alone and whose contract accepts it takes every
    event; what [EventLogOk] asks is what [append_runs] proves. *)

From S2P Require Import Prelude Canon Text Redaction RedactionFacts PyJson EventStore EventStoreLogic EventStoreFacts EventLog.
Local Open Scope Z_scope.

Section store_log.
Context {DG : Digester} {CT : Contracts} (cfg : Config).

#[export] Instance store_log : EventLog World := {|
  log_read w := read_verified cfg (files w);
  log_append := append cfg;
  log_receipt name doc := write_receipt_file name doc
|}.

(** What the store takes as it is. *)
Definition taken (e : CanonicalEvent) (content : string) : Prop :=
  let content' := redact (redactor cfg) content in
  let p := payload_of cfg e content' in
  proper (ev_type e) p content'
  /\ p = ev_payload e (digest_bytes content') (Z.of_nat (String.length content'))
  /\ forall eid, event_id e = Some eid -> dict_get "event_id" p = Some (JStr eid).

Lemma unseen_exact es e p eid :
  unseen es (ev_type e) eid -> dict_get "event_id" p = Some (JStr eid) -> find_exact_identity es e p = None.
Proof.
  intros Hun Hid. destruct (find_exact_identity es e p) as [c|] eqn:E; [|done]. exfalso.
  apply find_exact_elem in E as (Hin & Ht & Heq). unfold fields_eqb, py_eqb in Heq. apply bool_decide_eq_true in Heq.
  apply (fields_eq_get _ _ "event_id") in Heq. rewrite Hid in Heq. cbn in Heq.
  apply (Hun c Hin Ht). apply get_or_Some; [done|]. destruct (dict_get "event_id" (payload c)) as [v|]; [|done].
  cbn in Heq. injection Heq as Heq. by apply py_norm_str in Heq as ->.
Qed.

Lemma unseen_identity es e p eid r :
  event_id e = Some eid -> unseen es (ev_type e) eid -> find_identity es e p = Ok r -> r = None.
Proof.
  intros He. induction es as [|c es IH]; intros Hun Hf; [by injection Hf as <-|]. cbn in Hf.
  assert (Hun' : unseen es (ev_type e) eid) by (intros x Hx; apply Hun; set_solver).
  apply bind_ok in Hf as (i & _ & Hf). destruct (_ || _) eqn:E; [by apply IH|]. rewrite He in Hf.
  assert (Hne : py_eqb (get_or "event_id" JNull (payload c)) (JStr eid) = false).
  { apply not_true_is_false. rewrite py_eqb_is_str. apply orb_false_iff in E as [E _]. bool_to_prop.
    apply Hun; [set_solver|done]. }
  rewrite Hne in Hf. cbn in Hf. by apply IH.
Qed.

Lemma next_is_entry es e content :
  taken e content -> entry_of es e content
    (next_event cfg es (ev_type e) (payload_of cfg e (redact (redactor cfg) content)) (redact (redactor cfg) content)).
Proof.
  intros (_ & Hp & _). split; [done| |done]. eexists _, _. exact Hp.
Qed.

(** An event the store has not seen is appended, never answered from the chain. *)
Lemma append_unseen_runs es e content eid :
  taken e content -> event_id e = Some eid -> unseen es (ev_type e) eid ->
  let content' := redact (redactor cfg) content in
  let p := payload_of cfg e content' in
  runs (ok cfg es) (append cfg e content)
    (fun c fs => c = next_event cfg es (ev_type e) p content' /\ ok cfg (es ++ [c]) fs) (grown cfg es (ev_type e) p content').
Proof.
  intros (Hp & _ & Hpid) Hid Hun content' p. unfold append. fold content'. fold p.
  eapply store_bind; [eapply runs_conseq; [apply runs_events|done|done|by left]|]. intros es'.
  apply runs_now. intros fs [-> Hok].
  eapply (runs_conseq (ok cfg es) (fun fs' => fs' = fs)); [|by intros ? ->|by intros ? ?; exact id|by intros ?; exact id].
  rewrite (unseen_exact es e p eid Hun (Hpid eid Hid)).
  apply runs_check; [by left|]. intros [] _. apply runs_check; [by left|]. intros r Hr.
  rewrite (unseen_identity es e p eid r Hid Hun Hr). by apply runs_reserve_and_commit.
Qed.

Lemma store_append_sound w es e content eid :
  ok cfg es (files w) -> taken e content -> event_id e = Some eid -> identity e = JStr eid ->
  unseen es (ev_type e) eid ->
  match append cfg e content w with
  | (w', Done c) => entry_of es e content c /\ ok cfg (es ++ [c]) (files w')
  | (w', _) => ok cfg es (files w')
      \/ (exists c, entry_of es e content c /\ ok cfg (es ++ [c]) (files w')) \/ torn (files w')
  end.
Proof.
  intros Hok Ht Hid _ Hun. pose proof (next_is_entry es e content Ht) as Hentry.
  destruct (append_unseen_runs es e content eid Ht Hid Hun w Hok) as [_ Hr].
  destruct (append cfg e content w) as [w' [c|x|]]; [by destruct Hr as [-> ?]|..].
  - destruct Hr as [?|?]; eauto.
  - destruct Hr as [[?|?]|[_ ?]]; eauto.
Qed.

(** Whatever the store has seen, an append adds the event or nothing. *)
Lemma store_append_any w es e content :
  ok cfg es (files w) -> taken e content ->
  match append cfg e content w with
  | (w', Done _) => ok cfg es (files w') \/ exists c, entry_of es e content c /\ ok cfg (es ++ [c]) (files w')
  | (w', _) => ok cfg es (files w') \/ (exists c, entry_of es e content c /\ ok cfg (es ++ [c]) (files w')) \/ torn (files w')
  end.
Proof.
  intros Hok Ht. pose proof (next_is_entry es e content Ht) as Hentry. destruct Ht as (Hp & _).
  destruct (append_runs cfg es e content Hp w Hok) as [_ Hr].
  destruct (append cfg e content w) as [w' [c|x|]].
  - destruct Hr as [[_ ?]|[-> ?]]; eauto.
  - destruct Hr as [?|?]; eauto.
  - destruct Hr as [[?|?]|[_ ?]]; eauto.
Qed.

Lemma store_receipt_sound w es name doc :
  ok cfg es (files w) ->
  match write_receipt_file name doc w with
  | (w', Done _) => ok cfg es (files w')
  | (w', _) => ok cfg es (files w') \/ torn (files w')
  end.
Proof.
  intros Hok. unfold write_receipt_file, durable.
  destruct (writes_left w); cbn; [left; by destruct (tears w)|].
  destruct Hok as (rs & Hu & Hv & Hrest). exists rs. done.
Qed.

Lemma store_sound_read w es : ok cfg es (files w) -> read_verified cfg (files w) = Ok es.
Proof. by intros (rs & _ & Hv & _). Qed.

#[export] Instance store_log_ok : EventLogOk World := {|
  log_sound w es := ok cfg es (files w);
  log_damaged w := torn (files w);
  log_accepts := taken;
  log_sound_read := store_sound_read;
  log_append_sound := store_append_sound;
  log_append_any := store_append_any;
  log_receipt_sound := store_receipt_sound
|}.
End store_log.
