(* ===== verification/WorkGeneration.v ===== *)
(** Durable ownership fences for Challenge Work generations.

    [src/solver/work_generation.py] and the receipt of [work_generation_receipt.py].  The
    fence keeps no state of its own: every operation projects the event log and appends to
    it.  It is written over any [EventLog]; [timestamp] is the clock the fence is given.
    Every operation is one step here.  In the code the authority lock makes [acquire_exact],
    [close], [authorize] and the guarded commits atomic to each other within a process, but
    [acquire] and [replace] do not take it: for these two, that no other operation comes
    between their projection and their append is an assumption of the model.  A payload field of a verified event that is not text where its contract demands text
    would raise [TypeError] here. *)

From S2P Require Import Prelude Canon Text PyJson EventStore EventContracts EventLog.
Local Open Scope Z_scope.

Definition PROJECTION_SCHEMA_VERSION : Z := 1.

Record GenerationIdentity : Type := {
  id_generation : string;
  id_work : string;
  id_attempt : string
}.

Record GenerationState : Type := {
  generation_id : string;
  work_id : string;
  attempt_id : string;
  disposition : option GenerationDisposition;
  acquired_sequence : Z;
  closed_sequence : option Z
}.

Definition active (s : GenerationState) : bool := bool_decide (disposition s = None).

Definition state_document (s : GenerationState) : json := JObj [
  ("generation_id", JStr (generation_id s));
  ("work_id", JStr (work_id s));
  ("attempt_id", JStr (attempt_id s));
  ("disposition", or_none (fun d => JStr (disposition_value d)) (disposition s));
  ("acquired_sequence", JInt (acquired_sequence s));
  ("closed_sequence", or_none JInt (closed_sequence s))].

Record GenerationProjection : Type := {
  generations : list GenerationState;
  active_by_work : list (string * GenerationState);
  projection_digest : string;
  projection_head : string
}.

Record AuthorityDecision : Type := { accepted : bool; classification : GenerationClassification }.

Record AuthorityGrant : Type := {
  grant_event_id : string;
  grant_sequence : Z;
  grant_run_id : string;
  grant_generation : string;
  grant_work : string;
  grant_attempt : string;
  grant_authority : GenerationAuthority
}.

(** ** Projecting the log *)

Record Projector : Type := {
  states_by_id : list (string * GenerationState);
  order : list string;
  active_now : list (string * GenerationState);
  generation_by_attempt : list (string * string)
}.

Definition projector_start : Projector := {|
  states_by_id := []; order := []; active_now := []; generation_by_attempt := [] |}.

Definition illegal {A} (msg : string) : result A := Err (IllegalGenerationTransition msg).

(** The classification a late event of a closed generation must carry. *)
Definition late_classification (d : option GenerationDisposition) : GenerationClassification :=
  if bool_decide (d = Some SUPERSEDE) then SUPERSEDED else CLOSED.

Definition project_acquire (st : Projector) (gid wid aid : string) (n : Z) : result Projector :=
  raise_if (dict_has gid (states_by_id st)) (IllegalGenerationTransition "generation was acquired more than once");;
  raise_if (dict_has wid (active_now st)) (IllegalGenerationTransition "work has more than one active generation");;
  raise_if (dict_has aid (generation_by_attempt st))
    (IllegalGenerationTransition "attempt belongs to more than one generation");;
  let state := {| generation_id := gid; work_id := wid; attempt_id := aid; disposition := None;
                  acquired_sequence := n; closed_sequence := None |} in
  Ok {| states_by_id := dict_set gid state (states_by_id st); order := order st ++ [gid];
        active_now := dict_set wid state (active_now st);
        generation_by_attempt := dict_set aid gid (generation_by_attempt st) |}.

Definition project_close (st : Projector) (state : GenerationState) (gid wid disposition_text : string) (n : Z) :
    result Projector :=
  raise_unless (active state) (IllegalGenerationTransition "generation was closed more than once");;
  d ← match disposition_of disposition_text with
    | Some d => Ok d
    | None => illegal "generation has an invalid disposition"
    end;
  let closed := {| generation_id := generation_id state; work_id := work_id state; attempt_id := attempt_id state;
                   disposition := Some d; acquired_sequence := acquired_sequence state; closed_sequence := Some n |} in
  raise_unless (dict_has wid (active_now st)) (KeyError wid);;
  Ok {| states_by_id := dict_set gid closed (states_by_id st); order := order st;
        active_now := dict_del wid (active_now st); generation_by_attempt := generation_by_attempt st |}.

Definition project_event (st : Projector) (e : CommittedEvent) : result Projector :=
  gid ← text_of "generation_id" (payload e);
  wid ← text_of "work_id" (payload e);
  aid ← text_of "attempt_id" (payload e);
  record ← text_of "record" (payload e);
  record ← match record_of record with Some r => Ok r | None => illegal "generation record is unsupported" end;
  match record with
  | ACQUIRE => project_acquire st gid wid aid (sequence e)
  | _ =>
      state ← match dict_get gid (states_by_id st) with
        | Some s => Ok s
        | None => illegal "generation has no acquisition"
        end;
      raise_if (negb (bool_decide (work_id state = wid)) || negb (bool_decide (attempt_id state = aid)))
        (IllegalGenerationTransition "generation changed ownership");;
      match record with
      | CLOSE => d ← text_of "disposition" (payload e); project_close st state gid wid d (sequence e)
      | AUTHORITY =>
          raise_unless (active state) (IllegalGenerationTransition "closed generation reserved authority");;
          c ← text_of "classification" (payload e);
          raise_unless (bool_decide (c = classification_value CURRENT))
            (IllegalGenerationTransition "generation has an invalid authority classification");;
          Ok st
      | _ =>
          raise_if (active state) (IllegalGenerationTransition "active generation received a late event");;
          c ← text_of "classification" (payload e);
          raise_unless (bool_decide (c = classification_value (late_classification (disposition state))))
            (IllegalGenerationTransition "generation has an invalid late-event classification");;
          Ok st
      end
  end.

Fixpoint project_all (st : Projector) (es : list CommittedEvent) : result Projector :=
  match es with
  | [] => Ok st
  | e :: es => st ← project_event st e; project_all st es
  end.

Definition is_work_event (e : CommittedEvent) : bool := bool_decide (event_type e = WORK_GENERATION_RECORDED).

Definition work_events (es : list CommittedEvent) : list CommittedEvent := List.filter is_work_event es.

Definition project_log (es : list CommittedEvent) : result Projector := project_all projector_start (work_events es).

(** The states in the order of their acquisition. *)
Definition states_of (st : Projector) : list GenerationState :=
  omap (fun gid => dict_get gid (states_by_id st)) (order st).

Definition active_document (act : list (string * GenerationState)) : json :=
  JObj ((fun ws => (ws.1, JStr (generation_id ws.2))) <$> act).

Definition projection_document (run : string) (states : list GenerationState) (act : list (string * GenerationState)) :
    json := JObj [
  ("schema_version", JInt PROJECTION_SCHEMA_VERSION);
  ("run_id", JStr run);
  ("generations", JList (state_document <$> states));
  ("active_by_work", active_document act)].

Definition project_events `{Digester} (es : list CommittedEvent) (run : string) : result GenerationProjection :=
  st ← project_log es;
  Ok {| generations := states_of st; active_by_work := active_now st;
        projection_digest := digest (projection_document run (states_of st) (active_now st));
        projection_head := match last (work_events es) with Some e => event_digest e | None => "" end |}.

(** [_GENERATION_ID.fullmatch(text)], giving its number. *)
Definition generation_serial (gid : string) : option Z :=
  match strip_prefix "generation-" gid with Some s => parse_digits s | None => None end.

Definition generation_name (n : Z) : string := "generation-" +:+ pad6 n.

Definition next_generation_id (states : list GenerationState) : string :=
  generation_name (maxZ 0 (omap (fun s => generation_serial (generation_id s)) states) + 1).

Definition state_for (p : GenerationProjection) (gid : string) : result GenerationState :=
  match py_next (fun s => bool_decide (generation_id s = gid)) (generations p) with
  | Some s => Ok s
  | None => Err (UnknownGeneration gid)
  end.

(** ** The receipt *)

Definition field_of (name : string) (e : CommittedEvent) : json := get_or name JNull (payload e).

Definition transition_row (e : CommittedEvent) : json := JObj [
  ("sequence", JInt (sequence e)); ("event_id", field_of "event_id" e); ("event_digest", JStr (event_digest e));
  ("record", field_of "record" e); ("generation_id", field_of "generation_id" e); ("work_id", field_of "work_id" e);
  ("attempt_id", field_of "attempt_id" e);
  ("disposition", if truthy (field_of "disposition" e) then field_of "disposition" e else JNull);
  ("ts", field_of "ts" e)].

Definition late_output (e : CommittedEvent) : fields := [
  ("sequence", JInt (sequence e)); ("event_id", field_of "event_id" e); ("event_digest", JStr (event_digest e));
  ("generation_id", field_of "generation_id" e); ("work_id", field_of "work_id" e);
  ("attempt_id", field_of "attempt_id" e); ("authority", field_of "authority" e);
  ("classification", field_of "classification" e); ("evidence_digest", JStr (blob_digest e));
  ("evidence_bytes", JInt (blob_bytes e)); ("ts", field_of "ts" e)].

Definition has_work_record (r : GenerationRecord) (e : CommittedEvent) : bool :=
  py_eqb (field_of "record" e) (JStr (record_value r)).

Definition receipt_document (run : string) (es : list CommittedEvent) (p : GenerationProjection) : json :=
  let work := work_events es in
  let late := late_output <$> List.filter (has_work_record LATE_EVENT) work in
  let reserved := late_output <$> List.filter (has_work_record AUTHORITY) work in
  JObj [
    ("schema_version", JInt 1);
    ("receipt_type", JStr "work-generation-fence");
    ("run_id", JStr run);
    ("transitions", JList (transition_row <$>
       List.filter (fun e => has_work_record ACQUIRE e || has_work_record CLOSE e) work));
    ("late_output_attempts", JList (JObj <$> late));
    ("restart_projection", JObj [("generations", JList (state_document <$> generations p));
       ("active_by_work", active_document (active_by_work p))]);
    ("authority_reservation_trace", JList ((fun r => JObj (r ++ [("accepted", JBool true)])) <$> reserved));
    ("authority_rejection_trace", JList ((fun r => JObj (r ++ [("accepted", JBool false)])) <$> late));
    ("projection_digest", JStr (projection_digest p));
    ("chain_head", JStr (projection_head p));
    ("manifest_link", JObj [("row_id", JStr "core.canonical-state-replay-restart");
       ("receipt_ref", JStr "receipt:work-generation-fence")])].

(** ** The fence *)

Section fence.
Context {DG : Digester} {W : Type} `{EventLog W} (run : string) (timestamp : W -> string).

Definition projection : Prog W GenerationProjection :=
  es ← ask log_read;
  es ← try es;
  try (project_events es run).

Definition write_fence_receipt : Prog W unit :=
  es ← ask log_read;
  es ← try es;
  p ← try (project_events es run);
  log_receipt "work-generation-fence.receipt.json" (receipt_document run es p).

Definition fence_append (ev : WorkGenerationRecorded) (content : string) : Prog W CommittedEvent :=
  c ← log_append (generation_event ev) content;
  write_fence_receipt;;
  mret c.

Definition acquisition (gid wid aid ts : string) : WorkGenerationRecorded := {|
  wg_event_id := gid +:+ ":acquire"; wg_generation_id := gid; wg_work_id := wid; wg_attempt_id := aid;
  wg_record := ACQUIRE; wg_disposition := None; wg_authority := None; wg_classification := None; wg_ts := ts |}.

Definition attempt_taken (aid : string) (p : GenerationProjection) : bool :=
  py_any (fun s => bool_decide (attempt_id s = aid)) (generations p).

Definition acquire (wid aid : string) : Prog W GenerationIdentity :=
  try (raise_if (bool_decide (wid = "") || bool_decide (aid = "")) (ValueError "work_id and attempt_id are required"));;
  p ← projection;
  try (raise_if (dict_has wid (active_by_work p)) (GenerationConflict "work already has an active generation"));;
  try (raise_if (attempt_taken aid p) (GenerationConflict "attempt already belongs to a generation"));;
  let gid := next_generation_id (generations p) in
  ts ← ask timestamp;
  fence_append (acquisition gid wid aid ts) "";;
  mret {| id_generation := gid; id_work := wid; id_attempt := aid |}.

Definition acquire_exact (gid wid aid : string) : Prog W GenerationIdentity :=
  try (raise_if (bool_decide (wid = "") || bool_decide (aid = "") || bool_decide (generation_serial gid = None))
    (ValueError "generation_id, work_id and attempt_id are required"));;
  p ← projection;
  match py_next (fun s => bool_decide (generation_id s = gid)) (generations p) with
  | Some s =>
      if bool_decide (work_id s = wid) && bool_decide (attempt_id s = aid) && active s
      then mret {| id_generation := gid; id_work := wid; id_attempt := aid |}
      else fail (GenerationConflict "generation is already consumed")
  | None =>
      try (raise_unless (bool_decide (gid = next_generation_id (generations p)))
        (GenerationConflict "generation is not the next durable identity"));;
      try (raise_if (dict_has wid (active_by_work p)) (GenerationConflict "work already has an active generation"));;
      try (raise_if (attempt_taken aid p) (GenerationConflict "attempt already belongs to a generation"));;
      ts ← ask timestamp;
      fence_append (acquisition gid wid aid ts) "";;
      mret {| id_generation := gid; id_work := wid; id_attempt := aid |}
  end.

Definition closing (s : GenerationState) (gid : string) (d : GenerationDisposition) (ts : string) :
    WorkGenerationRecorded := {|
  wg_event_id := gid +:+ ":close"; wg_generation_id := gid; wg_work_id := work_id s; wg_attempt_id := attempt_id s;
  wg_record := CLOSE; wg_disposition := Some d; wg_authority := None; wg_classification := None; wg_ts := ts |}.

Definition close (gid : string) (d : GenerationDisposition) : Prog W unit :=
  p ← projection;
  s ← try (state_for p gid);
  if negb (active s) then
    if bool_decide (disposition s = Some d) then mret tt
    else fail (GenerationConflict "generation already closed")
  else
    ts ← ask timestamp;
    fence_append (closing s gid d ts) "";;
    mret tt.

Definition replace (wid aid : string) : Prog W GenerationIdentity :=
  p ← projection;
  match dict_get wid (active_by_work p) with
  | Some s => close (generation_id s) SUPERSEDE
  | None => mret tt
  end;;
  acquire wid aid.

(** How many events of a generation have a record. *)
Definition count_records (r : GenerationRecord) (gid : string) (es : list CommittedEvent) : Z :=
  py_len (List.filter (fun e => is_work_event e && py_eqb (field_of "generation_id" e) (JStr gid)
    && has_work_record r e) es).

Definition next_late_event_id (gid : string) : Prog W string :=
  es ← ask log_read;
  es ← try es;
  mret (gid +:+ ":late-" +:+ pad6 (count_records LATE_EVENT gid es + 1)).

Definition next_authority_event_id (gid : string) : Prog W string :=
  es ← ask log_read;
  es ← try es;
  mret (gid +:+ ":authority-" +:+ pad6 (count_records AUTHORITY gid es + 1)).

Definition speaking (eid : string) (s : GenerationState) (gid : string) (r : GenerationRecord)
    (a : GenerationAuthority) (c : GenerationClassification) (ts : string) : WorkGenerationRecorded := {|
  wg_event_id := eid; wg_generation_id := gid; wg_work_id := work_id s; wg_attempt_id := attempt_id s;
  wg_record := r; wg_disposition := None; wg_authority := Some a; wg_classification := Some c; wg_ts := ts |}.

Definition authorize_ (gid : string) (a : GenerationAuthority) (evidence : string) :
    Prog W (AuthorityDecision * option AuthorityGrant) :=
  p ← projection;
  s ← try (state_for p gid);
  if active s then
    eid ← next_authority_event_id gid;
    ts ← ask timestamp;
    c ← fence_append (speaking eid s gid AUTHORITY a CURRENT ts) "";
    mret ({| accepted := true; classification := CURRENT |},
          Some {| grant_event_id := eid; grant_sequence := sequence c; grant_run_id := run;
                  grant_generation := generation_id s; grant_work := work_id s; grant_attempt := attempt_id s;
                  grant_authority := a |})
  else
    let cls := late_classification (disposition s) in
    eid ← next_late_event_id gid;
    ts ← ask timestamp;
    fence_append (speaking eid s gid LATE_EVENT a cls ts) evidence;;
    mret ({| accepted := false; classification := cls |}, None).

Definition authorize (gid : string) (a : GenerationAuthority) (evidence : string) : Prog W AuthorityDecision :=
  r ← authorize_ gid a evidence;
  mret r.1.

(** [commit] is the caller's write, run only under a grant. *)
Definition authorize_and_commit {T} (gid : string) (a : GenerationAuthority) (commit_ : AuthorityGrant -> Prog W T)
    (evidence : string) : Prog W (AuthorityDecision * option T) :=
  r ← authorize_ gid a evidence;
  match r.2 with
  | Some grant => t ← commit_ grant; mret (r.1, Some t)
  | None => mret (r.1, None)
  end.

Definition inspect_current {T} (gid : string) (inspect : Prog W T) : Prog W (option T) :=
  p ← projection;
  s ← try (state_for p gid);
  if active s then t ← inspect; mret (Some t) else mret None.

Fixpoint close_all (gids : list string) : Prog W unit :=
  match gids with
  | [] => mret tt
  | gid :: rest => close gid INTERRUPT;; close_all rest
  end.

Definition reconcile_restart : Prog W (list string) :=
  p ← projection;
  let gids := generation_id <$> List.filter active (generations p) in
  close_all gids;;
  mret gids.
End fence.
