(* ===== verification/WorkGenerationLogic.v ===== *)
(** The projection of generation events as an ownership ledger.

    [ownership] is the abstract state the fence promises: who owns which Work, in the order
    it was acquired.  [projects] ties a log to it; the lemmas say what one more event of
    each kind does to the projection. *)

From Stdlib Require Import Ascii.
From S2P Require Import Prelude Canon Text PyJson EventStore EventContracts EventLog WorkGeneration.
Local Open Scope Z_scope.

#[global] Arguments dict_get : simpl never.
#[global] Arguments dict_set : simpl never.
#[global] Arguments dict_del : simpl never.

(** ** The abstract ledger *)

Record Owner : Type := {
  own_generation : string;
  own_work : string;
  own_attempt : string;
  own_end : option GenerationDisposition
}.

(** Take Work nobody owns for an Attempt that never owned any, or give it up. *)
Inductive own_step : list Owner -> list Owner -> Prop :=
  | own_take l g w a :
      (forall o, o ∈ l -> own_generation o <> g /\ own_attempt o <> a) ->
      (forall o, o ∈ l -> own_work o = w -> own_end o <> None) ->
      own_step l (l ++ [{| own_generation := g; own_work := w; own_attempt := a; own_end := None |}])
  | own_give l1 l2 g w a d :
      own_step (l1 ++ {| own_generation := g; own_work := w; own_attempt := a; own_end := None |} :: l2)
               (l1 ++ {| own_generation := g; own_work := w; own_attempt := a; own_end := Some d |} :: l2).

(** One owner per Work at a time, and every generation and Attempt owns once. *)
Definition exclusive (l : list Owner) : Prop :=
  NoDup (own_generation <$> l) /\ NoDup (own_attempt <$> l)
  /\ forall o1 o2, o1 ∈ l -> o2 ∈ l -> own_end o1 = None -> own_end o2 = None -> own_work o1 = own_work o2 -> o1 = o2.

Lemma own_step_exclusive l l' : own_step l l' -> exclusive l -> exclusive l'.
Proof.
  destruct 1 as [l g w a Hnew Hfree|l1 l2 g w a d]; intros (Hg & Ha & Hw).
  - split; [|split].
    + rewrite fmap_app. apply NoDup_app. split; [done|]. split; [|apply NoDup_singleton].
      intros x (o & -> & Ho)%list_elem_of_fmap Hx%list_elem_of_singleton. by destruct (Hnew o Ho).
    + rewrite fmap_app. apply NoDup_app. split; [done|]. split; [|apply NoDup_singleton].
      intros x (o & -> & Ho)%list_elem_of_fmap Hx%list_elem_of_singleton. by destruct (Hnew o Ho).
    + intros o1 o2 [H1|H1%list_elem_of_singleton]%elem_of_app [H2|H2%list_elem_of_singleton]%elem_of_app E1 E2 Heq.
      * by apply Hw.
      * subst o2. by destruct (Hfree o1 H1 Heq).
      * subst o1. by destruct (Hfree o2 H2 (eq_sym Heq)).
      * congruence.
  - rewrite !fmap_app, !fmap_cons in Hg, Ha. split; [by rewrite fmap_app, fmap_cons|].
    split; [by rewrite fmap_app, fmap_cons|].
    intros o1 o2 H1 H2 E1 E2. apply Hw; try done.
    + apply elem_of_app in H1 as [H1|[->|H1]%elem_of_cons]; [set_solver|done|set_solver].
    + apply elem_of_app in H2 as [H2|[->|H2]%elem_of_cons]; [set_solver|done|set_solver].
Qed.

(** ** Reading generation events *)

(** The text fields of a generation event. *)
Record reads (e : CommittedEvent) (gid wid aid : string) (r : GenerationRecord) : Prop := {
  reads_gid : dict_get "generation_id" (payload e) = Some (JStr gid);
  reads_wid : dict_get "work_id" (payload e) = Some (JStr wid);
  reads_aid : dict_get "attempt_id" (payload e) = Some (JStr aid);
  reads_record : dict_get "record" (payload e) = Some (JStr (record_value r))
}.

Lemma text_of_ok name p s : text_of name p = Ok s <-> dict_get name p = Some (JStr s).
Proof.
  unfold text_of, item. destruct (dict_get name p) as [v|]; cbn; [|split; done].
  destruct v; cbn; split; try done; congruence.
Qed.

Lemma record_of_value r : record_of (record_value r) = Some r.
Proof. by destruct r. Qed.

Lemma record_of_Some s r : record_of s = Some r -> s = record_value r.
Proof. unfold record_of. intros [_ Hb%bool_decide_eq_true]%List.find_some. done. Qed.

Lemma disposition_of_value d : disposition_of (disposition_value d) = Some d.
Proof. by destruct d. Qed.

Lemma project_event_reads st e gid wid aid r :
  reads e gid wid aid r ->
  project_event st e =
  match r with
  | ACQUIRE => project_acquire st gid wid aid (sequence e)
  | _ =>
      state ← match dict_get gid (states_by_id st) with
        | Some s => Ok s
        | None => illegal "generation has no acquisition"
        end;
      raise_if (negb (bool_decide (work_id state = wid)) || negb (bool_decide (attempt_id state = aid)))
        (IllegalGenerationTransition "generation changed ownership");;
      match r with
      | CLOSE => d ← text_of "disposition" (payload e); project_close st state gid wid d (sequence e)
      | AUTHORITY =>
          raise_unless (active state) (IllegalGenerationTransition "closed generation reserved authority");;
          c ← text_of "classification" (payload e);
          raise_unless (bool_decide (c = classification_value CURRENT))
            (IllegalGenerationTransition "generation has an invalid authority classification");;
          Ok st
      | _ =>
          raise_if (active state) (IllegalGenerationTransition "active generation received a late event");;
          c ← text_of "classification" (payload e);
          raise_unless (bool_decide (c = classification_value (late_classification (disposition state))))
            (IllegalGenerationTransition "generation has an invalid late-event classification");;
          Ok st
      end
  end.
Proof.
  intros [H1 H2 H3 H4]. apply text_of_ok in H1, H2, H3, H4. unfold project_event.
  rewrite H1, H2, H3, H4. cbn [mbind result_bind]. rewrite record_of_value. by destruct r.
Qed.

(** Every event the projection takes can be read. *)
Lemma project_event_inv st e st' :
  project_event st e = Ok st' -> exists gid wid aid r, reads e gid wid aid r.
Proof.
  unfold project_event. intros H. apply bind_ok in H as (gid & H1 & H). apply bind_ok in H as (wid & H2 & H).
  apply bind_ok in H as (aid & H3 & H). apply bind_ok in H as (rt & H4 & H). apply bind_ok in H as (r & H5 & _).
  destruct (record_of rt) as [r'|] eqn:Er; [|done]. apply record_of_Some in Er as ->.
  apply text_of_ok in H1, H2, H3, H4. by exists gid, wid, aid, r'.
Qed.

(** ** The projector's invariant *)

Record projector_ok (st : Projector) : Prop := {
  ok_keys : NoDup (states_by_id st).*1;
  ok_order : order st = (states_by_id st).*1;
  ok_names : forall g s, dict_get g (states_by_id st) = Some s -> generation_id s = g;
  ok_active_keys : NoDup (active_now st).*1;
  ok_active : forall w s, dict_get w (active_now st) = Some s <->
    dict_get (generation_id s) (states_by_id st) = Some s /\ disposition s = None /\ work_id s = w;
  ok_attempts : forall a, (exists g, dict_get a (generation_by_attempt st) = Some g)
    <-> exists g s, dict_get g (states_by_id st) = Some s /\ attempt_id s = a
}.

Lemma projector_start_ok : projector_ok projector_start.
Proof.
  split; cbn; try done.
  - constructor.
  - constructor.
  - naive_solver.
  - naive_solver.
Qed.

Definition owner_of (s : GenerationState) : Owner := {|
  own_generation := generation_id s; own_work := work_id s; own_attempt := attempt_id s; own_end := disposition s |}.

Definition ownership (st : Projector) : list Owner := owner_of <$> (states_by_id st).*2.

Lemma omap_get {K V} `{EqDecision K} (d l : list (K * V)) :
  (forall k v, (k, v) ∈ l -> dict_get k d = Some v) -> omap (fun k => dict_get k d) l.*1 = l.*2.
Proof.
  induction l as [|[k v] l IH]; intros Hl; [done|]. cbn. rewrite (Hl k v) by set_solver. f_equal.
  apply IH. set_solver.
Qed.

Lemma states_of_values st : projector_ok st -> states_of st = (states_by_id st).*2.
Proof.
  intros [Hk Ho _ _ _ _]. unfold states_of. rewrite Ho. apply omap_get. intros k v. by apply dict_elem_get.
Qed.

(** The states a projection lists are those it keeps. *)
Lemma state_in st s : projector_ok st ->
  s ∈ (states_by_id st).*2 <-> dict_get (generation_id s) (states_by_id st) = Some s.
Proof.
  intros Hok. rewrite list_elem_of_fmap. split.
  - intros ([g s'] & -> & Hin). cbn. apply dict_elem_get in Hin; [|apply Hok].
    by rewrite (ok_names _ Hok _ _ Hin).
  - intros Hg%dict_get_Some_elem. by exists (generation_id s, s).
Qed.

Lemma dict_set_replace {K V} `{EqDecision K} k (v v0 : V) (d : list (K * V)) :
  dict_get k d = Some v0 -> exists l1 l2, d = l1 ++ (k, v0) :: l2 /\ dict_set k v d = l1 ++ (k, v) :: l2.
Proof.
  induction d as [|[k' v'] d IH]; [done|]. rewrite dict_get_cons. unfold dict_set. case_bool_decide as E.
  - intros [= ->]. subst. exists [], d. done.
  - intros (l1 & l2 & -> & Hset)%IH. fold (dict_set k v (l1 ++ (k, v0) :: l2)). rewrite Hset.
    by exists ((k', v') :: l1), l2.
Qed.

Lemma dict_has_false {K V} `{EqDecision K} k (d : list (K * V)) : dict_has k d = false <-> dict_get k d = None.
Proof. unfold dict_has. rewrite bool_decide_eq_false. destruct (dict_get k d); [|naive_solver]. split; [|done]. intros []; eauto. Qed.

Definition fresh_state (gid wid aid : string) (n : Z) : GenerationState := {|
  generation_id := gid; work_id := wid; attempt_id := aid; disposition := None; acquired_sequence := n;
  closed_sequence := None |}.

Definition closed_state (s : GenerationState) (d : GenerationDisposition) (n : Z) : GenerationState := {|
  generation_id := generation_id s; work_id := work_id s; attempt_id := attempt_id s; disposition := Some d;
  acquired_sequence := acquired_sequence s; closed_sequence := Some n |}.

(** Acquiring: possible exactly when the abstract ledger allows it. *)
Lemma project_acquire_ok st gid wid aid n :
  projector_ok st -> dict_get gid (states_by_id st) = None -> dict_get wid (active_now st) = None ->
  dict_get aid (generation_by_attempt st) = None ->
  exists st', project_acquire st gid wid aid n = Ok st' /\ projector_ok st'
    /\ states_by_id st' = states_by_id st ++ [(gid, fresh_state gid wid aid n)]
    /\ own_step (ownership st) (ownership st').
Proof.
  intros Hok Hg Hw Ha. unfold project_acquire.
  rewrite (proj2 (dict_has_false gid _) Hg), (proj2 (dict_has_false wid _) Hw), (proj2 (dict_has_false aid _) Ha).
  cbn [raise_if mbind result_bind]. fold (fresh_state gid wid aid n). set (s := fresh_state gid wid aid n).
  eexists. split; [done|]. destruct Hok as [Hk Ho Hn Hak Hact Hatt].
  assert (Hset : dict_set gid s (states_by_id st) = states_by_id st ++ [(gid, s)]) by (by apply dict_set_new).
  split; [|split; [done|]].
  - split; cbn.
    + by apply dict_set_NoDup.
    + rewrite Hset, Ho, fmap_app. done.
    + intros g s'. rewrite dict_get_set. case_bool_decide; [by intros [= <-]|apply Hn].
    + by apply dict_set_NoDup.
    + intros w s'. rewrite !dict_get_set. split.
      * case_bool_decide as E1; [intros [= <-]; subst w; by rewrite bool_decide_true|].
        intros (H1 & H2 & H3)%Hact. split; [|done]. rewrite bool_decide_false; [done|]. intros E. congruence.
      * intros (H1 & H2 & H3). case_bool_decide as E1.
        -- injection H1 as <-. cbn in H3. subst w. by rewrite bool_decide_true.
        -- assert (Hs' : dict_get w (active_now st) = Some s') by (by apply Hact).
           rewrite bool_decide_false; [done|]. intros ->. congruence.
    + intros a. split.
      * intros [g Hgg]. rewrite dict_get_set in Hgg. case_bool_decide as E; [subst a|].
        { exists gid, s. by rewrite dict_get_set_eq. }
        destruct (proj1 (Hatt a) (ex_intro _ g Hgg)) as (g' & s' & H1 & H2).
        exists g', s'. rewrite dict_get_set_ne by congruence. done.
      * intros (g & s' & H1 & H2). rewrite dict_get_set in H1. destruct (decide (a = aid)) as [->|Hne].
        { exists gid. by rewrite dict_get_set_eq. }
        case_bool_decide as E; [injection H1 as <-; by cbn in H2|].
        destruct (proj2 (Hatt a) (ex_intro _ g (ex_intro _ s' (conj H1 H2)))) as [g' Hg'].
        exists g'. by rewrite dict_get_set_ne.
  - unfold ownership. cbn [states_by_id]. rewrite Hset, !fmap_app. cbn. apply own_take.
    + intros o (s' & -> & ([g s2] & -> & Hin)%list_elem_of_fmap)%list_elem_of_fmap. cbn.
      apply dict_elem_get in Hin; [|done]. pose proof (Hn _ _ Hin) as Hname. split; [congruence|].
      intros Heq. destruct (proj2 (Hatt aid) (ex_intro _ g (ex_intro _ s2 (conj Hin Heq)))) as [g' Hg']. congruence.
    + intros o (s' & -> & ([g s2] & -> & Hin)%list_elem_of_fmap)%list_elem_of_fmap. cbn. intros Heq Hend.
      apply dict_elem_get in Hin; [|done]. pose proof (Hn _ _ Hin) as Hname.
      assert (Hs2 : dict_get wid (active_now st) = Some s2) by (apply Hact; by rewrite Hname). congruence.
Qed.

(** Closing an active generation. *)
Lemma project_close_ok st gid s d n :
  projector_ok st -> dict_get gid (states_by_id st) = Some s -> disposition s = None ->
  exists st', project_close st s gid (work_id s) (disposition_value d) n = Ok st' /\ projector_ok st'
    /\ dict_get gid (states_by_id st') = Some (closed_state s d n)
    /\ (forall g, g <> gid -> dict_get g (states_by_id st') = dict_get g (states_by_id st))
    /\ own_step (ownership st) (ownership st').
Proof.
  intros Hok Hg Hd. destruct Hok as [Hk Ho Hn Hak Hact Hatt]. pose proof (Hn _ _ Hg) as Hname.
  assert (Hw : dict_get (work_id s) (active_now st) = Some s) by (apply Hact; by rewrite Hname).
  unfold project_close, active. rewrite Hd, bool_decide_true by done. rewrite disposition_of_value.
  cbn [raise_unless mbind result_bind]. unfold dict_has. rewrite bool_decide_true by (by eexists).
  cbn [raise_unless mbind result_bind]. fold (closed_state s d n).
  eexists. split; [done|]. destruct (dict_set_replace gid (closed_state s d n) s _ Hg) as (l1 & l2 & Hst & Hset).
  assert (Hkeys : (dict_set gid (closed_state s d n) (states_by_id st)).*1 = (states_by_id st).*1).
  { rewrite Hset, Hst. by rewrite !fmap_app. }
  split; [|split; [apply dict_get_set_eq|split; [intros; by apply dict_get_set_ne|]]].
  - split; cbn.
    + by rewrite Hkeys.
    + by rewrite Hkeys.
    + intros g s'. rewrite dict_get_set. case_bool_decide as E; [|apply Hn]. intros [= <-]. cbn. congruence.
    + by apply dict_del_NoDup.
    + intros w s'. split.
      * intros Hs'. destruct (decide (w = work_id s)) as [->|Hne]; [by rewrite dict_get_del_eq in Hs'|].
        rewrite dict_get_del_ne in Hs' by done. apply Hact in Hs' as (H1 & H2 & H3). split; [|done].
        rewrite dict_get_set_ne; [done|]. intros E. rewrite E in H1. congruence.
      * intros (H1 & H2 & H3). rewrite dict_get_set in H1. case_bool_decide as E; [injection H1 as <-; done|].
        assert (Hs' : dict_get w (active_now st) = Some s') by (by apply Hact).
        rewrite dict_get_del_ne; [done|]. intros ->. congruence.
    + intros a. rewrite Hatt. split; intros (g & s' & H1 & H2).
      * destruct (decide (g = gid)) as [->|Hne].
        -- exists gid, (closed_state s d n). rewrite dict_get_set_eq. split; [done|]. cbn. congruence.
        -- exists g, s'. by rewrite dict_get_set_ne.
      * rewrite dict_get_set in H1. case_bool_decide as E; [injection H1 as <-; by exists gid, s|by exists g, s'].
  - unfold ownership. cbn [states_by_id]. rewrite Hset, Hst, !fmap_app. cbn.
    assert (owner_of s = {| own_generation := generation_id s; own_work := work_id s; own_attempt := attempt_id s;
      own_end := None |}) as -> by (unfold owner_of; by rewrite Hd).
    apply own_give.
Qed.

Lemma disposition_of_Some t d : disposition_of t = Some d -> t = disposition_value d.
Proof. unfold disposition_of. intros [_ Hb%bool_decide_eq_true]%List.find_some. done. Qed.

Lemma active_spec s : active s = true <-> disposition s = None.
Proof. unfold active. apply bool_decide_eq_true. Qed.

(** Every event the projection takes is a step of the abstract ledger or leaves it alone. *)
Lemma project_event_step st e st' :
  projector_ok st -> project_event st e = Ok st' ->
  projector_ok st' /\ (own_step (ownership st) (ownership st') \/ st' = st).
Proof.
  intros Hok Hp. destruct (project_event_inv _ _ _ Hp) as (gid & wid & aid & r & Hr).
  rewrite (project_event_reads st e gid wid aid r Hr) in Hp. destruct r.
  - pose proof Hp as Hp'. unfold project_acquire in Hp'. inv_ok.
    repeat match goal with H : dict_has _ _ = false |- _ => apply dict_has_false in H end.
    destruct (project_acquire_ok st gid wid aid (sequence e)) as (st2 & Heq & Hst2 & _ & Hstep); [done..|].
    rewrite Heq in Hp. injection Hp as <-. auto.
  - apply bind_ok in Hp as (s & Hs & Hp). destruct (dict_get gid _) as [s'|] eqn:Hg; [|done]. injection Hs as ->.
    apply bind_ok in Hp as ([] & Ho%raise_if_ok & Hp). apply bind_ok in Hp as (dt & _ & Hp).
    pose proof Hp as Hp'. unfold project_close in Hp'. inv_ok. apply active_spec in Hok0.
    destruct (disposition_of dt) as [d|] eqn:Ed; [|done]. apply disposition_of_Some in Ed as ->.
    apply orb_false_iff in Ho as [Hw _]. bool_to_prop. subst wid.
    destruct (project_close_ok st gid s d (sequence e)) as (st2 & Heq & Hst2 & _ & _ & Hstep); [done..|].
    rewrite Heq in Hp. injection Hp as <-. auto.
  - inv_ok. auto.
  - inv_ok. auto.
Qed.

Lemma project_all_steps es : forall st st',
  projector_ok st -> project_all st es = Ok st' ->
  projector_ok st' /\ rtc own_step (ownership st) (ownership st').
Proof.
  induction es as [|e es IH]; intros st st' Hok Hp; cbn in Hp; [injection Hp as <-; by split|].
  apply bind_ok in Hp as (st1 & H1 & H2). destruct (project_event_step _ _ _ Hok H1) as [Hok1 Hstep].
  destruct (IH _ _ Hok1 H2) as [Hok' Hsteps]. split; [done|].
  destruct Hstep as [Hstep| ->]; [by eapply rtc_l|done].
Qed.

Lemma own_steps_exclusive l l' : rtc own_step l l' -> exclusive l -> exclusive l'.
Proof. induction 1 as [|l l1 l2 Hs _ IH]; [done|]. intros Hl. eauto using own_step_exclusive. Qed.

Lemma exclusive_nil : exclusive [].
Proof. split; [constructor|split; [constructor|]]. intros o1 o2 H1. set_solver. Qed.

Lemma project_log_ok es st :
  project_log es = Ok st -> projector_ok st /\ rtc own_step [] (ownership st) /\ exclusive (ownership st).
Proof.
  intros Hp. destruct (project_all_steps _ _ _ projector_start_ok Hp) as [Hok Hs].
  split; [done|]. split; [done|]. eapply own_steps_exclusive; [exact Hs|apply exclusive_nil].
Qed.

Lemma project_all_app es1 es2 : forall st, project_all st (es1 ++ es2) = st1 ← project_all st es1; project_all st1 es2.
Proof.
  induction es1 as [|e es1 IH]; intros st; [done|]. cbn. destruct (project_event st e); cbn; [apply IH|done].
Qed.

Lemma project_log_snoc es e st :
  project_log es = Ok st -> is_work_event e = true -> project_log (es ++ [e]) = project_event st e.
Proof.
  intros Hp He. unfold project_log, work_events in *. rewrite List.filter_app. cbn. rewrite He.
  rewrite project_all_app, Hp. cbn. by destruct (project_event st e).
Qed.

(** ** Event identities *)

Lemma pad6_digits n : 0 <= n -> int_digits 0 (pad6 n) = Some n.
Proof. intros Hn. unfold pad6. rewrite int_digits_zeros. by apply int_digits_str_int. Qed.

Lemma generation_name_colon_free n : 0 <= n -> colon_free (generation_name n).
Proof. intros Hn. apply colon_free_app; [done|]. by eapply digits_colon_free, pad6_digits. Qed.

Lemma generation_serial_name n : 0 <= n -> generation_serial (generation_name n) = Some n.
Proof.
  intros Hn. unfold generation_serial, generation_name. rewrite strip_prefix_app. by apply parse_pad6.
Qed.

(** The tail of an event's identity. *)
Definition tail_of (r : GenerationRecord) (k : Z) : string :=
  match r with
  | ACQUIRE => "acquire"
  | CLOSE => "close"
  | AUTHORITY => "authority-" +:+ pad6 k
  | LATE_EVENT => "late-" +:+ pad6 k
  end.

Lemma tail_of_inj r r' k k' : 0 <= k -> 0 <= k' -> tail_of r k = tail_of r' k' ->
  r = r' /\ (r = AUTHORITY \/ r = LATE_EVENT -> k = k').
Proof.
  intros Hk Hk' H. destruct r, r'; cbn in H; try discriminate; (split; [done|]); try (by intros [?|?]); intros _.
  - repeat (injection H as H). by apply pad6_inj.
  - repeat (injection H as H). by apply pad6_inj.
Qed.

(** Every generation event is named after its generation, its record and its turn. *)
Definition named (es : list CommittedEvent) : Prop :=
  forall c, c ∈ es -> is_work_event c = true -> exists gid wid aid r k,
    reads c gid wid aid r /\ colon_free gid
    /\ get_or "event_id" JNull (payload c) = JStr (gid +:+ ":" +:+ tail_of r k)
    /\ 0 <= k <= count_records r gid es.

Lemma count_records_snoc r gid es e :
  count_records r gid (es ++ [e]) = count_records r gid es
    + (if is_work_event e && py_eqb (field_of "generation_id" e) (JStr gid) && has_work_record r e then 1 else 0).
Proof.
  unfold count_records, py_len. rewrite List.filter_app, length_app. cbn.
  destruct (_ && _); cbn; lia.
Qed.

Lemma reads_counts e gid wid aid r :
  reads e gid wid aid r -> is_work_event e = true ->
  is_work_event e && py_eqb (field_of "generation_id" e) (JStr gid) && has_work_record r e = true.
Proof.
  intros [H1 _ _ H4] He. unfold has_work_record, field_of, get_or. rewrite He, H1, H4. cbn.
  by rewrite !py_eqb_refl.
Qed.

Lemma named_snoc es e gid wid aid r k :
  named es -> reads e gid wid aid r -> is_work_event e = true -> colon_free gid ->
  get_or "event_id" JNull (payload e) = JStr (gid +:+ ":" +:+ tail_of r k) ->
  0 <= k <= count_records r gid es + 1 -> named (es ++ [e]).
Proof.
  intros Hn Hr He Hc Hid Hk c Hin Hw. apply elem_of_app in Hin as [Hin|Hin%list_elem_of_singleton].
  - destruct (Hn c Hin Hw) as (g & w & a & r' & k' & H1 & H2 & H3 & H4).
    exists g, w, a, r', k'. split_and!; try done; [lia|]. rewrite count_records_snoc. destruct (_ && _); lia.
  - subst c. exists gid, wid, aid, r, k. split_and!; try done; [lia|].
    rewrite count_records_snoc, (reads_counts _ _ _ _ _ Hr He). lia.
Qed.
