(* ===== verification/WorkGenerationFacts.v ===== *)
(** The fence's operations over any sound event log: each is a step of the ownership ledger. *)

From S2P Require Import Prelude Canon Text PyJson EventStore EventContracts EventLog WorkGeneration WorkGenerationLogic.
Local Open Scope Z_scope.

(** ** What a log tells of its generations *)

(** Every event speaks of an acquired generation; one with a close event is closed. *)
Lemma project_log_speaks es : forall st c gid wid aid r,
  project_log es = Ok st -> c ∈ es -> is_work_event c = true -> reads c gid wid aid r ->
  exists s, dict_get gid (states_by_id st) = Some s /\ (r = CLOSE -> disposition s <> None).
Proof.
  induction es as [|e es IH] using rev_ind; intros st c gid wid aid r Hp Hin Hw Hr; [set_solver|].
  unfold project_log, work_events in Hp. rewrite List.filter_app, project_all_app in Hp.
  apply bind_ok in Hp as (st0 & H0 & Hp). destruct (project_log_ok _ _ H0) as (Hok0 & _ & _).
  assert (Hmono : forall g s, dict_get g (states_by_id st0) = Some s ->
    exists s', dict_get g (states_by_id st) = Some s' /\ (disposition s <> None -> disposition s' <> None)).
  { cbn in Hp. destruct (is_work_event e) eqn:He; cbn in Hp; [|injection Hp as <-; eauto].
    apply bind_ok in Hp as (st1 & Hp & [= <-]). intros g s Hg.
    destruct (project_event_inv _ _ _ Hp) as (g' & w' & a' & r' & Hr').
    rewrite (project_event_reads _ _ _ _ _ _ Hr') in Hp. destruct r'.
    - unfold project_acquire in Hp. inv_ok. cbn. exists s. split; [|done]. rewrite dict_get_set_ne; [done|].
      intros ->. apply dict_has_false in Hok. congruence.
    - apply bind_ok in Hp as (s1 & Hs1 & Hp). destruct (dict_get g' _) as [s2|] eqn:Hg'; [|done]. injection Hs1 as ->.
      apply bind_ok in Hp as ([] & _ & Hp). apply bind_ok in Hp as (dt & _ & Hp). unfold project_close in Hp. inv_ok.
      cbn. rewrite dict_get_set. case_bool_decide; [subst; eexists; split; [done|]; done|eauto].
    - inv_ok. eauto.
    - inv_ok. eauto. }
  apply elem_of_app in Hin as [Hin|Hin%list_elem_of_singleton].
  - destruct (IH st0 c gid wid aid r H0 Hin Hw Hr) as (s & Hg & Hc).
    destruct (Hmono _ _ Hg) as (s' & Hg' & Hc'). eauto.
  - subst c. cbn in Hp. rewrite Hw in Hp. cbn in Hp. apply bind_ok in Hp as (st1 & Hp & [= <-]).
    rewrite (project_event_reads _ _ _ _ _ _ Hr) in Hp. destruct r.
    + unfold project_acquire in Hp. inv_ok. cbn. eexists. split; [apply dict_get_set_eq|done].
    + apply bind_ok in Hp as (s1 & Hs1 & Hp). apply bind_ok in Hp as ([] & _ & Hp).
      apply bind_ok in Hp as (dt & _ & Hp). unfold project_close in Hp. inv_ok. cbn.
      eexists. split; [apply dict_get_set_eq|done].
    + apply bind_ok in Hp as (s1 & Hs1 & Hp). destruct (dict_get gid _) as [s2|] eqn:Hg'; [|done].
      inv_ok. eauto.
    + apply bind_ok in Hp as (s1 & Hs1 & Hp). destruct (dict_get gid _) as [s2|] eqn:Hg'; [|done].
      inv_ok. eauto.
Qed.

(** Generations carry names the fence can build identities from. *)
Definition well_owned (st : Projector) : Prop :=
  forall g s, dict_get g (states_by_id st) = Some s ->
    colon_free g /\ g <> "" /\ work_id s <> "" /\ attempt_id s <> "".

Definition legal (es : list CommittedEvent) (st : Projector) : Prop :=
  project_log es = Ok st /\ named es /\ well_owned st.

Lemma legal_ok es st : legal es st -> projector_ok st.
Proof. intros [Hp _]. by apply project_log_ok in Hp as [? _]. Qed.

Lemma legal_empty : legal [] projector_start.
Proof. split; [done|]. split; [intros c Hc; set_solver|]. intros g s Hg. done. Qed.

(** An identity the log has not seen. *)
Lemma unseen_by_name es st gid r k :
  legal es st -> colon_free gid -> 0 <= k ->
  (forall c wid aid, c ∈ es -> reads c gid wid aid r -> is_work_event c = true ->
     (r = AUTHORITY \/ r = LATE_EVENT) /\ count_records r gid es < k) ->
  unseen es WORK_GENERATION_RECORDED (gid +:+ ":" +:+ tail_of r k).
Proof.
  intros (_ & Hn & _) Hc Hk Hnew c Hin Ht Heq.
  assert (Hw : is_work_event c = true) by (by apply bool_decide_eq_true).
  destruct (Hn c Hin Hw) as (g & w & a & r' & k' & Hr & Hg & Hid & Hk'). rewrite Hid in Heq. injection Heq as Heq.
  apply colon_inj in Heq as [-> Heq]; [|done..]. apply tail_of_inj in Heq as [-> Hkk]; [|lia..].
  destruct (Hnew c w a Hin Hr Hw) as [Hside Hlt]. specialize (Hkk Hside). lia.
Qed.

Lemma int_digits_nonneg s : forall a n, 0 <= a -> int_digits a s = Some n -> 0 <= n.
Proof.
  induction s as [|c s IH]; intros a n Ha Hn; cbn in Hn; [injection Hn as <-; lia|].
  destruct (digit_value c) as [d|] eqn:Ed; [|done]. eapply IH; [|exact Hn].
  unfold digit_value in Ed. destruct (_ && _) eqn:E in Ed; [|done]. injection Ed as <-. bool_to_prop. lia.
Qed.

Lemma generation_serial_nonneg g n : generation_serial g = Some n -> 0 <= n.
Proof.
  unfold generation_serial. destruct (strip_prefix _ _) as [s|]; [|done]. unfold parse_digits.
  destruct s; [done|]. apply int_digits_nonneg. lia.
Qed.

(** The next identity is fresh. *)
Lemma next_generation_fresh st :
  projector_ok st ->
  let gid := next_generation_id (states_of st) in
  dict_get gid (states_by_id st) = None /\ colon_free gid /\ gid <> "" /\ generation_serial gid <> None.
Proof.
  intros Hok gid. unfold gid, next_generation_id. set (l := omap _ _).
  assert (Hmax : 0 <= maxZ 0 l).
  { destruct l as [|n l'] eqn:El; [done|]. rewrite <-El. etrans; [|apply (maxZ_ge 0 l n); rewrite El; set_solver].
    assert (Hin : n ∈ l) by (rewrite El; set_solver). apply list_elem_of_omap in Hin as (s & _ & Hs).
    by eapply generation_serial_nonneg. }
  split; [|split; [apply generation_name_colon_free; lia|split; [done|rewrite generation_serial_name by lia; done]]].
  destruct (dict_get (generation_name (maxZ 0 l + 1)) (states_by_id st)) as [s|] eqn:Hg; [|done]. exfalso.
  assert (Hin : maxZ 0 l + 1 ∈ l).
  { apply list_elem_of_omap. exists s. rewrite states_of_values by done. pose proof (ok_names _ Hok _ _ Hg) as Hname. split.
    - apply state_in; [done|]. by rewrite Hname.
    - rewrite Hname. apply generation_serial_name. lia. }
  apply (maxZ_ge 0) in Hin. lia.
Qed.

(** ** The operations *)

(** The events the fence writes: identities filled in, and just the data of their record. *)
Definition writable (ev : WorkGenerationRecorded) (content : string) : Prop :=
  wg_event_id ev <> "" /\ wg_generation_id ev <> "" /\ wg_work_id ev <> "" /\ wg_attempt_id ev <> ""
  /\ match wg_record ev with
     | ACQUIRE => wg_disposition ev = None /\ wg_authority ev = None /\ wg_classification ev = None /\ content = ""
     | CLOSE => is_Some (wg_disposition ev) /\ wg_authority ev = None /\ wg_classification ev = None /\ content = ""
     | AUTHORITY => wg_disposition ev = None /\ is_Some (wg_authority ev)
         /\ wg_classification ev = Some CURRENT /\ content = ""
     | LATE_EVENT => wg_disposition ev = None /\ is_Some (wg_authority ev)
         /\ (wg_classification ev = Some CLOSED \/ wg_classification ev = Some SUPERSEDED)
     end.

Section fence.
Context {DG : Digester} {W : Type} `{EventLogOk W} (run : string) (timestamp : W -> string).
Hypothesis events_taken : forall ev content, writable ev content -> log_accepts (generation_event ev) content.

Lemma runs_projection {B} es st (k : GenerationProjection -> Prog W B) Q (E : list CommittedEvent -> Prop) :
  legal es st ->
  (forall p, generations p = states_of st -> active_by_work p = active_now st -> log_runs es (k p) Q E) ->
  log_runs es (projection run ≫= k) Q E.
Proof.
  intros [Hp _] Hk w Hw. unfold projection, mbind, Prog_bind, ask, try, project_events.
  rewrite (log_sound_read w es Hw), Hp. cbn. by apply Hk.
Qed.

(** The receipt adds nothing to the log. *)
Lemma runs_receipt es st : legal es st -> log_runs es (write_fence_receipt run) (fun _ es' => es' = es) (fun es' => es' = es).
Proof.
  intros [Hp _] w Hw. unfold write_fence_receipt, mbind, Prog_bind, ask, try, project_events.
  rewrite (log_sound_read w es Hw), Hp. cbn.
  match goal with |- context [log_receipt ?n ?d w] => pose proof (log_receipt_sound w es n d Hw) as Hr;
    destruct (log_receipt n d w) as [w' [[]|e|]] end; [by exists es|..]; destruct Hr; eauto.
Qed.

(** One more event of the fence. *)
Lemma runs_fence_append es st st' ev content k :
  legal es st -> writable ev content -> colon_free (wg_generation_id ev) ->
  wg_event_id ev = wg_generation_id ev +:+ ":" +:+ tail_of (wg_record ev) k ->
  0 <= k <= count_records (wg_record ev) (wg_generation_id ev) es + 1 ->
  unseen es WORK_GENERATION_RECORDED (wg_event_id ev) ->
  (forall c, entry_of es (generation_event ev) content c -> project_event st c = Ok st') -> well_owned st' ->
  log_runs es (fence_append run ev content)
    (fun c es' => es' = es ++ [c] /\ entry_of es (generation_event ev) content c /\ legal es' st')
    (fun es' => legal es' st \/ legal es' st').
Proof.
  intros Hl Hwr Hcf Hid Hk Hun Hproj Hown.
  assert (Hnext : forall c, entry_of es (generation_event ev) content c -> legal (es ++ [c]) st').
  { intros c Hc. assert (Hwork : is_work_event c = true).
    { apply bool_decide_eq_true. by rewrite (entry_type _ _ _ _ Hc). }
    destruct Hl as (Hp & Hn & _). split; [by rewrite (project_log_snoc es c st Hp Hwork), (Hproj c Hc)|]. split; [|done].
    destruct (entry_payload _ _ _ _ Hc) as (bd & bb & Hpay). cbn in Hpay.
    eapply (named_snoc es c (wg_generation_id ev) (wg_work_id ev) (wg_attempt_id ev) (wg_record ev) k); try done.
    - split; by rewrite Hpay.
    - by rewrite Hpay, <-Hid. }
  unfold fence_append. eapply (log_bind _ _ _ (fun c es' => es' = es ++ [c] /\ entry_of es (generation_event ev) content c)).
  - intros w Hw.
    pose proof (log_append_sound w es (generation_event ev) content (wg_event_id ev) Hw (events_taken _ _ Hwr) eq_refl eq_refl Hun) as Ha.
    destruct (log_append (generation_event ev) content w) as [w' [c|e|]]; [naive_solver|..].
    + destruct Ha as [Ha|[(c & Hc & Ha)|Ha]]; [left; exists es; auto|left; exists (es ++ [c]); auto|by right].
    + destruct Ha as [Ha|[(c & Hc & Ha)|Ha]]; [left; exists es; auto|left; exists (es ++ [c]); auto|by right].
  - intros c es' [-> Hc]. pose proof (Hnext c Hc) as Hl'.
    eapply (log_bind _ _ _ (fun _ es' => es' = es ++ [c])).
    + eapply log_conseq; [by apply (runs_receipt _ st')|done|]. intros es' ->. by right.
    + intros [] es' ->. by apply log_ret.
Qed.

(** Acquiring a fresh generation for free Work and an unused Attempt. *)
Lemma runs_acquire_event es st gid wid aid ts :
  legal es st -> dict_get gid (states_by_id st) = None -> colon_free gid -> gid <> "" -> wid <> "" -> aid <> "" ->
  dict_get wid (active_now st) = None -> attempt_taken aid {| generations := states_of st; active_by_work := active_now st;
    projection_digest := ""; projection_head := "" |} = false ->
  exists st', own_step (ownership st) (ownership st')
    /\ states_by_id st' = states_by_id st ++ [(gid, fresh_state gid wid aid (last_sequence es + 1))]
    /\ log_runs es (fence_append run (acquisition gid wid aid ts) "") (fun _ es' => legal es' st')
         (fun es' => legal es' st \/ legal es' st').
Proof.
  intros Hl Hg Hcf Hne Hw Ha Hfree Htaken. pose proof (legal_ok _ _ Hl) as Hok.
  assert (Hatt : dict_get aid (generation_by_attempt st) = None).
  { destruct (dict_get aid (generation_by_attempt st)) as [g|] eqn:E; [|done]. exfalso.
    destruct (proj1 (ok_attempts _ Hok aid) (ex_intro _ g E)) as (g' & s & Hs & Hsa).
    unfold attempt_taken in Htaken. cbn in Htaken. rewrite states_of_values in Htaken by done.
    apply not_true_iff_false in Htaken. apply Htaken. apply existsb_exists. exists s.
    rewrite <-list_elem_of_In, bool_decide_eq_true. split; [|done].
    apply state_in; [done|]. by rewrite (ok_names _ Hok _ _ Hs). }
  destruct (project_acquire_ok st gid wid aid (last_sequence es + 1) Hok Hg Hfree Hatt) as (st' & Heq & Hok' & Hst & Hstep).
  exists st'. split; [done|]. split; [done|].
  eapply log_conseq; [apply (runs_fence_append es st st' (acquisition gid wid aid ts) "" 0 Hl)|naive_solver|done].
  - split_and!; cbn; try done. by destruct gid.
  - done.
  - done.
  - cbn. unfold count_records, py_len. lia.
  - apply (unseen_by_name es st gid ACQUIRE 0 Hl Hcf); [lia|]. intros c w a Hin Hr Hwk. exfalso.
    destruct Hl as (Hp & _ & _). destruct (project_log_speaks es st c gid w a ACQUIRE Hp Hin Hwk Hr) as (s & Hs & _). congruence.
  - intros c Hc. destruct (entry_payload _ _ _ _ Hc) as (bd & bb & Hpay). cbn in Hpay.
    rewrite (project_event_reads st c gid wid aid ACQUIRE) by (split; by rewrite Hpay).
    by rewrite (entry_sequence _ _ _ _ Hc).
  - intros g s. rewrite Hst. intros Hgs%dict_get_Some_elem. apply elem_of_app in Hgs as [Hgs|Hgs].
    + destruct Hl as (_ & _ & Hown). apply (Hown g s). apply dict_elem_get; [apply Hok|done].
    + apply list_elem_of_singleton in Hgs. injection Hgs as -> ->. done.
Qed.

(** Taking Work: the ledger, and the generation it was taken for. *)
Definition took (es : list CommittedEvent) (st : Projector) (wid aid gid : string) (es' : list CommittedEvent) : Prop :=
  exists st', legal es' st' /\ own_step (ownership st) (ownership st')
    /\ states_by_id st' = states_by_id st ++ [(gid, fresh_state gid wid aid (last_sequence es + 1))].

Lemma runs_acquire_step es st wid aid :
  legal es st ->
  log_runs es (acquire run timestamp wid aid)
    (fun i es' => took es st wid aid (id_generation i) es' /\ id_work i = wid /\ id_attempt i = aid)
    (fun es' => legal es' st \/ exists gid, took es st wid aid gid es').
Proof.
  intros Hl. assert (HE : legal es st \/ exists gid, took es st wid aid gid es) by (by left).
  unfold acquire. apply log_try; [done|]. intros [] Hargs%raise_if_ok. apply orb_false_iff in Hargs as [Hw Ha]. bool_to_prop.
  apply (runs_projection es st); [done|]. intros p Hgen Hact. rewrite Hgen, Hact.
  apply log_try; [done|]. intros [] Hfree%raise_if_ok. apply dict_has_false in Hfree.
  apply log_try; [done|]. intros [] Htaken%raise_if_ok.
  destruct (next_generation_fresh st (legal_ok _ _ Hl)) as (Hg & Hcf & Hne & _). set (gid := next_generation_id _) in *.
  apply log_ask. intros ts.
  destruct (runs_acquire_event es st gid wid aid ts Hl Hg Hcf Hne Hw Ha Hfree) as (st' & Hstep & Hst & Hrun).
  { unfold attempt_taken in *. by rewrite Hgen in Htaken. }
  eapply (log_bind _ _ _ (fun _ es' => legal es' st')).
  - eapply log_conseq; [exact Hrun|done|]. intros es' [?|?]; [by left|]. right. exists gid, st'. done.
  - intros _ es' Hl'. apply log_ret. split; [|done]. by exists st'.
Qed.

Lemma runs_acquire es st wid aid :
  legal es st ->
  log_runs es (acquire run timestamp wid aid)
    (fun i es' => exists st', legal es' st' /\ own_step (ownership st) (ownership st')
       /\ states_by_id st' = states_by_id st ++
            [(id_generation i, fresh_state (id_generation i) wid aid (last_sequence es + 1))]
       /\ id_work i = wid /\ id_attempt i = aid)
    (fun es' => exists st', legal es' st' /\ rtc own_step (ownership st) (ownership st')).
Proof.
  intros Hl. eapply log_conseq; [by apply (runs_acquire_step es st wid aid)| |].
  - intros i es' ((st' & Hl' & Hs & He) & ? & ?). by exists st'.
  - intros es' [?|(gid & st' & Hl' & Hs & _)]; [by exists st|]. exists st'. split; [done|]. by apply rtc_once.
Qed.

(** The state an operation looks up. *)
Lemma state_for_spec st p gid s :
  projector_ok st -> generations p = states_of st ->
  state_for p gid = Ok s -> dict_get gid (states_by_id st) = Some s.
Proof.
  intros Hok Hgen Hs. unfold state_for in Hs. destruct (py_next _ _) as [s'|] eqn:E; [|done]. injection Hs as ->.
  apply py_next_Some in E as [Hin Hb]. bool_to_prop. rewrite Hgen, states_of_values in Hin by done.
  apply state_in in Hin; [|done]. by rewrite Hb in Hin.
Qed.

Lemma state_for_unknown st p gid :
  projector_ok st -> generations p = states_of st ->
  dict_get gid (states_by_id st) = None -> state_for p gid = Err (UnknownGeneration gid).
Proof.
  intros Hok Hgen Hg. unfold state_for. destruct (py_next _ _) as [s'|] eqn:E; [|done]. exfalso.
  apply py_next_Some in E as [Hin Hb]. bool_to_prop. rewrite Hgen, states_of_values in Hin by done.
  apply state_in in Hin; [|done]. congruence.
Qed.

(** The outcome of an operation that may have moved the ledger. *)
Definition moved (st : Projector) (es' : list CommittedEvent) : Prop :=
  exists st', legal es' st' /\ rtc own_step (ownership st) (ownership st').

Definition ended (d : GenerationDisposition) (gid : string) (st st' : Projector) : Prop :=
  (exists s, dict_get gid (states_by_id st') = Some s /\ disposition s = Some d)
  /\ (forall g, g <> gid -> dict_get g (states_by_id st') = dict_get g (states_by_id st)).

(** Giving Work up: the state of the generation, and what became of the ledger. *)
Definition gave (st : Projector) (d : GenerationDisposition) (gid : string) (es' : list CommittedEvent) : Prop :=
  exists st' s, legal es' st' /\ dict_get gid (states_by_id st) = Some s
    /\ (disposition s = Some d /\ st' = st
        \/ disposition s = None
           /\ exists n, states_by_id st' = dict_set gid (closed_state s d n) (states_by_id st) /\ own_step (ownership st) (ownership st')).

Lemma runs_close_step es st gid d :
  legal es st ->
  log_runs es (close run timestamp gid d)
    (fun _ es' => gave st d gid es')
    (fun es' => legal es' st \/ gave st d gid es').
Proof.
  intros Hl. pose proof (legal_ok _ _ Hl) as Hok. assert (HE : legal es st \/ gave st d gid es) by (by left).
  unfold close. apply (runs_projection es st); [done|]. intros p Hgen Hact.
  apply log_try; [done|]. intros s Hs%(state_for_spec st); [|done..].
  destruct (active s) eqn:Ea; cbn [negb].
  2:{ case_bool_decide as Ed; [|by apply log_fail]. apply log_ret. exists st, s. auto. }
  apply active_spec in Ea. apply log_ask. intros ts.
  destruct (project_close_ok st gid s d (last_sequence es + 1) Hok Hs Ea) as (st' & Heq & Hok' & Hg' & Hother & Hstep).
  assert (Hst : states_by_id st' = dict_set gid (closed_state s d (last_sequence es + 1)) (states_by_id st)).
  { unfold project_close in Heq. inv_ok. rewrite disposition_of_value in *. by simplify_eq/=. }
  assert (Hgave : forall es', legal es' st' -> gave st d gid es').
  { intros es' Hl'. exists st', s. split; [done|]. split; [done|]. right. split; [done|]. by exists (last_sequence es + 1). }
  destruct (proj2 (proj2 Hl) gid s Hs) as (Hcf & Hne & Hw & Ha). pose proof (ok_names _ Hok _ _ Hs) as Hname.
  eapply (log_bind _ _ _ (fun _ es' => legal es' st')).
  - eapply log_conseq; [apply (runs_fence_append es st st' (closing s gid d ts) "" 0 Hl)|naive_solver|].
    + split_and!; cbn; try done. by destruct gid.
    + done.
    + done.
    + cbn. unfold count_records, py_len. lia.
    + apply (unseen_by_name es st gid CLOSE 0 Hl Hcf); [lia|]. intros c w a Hin Hr Hwk. exfalso.
      destruct Hl as (Hp & _ & _). destruct (project_log_speaks es st c gid w a CLOSE Hp Hin Hwk Hr) as (s' & Hs' & Hc).
      rewrite Hs in Hs'. injection Hs' as <-. by apply Hc.
    + intros c Hc. destruct (entry_payload _ _ _ _ Hc) as (bd & bb & Hpay). cbn in Hpay.
      rewrite (project_event_reads st c gid (work_id s) (attempt_id s) CLOSE) by (split; by rewrite Hpay).
      rewrite Hs. cbn [mbind result_bind]. rewrite !bool_decide_true by done. cbn [negb orb raise_if mbind result_bind].
      rewrite (proj2 (text_of_ok "disposition" (payload c) (disposition_value d))) by (by rewrite Hpay).
      cbn [mbind result_bind]. by rewrite (entry_sequence _ _ _ _ Hc).
    + intros g s' Hg. destruct (decide (g = gid)) as [->|Hne']; [rewrite Hg' in Hg; injection Hg as <-; done|].
      rewrite Hother in Hg by done. by apply (proj2 (proj2 Hl)).
    + intros es' [?|?]; [by left|]. right. by apply Hgave.
  - intros _ es' Hl'. apply log_ret. by apply Hgave.
Qed.

Lemma runs_close es st gid d :
  legal es st ->
  log_runs es (close run timestamp gid d)
    (fun _ es' => exists st', legal es' st' /\ rtc own_step (ownership st) (ownership st') /\ ended d gid st st'
       /\ (states_by_id st').*1 = (states_by_id st).*1)
    (moved st).
Proof.
  intros Hl. eapply log_conseq; [by apply (runs_close_step es st gid d)| |].
  - intros _ es' (st' & s & Hl' & Hs & [[Hd ->]|(Hd & n & Hst & Hstep)]); exists st' || exists st; (split; [done|]).
    + split; [done|]. split; [|done]. split; [by exists s|done].
    + split; [by apply rtc_once|]. unfold ended. rewrite Hst. split; [split|].
      * exists (closed_state s d n). split; [apply dict_get_set_eq|done].
      * intros g Hne. by apply dict_get_set_ne.
      * rewrite dict_set_keys, bool_decide_true; [done|]. apply list_elem_of_fmap. exists (gid, s). split; [done|].
        by apply dict_get_Some_elem.
  - intros es' [?|(st' & s & Hl' & Hs & [[Hd ->]|(Hd & n & Hst & Hstep)])]; [by exists st..|].
    exists st'. split; [done|]. by apply rtc_once.
Qed.

(** Speaking for a generation moves nothing. *)
Lemma runs_speak es st gid s r a cls ts content :
  legal es st -> dict_get gid (states_by_id st) = Some s ->
  (r = AUTHORITY /\ active s = true /\ cls = CURRENT /\ content = ""
   \/ r = LATE_EVENT /\ active s = false /\ cls = late_classification (disposition s)) ->
  log_runs es (fence_append run (speaking (gid +:+ ":" +:+ tail_of r (count_records r gid es + 1)) s gid r a cls ts) content)
    (fun c es' => es' = es ++ [c] /\ sequence c = last_sequence es + 1 /\ reads c gid (work_id s) (attempt_id s) r
       /\ dict_get "classification" (payload c) = Some (JStr (classification_value cls)) /\ legal es' st)
    (fun es' => legal es' st).
Proof.
  intros Hl Hs Hr. pose proof (legal_ok _ _ Hl) as Hok. set (k := count_records r gid es + 1).
  destruct (proj2 (proj2 Hl) gid s Hs) as (Hcf & Hne & Hw & Ha). pose proof (ok_names _ Hok _ _ Hs) as Hname.
  assert (Hk : 0 <= count_records r gid es) by (unfold count_records, py_len; lia).
  eapply log_conseq; [apply (runs_fence_append es st st (speaking (gid +:+ ":" +:+ tail_of r k) s gid r a cls ts) content k Hl)| |naive_solver].
  - split_and!; cbn; try done; [by destruct gid|].
    destruct Hr as [(-> & _ & -> & ->)|(-> & _ & ->)]; split_and!; eauto.
    unfold late_classification. case_bool_decide; auto.
  - done.
  - done.
  - cbn. unfold k. lia.
  - apply (unseen_by_name es st gid r k Hl Hcf); [unfold k; lia|]. intros c w a' Hin Hrd Hwk.
    split; [destruct Hr as [(-> & _)|(-> & _)]; auto|unfold k; lia].
  - intros c Hc. destruct (entry_payload _ _ _ _ Hc) as (bd & bb & Hpay). cbn in Hpay.
    rewrite (project_event_reads st c gid (work_id s) (attempt_id s) r) by (split; by rewrite Hpay).
    assert (Hcls : text_of "classification" (payload c) = Ok (classification_value cls)).
    { apply text_of_ok. by rewrite Hpay. }
    destruct Hr as [(-> & Hact & -> & _)|(-> & Hact & ->)]; rewrite Hs; cbn [mbind result_bind];
      rewrite !bool_decide_true by done; cbn [negb orb raise_if mbind result_bind]; rewrite Hact;
      cbn [raise_if raise_unless mbind result_bind]; rewrite Hcls; cbn [mbind result_bind];
      by rewrite bool_decide_true.
  - apply Hl.
  - intros c es' (-> & Hc & Hl'). destruct (entry_payload _ _ _ _ Hc) as (bd & bb & Hpay). cbn in Hpay.
    split; [done|]. split; [apply (entry_sequence _ _ _ _ Hc)|]. split; [split; by rewrite Hpay|].
    split; [by rewrite Hpay|done].
Qed.

Lemma runs_authorize es st gid a evidence :
  legal es st ->
  log_runs es (authorize_ run timestamp gid a evidence)
    (fun r es' => legal es' st /\ exists s, dict_get gid (states_by_id st) = Some s
       /\ if active s
          then r.1 = {| accepted := true; classification := CURRENT |}
               /\ exists c, es' = es ++ [c] /\ reads c gid (work_id s) (attempt_id s) AUTHORITY /\ r.2 = Some {| grant_event_id := gid +:+ ":authority-" +:+ pad6 (count_records AUTHORITY gid es + 1);
                    grant_sequence := sequence c; grant_run_id := run; grant_generation := gid; grant_work := work_id s;
                    grant_attempt := attempt_id s; grant_authority := a |}
          else r = ({| accepted := false; classification := late_classification (disposition s) |}, None)
               /\ exists c, es' = es ++ [c] /\ reads c gid (work_id s) (attempt_id s) LATE_EVENT
                    /\ dict_get "classification" (payload c)
                       = Some (JStr (classification_value (late_classification (disposition s)))))
    (fun es' => legal es' st).
Proof.
  intros Hl. pose proof (legal_ok _ _ Hl) as Hok. unfold authorize_. apply (runs_projection es st); [done|]. intros p Hgen Hact.
  apply log_try; [done|]. intros s Hs%(state_for_spec st); [|done..]. pose proof (ok_names _ Hok _ _ Hs) as Hname.
  destruct (active s) eqn:Ea.
  - unfold next_authority_event_id. eapply (log_bind _ _ _ (fun eid es' => es' = es
      /\ eid = gid +:+ ":" +:+ tail_of AUTHORITY (count_records AUTHORITY gid es + 1))).
    { apply log_reading. apply log_try; [done|]. intros es' [= <-]. by apply log_ret. }
    intros eid es' [-> ->]. apply log_ask. intros ts.
    eapply log_bind; [apply (runs_speak es st gid s AUTHORITY a CURRENT ts ""); [done|done|by left]|].
    intros c es' (-> & Hseq & Hrd & _ & Hl'). apply log_ret. split; [done|]. exists s. split; [done|]. rewrite Ea. cbn.
    split; [done|]. exists c. rewrite Hname. done.
  - unfold next_late_event_id. eapply (log_bind _ _ _ (fun eid es' => es' = es
      /\ eid = gid +:+ ":" +:+ tail_of LATE_EVENT (count_records LATE_EVENT gid es + 1))).
    { apply log_reading. apply log_try; [done|]. intros es' [= <-]. by apply log_ret. }
    intros eid es' [-> ->]. apply log_ask. intros ts.
    eapply log_bind; [apply (runs_speak es st gid s LATE_EVENT a _ ts evidence); [done|done|by right]|].
    intros c es' (-> & Hseq & Hrd & Hcls & Hl'). apply log_ret. split; [done|]. exists s. rewrite Ea.
    split; [done|]. split; [done|]. by exists c.
Qed.

Lemma runs_acquire_exact es st gid wid aid :
  legal es st ->
  log_runs es (acquire_exact run timestamp gid wid aid) (fun _ => moved st) (moved st).
Proof.
  intros Hl. assert (HE : moved st es) by (by exists st). unfold acquire_exact.
  apply log_try; [done|]. intros [] Hargs%raise_if_ok. apply orb_false_iff in Hargs as [Hargs _].
  apply orb_false_iff in Hargs as [Hw Ha]. bool_to_prop.
  apply (runs_projection es st); [done|]. intros p Hgen Hact.
  destruct (py_next _ _) as [s|]; [destruct (_ && _); [by apply log_ret|by apply log_fail]|].
  apply log_try; [done|]. intros [] Hnext%raise_unless_ok. bool_to_prop. rewrite Hgen in Hnext. rewrite Hact.
  apply log_try; [done|]. intros [] Hfree%raise_if_ok. apply dict_has_false in Hfree.
  apply log_try; [done|]. intros [] Htaken%raise_if_ok.
  destruct (next_generation_fresh st (legal_ok _ _ Hl)) as (Hg & Hcf & Hne & _). rewrite <-Hnext in Hg, Hcf, Hne.
  apply log_ask. intros ts.
  destruct (runs_acquire_event es st gid wid aid ts Hl Hg Hcf Hne Hw Ha Hfree) as (st' & Hstep & _ & Hrun).
  { unfold attempt_taken in *. by rewrite Hgen in Htaken. }
  assert (HQ : forall es', legal es' st' -> moved st es') by (intros es' Hl'; exists st'; split; [done|by apply rtc_once]).
  eapply (log_bind _ _ _ (fun _ es' => legal es' st')); [eapply log_conseq; [exact Hrun|done|]|].
  - intros es' [?|?]; [by exists st|by apply HQ].
  - intros _ es' Hl'. apply log_ret. by apply HQ.
Qed.

Lemma moved_trans st st1 es' : rtc own_step (ownership st) (ownership st1) -> moved st1 es' -> moved st es'.
Proof. intros H1 (st2 & Hl & H2). exists st2. split; [done|]. by etrans. Qed.

Lemma runs_replace es st wid aid :
  legal es st -> log_runs es (replace run timestamp wid aid) (fun _ => moved st) (moved st).
Proof.
  intros Hl. unfold replace. apply (runs_projection es st); [done|]. intros p Hgen Hact. rewrite Hact.
  eapply (log_bind _ _ _ (fun _ => moved st)).
  - destruct (dict_get wid (active_now st)) as [s|]; [|apply log_ret; by exists st].
    eapply log_conseq; [by apply (runs_close es st)| |done]. intros _ es' (st' & Hl' & Hs & _). by exists st'.
  - intros _ es' (st1 & Hl1 & Hs1). eapply log_conseq; [by apply (runs_acquire es' st1)| |].
    + intros i es2 (st2 & Hl2 & Hs2 & _). exists st2. split; [done|]. etrans; [exact Hs1|by apply rtc_once].
    + intros es2 Hm. by eapply moved_trans.
Qed.

Lemma runs_close_all gids : forall es st,
  legal es st ->
  log_runs es (close_all run timestamp gids)
    (fun _ es' => exists st', legal es' st' /\ rtc own_step (ownership st) (ownership st')
       /\ (forall g, g ∈ gids -> exists s, dict_get g (states_by_id st') = Some s /\ disposition s = Some INTERRUPT)
       /\ (forall g, g ∉ gids -> dict_get g (states_by_id st') = dict_get g (states_by_id st)))
    (moved st).
Proof.
  induction gids as [|gid gids IH]; intros es st Hl; cbn [close_all].
  { apply log_ret. exists st. split; [done|]. split; [done|]. split; [set_solver|done]. }
  eapply log_bind; [by apply (runs_close es st gid INTERRUPT)|].
  intros _ es1 (st1 & Hl1 & Hs1 & [Hend Hother] & _).
  eapply log_conseq; [by apply (IH es1 st1)| |intros es2 Hm; by eapply moved_trans].
  intros _ es2 (st2 & Hl2 & Hs2 & Hin & Hout). exists st2. split; [done|]. split; [by etrans|]. split.
  - intros g Hg. destruct (decide (g ∈ gids)) as [|Hn]; [by apply Hin|].
    assert (g = gid) as -> by set_solver. by rewrite Hout.
  - intros g Hg. rewrite Hout by set_solver. apply Hother. set_solver.
Qed.

Lemma runs_restart es st :
  legal es st ->
  log_runs es (reconcile_restart run timestamp)
    (fun gids es' => gids = generation_id <$> List.filter active (states_of st)
       /\ exists st', legal es' st' /\ rtc own_step (ownership st) (ownership st')
       /\ (forall g s, dict_get g (states_by_id st) = Some s ->
             exists s', dict_get g (states_by_id st') = Some s'
               /\ disposition s' = if active s then Some INTERRUPT else disposition s)
       /\ active_now st' = [])
    (moved st).
Proof.
  intros Hl. pose proof (legal_ok _ _ Hl) as Hok. unfold reconcile_restart.
  apply (runs_projection es st); [done|]. intros p Hgen Hact. rewrite Hgen.
  set (gids := generation_id <$> List.filter active (states_of st)).
  assert (Hmem : forall g s, dict_get g (states_by_id st) = Some s -> g ∈ gids <-> active s = true).
  { intros g s Hg. pose proof (ok_names _ Hok _ _ Hg) as Hname. unfold gids. rewrite states_of_values by done. split.
    - intros (s' & -> & Hin)%list_elem_of_fmap. apply list_elem_of_In, filter_In in Hin as [Hin Ha].
      apply list_elem_of_In, state_in in Hin; [|done]. congruence.
    - intros Ha. apply list_elem_of_fmap. exists s. split; [done|]. apply list_elem_of_In, filter_In.
      split; [|done]. apply list_elem_of_In, state_in; [done|]. by rewrite Hname. }
  eapply log_bind; [by apply (runs_close_all gids es st)|].
  intros _ es' (st' & Hl' & Hs & Hin & Hout). apply log_ret. split; [done|]. exists st'. split; [done|]. split; [done|].
  assert (Hall : forall g s, dict_get g (states_by_id st) = Some s ->
    exists s', dict_get g (states_by_id st') = Some s' /\ disposition s' = if active s then Some INTERRUPT else disposition s).
  { intros g s Hg. destruct (active s) eqn:Ea; [apply Hin; by apply (Hmem g s)|].
    exists s. split; [|done]. rewrite Hout; [done|]. rewrite (Hmem g s Hg). congruence. }
  split; [done|]. pose proof (legal_ok _ _ Hl') as Hok'. destruct (active_now st') as [|[w s] l] eqn:Eact; [done|]. exfalso.
  assert (Hws : dict_get w (active_now st') = Some s) by (rewrite Eact, dict_get_cons, bool_decide_true; done).
  apply (ok_active _ Hok') in Hws as (Hg & Hd & _). destruct (decide (generation_id s ∈ gids)) as [Hm|Hm].
  - destruct (Hin _ Hm) as (s' & Hg' & Hd'). congruence.
  - rewrite Hout in Hg by done. apply Hm. apply (Hmem _ s Hg). by apply active_spec.
Qed.

(** ** What the fence promises *)

Inductive fence_op : Type :=
  | Acquire (wid aid : string)
  | AcquireExact (gid wid aid : string)
  | Replace (wid aid : string)
  | Close (gid : string) (d : GenerationDisposition)
  | Authorize (gid : string) (a : GenerationAuthority) (evidence : string)
  | Restart.

Definition fence_do (op : fence_op) : Prog W unit :=
  match op with
  | Acquire wid aid => acquire run timestamp wid aid;; mret tt
  | AcquireExact gid wid aid => acquire_exact run timestamp gid wid aid;; mret tt
  | Replace wid aid => replace run timestamp wid aid;; mret tt
  | Close gid d => close run timestamp gid d
  | Authorize gid a evidence => authorize run timestamp gid a evidence;; mret tt
  | Restart => reconcile_restart run timestamp;; mret tt
  end.

Lemma fence_do_moves es st op : legal es st -> log_runs es (fence_do op) (fun _ => moved st) (moved st).
Proof.
  intros Hl. destruct op; cbn [fence_do].
  - eapply log_drop; [by apply (runs_acquire es st)|]. intros i es' (st' & Hl' & Hs & _). exists st'. split; [done|]. by apply rtc_once.
  - eapply log_drop; [by apply (runs_acquire_exact es st)|]. done.
  - eapply log_drop; [by apply (runs_replace es st)|]. done.
  - eapply log_conseq; [by apply (runs_close es st)| |done]. intros _ es' (st' & Hl' & Hs & _). by exists st'.
  - unfold authorize. eapply (log_bind _ _ _ (fun _ => moved st)); [|intros _ es' Hm; by apply log_ret].
    eapply log_bind; [eapply log_conseq; [by apply (runs_authorize es st)|intros ? ? HQ; exact HQ|]|].
    + intros es' Hl'. by exists st.
    + intros r es' [Hl' _]. apply log_ret. by exists st.
  - eapply log_drop; [by apply (runs_restart es st)|]. intros g es' (_ & st' & Hl' & Hs & _). by exists st'.
Qed.
End fence.
