(* ===== verification/WorkGenerationTheorems.v ===== *)
(** What the Work generation fence promises over any sound event log. *)

From S2P Require Import Prelude Canon Text PyJson EventStore EventContracts EventLog WorkGeneration WorkGenerationLogic WorkGenerationFacts.
Local Open Scope Z_scope.

(** ** The projection *)

Lemma ownership_generation st : own_generation <$> ownership st = generation_id <$> (states_by_id st).*2.
Proof. unfold ownership. by rewrite <-list_fmap_compose. Qed.

Lemma ownership_attempt st : own_attempt <$> ownership st = attempt_id <$> (states_by_id st).*2.
Proof. unfold ownership. by rewrite <-list_fmap_compose. Qed.

(** In every log that projects, generations and Attempts own once, a Work has at most one
    active generation, and [active_by_work] lists exactly the active ones. *)
Theorem generations_exclusive `{Digester} es run p :
  project_events es run = Ok p ->
  NoDup (generation_id <$> generations p) /\ NoDup (attempt_id <$> generations p)
  /\ (forall s1 s2, s1 ∈ generations p -> s2 ∈ generations p -> active s1 = true -> active s2 = true ->
        work_id s1 = work_id s2 -> s1 = s2)
  /\ (forall w s, dict_get w (active_by_work p) = Some s
        <-> s ∈ generations p /\ active s = true /\ work_id s = w).
Proof.
  intros Hp. unfold project_events in Hp. apply bind_ok in Hp as (st & Hst & [= <-]). cbn [generations active_by_work].
  destruct (project_log_ok _ _ Hst) as (Hok & _ & Hg & Ha & _). rewrite (states_of_values st Hok).
  rewrite ownership_generation in Hg. rewrite ownership_attempt in Ha.
  assert (Hact : forall w s, dict_get w (active_now st) = Some s
    <-> s ∈ (states_by_id st).*2 /\ active s = true /\ work_id s = w).
  { intros w s. by rewrite (ok_active _ Hok), (state_in st s Hok), active_spec. }
  split_and!; try done. intros s1 s2 H1 H2 A1 A2 Hw.
  assert (E1 : dict_get (work_id s1) (active_now st) = Some s1) by (by apply Hact).
  assert (E2 : dict_get (work_id s1) (active_now st) = Some s2) by (by apply Hact). congruence.
Qed.

(** Events of other components do not move the generations. *)
Lemma legal_others es others st :
  legal es st -> Forall (fun c => is_work_event c = false) others -> legal (es ++ others) st.
Proof.
  revert es. induction others as [|c others IH]; intros es Hl Ho; [by rewrite app_nil_r|].
  apply Forall_cons in Ho as [Hc Ho]. change (c :: others) with ([c] ++ others). rewrite app_assoc. apply IH; [|done].
  destruct Hl as (Hp & Hn & Hw). split; [|split; [|done]].
  - unfold project_log, work_events in *. rewrite List.filter_app. cbn. by rewrite Hc, app_nil_r.
  - intros e [He|He%list_elem_of_singleton]%elem_of_app Hwork; [|congruence].
    destruct (Hn e He Hwork) as (g & w & a & r & k & H1 & H2 & H3 & H4). exists g, w, a, r, k.
    split_and!; try done; [lia|]. rewrite count_records_snoc, Hc. cbn. lia.
Qed.

Section theorems.
Context {DG : Digester} {W : Type} `{EventLogOk W} (run : string) (timestamp : W -> string).
Hypothesis events_taken : forall ev content, writable ev content -> log_accepts (generation_event ev) content.

(** ** Refinement *)

(** A history of the fence among the other components of the Run. *)
Definition fence_history : W -> W -> Prop := log_history (fence_do run timestamp) is_work_event.

Lemma fence_history_moves w w' es st :
  log_sound w es -> legal es st -> fence_history w w' ->
  exists es' st', log_sound w' es' /\ legal es' st'
    /\ rtc own_step (ownership st) (ownership st') /\ exclusive (ownership st').
Proof using events_taken.
  intros Hw Hl Hh.
  destruct (log_history_keeps (fence_do run timestamp) is_work_event (moved st) w w' es) as (es' & Hw' & st' & Hl' & Hs).
  - intros es1 op (st1 & Hl1 & Hs1).
    eapply log_conseq; [by apply (fence_do_moves run timestamp events_taken es1 st1 op)| |]; intros; by eapply moved_trans.
  - intros es1 others (st1 & Hl1 & Hs1) Ho. exists st1. split; [by apply legal_others|done].
  - done.
  - by exists st.
  - done.
  - exists es', st'. split_and!; try done. by destruct (project_log_ok es' st' (proj1 Hl')) as (_ & _ & ?).
Qed.

(** C10. The fence refines the ownership ledger: along every history - operations that return,
    that raise, that lose power between any two writes, restarts, and other components'
    events in between - the log keeps projecting, and its ownership moves only by taking Work
    that nobody owns for an Attempt that never owned any, or by giving it up, so that
    ownership stays exclusive throughout. *)
Theorem fence_refines w w' es st :
  log_sound w es -> legal es st -> fence_history w w' ->
  exists es' st', log_sound w' es' /\ legal es' st'
    /\ rtc own_step (ownership st) (ownership st') /\ exclusive (ownership st').
Proof using events_taken. apply fence_history_moves. Qed.

(** ** Acquiring *)

Lemma bind_done_prog {A B} (m : Prog W A) (k : A -> Prog W B) w w' a : m w = (w', Done a) -> (m ≫= k) w = k a w'.
Proof. unfold mbind, Prog_bind. by intros ->. Qed.

Lemma projection_done es st w :
  log_sound w es -> legal es st -> exists p, projection run w = (w, Done p)
    /\ generations p = (states_by_id st).*2 /\ active_by_work p = active_now st.
Proof.
  intros Hw Hl. pose proof (legal_ok _ _ Hl) as Hok. destruct Hl as [Hp _].
  unfold projection, mbind, Prog_bind, ask, try, project_events.
  rewrite (log_sound_read w es Hw), Hp. cbn. eexists. split; [done|]. by rewrite <-states_of_values.
Qed.

(** Work somebody owns, or an Attempt that has owned before. *)
Definition contested (st : Projector) (wid aid : string) : Prop :=
  exists s, s ∈ (states_by_id st).*2 /\ (active s = true /\ work_id s = wid \/ attempt_id s = aid).

Lemma contested_spec st wid aid p :
  projector_ok st -> generations p = (states_by_id st).*2 -> active_by_work p = active_now st ->
  contested st wid aid <-> dict_has wid (active_by_work p) || attempt_taken aid p = true.
Proof.
  intros Hok Hg Ha. rewrite orb_true_iff. unfold dict_has, attempt_taken, py_any. rewrite bool_decide_eq_true, existsb_exists, Hg, Ha.
  split.
  - intros (s & Hs & [(Hact%active_spec & Hw)|Haid]).
    + left. exists s. apply (ok_active _ Hok). by rewrite <-state_in.
    + right. exists s. rewrite <-list_elem_of_In. split; [done|]. by apply bool_decide_eq_true.
  - intros [[s Hs]|(s & Hs & Haid)].
    + apply (ok_active _ Hok) in Hs as (Hs & Hd & Hw). exists s. rewrite (state_in st s Hok). split; [done|]. left.
      by rewrite active_spec.
    + exists s. rewrite list_elem_of_In. split; [done|]. right. by apply bool_decide_eq_true in Haid.
Qed.

(** Acquiring is exclusive: without a Work or an Attempt it is refused; Work that is owned, or
    an Attempt that has owned before, is a conflict and nothing is written; otherwise what
    the fence returns is a generation never seen before, now the one active owner of the
    Work, and every other generation is as it was. *)
Theorem acquire_exclusive w es st wid aid :
  log_sound w es -> legal es st ->
  (wid = "" \/ aid = "" ->
     acquire run timestamp wid aid w = (w, Raised (ValueError "work_id and attempt_id are required")))
  /\ (wid <> "" -> aid <> "" -> contested st wid aid ->
     exists why, acquire run timestamp wid aid w = (w, Raised (GenerationConflict why)))
  /\ (forall w' i, acquire run timestamp wid aid w = (w', Done i) ->
     id_work i = wid /\ id_attempt i = aid /\ ~ contested st wid aid
     /\ dict_get (id_generation i) (states_by_id st) = None
     /\ exists es' st', log_sound w' es' /\ legal es' st'
        /\ states_by_id st' = states_by_id st ++ [(id_generation i, fresh_state (id_generation i) wid aid (last_sequence es + 1))]).
Proof using events_taken.
  intros Hw Hl. pose proof (legal_ok _ _ Hl) as Hok.
  destruct (projection_done es st w Hw Hl) as (p & Hp & Hg & Ha).
  assert (Hconf : wid <> "" -> aid <> "" -> contested st wid aid ->
     exists why, acquire run timestamp wid aid w = (w, Raised (GenerationConflict why))).
  { intros Hwid Haid Hc%(contested_spec st wid aid p Hok Hg Ha). unfold acquire.
    rewrite !bool_decide_false by done. cbn [orb raise_if try]. rewrite (bind_done_prog _ _ w w tt) by done.
    rewrite (bind_done_prog _ _ _ _ _ Hp). unfold mbind, Prog_bind, try.
    destruct (dict_has wid (active_by_work p)); cbn [raise_if]; [by eexists|].
    cbn [orb] in Hc. rewrite Hc. by eexists. }
  split; [|split; [done|]].
  - intros Hempty. unfold acquire, mbind, Prog_bind, try.
    assert (bool_decide (wid = "") || bool_decide (aid = "") = true) as ->; [|done].
    apply orb_true_iff. rewrite !bool_decide_eq_true. done.
  - intros w' i Hacq. pose proof (runs_acquire run timestamp events_taken es st wid aid Hl w Hw) as Hr.
    rewrite Hacq in Hr. destruct Hr as (es' & Hw' & st' & Hl' & Hstep & Hst & -> & ->).
    split; [done|]. split; [done|]. split; [|split].
    + intros Hc. destruct (decide (wid = "")) as [E|Hwid]; [|destruct (decide (aid = "")) as [E|Haid]].
      * unfold acquire, mbind, Prog_bind, try in Hacq. by rewrite (bool_decide_true (wid = "")) in Hacq.
      * unfold acquire, mbind, Prog_bind, try in Hacq. by rewrite (bool_decide_true (aid = "")), orb_true_r in Hacq.
      * destruct (Hconf Hwid Haid Hc) as [why Heq]. congruence.
    + pose proof (ok_keys _ (legal_ok _ _ Hl')) as Hnd. rewrite Hst, fmap_app in Hnd.
      apply NoDup_app in Hnd as (_ & Hnd & _).
      destruct (dict_get (id_generation i) (states_by_id st)) as [s|] eqn:E; [|done]. exfalso.
      apply (Hnd (id_generation i)); [|by left]. apply list_elem_of_fmap. exists (id_generation i, s).
      split; [done|]. by apply dict_get_Some_elem.
    + by exists es', st'.
Qed.

(** ** Late output *)

(** C11. Output of a generation takes effect only while the generation is active.  Under an active
    one the caller's write runs with a grant that names this generation, its Work and its
    Attempt, after the reservation of that grant is in the log; under a closed one the write
    never runs - the outcome does not depend on it - the decision is a refusal classified by
    how the generation ended, and the late output is kept as an event of the log. *)
Theorem late_output_fenced {T} w es st gid s a (commit_ : AuthorityGrant -> Prog W T) evidence :
  log_sound w es -> legal es st -> dict_get gid (states_by_id st) = Some s ->
  if active s
  then forall w' d t, authorize_and_commit run timestamp gid a commit_ evidence w = (w', Done (d, t)) ->
    accepted d = true /\ exists w1 c grant, log_sound w1 (es ++ [c])
      /\ reads c gid (work_id s) (attempt_id s) AUTHORITY
      /\ (grant_generation grant, grant_work grant, grant_attempt grant) = (gid, work_id s, attempt_id s)
      /\ grant_authority grant = a /\ grant_sequence grant = sequence c
      /\ exists r, commit_ grant w1 = (w', Done r) /\ t = Some r
  else (forall commit2, authorize_and_commit run timestamp gid a commit2 evidence w
          = authorize_and_commit run timestamp gid a commit_ evidence w)
    /\ forall w' d t, authorize_and_commit run timestamp gid a commit_ evidence w = (w', Done (d, t)) ->
       d = {| accepted := false; classification := late_classification (disposition s) |} /\ t = None
       /\ exists c, log_sound w' (es ++ [c]) /\ reads c gid (work_id s) (attempt_id s) LATE_EVENT.
Proof using events_taken.
  intros Hw Hl Hs. pose proof (runs_authorize run timestamp events_taken es st gid a evidence Hl w Hw) as Hr.
  unfold authorize_and_commit, mbind, Prog_bind.
  destruct (authorize_ run timestamp gid a evidence w) as [w1 [[d0 g]|x|]] eqn:E; [|by destruct (active s)..].
  destruct Hr as (es1 & Hw1 & _ & s' & Hs' & Hcase). rewrite Hs in Hs'. injection Hs' as <-.
  destruct (active s) eqn:Ea; cbn [fst snd] in *.
  - destruct Hcase as (-> & c & -> & Hrd & ->). intros w' d t. cbn.
    destruct (commit_ _ w1) as [w2 [r|x|]] eqn:Ec; [|done..]. intros [= <- <- <-]. split; [done|].
    eexists w1, c, _. do 2 (split; [done|]).
    refine (conj _ (conj _ (conj _ (ex_intro _ r (conj Ec eq_refl))))); done.
  - destruct Hcase as ([= -> ->] & c & -> & Hrd & _). cbn. split; [done|]. intros w' d t [= <- <- <-].
    split_and!; try done. by exists c.
Qed.

(** ** Restart *)

(** A restart fences everything that was running: when it returns it has closed, as
    interrupted, just the generations that were active, left every other one as it was, and
    no Work is owned. *)
Theorem restart_fences w es st w' gids :
  log_sound w es -> legal es st -> reconcile_restart run timestamp w = (w', Done gids) ->
  gids = generation_id <$> List.filter active (states_of st)
  /\ exists es' st', log_sound w' es' /\ legal es' st' /\ active_now st' = []
     /\ forall g s, dict_get g (states_by_id st) = Some s ->
          exists s', dict_get g (states_by_id st') = Some s'
            /\ disposition s' = if active s then Some INTERRUPT else disposition s.
Proof using events_taken.
  intros Hw Hl Hrun. pose proof (runs_restart run timestamp events_taken es st Hl w Hw) as Hr. rewrite Hrun in Hr.
  destruct Hr as (es' & Hw' & -> & st' & Hl' & _ & Hall & Hact). split; [done|]. by exists es', st'.
Qed.
End theorems.
