(* ===== verification/FenceStore.v ===== *)
(** The fence over the canonical event store: the generation contract takes the events the
    fence writes, so what the fence promises over any sound log it promises over the store. *)

From Stdlib Require Import Ascii.
From S2P Require Import Prelude Canon Text Redaction RedactionFacts PyJson EventStore EventStoreLogic EventStoreFacts EventContracts ContractFacts EventLog StoreLog WorkGeneration WorkGenerationLogic WorkGenerationFacts WorkGenerationTheorems.
Local Open Scope Z_scope.

(** ** A redactor without secrets *)

Lemma text_chars s : text (chars s) = s.
Proof. apply String.string_of_list_ascii_of_string. Qed.

Lemma redact_nothing s : redact [] s = s.
Proof. apply text_chars. Qed.

Lemma redact_json_nothing : forall j, redact_json [] j = j.
Proof.
  fix IH 1. intros [| | |s|l|fs]; cbn; try done.
  - f_equal. apply redact_nothing.
  - f_equal. induction l as [|x l IHl]; cbn; [done|]. by rewrite IH, IHl.
  - f_equal. induction fs as [|[k x] fs IHl]; cbn; [done|]. by rewrite IH, IHl.
Qed.

Lemma redact_fields_nothing p : redact_fields [] p = p.
Proof.
  induction p as [|[k v] p IH]; [done|].
  change ((k, redact_json [] v) :: redact_fields [] p = (k, v) :: p). by rewrite redact_json_nothing, IH.
Qed.

(** What the contracts ask of the digests: hexadecimal of the right length, and the constant
    of the empty body. *)
Class HexDigester (DG : Digester) : Prop := {
  digest_hex body : is_sha256 (digest_bytes body) = true;
  digest_empty : digest_bytes "" = EMPTY_BLOB_DIGEST
}.

#[export] Instance sha256_hex : HexDigester sha256_digester.
Proof. split; [apply sha256_is_sha256|apply sha256_empty]. Qed.

Section fence_store.
Context {DG : Digester} {HD : HexDigester DG} (others : string -> option Contract) (cfg : Config).
Hypothesis no_secrets : redactor cfg = [].

#[local] Instance the_contracts : Contracts := contracts others.
#[local] Instance the_log : EventLog World := store_log cfg.
#[local] Instance the_log_ok : EventLogOk World := store_log_ok cfg.

Lemma writable_well_formed ev content :
  writable ev content -> well_formed ev (digest_bytes content) (Z.of_nat (String.length content)).
Proof using HD.
  intros (H1 & H2 & H3 & H4 & Hr). unfold well_formed. do 4 (split; [done|]). split; [apply digest_hex|].
  split; [lia|]. assert (He : content = "" -> Z.of_nat (String.length content) = 0 /\ digest_bytes content = EMPTY_BLOB_DIGEST).
  { intros ->. split; [done|]. apply digest_empty. }
  generalize dependent (digest_bytes content). intros bd He. destruct (wg_record ev); [| | |done];
    destruct Hr as (? & ? & ? & Hc); destruct (He Hc); auto.
Qed.

(** The store takes every event the fence writes. *)
Lemma generation_taken ev content : writable ev content -> log_accepts (generation_event ev) content.
Proof using HD no_secrets.
  intros Hw. change (taken cfg (generation_event ev) content). unfold taken, payload_of. rewrite no_secrets, redact_nothing, redact_fields_nothing.
  split; [|split; [done|by intros eid [= <-]]]. split.
  - exists generation_contract. split; [done|]. apply generation_contract_accepts. by apply writable_well_formed.
  - done.
  - done.
  - intros [Ht _]. vm_compute in Ht. discriminate.
Qed.

Lemma fresh_store_ok : ok cfg [] empty_files.
Proof. exists []. split; [constructor|]. split; [done|]. split; [done|]. split; [constructor|]. intros name b. done. Qed.

(** C12. The fence over the store of a Run without secrets: from a fresh store and along every
    history of the fence's operations, with the other components' events between them and
    power lost anywhere but inside a write, the store still verifies, its log projects, and
    every Work has at most one active generation. *)
Theorem store_fence_exclusive (timestamp : World -> string) (w w' : World) :
  files w = empty_files -> fence_history (run_id cfg) timestamp w w' ->
  exists es p, read_verified cfg (files w') = Ok es /\ project_events es (run_id cfg) = Ok p
    /\ forall s1 s2, s1 ∈ generations p -> s2 ∈ generations p -> active s1 = true -> active s2 = true ->
         work_id s1 = work_id s2 -> s1 = s2.
Proof using HD no_secrets.
  intros Hf Hh.
  destruct (fence_history_moves (run_id cfg) timestamp generation_taken w w' [] projector_start) as (es & st & Hok & Hl & _ & _ & _ & Hw);
    [cbn; rewrite Hf; apply fresh_store_ok|apply legal_empty|done|].
  destruct (projection_done (run_id cfg) es st w' Hok Hl) as (p & Hp & Hg & _).
  exists es, p. assert (Hr : read_verified cfg (files w') = Ok es) by (by apply store_sound_read).
  split; [done|]. split.
  - unfold projection, mbind, Prog_bind, ask, try in Hp. rewrite (log_sound_read w' es Hok) in Hp.
    destruct (project_events es (run_id cfg)) as [q|x]; [|done]. congruence.
  - rewrite Hg. intros s1 s2 H1 H2 A1%active_spec A2%active_spec Heq.
    assert (Ho : owner_of s1 = owner_of s2).
    { apply Hw; try done; unfold ownership; apply list_elem_of_fmap; eauto. }
    pose proof (legal_ok _ _ Hl) as Hpok. apply (state_in st _ Hpok) in H1, H2.
    assert (Hid : generation_id s1 = generation_id s2) by (by injection Ho). rewrite Hid in H1. congruence.
Qed.
End fence_store.
