(* ===== verification/StoreWitness.v ===== *)
(** A Run's first events in the canonical event store, at which the theorems of the store
    apply. *)

From S2P Require Import Prelude Canon Text Redaction RedactionFacts PyJson EventStore EventStoreLogic EventStoreFacts EventStoreTheorems EventContracts ContractFacts EventLog WorkGeneration.
Local Open Scope Z_scope.

(** A checksum in place of SHA-256 that tells the empty body from the others. *)
Definition marking_digester : Digester := fun body =>
  if bool_decide (body = "") then EMPTY_BLOB_DIGEST
  else hexdigest (replicate 7 0 ++ [foldl (fun sum c => w32 (257 * sum + c)) 0 (codes body)]).

#[local] Existing Instance marking_digester.
#[local] Instance demo_contracts : Contracts := contracts (fun _ => None).

Definition demo_config : Config := {| run_id := "run-1"; redactor := []; append_hook := fun _ => Ok tt |}.

Definition booted (fs : Files) (writes : nat) : World := {| files := fs; writes_left := writes; tears := false |}.

Definition first_event : CanonicalEvent :=
  generation_event (acquisition "generation-000001" "web-1" "attempt-1" "2026-01-01T00:00:00Z").
Definition second_event : CanonicalEvent :=
  generation_event (acquisition "generation-000002" "pwn-1" "attempt-2" "2026-01-01T00:01:00Z").

Definition first_payload : fields := payload_of demo_config first_event "".
Definition first_committed : CommittedEvent := next_event demo_config [] (ev_type first_event) first_payload "".

(** The files after the first event, and after power was lost with only its reservation written. *)
Definition one_event : Files := (append demo_config first_event "" (booted empty_files 9)).1.(files).
Definition only_reserved : Files := (append demo_config first_event "" (booted empty_files 1)).1.(files).

Definition first_reservation : EventReservation :=
  new_reservation demo_config [] [] (ev_type first_event) first_payload "" None.

Lemma first_proper : proper (ev_type first_event) first_payload "".
Proof. split; [exists generation_contract; split|..]; try reflexivity. intros [H _]. vm_compute in H. discriminate. Qed.

Lemma second_proper : proper (ev_type second_event) (payload_of demo_config second_event "") "".
Proof. split; [exists generation_contract; split|..]; try reflexivity. intros [H _]. vm_compute in H. discriminate. Qed.

Lemma empty_holds : holds demo_config [] [] empty_files.
Proof. split; [constructor|]. split; [done|]. split; [done|]. split; [constructor|]. intros name b. done. Qed.

Lemma reserved_holds : holds demo_config [] [first_reservation] only_reserved.
Proof.
  split; [constructor|]. split; [vm_compute; reflexivity|]. split; [vm_compute; reflexivity|].
  assert (Hs : sealed only_reserved = []) by (vm_compute; reflexivity).
  split; [|intros name b; rewrite Hs; discriminate]. constructor; [|constructor]. split; [vm_compute; reflexivity|].
  intros []. reflexivity.
Qed.

Lemma reads_a_chain_witness :
  read_verified demo_config one_event = Ok [first_committed] /\ sequence <$> [first_committed] = [1].
Proof.
  assert (Hr : read_verified demo_config one_event = Ok [first_committed]) by (vm_compute; reflexivity).
  split; [exact Hr|]. apply (reads_a_chain demo_config one_event [first_committed] Hr).
Defined.

(** Two events, and a store that has the fields of each line the other way round. *)
Definition two_events : Files := (append demo_config second_event "" (booted one_event 9)).1.(files).

Definition turned (fs : Files) : Files := {|
  events_jsonl := {| lines := (fun l => match l with Document (JObj fs) => Document (JObj (rev fs)) | l => l end) <$> lines (events_jsonl fs);
                     terminated := terminated (events_jsonl fs) |};
  reservations_jsonl := empty_stream; sealed := sealed fs; receipts := [] |}.

Definition read_of (fs : Files) : list CommittedEvent := match read_verified demo_config fs with Ok es => es | Err _ => [] end.

Definition history : list CommittedEvent := Eval vm_compute in read_of two_events.
Definition turned_history : list CommittedEvent := Eval vm_compute in read_of (turned two_events).

(** No event of the one has the digest of a different one of the other, so the histories agree. *)
Lemma head_binds_history_witness :
  length history = 2%nat /\ history <> turned_history /\ Forall2 same_content history turned_history.
Proof.
  split; [reflexivity|]. split; [vm_compute; discriminate|].
  destruct (head_binds_history demo_config two_events (turned two_events) history turned_history) as [Hs|(e1 & e2 & H1 & H2 & Hne & Hd)].
  - vm_compute. reflexivity.
  - vm_compute. reflexivity.
  - discriminate.
  - discriminate.
  - vm_compute. reflexivity.
  - exact Hs.
  - exfalso. unfold history, turned_history in H1, H2.
    apply elem_of_cons in H1 as [->|H1]; [|apply list_elem_of_singleton in H1 as ->];
      (apply elem_of_cons in H2 as [->|H2]; [|apply list_elem_of_singleton in H2 as ->]);
      first [vm_compute in Hd; discriminate Hd|apply Hne; unfold same_content; vm_compute; reflexivity].
Defined.

(** Power is lost before the event is written. *)
Lemma append_extends_witness :
  match append demo_config first_event "" (booted empty_files 2) with
  | (w', Crashed) => ok demo_config [] (files w') \/ ok demo_config [first_committed] (files w') \/ False
  | _ => False
  end.
Proof.
  pose proof (append_extends demo_config [] first_event "" (booted empty_files 2) first_proper
    (ex_intro _ [] empty_holds)) as H.
  assert (Hc : (append demo_config first_event "" (booted empty_files 2)).2 = Crashed) by (vm_compute; reflexivity).
  destruct (append demo_config first_event "" (booted empty_files 2)) as [w' o]. cbn [snd] in Hc. subst o.
  destruct H as [H|[H|[H _]]]; [left; exact H|right; left; exact H|discriminate H].
Defined.

Lemma appended_reads_back_witness :
  read_verified demo_config one_event = Ok [first_committed] /\ blob EMPTY_BLOB_DIGEST one_event = Ok "".
Proof.
  destruct (append demo_config first_event "" (booted empty_files 9)) as [w' o] eqn:E.
  assert (Hd : o = Done first_committed) by (change o with (w', o).2; rewrite <-E; vm_compute; reflexivity). subst o.
  destruct (appended_reads_back demo_config [] first_event "" (booted empty_files 9) w' first_committed first_proper
    (ex_intro _ [] empty_holds) E ltac:(intros H; inversion H)) as (Hr & _ & _ & _ & Hb).
  unfold one_event. rewrite E. split; [exact Hr|exact Hb].
Defined.

Lemma one_event_ok : ok demo_config [first_committed] one_event.
Proof.
  pose proof (append_runs demo_config [] first_event "" first_proper (booted empty_files 9) (ex_intro _ [] empty_holds)) as [_ Hr].
  assert (Hd : (append demo_config first_event "" (booted empty_files 9)).2 = Done first_committed) by (vm_compute; reflexivity).
  unfold one_event. destruct (append demo_config first_event "" (booted empty_files 9)) as [w' o]. cbn [fst snd] in *. subst o.
  destruct Hr as [[Hr _]|[_ Hr]]; [set_solver|exact Hr].
Qed.

Definition genesis : fields :=
  [("event_id", JStr "genesis"); ("event_digest", JStr ""); ("profile_digest", JStr ""); ("snapshot_digest", JStr "")].

(** A writer that expects no generation yet, and finds one. *)
Lemma compare_and_append_compares_witness :
  exists w' res, compare_and_append demo_config second_event "" "work-generation.recorded" [] genesis (booted one_event 9)
    = (w', Done res) /\ committed_ res = None /\ files w' = one_event.
Proof.
  destruct (compare_and_append demo_config second_event "" "work-generation.recorded" [] genesis (booted one_event 9))
    as [w' o] eqn:E. assert (Hn : match o with Done res => committed_ res = None | _ => False end).
  { change o with (w', o).2. rewrite <-E. vm_compute. reflexivity. }
  destruct o as [res|x|]; [|destruct Hn..]. exists w', res. split; [reflexivity|]. split; [exact Hn|].
  pose proof (compare_and_append_compares demo_config [first_committed] second_event "" "work-generation.recorded" []
    genesis (booted one_event 9) w' res second_proper one_event_ok E) as H. cbv zeta in H. rewrite Hn in H. apply H.
Defined.

(** Power is lost after the reservation, and the append is repeated. *)
Lemma append_exactly_once_witness :
  exists w2, append demo_config first_event "" (booted only_reserved 4) = (w2, Done first_committed)
    /\ read_verified demo_config (files w2) = Ok [first_committed].
Proof.
  apply (append_exactly_once demo_config [] [] first_event "" (booted empty_files 1) 4 first_proper empty_holds);
    first [constructor|reflexivity|discriminate|lia].
Defined.

(** The same lost power, and another event. *)
Lemma orphan_blocks_appends_witness :
  (append demo_config second_event "" (booted only_reserved 9)).2 <> Done first_committed
  /\ exists rs, holds demo_config [] (first_reservation :: rs)
       (files (append demo_config second_event "" (booted only_reserved 9)).1).
Proof.
  destruct (orphan_blocks_appends demo_config [] [first_reservation] second_event "" (booted only_reserved 9)
    first_reservation second_proper reserved_holds) as [Hn Hh]; try reflexivity.
  - by left.
  - constructor; [|constructor]. vm_compute. reflexivity.
  - split; [apply Hn|exact Hh].
Defined.
