(* ===== verification/FenceWitness.v ===== *)
(** The Work generation fence over a Run's store: concrete histories at which the theorems
    of the fence apply. *)

From S2P Require Import Prelude Canon Text Redaction RedactionFacts PyJson EventStore EventStoreLogic EventStoreFacts EventContracts ContractFacts EventLog StoreLog WorkGeneration WorkGenerationLogic WorkGenerationFacts WorkGenerationTheorems FenceStore StoreWitness.
Local Open Scope Z_scope.

#[local] Existing Instance marking_digester.
#[local] Instance fence_contracts : Contracts := contracts (fun _ => None).
#[local] Instance fence_log : EventLog World := store_log demo_config.
#[local] Instance fence_log_ok : EventLogOk World := store_log_ok demo_config.

Lemma ends_in {A B} (p : A * B) b : p.2 = b -> p = (p.1, b).
Proof. by destruct p; intros <-. Qed.

Definition noon (w : World) : string := "2026-01-01T12:00:00Z".

#[local] Instance marking_hex : HexDigester marking_digester.
Proof.
  split; [|reflexivity]. intros body.
  unfold digest_bytes, marking_digester. case_bool_decide; [reflexivity|]. apply is_sha256_spec.
  rewrite string_length_chars.
  destruct (hexdigest_hex (replicate 7 0 ++ [foldl (fun sum c => w32 (257 * sum + c)) 0 (codes body)])) as [-> ?].
  split; [reflexivity|assumption].
Qed.

Lemma demo_taken ev content : writable ev content -> log_accepts (generation_event ev) content.
Proof. exact (generation_taken (DG := marking_digester) (fun _ => None) demo_config eq_refl ev content). Qed.

Definition after (ops : list fence_op) (w : World) : World :=
  foldl (fun w op => (fence_do "run-1" noon op w).1) w ops.

(** Two Attempts at one Work, the second of which is refused, in a store that was started once. *)
Definition contest : list fence_op := [Acquire "web-1" "attempt-1"; Acquire "web-1" "attempt-2"].
Definition contested_world : World := after contest (booted empty_files 99).

Definition whole (w : World) : bool := terminated (events_jsonl (files w)) && terminated (reservations_jsonl (files w)).

Lemma whole_undamaged w : whole w = true -> ~ log_damaged w.
Proof. intros [H1 H2]%andb_true_iff [H|H]; congruence. Qed.

Lemma contest_history : fence_history "run-1" noon (booted empty_files 99) contested_world.
Proof.
  apply history_op; [apply history_op; [apply history_start|]|]; apply whole_undamaged; vm_compute; reflexivity.
Qed.

Lemma fresh_sound : log_sound (booted empty_files 99) [].
Proof. apply fresh_store_ok. Qed.

Lemma fence_refines_witness :
  exists es' st', log_sound contested_world es' /\ exclusive (ownership st').
Proof.
  destruct (fence_refines "run-1" noon demo_taken (booted empty_files 99) contested_world [] projector_start
    fresh_sound legal_empty contest_history) as (es' & st' & Hw & _ & _ & He).
  exists es', st'. split; assumption.
Defined.

Lemma store_fence_exclusive_witness :
  exists es, read_verified demo_config (files contested_world) = Ok es.
Proof.
  destruct (store_fence_exclusive (DG := marking_digester) (fun _ => None) demo_config eq_refl noon
    (booted empty_files 99) contested_world eq_refl contest_history) as (es & p & Hr & _).
  exists es. exact Hr.
Defined.

(** The first acquisition, and its close. *)
Definition acquired_world : World := (acquire "run-1" noon "web-1" "attempt-1" (booted empty_files 99)).1.
Definition closed_world : World := (close "run-1" noon "generation-000001" COMPLETE acquired_world).1.

Definition first_owner : GenerationState := fresh_state "generation-000001" "web-1" "attempt-1" 1.

Lemma acquired_returns :
  acquire "run-1" noon "web-1" "attempt-1" (booted empty_files 99)
  = (acquired_world, Done {| id_generation := "generation-000001"; id_work := "web-1"; id_attempt := "attempt-1" |}).
Proof.
  assert (Hd : (acquire "run-1" noon "web-1" "attempt-1" (booted empty_files 99)).2
    = Done {| id_generation := "generation-000001"; id_work := "web-1"; id_attempt := "attempt-1" |})
    by (vm_compute; reflexivity).
  rewrite <-Hd. apply surjective_pairing.
Qed.

Lemma acquired_legal :
  exists es st, log_sound acquired_world es /\ legal es st /\ states_by_id st = [("generation-000001", first_owner)].
Proof.
  pose proof (runs_acquire "run-1" noon demo_taken [] projector_start "web-1" "attempt-1" legal_empty
    (booted empty_files 99) fresh_sound) as Hr. rewrite acquired_returns in Hr.
  destruct Hr as (es & Hw & st & Hl & _ & Hst & _). by exists es, st.
Qed.

Lemma closed_legal :
  exists es st s, log_sound closed_world es /\ legal es st
    /\ dict_get "generation-000001" (states_by_id st) = Some s /\ disposition s = Some COMPLETE.
Proof.
  destruct acquired_legal as (es & st & Hw & Hl & _).
  pose proof (runs_close "run-1" noon demo_taken es st "generation-000001" COMPLETE Hl acquired_world Hw) as Hr.
  assert (Hd : (close "run-1" noon "generation-000001" COMPLETE acquired_world).2 = Done tt) by (vm_compute; reflexivity).
  unfold closed_world. destruct (close "run-1" noon "generation-000001" COMPLETE acquired_world) as [w' o].
  cbn [fst snd] in *. subst o. destruct Hr as (es' & Hw' & st' & Hl' & _ & [(s & Hs & Hds) _] & _). by exists es', st', s.
Qed.

Lemma generations_exclusive_witness :
  exists es p, project_events es "run-1" = Ok p /\ NoDup (generation_id <$> generations p)
    /\ log_sound acquired_world es.
Proof.
  destruct acquired_legal as (es & st & Hw & (Hp & _) & _).
  assert (Hev : exists p, project_events es "run-1" = Ok p).
  { unfold project_events. rewrite Hp. eexists. reflexivity. }
  destruct Hev as [p Hev]. exists es, p. split; [exact Hev|]. split; [|exact Hw].
  apply (generations_exclusive es "run-1" p Hev).
Defined.

Lemma acquire_exclusive_witness :
  exists why, acquire "run-1" noon "web-1" "attempt-2" acquired_world = (acquired_world, Raised (GenerationConflict why)).
Proof.
  destruct acquired_legal as (es & st & Hw & Hl & Hst).
  apply (acquire_exclusive "run-1" noon demo_taken acquired_world es st "web-1" "attempt-2" Hw Hl); try discriminate.
  exists first_owner. split; [rewrite Hst; by left|]. left. split; reflexivity.
Defined.

Lemma late_output_fenced_witness :
  exists w', authorize_and_commit "run-1" noon "generation-000001" CANDIDATE (fun _ => mret "flag{late}") "stdout" closed_world
    = (w', Done ({| accepted := false; classification := CLOSED |}, None)).
Proof.
  destruct closed_legal as (es & st & s & Hw & Hl & Hs & Hd).
  pose proof (late_output_fenced "run-1" noon demo_taken closed_world es st "generation-000001" s CANDIDATE
    (fun _ => mret "flag{late}") "stdout" Hw Hl Hs) as H.
  assert (Ea : active s = false) by (unfold active; rewrite Hd; reflexivity). rewrite Ea, Hd in H. destruct H as [_ H].
  destruct (authorize_and_commit _ _ _ _ _ _ closed_world) as [w' o] eqn:E.
  assert (Hn : match o with Done _ => True | _ => False end).
  { change o with (w', o).2. rewrite <-E. vm_compute. exact I. }
  destruct o as [[d t]|x|]; [|destruct Hn..]. destruct (H w' d t eq_refl) as (-> & -> & _). exists w'. reflexivity.
Defined.

Lemma restart_fences_witness :
  exists w' es st, reconcile_restart "run-1" noon acquired_world = (w', Done ["generation-000001"])
    /\ log_sound w' es /\ legal es st /\ active_now st = [].
Proof.
  destruct acquired_legal as (es & st & Hw & Hl & Hst).
  destruct (reconcile_restart "run-1" noon acquired_world) as [w' o] eqn:E.
  assert (Hn : o = Done ["generation-000001"]).
  { change o with (w', o).2. rewrite <-E. vm_compute. reflexivity. }
  subst o. destruct (restart_fences "run-1" noon demo_taken acquired_world es st w' _ Hw Hl E) as (_ & es' & st' & Hw' & Hl' & Ha & _).
  exists w', es', st'. split; [reflexivity|]. split; [assumption|]. split; assumption.
Defined.
