(* ===== verification/SubmissionEpoch.v ===== *)
(** Submission epochs and the submission ledger.

    [src/solver/submission/epoch.py]: a counter per Board kept in the event log, advanced at
    most once past each closed ambiguity.  [src/solver/submission/ledger.py]: the row of a
    submission, folded from the events that bracket its Board effect. *)

From S2P Require Import Prelude Canon Text Redaction PyJson EventStore EventContracts EventLog.
Local Open Scope Z_scope.

(** ** The event *)

Definition SUBMISSION_EPOCH_ADVANCED : string := "submission-epoch.advanced".

Record SubmissionEpochAdvanced : Type := {
  ep_event_id : string;
  ep_board_identity : string;
  ep_epoch : Z;
  ep_ts : string
}.

Definition epoch_payload (ev : SubmissionEpochAdvanced) (bd : string) (bb : Z) : fields := [
  ("event_id", JStr (ep_event_id ev)); ("board_identity", JStr (ep_board_identity ev));
  ("epoch", JInt (ep_epoch ev)); ("ts", JStr (ep_ts ev)); ("blob_digest", JStr bd); ("blob_bytes", JInt bb)].

(** [type(value) is int and value >= 1]. *)
Definition positive_int (v : json) : bool := match v with JInt n => 1 <=? n | _ => false end.

Definition epoch_validate (p : fields) : result unit :=
  raise_if (negb (truthy (get_or "board_identity" JNull p)) || negb (positive_int (get_or "epoch" JNull p)))
    (InvalidEventError "Submission epoch is invalid").

Definition epoch_event (ev : SubmissionEpochAdvanced) : CanonicalEvent := {|
  ev_type := SUBMISSION_EPOCH_ADVANCED; identity := JStr (ep_event_id ev); event_id := Some (ep_event_id ev);
  ev_payload := epoch_payload ev |}.

Definition epoch_contract : Contract := {|
  validate_payload := epoch_validate; identity_from_payload := identity_by_event_id;
  exact_payload_identity := false |}.

(** ** The authority *)

(** [[e for e in events if e.event_type == ... and e.payload["board_identity"] == board]]. *)
Fixpoint epoch_rows (board : string) (es : list CommittedEvent) : result (list CommittedEvent) :=
  match es with
  | [] => Ok []
  | e :: es =>
      if bool_decide (event_type e = SUBMISSION_EPOCH_ADVANCED) then
        b ← item "board_identity" (payload e);
        rest ← epoch_rows board es;
        Ok (if py_eqb b (JStr board) then e :: rest else rest)
      else epoch_rows board es
  end.

Definition epochs_of (board : string) (es : list CommittedEvent) : result (list Z) :=
  rows ← epoch_rows board es;
  map_result (fun e => v ← item "epoch" (payload e); int_of v) rows.

Definition current_epoch (board : string) (es : list CommittedEvent) : result Z :=
  epochs ← epochs_of board es;
  raise_unless (bool_decide (epochs = seqZ 1 (py_len epochs)))
    (InvalidEventError "Submission epoch replay is not contiguous");;
  Ok (default 0 (last epochs)).

Section authority.
Context {W : Type} `{EventLog W} (timestamp : W -> string).

Definition current (board : string) : Prog W Z :=
  es ← ask log_read;
  es ← try es;
  try (current_epoch board es).

Definition epoch_name (board : string) (epoch : Z) (cause : string) : string :=
  "submission-epoch:" +:+ board +:+ ":" +:+ str_int epoch +:+ ":" +:+ cause.

Definition append_next (board cause : string) : Prog W Z :=
  n ← current board;
  ts ← ask timestamp;
  log_append (epoch_event {| ep_event_id := epoch_name board (n + 1) cause; ep_board_identity := board;
                             ep_epoch := n + 1; ep_ts := ts |}) "";;
  mret (n + 1).

Definition advance (board : string) : Prog W Z := append_next board "initial".

(** [self.current(board) or self._append_next(board)]. *)
Definition ensure (board : string) : Prog W Z :=
  n ← current board;
  if n =? 0 then append_next board "initial" else mret n.

Definition advance_after (board closed_effect_id : string) (closed_epoch : Z) : Prog W Z :=
  n ← current board;
  if negb (n =? closed_epoch) then mret n else append_next board closed_effect_id.
End authority.

(** ** The ledger *)

Definition SUBMISSION_LEDGER_RECORDED : string := "submission-ledger.recorded".

Definition ledger_required : list string :=
  ["event_id"; "phase"; "request_id"; "candidate_id"; "supplied_value_digest"; "complete_identity"; "submitted_at";
   "verdict"; "blob_digest"; "blob_bytes"].

(** [set(payload) == required]. *)
Definition same_names (p : fields) (names : list string) : bool :=
  py_all (fun n => dict_has n p) names && py_all (fun f => bool_decide (f.1 ∈ names)) p.

Definition ledger_validate (p : fields) : result unit :=
  raise_if (negb (same_names p ledger_required) || negb (truthy (get_or "event_id" JNull p))
      || negb (truthy (get_or "request_id" JNull p)))
    (ValueError "submission ledger row is incomplete");;
  raise_unless (one_of (py_str (get_or "phase" JNull p)) ["intended"; "classified"])
    (ValueError "not a valid SubmissionLedgerPhase");;
  raise_unless (match get_or "complete_identity" JNull p with
      | JObj i => truthy (get_or "effect_id" JNull i)
      | _ => false
      end)
    (ValueError "submission ledger identity is incomplete").

Record SubmissionLedgerRecorded : Type := {
  sl_event_id : string;
  sl_phase : string;
  sl_request_id : string;
  sl_candidate_id : string;
  sl_supplied_value : string;
  sl_identity : fields;
  sl_submitted_at : string;
  sl_verdict : string
}.

Definition ledger_payload `{Digester} (ev : SubmissionLedgerRecorded) (bd : string) (bb : Z) : fields := [
  ("event_id", JStr (sl_event_id ev)); ("phase", JStr (sl_phase ev)); ("request_id", JStr (sl_request_id ev));
  ("candidate_id", JStr (sl_candidate_id ev));
  ("supplied_value_digest", JStr (digest_bytes (sl_supplied_value ev)));
  ("complete_identity", JObj (sl_identity ev)); ("submitted_at", JStr (sl_submitted_at ev));
  ("verdict", JStr (sl_verdict ev)); ("blob_digest", JStr bd); ("blob_bytes", JInt bb)].

(** The event's [identity] is its field of that name, a CompleteSubmissionIdentity, here its
    document; like the object it equals no string. *)
Definition ledger_event `{Digester} (ev : SubmissionLedgerRecorded) : CanonicalEvent := {|
  ev_type := SUBMISSION_LEDGER_RECORDED; identity := JObj (sl_identity ev); event_id := Some (sl_event_id ev);
  ev_payload := ledger_payload ev |}.

Definition ledger_contract : Contract := {|
  validate_payload := ledger_validate; identity_from_payload := identity_by_event_id;
  exact_payload_identity := false |}.

(** [event.payload["complete_identity"]["effect_id"]]. *)
Definition effect_of (p : fields) : result json :=
  i ← item "complete_identity" p;
  match i with JObj i => item "effect_id" i | _ => Err (TypeError "indices must be integers") end.

Fixpoint ledger_rows (effect : string) (es : list CommittedEvent) : result (list fields) :=
  match es with
  | [] => Ok []
  | e :: es =>
      if bool_decide (event_type e = SUBMISSION_LEDGER_RECORDED) then
        x ← effect_of (payload e);
        rest ← ledger_rows effect es;
        Ok (if py_eqb x (JStr effect) then payload e :: rest else rest)
      else ledger_rows effect es
  end.

(** [row["phase"] == phase]. *)
Definition in_phase (phase : string) (p : fields) : bool := py_eqb (get_or "phase" JNull p) (JStr phase).

Definition identifying : list string := ["request_id"; "candidate_id"; "supplied_value_digest"; "complete_identity"].

(** [any(classified[key] != intended[key] for key in keys)]. *)
Fixpoint any_differs (c i : fields) (keys : list string) : result bool :=
  match keys with
  | [] => Ok false
  | k :: keys =>
      x ← item k c;
      y ← item k i;
      if py_eqb x y then any_differs c i keys else Ok true
  end.

(** [{**p, **q}]. *)
Definition merged (p q : fields) : fields := foldl (fun d f => dict_set f.1 f.2 d) p q.

Definition project_submission_row (es : list CommittedEvent) (effect : string) : result (option fields) :=
  rows ← ledger_rows effect es;
  match rows with
  | [] => Ok None
  | _ =>
      raise_unless (py_all (dict_has "phase") rows) (KeyError "phase");;
      let intended := List.filter (in_phase "intended") rows in
      let classified := List.filter (in_phase "classified") rows in
      match intended, classified with
      | [i], [] => Ok (Some (merged [("status", JStr "unsettled")] i))
      | [i], [c] =>
          differs ← any_differs c i identifying;
          raise_if differs (ValueError "submission ledger result does not match intent");;
          identity ← item "complete_identity" c;
          epoch ← match identity with JObj f => item "submission_epoch" f | _ => Err (TypeError "indices must be integers") end;
          eid ← item "event_id" c;
          Ok (Some (merged (merged [("status", JStr "classified")] c)
            [("row_type", JStr "submission"); ("board_row_id", eid); ("submission_epoch", epoch); ("effect_id", JStr effect)]))
      | _, _ => Err (ValueError "submission ledger replay is ambiguous")
      end
  end.
