(* ===== verification/SubmissionFacts.v ===== *)
(** Properties of submission epochs and of the submission ledger. *)

From Stdlib Require Import Ascii.
From S2P Require Import Prelude Canon Text PyJson EventStore EventContracts EventLog SubmissionEpoch.
Local Open Scope Z_scope.

#[global] Arguments dict_get : simpl never.

(** ** Names *)

(** An identity read from its end: the last part has no colon, whatever comes before. *)
Lemma colon_inj_r s s' t t' : colon_free t -> colon_free t' -> s +:+ ":" +:+ t = s' +:+ ":" +:+ t' -> s = s' /\ t = t'.
Proof.
  intros Ht Ht'. assert (Hno : forall u v, colon_free (u +:+ ":" +:+ v) -> False).
  { intros u v. unfold colon_free. induction u as [|c u IH]; [done|].
    change (String c u +:+ ":" +:+ v) with (String c (u +:+ ":" +:+ v)). cbn [before_colon].
    case_bool_decide; [done|]. intros [= Hu]. by apply IH. }
  revert s'. induction s as [|c s IH]; intros [|c' s'] H.
  - change (String ":" t = String ":" t') in H. by injection H.
  - change (String ":" t = String c' (s' +:+ ":" +:+ t')) in H. injection H as _ ->. by destruct (Hno s' t').
  - change (String c (s +:+ ":" +:+ t) = String ":" t') in H. injection H as _ <-. by destruct (Hno s t).
  - change (String c (s +:+ ":" +:+ t) = String c' (s' +:+ ":" +:+ t')) in H. injection H as -> H.
    destruct (IH s' H) as [-> ->]. done.
Qed.

Lemma str_app_inj_l (a b c : string) : a +:+ b = a +:+ c -> b = c.
Proof. induction a as [|x a IH]; [done|]. intros H. apply IH. by injection H. Qed.

Lemma str_int_inj n m : 0 <= n -> 0 <= m -> str_int n = str_int m -> n = m.
Proof.
  intros Hn Hm H. pose proof (int_digits_str_int n Hn) as H1. pose proof (int_digits_str_int m Hm) as H2.
  rewrite H in H1. congruence.
Qed.

Lemma str_int_colon_free n : 0 <= n -> colon_free (str_int n).
Proof. intros Hn. eapply digits_colon_free, int_digits_str_int, Hn. Qed.

Lemma epoch_name_inj b b' n n' c c' :
  0 <= n -> 0 <= n' -> colon_free c -> colon_free c' -> epoch_name b n c = epoch_name b' n' c' -> b = b' /\ n = n'.
Proof.
  intros Hn Hn' Hc Hc' H. unfold epoch_name in H. apply str_app_inj_l in H.
  assert (Hr : forall b n c, b +:+ ":" +:+ str_int n +:+ ":" +:+ c = (b +:+ ":" +:+ str_int n) +:+ ":" +:+ c).
  { intros. by rewrite !str_app_assoc. }
  rewrite !Hr in H. apply colon_inj_r in H as [H _]; [|done..].
  apply colon_inj_r in H as [-> H]; [|by apply str_int_colon_free..]. split; [done|]. by apply str_int_inj.
Qed.

(** ** What a log says of epochs *)

Definition is_epoch_event (c : CommittedEvent) : bool := bool_decide (event_type c = SUBMISSION_EPOCH_ADVANCED).

(** An epoch event of the authority: its fields, and the name that repeats them. *)
Record names_epoch (c : CommittedEvent) (board : string) (n : Z) (cause : string) : Prop := {
  names_board : dict_get "board_identity" (payload c) = Some (JStr board);
  names_number : dict_get "epoch" (payload c) = Some (JInt n);
  names_id : dict_get "event_id" (payload c) = Some (JStr (epoch_name board n cause));
  names_cause : colon_free cause;
  names_positive : 1 <= n
}.

Definition epoch_in (board : string) (c : CommittedEvent) : option Z :=
  if is_epoch_event c && bool_decide (dict_get "board_identity" (payload c) = Some (JStr board))
  then match dict_get "epoch" (payload c) with Some (JInt n) => Some n | _ => None end
  else None.

(** The log's epochs: events of the authority, numbered from 1 for every Board. *)
Definition epochs_ok (es : list CommittedEvent) : Prop :=
  (forall c, c ∈ es -> is_epoch_event c = true -> exists b n cause, names_epoch c b n cause)
  /\ (forall b, omap (epoch_in b) es = seqZ 1 (py_len (omap (epoch_in b) es))).

Definition epoch_count (b : string) (es : list CommittedEvent) : Z := py_len (omap (epoch_in b) es).

Lemma epochs_of_omap b es :
  (forall c, c ∈ es -> is_epoch_event c = true -> exists b n cause, names_epoch c b n cause) ->
  epochs_of b es = Ok (omap (epoch_in b) es).
Proof.
  unfold epochs_of. induction es as [|c es IH]; intros Hn; [done|].
  specialize (IH (fun x Hx => Hn x (list_elem_of_further _ _ _ Hx))). cbn [epoch_rows omap list_omap].
  unfold epoch_in at 1. fold (is_epoch_event c). destruct (is_epoch_event c) eqn:Ec; [|exact IH].
  destruct (Hn c ltac:(by left) Ec) as (b' & n & cause & [Hb Hnum _ _ _]). 
  assert (Hi : item "board_identity" (payload c) = Ok (JStr b')) by (unfold item; by rewrite Hb).
  rewrite Hi, Hb, Hnum. cbn [mbind result_bind andb]. destruct (epoch_rows b es) as [rows|x]; [|done]. cbn [mbind result_bind] in *.
  rewrite py_eqb_str. destruct (decide (b' = b)) as [->|Hne].
  - rewrite !bool_decide_true by done. set (f := fun e : CommittedEvent => _) in IH |- *.
    assert (Hf : f c = Ok n) by (unfold f, item; by rewrite Hnum). cbn [map_result]. rewrite Hf, IH. done.
  - rewrite !bool_decide_false by congruence. exact IH.
Qed.

Lemma last_seqZ k : 0 <= k -> default 0 (last (seqZ 1 k)) = k.
Proof.
  intros Hk. destruct (decide (k = 0)) as [->|Hne]; [done|].
  rewrite last_lookup, length_seqZ, lookup_seqZ_lt by lia. cbn. unfold id. lia.
Qed.

Lemma current_epoch_count b es : epochs_ok es -> current_epoch b es = Ok (epoch_count b es).
Proof.
  intros [Hn Hc]. unfold current_epoch, epoch_count. rewrite (epochs_of_omap b es Hn). cbn [mbind result_bind].
  rewrite bool_decide_true by apply Hc. cbn. f_equal. rewrite (Hc b) at 1. apply last_seqZ. unfold py_len. lia.
Qed.

Lemma epoch_in_range b es c : epochs_ok es -> c ∈ es -> forall n, epoch_in b c = Some n -> n <= epoch_count b es.
Proof.
  intros [_ Hc] Hin n Hn. assert (Hm : n ∈ omap (epoch_in b) es) by (apply list_elem_of_omap; eauto).
  rewrite (Hc b) in Hm. apply elem_of_seqZ in Hm. unfold epoch_count. lia.
Qed.

(** One more epoch. *)
Lemma epochs_ok_snoc es c b n cause :
  epochs_ok es -> is_epoch_event c = true -> names_epoch c b n cause -> n = epoch_count b es + 1 ->
  epochs_ok (es ++ [c]) /\ epoch_count b (es ++ [c]) = n
  /\ (forall b', b' <> b -> epoch_count b' (es ++ [c]) = epoch_count b' es).
Proof.
  intros [Hn Hc] Ec Hc' ->. pose proof Hc' as [Hb Hnum _ _ _].
  assert (Hin : forall b', epoch_in b' c = if bool_decide (b' = b) then Some (epoch_count b es + 1) else None).
  { intros b'. unfold epoch_in. rewrite Ec, Hb, Hnum. cbn [andb].
    destruct (decide (b' = b)) as [->|Hne]; [by rewrite !bool_decide_true|by rewrite !bool_decide_false by congruence]. }
  assert (Hom : forall b', omap (epoch_in b') (es ++ [c])
    = omap (epoch_in b') es ++ (if bool_decide (b' = b) then [epoch_count b es + 1] else [])).
  { intros b'. rewrite omap_app. cbn. rewrite Hin. by case_bool_decide. }
  split; [split|split].
  - intros c2 [H2|H2%list_elem_of_singleton]%elem_of_app; [by apply Hn|subst; eauto].
  - intros b'. rewrite Hom. case_bool_decide as E; [subst b'|by rewrite app_nil_r].
    unfold py_len. rewrite length_app. cbn [length]. rewrite Nat2Z.inj_add. change (Z.of_nat 1) with 1.
    rewrite (seqZ_app 1 (Z.of_nat (length (omap (epoch_in b) es))) 1) by lia. f_equal; [apply Hc|].
    rewrite seqZ_cons, seqZ_nil by lia. f_equal. unfold epoch_count, py_len. lia.
  - unfold epoch_count. rewrite Hom, bool_decide_true by done. unfold py_len. rewrite length_app. cbn. lia.
  - intros b' Hne. unfold epoch_count. rewrite Hom, bool_decide_false by done. by rewrite app_nil_r.
Qed.

Lemma epochs_ok_others es others :
  epochs_ok es -> Forall (fun c => is_epoch_event c = false) others ->
  epochs_ok (es ++ others) /\ forall b, epoch_count b (es ++ others) = epoch_count b es.
Proof.
  intros [Hn Hc] Ho. assert (Hom : forall b, omap (epoch_in b) (es ++ others) = omap (epoch_in b) es).
  { intros b. rewrite omap_app. replace (omap (epoch_in b) others) with (@nil Z); [apply app_nil_r|].
    induction Ho as [|c l Hc' _ IH]; [done|]. cbn. unfold epoch_in at 1. by rewrite Hc'. }
  split; [split|].
  - intros c [Hin|Hin]%elem_of_app Ec; [by apply Hn|]. rewrite Forall_forall in Ho. specialize (Ho c Hin). congruence.
  - intros b. by rewrite Hom.
  - intros b. unfold epoch_count. by rewrite Hom.
Qed.

(** ** The authority's operations *)

Lemma JStr_inj s t : JStr s = JStr t -> s = t.
Proof. congruence. Qed.

Section authority.
Context {W : Type} `{EventLogOk W} (timestamp : W -> string).
Hypothesis epochs_taken :
  forall ev, ep_board_identity ev <> "" -> 1 <= ep_epoch ev -> log_accepts (epoch_event ev) "".

(** The log kept its epochs, and the Board's count is [n] or one more. *)
Definition at_most_next (b : string) (n : Z) (es : list CommittedEvent) : Prop :=
  epochs_ok es /\ (epoch_count b es = n \/ epoch_count b es = n + 1).

Lemma runs_epoch_current {B} b es (k : Z -> Prog W B) Q (E : list CommittedEvent -> Prop) :
  epochs_ok es -> log_runs es (k (epoch_count b es)) Q E -> log_runs es (current b ≫= k) Q E.
Proof.
  intros Hok Hk w Hw. unfold current, mbind, Prog_bind, ask, try.
  rewrite (log_sound_read w es Hw), (current_epoch_count b es Hok). by apply Hk.
Qed.

Lemma epoch_unseen es b n cause :
  epochs_ok es -> colon_free cause -> n = epoch_count b es + 1 ->
  unseen es SUBMISSION_EPOCH_ADVANCED (epoch_name b n cause).
Proof.
  intros Hok Hc -> c Hin Ht Hid. assert (Ec : is_epoch_event c = true) by (by apply bool_decide_eq_true).
  destruct (proj1 Hok c Hin Ec) as (b' & n' & cause' & [Hb Hn Hi Hc' Hp]).
  unfold get_or in Hid. rewrite Hi in Hid. cbn [default] in Hid. unfold id in Hid. apply JStr_inj in Hid.
  assert (0 <= epoch_count b es) by (unfold epoch_count, py_len; lia).
  apply epoch_name_inj in Hid as [-> ->]; [|lia|lia|done|done].
  assert (Hle : epoch_count b es + 1 <= epoch_count b es); [|lia].
  apply (epoch_in_range b es c Hok Hin). unfold epoch_in. rewrite Ec, Hb, Hn, bool_decide_true by done. done.
Qed.

Definition opened (b : string) (n : Z) (es es' : list CommittedEvent) : Prop :=
  epochs_ok es' /\ epoch_count b es' = n /\ forall b', b' <> b -> epoch_count b' es' = epoch_count b' es.

Lemma runs_append_next b cause es :
  epochs_ok es -> b <> "" -> colon_free cause ->
  log_runs es (append_next timestamp b cause)
    (fun n es' => n = epoch_count b es + 1 /\ opened b n es es')
    (fun es' => opened b (epoch_count b es) es es' \/ opened b (epoch_count b es + 1) es es').
Proof using epochs_taken.
  intros Hok Hb Hc. unfold append_next. apply runs_epoch_current; [done|]. apply log_ask. intros ts.
  set (n := epoch_count b es + 1). set (ev := {| ep_event_id := _ |}).
  assert (Hpos : 0 <= epoch_count b es) by (unfold epoch_count, py_len; lia).
  assert (Hsame : opened b (epoch_count b es) es es) by done.
  assert (Hnext : forall c, entry_of es (epoch_event ev) "" c -> opened b n es (es ++ [c])).
  { intros c Hent. destruct (entry_payload _ _ _ _ Hent) as (bd & bb & Hpay). cbn in Hpay.
    assert (Ec : is_epoch_event c = true) by (apply bool_decide_eq_true; apply (entry_type _ _ _ _ Hent)).
    destruct (epochs_ok_snoc es c b n cause Hok Ec) as (H1 & H2 & H3); [|done|by split_and!].
    split; [by rewrite Hpay..|done|unfold n; lia]. }
  eapply (log_bind _ _ _ (fun _ es' => opened b n es es')).
  - intros w Hw.
    pose proof (log_append_sound w es (epoch_event ev) "" (ep_event_id ev) Hw
      (epochs_taken ev Hb ltac:(cbn; unfold n; lia)) eq_refl eq_refl (epoch_unseen es b n cause Hok Hc eq_refl)) as Ha.
    destruct (log_append (epoch_event ev) "" w) as [w' [c|x|]]; [destruct Ha; eauto|..];
      (destruct Ha as [Ha|[(c & Hent & Ha)|Ha]]; [left; exists es; auto|left; exists (es ++ [c]); auto|by right]).
  - intros _ es' Ho. by apply log_ret.
Qed.

Lemma runs_advance_after b effect e es :
  epochs_ok es -> b <> "" -> colon_free effect ->
  log_runs es (advance_after timestamp b effect e)
    (fun n es' => opened b n es es' /\ n = if epoch_count b es =? e then e + 1 else epoch_count b es)
    (fun es' => opened b (epoch_count b es) es es' \/ epoch_count b es = e /\ opened b (e + 1) es es').
Proof using epochs_taken.
  intros Hok Hb Hc. unfold advance_after. apply runs_epoch_current; [done|].
  destruct (Z.eqb_spec (epoch_count b es) e) as [<-|Hne]; cbn [negb].
  - eapply log_conseq; [by apply runs_append_next|..]; [intros n es' [-> ?]; done|]. intros es' [?|?]; auto.
  - apply log_ret. done.
Qed.

(** ** Histories *)

Inductive epoch_op : Type :=
  | Advance (b : string)
  | Ensure (b : string)
  | AdvanceAfter (b effect : string) (e : Z).

(** The operations as the submission path calls them: on a Board that has an identity, past
    an effect whose identity is a digest. *)
Definition proper_op (op : epoch_op) : Prop :=
  match op with
  | Advance b | Ensure b => b <> ""
  | AdvanceAfter b effect _ => b <> "" /\ colon_free effect
  end.

Definition epoch_do (op : epoch_op) : Prog W unit :=
  match op with
  | Advance b => advance timestamp b;; mret tt
  | Ensure b => ensure timestamp b;; mret tt
  | AdvanceAfter b effect e => advance_after timestamp b effect e;; mret tt
  end.

(** Every Board's count is at least what it was. *)
Definition no_fewer (es es' : list CommittedEvent) : Prop :=
  epochs_ok es' /\ forall b, epoch_count b es <= epoch_count b es'.

Lemma opened_no_fewer b n es es' : opened b n es es' -> epoch_count b es <= n -> no_fewer es es'.
Proof.
  intros (Hok & Hn & Ho) Hle. split; [done|]. intros b'. destruct (decide (b' = b)) as [->|Hne]; [lia|]. rewrite Ho by done. lia.
Qed.

Lemma runs_epoch_do es op : epochs_ok es -> proper_op op -> log_runs es (epoch_do op) (fun _ => no_fewer es) (no_fewer es).
Proof using epochs_taken.
  intros Hok Hop. assert (Hsame : no_fewer es es) by (split; [done|]; intros; lia).
  assert (Happ : forall b cause, b <> "" -> colon_free cause ->
    log_runs es (append_next timestamp b cause) (fun _ => no_fewer es) (no_fewer es)).
  { intros b cause Hb Hc. eapply log_conseq; [by apply runs_append_next|..].
    - intros n es' [-> Ho]. eapply opened_no_fewer; [exact Ho|]. lia.
    - intros es' [Ho|Ho]; (eapply opened_no_fewer; [exact Ho|]); lia. }
  destruct op as [b|b|b effect e]; cbn [epoch_do].
  - eapply log_drop; [by apply Happ|done].
  - eapply log_drop; [|intros ? ? Hq; exact Hq]. unfold ensure. apply runs_epoch_current; [done|].
    destruct (_ =? 0); [by apply Happ|by apply log_ret].
  - eapply log_drop; [|intros ? ? Hq; exact Hq]. destruct Hop as [Hb Hc]. unfold advance_after.
    apply runs_epoch_current; [done|]. destruct (negb _); [by apply log_ret|by apply Happ].
Qed.
End authority.

(** ** What submission epochs and the submission ledger promise. *)

Section theorems.
Context {W : Type} `{EventLogOk W} (timestamp : W -> string).
Hypothesis epochs_taken :
  forall ev, ep_board_identity ev <> "" -> 1 <= ep_epoch ev -> log_accepts (epoch_event ev) "".

(** A history of epoch operations among the other components of the Run. *)
Definition epoch_history : W -> W -> Prop :=
  log_history (fun o : {op | proper_op op} => epoch_do timestamp (`o)) is_epoch_event.

(** C38. Epochs are a counter per Board: along every history of operations that return, raise or
    lose power, with other components' events between them, each Board's epochs read
    1, 2, ..., n without a gap or a repeat, its current epoch is n, and n never falls. *)
Theorem epochs_count_up w w' es :
  log_sound w es -> epochs_ok es -> epoch_history w w' ->
  exists es', log_sound w' es'
    /\ forall b, exists n, current_epoch b es' = Ok n /\ epochs_of b es' = Ok (seqZ 1 n)
         /\ exists n0, current_epoch b es = Ok n0 /\ n0 <= n.
Proof using epochs_taken.
  intros Hw Hok Hh.
  destruct (log_history_keeps (fun o : {op | proper_op op} => epoch_do timestamp (`o)) is_epoch_event (no_fewer es) w w' es)
    as (es' & Hw' & Hok' & Hle); [..|done|by split; [done|]; intros; lia|done|].
  - intros es1 [op Hop] [Hok1 Hle1]. cbn.
    eapply log_conseq; [by apply (runs_epoch_do timestamp epochs_taken es1 op)|..]; [intros ?|];
      intros es2 [Hok2 Hle2]; (split; [done|]); intros b; specialize (Hle1 b); specialize (Hle2 b); lia.
  - intros es1 others [Hok1 Hle1] Ho. destruct (epochs_ok_others es1 others Hok1 Ho) as [Hok2 Heq].
    split; [done|]. intros b. rewrite Heq. apply Hle1.
  - exists es'. split; [done|]. intros b. exists (epoch_count b es'). split; [by apply current_epoch_count|]. split.
    + rewrite epochs_of_omap by apply Hok'. by rewrite (proj2 Hok' b) at 1.
    + exists (epoch_count b es). split; [by apply current_epoch_count|apply Hle].
Qed.

(** A history of one closed ambiguity opening its successor epoch, again and again. *)
Definition retries (b effect : string) (e : Z) : W -> W -> Prop :=
  log_history (fun _ : unit => advance_after timestamp b effect e;; mret tt) is_epoch_event.

(** A closed ambiguity opens one successor epoch, however often it is retried: after any
    number of calls that returned, raised or lost power, the epoch is still the closed one or
    its successor, and a call that returns says the successor. *)
Theorem advance_after_once b effect e w w' es :
  b <> "" -> colon_free effect -> log_sound w es -> epochs_ok es -> current_epoch b es = Ok e ->
  retries b effect e w w' ->
  exists es', log_sound w' es' /\ (current_epoch b es' = Ok e \/ current_epoch b es' = Ok (e + 1))
    /\ forall w2 n, advance_after timestamp b effect e w' = (w2, Done n) ->
         n = e + 1 /\ exists es2, log_sound w2 es2 /\ current_epoch b es2 = Ok (e + 1).
Proof using epochs_taken.
  intros Hb Hc Hw Hok He Hh. rewrite (current_epoch_count b es Hok) in He. injection He as He.
  destruct (log_history_keeps (fun _ : unit => advance_after timestamp b effect e;; mret tt) is_epoch_event
    (at_most_next b e) w w' es) as (es' & Hw' & Hok' & Hcount); [..|done|by split; [|left]|done|].
  - intros es1 [] [Hok1 Hc1].
    assert (Hkeep : forall n es2, opened b n es1 es2 -> n = e \/ n = e + 1 -> at_most_next b e es2).
    { intros n es2 (Hok2 & Hn & _) Hor. split; [done|]. lia. }
    eapply log_drop; [eapply log_conseq; [by apply (runs_advance_after timestamp epochs_taken)|intros n es2 Hq; exact Hq|]|].
    + intros es2 [Ho|[_ Ho]]; (eapply Hkeep; [exact Ho|]); lia.
    + intros n es2 [Ho ->]. eapply Hkeep; [exact Ho|]. destruct (Z.eqb_spec (epoch_count b es1) e); lia.
  - intros es1 others [Hok1 Hc1] Ho. destruct (epochs_ok_others es1 others Hok1 Ho) as [Hok2 Heq].
    split; [done|]. by rewrite Heq.
  - exists es'. split; [done|]. split; [rewrite current_epoch_count by done; destruct Hcount as [-> | ->]; auto|].
    intros w2 n Hrun. pose proof (runs_advance_after timestamp epochs_taken b effect e es' Hok' Hb Hc w' Hw') as Hr.
    rewrite Hrun in Hr. destruct Hr as (es2 & Hw2 & (Hok2 & Hn & _) & Hcase).
    assert (n = e + 1) as -> by (destruct (Z.eqb_spec (epoch_count b es') e); lia).
    split; [done|]. exists es2. rewrite current_epoch_count by done. by rewrite Hn.
Qed.
End theorems.

(** ** The ledger *)

Lemma merged_absent k (q : fields) : forall p, k ∉ q.*1 -> dict_get k (merged p q) = dict_get k p.
Proof.
  induction q as [|[k' v] q IH]; intros p Hk; [done|]. cbn in Hk. cbn [merged foldl fst snd].
  fold (merged (dict_set k' v p) q). rewrite IH by set_solver. apply dict_get_set_ne. set_solver.
Qed.

Lemma ledger_validate_names p : ledger_validate p = Ok tt -> "status" ∉ p.*1.
Proof.
  intros Hv. unfold ledger_validate in Hv. apply bind_ok in Hv as ([] & Hv%raise_if_ok & _).
  apply orb_false_iff in Hv as [Hv _]. apply orb_false_iff in Hv as [Hv _]. apply negb_false_iff in Hv.
  apply andb_true_iff in Hv as [_ Hv]. unfold py_all in Hv. rewrite forallb_forall in Hv.
  intros (f & Heq & Hf)%list_elem_of_fmap. apply list_elem_of_In, Hv, bool_decide_eq_true in Hf. rewrite <-Heq in Hf.
  unfold ledger_required in Hf. repeat (apply elem_of_cons in Hf as [Hf|Hf]; [discriminate|]). by apply not_elem_of_nil in Hf.
Qed.

Lemma ledger_rows_elem effect es : forall rows p,
  ledger_rows effect es = Ok rows -> p ∈ rows ->
  exists c, c ∈ es /\ event_type c = SUBMISSION_LEDGER_RECORDED /\ payload c = p /\ effect_of p = Ok (JStr effect).
Proof.
  induction es as [|c es IH]; intros rows p Hr Hp; cbn in Hr; [injection Hr as <-; set_solver|].
  case_bool_decide as Et.
  - apply bind_ok in Hr as (x & Hx & Hr). apply bind_ok in Hr as (rest & Hrest & [= <-]).
    destruct (py_eqb x (JStr effect)) eqn:Ex.
    + apply elem_of_cons in Hp as [->|Hp].
      * exists c. apply py_eqb_is_str in Ex as ->. split; [by left|]. done.
      * destruct (IH rest p Hrest Hp) as (c2 & ? & ?). exists c2. split; [by right|done].
    + destruct (IH rest p Hrest Hp) as (c2 & ? & ?). exists c2. split; [by right|done].
  - destruct (IH rows p Hr Hp) as (c2 & ? & ?). exists c2. split; [by right|done].
Qed.

Lemma any_differs_false c i keys : any_differs c i keys = Ok false ->
  forall k, k ∈ keys -> exists x y, item k c = Ok x /\ item k i = Ok y /\ py_eqb x y = true.
Proof.
  induction keys as [|k0 keys IH]; intros Hd k Hk; [by apply not_elem_of_nil in Hk|]. cbn in Hd.
  apply bind_ok in Hd as (x & Hx & Hd). apply bind_ok in Hd as (y & Hy & Hd). destruct (py_eqb x y) eqn:E; [|done].
  apply elem_of_cons in Hk as [->|Hk]; [by exists x, y|by apply IH].
Qed.

(** A verdict is believed only against its intent: when the ledger's row of an effect says
    [classified], the log holds one intent and one result of that effect, and they name the
    same request, Candidate, supplied value and complete identity; in every other case the
    row says [unsettled], there is none, or the replay raises. *)
Theorem verdict_matches_intent es effect row :
  (forall c, c ∈ es -> event_type c = SUBMISSION_LEDGER_RECORDED -> ledger_validate (payload c) = Ok tt) ->
  project_submission_row es effect = Ok (Some row) ->
  dict_get "status" row = Some (JStr "unsettled")
  \/ dict_get "status" row = Some (JStr "classified")
     /\ exists rows i c, ledger_rows effect es = Ok rows /\ List.filter (in_phase "intended") rows = [i]
        /\ List.filter (in_phase "classified") rows = [c]
        /\ forall k, k ∈ identifying -> exists x y, item k c = Ok x /\ item k i = Ok y /\ py_eqb x y = true.
Proof.
  intros Hv Hp. unfold project_submission_row in Hp. apply bind_ok in Hp as (rows & Hrows & Hp).
  assert (Hstatus : forall p, p ∈ rows -> "status" ∉ p.*1).
  { intros p Hin. destruct (ledger_rows_elem effect es rows p Hrows Hin) as (c & Hc & Ht & <- & _).
    by apply ledger_validate_names, Hv. }
  assert (Hsub : forall ph p l, List.filter (in_phase ph) rows = p :: l -> p ∈ rows).
  { intros ph p l Hf. apply list_elem_of_In, (filter_In (in_phase ph)). rewrite Hf. by left. }
  destruct rows as [|r0 rs] eqn:Er; [done|]. rewrite <-Er in *. clear Er. apply bind_ok in Hp as ([] & _ & Hp).
  destruct (List.filter (in_phase "intended") rows) as [|i [|]] eqn:Ei; [done| |by destruct (List.filter _ rows)].
  destruct (List.filter (in_phase "classified") rows) as [|c [|]] eqn:Ec; [|..|done].
  - injection Hp as <-. left. by rewrite merged_absent by (eapply Hstatus, Hsub, Ei).
  - right. apply bind_ok in Hp as (b & Hd & Hp). apply bind_ok in Hp as ([] & ->%raise_if_ok & Hp). inv_ok. split.
    + rewrite !dict_get_set_ne by done. by rewrite merged_absent by (eapply Hstatus, Hsub, Ec).
    + exists rows, i, c. split_and!; try done. by apply any_differs_false.
Qed.

(** The store cannot tell a repeated ledger event by its identity: the identity read from a
    committed payload is a string and the event's is not, so only an equal payload is found
    again, and the same [event_id] with another time commits a second row. *)
Lemma ledger_identity_inert `{DG : Digester, CT : Contracts} (ev : SubmissionLedgerRecorded) p es :
  event_contract SUBMISSION_LEDGER_RECORDED = Some ledger_contract ->
  (forall c, c ∈ es -> exists j, identity_of c = Ok j) ->
  find_identity es (ledger_event ev) p = Ok None.
Proof.
  intros Hc. induction es as [|c es IH]; intros Hid; [done|].
  destruct (Hid c ltac:(by left)) as [j Hj]. cbn [find_identity]. rewrite Hj. cbn [mbind result_bind].
  rewrite (IH ltac:(intros c' Hc'; apply Hid; by right)).
  case_bool_decide as Et; [|done]. cbn [negb orb]. unfold identity_of in Hj. rewrite Et in Hj. cbn in Hj. rewrite Hc in Hj.
  cbn in Hj. injection Hj as <-. done.
Qed.
