(* ===== verification/SubmissionWitness.v ===== *)
(** Submission epochs and ledger rows over a Run's store. *)

From S2P Require Import Prelude Canon Text Redaction RedactionFacts PyJson EventStore EventStoreLogic EventStoreFacts EventContracts EventLog StoreLog FenceStore StoreWitness SubmissionEpoch SubmissionFacts.
Local Open Scope Z_scope.

(** ** Epochs over the store *)

Section epoch_store.
Context {DG : Digester} (others : string -> option Contract) (cfg : Config).
Hypothesis no_secrets : redactor cfg = [].

#[local] Instance epoch_contracts : Contracts := contracts (fun t =>
  if bool_decide (t = SUBMISSION_EPOCH_ADVANCED) then Some epoch_contract else others t).

(** The store takes every epoch event the authority writes. *)
Lemma epoch_taken ev :
  ep_board_identity ev <> "" -> 1 <= ep_epoch ev -> taken cfg (epoch_event ev) "".
Proof using no_secrets.
  intros Hb He. unfold taken, payload_of. rewrite no_secrets, redact_nothing, redact_fields_nothing.
  split; [|split; [done|by intros eid [= <-]]]. split.
  - exists epoch_contract. split; [done|]. cbn. unfold epoch_validate. apply raise_if_ok.
    match goal with |- context [get_or "epoch" JNull ?p] =>
      assert (H1 : get_or "board_identity" JNull p = JStr (ep_board_identity ev)) by reflexivity;
      assert (H2 : get_or "epoch" JNull p = JInt (ep_epoch ev)) by reflexivity end.
    rewrite H1, H2. cbn [positive_int]. rewrite (proj2 (Z.leb_le 1 (ep_epoch ev)) He).
    destruct (ep_board_identity ev); [done|]. done.
  - done.
  - done.
  - intros [Ht _]. vm_compute in Ht. discriminate.
Qed.
End epoch_store.

#[local] Existing Instance marking_digester.
#[local] Instance demo_epoch_contracts : Contracts := epoch_contracts (fun _ => None).
#[local] Instance epoch_log : EventLog World := store_log demo_config.
#[local] Instance epoch_log_ok : EventLogOk World := store_log_ok demo_config.

Definition noon (w : World) : string := "2026-01-01T12:00:00Z".
Definition board : string := "https://ctf.example".

Lemma demo_epochs_taken ev : ep_board_identity ev <> "" -> 1 <= ep_epoch ev -> log_accepts (epoch_event ev) "".
Proof. exact (epoch_taken (fun _ => None) demo_config eq_refl ev). Qed.

Lemma fresh_epochs : log_sound (booted empty_files 99) [] /\ epochs_ok [].
Proof.
  split; [exists []; split; [constructor|split; [done|split; [done|split; [constructor|intros name b; done]]]]|].
  split; [intros c Hc; by apply not_elem_of_nil in Hc|done].
Qed.

Definition whole_streams (w : World) : bool :=
  terminated (events_jsonl (files w)) && terminated (reservations_jsonl (files w)).

Lemma whole_streams_undamaged w : whole_streams w = true -> ~ log_damaged w.
Proof. intros [H1 H2]%andb_true_iff [H|H]; congruence. Qed.

(** The first epoch of a Run, and one more. *)
Lemma board_named : board <> "".
Proof. discriminate. Qed.

Definition first_epoch : {op | proper_op op} := exist _ (Ensure board) board_named.
Definition second_epoch : {op | proper_op op} := exist _ (Advance board) board_named.
Definition two_epochs : World :=
  (epoch_do noon (`second_epoch) (epoch_do noon (`first_epoch) (booted empty_files 99)).1).1.

Lemma epochs_count_up_witness :
  exists es n, log_sound two_epochs es /\ current_epoch board es = Ok n /\ 0 <= n.
Proof.
  assert (Hh : epoch_history noon (booted empty_files 99) two_epochs).
  { refine (history_op (fun o : {op | proper_op op} => epoch_do noon (`o)) is_epoch_event (booted empty_files 99)
      (epoch_do noon (`first_epoch) (booted empty_files 99)).1 second_epoch _ _).
    - refine (history_op (fun o : {op | proper_op op} => epoch_do noon (`o)) is_epoch_event (booted empty_files 99)
        (booted empty_files 99) first_epoch (history_start _ _ _) _).
      apply whole_streams_undamaged. vm_compute. reflexivity.
    - apply whole_streams_undamaged. vm_compute. reflexivity. }
  destruct fresh_epochs as [Hs Ho].
  destruct (epochs_count_up noon demo_epochs_taken _ _ _ Hs Ho Hh) as (es & Hw & Hall).
  destruct (Hall board) as (n & Hn & _ & n0 & H0 & Hle). injection H0 as <-. exists es, n. split; [exact Hw|]. split; [exact Hn|exact Hle].
Defined.

(** The call that opens epoch 1 past an effect loses power; the next one returns 1, not 2. *)
Lemma advance_after_once_witness :
  exists w2, advance_after noon board "5eed" 0 (booted (files (advance_after noon board "5eed" 0 (booted empty_files 3)).1) 9)
    = (w2, Done 1).
Proof.
  destruct fresh_epochs as [_ Ho].
  assert (Hs : log_sound (booted empty_files 3) []) by (destruct fresh_epochs as [Hs _]; exact Hs).
  set (w1 := (advance_after noon board "5eed" 0 (booted empty_files 3)).1).
  assert (Hh : retries noon board "5eed" 0 (booted empty_files 3) (booted (files w1) 9)).
  { apply (history_elsewhere _ _ _ ((advance_after noon board "5eed" 0;; mret tt) (booted empty_files 3)).1).
    - refine (history_op (fun _ : unit => advance_after noon board "5eed" 0;; mret tt) is_epoch_event
        (booted empty_files 3) (booted empty_files 3) tt (history_start _ _ _) _).
      apply whole_streams_undamaged. vm_compute. reflexivity.
    - intros es Hes. exists []. rewrite app_nil_r. split; [constructor|].
      assert (Hf : files ((advance_after noon board "5eed" 0;; mret tt) (booted empty_files 3)).1 = files w1)
        by (vm_compute; reflexivity).
      cbn in Hes |- *. rewrite Hf in Hes. exact Hes. }
  destruct (advance_after_once noon demo_epochs_taken board "5eed" 0 _ _ [] board_named eq_refl Hs Ho eq_refl Hh)
    as (es & _ & _ & Hnext).
  destruct (advance_after noon board "5eed" 0 (booted (files w1) 9)) as [w2 o] eqn:E.
  assert (Hd : match o with Done _ => True | _ => False end).
  { change o with (w2, o).2. rewrite <-E. vm_compute. exact I. }
  destruct o as [n|x|]; [|destruct Hd..]. destruct (Hnext w2 n eq_refl) as [-> _]. exists w2. reflexivity.
Defined.

(** ** A submission's row *)

Definition demo_identity : fields := [("submission_epoch", JInt 1); ("effect_id", JStr "5eed")].

Definition ledger_entry (n : Z) (phase verdict : string) : CommittedEvent :=
  let p := ledger_payload {| sl_event_id := phase; sl_phase := phase; sl_request_id := "request-1"; sl_candidate_id := "c-1";
    sl_supplied_value := "flag"; sl_identity := demo_identity; sl_submitted_at := "2026-01-01T12:00:00Z";
    sl_verdict := verdict |} EMPTY_BLOB_DIGEST 0 in
  {| sequence := n; previous_digest := ""; event_digest := ""; event_type := SUBMISSION_LEDGER_RECORDED; payload := p;
     envelope := []; blob_digest := EMPTY_BLOB_DIGEST; blob_bytes := 0; body := "" |}.

Definition bracketed : list CommittedEvent := [ledger_entry 1 "intended" ""; ledger_entry 2 "classified" "correct"].

Lemma verdict_matches_intent_witness :
  exists row, project_submission_row bracketed "5eed" = Ok (Some row)
    /\ (dict_get "status" row = Some (JStr "unsettled") \/ dict_get "status" row = Some (JStr "classified")).
Proof.
  eexists. split; [vm_compute; reflexivity|].
  match goal with |- dict_get _ ?row = _ \/ _ =>
    destruct (verdict_matches_intent bracketed "5eed" row) as [Hs|[Hs _]] end.
  - intros c Hc _. unfold bracketed in Hc. apply elem_of_cons in Hc as [->|Hc%list_elem_of_singleton]; [|subst c]; vm_compute; reflexivity.
  - vm_compute. reflexivity.
  - left. exact Hs.
  - right. exact Hs.
Defined.
