(* ===== verification/Evidence.v ===== *)
(** What a submission is identified by, and what counts as evidence of its verdict.

    [src/solver/submission/ambiguity_types.py] and the probe of
    [src/solver/submission/reconciliation.py].  A broker's answer carries the row it read;
    whatever the transport did is in the arguments of the probe. *)

From S2P Require Import Prelude Canon Text Reservation PyJson EventStore EventContracts SubmissionEpoch.
Local Open Scope Z_scope.

(** ** Identity *)

Record CompleteSubmissionIdentity : Type := {
  ci_board_identity : string;
  ci_challenge_id : Z;
  ci_challenge_revision : string;
  ci_instance_provenance : string;
  ci_candidate_digest : string;
  ci_submission_epoch : Z
}.

(** [__post_init__]. *)
Definition identity_new (i : CompleteSubmissionIdentity) : result CompleteSubmissionIdentity :=
  raise_if
    (py_any (fun s => bool_decide (s = ""))
       [ci_board_identity i; ci_challenge_revision i; ci_instance_provenance i; ci_candidate_digest i]
     || (ci_challenge_id i <? 1) || (ci_submission_epoch i <? 1))
    (ValueError "complete submission identity is incomplete");;
  Ok i.

(** [self.__dict__]. *)
Definition identity_dict (i : CompleteSubmissionIdentity) : fields := [
  ("board_identity", JStr (ci_board_identity i)); ("challenge_id", JInt (ci_challenge_id i));
  ("challenge_revision", JStr (ci_challenge_revision i));
  ("instance_provenance", JStr (ci_instance_provenance i));
  ("candidate_digest", JStr (ci_candidate_digest i)); ("submission_epoch", JInt (ci_submission_epoch i))].

Section identity.
Context `{Digester}.

Definition payload_identity (i : CompleteSubmissionIdentity) : string := digest (JObj (identity_dict i)).

Definition submit_reservation_id (i : CompleteSubmissionIdentity) : string := "serial-submit:" +:+ payload_identity i.

Definition effect_id (i : CompleteSubmissionIdentity) : string :=
  fingerprint {| operation := "board.submit-candidate"; subject := str_int (ci_challenge_id i);
                 payload_digest := payload_identity i |}.

Definition identity_document (i : CompleteSubmissionIdentity) : fields :=
  identity_dict i ++ [("reservation_id", JStr (submit_reservation_id i)); ("effect_id", JStr (effect_id i))].
End identity.

(** ** Evidence *)

Inductive EvidenceKind : Type := SCORE_CHANGE | UNSETTLED | EXACT_CANDIDATE_VERDICT.

Inductive SubmissionVerdict : Type := VERDICT_CORRECT | VERDICT_INCORRECT | VERDICT_REFUSED | VERDICT_PAUSED | VERDICT_RATE_LIMITED.

(** [SubmissionVerdict(value)]. *)
Definition verdict_of (s : string) : option SubmissionVerdict :=
  if bool_decide (s = "correct") then Some VERDICT_CORRECT
  else if bool_decide (s = "incorrect") then Some VERDICT_INCORRECT
  else if bool_decide (s = "refused") then Some VERDICT_REFUSED
  else if bool_decide (s = "paused") then Some VERDICT_PAUSED
  else if bool_decide (s = "rate-limited") then Some VERDICT_RATE_LIMITED
  else None.

Inductive LedgerRowType : Type := ROW_SUBMISSION.

Definition row_type_of (s : string) : option LedgerRowType :=
  if bool_decide (s = "submission") then Some ROW_SUBMISSION else None.

Record AuthenticatedSubmissionEvidence : Type := {
  au_kind : EvidenceKind;
  au_source : string;
  au_verdict : SubmissionVerdict;
  au_candidate_id : string;
  au_request_id : string;
  au_classified_event_id : string;
  au_binding_digest : string;
  au_peer_identity_digest : string;
  au_effect_id : string;
  au_submission_epoch : Z;
  au_supplied_value_digest : string;
  au_board_row_id : string;
  au_row_type : LedgerRowType;
  au_submitted_at : string;
  au_complete_identity : fields
}.

(** What a probe returns: an [Evidence] or an [AuthenticatedSubmissionEvidence]. *)
Inductive evidence : Type :=
  | Evidence (kind : EvidenceKind) (source : string)
  | Authenticated (a : AuthenticatedSubmissionEvidence).

Definition score_change (source : string) : evidence := Evidence SCORE_CHANGE source.
Definition unsettled (source : string) : evidence := Evidence UNSETTLED source.

Definition ev_kind (e : evidence) : EvidenceKind := match e with Evidence k _ => k | Authenticated a => au_kind a end.
Definition ev_source (e : evidence) : string := match e with Evidence _ s => s | Authenticated a => au_source a end.

(** [getattr(evidence, name, default)]. *)
Definition ev_get {A} (f : AuthenticatedSubmissionEvidence -> A) (dflt : A) (e : evidence) : A :=
  match e with Evidence _ _ => dflt | Authenticated a => f a end.

(** A [BoardBrokerResult] of a ledger read: [an_row] is the value or its row when that is a
    mapping. *)
Record BrokerAnswer : Type := {
  an_outcome : string;
  an_row : option fields;
  an_request_id : string;
  an_endpoint : string;
  an_classified_event_id : string;
  an_binding_digest : string;
  an_peer_identity_digest : string
}.

Definition ANSWERED : string := "answered".

Definition evidence_required : list string :=
  ["board_row_id"; "row_type"; "submitted_at"; "request_id"; "verdict"; "candidate_id"; "supplied_value_digest";
   "effect_id"; "submission_epoch"; "complete_identity"].

Definition from_broker (r : BrokerAnswer) : result AuthenticatedSubmissionEvidence :=
  let shape := ValueError "submission ledger row shape is invalid" in
  match an_row r with
  | None => Err shape
  | Some row =>
      raise_unless (same_names row evidence_required) shape;;
      complete ← item "complete_identity" row;
      complete ← match complete with JObj f => Ok f | _ => Err shape end;
      v ← item "verdict" row;
      t ← item "row_type" row;
      match verdict_of (py_str v), row_type_of (py_str t) with
      | Some verdict, Some row_type =>
          request ← item "request_id" row;
          raise_if
            (negb (bool_decide (an_outcome r = ANSWERED)) || bool_decide (an_request_id r = "")
             || negb (py_eqb request (JStr (an_request_id r))) || bool_decide (an_classified_event_id r = "")
             || bool_decide (an_binding_digest r = "") || bool_decide (an_peer_identity_digest r = ""))
            (ValueError "submission ledger evidence is not broker-authenticated");;
          candidate ← item "candidate_id" row;
          effect ← item "effect_id" row;
          epoch ← item "submission_epoch" row;
          epoch ← int_of epoch;
          value ← item "supplied_value_digest" row;
          board_row ← item "board_row_id" row;
          submitted ← item "submitted_at" row;
          Ok {| au_kind := EXACT_CANDIDATE_VERDICT; au_source := an_endpoint r; au_verdict := verdict;
                au_candidate_id := py_str candidate; au_request_id := an_request_id r;
                au_classified_event_id := an_classified_event_id r; au_binding_digest := an_binding_digest r;
                au_peer_identity_digest := an_peer_identity_digest r; au_effect_id := py_str effect;
                au_submission_epoch := epoch; au_supplied_value_digest := py_str value;
                au_board_row_id := py_str board_row; au_row_type := row_type; au_submitted_at := py_str submitted;
                au_complete_identity := complete |}
      | _, _ => Err (ValueError "unsupported submission-ledger value")
      end
  end.

(** [broker_evidence_probe]: whether a client opened, what its ledger read answered ([None]
    when it raised) and whether it closed. *)
Definition broker_evidence_probe (opened : bool) (answer : option BrokerAnswer) (closed : bool) : evidence :=
  if negb opened then unsettled "board-broker:open-failed"
  else if negb closed then unsettled "board-broker:close-failed"
  else
    match answer with
    | None => unsettled "board-broker:read-failed"
    | Some r =>
        if negb (bool_decide (an_outcome r = ANSWERED)) then unsettled ("board-broker:" +:+ an_outcome r)
        else
          match from_broker r with
          | Ok a => Authenticated a
          | Err (TypeError _ | ValueError _) => unsettled "board-broker:unreadable-ledger"
          | Err _ => unsettled "board-broker:read-failed"
          end
    end.
