(* ===== verification/EvidenceFacts.v ===== *)
(** What the broker's ledger read can prove. *)

From S2P Require Import SubmissionFacts Prelude Canon Text PyJson EventStore EventContracts SubmissionEpoch StoreWitness SubmissionWitness Evidence.
Local Open Scope Z_scope.

Lemma dict_set_keeps k k' v (p : fields) : k ∈ p.*1 -> k ∈ (dict_set k' v p).*1.
Proof. intros Hk. rewrite dict_set_keys. case_bool_decide; set_solver. Qed.

Lemma merged_keeps k (q : fields) : forall p, k ∈ p.*1 -> k ∈ (merged p q).*1.
Proof.
  induction q as [|[k' v] q IH]; intros p Hk; [done|]. by apply (IH (dict_set k' v p)), dict_set_keeps.
Qed.

(** Every row the ledger projects carries its status. *)
Lemma projected_status es effect row : project_submission_row es effect = Ok (Some row) -> "status" ∈ row.*1.
Proof.
  unfold project_submission_row. intros Hp. apply bind_ok in Hp as (rows & _ & Hp). destruct rows as [|r0 rs]; [done|].
  apply bind_ok in Hp as ([] & _ & Hp). destruct (List.filter (in_phase "intended") _) as [|i [|]]; [done| |done].
  destruct (List.filter (in_phase "classified") _) as [|c [|]]; [|..|done].
  - injection Hp as <-. apply merged_keeps. by left.
  - apply bind_ok in Hp as (b & _ & Hp). apply bind_ok in Hp as ([] & _ & Hp). apply bind_ok in Hp as (j & _ & Hp).
    apply bind_ok in Hp as (e & _ & Hp). apply bind_ok in Hp as (x & _ & Hp). injection Hp as <-. repeat apply dict_set_keeps. apply merged_keeps. by left.
Qed.

(** C37. The ledger never proves a verdict: whatever the log holds, a probe whose broker answers
    with the row the submission ledger projects (or with none) is unsettled, because that
    row has more fields than the evidence accepts. *)
Theorem ledger_never_proves es effect opened closed answer :
  (forall r, answer = Some r -> project_submission_row es effect = Ok (an_row r)) ->
  exists source, broker_evidence_probe opened answer closed = unsettled source.
Proof.
  intros Hans. unfold broker_evidence_probe. destruct (negb opened); [by eexists|]. destruct (negb closed); [by eexists|].
  destruct answer as [r|]; [|by eexists]. destruct (negb _); [by eexists|]. specialize (Hans r eq_refl). unfold from_broker.
  destruct (an_row r) as [row|]; [|by eexists]. apply projected_status in Hans.
  assert (Hn : same_names row evidence_required = false).
  { apply not_true_is_false. intros [_ Hall]%andb_true_iff. unfold py_all in Hall. rewrite forallb_forall in Hall.
    apply list_elem_of_fmap in Hans as ([k v] & Hk & Hin). cbn in Hk. subst k. apply list_elem_of_In, Hall in Hin.
    apply bool_decide_eq_true in Hin. unfold evidence_required in Hin. cbn in Hin.
    repeat (apply elem_of_cons in Hin as [Hin|Hin]; [discriminate|]). by apply not_elem_of_nil in Hin. }
  rewrite Hn. by eexists.
Qed.

(** ** A ledger read that answers, and proves nothing. *)

Definition answered_row : option fields :=
  match project_submission_row bracketed "5eed" with Ok o => o | Err _ => None end.

Definition ledger_answer : BrokerAnswer := {|
  an_outcome := ANSWERED; an_row := answered_row; an_request_id := "request-1"; an_endpoint := "submission-ledger";
  an_classified_event_id := "e-9"; an_binding_digest := "b"; an_peer_identity_digest := "p" |}.

(** The log holds a correct verdict for the effect; the probe of it is unsettled. *)
Lemma ledger_never_proves_witness : exists source, broker_evidence_probe true (Some ledger_answer) true = unsettled source.
Proof.
  apply (ledger_never_proves bracketed "5eed"). intros r [= <-]. vm_compute. reflexivity.
Defined.
