(* ===== verification/Ambiguity.v ===== *)
(** The fence of possibly-sent submissions.

    [src/solver/submission/ambiguity.py]: one journal per submission effect, kept in the object
    of a reservation of the write authority, from which the fence replays which Candidates
    are spent.  Times are microseconds.  The readings of the two clocks and what the probe
    answers are arguments of the operations; the text of a journal is a parameter
    ([RowText]), because its numbers are floats. *)

From S2P Require Import Prelude Canon Text PyJson Evidence Reservation.
Local Open Scope Z_scope.

Definition seconds (n : Z) : Z := 1000000 * n.

Definition FENCE_SECONDS : Z := seconds 60.
Definition PROBE_OFFSETS : list Z := [seconds 0; seconds 15; seconds 30; seconds 60].
Definition AMBIGUITY_PATH_NEED : Capacity := capacity 12800 1 24.
Definition AMBIGUITY_PATH_OPERATION : string := "submission.ambiguity-path".

Inductive SubmissionDisposition : Type := PENDING | ACCEPTED | REJECTED | REFUSED_AND_SPENT | UNKNOWN_AND_SPENT.

#[export] Instance SubmissionDisposition_eq_dec : EqDecision SubmissionDisposition.
Proof. solve_decision. Defined.

Definition sdisposition_value (d : SubmissionDisposition) : string :=
  match d with
  | PENDING => "pending" | ACCEPTED => "accepted" | REJECTED => "rejected"
  | REFUSED_AND_SPENT => "refused-and-spent" | UNKNOWN_AND_SPENT => "unknown-and-spent"
  end.

Record PendingSubmission : Type := {
  ps_candidate_id : string;
  ps_effect_id : string;
  ps_challenge_id : Z;
  ps_wire_started_at : Z;
  ps_deadline : Z;
  ps_disposition : SubmissionDisposition;
  ps_provenance : string;
  ps_complete_identity : fields
}.

(** ** Rows of a journal *)

Record ProbeRow : Type := {
  pr_at : Z;
  pr_scheduled_offset : Z;
  pr_kind : EvidenceKind;
  pr_source : string;
  pr_authenticated : bool;
  pr_candidate_match : bool;
  pr_verdict : option SubmissionVerdict;
  pr_request_id : string;
  pr_classified_event_id : string;
  pr_binding_digest : string;
  pr_peer_identity_digest : string;
  pr_submission_epoch : Z;
  pr_evidence_effect_id : string;
  pr_supplied_value_digest : string;
  pr_board_row_id : string;
  pr_row_type : option LedgerRowType;
  pr_submitted_at : string;
  pr_evidence_complete_identity : fields
}.

(** What an [AmbiguityEvent] row says beyond its boot, Candidate and effect. *)
Inductive AmbiguityEvent : Type :=
  | WireStarted (wire_started_at deadline : Z) (reservation_id : string) (complete_identity : fields)
      (supplied_value_digest generation_id : string)
  | PossiblySent (challenge_id wire_started_at deadline : Z) (complete_identity : fields)
  | BootReplayed (wall_and_elapsed : option (Z * Z))
  | EvidenceProbe (p : ProbeRow)
  | FenceWasClosed (at_ : Z) (disposition : SubmissionDisposition) (provenance : string)
  | ReconciliationFailed (source : string).

Record row : Type := {
  row_boot_id : string;
  row_candidate_id : string;
  row_effect_id : string;
  row_event : AmbiguityEvent
}.

(** [canonical_bytes(events) + b"\n"] and [json.loads]. *)
Class RowText : Type := {
  rows_text : list row -> string;
  rows_of : string -> result (list row);
  rows_of_text l : rows_of (rows_text l) = Ok l;
  rows_text_some l : rows_text l <> ""
}.

Definition is_wire_started (effect : string) (r : row) : bool :=
  match row_event r with WireStarted _ _ _ _ _ _ => bool_decide (row_effect_id r = effect) | _ => false end.

Definition is_probe (r : row) : bool := match row_event r with EvidenceProbe _ => true | _ => false end.
Definition is_possibly_sent (r : row) : bool := match row_event r with PossiblySent _ _ _ _ => true | _ => false end.

Definition of_candidate (c : string) (r : row) : bool := bool_decide (row_candidate_id r = c).

(** [row.get("at", row.get("elapsed_carried", 0.0))]. *)
Definition row_elapsed (r : row) : Z :=
  match row_event r with
  | EvidenceProbe p => pr_at p
  | FenceWasClosed t _ _ => t
  | BootReplayed (Some (_, carried)) => carried
  | _ => 0
  end.

(** ** Replay *)

Definition state_step (states : list (string * PendingSubmission)) (r : row) :
    result (list (string * PendingSubmission)) :=
  let c := row_candidate_id r in
  match row_event r with
  | PossiblySent ch started dl complete =>
      Ok (dict_set c {| ps_candidate_id := c; ps_effect_id := row_effect_id r; ps_challenge_id := ch;
                        ps_wire_started_at := started; ps_deadline := dl; ps_disposition := PENDING;
                        ps_provenance := ""; ps_complete_identity := complete |} states)
  | FenceWasClosed _ d source =>
      match dict_get c states with
      | None => Err (KeyError c)
      | Some s =>
          Ok (dict_set c {| ps_candidate_id := ps_candidate_id s; ps_effect_id := ps_effect_id s;
                            ps_challenge_id := ps_challenge_id s; ps_wire_started_at := ps_wire_started_at s;
                            ps_deadline := ps_deadline s; ps_disposition := d; ps_provenance := source;
                            ps_complete_identity := ps_complete_identity s |} states)
      end
  | _ => Ok states
  end.

Fixpoint replay (states : list (string * PendingSubmission)) (rows : list row) :
    result (list (string * PendingSubmission)) :=
  match rows with [] => Ok states | r :: rows => states ← state_step states r; replay states rows end.

Definition states_of (rows : list row) : result (list (string * PendingSubmission)) := replay [] rows.

Definition is_pending (s : PendingSubmission) : bool := bool_decide (ps_disposition s = PENDING).

(** [_definitive]. *)
Definition verdict_disposition (v : SubmissionVerdict) : SubmissionDisposition :=
  match v with
  | VERDICT_CORRECT => ACCEPTED
  | VERDICT_INCORRECT => REJECTED
  | VERDICT_REFUSED | VERDICT_PAUSED | VERDICT_RATE_LIMITED => REFUSED_AND_SPENT
  end.

Definition definitive (s : PendingSubmission) (e : evidence) : option SubmissionDisposition :=
  match e with
  | Evidence _ _ => None
  | Authenticated a =>
      let expected := ps_complete_identity s in
      if negb (bool_decide (au_candidate_id a = ps_candidate_id s))
         || negb (bool_decide (au_effect_id a = ps_effect_id s))
         || negb (py_eqb (JInt (au_submission_epoch a)) (get_or "submission_epoch" JNull expected))
         || negb (py_eqb (JStr (au_supplied_value_digest a)) (get_or "candidate_digest" JNull expected))
         || negb (fields_eqb (au_complete_identity a) expected)
         || bool_decide (au_board_row_id a = "") || bool_decide (au_submitted_at a = "")
      then None
      else Some (verdict_disposition (au_verdict a))
  end.

Definition probe_row (s : PendingSubmission) (now offset : Z) (e : evidence) : ProbeRow := {|
  pr_at := now; pr_scheduled_offset := offset; pr_kind := ev_kind e; pr_source := ev_source e;
  pr_authenticated := match e with Authenticated _ => true | Evidence _ _ => false end;
  pr_candidate_match := bool_decide (ev_get au_candidate_id "" e = ps_candidate_id s);
  pr_verdict := ev_get (Some ∘ au_verdict) None e; pr_request_id := ev_get au_request_id "" e;
  pr_classified_event_id := ev_get au_classified_event_id "" e;
  pr_binding_digest := ev_get au_binding_digest "" e;
  pr_peer_identity_digest := ev_get au_peer_identity_digest "" e;
  pr_submission_epoch := ev_get au_submission_epoch 0 e; pr_evidence_effect_id := ev_get au_effect_id "" e;
  pr_supplied_value_digest := ev_get au_supplied_value_digest "" e;
  pr_board_row_id := ev_get au_board_row_id "" e; pr_row_type := ev_get (Some ∘ au_row_type) None e;
  pr_submitted_at := ev_get au_submitted_at "" e;
  pr_evidence_complete_identity := ev_get au_complete_identity [] e |}.

(** ** The authority the fence keeps its journals with *)

(** [pa_object r] is the text of the reservation's first object, empty when the object is
    missing or empty. *)
Class PathAuthority (W : Type) : Type := {
  pa_reservations : W -> list WriteReservation;
  pa_current : string -> W -> option WriteReservation;
  pa_object : WriteReservation -> W -> result string;
  pa_persist : WriteReservation -> string -> Prog W unit;
  pa_reserve : Request -> Prog W WriteReservation;
  pa_start : WriteReservation -> Prog W WriteReservation;
  pa_possibly_sent : WriteReservation -> string -> Prog W WriteReservation;
  pa_refuse_indeterminate : WriteReservation -> string -> Prog W WriteReservation;
  pa_abort : WriteReservation -> string -> Prog W WriteReservation
}.

(** The fence of one boot: the durable world, and the anchors it keeps in memory. *)
Record Fence (W : Type) : Type := { kept_by : W; anchors : list (string * (Z * Z)) }.
Arguments kept_by {W} f.
Arguments anchors {W} f.

Section fence.
Context {W : Type} `{Digester, RowText, PathAuthority W}.
Context (boot_id : string) (on_close : PendingSubmission -> Prog W unit).

Definition on {A} (m : Prog W A) : Prog (Fence W) A := fun f =>
  let '(w, o) := m (kept_by f) in ({| kept_by := w; anchors := anchors f |}, o).

Definition look {A} (g : W -> A) : Prog (Fence W) A := ask (fun f => g (kept_by f)).

Definition set_anchor (c : string) (a : Z * Z) : Prog (Fence W) unit := fun f =>
  ({| kept_by := kept_by f; anchors := dict_set c a (anchors f) |}, Done tt).

Definition path_key (effect : string) : string := "ambiguity-path:" +:+ effect.

Definition is_path (r : WriteReservation) : bool :=
  bool_decide (operation (identity r) = AMBIGUITY_PATH_OPERATION).

(** ** Journals *)

Definition journal_of (text : string) : result (list row) := if bool_decide (text = "") then Ok [] else rows_of text.

Definition journal (r : WriteReservation) (w : W) : result (list row) := text ← pa_object r w; journal_of text.

Fixpoint events_of (rs : list WriteReservation) (w : W) : result (list row) :=
  match rs with
  | [] => Ok []
  | r :: rs =>
      if negb (is_path r) then events_of rs w
      else rows ← journal r w; rest ← events_of rs w; Ok (rows ++ rest)
  end.

Definition events (w : W) : result (list row) := events_of (pa_reservations w) w.

Definition states (w : W) : result (list (string * PendingSubmission)) := rows ← events w; states_of rows.

Definition append (r : row) : Prog (Fence W) unit :=
  reservation ← look (pa_current (path_key (row_effect_id r)));
  match reservation with
  | None => fail (ValueError "ambiguity lifecycle lacks its pre-wire authority")
  | Some reservation =>
      rows ← look (journal reservation);
      rows ← try rows;
      let body := rows_text (rows ++ [r]) in
      if bytes AMBIGUITY_PATH_NEED <? Z.of_nat (String.length body)
      then fail (ValueError "bounded ambiguity lifecycle exceeded its reserved authority")
      else on (pa_persist reservation body)
  end.

Definition row_by (c effect : string) (e : AmbiguityEvent) : row :=
  {| row_boot_id := boot_id; row_candidate_id := c; row_effect_id := effect; row_event := e |}.

(** ** Operations *)

Definition mark_wire (wall : Z) (c : string) (i : CompleteSubmissionIdentity) (supplied_value_digest generation_id : string) :
    Prog (Fence W) unit :=
  let effect := effect_id i in
  reservation ← look (pa_current (path_key effect));
  match reservation with
  | None => fail (ValueError "ambiguity path must be reserved before wire send")
  | Some reservation =>
      reservation ← (if bool_decide (state reservation = RESERVED) then on (pa_start reservation) else mret reservation);
      rows ← look events;
      rows ← try rows;
      if negb (bool_decide (List.filter (is_wire_started effect) rows = [])) then mret tt
      else append (row_by c effect (WireStarted wall (wall + FENCE_SECONDS) (key reservation) (identity_document i)
             supplied_value_digest generation_id))
  end.

Definition path_request (i : CompleteSubmissionIdentity) : Request := {|
  rq_key := path_key (effect_id i);
  rq_identity := {| operation := AMBIGUITY_PATH_OPERATION; subject := effect_id i; payload_digest := payload_identity i |};
  rq_need := AMBIGUITY_PATH_NEED; rq_pool := SHARED; rq_retention := RECORD; rq_floor := None;
  rq_refusal_pool := None; rq_capture_headroom := false; rq_retry_aborted := true; rq_retry_released := false |}.

Definition reserve_path (wall : Z) (c : string) (i : CompleteSubmissionIdentity) (record_wire : bool) : Prog (Fence W) unit :=
  if bool_decide (c = "") then fail (ValueError "ambiguity needs Candidate identity")
  else
    on (pa_reserve (path_request i));;
    rows ← look events;
    rows ← try rows;
    if record_wire && bool_decide (List.filter (is_wire_started (effect_id i)) rows = [])
    then mark_wire wall c i "" "" else mret tt.

Definition begin_ready (budget : option WriteReservation) : bool :=
  match budget with
  | None => false
  | Some b => (bool_decide (state b = STARTED) || bool_decide (state b = POSSIBLY_SENT))
              && bool_decide (need b = AMBIGUITY_PATH_NEED)
  end.

Definition begin (clock : Z) (c : string) (i : CompleteSubmissionIdentity) : Prog (Fence W) PendingSubmission :=
  let effect := effect_id i in
  budget ← look (pa_current (path_key effect));
  try (raise_unless (begin_ready budget) (ValueError "complete ambiguity path was not reserved before the Board effect"));;
  sts ← look states;
  sts ← try sts;
  try (raise_if (dict_has c sts) (FenceClosed "Candidate is already spent"));;
  rows ← look events;
  rows ← try rows;
  match List.filter (is_wire_started effect) rows with
  | [{| row_event := WireStarted started _ _ _ _ _ |}] =>
      let pending := {| ps_candidate_id := c; ps_effect_id := effect; ps_challenge_id := ci_challenge_id i;
        ps_wire_started_at := started; ps_deadline := started + FENCE_SECONDS; ps_disposition := PENDING;
        ps_provenance := ""; ps_complete_identity := identity_document i |} in
      set_anchor c (clock, 0);;
      append (row_by c effect (PossiblySent (ci_challenge_id i) started (started + FENCE_SECONDS) (identity_document i)));;
      mret pending
  | _ => fail (ValueError "submission has no unique durable wire start")
  end.

Definition close_fence (s : PendingSubmission) (d : SubmissionDisposition) (source : string) (at_ : Z) : Prog (Fence W) unit :=
  append (row_by (ps_candidate_id s) (ps_effect_id s) (FenceWasClosed at_ d source));;
  budget ← look (pa_current (path_key (ps_effect_id s)));
  (match budget with
   | Some b =>
       if bool_decide (state b = STARTED) then
         b ← on (pa_possibly_sent b "ambiguity-lifecycle-active");
         on (pa_refuse_indeterminate b (sdisposition_value d));; mret tt
       else if bool_decide (state b = POSSIBLY_SENT) then
         on (pa_refuse_indeterminate b (sdisposition_value d));; mret tt
       else mret tt
   | None => mret tt
   end);;
  on (on_close s).

(** [self._states()[candidate_id]]. *)
Definition state_now (c : string) : Prog (Fence W) PendingSubmission :=
  sts ← look states;
  sts ← try sts;
  match dict_get c sts with Some s => mret s | None => fail (KeyError c) end.

(** [probe n s]: the [n]th probe's answer, [None] when it raises. *)
Context (probe : nat -> PendingSubmission -> option evidence).

Definition probed (n : nat) (s : PendingSubmission) : evidence := default (unsettled "submission-probe:failed") (probe n s).

(** The loop: [todo] more probes are due; [true] when one of them closed the fence. *)
Fixpoint probing (todo attempted : nat) (s : PendingSubmission) (now : Z) : Prog (Fence W) bool :=
  match todo with
  | O => mret false
  | S todo =>
      let e := probed attempted s in
      append (row_by (ps_candidate_id s) (ps_effect_id s)
        (EvidenceProbe (probe_row s now (default 0 (PROBE_OFFSETS !! attempted)) e)));;
      match definitive s e with
      | Some d => close_fence s d (ev_source e) now;; mret true
      | None => probing todo (S attempted) s now
      end
  end.

(** Elapsed time carried over a restart. *)
Definition carried (wall : Z) (s : PendingSubmission) (rows : list row) : Z :=
  let prior := maxZ 0 (row_elapsed <$> rows) in
  let wall_elapsed := wall - ps_wire_started_at s in
  if wall_elapsed <? 0 then FENCE_SECONDS else Z.max prior wall_elapsed.

Definition anchor_of (clock wall : Z) (s : PendingSubmission) (rows : list row) : Prog (Fence W) (Z * Z) :=
  let c := ps_candidate_id s in
  anchor ← ask (fun f => dict_get c (anchors f));
  match anchor with
  | Some a => mret a
  | None =>
      set_anchor c (clock, carried wall s rows);;
      append (row_by c (ps_effect_id s) (BootReplayed (Some (wall, carried wall s rows))));;
      mret (clock, carried wall s rows)
  end.

Definition due (now : Z) : nat := length (List.filter (fun offset => offset <=? now) PROBE_OFFSETS).

(** What [reconcile] does once it knows how much time has passed; [mine] are the Candidate's
    rows as first read. *)
Definition settle (s : PendingSubmission) (mine : list row) (now : Z) : Prog (Fence W) PendingSubmission :=
  let attempted := length (List.filter is_probe mine) in
  closed ← probing (due now - attempted)%nat attempted s now;
  if (closed : bool) then state_now (ps_candidate_id s)
  else if (FENCE_SECONDS <=? now) && (Nat.max attempted (due now) =? length PROBE_OFFSETS)%nat then
    close_fence s UNKNOWN_AND_SPENT "fence-expired" (ps_deadline s);; state_now (ps_candidate_id s)
  else mret s.

Definition elapsed (anchor : Z * Z) (clock_now : Z) : Z := Z.max anchor.2 (anchor.2 + clock_now - anchor.1).

Definition reconcile (clock wall clock_now : Z) (pending : PendingSubmission) : Prog (Fence W) PendingSubmission :=
  let c := ps_candidate_id pending in
  sts ← look states;
  sts ← try sts;
  match dict_get c sts with
  | None => fail (ValueError "Candidate ambiguity does not match canonical replay")
  | Some s =>
      if negb (bool_decide (ps_effect_id s = ps_effect_id pending))
      then fail (ValueError "Candidate ambiguity does not match canonical replay")
      else if negb (is_pending s) then mret s
      else
        rows ← look events;
        rows ← try rows;
        let mine := List.filter (of_candidate (ps_candidate_id s)) rows in
        (if negb (bool_decide (boot_id ∈ row_boot_id <$> mine))
         then append (row_by (ps_candidate_id s) (ps_effect_id s) (BootReplayed None)) else mret tt);;
        anchor ← anchor_of clock wall s rows;
        settle s mine (elapsed anchor clock_now)
  end.

Definition record_reconciliation_failure (pending : PendingSubmission) (source : string) : Prog (Fence W) unit :=
  sts ← look states;
  sts ← try sts;
  match dict_get (ps_candidate_id pending) sts with
  | None => mret tt
  | Some s =>
      if negb (is_pending s) then mret tt
      else append (row_by (ps_candidate_id s) (ps_effect_id s) (ReconciliationFailed source))
  end.

Definition release_unused_path (effect : string) : Prog (Fence W) unit :=
  budget ← look (pa_current (path_key effect));
  match budget with
  | Some b => if bool_decide (state b = RESERVED) then on (pa_abort b "definitive-submit-result");; mret tt else mret tt
  | None => mret tt
  end.

(** ** Questions *)

Definition barrier_open (w : W) : result bool := sts ← states w; Ok (py_any is_pending (dict_values sts)).

Definition pending (w : W) : result (list PendingSubmission) := sts ← states w; Ok (List.filter is_pending (dict_values sts)).

Definition was_possibly_sent (c : string) (w : W) : result bool := sts ← states w; Ok (dict_has c sts).

Definition can_submit (c effect : string) (w : W) : result bool :=
  sts ← states w;
  Ok (negb (dict_has c sts)
      && negb (bool_decide (effect ∈ ps_effect_id <$> dict_values sts))
      && negb (py_any is_pending (dict_values sts))).

Definition closed_effect_at_epoch (epoch : Z) (w : W) : result (option string) :=
  sts ← states w;
  Ok (ps_effect_id <$> last (List.filter
    (fun s => negb (is_pending s) && py_eqb (get_or "submission_epoch" JNull (ps_complete_identity s)) (JInt epoch))
    (dict_values sts))).

Definition post_trace (c : string) (w : W) : result (list string) :=
  rows ← events w;
  Ok ((fun _ => "possibly-sent") <$> List.filter (fun r => of_candidate c r && is_possibly_sent r) rows).

End fence.
