(* ===== verification/AmbiguityLogic.v ===== *)
(** Reasoning about the submission fence: what the write authority promises it, its journals
    as a value, and what its programs leave in them. *)

From S2P Require Import Prelude Canon Text PyJson Evidence Reservation Ambiguity.
Local Open Scope Z_scope.

(** ** What the authority promises *)

(** A path: the reservation of a submission effect's journal and the journal's text. *)
Record Path : Type := { path_reservation : WriteReservation; path_text : string }.

Definition with_text (text : string) (p : Path) : Path := {| path_reservation := path_reservation p; path_text := text |}.

(** The reservation moved on; its journal did not. *)
Definition moved (p p' : Path) : Prop :=
  key (path_reservation p') = key (path_reservation p) /\ path_text p' = path_text p.

Definition path_named (k : string) (p : Path) : bool := bool_decide (key (path_reservation p) = k).

Section promises.
Context {W : Type}.

(** A call that may move the [i]th path on, and returns its reservation. *)
Definition moves (sound : W -> list Path -> Prop) (damaged : W -> Prop) (ps : list Path) (i : nat) (p : Path)
    (ended : W * outcome WriteReservation) : Prop :=
  let changed w := exists p', moved p p' /\ sound w (<[i := p']> ps) in
  match ended with
  | (w, Done r) => exists p', moved p p' /\ r = path_reservation p' /\ sound w (<[i := p']> ps)
  | (w, _) => sound w ps \/ changed w \/ damaged w
  end.

(** [path_sound w ps]: the authority holds exactly the paths [ps], each with an object of its
    own; [path_damaged w]: a path was refused or aborted, or a write was torn. *)
Class PathAuthorityOk `{Digester, PathAuthority W} : Type := {
  path_sound : W -> list Path -> Prop;
  path_damaged : W -> Prop;
  path_sound_reservations w ps :
    path_sound w ps -> List.filter is_path (pa_reservations w) = path_reservation <$> ps;
  path_sound_object w ps p : path_sound w ps -> p ∈ ps -> pa_object (path_reservation p) w = Ok (path_text p);
  path_sound_current w ps effect :
    path_sound w ps -> pa_current (path_key effect) w = path_reservation <$> py_next (path_named (path_key effect)) ps;
  path_sound_keys w ps : path_sound w ps -> NoDup ((fun p => key (path_reservation p)) <$> ps);
  pa_persist_sound w ps i p body :
    path_sound w ps -> ps !! i = Some p -> Z.of_nat (String.length body) <= bytes AMBIGUITY_PATH_NEED ->
    let ps' := <[i := with_text body p]> ps in
    match pa_persist (path_reservation p) body w with
    | (w', Done _) => path_sound w' ps'
    | (w', _) => path_sound w' ps \/ path_sound w' ps' \/ path_damaged w'
    end;
  pa_start_sound w ps i p :
    path_sound w ps -> ps !! i = Some p -> moves path_sound path_damaged ps i p (pa_start (path_reservation p) w);
  pa_possibly_sent_sound w ps i p reason :
    path_sound w ps -> ps !! i = Some p ->
    moves path_sound path_damaged ps i p (pa_possibly_sent (path_reservation p) reason w);
  pa_refuse_sound w ps i p reason :
    path_sound w ps -> ps !! i = Some p ->
    moves path_sound path_damaged ps i p (pa_refuse_indeterminate (path_reservation p) reason w);
  pa_reserve_sound w ps c :
    path_sound w ps ->
    let opened w' := exists p, key (path_reservation p) = path_key (effect_id c) /\ path_text p = ""
                       /\ path_sound w' (ps ++ [p]) in
    match pa_reserve (path_request c) w with
    | (w', Done _) => path_sound w' ps \/ opened w'
    | (w', _) => path_sound w' ps \/ opened w' \/ path_damaged w'
    end;
  pa_abort_sound w ps i p reason :
    path_sound w ps -> ps !! i = Some p ->
    let w' := (pa_abort (path_reservation p) reason w).1 in path_sound w' ps \/ path_damaged w'
}.
End promises.

Arguments PathAuthorityOk W {_ _}.

(** ** Journals *)

(** The journals of a fence: the rows of each effect. *)
Abbreviation Journals := (list (string * list row)).

Definition all_rows (js : Journals) : list row := concat js.*2.

(** [js'] is [js] with [r] written at the end of its effect's journal. *)
Definition written_in (r : row) (js js' : Journals) : Prop :=
  exists l1 rows l2, js = l1 ++ (row_effect_id r, rows) :: l2 /\ js' = l1 ++ (row_effect_id r, rows ++ [r]) :: l2.

Record filed (js : Journals) : Prop := {
  filed_apart : NoDup js.*1;
  filed_own e rows r : (e, rows) ∈ js -> r ∈ rows -> row_effect_id r = e
}.

Lemma concat_rows_cons (e : string) rows (js : Journals) : all_rows ((e, rows) :: js) = rows ++ all_rows js.
Proof. done. Qed.

Lemma all_rows_app js1 js2 : all_rows (js1 ++ js2) = all_rows js1 ++ all_rows js2.
Proof. unfold all_rows. by rewrite fmap_app, concat_app. Qed.

Lemma elem_of_all_rows r js : r ∈ all_rows js <-> exists e rows, (e, rows) ∈ js /\ r ∈ rows.
Proof.
  induction js as [|[e rows] js IH].
  - split; [intros H; by apply not_elem_of_nil in H|intros (e & rows & H & _); by apply not_elem_of_nil in H].
  - rewrite concat_rows_cons, elem_of_app, IH. split.
    + intros [H|(e' & rows' & H & Hr)]; [exists e, rows|exists e', rows']; (split; [set_solver|done]).
    + intros (e' & rows' & Hin & Hr). apply elem_of_cons in Hin as [Heq|H]; [injection Heq as -> ->; by left|]. right. by exists e', rows'.
Qed.

Lemma filed_written r js js' : filed js -> written_in r js js' -> filed js'.
Proof.
  intros [Hn Ho] (l1 & rows & l2 & -> & ->). split.
  - rewrite fmap_app in *. exact Hn.
  - intros e rows' r' Hin Hr. apply elem_of_app in Hin as [Hin|[Heq|Hin]%elem_of_cons]; [|injection Heq as -> ->|].
    + apply (Ho e rows'); [set_solver|done].
    + apply elem_of_app in Hr as [Hr| ->%list_elem_of_singleton]; [|done]. apply (Ho _ rows); [set_solver|done].
    + apply (Ho e rows'); [set_solver|done].
Qed.

(** Rows a test passes over are undisturbed by a row it passes over. *)
Lemma filter_written_out P r js js' :
  written_in r js js' -> P r = false -> List.filter P (all_rows js') = List.filter P (all_rows js).
Proof.
  intros (l1 & rows & l2 & -> & ->) HP. rewrite !all_rows_app, !concat_rows_cons, !List.filter_app. cbn [List.filter]. by rewrite HP, app_nil_r.
Qed.

(** A row that passes comes after those of its own effect. *)
Lemma filter_written_in P r js js' :
  filed js -> written_in r js js' -> P r = true ->
  (forall r', r' ∈ List.filter P (all_rows js) -> row_effect_id r' = row_effect_id r) ->
  List.filter P (all_rows js') = List.filter P (all_rows js) ++ [r].
Proof.
  intros [Hn Ho] (l1 & rows & l2 & -> & ->) HP Hsame.
  assert (Hl2 : List.filter P (all_rows l2) = []).
  { apply elem_of_nil_inv. intros r' Hr'. assert (Hin := Hr'). apply list_elem_of_In, filter_In in Hin as [Hin _].
    apply list_elem_of_In, elem_of_all_rows in Hin as (e & rs & He & Hr).
    assert (row_effect_id r' = e) as He' by (apply (Ho e rs); [set_solver|done]).
    assert (row_effect_id r' = row_effect_id r) as Hs.
    { apply Hsame. rewrite all_rows_app, concat_rows_cons, !List.filter_app. set_solver. }
    rewrite fmap_app, fmap_cons in Hn. apply NoDup_app in Hn as (_ & _ & [Hn _]%NoDup_cons). apply Hn.
    cbn. rewrite <-Hs, He'. apply list_elem_of_fmap. by exists (e, rs). }
  rewrite !all_rows_app, !concat_rows_cons, !List.filter_app, Hl2. cbn [List.filter]. by rewrite HP, !app_nil_r, app_assoc.
Qed.

Lemma all_rows_written r js js' r' : written_in r js js' -> r' ∈ all_rows js' <-> r' ∈ all_rows js \/ r' = r.
Proof.
  intros (l1 & rows & l2 & -> & ->). rewrite !all_rows_app, !concat_rows_cons. set_solver.
Qed.

(** ** Replaying one Candidate *)

(** The rows that decide what a Candidate is. *)
Definition decides (r : row) : bool :=
  match row_event r with PossiblySent _ _ _ _ | FenceWasClosed _ _ _ => true | _ => false end.

Definition story (c : string) (rows : list row) : list row := List.filter (fun r => of_candidate c r && decides r) rows.

(** What [state_step] makes of a Candidate's own rows. *)
Definition cand_step (c : string) (o : option PendingSubmission) (r : row) : result (option PendingSubmission) :=
  states ← state_step (match o with Some s => [(c, s)] | None => [] end) r;
  Ok (dict_get c states).

Fixpoint cand_replay (c : string) (o : option PendingSubmission) (rows : list row) : result (option PendingSubmission) :=
  match rows with [] => Ok o | r :: rows => o ← cand_step c o r; cand_replay c o rows end.

Lemma dict_get_single (c c' : string) (s : PendingSubmission) : dict_get c [(c', s)] = if bool_decide (c' = c) then Some s else None.
Proof. unfold dict_get. cbn. case_bool_decide as E1; case_bool_decide as E2; congruence. Qed.

Lemma cand_step_state r o states :
  dict_get (row_candidate_id r) states = o ->
  match cand_step (row_candidate_id r) o r with
  | Ok o' => exists states', state_step states r = Ok states' /\ dict_get (row_candidate_id r) states' = o'
  | Err e => state_step states r = Err e
  end.
Proof.
  intros Ho. unfold cand_step, state_step. set (c := row_candidate_id r) in *. rewrite Ho.
  assert (Hs : dict_get c (match o with Some s => [(c, s)] | None => [] end) = o).
  { destruct o; [|done]. rewrite dict_get_single. by rewrite bool_decide_true. }
  destruct (row_event r); rewrite ?Hs; try (cbn [mbind result_bind]; exists states; by rewrite Hs).
  - cbn [mbind result_bind]. eexists. split; [reflexivity|]. by rewrite !dict_get_set_eq.
  - destruct o as [s|]; [|done]. cbn [mbind result_bind]. eexists. split; [reflexivity|]. by rewrite !dict_get_set_eq.
Qed.

Lemma state_step_other r states states' c :
  state_step states r = Ok states' -> row_candidate_id r <> c -> dict_get c states' = dict_get c states.
Proof.
  intros Hs Hc. unfold state_step in Hs. destruct (row_event r); inv_ok; try done.
  - by rewrite dict_get_set_ne.
  - destruct (dict_get _ states); inv_ok. by rewrite dict_get_set_ne.
Qed.

Lemma replay_by_candidate rows : forall states,
  (forall c, exists o, cand_replay c (dict_get c states) (List.filter (of_candidate c) rows) = Ok o) ->
  exists states', replay states rows = Ok states'
    /\ forall c, cand_replay c (dict_get c states) (List.filter (of_candidate c) rows) = Ok (dict_get c states').
Proof.
  induction rows as [|r rows IH]; intros states Hc; [by exists states|]. cbn [replay].
  set (c0 := row_candidate_id r).
  assert (Hown : of_candidate c0 r = true) by (by apply bool_decide_eq_true).
  assert (Hother : forall c, c0 <> c -> of_candidate c r = false) by (intros c Hne; by apply bool_decide_eq_false).
  pose proof (cand_step_state r _ states eq_refl) as Hstep. fold c0 in Hstep.
  destruct (Hc c0) as [o0 Ho0]. cbn [List.filter] in Ho0. rewrite Hown in Ho0. cbn in Ho0.
  destruct (cand_step c0 (dict_get c0 states) r) as [o1|] eqn:E1; [|done]. destruct Hstep as (states1 & Hs1 & Hg1).
  rewrite Hs1. cbn [mbind result_bind].
  assert (Hnext : forall c, cand_replay c (dict_get c states) (List.filter (of_candidate c) (r :: rows))
    = cand_replay c (dict_get c states1) (List.filter (of_candidate c) rows)).
  { intros c. cbn [List.filter]. destruct (decide (c0 = c)) as [<-|Hne].
    - rewrite Hown. cbn. by rewrite E1, Hg1.
    - rewrite (Hother c Hne). by rewrite (state_step_other r states states1 c Hs1 Hne). }
  destruct (IH states1) as (states' & Hr & Hget).
  - intros c. destruct (Hc c) as [o Ho]. exists o. by rewrite <-Hnext.
  - exists states'. split; [done|]. intros c. by rewrite Hnext.
Qed.

Lemma cand_step_neutral c o r : row_candidate_id r = c -> decides r = false -> cand_step c o r = Ok o.
Proof.
  intros <- Hd. unfold cand_step, state_step. unfold decides in Hd.
  destruct (row_event r); try done; cbn; destruct o; try done; by rewrite dict_get_single, bool_decide_true.
Qed.

Lemma cand_replay_story c rows : forall o,
  cand_replay c o (List.filter (of_candidate c) rows) = cand_replay c o (story c rows).
Proof.
  induction rows as [|r rows IH]; intros o; [done|]. unfold story in *. cbn [List.filter].
  destruct (of_candidate c r) eqn:Eo; [|apply IH]. destruct (decides r) eqn:Ed; cbn [andb cand_replay].
  - destruct (cand_step c o r); [apply IH|done].
  - apply bool_decide_eq_true in Eo. rewrite (cand_step_neutral c o r Eo Ed). apply IH.
Qed.

(** ** Programs over the paths *)

Lemma path_key_inj e e' : path_key e = path_key e' -> e = e'.
Proof. unfold path_key. intros Hk. by injection Hk. Qed.

Section path_runs.
Context {W : Type} `{DG : Digester, PA : PathAuthority W, RT : RowText} {OK : PathAuthorityOk W}.

(** The texts of the paths are the journals. *)
Definition keeps_rows (ps : list Path) (js : Journals) : Prop :=
  Forall2 (fun p j => key (path_reservation p) = path_key j.1 /\ journal_of (path_text p) = Ok j.2) ps js.

(** From the paths [ps], [m] returns with [Q], or raises or loses power with [E] - or leaves a
    damaged authority. *)
Definition path_runs {A} (ps : list Path) (m : Prog (Fence W) A) (Q : A -> list Path -> Prop)
    (E : list Path -> Prop) : Prop :=
  forall f, path_sound (kept_by f) ps ->
    match m f with
    | (f', Done a) => exists ps', path_sound (kept_by f') ps' /\ Q a ps'
    | (f', _) => (exists ps', path_sound (kept_by f') ps' /\ E ps') \/ path_damaged (kept_by f')
    end.

Lemma path_ret {A} ps (a : A) (Q : A -> list Path -> Prop) E : Q a ps -> path_runs ps (mret a) Q E.
Proof. intros HQ f Hf. by exists ps. Qed.

Lemma path_fail {A} ps e (Q : A -> list Path -> Prop) (E : list Path -> Prop) : E ps -> path_runs ps (fail e) Q E.
Proof. intros HE f Hf. left. by exists ps. Qed.

Lemma path_bind {A B} ps (m : Prog (Fence W) A) (k : A -> Prog (Fence W) B) R Q E :
  path_runs ps m R E -> (forall a ps', R a ps' -> path_runs ps' (k a) Q E) -> path_runs ps (m ≫= k) Q E.
Proof.
  intros Hm Hk f Hf. specialize (Hm f Hf). unfold mbind, Prog_bind.
  destruct (m f) as [f' [a|e|]]; [|done..]. destruct Hm as (ps' & Hf' & HR). by apply (Hk a ps' HR).
Qed.

Lemma path_try {A B} ps (r : result A) (k : A -> Prog (Fence W) B) Q (E : list Path -> Prop) :
  E ps -> (forall a, r = Ok a -> path_runs ps (k a) Q E) -> path_runs ps (try r ≫= k) Q E.
Proof.
  intros HE Hk f Hf. unfold mbind, Prog_bind, try. destruct r as [a|e]; [by apply Hk|]. left. by exists ps.
Qed.

Lemma path_ask {A B} ps (g : Fence W -> A) (k : A -> Prog (Fence W) B) Q E :
  (forall a, path_runs ps (k a) Q E) -> path_runs ps (ask g ≫= k) Q E.
Proof. intros Hk f Hf. unfold mbind, Prog_bind, ask. by apply Hk. Qed.

Lemma path_anchor {B} ps c a (k : unit -> Prog (Fence W) B) Q E :
  path_runs ps (k tt) Q E -> path_runs ps (set_anchor c a ≫= k) Q E.
Proof. intros Hk f Hf. unfold mbind, Prog_bind, set_anchor. by apply Hk. Qed.

Lemma path_conseq {A} ps (m : Prog (Fence W) A) (Q Q' : A -> list Path -> Prop) (E E' : list Path -> Prop) :
  path_runs ps m Q E -> (forall a ps', Q a ps' -> Q' a ps') -> (forall ps', E ps' -> E' ps') -> path_runs ps m Q' E'.
Proof. intros Hm HQ HE f Hf. specialize (Hm f Hf). destruct (m f) as [f' [a|e|]]; naive_solver. Qed.

(** *** Reading *)

Lemma events_filter w rs : events_of rs w = events_of (List.filter is_path rs) w.
Proof.
  induction rs as [|r rs IH]; [done|]. cbn [events_of List.filter]. destruct (is_path r) eqn:E; cbn [negb].
  - cbn [events_of]. rewrite E. cbn [negb]. by rewrite IH.
  - exact IH.
Qed.

Lemma events_sound w ps js : path_sound w ps -> keeps_rows ps js -> events w = Ok (all_rows js).
Proof.
  intros Hs Hj. unfold events. rewrite events_filter, (path_sound_reservations w ps Hs).
  assert (Hpath : forall p, p ∈ ps -> is_path (path_reservation p) = true).
  { intros p Hp. assert (Hin : path_reservation p ∈ List.filter is_path (pa_reservations w)).
    { rewrite (path_sound_reservations w ps Hs). by apply list_elem_of_fmap_2. }
    by apply list_elem_of_In, filter_In in Hin as [_ Hin]. }
  pose proof (path_sound_object w ps) as Hobj. specialize (fun p => Hobj p Hs). clear Hs.
  induction Hj as [|p [e rows] ps js [Hk Hrows] _ IH]; [done|]. cbn [fmap list_fmap events_of].
  rewrite (Hpath p ltac:(by left)). cbn [negb]. unfold journal. rewrite (Hobj p ltac:(by left)). cbn [mbind result_bind].
  cbn [fst snd] in Hrows. rewrite Hrows. cbn [mbind result_bind]. fold (path_reservation <$> ps).
  rewrite IH; [done|intros q Hq; apply Hpath; by right|intros q Hq; apply Hobj; by right].
Qed.

Lemma path_look_events {B} ps js (k : result (list row) -> Prog (Fence W) B) Q E :
  keeps_rows ps js -> path_runs ps (k (Ok (all_rows js))) Q E -> path_runs ps (look events ≫= k) Q E.
Proof.
  intros Hj Hk f Hf. unfold look, mbind, Prog_bind, ask. rewrite (events_sound _ ps js Hf Hj). by apply Hk.
Qed.

Lemma path_look_states {B} ps js (k : result (list (string * PendingSubmission)) -> Prog (Fence W) B) Q E :
  keeps_rows ps js -> path_runs ps (k (states_of (all_rows js))) Q E -> path_runs ps (look states ≫= k) Q E.
Proof.
  intros Hj Hk f Hf. unfold look, mbind, Prog_bind, ask, states. rewrite (events_sound _ ps js Hf Hj). by apply Hk.
Qed.

Lemma path_look_current {B} ps effect (k : option WriteReservation -> Prog (Fence W) B) Q E :
  path_runs ps (k (path_reservation <$> py_next (path_named (path_key effect)) ps)) Q E ->
  path_runs ps (look (pa_current (path_key effect)) ≫= k) Q E.
Proof.
  intros Hk f Hf. unfold look, mbind, Prog_bind, ask. rewrite (path_sound_current _ ps effect Hf). by apply Hk.
Qed.

(** The path an effect's name finds. *)
Lemma path_found ps k p : py_next (path_named k) ps = Some p -> exists i, ps !! i = Some p /\ key (path_reservation p) = k.
Proof.
  intros [Hin Hn]%py_next_Some. apply list_elem_of_lookup in Hin as [i Hi]. exists i. split; [done|]. by apply bool_decide_eq_true in Hn.
Qed.

(** *** Writing *)

Lemma keeps_rows_moved ps js i p p' :
  keeps_rows ps js -> ps !! i = Some p -> moved p p' -> keeps_rows (<[i := p']> ps) js.
Proof.
  intros Hj Hi [Hk Ht]. destruct (Forall2_lookup_l _ _ _ i p Hj Hi) as (j & Hji & Hkj & Hrows).
  rewrite <-(list_insert_id js i j Hji). apply Forall2_insert; [done|]. by rewrite Hk, Ht.
Qed.

(** A call that moves a path on changes no journal. *)
Lemma path_on_moves {B} ps js i p (m : Prog W WriteReservation) (k : WriteReservation -> Prog (Fence W) B) Q (E : list Path -> Prop) :
  keeps_rows ps js -> ps !! i = Some p ->
  (forall w, path_sound w ps -> moves path_sound path_damaged ps i p (m w)) ->
  (forall ps', keeps_rows ps' js -> E ps') ->
  (forall ps' p', keeps_rows ps' js -> ps' !! i = Some p' -> path_runs ps' (k (path_reservation p')) Q E) ->
  path_runs ps (on m ≫= k) Q E.
Proof.
  intros Hj Hi Hm HE Hk f Hf. specialize (Hm _ Hf). unfold mbind, Prog_bind, on. destruct (m (kept_by f)) as [w [r|e|]]; cbn in Hm |- *.
  - destruct Hm as (p' & Hp' & -> & Hs). apply (Hk (<[i := p']> ps) p').
    + by eapply keeps_rows_moved.
    + apply list_lookup_insert_eq. by eapply lookup_lt_Some.
    + done.
  - destruct Hm as [Hs|[(p' & Hp' & Hs)|Hd]]; [left; by eauto| |by right]. left. eexists. split; [exact Hs|]. apply HE. by eapply keeps_rows_moved.
  - destruct Hm as [Hs|[(p' & Hp' & Hs)|Hd]]; [left; by eauto| |by right]. left. eexists. split; [exact Hs|]. apply HE. by eapply keeps_rows_moved.
Qed.

Lemma journal_of_text l : journal_of (rows_text l) = Ok l.
Proof. unfold journal_of. rewrite bool_decide_false by apply rows_text_some. apply rows_of_text. Qed.

Lemma keeps_rows_written ps js i p e rows r :
  keeps_rows ps js -> ps !! i = Some p -> js !! i = Some (e, rows) -> row_effect_id r = e ->
  exists js', written_in r js js' /\ keeps_rows (<[i := with_text (rows_text (rows ++ [r])) p]> ps) js'.
Proof.
  intros Hj Hi Hji He. exists (<[i := (e, rows ++ [r])]> js). split.
  - exists (take i js), rows, (drop (S i) js). rewrite He. split; [by rewrite take_drop_middle|].
    rewrite insert_take_drop by (by eapply lookup_lt_Some). done.
  - destruct (Forall2_lookup_l _ _ _ i p Hj Hi) as (j & Hji' & Hkj & _). rewrite Hji in Hji'. injection Hji' as <-.
    apply Forall2_insert; [done|]. cbn. by rewrite journal_of_text.
Qed.

(** A row is appended to its journal, or the call raises; nothing else changes. *)
Lemma path_append ps js r (Q : unit -> list Path -> Prop) (E : list Path -> Prop) :
  keeps_rows ps js -> E ps ->
  (forall ps' js', written_in r js js' -> keeps_rows ps' js' -> Q tt ps' /\ E ps') ->
  path_runs ps (append r) Q E.
Proof.
  intros Hj HE Hnew. unfold append. apply path_look_current.
  destruct (py_next _ ps) as [p|] eqn:Ep; cbn [fmap option_fmap option_map]; [|by apply path_fail].
  destruct (path_found _ _ _ Ep) as (i & Hi & Hk).
  destruct (Forall2_lookup_l _ _ _ i p Hj Hi) as ([e rows] & Hji & Hkj & Hrows). cbn [fst snd] in *.
  assert (row_effect_id r = e) as He by (apply path_key_inj; congruence).
  intros f Hf. unfold look at 1, mbind at 1, Prog_bind at 1, ask, journal.
  rewrite (path_sound_object _ ps p Hf) by (by eapply list_elem_of_lookup_2). cbn [mbind result_bind]. rewrite Hrows.
  unfold try, mbind, Prog_bind. destruct (_ <? _) eqn:Eb; [left; by exists ps|].
  destruct (keeps_rows_written ps js i p e rows r Hj Hi Hji He) as (js' & Hw & Hk').
  pose proof (pa_persist_sound _ ps i p (rows_text (rows ++ [r])) Hf Hi ltac:(by apply Z.ltb_ge)) as Hp.
  unfold on. destruct (Hnew _ _ Hw Hk') as [HQ HE'].
  destruct (pa_persist _ _ _) as [w [[]|x|]]; cbn in Hp |- *; naive_solver.
Qed.

Lemma keeps_rows_opened ps js p e :
  keeps_rows ps js -> key (path_reservation p) = path_key e -> path_text p = "" -> keeps_rows (ps ++ [p]) (js ++ [(e, [])]).
Proof. intros Hj Hk Ht. apply Forall2_app; [done|]. repeat constructor; [done|]. cbn. by rewrite Ht. Qed.

Lemma keeps_rows_apart w ps js : path_sound w ps -> keeps_rows ps js -> NoDup js.*1.
Proof.
  intros Hs%path_sound_keys Hj. apply (NoDup_fmap_1 path_key).
  replace (path_key <$> js.*1) with ((fun p => key (path_reservation p)) <$> ps); [done|].
  clear Hs. induction Hj as [|p j ps js [Hk _] _ IH]; [done|]. csimpl. by rewrite Hk, IH.
Qed.
End path_runs.
