(* ===== verification/AmbiguityFacts.v ===== *)
(** Invariants of the fence's journals, and what each operation of the fence keeps. *)

From S2P Require Import Prelude Canon Text PyJson Evidence Reservation Ambiguity AmbiguityLogic.
Local Open Scope Z_scope.

(** ** The life of a Candidate *)

(** What a Candidate is: [None] when nothing was sent. *)
Inductive spend_step : option SubmissionDisposition -> option SubmissionDisposition -> Prop :=
  | spend_sent : spend_step None (Some PENDING)
  | spend_settled d : d <> PENDING -> spend_step (Some PENDING) (Some d).

(** The rows that decide a Candidate tell one life: sent once, closed at most once after. *)
Inductive told : list row -> Prop :=
  | told_nothing : told []
  | told_sent r ch started dl complete : row_event r = PossiblySent ch started dl complete -> told [r]
  | told_closed r r' ch started dl complete t d source :
      row_event r = PossiblySent ch started dl complete -> row_event r' = FenceWasClosed t d source -> d <> PENDING ->
      row_effect_id r' = row_effect_id r -> told [r; r'].

Definition standing (rows : list row) : option SubmissionDisposition :=
  match rows with
  | [] => None
  | [_] => Some PENDING
  | _ :: r :: _ => match row_event r with FenceWasClosed _ d _ => Some d | _ => None end
  end.

Definition probes (c : string) (rows : list row) : list row := List.filter (fun r => of_candidate c r && is_probe r) rows.

(** The Candidate's probe that proves its verdict: authenticated, of this very effect and
    complete identity. *)
Definition proven (rows : list row) (c effect : string) (d : SubmissionDisposition) : Prop :=
  exists q p v, q ∈ rows /\ row_candidate_id q = c /\ row_effect_id q = effect /\ row_event q = EvidenceProbe p
    /\ pr_authenticated p = true /\ pr_candidate_match p = true /\ pr_evidence_effect_id p = effect
    /\ pr_verdict p = Some v /\ d = verdict_disposition v
    /\ exists s ch started dl complete, s ∈ rows /\ row_candidate_id s = c /\ row_effect_id s = effect
         /\ row_event s = PossiblySent ch started dl complete
         /\ fields_eqb (pr_evidence_complete_identity p) complete = true.

(** A closed fence expired after all its probes, or has its proof. *)
Definition justified (rows : list row) (r : row) : Prop :=
  match row_event r with
  | FenceWasClosed _ d source =>
      d = UNKNOWN_AND_SPENT /\ source = "fence-expired"
        /\ (length PROBE_OFFSETS <= length (probes (row_candidate_id r) rows))%nat
      \/ proven rows (row_candidate_id r) (row_effect_id r) d
  | _ => True
  end.

Record lawful_journals (js : Journals) : Prop := {
  law_filed : filed js;
  law_told c : told (story c (all_rows js));
  law_probes c : (length (probes c (all_rows js)) <= length PROBE_OFFSETS)%nat;
  law_justified r : r ∈ all_rows js -> justified (all_rows js) r
}.

Definition stands (c : string) (js : Journals) : option SubmissionDisposition := standing (story c (all_rows js)).

(** Every Candidate lives on from where it was. *)
Definition lives_on (js js' : Journals) : Prop := forall c, rtc spend_step (stands c js) (stands c js').

#[export] Instance lives_on_preorder : PreOrder lives_on.
Proof. split; [by intros js c|]. intros js1 js2 js3 H1 H2 c. etrans; [apply H1|apply H2]. Qed.

(** ** Replay *)

Definition shows (c : string) (s : PendingSubmission) (rows : list row) : Prop :=
  exists r, r ∈ rows /\ row_candidate_id r = c /\ row_effect_id r = ps_effect_id s /\ ps_candidate_id s = c
    /\ exists ch, row_event r = PossiblySent ch (ps_wire_started_at s) (ps_deadline s) (ps_complete_identity s).

Lemma elem_of_story c r rows : r ∈ story c rows <-> r ∈ rows /\ row_candidate_id r = c /\ decides r = true.
Proof.
  unfold story, of_candidate. rewrite list_elem_of_In, filter_In, <-list_elem_of_In, andb_true_iff, bool_decide_eq_true. done.
Qed.

Lemma elem_of_probes c r rows : r ∈ probes c rows <-> r ∈ rows /\ row_candidate_id r = c /\ is_probe r = true.
Proof.
  unfold probes, of_candidate. rewrite list_elem_of_In, filter_In, <-list_elem_of_In, andb_true_iff, bool_decide_eq_true. done.
Qed.

Lemma told_replay c rows :
  told (story c rows) ->
  exists o, cand_replay c None (story c rows) = Ok o /\ ps_disposition <$> o = standing (story c rows)
    /\ forall s, o = Some s -> shows c s rows.
Proof.
  intros Ht. pose proof (elem_of_story c) as Hin.
  remember (story c rows) as l eqn:He. destruct Ht as [|r ch st dl ci Hr|r r' ch st dl ci t d src Hr Hr' Hd Heff].
  - exists None. split; [done|]. split; [done|]. intros s [=].
  - assert (Hc : row_candidate_id r = c) by (apply (Hin r rows); rewrite <-He; by left).
    assert (Hrow : r ∈ rows) by (apply (Hin r rows); rewrite <-He; by left).
    eexists. split.
    { cbn. unfold cand_step, state_step. rewrite Hr, Hc. cbn. rewrite bool_decide_true by done. reflexivity. }
    split; [done|]. intros s [= <-]. exists r. split_and!; try done. by exists ch.
  - assert (Hc : row_candidate_id r = c) by (apply (Hin r rows); rewrite <-He; by left).
    assert (Hc' : row_candidate_id r' = c) by (apply (Hin r' rows); rewrite <-He; right; by left).
    assert (Hrow : r ∈ rows) by (apply (Hin r rows); rewrite <-He; by left).
    eexists. split.
    { cbn. unfold cand_step, state_step. rewrite Hr, Hc. cbn. rewrite !bool_decide_true by done. cbn.
      rewrite Hr', Hc'. cbn. rewrite !bool_decide_true by done. cbn. rewrite !bool_decide_true by done. reflexivity. }
    split; [cbn; by rewrite Hr'|]. intros s [= <-]. exists r. split_and!; try done. by exists ch.
Qed.

(** The journals of a lawful fence replay; each Candidate has the state its life tells. *)
Lemma lawful_states js :
  lawful_journals js ->
  exists sts, states_of (all_rows js) = Ok sts
    /\ forall c, ps_disposition <$> dict_get c sts = stands c js /\ forall s, dict_get c sts = Some s -> shows c s (all_rows js).
Proof.
  intros Hl. destruct (replay_by_candidate (all_rows js) []) as (sts & Hs & Hget).
  - intros c. change (dict_get c []) with (@None PendingSubmission). rewrite cand_replay_story.
    destruct (told_replay c _ (law_told js Hl c)) as (o & Ho & _). by exists o.
  - exists sts. split; [done|]. intros c. specialize (Hget c). change (dict_get c []) with (@None PendingSubmission) in Hget.
    rewrite cand_replay_story in Hget. destruct (told_replay c _ (law_told js Hl c)) as (o & Ho & Hd & Hsh).
    rewrite Ho in Hget. injection Hget as ->. done.
Qed.

(** ** Writing a row *)

Lemma proven_mono rows rows' c e d : (forall r, r ∈ rows -> r ∈ rows') -> proven rows c e d -> proven rows' c e d.
Proof.
  intros Hsub (q & p & v & Hq & H1 & H2 & H3 & H4 & H5 & H6 & H7 & H8 & s & ch & st & dl & ci & Hs & Hrest).
  exists q, p, v. split_and!; auto. exists s, ch, st, dl, ci. destruct Hrest. split_and!; auto; tauto.
Qed.

Lemma probes_written c r js js' :
  written_in r js js' ->
  length (probes c (all_rows js')) = (length (probes c (all_rows js)) + if of_candidate c r && is_probe r then 1 else 0)%nat.
Proof.
  intros (l1 & rows & l2 & -> & ->). unfold probes. rewrite !all_rows_app, !concat_rows_cons, !List.filter_app, !length_app.
  cbn [List.filter]. destruct (_ && _); cbn; lia.
Qed.

Lemma justified_mono r0 js js' r : written_in r0 js js' -> justified (all_rows js) r -> justified (all_rows js') r.
Proof.
  intros Hw. unfold justified. destruct (row_event r); try done. intros [(-> & -> & Hn)|Hp]; [left|right].
  - split_and!; [done..|]. rewrite (probes_written _ r0 js js' Hw). lia.
  - eapply proven_mono; [|exact Hp]. intros r1 H1. apply (all_rows_written r0 js js' r1 Hw). by left.
Qed.

(** A row that is lawful to write. *)
Definition may_write (js : Journals) (r : row) : Prop :=
  let c := row_candidate_id r in
  match row_event r with
  | PossiblySent _ _ _ _ => stands c js = None
  | FenceWasClosed _ d source =>
      d <> PENDING /\ stands c js = Some PENDING /\ (forall s, s ∈ story c (all_rows js) -> row_effect_id s = row_effect_id r)
      /\ justified (all_rows js) r
  | EvidenceProbe _ => (length (probes c (all_rows js)) < length PROBE_OFFSETS)%nat
  | _ => True
  end.

Lemma story_other c r js js' :
  written_in r js js' -> decides r = false \/ row_candidate_id r <> c -> story c (all_rows js') = story c (all_rows js).
Proof.
  intros Hw Hor. unfold story. apply (filter_written_out _ r js js' Hw). unfold of_candidate.
  destruct Hor as [-> |Hc]; [apply andb_false_r|]. by rewrite bool_decide_false.
Qed.

Lemma told_standing_none l : told l -> standing l = None -> l = [].
Proof. destruct 1 as [|r ch st dl ci Hr|r r' ch st dl ci t d src Hr Hr' Hd He]; [done|done|]. cbn. by rewrite Hr'. Qed.

Lemma told_standing_pending l :
  told l -> standing l = Some PENDING -> exists r ch st dl ci, l = [r] /\ row_event r = PossiblySent ch st dl ci.
Proof.
  destruct 1 as [|r ch st dl ci Hr|r r' ch st dl ci t d src Hr Hr' Hd He]; [done|by exists r, ch, st, dl, ci|].
  cbn. rewrite Hr'. congruence.
Qed.

(** The life of the row's Candidate after it. *)
Lemma told_written js js' r :
  lawful_journals js -> written_in r js js' -> may_write js r ->
  forall c, told (story c (all_rows js')) /\ rtc spend_step (stands c js) (stands c js').
Proof.
  intros Hl Hw Hm c. pose proof (law_told js Hl c) as Ht. unfold stands in *.
  destruct (decide (decides r = true /\ row_candidate_id r = c)) as [[Hd <-]|Hno].
  2: { rewrite (story_other c r js js' Hw); [by split|]. destruct (decides r); [right|by left]. tauto. }
  assert (Hpass : of_candidate (row_candidate_id r) r && decides r = true).
  { unfold of_candidate. by rewrite bool_decide_true, Hd. }
  unfold may_write, stands in Hm. unfold decides in Hd. destruct (row_event r) eqn:Er; try done.
  - apply (told_standing_none _ Ht) in Hm. unfold story in *.
    rewrite (filter_written_in _ r js js' (law_filed js Hl) Hw Hpass) by (rewrite Hm; intros ? []%not_elem_of_nil).
    rewrite Hm. split; [by eapply told_sent|]. apply rtc_once. constructor.
  - destruct Hm as (Hnp & Hst & Heff & _). destruct (told_standing_pending _ Ht Hst) as (s & ch & st & dl & ci & Hs & Hev).
    unfold story in *. rewrite (filter_written_in _ r js js' (law_filed js Hl) Hw Hpass Heff). rewrite Hs in *.
    split; [eapply told_closed; [done..|]; symmetry; apply Heff; by left|]. cbn. rewrite Er. apply rtc_once. by constructor.
Qed.

Lemma lawful_written js js' r :
  lawful_journals js -> written_in r js js' -> may_write js r -> lawful_journals js' /\ lives_on js js'.
Proof.
  intros Hl Hw Hm. pose proof (told_written js js' r Hl Hw Hm) as Ht. split; [split|].
  - by eapply filed_written; [apply law_filed|].
  - intros c. apply Ht.
  - intros c. rewrite (probes_written c r js js' Hw). pose proof (law_probes js Hl c) as Hp. unfold of_candidate, is_probe.
    unfold may_write in Hm. change (length PROBE_OFFSETS) with 4%nat in *.
    case_bool_decide as Hc; [subst c|cbn; lia]. destruct (row_event r); cbn; lia.
  - intros r' [Hin| ->]%(all_rows_written r js js' r' Hw).
    + by eapply justified_mono; [|apply law_justified].
    + assert (Hj : justified (all_rows js) r).
      { unfold may_write in Hm. unfold justified in *. destruct (row_event r); try done. apply Hm. }
      by eapply justified_mono.
  - intros c. apply Ht.
Qed.

(** ** Operations *)

Section operations.
Context {W : Type} `{DG : Digester, PA : PathAuthority W, RT : RowText} {OK : PathAuthorityOk W}.
Context (boot : string) (on_close : PendingSubmission -> Prog W unit) (probe : nat -> PendingSubmission -> option evidence).

(** What runs when a fence closes leaves the journals alone. *)
Hypothesis on_close_spares : forall s w ps, path_sound w ps ->
  (exists ps', Forall2 moved ps ps' /\ path_sound (on_close s w).1 ps')
  \/ (forall u, (on_close s w).2 <> Done u) /\ path_damaged (on_close s w).1.

(** The journals are lawful and every Candidate lives on from [js0]. *)
Definition good (js0 : Journals) (ps : list Path) : Prop :=
  exists js, keeps_rows ps js /\ lawful_journals js /\ lives_on js0 js.

Lemma good_start ps js : keeps_rows ps js -> lawful_journals js -> good js ps.
Proof. intros Hk Hl. exists js. by split_and!. Qed.

Lemma good_later js0 js ps : lives_on js0 js -> good js ps -> good js0 ps.
Proof. intros H0 (js' & Hk & Hl & H1). exists js'. split_and!; [done|done|by etrans]. Qed.

Lemma runs_write ps js r :
  keeps_rows ps js -> lawful_journals js -> may_write js r ->
  path_runs ps (append r) (fun _ ps' => exists js', written_in r js js' /\ keeps_rows ps' js' /\ lawful_journals js' /\ lives_on js js')
    (good js).
Proof.
  intros Hk Hl Hm. apply (path_append ps js r); [done|by apply good_start|]. intros ps' js' Hw Hk'.
  destruct (lawful_written js js' r Hl Hw Hm) as [Hl' Hlive]. split; exists js'; by split_and!.
Qed.

(** An open fence: the Candidate is pending as [s] says. *)
Definition open_at (s : PendingSubmission) (js : Journals) : Prop :=
  stands (ps_candidate_id s) js = Some PENDING /\ shows (ps_candidate_id s) s (all_rows js).

Lemma open_effect s js r :
  lawful_journals js -> open_at s js -> r ∈ story (ps_candidate_id s) (all_rows js) -> row_effect_id r = ps_effect_id s.
Proof.
  intros Hl [Hst (r0 & Hin & Hc & He & _ & ch & Hev)] Hr.
  destruct (told_standing_pending _ (law_told js Hl _) Hst) as (r1 & ch1 & st1 & dl1 & ci1 & Hs & _).
  assert (H0 : r0 ∈ story (ps_candidate_id s) (all_rows js)) by (apply elem_of_story; unfold decides; by rewrite Hev).
  rewrite Hs in Hr, H0. apply list_elem_of_singleton in Hr as ->, H0 as ->. done.
Qed.

Lemma shows_written c s r js js' : written_in r js js' -> shows c s (all_rows js) -> shows c s (all_rows js').
Proof. intros Hw (r0 & Hin & Hrest). exists r0. split; [|done]. apply (all_rows_written r js js' r0 Hw). by left. Qed.

Lemma open_written s r js js' : written_in r js js' -> decides r = false -> open_at s js -> open_at s js'.
Proof.
  intros Hw Hd [Hst Hsh]. split; [|by eapply shows_written]. unfold stands. rewrite (story_other _ r js js' Hw); [done|by left].
Qed.

(** What [state_now] and the other readers see. *)
Lemma runs_state_now ps js c (Q : PendingSubmission -> list Path -> Prop) (E : list Path -> Prop) :
  keeps_rows ps js -> lawful_journals js -> E ps ->
  (forall s, Some (ps_disposition s) = stands c js -> shows c s (all_rows js) -> Q s ps) ->
  path_runs ps (state_now c) Q E.
Proof.
  intros Hk Hl HE HQ. unfold state_now. apply (path_look_states ps js); [done|].
  destruct (lawful_states js Hl) as (sts & -> & Hget). apply path_try; [done|]. intros ? [= <-].
  destruct (Hget c) as [Hd Hsh]. destruct (dict_get c sts) as [s|]; [|by apply path_fail]. apply path_ret. by apply HQ; [|apply Hsh].
Qed.

Lemma keeps_rows_all_moved ps ps' js : keeps_rows ps js -> Forall2 moved ps ps' -> keeps_rows ps' js.
Proof.
  intros Hk Hm. revert js Hk. induction Hm as [|p p' ps ps' [Hkey Htext] _ IH]; intros js Hk; inversion Hk as [|? j ? js' [H1 H2]]; subst; constructor.
  - by rewrite Hkey, Htext.
  - by apply IH.
Qed.

Lemma runs_on_close ps js s (Q : unit -> list Path -> Prop) (E : list Path -> Prop) :
  keeps_rows ps js -> (forall ps', keeps_rows ps' js -> Q tt ps' /\ E ps') -> path_runs ps (on (on_close s)) Q E.
Proof using on_close_spares.
  intros Hk HQ f Hf. unfold on. pose proof (on_close_spares s _ _ Hf) as Ho.
  destruct (on_close s (kept_by f)) as [w o]. cbn [fst snd] in Ho.
  destruct Ho as [(ps' & Hm & Hs)|[Hno Hd]].
  - destruct (HQ ps' (keeps_rows_all_moved _ _ _ Hk Hm)). destruct o as [[]| |]; cbn; eauto.
  - destruct o as [u| |]; cbn; [by destruct (Hno u)|by right..].
Qed.

Definition closure (s : PendingSubmission) (d : SubmissionDisposition) (source : string) (t : Z) : row :=
  row_by boot (ps_candidate_id s) (ps_effect_id s) (FenceWasClosed t d source).

(** Moving a path on and then running the callback. *)
Lemma runs_path_closes ps js s d (Q : unit -> list Path -> Prop) (E : list Path -> Prop) :
  keeps_rows ps js -> (forall ps', keeps_rows ps' js -> Q tt ps' /\ E ps') ->
  path_runs ps (
    budget ← look (pa_current (path_key (ps_effect_id s)));
    (match budget with
     | Some b =>
         if bool_decide (state b = STARTED) then
           b ← on (pa_possibly_sent b "ambiguity-lifecycle-active");
           on (pa_refuse_indeterminate b (sdisposition_value d));; mret tt
         else if bool_decide (state b = POSSIBLY_SENT) then
           on (pa_refuse_indeterminate b (sdisposition_value d));; mret tt
         else mret tt
     | None => mret tt
     end);;
    on (on_close s)) Q E.
Proof using on_close_spares.
  intros Hk HQ.
  assert (HE : forall ps', keeps_rows ps' js -> E ps') by (intros ps' H'; by apply HQ).
  apply path_look_current. apply (path_bind _ _ _ (fun _ ps' => keeps_rows ps' js)).
  2: { intros _ ps' Hk'. by apply (runs_on_close ps' js). }
  destruct (py_next _ ps) as [p|] eqn:Ep; cbn [fmap option_fmap option_map]; [|by apply path_ret].
  destruct (path_found _ _ _ Ep) as (i & Hi & _). case_bool_decide; [|case_bool_decide; [|by apply path_ret]].
  - apply (path_on_moves ps js i p); [done|done|intros w Hw; by apply pa_possibly_sent_sound|done|]. intros ps1 p1 Hk1 Hi1.
    apply (path_on_moves ps1 js i p1); [done|done|intros w Hw; by apply pa_refuse_sound|done|]. intros ps2 p2 Hk2 _. by apply path_ret.
  - apply (path_on_moves ps js i p); [done|done|intros w Hw; by apply pa_refuse_sound|done|]. intros ps2 p2 Hk2 _. by apply path_ret.
Qed.

Lemma runs_close_fence ps js s d source t :
  keeps_rows ps js -> lawful_journals js -> open_at s js -> d <> PENDING -> justified (all_rows js) (closure s d source t) ->
  path_runs ps (close_fence boot on_close s d source t)
    (fun _ ps' => exists js', keeps_rows ps' js' /\ lawful_journals js' /\ lives_on js js' /\ stands (ps_candidate_id s) js' = Some d)
    (good js).
Proof using on_close_spares.
  intros Hk Hl Ho Hd Hj. unfold close_fence. eapply path_bind.
  - apply (runs_write ps js (closure s d source t)); [done|done|]. split_and!; [done|apply Ho| |done].
    intros r Hr. by eapply open_effect.
  - intros [] ps1 (js1 & Hw & Hk1 & Hl1 & Hlive).
    assert (Hst : stands (ps_candidate_id s) js1 = Some d).
    { destruct Ho as [Hst Hsh]. destruct (told_standing_pending _ (law_told js Hl _) Hst) as (r1 & ch1 & st1 & dl1 & ci1 & Hs & _).
      unfold stands, story in *. rewrite (filter_written_in _ _ js js1 (law_filed js Hl) Hw).
      - by rewrite Hs.
      - unfold of_candidate. by rewrite bool_decide_true.
      - intros r Hr. by eapply (open_effect s js). }
    apply (runs_path_closes ps1 js1); [done|]. intros ps2 Hk2. split; exists js1; by split_and!.
Qed.

(** The evidence that decides is the proof its closure needs. *)
Lemma definitive_proven s e d q js now offset :
  definitive s e = Some d -> q ∈ all_rows js -> row_candidate_id q = ps_candidate_id s -> row_effect_id q = ps_effect_id s ->
  row_event q = EvidenceProbe (probe_row s now offset e) -> shows (ps_candidate_id s) s (all_rows js) ->
  proven (all_rows js) (ps_candidate_id s) (ps_effect_id s) d /\ d <> PENDING.
Proof.
  intros Hd Hq Hqc Hqe Hqv (r & Hr & Hrc & Hre & _ & ch & Hev). unfold definitive in Hd. destruct e as [k src|a]; [done|].
  destruct (_ || _) eqn:Eb; [done|]. injection Hd as <-. bool_to_prop. split; [|by destruct (au_verdict a)].
  exists q. eexists. exists (au_verdict a). split_and!; [done|done|done|exact Hqv|done|cbn; by apply bool_decide_eq_true|done|done|done|].
  exists r, ch. eexists _, _, (ps_complete_identity s). by split_and!.
Qed.

Lemma runs_probing s now : forall todo attempted ps js,
  keeps_rows ps js -> lawful_journals js -> open_at s js ->
  length (probes (ps_candidate_id s) (all_rows js)) = attempted -> (todo + attempted <= length PROBE_OFFSETS)%nat ->
  path_runs ps (probing boot on_close probe todo attempted s now)
    (fun closed ps' => exists js', keeps_rows ps' js' /\ lawful_journals js' /\ lives_on js js'
       /\ if closed then stands (ps_candidate_id s) js' <> Some PENDING
          else open_at s js' /\ length (probes (ps_candidate_id s) (all_rows js')) = (todo + attempted)%nat)
    (good js).
Proof using on_close_spares.
  induction todo as [|todo IH]; intros attempted ps js Hk Hl Ho Hn Hle; cbn [probing].
  { apply path_ret. exists js. by split_and!. }
  set (r := row_by boot (ps_candidate_id s) (ps_effect_id s) _).
  assert (Hmay : may_write js r) by (change (length PROBE_OFFSETS) with 4%nat in *; unfold may_write; cbn in *; lia).
  eapply path_bind; [by apply (runs_write ps js r)|]. intros [] ps1 (js1 & Hw & Hk1 & Hl1 & Hlive).
  assert (Ho1 : open_at s js1) by (eapply open_written; [exact Hw|done|done]).
  assert (Hn1 : length (probes (ps_candidate_id s) (all_rows js1)) = S attempted).
  { rewrite (probes_written _ r js js1 Hw). unfold of_candidate. cbn. rewrite bool_decide_true by done. cbn. lia. }
  assert (Hgood : forall ps', good js1 ps' -> good js ps') by (intros ps'; by apply good_later).
  destruct (definitive s _) as [d|] eqn:Ed.
  - assert (Hin : r ∈ all_rows js1) by (apply (all_rows_written r js js1 r Hw); by right).
    destruct (definitive_proven s _ d r js1 now _ Ed Hin eq_refl eq_refl eq_refl (proj2 Ho1)) as [Hp Hd].
    eapply path_bind; [eapply path_conseq; [apply (runs_close_fence ps1 js1 s d); [done|done|done|done|right; exact Hp]|intros a ps' Hq; exact Hq|done]|].
    intros [] ps2 (js2 & Hk2 & Hl2 & Hlive2 & Hst). apply path_ret. exists js2. split_and!; [done|done|by etrans|congruence].
  - eapply path_conseq; [apply (IH (S attempted) ps1 js1); [done|done|done|done|lia]| |done].
    intros closed ps' (js' & Hk' & Hl' & Hlive' & Hcase). exists js'. split_and!; [done|done|by etrans|].
    destruct closed; [done|]. destruct Hcase as [? ->]. split; [done|lia].
Qed.

Lemma due_bounded now : (due now <= length PROBE_OFFSETS)%nat.
Proof. unfold due. apply filter_length_le. Qed.

Lemma due_all now : FENCE_SECONDS <= now -> due now = length PROBE_OFFSETS.
Proof.
  intros Hn. unfold due, PROBE_OFFSETS, FENCE_SECONDS, seconds in *. cbn [List.filter].
  repeat (rewrite (proj2 (Z.leb_le _ now)) by lia). done.
Qed.

Lemma probes_of_mine c rows : List.filter is_probe (List.filter (of_candidate c) rows) = probes c rows.
Proof.
  unfold probes. induction rows as [|r rows IH]; [done|]. cbn. destruct (of_candidate c r); cbn; [|done]. by rewrite IH.
Qed.

(** [settle] leaves lawful journals; what it returns is what the journals say; past the
    fence's sixty seconds it is closed. *)
Lemma runs_settle ps js s mine now :
  keeps_rows ps js -> lawful_journals js -> open_at s js ->
  length (List.filter is_probe mine) = length (probes (ps_candidate_id s) (all_rows js)) -> ps_disposition s = PENDING ->
  path_runs ps (settle boot on_close probe s mine now)
    (fun s' ps' => exists js', keeps_rows ps' js' /\ lawful_journals js' /\ lives_on js js'
       /\ stands (ps_candidate_id s) js' = Some (ps_disposition s') /\ (FENCE_SECONDS <= now -> ps_disposition s' <> PENDING))
    (good js).
Proof using on_close_spares.
  intros Hk Hl Ho Hn Hp. unfold settle. rewrite Hn. set (attempted := length (probes _ _)).
  pose proof (law_probes js Hl (ps_candidate_id s)) as Hmax. pose proof (due_bounded now) as Hdue.
  assert (Hnow : forall ps1 js1, keeps_rows ps1 js1 -> lawful_journals js1 -> lives_on js js1 ->
    stands (ps_candidate_id s) js1 <> Some PENDING -> path_runs ps1 (state_now (ps_candidate_id s))
    (fun s' ps' => exists js', keeps_rows ps' js' /\ lawful_journals js' /\ lives_on js js'
       /\ stands (ps_candidate_id s) js' = Some (ps_disposition s') /\ (FENCE_SECONDS <= now -> ps_disposition s' <> PENDING)) (good js)).
  { intros ps1 js1 Hk1 Hl1 Hlive Hne. apply (runs_state_now ps1 js1); [done|done|by exists js1|].
    intros s' Hs' _. exists js1. split_and!; [done..|]. intros _ Hs. apply Hne. by rewrite <-Hs', Hs. }
  eapply path_bind; [apply (runs_probing s now _ _ ps js); [done..|fold attempted; lia]|].
  intros closed ps1 (js1 & Hk1 & Hl1 & Hlive & Hcase). destruct closed; [by apply (Hnow ps1 js1)|].
  destruct Hcase as [Ho1 Hn1]. destruct (_ && _) eqn:Eb.
  - apply andb_true_iff in Eb as [Hf%Z.leb_le He%Nat.eqb_eq].
    assert (Hj : justified (all_rows js1) (closure s UNKNOWN_AND_SPENT "fence-expired" (ps_deadline s))).
    { left. split_and!; [done..|]. cbn [row_candidate_id closure row_by]. rewrite Hn1. lia. }
    eapply path_bind; [eapply path_conseq; [by apply (runs_close_fence ps1 js1 s UNKNOWN_AND_SPENT)|intros a ps' Hq; exact Hq|intros ps'; by apply good_later]|].
    intros [] ps2 (js2 & Hk2 & Hl2 & Hlive2 & Hst). apply (Hnow ps2 js2); [done|done|by etrans|congruence].
  - apply path_ret. exists js1. rewrite Hp. split_and!; [done|done|done|apply Ho1|]. intros Hf.
    rewrite (proj2 (Z.leb_le _ _) Hf) in Eb. cbn [andb] in Eb. apply Nat.eqb_neq in Eb. rewrite (due_all now Hf) in Eb. lia.
Qed.

(** A row that decides nothing and is no probe. *)
Definition incidental (r : row) : bool := negb (decides r) && negb (is_probe r).

Lemma incidental_may_write js r : incidental r = true -> may_write js r.
Proof. unfold incidental, decides, is_probe, may_write. by destruct (row_event r). Qed.

(** Writing an incidental row keeps an open fence as it is. *)
Lemma runs_incidental ps js r s :
  keeps_rows ps js -> lawful_journals js -> open_at s js -> incidental r = true ->
  path_runs ps (append r)
    (fun _ ps' => exists js', keeps_rows ps' js' /\ lawful_journals js' /\ lives_on js js' /\ open_at s js'
       /\ length (probes (ps_candidate_id s) (all_rows js')) = length (probes (ps_candidate_id s) (all_rows js)))
    (good js).
Proof.
  intros Hk Hl Ho Hi. eapply path_conseq; [apply (runs_write ps js r); [done|done|by apply incidental_may_write]| |done].
  intros [] ps' (js' & Hw & Hk' & Hl' & Hlive). apply andb_true_iff in Hi as [Hd%negb_true_iff Hp%negb_true_iff].
  exists js'. split_and!; [done|done|done|by eapply open_written|]. rewrite (probes_written _ r js js' Hw), Hp, andb_false_r. lia.
Qed.

Lemma runs_reconcile ps js clock wall now pending :
  keeps_rows ps js -> lawful_journals js ->
  path_runs ps (reconcile boot on_close probe clock wall now pending)
    (fun s' ps' => exists js', keeps_rows ps' js' /\ lawful_journals js' /\ lives_on js js'
       /\ stands (ps_candidate_id pending) js' = Some (ps_disposition s'))
    (good js).
Proof using on_close_spares.
  intros Hk Hl. assert (Hgood := good_start ps js Hk Hl). unfold reconcile. apply (path_look_states ps js); [done|].
  destruct (lawful_states js Hl) as (sts & -> & Hget). apply path_try; [done|]. intros ? [= <-].
  destruct (Hget (ps_candidate_id pending)) as [Hd Hsh]. destruct (dict_get _ sts) as [s|]; [|by apply path_fail].
  specialize (Hsh s eq_refl). cbn in Hd. destruct (negb _); [by apply path_fail|]. unfold is_pending. case_bool_decide as Hp; cbn [negb].
  2: { apply path_ret. exists js. by split_and!. }
  assert (Hc : ps_candidate_id s = ps_candidate_id pending) by (by destruct Hsh as (r & _ & _ & _ & ? & _)).
  assert (Ho : open_at s js) by (split; rewrite Hc; [by rewrite <-Hd, Hp|done]).
  apply (path_look_events ps js); [done|]. apply path_try; [done|]. intros ? [= <-].
  eapply (path_bind _ _ _ (fun _ ps' => exists js', keeps_rows ps' js' /\ lawful_journals js' /\ lives_on js js' /\ open_at s js'
    /\ length (probes (ps_candidate_id s) (all_rows js')) = length (probes (ps_candidate_id s) (all_rows js)))).
  { destruct (negb _); [by apply runs_incidental|]. apply path_ret. exists js. by split_and!. }
  intros [] ps1 (js1 & Hk1 & Hl1 & Hlive1 & Ho1 & Hn1). unfold anchor_of.
  eapply (path_bind _ _ _ (fun _ ps' => exists js', keeps_rows ps' js' /\ lawful_journals js' /\ lives_on js js' /\ open_at s js'
    /\ length (probes (ps_candidate_id s) (all_rows js')) = length (probes (ps_candidate_id s) (all_rows js)))).
  { apply path_ask. intros [a|]; [apply path_ret; exists js1; by split_and!|]. apply path_anchor.
    eapply path_bind; [eapply path_conseq; [by apply (runs_incidental ps1 js1 _ s)|intros a ps' Hq; exact Hq|intros ps'; by apply good_later]|].
    intros [] ps2 (js2 & Hk2 & Hl2 & Hlive2 & Ho2 & Hn2). apply path_ret. exists js2. split_and!; [done|done|by etrans|done|congruence]. }
  intros a ps2 (js2 & Hk2 & Hl2 & Hlive2 & Ho2 & Hn2). eapply path_conseq; [apply (runs_settle ps2 js2 s)|..]; try done.
  - by rewrite probes_of_mine, Hn2.
  - intros s' ps' (js' & Hk' & Hl' & Hlive' & Hst & _). exists js'. rewrite <-Hc. split_and!; [done|done|by etrans|done].
  - intros ps'. by apply good_later.
Qed.

Lemma runs_mark_wire ps js wall c i v g :
  keeps_rows ps js -> lawful_journals js -> path_runs ps (mark_wire boot wall c i v g) (fun _ => good js) (good js).
Proof.
  intros Hk Hl. assert (Hgood : forall ps', keeps_rows ps' js -> good js ps') by (intros; by apply good_start).
  unfold mark_wire. apply path_look_current.
  destruct (py_next _ ps) as [p|] eqn:Ep; cbn [fmap option_fmap option_map]; [|by apply path_fail; auto].
  destruct (path_found _ _ _ Ep) as (k & Hi & _).
  assert (Hrest : forall r ps', keeps_rows ps' js -> path_runs ps' (
    rows ← look events; rows ← try rows;
    if negb (bool_decide (List.filter (is_wire_started (effect_id i)) rows = [])) then mret tt
    else append (row_by boot c (effect_id i) (WireStarted wall (wall + FENCE_SECONDS) (key r) (identity_document i) v g)))
    (fun _ => good js) (good js)).
  { intros r ps' Hk'. apply (path_look_events ps' js); [done|]. apply path_try; [by auto|]. intros rows _.
    destruct (negb _); [apply path_ret; auto|]. eapply path_conseq; [by apply (runs_write ps' js)| |done].
    intros [] ps2 (js2 & _ & ? & ? & ?). by exists js2. }
  case_bool_decide.
  - apply (path_on_moves ps js k p); [done|done|intros w Hw; by apply pa_start_sound|done|]. intros ps1 p1 Hk1 _. by apply Hrest.
  - by apply (Hrest (path_reservation p)).
Qed.

Lemma lawful_opened js e : lawful_journals js -> NoDup (js ++ [(e, [])]).*1 -> lawful_journals (js ++ [(e, [])]) /\ lives_on js (js ++ [(e, [])]).
Proof.
  intros Hl Hn. assert (Hr : all_rows (js ++ [(e, [])]) = all_rows js) by (by rewrite all_rows_app, app_nil_r).
  split; [split|].
  - split; [done|]. intros e' rows r [Hin|Hin%list_elem_of_singleton]%elem_of_app Hrow; [by eapply (filed_own js (law_filed js Hl))|].
    injection Hin as -> ->. by apply not_elem_of_nil in Hrow.
  - rewrite Hr. apply Hl.
  - rewrite Hr. apply Hl.
  - rewrite Hr. apply Hl.
  - intros c. unfold stands. by rewrite Hr.
Qed.

Lemma runs_reserve_path ps js wall c i record_wire :
  keeps_rows ps js -> lawful_journals js -> path_runs ps (reserve_path boot wall c i record_wire) (fun _ => good js) (good js).
Proof.
  intros Hk Hl. assert (Hgood := good_start ps js Hk Hl). unfold reserve_path. case_bool_decide; [by apply path_fail|].
  apply (path_bind _ _ _ (fun _ => good js)).
  - intros f Hf. unfold on. pose proof (pa_reserve_sound _ ps i Hf) as Hr. cbv zeta in Hr.
    assert (Hopen : forall w, (exists p, key (path_reservation p) = path_key (effect_id i) /\ path_text p = "" /\ path_sound w (ps ++ [p])) ->
      exists ps', path_sound w ps' /\ good js ps').
    { intros w (p & Hkey & Ht & Hs). exists (ps ++ [p]). split; [done|]. pose proof (keeps_rows_opened ps js p _ Hk Hkey Ht) as Hk'.
      destruct (lawful_opened js (effect_id i) Hl) as [Hl' Hlive]; [by eapply keeps_rows_apart|]. by exists (js ++ [(effect_id i, [])]). }
    destruct (pa_reserve _ _) as [w [r|e|]]; cbn; [destruct Hr as [Hr|Hr]|destruct Hr as [Hr|[Hr|Hr]]..]; eauto.
  - intros r ps1 (js1 & Hk1 & Hl1 & Hlive). apply (path_look_events ps1 js1); [done|].
    assert (Hg1 : good js ps1) by (by exists js1). apply path_try; [done|]. intros rows _.
    destruct (_ && _); [|by apply path_ret].
    eapply path_conseq; [by apply (runs_mark_wire ps1 js1)|intros ? ps'; by apply good_later|intros ps'; by apply good_later].
Qed.

Lemma runs_begin ps js clock c i :
  keeps_rows ps js -> lawful_journals js ->
  path_runs ps (begin boot clock c i)
    (fun s ps' => exists js', keeps_rows ps' js' /\ lawful_journals js' /\ lives_on js js'
       /\ stands c js = None /\ stands c js' = Some PENDING /\ ps_candidate_id s = c /\ shows c s (all_rows js'))
    (good js).
Proof.
  intros Hk Hl. assert (Hgood := good_start ps js Hk Hl). unfold begin. apply path_look_current. apply path_try; [done|]. intros _ _.
  apply (path_look_states ps js); [done|]. destruct (lawful_states js Hl) as (sts & -> & Hget).
  apply path_try; [done|]. intros ? [= <-]. apply path_try; [done|]. intros ? Hnew%raise_if_ok.
  assert (Hnone : stands c js = None).
  { destruct (Hget c) as [<- _]. unfold dict_has in Hnew. apply bool_decide_eq_false in Hnew. by rewrite (proj2 (eq_None_not_Some _) Hnew). }
  apply (path_look_events ps js); [done|]. apply path_try; [done|]. intros rows _.
  destruct (List.filter _ rows) as [|[b cc ee [started dl rid ci v g| | | | |]] [|]]; try (by apply path_fail).
  apply path_anchor. eapply path_bind; [by apply (runs_write ps js)|].
  intros [] ps' (js' & Hw & Hk' & Hl' & Hlive). apply path_ret.
  exists js'. split_and!; [done|done|done|done| |done|].
  - unfold stands, story. rewrite (filter_written_in _ _ js js' (law_filed js Hl) Hw).
    + pose proof (told_standing_none _ (law_told js Hl c) Hnone) as Hs. unfold story in Hs. by rewrite Hs.
    + unfold of_candidate. cbn. by rewrite bool_decide_true.
    + pose proof (told_standing_none _ (law_told js Hl c) Hnone) as Hs. unfold story in Hs. rewrite Hs. intros ? []%not_elem_of_nil.
  - eexists. split; [apply (all_rows_written _ js js' _ Hw); right; reflexivity|]. split_and!; try done. by exists (ci_challenge_id i).
Qed.

Lemma runs_failure ps js pending source :
  keeps_rows ps js -> lawful_journals js ->
  path_runs ps (record_reconciliation_failure boot pending source) (fun _ => good js) (good js).
Proof.
  intros Hk Hl. assert (Hgood := good_start ps js Hk Hl). unfold record_reconciliation_failure. apply (path_look_states ps js); [done|].
  destruct (lawful_states js Hl) as (sts & -> & Hget). apply path_try; [done|]. intros ? [= <-].
  destruct (dict_get _ sts) as [s|]; [|by apply path_ret]. destruct (negb _); [by apply path_ret|].
  eapply path_conseq; [by apply (runs_write ps js)| |done]. intros [] ps' (js' & _ & ? & ? & ?). by exists js'.
Qed.

End operations.
