(* ===== verification/AmbiguityTheorems.v ===== *)
(** What the fence of possibly-sent submissions promises. *)

From S2P Require Import Prelude Canon Text PyJson Evidence Reservation Ambiguity AmbiguityLogic AmbiguityFacts.
Local Open Scope Z_scope.

Section theorems.
Context {W : Type} `{DG : Digester, PA : PathAuthority W, RT : RowText} {OK : PathAuthorityOk W}.
Context (on_close : PendingSubmission -> Prog W unit).
Hypothesis on_close_spares : forall s w ps, path_sound w ps ->
  (exists ps', Forall2 moved ps ps' /\ path_sound (on_close s w).1 ps')
  \/ (forall u, (on_close s w).2 <> Done u) /\ path_damaged (on_close s w).1.

(** ** Histories *)

Inductive fence_op : Type :=
  | OpReserve (wall : Z) (c : string) (i : CompleteSubmissionIdentity) (record_wire : bool)
  | OpMark (wall : Z) (c : string) (i : CompleteSubmissionIdentity) (supplied_value_digest generation_id : string)
  | OpBegin (clock : Z) (c : string) (i : CompleteSubmissionIdentity)
  | OpReconcile (clock wall now : Z) (pending : PendingSubmission) (probe : nat -> PendingSubmission -> option evidence)
  | OpFailure (pending : PendingSubmission) (source : string)
  | OpRelease (effect : string).

Definition fence_do (boot : string) (op : fence_op) : Prog (Fence W) unit :=
  match op with
  | OpReserve wall c i record_wire => reserve_path boot wall c i record_wire
  | OpMark wall c i v g => mark_wire boot wall c i v g
  | OpBegin clock c i => begin boot clock c i;; mret tt
  | OpReconcile clock wall now p probe => reconcile boot on_close probe clock wall now p;; mret tt
  | OpFailure p source => record_reconciliation_failure boot p source
  | OpRelease effect => release_unused_path effect
  end.

(** Between operations other components use the authority and the process is started again:
    reservations move on, journals stay; what the fence had in memory is anything. *)
Definition elsewhere_moved (f f' : Fence W) : Prop :=
  forall ps, path_sound (kept_by f) ps -> exists ps', Forall2 moved ps ps' /\ path_sound (kept_by f') ps'.

(** Operations of any boots that return, raise or lose power, up to the first that refuses or aborts
    a path or tears a write ([path_damaged]). *)
Inductive fence_history_of (f : Fence W) : Fence W -> Prop :=
  | fence_starts : fence_history_of f f
  | fence_operates f1 boot op :
      fence_history_of f f1 -> ~ path_damaged (kept_by (fence_do boot op f1).1) -> fence_history_of f (fence_do boot op f1).1
  | fence_elsewhere f1 f2 : fence_history_of f f1 -> elsewhere_moved f1 f2 -> fence_history_of f f2.

(** The fence's paths hold the journals [js], and those are lawful; a fresh authority's are. *)
Definition fence_sound (f : Fence W) (js : Journals) : Prop :=
  (exists ps, path_sound (kept_by f) ps /\ keeps_rows ps js) /\ lawful_journals js.

Lemma path_drop {A} ps js (m : Prog (Fence W) A) Q :
  path_runs ps m Q (good js) -> (forall a ps', Q a ps' -> good js ps') -> path_runs ps (m;; mret tt) (fun _ => good js) (good js).
Proof. intros Hm HQ. eapply path_bind; [exact Hm|]. intros a ps' Ha. apply path_ret. by eapply HQ. Qed.

Definition releases (op : fence_op) : Prop := match op with OpRelease _ => True | _ => False end.

#[local] Instance releases_dec op : Decision (releases op).
Proof. destruct op; cbn; apply _. Defined.

Lemma runs_fence_do boot op ps js :
  ~ releases op -> keeps_rows ps js -> lawful_journals js -> path_runs ps (fence_do boot op) (fun _ => good js) (good js).
Proof using on_close_spares.
  intros Hop Hk Hl. destruct op; cbn [fence_do].
  - by apply runs_reserve_path.
  - by apply runs_mark_wire.
  - eapply path_drop; [by apply runs_begin|]. intros s ps' (js' & ? & ? & ? & _). by exists js'.
  - eapply path_drop; [by apply runs_reconcile|]. intros s ps' (js' & ? & ? & ? & _). by exists js'.
  - by apply runs_failure.
  - by destruct Hop.
Qed.

(** A release that leaves the authority undamaged released nothing. *)
Lemma release_keeps effect f ps :
  path_sound (kept_by f) ps -> let f' := (release_unused_path effect f).1 in path_sound (kept_by f') ps \/ path_damaged (kept_by f').
Proof.
  intros Hs. cbv zeta. destruct (release_unused_path effect f) as [f' o] eqn:E. revert E. cbn [fst].
  unfold release_unused_path, look, ask, mbind at 1, Prog_bind at 1. rewrite (path_sound_current _ _ effect Hs).
  destruct (py_next _ ps) as [p|] eqn:Ep; [|intros [= <- _]; by left]. cbn [fmap option_fmap option_map].
  case_bool_decide; [|intros [= <- _]; by left].
  apply py_next_Some in Ep as [Hp _]. apply list_elem_of_lookup in Hp as [i Hi].
  pose proof (pa_abort_sound (kept_by f) ps i p "definitive-submit-result" Hs Hi) as Ha. cbv zeta in Ha.
  unfold mbind, Prog_bind, on. destruct (pa_abort _ _ (kept_by f)) as [w' [r|e|]]; intros [= <- _]; exact Ha.
Qed.

Lemma runs_any boot op ps js f :
  keeps_rows ps js -> lawful_journals js -> path_sound (kept_by f) ps -> ~ path_damaged (kept_by (fence_do boot op f).1) ->
  exists ps', path_sound (kept_by (fence_do boot op f).1) ps' /\ good js ps'.
Proof using on_close_spares.
  intros Hk Hl Hs Hd. destruct (decide (releases op)) as [Hop|Hop].
  - destruct op; try done. destruct (release_keeps effect f ps Hs) as [Hs'|]; [|done]. exists ps. split; [done|]. by exists js.
  - pose proof (runs_fence_do boot op ps js Hop Hk Hl f Hs) as Hr.
    destruct (fence_do boot op f) as [f2 [u|e|]]; cbn in *; [done|by destruct Hr..].
Qed.

Lemma history_sound f f' js :
  fence_sound f js -> fence_history_of f f' -> exists js', fence_sound f' js' /\ lives_on js js'.
Proof using on_close_spares.
  intros Hs Hh. induction Hh as [|f1 boot op _ (js1 & [(ps1 & Hs1 & Hk1) Hl1] & Hlive) Hd|f1 f2 _ (js1 & [(ps1 & Hs1 & Hk1) Hl1] & Hlive) He].
  - by exists js.
  - destruct (runs_any boot op ps1 js1 f1 Hk1 Hl1 Hs1 Hd) as (ps2 & Hs2 & js2 & Hk2 & Hl2 & Hlive2). exists js2. split; [split; [by exists ps2|done]|by etrans].
  - destruct (He ps1 Hs1) as (ps2 & Hm & Hs2). exists js1. split; [|done]. split; [|done]. exists ps2. split; [done|].
    by eapply keeps_rows_all_moved.
Qed.

Lemma fence_events f js : fence_sound f js -> events (kept_by f) = Ok (all_rows js).
Proof. intros [(ps & Hs & Hk) _]. by eapply events_sound. Qed.

Lemma fence_states f js :
  fence_sound f js -> exists sts, states (kept_by f) = Ok sts /\ forall c, ps_disposition <$> dict_get c sts = stands c js.
Proof.
  intros Hs. destruct (lawful_states js (proj2 Hs)) as (sts & Hsts & Hget). exists sts. unfold states.
  rewrite (fence_events f js Hs). cbn [mbind result_bind]. split; [done|]. intros c. apply Hget.
Qed.

(** C13. A Candidate is spent once: along every history of the fence in which no ambiguity path is
    refused or aborted and no write torn - operations that return, raise or lose power, restarts,
    and other uses of the authority between them - the journals replay, and each Candidate moves
    only from unsent to pending and from pending to one final disposition, which never changes
    again. *)
Theorem spends_once f f' js :
  fence_sound f js -> fence_history_of f f' ->
  exists sts sts', states (kept_by f) = Ok sts /\ states (kept_by f') = Ok sts'
    /\ forall c, rtc spend_step (ps_disposition <$> dict_get c sts) (ps_disposition <$> dict_get c sts').
Proof using on_close_spares.
  intros Hs Hh. destruct (history_sound f f' js Hs Hh) as (js' & Hs' & Hlive).
  destruct (fence_states f js Hs) as (sts & Hst & Hd), (fence_states f' js' Hs') as (sts' & Hst' & Hd').
  exists sts, sts'. split_and!; [done|done|]. intros c. rewrite Hd, Hd'. apply Hlive.
Qed.

(** C14. No closure without reason: along every such history at most one [possibly-sent] row and at
    most four probes of a Candidate are on record, and every closure in the journals either
    expired after four recorded probes, or follows a recorded probe that was authenticated,
    names this Candidate, this effect and the complete identity that was sent, and whose
    verdict gives the disposition. *)
Theorem closures_justified f f' js :
  fence_sound f js -> fence_history_of f f' ->
  exists rows, events (kept_by f') = Ok rows /\ (forall r, r ∈ rows -> justified rows r)
    /\ forall c, (length (probes c rows) <= length PROBE_OFFSETS)%nat
         /\ exists trace, post_trace c (kept_by f') = Ok trace /\ (length trace <= 1)%nat.
Proof using on_close_spares.
  intros Hs Hh. destruct (history_sound f f' js Hs Hh) as (js' & Hs' & _). pose proof (proj2 Hs') as Hl.
  exists (all_rows js'). split; [by apply fence_events|]. split; [apply Hl|]. intros c. split; [apply Hl|].
  unfold post_trace. rewrite (fence_events f' js' Hs'). cbn [mbind result_bind]. eexists. split; [reflexivity|]. rewrite length_fmap.
  assert (Hsub : forall l, List.filter (fun r => of_candidate c r && is_possibly_sent r) l = List.filter is_possibly_sent (story c l)).
  { induction l as [|r l IH]; [done|]. unfold story in *. cbn. unfold decides, is_possibly_sent in *.
    destruct (of_candidate c r); cbn; [|done]. destruct (row_event r) eqn:E; cbn; rewrite ?E, ?IH; done. }
  rewrite Hsub. destruct (law_told js' Hl c) as [|r ch st dl ci Hr|r r' ch st dl ci t d src Hr Hr' Hd He]; cbn; unfold is_possibly_sent.
  - lia.
  - rewrite Hr. cbn. lia.
  - rewrite Hr, Hr'. cbn. lia.
Qed.

(** Beginning spends: when [begin] returns, the Candidate was unsent before; now it is
    pending, the barrier is up and no Candidate can be submitted.  Of a Candidate that was
    ever sent it raises and changes nothing. *)
Theorem begin_spends boot clock c i f js :
  fence_sound f js ->
  (was_possibly_sent c (kept_by f) = Ok true -> exists e, begin boot clock c i f = (f, Raised e))
  /\ forall f' s, begin boot clock c i f = (f', Done s) ->
       was_possibly_sent c (kept_by f) = Ok false /\ was_possibly_sent c (kept_by f') = Ok true
       /\ barrier_open (kept_by f') = Ok true /\ forall c' effect, can_submit c' effect (kept_by f') = Ok false.
Proof.
  intros Hs. destruct (fence_states f js Hs) as (sts & Hsts & Hd). split.
  - unfold was_possibly_sent. rewrite Hsts. cbn [mbind result_bind]. intros [= Hhas]. unfold begin.
    unfold look, mbind, Prog_bind, ask. destruct (begin_ready _); cbn; [|by eexists]. rewrite Hsts. cbn. rewrite Hhas. cbn. by eexists.
  - intros f' s Hb. destruct Hs as [(ps & Hps & Hk) Hl]. pose proof (runs_begin boot ps js clock c i Hk Hl f Hps) as Hr. rewrite Hb in Hr.
    destruct Hr as (ps' & Hps' & js' & Hk' & Hl' & Hlive & Hbefore & Hafter & Hc & Hsh).
    assert (Hs' : fence_sound f' js') by (split; [by exists ps'|done]).
    destruct (fence_states f' js' Hs') as (sts' & Hsts' & Hd').
    assert (Hin : exists s', dict_get c sts' = Some s' /\ ps_disposition s' = PENDING).
    { specialize (Hd' c). rewrite Hafter in Hd'. destruct (dict_get c sts') as [s'|]; [|done]. exists s'. split; [done|]. by injection Hd'. }
    destruct Hin as (s' & Hs1 & Hpend).
    assert (Hany : py_any is_pending (dict_values sts') = true).
    { unfold py_any. apply existsb_exists. exists s'. split; [|by apply bool_decide_eq_true].
      apply list_elem_of_In, list_elem_of_fmap. exists (c, s'). split; [done|]. by apply dict_get_Some_elem. }
    unfold was_possibly_sent, barrier_open, can_submit. rewrite Hsts, Hsts'. cbn [mbind result_bind]. split_and!.
    + unfold dict_has. specialize (Hd c). rewrite Hbefore in Hd. by destruct (dict_get c sts).
    + unfold dict_has. by rewrite Hs1.
    + by rewrite Hany.
    + intros c' effect. by rewrite Hany, andb_false_r.
Qed.

Lemma append_anchors r f : anchors (append r f).1 = anchors f.
Proof.
  unfold append, look, mbind, Prog_bind, ask. destruct (pa_current _ _); [|done]. destruct (journal _ _); [|done]. cbn.
  destruct (_ <? _); [done|]. unfold on. by destruct (pa_persist _ _ _).
Qed.

(** The part of [reconcile] before the time that has passed is known. *)
Lemma reconcile_settles boot probe clock wall clock_now pending f f' js s a :
  fence_sound f js -> dict_get (ps_candidate_id pending) (anchors f) = Some a ->
  reconcile boot on_close probe clock wall clock_now pending f = (f', Done s) ->
  stands (ps_candidate_id pending) js = Some (ps_disposition s) /\ ps_disposition s <> PENDING /\ f' = f
  \/ exists f1 ps1 js1 s0 mine, path_sound (kept_by f1) ps1 /\ keeps_rows ps1 js1 /\ lawful_journals js1 /\ open_at s0 js1
       /\ ps_candidate_id s0 = ps_candidate_id pending /\ ps_disposition s0 = PENDING
       /\ length (List.filter is_probe mine) = length (probes (ps_candidate_id s0) (all_rows js1))
       /\ settle boot on_close probe s0 mine (elapsed a clock_now) f1 = (f', Done s).
Proof.
  intros Hs Ha Hrec. pose proof (fence_events f js Hs) as Hev. destruct Hs as [(ps & Hps & Hk) Hl].
  destruct (lawful_states js Hl) as (sts & Hsts & Hget). unfold reconcile, look in Hrec.
  unfold mbind at 1, Prog_bind at 1, ask at 1 in Hrec. unfold states in Hrec. rewrite Hev in Hrec. cbn [mbind result_bind] in Hrec.
  rewrite Hsts in Hrec. unfold mbind at 1, Prog_bind at 1, try at 1 in Hrec.
  destruct (Hget (ps_candidate_id pending)) as [Hd Hsh]. destruct (dict_get _ sts) as [s0|]; [|done]. cbn in Hd.
  destruct (negb _); [done|]. unfold is_pending in Hrec. case_bool_decide as Hp; cbn [negb] in Hrec.
  2: { injection Hrec as <- <-. left. by split_and!. }
  specialize (Hsh s0 eq_refl). assert (Hc : ps_candidate_id s0 = ps_candidate_id pending) by (by destruct Hsh as (r & _ & _ & _ & ? & _)).
  assert (Ho : open_at s0 js) by (split; rewrite Hc; [by rewrite <-Hd, Hp|done]). right.
  unfold mbind at 1, Prog_bind at 1, ask at 1 in Hrec. rewrite Hev in Hrec. unfold mbind at 1, Prog_bind at 1, try at 1 in Hrec.
  set (mine := List.filter _ (all_rows js)) in Hrec. unfold mbind at 1, Prog_bind at 1 in Hrec.
  assert (Hanchor : forall f1, anchors f1 = anchors f -> anchor_of boot clock wall s0 (all_rows js) f1 = (f1, Done a)).
  { intros f1 Hf1. unfold anchor_of, mbind, Prog_bind, ask. by rewrite Hf1, Hc, Ha. }
  assert (Hmine : length (List.filter is_probe mine) = length (probes (ps_candidate_id s0) (all_rows js))).
  { unfold mine. by rewrite probes_of_mine. }
  destruct (negb _).
  - set (r := row_by boot _ _ _) in Hrec. pose proof (append_anchors r f) as Han.
    pose proof (runs_incidental ps js r s0 Hk Hl Ho eq_refl f Hps) as Hr. destruct (append r f) as [f1 [[]|e|]]; [|done..]. cbn in Han.
    destruct Hr as (ps1 & Hs1 & js1 & Hk1 & Hl1 & _ & Ho1 & Hn1). unfold mbind, Prog_bind in Hrec. rewrite (Hanchor f1 Han) in Hrec.
    exists f1, ps1, js1, s0, mine. split_and!; try done. by rewrite Hn1.
  - cbn in Hrec. unfold mbind, Prog_bind in Hrec. rewrite (Hanchor f eq_refl) in Hrec. by exists f, ps, js, s0, mine.
Qed.

(** The fence expires: reconciling a submission after sixty seconds or more of elapsed time
    returns it closed, never pending, and the journals agree with what is returned. *)
Theorem settles_after_expiry boot probe clock wall clock_now pending f f' js s a :
  fence_sound f js -> dict_get (ps_candidate_id pending) (anchors f) = Some a -> FENCE_SECONDS <= elapsed a clock_now ->
  reconcile boot on_close probe clock wall clock_now pending f = (f', Done s) ->
  ps_disposition s <> PENDING
  /\ exists sts, states (kept_by f') = Ok sts /\ ps_disposition <$> dict_get (ps_candidate_id pending) sts = Some (ps_disposition s).
Proof using on_close_spares.
  intros Hs Ha Hnow Hrec.
  destruct (reconcile_settles boot probe clock wall clock_now pending f f' js s a Hs Ha Hrec)
    as [(Hst & Hne & ->)|(f1 & ps1 & js1 & s0 & mine & Hs1 & Hk1 & Hl1 & Ho1 & Hc & Hp & Hn & Hset)].
  - split; [done|]. destruct (fence_states f js Hs) as (sts & Hsts & Hd). exists sts. by rewrite Hd.
  - pose proof (runs_settle boot on_close probe on_close_spares ps1 js1 s0 mine (elapsed a clock_now) Hk1 Hl1 Ho1 Hn Hp f1 Hs1) as Hr.
    rewrite Hset in Hr. destruct Hr as (ps2 & Hs2 & js2 & Hk2 & Hl2 & _ & Hst & Hne). split; [by apply Hne|].
    destruct (fence_states f' js2 ltac:(split; [by exists ps2|done])) as (sts & Hsts & Hd). exists sts. by rewrite Hd, <-Hc.
Qed.
End theorems.
