(* ===== verification/PathStore.v ===== *)
(** The write authority keeps the fence's journals.

    [reservation_paths] is the authority the fence is given; [reservation_paths_ok] proves the
    promises the fence relies on, as long as no path is refused or aborted. *)

From S2P Require Import ReservationBytes Prelude Canon Text PyJson Evidence Reservation ReservationLogic ReservationFacts Ambiguity AmbiguityLogic AmbiguityFacts.
Local Open Scope Z_scope.

(** ** The latest record of a key, as a list of values *)

Definition keyed (d : list (string * WriteReservation)) : Prop := NoDup (d.*1) /\ (forall k r, (k, r) ∈ d -> key r = k).

Definition put (v : WriteReservation) (c : WriteReservation) : WriteReservation := if bool_decide (key c = key v) then v else c.

Lemma keyed_cons k r d : keyed ((k, r) :: d) -> key r = k /\ (k ∉ d.*1) /\ keyed d.
Proof.
  intros [[Hk Hn]%NoDup_cons Hall]. split_and!; [apply Hall; by left|done|]. split; [done|]. intros k' r' Hin. apply Hall. by right.
Qed.

Lemma values_set_in v d : keyed d -> key v ∈ d.*1 -> dict_values (dict_set (key v) v d) = put v <$> dict_values d.
Proof.
  induction d as [|[k r] d IH]; intros Hd Hin; [by apply not_elem_of_nil in Hin|].
  apply keyed_cons in Hd as (Hk & Hno & Hd). unfold dict_values in *. cbn [dict_set]. csimpl. unfold put at 1. rewrite Hk.
  destruct (decide (key v = k)) as [E|E].
  - rewrite !bool_decide_true by congruence. csimpl. f_equal. clear IH. symmetry. transitivity (id <$> d.*2); [|apply list_fmap_id].
    apply list_fmap_ext. intros i c Hi. unfold put. rewrite bool_decide_false; [done|]. intros Hc. apply Hno. rewrite <-E, <-Hc.
    apply list_lookup_fmap_Some in Hi as ([k' c'] & -> & Hi). apply list_elem_of_fmap. exists (k', c').
    split; [cbn; apply (proj2 Hd)|]; by eapply list_elem_of_lookup_2.
  - rewrite (bool_decide_false (key v = k)) by done. rewrite (bool_decide_false (k = key v)) by congruence. csimpl. f_equal. apply IH; [done|]. set_solver.
Qed.

Lemma values_set_new v d : key v ∉ d.*1 -> dict_values (dict_set (key v) v d) = dict_values d ++ [v].
Proof.
  induction d as [|[k r] d IH]; intros Hin; [done|]. unfold dict_values in *. cbn [dict_set]. csimpl in Hin.
  rewrite bool_decide_false by set_solver. csimpl. f_equal. apply IH. set_solver.
Qed.

Lemma latest_keyed rs : keyed (latest_of rs).
Proof. apply latest_keys. Qed.

Lemma latest_snoc rs n r : latest_of (rs ++ [{| ordinal := n; written := r |}]) = dict_set (key r) (norm r) (latest_of rs).
Proof. unfold latest_of. by rewrite foldl_app. Qed.

(** A record of a known key takes the place of the one before. *)
Lemma latest_replaced rs n r c :
  status (key r) rs = Some c -> dict_values (latest_of (rs ++ [{| ordinal := n; written := r |}])) = put (norm r) <$> dict_values (latest_of rs).
Proof.
  intros Hs. rewrite latest_snoc. change (key r) with (key (norm r)). apply values_set_in; [apply latest_keyed|].
  apply list_elem_of_fmap. exists (key r, c). split; [done|]. by apply dict_get_Some_elem.
Qed.

Lemma latest_added rs n r :
  status (key r) rs = None -> dict_values (latest_of (rs ++ [{| ordinal := n; written := r |}])) = dict_values (latest_of rs) ++ [norm r].
Proof.
  intros Hs. rewrite latest_snoc. change (key r) with (key (norm r)). apply values_set_new. by apply dict_get_None.
Qed.

Lemma filter_put P v (l : list WriteReservation) :
  P v = true -> (forall c, c ∈ l -> key c = key v -> P c = true) -> List.filter P (put v <$> l) = put v <$> List.filter P l.
Proof.
  intros Hv. induction l as [|c l IH]; intros Hl; [done|]. csimpl.
  assert (Hc : P (put v c) = P c). { unfold put. case_bool_decide as E; [|done]. rewrite Hv. symmetry. apply Hl; [by left|done]. }
  rewrite Hc, IH by (intros c' Hin; apply Hl; by right). by destruct (P c).
Qed.

(** ** What an operation does to the disk *)

Lemma append_cases r lp w :
  wf_rows (rows_locked (disk w)) ->
  match append_locked r lp w with
  | (w', Done _) => slots (disk w') = slots (disk w)
      /\ exists n, rows_locked (disk w') = rows_locked (disk w) ++ [{| ordinal := n; written := r |}] /\ wf_rows (rows_locked (disk w'))
  | (w', _) => disk w' = disk w
  end.
Proof.
  intros Hwf. unfold append_locked, mbind, M_bind, get. destruct (first_empty_record _) as [i|] eqn:Hi; [|done].
  destruct (_ <? _); [done|]. unfold durable. destruct (writes_left w); [done|]. cbn [disk].
  destruct (rows_set_cell _ _ _ r Hwf Hi) as [Hr Hwf']. split; [done|]. eexists. rewrite Hr. by split.
Qed.

(** The ledgers and the claimed objects of [s] are as they were. *)
Definition spared (s s' : Store) : Prop :=
  ledgers s' = ledgers s
  /\ forall p x, x ∈ claimed p s -> dict_get x (at_pool (slots s') p) = dict_get x (at_pool (slots s) p).

Lemma claimed_ledgers p s s' : ledgers s' = ledgers s -> claimed p s' = claimed p s.
Proof. intros H. unfold claimed, held_in, latest_locked. by rewrite (rows_ledgers s' s H). Qed.

#[export] Instance spared_preorder : PreOrder spared.
Proof.
  split; [by intros s|]. intros s1 s2 s3 [H1 H2] [H3 H4]. split; [congruence|]. intros p x Hx. rewrite H4; [by apply H2|].
  by rewrite (claimed_ledgers p s1 s2 H1).
Qed.

Definition spares {A} (m : M A) : Prop := forall w, spared (disk w) (disk (m w).1).

Lemma spares_ret {A} (a : A) : spares (mret a).
Proof. by intros w. Qed.

Lemma spares_lift {A} (r : result A) : spares (lift r).
Proof. by destruct r; intros w. Qed.

Lemma spares_bind {A B} (m : M A) (f : A -> M B) : spares m -> (forall a, spares (f a)) -> spares (m ≫= f).
Proof.
  intros Hm Hf w. specialize (Hm w). unfold mbind, M_bind. destruct (m w) as [w1 [a|e|]]; [|done..].
  cbn [fst] in Hm. etrans; [exact Hm|apply Hf].
Qed.

Lemma set_slot_get p name body s p' x :
  dict_get x (at_pool (slots (set_slot p name body s)) p') =
  if bool_decide (p' = p /\ x = name) then Some body else dict_get x (at_pool (slots s) p').
Proof.
  unfold set_slot. cbn [slots]. rewrite at_set_pool. case_bool_decide as Hp; [rewrite dict_get_set; subst|].
  - case_bool_decide; case_bool_decide; naive_solver.
  - rewrite bool_decide_false; naive_solver.
Qed.

Section slots.
Context (faults : Faults).

(** Clearing an object nobody claims. *)
Lemma clear_slot_cases p name w :
  let w' := (clear_slot faults p name w).1 in
  (disk w' = disk w /\ (clear_slot faults p name w).2 <> Done true) \/ disk w' = set_slot p name "" (disk w).
Proof.
  unfold clear_slot, mbind, M_bind, get. destruct (_ || _); [by left|]. unfold durable. destruct (writes_left w); [by left|by right].
Qed.

Lemma clear_slot_spared p name w : name ∉ claimed p (disk w) -> spared (disk w) (disk (clear_slot faults p name w).1).
Proof.
  intros Hn. destruct (clear_slot_cases p name w) as [[-> _]| ->]; [done|]. split; [done|]. intros p' x Hx.
  rewrite set_slot_get, bool_decide_false; [done|]. by intros [-> ->].
Qed.

(** An object that was empty stays empty. *)
Lemma clear_slot_empty p name p' x w :
  dict_get x (at_pool (slots (disk w)) p') = Some "" ->
  dict_get x (at_pool (slots (disk (clear_slot faults p name w).1)) p') = Some "".
Proof.
  intros Hx. destruct (clear_slot_cases p name w) as [[-> _]| ->]; [done|]. rewrite set_slot_get. by case_bool_decide.
Qed.

Lemma take_slots_spared p cl names : forall count w,
  cl = claimed p (disk w) ->
  spared (disk w) (disk (take_slots faults p cl count names w).1)
  /\ (forall p' x, dict_get x (at_pool (slots (disk w)) p') = Some "" ->
        dict_get x (at_pool (slots (disk (take_slots faults p cl count names w).1)) p') = Some "")
  /\ forall l, (take_slots faults p cl count names w).2 = Done l ->
       Forall (fun x => (x ∉ cl) /\ dict_get x (at_pool (slots (disk (take_slots faults p cl count names w).1)) p) = Some "") l.
Proof.
  induction names as [|name names IH]; intros count w Hcl; cbn [take_slots].
  { split_and!; [done|done|]. intros l [= <-]. constructor. }
  case_bool_decide as Hin; [by apply IH|].
  assert (Hb : forall k : bool -> M (list string), (clear_slot faults p name ≫= k) w = match clear_slot faults p name w with
    | (w', Done a) => k a w' | (w', Raised e) => (w', Raised e) | (w', Crashed) => (w', Crashed) end) by done.
  rewrite !Hb. clear Hb.
  assert (Hsp := clear_slot_spared p name w ltac:(congruence)). pose proof (clear_slot_empty p name) as Hem.
  destruct (clear_slot_cases p name w) as [[Hsame Hnot]|Hset].
  all: pose proof (fun p' x => Hem p' x w) as Hem'; clear Hem.
  all: destruct (clear_slot faults p name w) as [w1 o]; cbn [fst snd] in *.
  all: assert (Hcl1 : cl = claimed p (disk w1)) by (rewrite Hcl; symmetry; apply claimed_ledgers, Hsp).
  all: assert (Hnext : forall count, spared (disk w) (disk (take_slots faults p cl count names w1).1)
    /\ (forall p' x, dict_get x (at_pool (slots (disk w)) p') = Some "" ->
        dict_get x (at_pool (slots (disk (take_slots faults p cl count names w1).1)) p') = Some ""))
    by (intros count'; destruct (IH count' w1 Hcl1) as (H1 & H2 & _); split; [by etrans|auto]).
  all: destruct o as [[|]|e|]; try (by destruct Hnot); try (by split_and!); try (split_and!; [apply (Hnext count)|apply (Hnext count)|apply (IH count w1 Hcl1)]).
  - assert (Hhere : dict_get name (at_pool (slots (disk w1)) p) = Some "").
    { rewrite Hset, set_slot_get, bool_decide_true; done. }
    destruct count as [|[|n]].
    + cbn. split_and!; [done|done|]. intros l [= <-]. constructor; [done|constructor].
    + cbn. split_and!; [done|done|]. intros l [= <-]. constructor; [done|constructor].
    + unfold mbind, M_bind. destruct (Hnext (S n)) as [H1 H2]. destruct (IH (S n) w1 Hcl1) as (_ & H3 & H4).
      destruct (take_slots faults p cl (S n) names w1) as [w2 [l|e|]]; cbn [fst snd] in *; split_and!; try done.
      intros ? [= <-]. constructor; [split; [done|by apply H3]|]. by apply H4.
Qed.
End slots.

(** ** The authority *)

Section authority.
Context `{DG : Digester} (faults : Faults) (redact : string -> string) (boot : string).

#[local] Instance reservation_paths : PathAuthority World := {|
  pa_reservations w := dict_values (latest_locked (disk w));
  pa_current k w := dict_get k (latest_locked (disk w));
  pa_object r w :=
    match object_slots r with
    | [] => Err (ReservationConflict "reservation has no such precreated object slot")
    | name :: _ => Ok (default "" (dict_get name (at_pool (slots (disk w)) (pool r))))
    end;
  pa_persist := write_object;
  pa_reserve := reserve faults redact boot;
  pa_start := start;
  pa_possibly_sent r reason := possibly_sent faults redact r reason [];
  pa_refuse_indeterminate := refuse_indeterminate redact;
  pa_abort := abort_ faults redact
|}.

(** A path with its object. *)
Record path_held (s : Store) (p : Path) : Prop := {
  held_retains : retains_object (retention (path_reservation p)) = true;
  held_pool : pool (path_reservation p) = SHARED;
  held_object : exists name, object_slots (path_reservation p) = [name]
    /\ dict_get name (at_pool (slots s) SHARED) = Some (path_text p)
}.

Record paths_sound (w : World) (ps : list Path) : Prop := {
  sound_wf : wf_rows (rows_locked (disk w));
  sound_lawful : lawful (rows_locked (disk w));
  sound_paths : List.filter is_path (dict_values (latest_locked (disk w))) = path_reservation <$> ps;
  sound_named e c : status (path_key e) (rows_locked (disk w)) = Some c -> is_path c = true;
  sound_held p : p ∈ ps -> path_held (disk w) p
}.

(** A path that was refused or aborted: it no longer owns an object. *)
Definition path_lost (w : World) : Prop :=
  exists k c, status k (rows_locked (disk w)) = Some c /\ is_path c = true /\ retains_object (retention c) = false.

Lemma path_latest w ps p :
  paths_sound w ps -> p ∈ ps ->
  status (key (path_reservation p)) (rows_locked (disk w)) = Some (path_reservation p) /\ is_path (path_reservation p) = true.
Proof.
  intros Hs Hp. assert (Hin : path_reservation p ∈ List.filter is_path (dict_values (latest_locked (disk w)))).
  { rewrite (sound_paths w ps Hs). by apply list_elem_of_fmap_2. }
  apply list_elem_of_In, filter_In in Hin as [Hin Hpath]. split; [|done].
  destruct (latest_values (rows_locked (disk w))) as [_ Hall]. rewrite Forall_forall in Hall. apply Hall. by apply list_elem_of_In.
Qed.

Lemma paths_keys w ps : paths_sound w ps -> NoDup ((fun p => key (path_reservation p)) <$> ps).
Proof.
  intros Hs. rewrite (list_fmap_compose path_reservation key). rewrite <-(sound_paths w ps Hs).
  destruct (latest_values (rows_locked (disk w))) as [Hn _]. unfold latest_locked.
  induction (dict_values (latest_of (rows_locked (disk w)))) as [|c l IH]; [constructor|]. csimpl in Hn.
  apply NoDup_cons in Hn as [Hc Hn]. cbn [List.filter]. destruct (is_path c); [|by apply IH]. csimpl.
  constructor; [|by apply IH]. intros (c' & Heq & Hin)%list_elem_of_fmap. apply Hc. rewrite Heq. apply list_elem_of_fmap_2.
  apply list_elem_of_In, filter_In in Hin as [Hin _]. by apply list_elem_of_In.
Qed.

Lemma paths_current w ps e :
  paths_sound w ps ->
  dict_get (path_key e) (latest_locked (disk w)) = path_reservation <$> py_next (path_named (path_key e)) ps.
Proof.
  intros Hs. change (dict_get _ _) with (status (path_key e) (rows_locked (disk w))).
  destruct (py_next _ ps) as [p|] eqn:Ep.
  - destruct (path_found _ _ _ Ep) as (i & Hi & Hk). cbn. rewrite <-Hk. eapply path_latest; [done|]. by eapply list_elem_of_lookup_2.
  - destruct (status (path_key e) (rows_locked (disk w))) as [c|] eqn:Ec; [|done].
    assert (Hin : c ∈ path_reservation <$> ps).
    { rewrite <-(sound_paths w ps Hs). apply list_elem_of_In, filter_In. split; [|by eapply sound_named].
      apply list_elem_of_In. unfold dict_values. apply list_elem_of_fmap. exists (path_key e, c). split; [done|]. by apply dict_get_Some_elem. }
    apply list_elem_of_fmap in Hin as (p & -> & Hp). apply (py_next_None _ _ p) in Ep; [|done].
    apply bool_decide_eq_false in Ep. apply status_key in Ec. done.
Qed.

(** Two paths own different objects. *)
Lemma paths_apart w ps p q x :
  paths_sound w ps -> p ∈ ps -> q ∈ ps -> key (path_reservation p) <> key (path_reservation q) ->
  x ∈ object_slots (path_reservation p) -> x ∉ object_slots (path_reservation q).
Proof.
  intros Hs Hp Hq Hne Hx Hxq. destruct (path_latest w ps p Hs Hp) as [Hlp _], (path_latest w ps q Hs Hq) as [Hlq _].
  assert (Hh : forall r, r ∈ ps -> holds SHARED (path_reservation r) = true).
  { intros r Hr. destruct (sound_held w ps Hs r Hr) as [H1 H2 _]. unfold holds. by rewrite H1, H2, orb_true_r. }
  by apply (lawful_slots _ (sound_lawful w ps Hs) SHARED _ _ _ _ Hne Hlp Hlq (Hh p Hp) (Hh q Hq) x).
Qed.

Lemma paths_claimed w ps p x : paths_sound w ps -> p ∈ ps -> x ∈ object_slots (path_reservation p) -> x ∈ claimed SHARED (disk w).
Proof.
  intros Hs Hp Hx. destruct (path_latest w ps p Hs Hp) as [Hl _]. eapply (claimed_rows_elem SHARED); [exact Hl| |done].
  destruct (sound_held w ps Hs p Hp) as [H1 H2 _]. unfold holds. by rewrite H1, H2, orb_true_r.
Qed.

(** What leaves the ledgers and the claimed objects alone leaves the paths alone. *)
Lemma paths_spared w w' ps : paths_sound w ps -> spared (disk w) (disk w') -> paths_sound w' ps.
Proof.
  intros Hs [Hl Hx]. pose proof (rows_ledgers _ _ Hl) as Hr. unfold latest_locked in *. split.
  - rewrite Hr. apply Hs.
  - rewrite Hr. apply Hs.
  - unfold latest_locked. rewrite Hr. apply Hs.
  - rewrite Hr. apply Hs.
  - intros p Hp. destruct (sound_held w ps Hs p Hp) as [H1 H2 (name & H3 & H4)]. split; [done|done|]. exists name. split; [done|].
    rewrite Hx; [done|]. eapply paths_claimed; [done|exact Hp|]. rewrite H3. by left.
Qed.

Lemma paths_same_disk w w' ps : paths_sound w ps -> disk w' = disk w -> paths_sound w' ps.
Proof. intros Hs Hd. eapply paths_spared; [done|]. by rewrite Hd. Qed.

(** *** Writing a journal *)

Lemma paths_persist w ps i p body :
  paths_sound w ps -> ps !! i = Some p ->
  match write_object (path_reservation p) body w with
  | (w', Done _) => paths_sound w' (<[i := with_text body p]> ps)
  | (w', _) => paths_sound w' ps
  end.
Proof.
  intros Hs Hi. assert (Hp : p ∈ ps) by (by eapply list_elem_of_lookup_2).
  destruct (path_latest w ps p Hs Hp) as [Hl _], (sound_held w ps Hs p Hp) as [H1 H2 (name & H3 & H4)].
  unfold write_object. destruct (_ || _); [done|]. destruct (_ <? _); [done|]. unfold mbind, M_bind, get, latest_locked.
  change (dict_get _ (latest_of _)) with (status (key (path_reservation p)) (rows_locked (disk w))). rewrite Hl, H3. cbn [head].
  destruct (_ && _); [|done]. destruct (dict_has _ _); [|done]. unfold durable. destruct (writes_left w); [done|].
  assert (Hlen : (i < length ps)%nat) by (by eapply lookup_lt_Some).
  assert (Hres : path_reservation <$> <[i := with_text body p]> ps = path_reservation <$> ps).
  { rewrite list_fmap_insert. apply list_insert_id. by rewrite list_lookup_fmap, Hi. }
  split; cbn [disk]; try (apply Hs).
  - unfold latest_locked. rewrite Hres. apply (sound_paths w ps Hs).
  - intros q [j Hj]%list_elem_of_lookup. apply list_lookup_insert_Some in Hj as [(<- & <- & _)|[Hne Hj]].
    + split; [done|done|]. exists name. split; [done|]. rewrite H2, set_slot_get. by rewrite bool_decide_true.
    + assert (Hq : q ∈ ps) by (by eapply list_elem_of_lookup_2). destruct (sound_held w ps Hs q Hq) as [G1 G2 (x & G3 & G4)].
      split; [done|done|]. exists x. split; [done|]. rewrite set_slot_get, bool_decide_false; [done|]. intros [_ ->].
      eapply (paths_apart w ps p q name); [done|done|done| |rewrite H3; by left|rewrite G3; by left].
      intros Hk. apply Hne. eapply (NoDup_lookup _ i j _ (paths_keys w ps Hs)); rewrite list_lookup_fmap; [by rewrite Hi|by rewrite Hj, Hk].
Qed.

(** *** Moving a reservation on *)

(** A record that follows a path's reservation and keeps its object. *)
Lemma paths_follow w w' ps i p r n :
  paths_sound w ps -> ps !! i = Some p -> slots (disk w') = slots (disk w) ->
  rows_locked (disk w') = rows_locked (disk w) ++ [{| ordinal := n; written := r |}] -> wf_rows (rows_locked (disk w')) ->
  key r = key (path_reservation p) -> identity r = identity (path_reservation p) ->
  effect_fingerprint r = effect_fingerprint (path_reservation p) -> retention r = retention (path_reservation p) ->
  follows (path_reservation p) r -> norm r = r ->
  paths_sound w' (<[i := {| path_reservation := r; path_text := path_text p |}]> ps).
Proof.
  intros Hs Hi Hsl Hrows Hwf Hk Hid Hf Hret Hfol Hnorm. assert (Hp : p ∈ ps) by (by eapply list_elem_of_lookup_2).
  destruct (path_latest w ps p Hs Hp) as [Hl Hpath], (sound_held w ps Hs p Hp) as [H1 H2 (name & H3 & H4)].
  assert (Hpr : is_path r = true) by (unfold is_path in *; by rewrite Hid).
  assert (Hst : status (key r) (rows_locked (disk w)) = Some (path_reservation p)) by (by rewrite Hk).
  split.
  - done.
  - rewrite Hrows. apply lawful_snoc; [apply Hs|]. unfold legal_next. cbn [written]. rewrite Hst. auto.
  - unfold latest_locked. rewrite Hrows, (latest_replaced _ n r _ Hst), filter_put; rewrite ?Hnorm; [|done|].
    + fold (latest_locked (disk w)). rewrite (sound_paths w ps Hs), list_fmap_insert. apply list_eq. intros j.
      rewrite !list_lookup_fmap. destruct (decide (i = j)) as [<-|Hne].
      * rewrite Hi. cbn. rewrite list_lookup_insert_eq by (rewrite length_fmap; by eapply lookup_lt_Some).
        unfold put. by rewrite bool_decide_true.
      * rewrite list_lookup_insert_ne by done. rewrite list_lookup_fmap. destruct (ps !! j) as [q|] eqn:Hj; [|done]. cbn. unfold put.
        rewrite bool_decide_false; [done|]. intros Hkq. apply Hne.
        eapply (NoDup_lookup _ i j _ (paths_keys w ps Hs)); rewrite list_lookup_fmap; [by rewrite Hi|by rewrite Hj, <-Hk; cbn; rewrite Hkq].
    + intros c Hc Hkc. destruct (latest_values (rows_locked (disk w))) as [_ Hall]. rewrite Forall_forall in Hall.
      apply Hall in Hc. rewrite Hkc, Hst in Hc. injection Hc as <-. done.
  - intros e c. rewrite Hrows, status_snoc. cbn [written]. case_bool_decide as Hke; [|apply Hs]. intros [= <-]. by rewrite Hnorm.
  - intros q [j Hj]%list_elem_of_lookup. apply list_lookup_insert_Some in Hj as [(<- & <- & _)|[Hne Hj]].
    + destruct Hfol as (_ & Hpool & Hslots & _). split; cbn; [by rewrite Hret|by rewrite Hpool|].
      exists name. by rewrite Hslots, Hsl.
    + destruct (sound_held w ps Hs q) as [G1 G2 G3]; [by eapply list_elem_of_lookup_2|]. split; [done|done|]. by rewrite Hsl.
Qed.

Lemma norm_latest k rs c : status k rs = Some c -> norm c = c.
Proof.
  induction rs as [|row rs IH] using rev_ind; [done|]. rewrite status_snoc. case_bool_decide; [|done]. by intros [= <-].
Qed.

(** Appending a transition of the path's reservation and returning it. *)
Lemma paths_transition w ps i p s obs :
  paths_sound w ps -> ps !! i = Some p ->
  let r := transitioned (path_reservation p) s obs None (Some (retention (path_reservation p))) in
  follows (path_reservation p) r ->
  moves paths_sound path_lost ps i p ((append_locked r None;; mret r) w).
Proof.
  intros Hs Hi r Hfol. pose proof (append_cases r None w (sound_wf w ps Hs)) as Ha. unfold moves, mbind, M_bind.
  destruct (append_locked r None w) as [w1 [[]|e|]]; cbn.
  - destruct Ha as (Hsl & n & Hrows & Hwf). exists {| path_reservation := r; path_text := path_text p |}. split; [by split|]. split; [done|].
    eapply (paths_follow w); try done. assert (Hp : p ∈ ps) by (by eapply list_elem_of_lookup_2).
    destruct (path_latest w ps p Hs Hp) as [Hl _]. pose proof (norm_latest _ _ _ Hl) as Hn. unfold r, norm, reservation_of, transitioned in *.
    cbn in *. rewrite <-Hn. done.
  - left. by eapply paths_same_disk.
  - left. by eapply paths_same_disk.
Qed.

(** A path as it is counts as moved. *)
Lemma moves_same w ps i p : paths_sound w ps -> ps !! i = Some p -> moves paths_sound path_lost ps i p (w, Done (path_reservation p)).
Proof. intros Hs Hi. exists p. split; [by split|]. split; [done|]. by rewrite list_insert_id. Qed.

Lemma require_latest w ps p :
  paths_sound w ps -> p ∈ ps -> require_current (path_reservation p) w = (w, Done (path_reservation p)).
Proof.
  intros Hs Hp. destruct (path_latest w ps p Hs Hp) as [Hl _]. unfold require_current, current_locked, mbind, M_bind, get, mret, M_ret, latest_locked.
  change (dict_get _ (latest_of _)) with (status (key (path_reservation p)) (rows_locked (disk w))). rewrite Hl.
  unfold assert_same_effect. by rewrite bool_decide_true.
Qed.

Lemma transitioned_same r s obs : transitioned r s obs None None = transitioned r s obs None (Some (retention r)).
Proof. done. Qed.

Lemma paths_start w ps i p :
  paths_sound w ps -> ps !! i = Some p -> moves paths_sound path_lost ps i p (start (path_reservation p) w).
Proof.
  intros Hs Hi. assert (Hp : p ∈ ps) by (by eapply list_elem_of_lookup_2). unfold start, claim_start, fmap, M_fmap.
  unfold mbind at 1, M_bind at 1. rewrite (require_latest w ps p Hs Hp). case_bool_decide as Hst; [|by apply moves_same].
  pose proof (paths_transition w ps i p STARTED None Hs Hi) as Ht. cbv zeta in Ht. rewrite <-transitioned_same in Ht.
  assert (Hf : follows (path_reservation p) (transitioned (path_reservation p) STARTED None None None)).
  { split_and!; [done..|]. cbn. by rewrite Hst. }
  specialize (Ht Hf). unfold mbind, M_bind in *. by destruct (append_locked _ None w) as [w1 [[]|e|]].
Qed.

Lemma paths_finish w ps i p obs :
  paths_sound w ps -> ps !! i = Some p ->
  moves paths_sound path_lost ps i p (finish faults redact (path_reservation p) POSSIBLY_SENT obs w).
Proof.
  intros Hs Hi. assert (Hp : p ∈ ps) by (by eapply list_elem_of_lookup_2). unfold finish, mbind at 1, M_bind at 1.
  rewrite (require_latest w ps p Hs Hp). destruct (is_final _); [by apply moves_same|].
  destruct (negb _) eqn:En; [by left|]. apply negb_false_iff, bool_decide_eq_true in En. injection En as En.
  rewrite (bool_decide_false (POSSIBLY_SENT = ABORTED)) by done.
  pose proof (paths_transition w ps i p POSSIBLY_SENT (Some (bounded redact obs)) Hs Hi) as Ht. cbv zeta in Ht.
  assert (Hf : follows (path_reservation p)
    (transitioned (path_reservation p) POSSIBLY_SENT (Some (bounded redact obs)) None (Some (retention (path_reservation p))))).
  { split_and!; [done..|]. cbn. by rewrite <-En. }
  specialize (Ht Hf). assert (Hret : retains_object (retention (path_reservation p)) = true) by (by apply (sound_held w ps Hs p Hp)).
  unfold mbind, M_bind in *. destruct (append_locked _ None w) as [w1 [[]|e|]]; [|done..].
  change (retains_object (retention (transitioned _ _ _ _ _))) with (retains_object (retention (path_reservation p))). by rewrite Hret.
Qed.

Lemma paths_refuse w ps i p reason :
  paths_sound w ps -> ps !! i = Some p ->
  moves paths_sound path_lost ps i p (refuse_indeterminate redact (path_reservation p) reason w).
Proof.
  intros Hs Hi. assert (Hp : p ∈ ps) by (by eapply list_elem_of_lookup_2). unfold refuse_indeterminate, mbind at 1, M_bind at 1.
  rewrite (require_latest w ps p Hs Hp). case_bool_decide as Ht; [by apply moves_same|].
  destruct (negb _) eqn:En; [by left|]. apply negb_false_iff, bool_decide_eq_true in En. rewrite transitioned_same.
  apply (paths_transition w ps i p TERMINAL); [done|done|]. split_and!; [done..|]. cbn. by rewrite En.
Qed.

(** A record of a path that keeps no object is a lost path. *)
Lemma path_lost_by w r n rs :
  rows_locked (disk w) = rs ++ [{| ordinal := n; written := r |}] -> is_path r = true -> retention r = RELEASE -> path_lost w.
Proof.
  intros Hrows Hpath Hret. exists (key r), (norm r). rewrite Hrows, status_snoc, bool_decide_true by done. split_and!; [done|done|].
  cbn. by rewrite Hret.
Qed.

Lemma path_lost_ledgers w w' : ledgers (disk w') = ledgers (disk w) -> path_lost w -> path_lost w'.
Proof. intros Hq (k & c & H1 & H2 & H3). exists k, c. by rewrite (rows_ledgers _ _ Hq). Qed.

Lemma paths_abort w ps i p reason :
  paths_sound w ps -> ps !! i = Some p ->
  let w' := (abort_ faults redact (path_reservation p) reason w).1 in paths_sound w' ps \/ path_lost w'.
Proof.
  intros Hs Hi. assert (Hp : p ∈ ps) by (by eapply list_elem_of_lookup_2). cbv zeta.
  destruct (abort_ faults redact (path_reservation p) reason w) as [w' o] eqn:E. revert E. cbn [fst]. unfold abort_, finish, mbind at 1, M_bind at 1.
  rewrite (require_latest w ps p Hs Hp). destruct (is_final _); [intros [= <- _]; by left|]. destruct (negb _); [intros [= <- _]; by left|].
  rewrite bool_decide_true by done. cbv zeta. set (closed := transitioned _ _ _ _ _). change (retains_object (retention closed)) with false.
  unfold mbind, M_bind. pose proof (append_cases closed None w (sound_wf w ps Hs)) as Ha.
  destruct (append_locked closed None w) as [w1 [[]|e|]]; [|intros [= <- _]; left; by eapply paths_same_disk..].
  destruct Ha as (_ & n & Hrows & _). assert (Hlost : path_lost w1).
  { eapply path_lost_by; [exact Hrows| |done]. by apply (path_latest w ps p). }
  pose proof (quiet_give_back faults closed w1) as [Hq _]. destruct (give_back faults closed w1) as [w2 [[]|e|]]; cbn [fst] in Hq;
    intros [= <- _]; right; by eapply path_lost_ledgers.
Qed.

(** *** Reserving a path *)

Hypothesis path_unredacted : bounded_text redact AMBIGUITY_PATH_OPERATION = AMBIGUITY_PATH_OPERATION.

Lemma slots_spared p count : spares (available_object_slots faults p count).
Proof.
  intros w. unfold available_object_slots. destruct (count =? 0); [done|]. unfold mbind, M_bind, get.
  by apply (take_slots_spared faults p _ _ _ w).
Qed.

Lemma headroom_spared : spares (headroom_locked faults).
Proof.
  unfold headroom_locked. generalize all_pools. intros l. induction l as [|p l IH]; cbn [headroom_of]; [apply spares_ret|].
  apply spares_bind; [|intros c; apply spares_bind; [done|intros; apply spares_ret]]. unfold available_capacity.
  apply spares_bind; [by intros w|]. intros st. apply spares_bind; [apply slots_spared|]. intros names. apply spares_lift.
Qed.

(** A new path, on an empty object nobody claims. *)
Lemma paths_open w w' ps r name n :
  paths_sound w ps -> slots (disk w') = slots (disk w) ->
  rows_locked (disk w') = rows_locked (disk w) ++ [{| ordinal := n; written := r |}] -> wf_rows (rows_locked (disk w')) ->
  status (key r) (rows_locked (disk w)) = None -> is_path r = true -> state r = RESERVED -> pool r = SHARED ->
  retention r = RECORD -> object_slots r = [name] -> name ∉ claimed SHARED (disk w) ->
  dict_get name (at_pool (slots (disk w)) SHARED) = Some "" ->
  paths_sound w' (ps ++ [{| path_reservation := norm r; path_text := "" |}]).
Proof.
  intros Hs Hsl Hrows Hwf Hnew Hpath Hst Hpool Hret Hobj Hfree Hempty. split.
  - done.
  - rewrite Hrows. apply lawful_snoc; [apply Hs|]. unfold legal_next. cbn [written]. rewrite Hnew. left. split; [done|].
    rewrite Hobj, Hpool. constructor; [exact Hfree|constructor].
  - unfold latest_locked. rewrite Hrows, (latest_added _ n r Hnew), List.filter_app, fmap_app. fold (latest_locked (disk w)).
    rewrite (sound_paths w ps Hs). cbn [List.filter]. change (is_path (norm r)) with (is_path r). by rewrite Hpath.
  - intros e c. rewrite Hrows, status_snoc. cbn [written]. case_bool_decide as Hke; [|apply Hs]. by intros [= <-].
  - intros q [Hq| ->%list_elem_of_singleton]%elem_of_app.
    + destruct (sound_held w ps Hs q Hq) as [G1 G2 G3]. split; [done|done|]. by rewrite Hsl.
    + split; cbn; [by rewrite Hret|done|]. exists name. by rewrite Hsl.
Qed.

Lemma take_one p cl names : forall w w' l, take_slots faults p cl 1 names w = (w', Done l) -> (length l <= 1)%nat.
Proof.
  induction names as [|name names IH]; intros w w' l; cbn [take_slots]; [intros [= _ <-]; cbn; lia|].
  case_bool_decide; [apply IH|]. unfold mbind, M_bind. destruct (clear_slot faults p name w) as [w1 [[|]|e|]]; [|apply IH|done..].
  intros [= _ <-]. cbn. lia.
Qed.

Lemma shrink_spared p n : spares (shrink_extent faults p n).
Proof.
  intros w. unfold shrink_extent, mbind, M_bind, get, raise. destruct (_ <? _); [done|]. unfold durable.
  destruct (shrink_fails faults p) as [[|]|]; destruct (writes_left w); done.
Qed.

(** The slot the path is offered. *)
Lemma offered w names w' :
  available_object_slots faults SHARED 1 w = (w', Done names) ->
  (length names <= 1)%nat /\ Forall (fun x => (x ∉ claimed SHARED (disk w')) /\ dict_get x (at_pool (slots (disk w')) SHARED) = Some "") names.
Proof.
  intros Ha. pose proof (slots_spared SHARED 1 w) as [Hl _]. rewrite Ha in Hl. cbn [fst] in Hl.
  rewrite (claimed_ledgers SHARED _ _ Hl). revert Ha. unfold available_object_slots. cbn [Z.eqb]. unfold mbind, M_bind, get. intros Ha. split; [by eapply take_one|].
  destruct (take_slots_spared faults SHARED _ (sort_by id (dict_keys (at_pool (slots (disk w)) SHARED))) 1 w eq_refl) as (_ & _ & Hall).
  change (Z.to_nat 1) with 1%nat in Ha. rewrite Ha in Hall. by apply Hall.
Qed.

Definition opened (c : CompleteSubmissionIdentity) (ps : list Path) (w : World) : Prop :=
  exists p, key (path_reservation p) = path_key (effect_id c) /\ path_text p = "" /\ paths_sound w (ps ++ [p]).

Definition reserve_ends {A} (c : CompleteSubmissionIdentity) (ps : list Path) (ended : World * outcome A) : Prop :=
  match ended with
  | (w, Done _) => paths_sound w ps \/ opened c ps w
  | (w, _) => paths_sound w ps \/ opened c ps w \/ path_lost w
  end.

(** What follows the record of a new path. *)
Lemma paths_shrink w c ps r (body : unit -> M WriteReservation) :
  opened c ps w -> wf_rows (rows_locked (disk w)) -> is_path r = true ->
  (forall u w', body u w' = (w', Done r)) ->
  reserve_ends c ps ((catch (shrink_extent faults SHARED 12800) (fun e =>
      let aborted := transitioned r ABORTED None None (Some RELEASE) in
      append_locked aborted None;; give_back faults aborted;; raise e) ≫= body) w).
Proof.
  intros (p & Hk & Ht & Hs) Hwf Hpath Hbody. unfold catch. unfold mbind at 1, M_bind at 1.
  pose proof (shrink_spared SHARED 12800 w) as Hsp.
  destruct (shrink_extent faults SHARED 12800 w) as [w1 o]. cbn [fst] in Hsp.
  assert (Ho1 : opened c ps w1) by (exists p; split_and!; [done|done|by eapply paths_spared]).
  destruct o as [u|e|]; [rewrite Hbody; by right| |by right; left].
  set (aborted := transitioned r ABORTED None None (Some RELEASE)). cbv zeta. unfold mbind, M_bind.
  assert (Hwf1 : wf_rows (rows_locked (disk w1))) by (rewrite (rows_ledgers _ _ (proj1 Hsp)); done).
  pose proof (append_cases aborted None w1 Hwf1) as Ha. destruct (append_locked aborted None w1) as [w2 [[]|e2|]].
  - destruct Ha as (_ & n & Hrows & _). assert (Hlost : path_lost w2) by (by eapply path_lost_by).
    pose proof (quiet_give_back faults aborted w2) as [Hq _]. destruct (give_back faults aborted w2) as [w3 o3]. cbn [fst] in Hq.
    assert (Hlost3 : path_lost w3).
    { destruct Hlost as (k & c' & H1 & H2 & H3). exists k, c'. by rewrite (rows_ledgers _ _ Hq). }
    destruct o3 as [[]|e3|]; cbn; by right; right.
  - right. left. destruct Ho1 as (p1 & ? & ? & ?). exists p1. split_and!; [done|done|]. by eapply paths_same_disk.
  - right. left. destruct Ho1 as (p1 & ? & ? & ?). exists p1. split_and!; [done|done|]. by eapply paths_same_disk.
Qed.

Lemma is_path_sanitized c : bool_decide (operation (sanitized_identity redact (rq_identity (path_request c))) = AMBIGUITY_PATH_OPERATION) = true.
Proof using path_unredacted. cbn. rewrite path_unredacted. by apply bool_decide_eq_true. Qed.

(** A refusal either goes unrecorded or costs the path. *)
Lemma paths_refused w ps c h e :
  paths_sound w ps -> reserve_ends (A := WriteReservation) c ps ((record_refusal redact boot (path_request c) h;; raise e) w).
Proof using path_unredacted.
  intros Hs. unfold record_refusal, mbind, M_bind, get. destruct (_ <? 1); [by left|].
  pose proof (append_cases (refusal redact boot (path_request c) h) (Some (default (rq_pool (path_request c)) (rq_refusal_pool (path_request c)))) w (sound_wf w ps Hs)) as Ha.
  destruct (append_locked _ _ w) as [w1 [[]|e1|]].
  - right. right. destruct Ha as (_ & n & Hrows & _). eapply path_lost_by; [exact Hrows| |done]. apply is_path_sanitized.
  - left. by eapply paths_same_disk.
  - left. by eapply paths_same_disk.
Qed.

Lemma paths_grant w ps c :
  paths_sound w ps -> status (path_key (effect_id c)) (rows_locked (disk w)) = None ->
  reserve_ends c ps (admit_request faults redact boot (path_request c) w).
Proof using path_unredacted.
  intros Hs Hnew. unfold admit_request. unfold mbind at 1, M_bind at 1. pose proof (headroom_spared w) as Hsp1.
  destruct (headroom_locked faults w) as [w1 o1]. cbn [fst] in Hsp1. assert (Hs1 := paths_spared w w1 ps Hs Hsp1).
  destruct o1 as [h|e|]; [|by left..]. change (objects (rq_need (path_request c))) with 1. change (rq_pool (path_request c)) with SHARED.
  unfold mbind at 1, M_bind at 1. pose proof (slots_spared SHARED 1 w1) as Hsp2.
  destruct (available_object_slots faults SHARED 1 w1) as [w2 o2] eqn:Eslots. cbn [fst] in Hsp2. assert (Hs2 := paths_spared w1 w2 ps Hs1 Hsp2).
  destruct o2 as [names|e|]; [|by left..]. destruct (offered w1 names w2 Eslots) as [Hone Hall].
  set (remaining := default _ _). unfold mbind at 1, M_bind at 1. change (rq_floor (path_request c)) with (@None Capacity).
  destruct (negb _ || _) eqn:Eshort; [by apply paths_refused|]. unfold mret, M_ret.
  apply orb_false_iff in Eshort as [_ Elen%Z.ltb_ge]. destruct names as [|name [|]]; [unfold py_len in Elen; cbn in Elen; lia| |cbn in Hone; lia].
  apply Forall_singleton in Hall as [Hfree Hempty]. unfold mbind at 1, M_bind at 1, lift.
  destruct (cap_sub remaining _) as [left_|e]; [|by left]. unfold mret, M_ret. cbv zeta. set (r := Build_WriteReservation _ _ _ _ _ _ _ _ _ _ _ _).
  change (bytes (rq_need (path_request c))) with 12800.
  assert (Hrows2 : rows_locked (disk w2) = rows_locked (disk w)).
  { by rewrite (rows_ledgers _ _ (proj1 Hsp2)), (rows_ledgers _ _ (proj1 Hsp1)). }
  unfold mbind at 1, M_bind at 1. pose proof (append_cases r None w2 (sound_wf w2 ps Hs2)) as Ha.
  destruct (append_locked r None w2) as [w3 [[]|e3|]]; [|left; by eapply paths_same_disk..].
  destruct Ha as (Hsl & n & Hrows & Hwf). apply paths_shrink; [|done|apply is_path_sanitized|done].
  exists {| path_reservation := norm r; path_text := "" |}. split_and!; [done|done|].
  eapply (paths_open w2 w3 ps r name n); try done; [by rewrite Hrows2|apply is_path_sanitized].
Qed.

Lemma paths_reserve w ps c : paths_sound w ps -> reserve_ends c ps (reserve faults redact boot (path_request c) w).
Proof using path_unredacted.
  intros Hs. unfold reserve. destruct (_ || _); [by left|]. unfold current_locked, mbind at 1, M_bind at 1, mbind at 1, M_bind at 1, get, mret at 1, M_ret at 1, latest_locked.
  change (dict_get _ (latest_of _)) with (status (path_key (effect_id c)) (rows_locked (disk w))).
  destruct (status _ _) as [r|] eqn:Er; [|by apply paths_grant].
  assert (Hin : exists p, p ∈ ps /\ path_reservation p = r).
  { pose proof (paths_current w ps (effect_id c) Hs) as Hc. change (dict_get _ _) with (status (path_key (effect_id c)) (rows_locked (disk w))) in Hc.
    rewrite Er in Hc. destruct (py_next _ ps) as [p|] eqn:Ep; [|done]. injection Hc as ->. exists p. split; [|done]. by apply py_next_Some in Ep as [Hp _]. }
  destruct Hin as (p & Hp & <-). assert (Hret := held_retains _ _ (sound_held w ps Hs p Hp)).
  assert (Hno : retryable (path_request c) (path_reservation p) = false).
  { unfold retryable. cbn. rewrite orb_false_r. apply bool_decide_eq_false. intros Hst.
    rewrite (lawful_retention _ _ _ (sound_lawful w ps Hs) Er (or_introl Hst)) in Hret. done. }
  unfold mbind, M_bind, assert_same_effect. case_bool_decide; [|by left]. cbn. rewrite Hno. destruct (_ && _); by left.
Qed.

Lemma paths_object w ps p : paths_sound w ps -> p ∈ ps -> pa_object (path_reservation p) w = Ok (path_text p).
Proof. intros Hs Hp. cbn. destruct (sound_held w ps Hs p Hp) as [_ H2 (name & -> & H4)]. by rewrite H2, H4. Qed.

Lemma paths_persisted w ps i p body :
  paths_sound w ps -> ps !! i = Some p -> Z.of_nat (String.length body) <= bytes AMBIGUITY_PATH_NEED ->
  let ps' := <[i := with_text body p]> ps in
  match pa_persist (path_reservation p) body w with
  | (w', Done _) => paths_sound w' ps'
  | (w', _) => paths_sound w' ps \/ paths_sound w' ps' \/ path_lost w'
  end.
Proof.
  intros Hs Hi _. pose proof (paths_persist w ps i p body Hs Hi) as Hp. cbn. destruct (write_object _ _ w) as [w' [[]|e|]]; auto.
Qed.

#[local] Instance reservation_paths_ok : PathAuthorityOk World := {|
  path_sound := paths_sound; path_damaged := path_lost;
  path_sound_reservations := sound_paths;
  path_sound_object := paths_object;
  path_sound_current w ps e := paths_current w ps e;
  path_sound_keys := paths_keys;
  pa_persist_sound := paths_persisted;
  pa_start_sound := paths_start;
  pa_possibly_sent_sound w ps i p reason := paths_finish w ps i p _;
  pa_refuse_sound := paths_refuse;
  pa_reserve_sound := paths_reserve;
  pa_abort_sound := paths_abort
|}.
End authority.

(** ** The fence over the write authority. *)

Section over_authority.
Context `{DG : Digester, RT : RowText} (faults : Faults) (redact : string -> string) (boot : string).

#[local] Instance authority : PathAuthority World := reservation_paths faults redact boot.

(** A path without an object makes reading the journals raise. *)
Lemma objectless_blocks (rs : list WriteReservation) (w : World) r :
  r ∈ rs -> is_path r = true -> object_slots r = [] -> exists e, events_of rs w = Err e.
Proof.
  intros Hin Hpath Hobj. induction rs as [|r0 rs IH]; [by apply not_elem_of_nil in Hin|]. cbn [events_of].
  apply elem_of_cons in Hin as [<-|Hin].
  - rewrite Hpath. cbn [negb]. unfold journal. cbn. rewrite Hobj. by eexists.
  - destruct (IH Hin) as [e He]. rewrite He. destruct (negb _); [by eexists|]. destruct (journal r0 w) as [rows|e0]; by eexists.
Qed.

(** A refused record stays its key's latest. *)
Lemma refused_stays rs rs' k c :
  kept rs rs' -> status k rs = Some c -> state c = REFUSED -> object_slots c = [] ->
  status k rs' = Some c.
Proof.
  intros (_ & Hl & l & ->) Hs Hst Hobj. revert Hl. induction l as [|row l IH] using rev_ind; [by rewrite app_nil_r|].
  rewrite app_assoc. intros Hl. inversion Hl as [Hnil|rs0 row0 Hl0 Hn Heq]; [by destruct (rs ++ l)|].
  apply app_inj_tail in Heq as [-> ->]. specialize (IH Hl0). rewrite status_snoc. case_bool_decide as Hk; [|done]. exfalso.
  unfold legal_next in Hn. rewrite <-Hk, IH in Hn. destruct Hn as [_ [[_ [Ha|Ha]]|Hf]]; [congruence..|].
  destruct Hf as (_ & _ & _ & Hf). rewrite Hst in Hf. destruct (state (written row)); try done. destruct Hf as (_ & Hret & _).
  rewrite (lawful_retention _ _ _ Hl0 IH) in Hret; [done|auto].
Qed.

(** A refused path stops the fence for good: once the authority has recorded that it refused
    an ambiguity path for lack of capacity, then whatever it does later, the fence can no
    longer read its journals - it answers no question, begins and reconciles nothing, and
    pending submissions stay pending. *)
Theorem refused_path_blocks w w' k c :
  status k (rows_locked (disk w)) = Some c -> is_path c = true -> state c = REFUSED -> object_slots c = [] ->
  kept (rows_locked (disk w)) (rows_locked (disk w')) ->
  (exists e, states w' = Err e)
  /\ (forall cand effect, exists e, can_submit cand effect w' = Err e)
  /\ (forall anchors b clock cand i, exists e,
        begin b clock cand i {| kept_by := w'; anchors := anchors |} = ({| kept_by := w'; anchors := anchors |}, Raised e))
  /\ forall anchors b on_close probe clock wall now p, exists e,
        reconcile b on_close probe clock wall now p {| kept_by := w'; anchors := anchors |} = ({| kept_by := w'; anchors := anchors |}, Raised e).
Proof.
  intros Hs Hpath Hst Hobj Hkept. assert (Hev : exists e, states w' = Err e).
  { unfold states, events. destruct (objectless_blocks (pa_reservations w') w' c) as [e ->]; [|done|done|by exists e].
    pose proof (refused_stays _ _ _ _ Hkept Hs Hst Hobj) as Hs'. unfold status in Hs'. apply dict_get_Some_elem in Hs'.
    cbn. unfold dict_values, latest_locked. apply list_elem_of_fmap. by exists (k, c). }
  destruct Hev as [e He]. split_and!.
  - by exists e.
  - intros cand effect. exists e. unfold can_submit. by rewrite He.
  - intros anchors b clock cand i. unfold begin, look, mbind, Prog_bind, ask. destruct (begin_ready _); [|by eexists].
    exists e. cbn [kept_by raise_unless try]. by rewrite He.
  - intros anchors b on_close probe clock wall now p. exists e. unfold reconcile, look, mbind, Prog_bind, ask. cbn [kept_by]. by rewrite He.
Qed.
End over_authority.
