(* ===== verification/RowCodec.v ===== *)
(** A text for the rows of the fence's journals, to run the fence on concrete inputs: each
    value is written as tagged characters that can be read back off the front of a text. *)

From Stdlib Require Import Ascii.
From S2P Require Import Prelude Canon PyJson Evidence Ambiguity.
Local Open Scope nat_scope.

#[local] Obligation Tactic := idtac.

(** [enc a rest] writes [a] in front of [rest]; [dec] reads it off. *)
Class Wire (A : Type) : Type := {
  enc : A -> string -> string;
  dec : string -> option (A * string);
  dec_enc a rest : dec (enc a rest) = Some (a, rest);
  enc_grows a rest : String.length rest <= String.length (enc a rest)
}.

Program Definition wire_iso {A B} `{Wire B} (f : A -> B) (g : B -> A) (Hgf : forall a, g (f a) = a) : Wire A := {|
  enc a := enc (f a);
  dec s := '(b, rest) ← dec s; Some (g b, rest)
|}.
Next Obligation. intros. cbn. rewrite dec_enc. cbn. by rewrite Hgf. Qed.
Next Obligation. intros. apply enc_grows. Qed.

(** ** Parts *)

Fixpoint enc_string (s rest : string) : string :=
  match s with EmptyString => String "0" rest | String c s => String "1" (String c (enc_string s rest)) end.

Fixpoint dec_string (s : string) : option (string * string) :=
  match s with
  | String "0" rest => Some ("", rest)
  | String "1" (String c r) => '(s, rest) ← dec_string r; Some (String c s, rest)
  | _ => None
  end.

#[program, export] Instance wire_string : Wire string := {| enc := enc_string; dec := dec_string |}.
Next Obligation. intros s rest. induction s as [|c s IH]; [done|]. cbn. by rewrite IH. Qed.
Next Obligation. intros s rest. induction s as [|c s IH]; cbn; lia. Qed.

Fixpoint enc_positive (p : positive) (rest : string) : string :=
  match p with xH => String "e" rest | xO p => String "o" (enc_positive p rest) | xI p => String "i" (enc_positive p rest) end.

Fixpoint dec_positive (s : string) : option (positive * string) :=
  match s with
  | String "e" rest => Some (xH, rest)
  | String "o" r => '(p, rest) ← dec_positive r; Some (xO p, rest)
  | String "i" r => '(p, rest) ← dec_positive r; Some (xI p, rest)
  | _ => None
  end.

Lemma dec_enc_positive p rest : dec_positive (enc_positive p rest) = Some (p, rest).
Proof. induction p as [p IH|p IH|]; cbn; [by rewrite IH..|done]. Qed.

Lemma enc_positive_grows p rest : String.length rest <= String.length (enc_positive p rest).
Proof. induction p as [p IH|p IH|]; cbn; lia. Qed.

Definition enc_Z (n : Z) (rest : string) : string :=
  match n with Z0 => String "z" rest | Zpos p => String "p" (enc_positive p rest) | Zneg p => String "n" (enc_positive p rest) end.

Definition dec_Z (s : string) : option (Z * string) :=
  match s with
  | String "z" rest => Some (Z0, rest)
  | String "p" r => '(p, rest) ← dec_positive r; Some (Zpos p, rest)
  | String "n" r => '(p, rest) ← dec_positive r; Some (Zneg p, rest)
  | _ => None
  end.

#[program, export] Instance wire_Z : Wire Z := {| enc := enc_Z; dec := dec_Z |}.
Next Obligation. intros [|p|p] rest; cbn; rewrite ?dec_enc_positive; done. Qed.
Next Obligation. intros [|p|p] rest; cbn; [lia|pose proof (enc_positive_grows p rest); lia..]. Qed.

#[program, export] Instance wire_prod {A B} `{Wire A, Wire B} : Wire (A * B) := {|
  enc p rest := enc p.1 (enc p.2 rest);
  dec s := '(a, r) ← dec s; '(b, rest) ← dec r; Some ((a, b), rest)
|}.
Next Obligation. intros A B HA HB [a b] rest. cbn. rewrite dec_enc. cbn. by rewrite dec_enc. Qed.
Next Obligation. intros A B HA HB [a b] rest. cbn. etrans; [|apply enc_grows]. apply enc_grows. Qed.

Definition enc_sum {A B} `{Wire A, Wire B} (x : A + B) (rest : string) : string :=
  match x with inl a => String "l" (enc a rest) | inr b => String "r" (enc b rest) end.

Definition dec_sum {A B} `{Wire A, Wire B} (s : string) : option ((A + B) * string) :=
  match s with
  | String "l" r => '(a, rest) ← dec r; Some (inl a, rest)
  | String "r" r => '(b, rest) ← dec r; Some (inr b, rest)
  | _ => None
  end.

#[program, export] Instance wire_sum {A B} `{Wire A, Wire B} : Wire (A + B) := {| enc := enc_sum; dec := dec_sum |}.
Next Obligation. intros A B HA HB [a|b] rest; cbn; by rewrite dec_enc. Qed.
Next Obligation. intros A B HA HB [a|b] rest; cbn; [pose proof (enc_grows a rest)|pose proof (enc_grows b rest)]; lia. Qed.

(** ** Lists *)

Section items.
Context {A : Type} (e : A -> string -> string) (d : string -> option (A * string)).

Fixpoint enc_items (l : list A) (rest : string) : string :=
  match l with [] => String "0" rest | a :: l => String "1" (e a (enc_items l rest)) end.

Fixpoint dec_items (n : nat) (s : string) : option (list A * string) :=
  match n with
  | O => None
  | S n =>
      match s with
      | String "0" rest => Some ([], rest)
      | String "1" r => '(a, r) ← d r; '(l, rest) ← dec_items n r; Some (a :: l, rest)
      | _ => None
      end
  end.

Lemma enc_items_grows l : Forall (fun a => forall rest, String.length rest <= String.length (e a rest)) l ->
  forall rest, String.length rest <= String.length (enc_items l rest).
Proof. induction 1 as [|a l Ha _ IH]; intros rest; cbn; [lia|]. specialize (IH rest). specialize (Ha (enc_items l rest)). lia. Qed.

Lemma dec_enc_items N l : Forall (fun a => forall rest, String.length rest <= String.length (e a rest)) l ->
  Forall (fun a => forall rest, String.length (e a rest) <= N -> d (e a rest) = Some (a, rest)) l ->
  forall n rest, String.length (enc_items l rest) <= N -> String.length (enc_items l rest) <= n ->
  dec_items n (enc_items l rest) = Some (l, rest).
Proof.
  induction l as [|a l IH]; intros Hg Hd n rest HN Hn; cbn in *; destruct n as [|n]; try lia; [done|].
  apply Forall_cons in Hg as [Hga Hg]. apply Forall_cons in Hd as [Hda Hd]. specialize (Hga (enc_items l rest)).
  cbn. rewrite Hda by lia. cbn. rewrite (IH Hg Hd n rest) by lia. done.
Qed.
End items.

#[program, export] Instance wire_list {A} `{Wire A} : Wire (list A) := {|
  enc := enc_items enc;
  dec s := dec_items dec (String.length s) s
|}.
Next Obligation.
  intros A HA l rest. apply (dec_enc_items _ _ (String.length (enc_items enc l rest))); try lia; apply Forall_forall.
  - intros a _ r. apply enc_grows.
  - intros a _ r _. apply dec_enc.
Qed.
Next Obligation. intros A HA l rest. apply enc_items_grows, Forall_forall. intros a _ r. apply enc_grows. Qed.

(** ** JSON *)

Fixpoint enc_json (j : json) (rest : string) : string :=
  match j with
  | JNull => String "N" rest
  | JBool b => String (if b then "T" else "F") rest
  | JInt n => String "I" (enc n rest)
  | JStr s => String "S" (enc s rest)
  | JList l => String "L" (enc_items enc_json l rest)
  | JObj fs => String "O" (enc_items (fun f rest => enc f.1 (enc_json f.2 rest)) fs rest)
  end.

Fixpoint dec_json (n : nat) (s : string) : option (json * string) :=
  match n with
  | O => None
  | S n =>
      match s with
      | String "N" rest => Some (JNull, rest)
      | String "T" rest => Some (JBool true, rest)
      | String "F" rest => Some (JBool false, rest)
      | String "I" r => '(z, rest) ← dec r; Some (JInt z, rest)
      | String "S" r => '(t, rest) ← dec r; Some (JStr t, rest)
      | String "L" r => '(l, rest) ← dec_items (dec_json n) n r; Some (JList l, rest)
      | String "O" r =>
          '(l, rest) ← dec_items (fun r => '(k, r) ← dec r; '(j, rest) ← dec_json n r; Some ((k, j), rest)) n r; Some (JObj l, rest)
      | _ => None
      end
  end.

Lemma enc_json_grows j : forall rest, String.length rest <= String.length (enc_json j rest).
Proof.
  induction j as [|b|z|s|l IH|fs IH] using json_rect_nested; intros rest; cbn.
  - lia.
  - lia.
  - pose proof (enc_grows z rest) as Hg. cbn in Hg. lia.
  - pose proof (enc_grows s rest) as Hg. cbn in Hg. lia.
  - pose proof (enc_items_grows enc_json l IH rest). lia.
  - pose proof (enc_items_grows (fun f rest => enc_string f.1 (enc_json f.2 rest)) fs) as Hg.
    assert (Hall : Forall (fun f : string * json => forall rest, String.length rest <= String.length (enc_string f.1 (enc_json f.2 rest))) fs).
    { eapply Forall_impl; [exact IH|]. intros f Hf r. etrans; [apply Hf|exact (enc_grows (Wire := wire_string) f.1 (enc_json f.2 r))]. }
    specialize (Hg Hall rest). lia.
Qed.

Lemma dec_enc_json j : forall n rest, String.length (enc_json j rest) <= n -> dec_json n (enc_json j rest) = Some (j, rest).
Proof.
  induction j as [|b|z|s|l IH|fs IH] using json_rect_nested; intros n rest Hn; cbn [enc_json String.length] in Hn; destruct n as [|n]; try lia.
  - done.
  - by destruct b.
  - cbn [enc_json dec_json]. by rewrite dec_enc.
  - cbn [enc_json dec_json]. by rewrite dec_enc.
  - cbn [enc_json dec_json]. rewrite (dec_enc_items _ _ n l); [done| |eapply Forall_impl; [exact IH|]; intros a Ha r Hr; by apply Ha|lia..].
    apply Forall_forall. intros a _. apply enc_json_grows.
  - cbn [enc_json dec_json]. rewrite (dec_enc_items _ _ n fs); [done| | |lia..].
    + apply Forall_forall. intros f _ r. etrans; [apply (enc_json_grows f.2)|apply (enc_grows f.1)].
    + eapply Forall_impl; [exact IH|]. intros [k v] Hf r Hr. cbn [fst snd] in *. rewrite (dec_enc k). cbn [mbind option_bind]. rewrite Hf; [done|].
      etrans; [apply (enc_grows k)|exact Hr].
Qed.

#[program, export] Instance wire_json : Wire json := {| enc := enc_json; dec s := dec_json (String.length s) s |}.
Next Obligation. intros j rest. by apply dec_enc_json. Qed.
Next Obligation. intros j rest. apply enc_json_grows. Qed.

(** ** Rows *)

#[export] Instance wire_bool : Wire bool := wire_iso (fun b : bool => if b then 1%Z else 0%Z) (fun z => bool_decide (z = 1%Z)) ltac:(by intros []).

#[export] Instance wire_option {A} `{Wire A} : Wire (option A) :=
  wire_iso (fun o : option A => match o with Some a => inl a | None => inr 0%Z end)
    (fun x => match x with inl a => Some a | inr _ => None end) ltac:(by intros []).

#[export] Instance wire_kind : Wire EvidenceKind :=
  wire_iso (fun k => match k with SCORE_CHANGE => 0 | UNSETTLED => 1 | EXACT_CANDIDATE_VERDICT => 2 end%Z)
    (fun z => match z with 0 => SCORE_CHANGE | 1 => UNSETTLED | _ => EXACT_CANDIDATE_VERDICT end%Z) ltac:(by intros []).

#[export] Instance wire_verdict : Wire SubmissionVerdict :=
  wire_iso (fun k => match k with VERDICT_CORRECT => 0 | VERDICT_INCORRECT => 1 | VERDICT_REFUSED => 2 | VERDICT_PAUSED => 3
      | VERDICT_RATE_LIMITED => 4 end%Z)
    (fun z => match z with 0 => VERDICT_CORRECT | 1 => VERDICT_INCORRECT | 2 => VERDICT_REFUSED | 3 => VERDICT_PAUSED
      | _ => VERDICT_RATE_LIMITED end%Z) ltac:(by intros []).

#[export] Instance wire_row_type : Wire LedgerRowType := wire_iso (fun _ => 0%Z) (fun _ => ROW_SUBMISSION) ltac:(by intros []).

#[export] Instance wire_disposition : Wire SubmissionDisposition :=
  wire_iso (fun k => match k with PENDING => 0 | ACCEPTED => 1 | REJECTED => 2 | REFUSED_AND_SPENT => 3 | UNKNOWN_AND_SPENT => 4 end%Z)
    (fun z => match z with 0 => PENDING | 1 => ACCEPTED | 2 => REJECTED | 3 => REFUSED_AND_SPENT | _ => UNKNOWN_AND_SPENT end%Z)
    ltac:(by intros []).

#[export] Instance wire_probe : Wire ProbeRow :=
  wire_iso
    (fun p => (pr_at p, pr_scheduled_offset p, pr_kind p, pr_source p, pr_authenticated p, pr_candidate_match p, pr_verdict p,
       pr_request_id p, pr_classified_event_id p, pr_binding_digest p, pr_peer_identity_digest p, pr_submission_epoch p,
       pr_evidence_effect_id p, pr_supplied_value_digest p, pr_board_row_id p, pr_row_type p, pr_submitted_at p,
       pr_evidence_complete_identity p))
    (fun '(a, b, c, d, e, f, g, h, i, j, k, l, m, n, o, p, q, r) => Build_ProbeRow a b c d e f g h i j k l m n o p q r)
    ltac:(by intros []).

#[export] Instance wire_event : Wire AmbiguityEvent :=
  wire_iso
    (fun e => match e with
     | WireStarted a b c d e f => inl (inl (a, b, c, d, e, f))
     | PossiblySent a b c d => inl (inr (inl (a, b, c, d)))
     | BootReplayed o => inl (inr (inr o))
     | EvidenceProbe p => inr (inl p)
     | FenceWasClosed a d s => inr (inr (inl (a, d, s)))
     | ReconciliationFailed s => inr (inr (inr s))
     end)
    (fun x => match x with
     | inl (inl (a, b, c, d, e, f)) => WireStarted a b c d e f
     | inl (inr (inl (a, b, c, d))) => PossiblySent a b c d
     | inl (inr (inr o)) => BootReplayed o
     | inr (inl p) => EvidenceProbe p
     | inr (inr (inl (a, d, s))) => FenceWasClosed a d s
     | inr (inr (inr s)) => ReconciliationFailed s
     end)
    ltac:(by intros []).

#[export] Instance wire_row : Wire row :=
  wire_iso (fun r => (row_boot_id r, row_candidate_id r, row_effect_id r, row_event r))
    (fun '(a, b, c, d) => {| row_boot_id := a; row_candidate_id := b; row_effect_id := c; row_event := d |}) ltac:(by intros []).

(** The text of a journal. *)
Definition tagged_text (l : list row) : string := enc l "".

Definition tagged_rows (s : string) : result (list row) :=
  match dec s with Some (l, "") => Ok l | _ => Err (ValueError "not a journal") end.

Lemma tagged_rows_text l : tagged_rows (tagged_text l) = Ok l.
Proof. unfold tagged_rows, tagged_text. by rewrite dec_enc. Qed.

Lemma tagged_text_some l : tagged_text l <> "".
Proof. by destruct l. Qed.

#[export] Instance tagged : RowText := {|
  rows_text := tagged_text; rows_of := tagged_rows; rows_of_text := tagged_rows_text; rows_text_some := tagged_text_some
|}.
