(* ===== verification/AmbiguityWitness.v ===== *)
(** The fence on concrete runs over the write authority. *)

From S2P Require Import Prelude Canon Text PyJson Evidence Reservation ReservationLogic ReservationFacts Ambiguity AmbiguityLogic AmbiguityFacts AmbiguityTheorems PathStore RowCodec.
Local Open Scope Z_scope.

(** A digest that is cheap to evaluate. *)
Fixpoint rolling (h : N) (s : string) : N :=
  match s with EmptyString => h | String c s => rolling ((h * 31 + Ascii.N_of_ascii c) mod 65521) s end.

#[local] Instance short_digester : Digester := fun s => pretty (rolling 7 s).

Definition plain (s : string) : string := s.

Lemma path_plain : bounded_text plain AMBIGUITY_PATH_OPERATION = AMBIGUITY_PATH_OPERATION.
Proof. vm_compute. reflexivity. Qed.

#[local] Instance demo_paths : PathAuthority World := reservation_paths no_faults plain "boot-1".
#[local] Instance demo_paths_ok : PathAuthorityOk World := reservation_paths_ok no_faults plain "boot-1" path_plain.

Definition small_profile : WriteProfile :=
  Pools (capacity 0 0 0) (capacity 60000 3 60) (capacity 0 0 0) (capacity 0 0 0).

Definition nothing_on_close (s : PendingSubmission) : Prog World unit := mret tt.

Lemma nothing_spares : forall s w ps, path_sound w ps ->
  (exists ps', Forall2 moved ps ps' /\ path_sound (nothing_on_close s w).1 ps')
  \/ (forall u, (nothing_on_close s w).2 <> Done u) /\ path_damaged (nothing_on_close s w).1.
Proof. intros s w ps Hs. left. exists ps. split; [|exact Hs]. clear Hs. induction ps as [|p ps IH]; constructor; [by split|exact IH]. Qed.

Definition provisioned (p : WriteProfile) (n : nat) : World := {| disk := fresh_store p; writes_left := n; effects := [] |}.

Definition fresh_fence (p : WriteProfile) : Fence World := {| kept_by := provisioned p 99; anchors := [] |}.

Lemma fresh_fence_sound p : fence_sound (fresh_fence p) [].
Proof.
  split.
  - exists []. split; [|constructor]. assert (Hr : rows_locked (disk (kept_by (fresh_fence p))) = []) by apply fresh_rows.
    split.
    + rewrite Hr. constructor.
    + rewrite Hr. constructor.
    + unfold latest_locked. by rewrite Hr.
    + intros e c. by rewrite Hr.
    + intros q Hq. by apply not_elem_of_nil in Hq.
  - split.
    + split; [constructor|]. intros e rows r Hin. by apply not_elem_of_nil in Hin.
    + intros c. constructor.
    + intros c. cbn. lia.
    + intros r Hr. by apply not_elem_of_nil in Hr.
Qed.

Definition candidate (n : Z) : CompleteSubmissionIdentity := {|
  ci_board_identity := "board"; ci_challenge_id := n; ci_challenge_revision := "r1"; ci_instance_provenance := "static";
  ci_candidate_digest := "flag"; ci_submission_epoch := 1 |}.

Definition no_path_lost (w : World) : bool :=
  py_all (fun c => negb (is_path c) || retains_object (retention c)) (dict_values (latest_locked (disk w))).

Lemma no_path_lost_ok w : no_path_lost w = true -> ~ path_damaged w.
Proof.
  intros Hn (k & c & Hs & Hp & Hr). unfold no_path_lost, py_all in Hn. rewrite forallb_forall in Hn.
  assert (Hin : List.In c (dict_values (latest_locked (disk w)))).
  { apply list_elem_of_In. unfold dict_values. apply list_elem_of_fmap. exists (k, c). split; [done|]. by apply dict_get_Some_elem. }
  apply Hn in Hin. rewrite Hp, Hr in Hin. done.
Qed.

Definition silent (n : nat) (s : PendingSubmission) : option evidence := None.

Definition do_ (op : fence_op) (f : Fence World) : Fence World := (fence_do nothing_on_close "boot-1" op f).1.

Definition wired : Fence World := do_ (OpReserve 0 "cand-1" (candidate 1) true) (fresh_fence small_profile).
Definition sent : Fence World := do_ (OpBegin 0 "cand-1" (candidate 1)) wired.

Definition sent_pending : PendingSubmission := {|
  ps_candidate_id := "cand-1"; ps_effect_id := effect_id (candidate 1); ps_challenge_id := 1; ps_wire_started_at := 0;
  ps_deadline := FENCE_SECONDS; ps_disposition := PENDING; ps_provenance := ""; ps_complete_identity := identity_document (candidate 1) |}.

Definition expired : Fence World := do_ (OpReconcile 0 0 (seconds 61) sent_pending silent) sent.

Lemma sent_history : fence_history_of nothing_on_close (fresh_fence small_profile) sent.
Proof.
  refine (fence_operates nothing_on_close (fresh_fence small_profile) wired "boot-1" (OpBegin 0 "cand-1" (candidate 1)) _ _).
  - refine (fence_operates nothing_on_close (fresh_fence small_profile) (fresh_fence small_profile) "boot-1"
      (OpReserve 0 "cand-1" (candidate 1) true) (fence_starts _ _) _). apply no_path_lost_ok. vm_compute. reflexivity.
  - apply no_path_lost_ok. vm_compute. reflexivity.
Qed.

Lemma expired_history : fence_history_of nothing_on_close (fresh_fence small_profile) expired.
Proof.
  refine (fence_operates nothing_on_close (fresh_fence small_profile) sent "boot-1"
    (OpReconcile 0 0 (seconds 61) sent_pending silent) sent_history _). apply no_path_lost_ok. vm_compute. reflexivity.
Qed.

(** A Candidate is sent and never answered for: after a minute it is spent. *)
Lemma spends_once_witness :
  exists sts', states (kept_by expired) = Ok sts' /\ rtc spend_step None (ps_disposition <$> dict_get "cand-1" sts').
Proof.
  destruct (spends_once nothing_on_close nothing_spares (fresh_fence small_profile) expired [] (fresh_fence_sound small_profile) expired_history)
    as (sts & sts' & Hs & Hs' & Hlive).
  assert (He : states (kept_by (fresh_fence small_profile)) = Ok []) by (vm_compute; reflexivity).
  rewrite He in Hs. injection Hs as <-. exists sts'. split; [exact Hs'|]. exact (Hlive "cand-1").
Defined.

Lemma closures_justified_witness :
  exists rows, events (kept_by expired) = Ok rows /\ (length (probes "cand-1" rows) <= 4)%nat /\ forall r, r ∈ rows -> justified rows r.
Proof.
  destruct (closures_justified nothing_on_close nothing_spares (fresh_fence small_profile) expired [] (fresh_fence_sound small_profile) expired_history)
    as (rows & He & Hj & Hc). exists rows. split; [exact He|]. split; [exact (proj1 (Hc "cand-1"))|exact Hj].
Defined.

Lemma wired_sound : exists js, fence_sound wired js.
Proof.
  assert (Hh : fence_history_of nothing_on_close (fresh_fence small_profile) wired).
  { refine (fence_operates nothing_on_close (fresh_fence small_profile) (fresh_fence small_profile) "boot-1"
      (OpReserve 0 "cand-1" (candidate 1) true) (fence_starts _ _) _). apply no_path_lost_ok. vm_compute. reflexivity. }
  destruct (history_sound nothing_on_close nothing_spares _ _ _ (fresh_fence_sound small_profile) Hh) as (js & Hs & _). by exists js.
Qed.

Lemma begin_spends_witness : can_submit "cand-2" "other" (kept_by sent) = Ok false.
Proof.
  destruct wired_sound as (js & Hs).
  destruct (begin "boot-1" 0 "cand-1" (candidate 1) wired) as [f' [s|e|]] eqn:Eb.
  - destruct (begin_spends "boot-1" 0 "cand-1" (candidate 1) wired js Hs) as [_ Hdone].
    destruct (Hdone f' s Eb) as (_ & _ & _ & Hno).
    assert (Hf : sent = f') by (unfold sent, do_, fence_do, mbind, Prog_bind; rewrite Eb; reflexivity).
    rewrite Hf. exact (Hno "cand-2" "other").
  - exfalso. assert (Hd : match (begin "boot-1" 0 "cand-1" (candidate 1) wired).2 with Done _ => True | _ => False end) by (vm_compute; exact I).
    rewrite Eb in Hd. exact Hd.
  - exfalso. assert (Hd : match (begin "boot-1" 0 "cand-1" (candidate 1) wired).2 with Done _ => True | _ => False end) by (vm_compute; exact I).
    rewrite Eb in Hd. exact Hd.
Defined.

Lemma settles_after_expiry_witness :
  match (reconcile "boot-1" nothing_on_close silent 0 0 (seconds 61) sent_pending sent).2 with
  | Done s => ps_disposition s <> PENDING
  | _ => False
  end.
Proof.
  destruct (history_sound nothing_on_close nothing_spares _ _ _ (fresh_fence_sound small_profile) sent_history) as (js & Hs & _).
  assert (Hd : match (reconcile "boot-1" nothing_on_close silent 0 0 (seconds 61) sent_pending sent).2 with Done _ => True | _ => False end)
    by (vm_compute; exact I).
  destruct (reconcile "boot-1" nothing_on_close silent 0 0 (seconds 61) sent_pending sent) as [f' [s|e|]] eqn:Er; [|exact Hd..].
  apply (settles_after_expiry nothing_on_close nothing_spares "boot-1" silent 0 0 (seconds 61) sent_pending sent f' js s (0, 0) Hs).
  - vm_compute. reflexivity.
  - vm_compute. discriminate.
  - exact Er.
Defined.

(** ** Paths that lost their object *)

(** The shared pool has room for one path; the second is refused, and from then on the fence
    cannot say whether anything may be submitted. *)
Definition narrow_profile : WriteProfile :=
  Pools (capacity 0 0 0) (capacity 13000 1 30) (capacity 0 0 0) (capacity 0 0 0).

Definition full : Fence World := do_ (OpReserve 0 "cand-1" (candidate 1) true) (fresh_fence narrow_profile).
Definition refused : World := kept_by (do_ (OpReserve 0 "cand-2" (candidate 2) true) full).

Lemma full_sound : exists js, fence_sound full js.
Proof.
  assert (Hh : fence_history_of nothing_on_close (fresh_fence narrow_profile) full).
  { refine (fence_operates nothing_on_close (fresh_fence narrow_profile) (fresh_fence narrow_profile) "boot-1"
      (OpReserve 0 "cand-1" (candidate 1) true) (fence_starts _ _) _). apply no_path_lost_ok. vm_compute. reflexivity. }
  destruct (history_sound nothing_on_close nothing_spares _ _ _ (fresh_fence_sound narrow_profile) Hh) as (js & Hs & _). by exists js.
Qed.

Lemma reserve_lawful rq w :
  wf_rows (rows_locked (disk w)) -> lawful (rows_locked (disk w)) ->
  let rs := rows_locked (disk (reserve no_faults plain "boot-1" rq w).1) in kept rs rs.
Proof.
  intros Hwf Hl rs. pose proof (safe_reserve no_faults plain "boot-1" rq _ (effects w) Hwf Hl) as Hsafe.
  apply (runs_world _ _ _ _ w) in Hsafe as [(Hwf' & Hl' & _) _]; [|done|done]. by apply kept_refl.
Qed.

Lemma refused_lawful : kept (rows_locked (disk refused)) (rows_locked (disk refused)).
Proof.
  assert (He : refused = (reserve no_faults plain "boot-1" (path_request (candidate 2)) (kept_by full)).1) by (vm_compute; reflexivity).
  destruct full_sound as (js & [(ps & Hs & _) _]). rewrite He. exact (reserve_lawful _ _ (sound_wf _ _ Hs) (sound_lawful _ _ Hs)).
Qed.

Lemma refused_path_blocks_witness : exists e, can_submit "cand-3" "other" refused = Err e.
Proof.
  assert (Hc : option_map (fun c => (is_path c, state c, object_slots c))
    (status (path_key (effect_id (candidate 2))) (rows_locked (disk refused))) = Some (true, REFUSED, [])) by (vm_compute; reflexivity).
  destruct (status (path_key (effect_id (candidate 2))) (rows_locked (disk refused))) as [c|] eqn:Es; [|discriminate Hc].
  injection Hc as H1 H2 H3.
  destruct (refused_path_blocks no_faults plain "boot-1" refused refused (path_key (effect_id (candidate 2))) c Es H1 H2 H3 refused_lawful)
    as (_ & Hno & _).
  exact (Hno "cand-3" "other").
Defined.

(** A path that was released keeps naming its object.  When the next path is given that
    object, its journal is read twice: its wire start is no longer unique and the submission
    that may have been sent is never recorded. *)
Definition reused : Fence World :=
  do_ (OpReserve 0 "cand-2" (candidate 2) true)
    (release_unused_path (effect_id (candidate 1)) (do_ (OpReserve 0 "cand-1" (candidate 1) false) (fresh_fence small_profile))).1.

Lemma released_object_read_twice :
  begin "boot-1" 0 "cand-2" (candidate 2) reused = (reused, Raised (ValueError "submission has no unique durable wire start"))
  /\ can_submit "cand-2" (effect_id (candidate 2)) (kept_by reused) = Ok true.
Proof. split; vm_compute; reflexivity. Qed.

(** After a restart a fence counts the time of the others: the closing time of a fence that
    expired is a reading of the wall clock, the time carried over a restart is the largest on
    record of any Candidate, and a submission one second old is closed as unknown. *)
Definition older : Fence World :=
  do_ (OpReconcile 0 0 (seconds 61)
        {| ps_candidate_id := "cand-1"; ps_effect_id := effect_id (candidate 1); ps_challenge_id := 1;
           ps_wire_started_at := seconds 1000; ps_deadline := seconds 1060; ps_disposition := PENDING; ps_provenance := "";
           ps_complete_identity := identity_document (candidate 1) |} silent)
    (do_ (OpBegin 0 "cand-1" (candidate 1)) (do_ (OpReserve (seconds 1000) "cand-1" (candidate 1) true) (fresh_fence small_profile))).

Definition younger : Fence World :=
  do_ (OpBegin 0 "cand-2" (candidate 2)) (do_ (OpReserve (seconds 2000) "cand-2" (candidate 2) true) older).

Lemma restart_inherits_elapsed :
  can_submit "cand-3" "other" (kept_by younger) = Ok false
  /\ let rebooted := {| kept_by := kept_by younger; anchors := [] |} in
     match pending (kept_by younger) with
     | Ok [p] =>
         match (reconcile "boot-2" nothing_on_close silent 0 (seconds 2001) 0 p rebooted).2 with
         | Done s => ps_disposition s = UNKNOWN_AND_SPENT
         | _ => False
         end
     | _ => False
     end.
Proof. split; vm_compute; reflexivity. Qed.
