(* ===== verification/LaneTopology.v ===== *)
(** Lanes: the contracts, the admission journal and the state of a scheduling cycle.

    [src/solver/lane_topology_contracts.py], [src/solver/lane_topology_journal.py] and the cycle
    bookkeeping of [src/solver/lane_topology.py].  Seconds are integers of microseconds and
    timestamps are moments; the file of the journal holds the rows it was last written with. *)

From S2P Require Import Prelude Canon Moment.
Local Open Scope Z_scope.

(** ** Contracts *)

Inductive LaneVerdict : Type := LANE_COMPLETE | LANE_FAILED | LANE_STALLED.

Inductive LaneJournalState : Type :=
  | LANE_RESERVED
  | LANE_ACTIVE
  | CLOSING (v : LaneVerdict)
  | SETTLED (v : LaneVerdict).

#[export] Instance LaneVerdict_eq_dec : EqDecision LaneVerdict.
Proof. solve_decision. Defined.
#[export] Instance LaneJournalState_eq_dec : EqDecision LaneJournalState.
Proof. solve_decision. Defined.

Definition unsettled (s : LaneJournalState) : bool := match s with LANE_RESERVED | LANE_ACTIVE => true | _ => false end.

Definition is_closing (s : LaneJournalState) : bool := match s with CLOSING _ => true | _ => false end.

Definition closing_for (v : LaneVerdict) : LaneJournalState := CLOSING v.

(** [EnvelopeSpec] of [attempt_executor_contracts.py]. *)
Record EnvelopeSpec : Type := {
  cpu_us : Z;
  cpu_quota_us : Z;
  memory_bytes : Z;
  pids : Z;
  filesystem_bytes : Z;
  network : string;
  wall_us : Z;
  cleanup_us : Z
}.

Definition EnvelopeSpec_new (e : EnvelopeSpec) : result EnvelopeSpec :=
  raise_if (py_any (fun n => n <=? 0)
      [cpu_us e; cpu_quota_us e; memory_bytes e; pids e; filesystem_bytes e; wall_us e; cleanup_us e])
    (ValueError "every Resource-envelope limit must be positive");;
  raise_if (100000 <? cpu_quota_us e) (ValueError "CPU quota cannot exceed one full core per 100ms period");;
  Ok e.

Record LaneProfile : Type := {
  lanes : nat;
  global_resource_units : Z;
  global_cpu_quota_us : Z;
  global_memory_bytes : Z;
  global_pids : Z;
  global_filesystem_bytes : Z;
  global_wall_us : Z;
  global_cleanup_us : Z
}.

Definition LaneProfile_new (p : LaneProfile) : result LaneProfile :=
  raise_unless (bool_decide (lanes p = 1%nat) || bool_decide (lanes p = 2%nat))
    (ValueError "Lane profile supports exactly one or two Lanes");;
  raise_if (global_resource_units p <? Z.of_nat (lanes p))
    (ValueError "enabled Lanes require independent global Resource capacity");;
  raise_if (py_any (fun n => n <=? 0)
      [global_cpu_quota_us p; global_memory_bytes p; global_pids p; global_filesystem_bytes p; global_wall_us p;
       global_cleanup_us p])
    (ValueError "Lane profile requires positive global Resource and clock budgets");;
  Ok p.

Record WorkCandidate : Type := {
  wc_work_id : string;
  wc_order_rank : Z;
  wc_budget_us : Z;
  wc_resource_units : Z;
  wc_lease_id : string;
  wc_envelope : EnvelopeSpec;
  wc_tier : Z;
  wc_order_version : string
}.

Definition WorkCandidate_new (c : WorkCandidate) : result WorkCandidate :=
  raise_if (bool_decide (wc_work_id c = "")
      || py_any (fun n => n <=? 0) [wc_order_rank c; wc_budget_us c; wc_resource_units c])
    (ValueError "Work candidate requires ranked Work, budget, and Resource identities");;
  raise_if ((wc_tier c <=? 0) || bool_decide (wc_order_version c = ""))
    (ValueError "Work candidate requires acquired Tier and Order version");;
  raise_if (wall_us (wc_envelope c) <? wc_budget_us c)
    (ValueError "Work budget exceeds its Attempt Resource envelope");;
  Ok c.

Record LaneBinding : Type := {
  lb_lane_id : string;
  lb_work_id : string;
  lb_attempt_id : string;
  lb_generation_id : string;
  lb_envelope_id : string;
  lb_envelope : EnvelopeSpec;
  lb_lease_id : string;
  lb_order_rank : Z;
  lb_budget_us : Z;
  lb_resource_units : Z;
  lb_tier : Z;
  lb_order_version : string;
  lb_admitted_at : moment;
  lb_hard_deadline : moment
}.

Record LaneOutcome : Type := {
  lo_binding : LaneBinding;
  lo_outcome : LaneVerdict;
  lo_seconds : Z;
  lo_reason : string
}.

(** ** The journal *)

Record LaneRow : Type := {
  lr_state : LaneJournalState;
  lr_lane_id : string;
  lr_work_id : string;
  lr_attempt_id : string;
  lr_generation_id : string;
  lr_lease_id : string;
  lr_envelope_id : string;
  lr_envelope : EnvelopeSpec;
  lr_tier : Z;
  lr_budget_us : Z;
  lr_order_rank : Z;
  lr_order_version : string;
  lr_admitted_at : moment;
  lr_hard_deadline : moment;
  lr_settled : option (Z * string)
}.

(** The row with another state, generation, and seconds and reason. *)
Definition with_state (s : LaneJournalState) (g : string) (settled : option (Z * string)) (r : LaneRow) : LaneRow := {|
  lr_state := s; lr_lane_id := lr_lane_id r; lr_work_id := lr_work_id r; lr_attempt_id := lr_attempt_id r;
  lr_generation_id := g; lr_lease_id := lr_lease_id r; lr_envelope_id := lr_envelope_id r; lr_envelope := lr_envelope r;
  lr_tier := lr_tier r; lr_budget_us := lr_budget_us r; lr_order_rank := lr_order_rank r;
  lr_order_version := lr_order_version r; lr_admitted_at := lr_admitted_at r; lr_hard_deadline := lr_hard_deadline r;
  lr_settled := settled |}.

(** [for row in reversed(rows): if p(row): row.update(...); return]. *)
Fixpoint update_last {A} (p : A -> bool) (f : A -> A) (rows : list A) : option (list A) :=
  match rows with
  | [] => None
  | r :: rows =>
      match update_last p f rows with
      | Some rows' => Some (r :: rows')
      | None => if p r then Some (f r :: rows) else None
      end
  end.

Definition update_or (e : exn) {A} (p : A -> bool) (f : A -> A) (rows : list A) : result (list A) :=
  match update_last p f rows with Some rows' => Ok rows' | None => Err e end.

Definition reserve_row (lane : string) (c : WorkCandidate) (attempt envelope : string) (admitted deadline : moment) (budget : Z)
    (rows : list LaneRow) : result (list LaneRow) :=
  raise_if (py_any (fun r => unsettled (lr_state r) && bool_decide (lr_work_id r = wc_work_id c)) rows)
    (ValueError "Challenge already has an active Lane claim");;
  Ok (rows ++ [{|
    lr_state := LANE_RESERVED; lr_lane_id := lane; lr_work_id := wc_work_id c; lr_attempt_id := attempt; lr_generation_id := "";
    lr_lease_id := wc_lease_id c; lr_envelope_id := envelope; lr_envelope := wc_envelope c; lr_tier := wc_tier c;
    lr_budget_us := budget; lr_order_rank := wc_order_rank c; lr_order_version := wc_order_version c;
    lr_admitted_at := admitted; lr_hard_deadline := deadline; lr_settled := None |}]).

Definition bind_row (b : LaneBinding) : list LaneRow -> result (list LaneRow) :=
  update_or (ValueError "Lane generation has no durable admission reservation")
    (fun r => bool_decide (lr_attempt_id r = lb_attempt_id b) && bool_decide (lr_state r = LANE_RESERVED))
    (fun r => with_state LANE_ACTIVE (lb_generation_id b) (lr_settled r) r).

Definition begin_settle_row (o : LaneOutcome) : list LaneRow -> result (list LaneRow) :=
  update_or (ValueError "Lane settlement has no durable admission")
    (fun r => bool_decide (lr_generation_id r = lb_generation_id (lo_binding o)) && bool_decide (lr_state r = LANE_ACTIVE))
    (fun r => with_state (closing_for (lo_outcome o)) (lr_generation_id r) (Some (Z.max 0 (lo_seconds o), lo_reason o)) r).

(** [row["state"] = state.verdict.value]. *)
Definition settled_state (s : LaneJournalState) : LaneJournalState := match s with CLOSING v => SETTLED v | s => s end.

Definition finish_settle_row (generation : string) : list LaneRow -> result (list LaneRow) :=
  update_or (ValueError "Lane settlement reservation is absent")
    (fun r => bool_decide (lr_generation_id r = generation) && is_closing (lr_state r))
    (fun r => with_state (settled_state (lr_state r)) (lr_generation_id r) (lr_settled r) r).

Definition interrupt_row (attempt : string) : list LaneRow -> result (list LaneRow) :=
  update_or (ValueError "interrupted Lane reservation is absent")
    (fun r => bool_decide (lr_attempt_id r = attempt) && unsettled (lr_state r))
    (fun r => with_state (SETTLED LANE_FAILED) (lr_generation_id r) (Some (0, "restart-interrupted")) r).

(** The journal: what is in memory, what is in the file, and the writes left before power is
    lost. *)
Record LaneJournal : Type := { jl_rows : list LaneRow; jl_file : list LaneRow; jl_writes : nat }.

Definition jl_write : Prog LaneJournal unit := fun j =>
  match jl_writes j with
  | O => (j, Crashed)
  | S n => ({| jl_rows := jl_rows j; jl_file := jl_rows j; jl_writes := n |}, Done tt)
  end.

(** The rows in memory change first, then the file is written. *)
Definition jl_change (f : list LaneRow -> result (list LaneRow)) : Prog LaneJournal unit := fun j =>
  match f (jl_rows j) with
  | Ok rows => jl_write {| jl_rows := rows; jl_file := jl_file j; jl_writes := jl_writes j |}
  | Err e => (j, Raised e)
  end.

Definition jl_reserve lane c attempt envelope admitted deadline budget : Prog LaneJournal unit :=
  jl_change (reserve_row lane c attempt envelope admitted deadline budget).
Definition jl_bind b : Prog LaneJournal unit := jl_change (bind_row b).
Definition jl_begin_settle o : Prog LaneJournal unit := jl_change (begin_settle_row o).
Definition jl_finish_settle g : Prog LaneJournal unit := jl_change (finish_settle_row g).
Definition jl_interrupt_attempt a : Prog LaneJournal unit := jl_change (interrupt_row a).

Definition unsettled_attempt_ids (rows : list LaneRow) : list string :=
  lr_attempt_id <$> List.filter (fun r => unsettled (lr_state r)) rows.

Definition closing_rows (rows : list LaneRow) : list LaneRow := List.filter (fun r => is_closing (lr_state r)) rows.

(** What [_load] asks of a row: a deadline after the admission, and a budget that fits up to a
    millisecond. *)
Definition row_loads (r : LaneRow) : bool :=
  negb (at_or_before (lr_hard_deadline r) (lr_admitted_at r))
  && (lr_budget_us r <=? us_between (lr_hard_deadline r) (lr_admitted_at r) + 1000).

Fixpoint load_rows (rows : list LaneRow) : result unit :=
  match rows with
  | [] => Ok tt
  | r :: rows => raise_unless (row_loads r) (ValueError "Lane admission journal deadline is invalid");; load_rows rows
  end.

Definition jl_load (file : list LaneRow) (writes : nat) : result LaneJournal :=
  load_rows file;; Ok {| jl_rows := file; jl_file := file; jl_writes := writes |}.

(** ** A cycle *)

Record CycleState : Type := {
  cy_profile : LaneProfile;
  cy_pending : list (nat * LaneBinding);
  cy_claimed : list string;
  cy_admitted : list LaneBinding;
  cy_outcomes : list (string * LaneOutcome);
  cy_abandoned_owner : bool;
  cy_free_lanes : list string;
  cy_peak_resources : Z;
  cy_peak_cpu : Z;
  cy_peak_memory : Z;
  cy_peak_pids : Z;
  cy_peak_filesystem : Z
}.

Definition lane_name (n : nat) : string := "lane-" +:+ str_int (Z.of_nat n).

(** [_CycleState(profile)]. *)
Definition cycle_new (p : LaneProfile) : CycleState := {|
  cy_profile := p; cy_pending := []; cy_claimed := []; cy_admitted := []; cy_outcomes := []; cy_abandoned_owner := false;
  cy_free_lanes := lane_name <$> seq 1 (lanes p); cy_peak_resources := 0; cy_peak_cpu := 0; cy_peak_memory := 0;
  cy_peak_pids := 0; cy_peak_filesystem := 0 |}.

Definition active_bindings (c : CycleState) : list LaneBinding := dict_values (cy_pending c).

Definition active_resources (c : CycleState) : Z := sumZ (lb_resource_units <$> active_bindings c).

(** [list.remove]: the first occurrence. *)
Fixpoint list_remove (x : string) (l : list string) : list string :=
  match l with [] => [] | y :: l => if bool_decide (y = x) then l else y :: list_remove x l end.

Definition envelope_total (f : EnvelopeSpec -> Z) (l : list LaneBinding) : Z := sumZ ((f ∘ lb_envelope) <$> l).

(** [admit]. *)
Definition cycle_admit (b : LaneBinding) (future : nat) (c : CycleState) : CycleState :=
  let pending := dict_set future b (cy_pending c) in
  let active := dict_values pending in {|
  cy_profile := cy_profile c; cy_pending := pending; cy_claimed := lb_work_id b :: cy_claimed c;
  cy_admitted := cy_admitted c ++ [b]; cy_outcomes := cy_outcomes c; cy_abandoned_owner := cy_abandoned_owner c;
  cy_free_lanes := list_remove (lb_lane_id b) (cy_free_lanes c);
  cy_peak_resources := Z.max (cy_peak_resources c) (sumZ (lb_resource_units <$> active));
  cy_peak_cpu := Z.max (cy_peak_cpu c) (envelope_total cpu_quota_us active);
  cy_peak_memory := Z.max (cy_peak_memory c) (envelope_total memory_bytes active);
  cy_peak_pids := Z.max (cy_peak_pids c) (envelope_total pids active);
  cy_peak_filesystem := Z.max (cy_peak_filesystem c) (envelope_total filesystem_bytes active) |}.

(** [close]: [None] when the future is not pending ([KeyError]). *)
Definition cycle_close (future : nat) (o : LaneOutcome) (release_lane : bool) (c : CycleState) : result CycleState :=
  match dict_get future (cy_pending c) with
  | None => Err (KeyError "future")
  | Some b => Ok {|
      cy_profile := cy_profile c; cy_pending := dict_del future (cy_pending c); cy_claimed := cy_claimed c;
      cy_admitted := cy_admitted c; cy_outcomes := dict_set (lb_attempt_id b) o (cy_outcomes c);
      cy_abandoned_owner := cy_abandoned_owner c;
      cy_free_lanes := if release_lane then sort_by id (cy_free_lanes c ++ [lb_lane_id b]) else cy_free_lanes c;
      cy_peak_resources := cy_peak_resources c; cy_peak_cpu := cy_peak_cpu c; cy_peak_memory := cy_peak_memory c;
      cy_peak_pids := cy_peak_pids c; cy_peak_filesystem := cy_peak_filesystem c |}
  end.

(** [cycle.abandoned_owner = cycle.abandoned_owner or not owner_finished]. *)
Definition note_owner (owner_finished : bool) (c : CycleState) : CycleState := {|
  cy_profile := cy_profile c; cy_pending := cy_pending c; cy_claimed := cy_claimed c; cy_admitted := cy_admitted c;
  cy_outcomes := cy_outcomes c; cy_abandoned_owner := cy_abandoned_owner c || negb owner_finished;
  cy_free_lanes := cy_free_lanes c; cy_peak_resources := cy_peak_resources c; cy_peak_cpu := cy_peak_cpu c;
  cy_peak_memory := cy_peak_memory c; cy_peak_pids := cy_peak_pids c; cy_peak_filesystem := cy_peak_filesystem c |}.

(** [_fits]. *)
Definition lane_fits (p : LaneProfile) (c : WorkCandidate) (active : list LaneBinding) (resources : Z) : bool :=
  let total f := sumZ ((f ∘ lb_envelope) <$> active) + f (wc_envelope c) in
  (resources + wc_resource_units c <=? global_resource_units p)
  && (total cpu_quota_us <=? global_cpu_quota_us p) && (total memory_bytes <=? global_memory_bytes p)
  && (total pids <=? global_pids p) && (total filesystem_bytes <=? global_filesystem_bytes p).

(** What [_fill] gives the next free Lane: the first Lane that accepts work, and the first
    unclaimed Work of the Order if it fits. *)
Definition next_admission (accepts : string -> bool) (ranked : list WorkCandidate) (c : CycleState) :
    option (string * WorkCandidate) :=
  match py_next accepts (cy_free_lanes c), py_next (fun w => negb (bool_decide (wc_work_id w ∈ cy_claimed c))) ranked with
  | Some lane, Some w => if lane_fits (cy_profile c) w (active_bindings c) (active_resources c) then Some (lane, w) else None
  | _, _ => None
  end.

(** The binding [_admit_one] makes of an admission. *)
Definition binding_for (lane : string) (w : WorkCandidate) (attempt generation : string) (budget : Z) (admitted deadline : moment) :
    LaneBinding := {|
  lb_lane_id := lane; lb_work_id := wc_work_id w; lb_attempt_id := attempt; lb_generation_id := generation;
  lb_envelope_id := attempt +:+ ":resource-envelope"; lb_envelope := wc_envelope w; lb_lease_id := wc_lease_id w;
  lb_order_rank := wc_order_rank w; lb_budget_us := budget; lb_resource_units := wc_resource_units w; lb_tier := wc_tier w;
  lb_order_version := wc_order_version w; lb_admitted_at := admitted; lb_hard_deadline := deadline |}.

(** The budget of an admission: the Candidate's, [final] (what is left of the cycle or of a
    final chance) and, with a final interval, the time to its cutoff. *)
Definition admission_budget (w : WorkCandidate) (final : Z) (cutoff : option moment) (admitted : moment) : Z :=
  Z.min (wc_budget_us w) (match cutoff with Some m => Z.min final (Z.max 0 (us_between m admitted)) | None => final end).

(** [admitted_at + dt.timedelta(seconds=budget_seconds)]. *)
Definition plus_us (m : moment) (us : Z) : moment := Moment (Moment.wall_us m + us) (utc_offset m).

(** A future is the number of the admission it was submitted for.  One turn of a cycle: a free
    Lane is offered the Order and, when the admission goes through, a future starts; a future completes; or one outlives its budget and is
    terminated. *)
Inductive turn : Type :=
  | Fill (accepts : string -> bool) (ranked : list WorkCandidate) (attempt generation : string) (budget : Z)
      (admitted deadline : moment)
  | Complete (future : nat) (o : LaneOutcome)
  | Expire (future : nat) (o : LaneOutcome) (owner_finished : bool).

Definition take_turn (t : turn) (c : CycleState) : result CycleState :=
  match t with
  | Fill accepts ranked attempt generation budget admitted deadline =>
      match next_admission accepts ranked c with
      | Some (lane, w) =>
          Ok (cycle_admit (binding_for lane w attempt generation budget admitted deadline) (length (cy_admitted c)) c)
      | None => Ok c
      end
  | Complete future o => cycle_close future o true c
  | Expire future o owner_finished => cycle_close future o owner_finished (note_owner owner_finished c)
  end.

Fixpoint take_turns (l : list turn) (c : CycleState) : result CycleState :=
  match l with [] => Ok c | t :: l => c ← take_turn t c; take_turns l c end.
