(* ===== verification/LaneFacts.v ===== *)
(** What the Lanes of a cycle and their journal promise. *)

From S2P Require Import Prelude Canon Moment LaneTopology.
Local Open Scope Z_scope.

(** ** Dicts of pending futures *)

Lemma dict_set_fresh {A} k (v : A) (d : list (nat * A)) : k ∉ d.*1 -> dict_set k v d = d ++ [(k, v)].
Proof.
  induction d as [|[k' v'] d IH]; intros Hk; [done|]. cbn. csimpl in Hk. rewrite bool_decide_false by set_solver. f_equal. apply IH. set_solver.
Qed.

Lemma dict_del_split {A} k (v : A) (d : list (nat * A)) :
  dict_get k d = Some v -> exists l1 l2, d = l1 ++ (k, v) :: l2 /\ dict_del k d = l1 ++ l2.
Proof.
  induction d as [|[k' v'] d IH]; intros Hk; [done|]. cbn in *. case_bool_decide as E.
  - injection Hk as ->. subst k'. by exists [], d.
  - destruct (IH Hk) as (l1 & l2 & -> & ->). by exists ((k', v') :: l1), l2.
Qed.

Lemma list_remove_split x l : x ∈ l -> exists l1 l2, l = l1 ++ x :: l2 /\ list_remove x l = l1 ++ l2.
Proof.
  induction l as [|y l IH]; intros Hx; [by apply not_elem_of_nil in Hx|]. cbn. case_bool_decide as E.
  - subst y. by exists [], l.
  - destruct IH as (l1 & l2 & -> & ->); [set_solver|]. by exists (y :: l1), l2.
Qed.

(** ** Capacity *)

Definition units_of (l : list LaneBinding) : Z := sumZ (lb_resource_units <$> l).

Definition binding_sane (b : LaneBinding) : Prop :=
  0 < lb_resource_units b /\ 0 < cpu_quota_us (lb_envelope b) /\ 0 < memory_bytes (lb_envelope b)
  /\ 0 < pids (lb_envelope b) /\ 0 < filesystem_bytes (lb_envelope b).

Definition within (p : LaneProfile) (units cpu memory pids_ files : Z) : Prop :=
  units <= global_resource_units p /\ cpu <= global_cpu_quota_us p /\ memory <= global_memory_bytes p
  /\ pids_ <= global_pids p /\ files <= global_filesystem_bytes p.

Definition totals_within (p : LaneProfile) (l : list LaneBinding) : Prop :=
  within p (units_of l) (envelope_total cpu_quota_us l) (envelope_total memory_bytes l) (envelope_total pids l)
    (envelope_total filesystem_bytes l).

(** The Lanes of a cycle: those at work and those free are different Lanes of the profile;
    Works were claimed once; the totals and their peaks are within the profile. *)
Record cycle_sound (c : CycleState) : Prop := {
  cs_lanes : NoDup ((lb_lane_id <$> active_bindings c) ++ cy_free_lanes c);
  cs_named : Forall (fun l => l ∈ lane_name <$> seq 1 (lanes (cy_profile c))) ((lb_lane_id <$> active_bindings c) ++ cy_free_lanes c);
  cs_works : NoDup (lb_work_id <$> cy_admitted c);
  cs_claimed w : w ∈ lb_work_id <$> cy_admitted c -> w ∈ cy_claimed c;
  cs_futures k : k ∈ (cy_pending c).*1 -> (k < length (cy_admitted c))%nat;
  cs_pending : Forall (fun b => b ∈ cy_admitted c) (active_bindings c);
  cs_sane : Forall binding_sane (active_bindings c);
  cs_totals : totals_within (cy_profile c) (active_bindings c);
  cs_peaks : within (cy_profile c) (cy_peak_resources c) (cy_peak_cpu c) (cy_peak_memory c) (cy_peak_pids c) (cy_peak_filesystem c)
}.

(** The Order offers Candidates and envelopes their constructors accept. *)
Definition offered_ok (w : WorkCandidate) : Prop :=
  WorkCandidate_new w = Ok w /\ EnvelopeSpec_new (wc_envelope w) = Ok (wc_envelope w).

Definition turn_ok (t : turn) : Prop := match t with Fill _ ranked _ _ _ _ _ => Forall offered_ok ranked | _ => True end.

Lemma offered_sane w lane attempt generation budget admitted deadline :
  offered_ok w -> binding_sane (binding_for lane w attempt generation budget admitted deadline).
Proof.
  unfold offered_ok, WorkCandidate_new, EnvelopeSpec_new. intros [Hw He].
  apply bind_ok in Hw as ([] & Hw%raise_if_ok & _). apply bind_ok in He as ([] & He%raise_if_ok & _).
  apply orb_false_iff in Hw as [_ Hw]. unfold py_any in *. cbn in Hw, He.
  repeat rewrite orb_false_iff, Z.leb_gt in Hw. repeat rewrite orb_false_iff, Z.leb_gt in He. unfold binding_sane. cbn. lia.
Qed.

Lemma sumZ_cons x l : sumZ (x :: l) = x + sumZ l.
Proof. done. Qed.

Lemma envelope_total_snoc f l b : envelope_total f (l ++ [b]) = envelope_total f l + f (lb_envelope b).
Proof. unfold envelope_total. rewrite fmap_app, sumZ_app. cbn. lia. Qed.

Lemma envelope_total_less f l1 l2 b : 0 < f (lb_envelope b) -> envelope_total f (l1 ++ l2) <= envelope_total f (l1 ++ b :: l2).
Proof. intros Hb. unfold envelope_total. rewrite !fmap_app, !sumZ_app, fmap_cons, sumZ_cons. cbn. lia. Qed.

Lemma totals_admitted p w l lane attempt generation budget admitted deadline :
  lane_fits p w l (units_of l) = true -> totals_within p (l ++ [binding_for lane w attempt generation budget admitted deadline]).
Proof.
  unfold lane_fits. intros Hf. bool_to_prop. unfold totals_within, within, units_of in *.
  rewrite !envelope_total_snoc, fmap_app, sumZ_app. unfold envelope_total. cbn. lia.
Qed.

Lemma totals_closed p l1 l2 b : binding_sane b -> totals_within p (l1 ++ b :: l2) -> totals_within p (l1 ++ l2).
Proof.
  intros (H1 & H2 & H3 & H4 & H5) (G1 & G2 & G3 & G4 & G5). unfold totals_within, within.
  assert (units_of (l1 ++ l2) <= units_of (l1 ++ b :: l2)) by (unfold units_of; rewrite !fmap_app, !sumZ_app, fmap_cons, sumZ_cons; lia).
  split_and!; [lia|etrans; [apply envelope_total_less|]; eassumption..].
Qed.

Lemma cycle_new_sound p : LaneProfile_new p = Ok p -> cycle_sound (cycle_new p).
Proof.
  unfold LaneProfile_new. intros Hp. apply bind_ok in Hp as ([] & _ & Hp). apply bind_ok in Hp as ([] & Hu%raise_if_ok & Hp).
  apply bind_ok in Hp as ([] & Hg%raise_if_ok & _). unfold py_any in Hg. cbn in Hg. bool_to_prop.
  split; cbn; try (by constructor); try (intros ? Hx; by apply not_elem_of_nil in Hx).
  - apply NoDup_fmap_2_strong; [|apply NoDup_seq]. intros x y _ _ Hxy. unfold lane_name, str_int in Hxy.
    injection Hxy as Hxy. change (pretty (Z.of_nat x) = pretty (Z.of_nat y)) in Hxy. apply (inj (R:=eq) (S:=eq) (pretty (A:=Z))) in Hxy. lia.
  - apply Forall_forall. done.
  - unfold totals_within, within, units_of, envelope_total. cbn. lia.
  - unfold within. lia.
Qed.

Lemma within_max p u c m i f u' c' m' i' f' :
  within p u c m i f -> within p u' c' m' i' f' -> within p (Z.max u u') (Z.max c c') (Z.max m m') (Z.max i i') (Z.max f f').
Proof. unfold within. lia. Qed.

Lemma admit_sound c lane w attempt generation budget admitted deadline accepts ranked :
  cycle_sound c -> Forall offered_ok ranked -> next_admission accepts ranked c = Some (lane, w) ->
  cycle_sound (cycle_admit (binding_for lane w attempt generation budget admitted deadline) (length (cy_admitted c)) c).
Proof.
  intros Hs Hr Hn. unfold next_admission in Hn. destruct (py_next accepts _) as [lane'|] eqn:El; [|done].
  destruct (py_next _ ranked) as [w'|] eqn:Ew; [|done]. destruct (lane_fits _ _ _ _) eqn:Ef; [|done]. injection Hn as -> ->.
  apply py_next_Some in El as [Hl _]. apply py_next_Some in Ew as [Hw Hnew]. apply negb_true_iff, bool_decide_eq_false in Hnew.
  set (b := binding_for lane w attempt generation budget admitted deadline).
  assert (Hpend : dict_set (length (cy_admitted c)) b (cy_pending c) = cy_pending c ++ [(length (cy_admitted c), b)]).
  { apply dict_set_fresh. intros Hin%(cs_futures c Hs). lia. }
  assert (Hvals : dict_values (dict_set (length (cy_admitted c)) b (cy_pending c)) = active_bindings c ++ [b]).
  { rewrite Hpend. unfold active_bindings, dict_values. by rewrite fmap_app. }
  assert (Hact : active_bindings (cycle_admit b (length (cy_admitted c)) c) = active_bindings c ++ [b]) by exact Hvals.
  destruct (list_remove_split lane (cy_free_lanes c) Hl) as (l1 & l2 & Hfree & Hrem).
  assert (Hperm : (lb_lane_id <$> active_bindings c ++ [b]) ++ list_remove (lb_lane_id b) (cy_free_lanes c)
    ≡ₚ (lb_lane_id <$> active_bindings c) ++ cy_free_lanes c).
  { change (lb_lane_id b) with lane. rewrite Hrem, Hfree, fmap_app. cbn. rewrite <-app_assoc. apply Permutation_app_head. cbn. apply Permutation_middle. }
  assert (Hsane : binding_sane b) by (apply offered_sane; rewrite Forall_forall in Hr; by apply Hr).
  pose proof (totals_admitted (cy_profile c) w (active_bindings c) lane attempt generation budget admitted deadline Ef) as Htot. fold b in Htot.
  split; rewrite ?Hact; cbn [cy_free_lanes cy_profile cy_admitted cy_claimed cy_pending cycle_admit].
  - by rewrite Hperm; apply Hs.
  - by rewrite Hperm; apply Hs.
  - rewrite fmap_app. apply NoDup_app. split; [apply Hs|]. split; [|apply NoDup_singleton].
    intros x Hx Hb%list_elem_of_singleton. cbn in Hb. subst x. by apply Hnew, (cs_claimed c Hs).
  - intros x. rewrite fmap_app. intros [Hx%(cs_claimed c Hs)|Hx%list_elem_of_singleton]%elem_of_app; [by right|]. cbn in Hx. subst x. by left.
  - intros k. rewrite Hpend, fmap_app, length_app. cbn. intros [Hk%(cs_futures c Hs)|Hk%list_elem_of_singleton]%elem_of_app; lia.
  - apply Forall_app. split; [|apply Forall_singleton; set_solver]. eapply Forall_impl; [apply (cs_pending c Hs)|]. set_solver.
  - apply Forall_app. split; [apply Hs|by apply Forall_singleton].
  - exact Htot.
  - cbn [cy_peak_resources cy_peak_cpu cy_peak_memory cy_peak_pids cy_peak_filesystem cycle_admit]. rewrite Hvals. apply within_max; [apply Hs|exact Htot].
Qed.

Lemma close_sound c future o release c' : cycle_sound c -> cycle_close future o release c = Ok c' -> cycle_sound c'.
Proof.
  intros Hs Hc. unfold cycle_close in Hc. destruct (dict_get future (cy_pending c)) as [b|] eqn:Eb; [|done]. injection Hc as <-.
  destruct (dict_del_split future b _ Eb) as (l1 & l2 & Hp & Hdel). pose proof (cs_lanes c Hs) as Hlanes. pose proof (cs_named c Hs) as Hnamed.
  assert (Hact : active_bindings c = l1.*2 ++ b :: l2.*2) by (unfold active_bindings, dict_values; by rewrite Hp, fmap_app).
  assert (Hsub : (lb_lane_id <$> l1.*2 ++ l2.*2) ++ (if release then sort_by id (cy_free_lanes c ++ [lb_lane_id b]) else cy_free_lanes c)
    ⊆+ (lb_lane_id <$> active_bindings c) ++ cy_free_lanes c).
  { rewrite Hact, !fmap_app. cbn. destruct release.
    - rewrite sort_by_perm. rewrite <-!app_assoc. apply submseteq_skips_l. cbn.
      apply Permutation_submseteq. rewrite (Permutation_app_comm (cy_free_lanes c)). cbn. symmetry. apply Permutation_middle.
    - rewrite <-!app_assoc. apply submseteq_skips_l. cbn. by apply submseteq_cons. }
  assert (Hin : forall x, x ∈ l1.*2 ++ l2.*2 -> x ∈ active_bindings c) by (rewrite Hact; set_solver).
  assert (Hdv : (dict_del future (cy_pending c)).*2 = l1.*2 ++ l2.*2) by (by rewrite Hdel, fmap_app).
  split; unfold active_bindings, dict_values; cbn; rewrite ?Hdv.
  - apply submseteq_Permutation in Hsub as [k Hk]. rewrite Hk in Hlanes. by apply NoDup_app in Hlanes as [? _].
  - apply Forall_forall. intros x Hx. rewrite Forall_forall in Hnamed. apply Hnamed. by eapply elem_of_submseteq.
  - apply Hs.
  - apply Hs.
  - intros k Hk. apply (cs_futures c Hs). rewrite Hp. rewrite Hdel in Hk. set_solver.
  - apply Forall_forall. intros x Hx. pose proof (cs_pending c Hs) as H'. rewrite Forall_forall in H'. by apply H', Hin.
  - apply Forall_forall. intros x Hx. pose proof (cs_sane c Hs) as H'. rewrite Forall_forall in H'. by apply H', Hin.
  - pose proof (cs_sane c Hs) as H'. pose proof (cs_totals c Hs) as Ht. rewrite Hact in Ht, H'.
    apply (totals_closed _ _ _ b); [|exact Ht]. rewrite Forall_forall in H'. apply H'. set_solver.
  - apply Hs.
Qed.

Lemma turn_sound t c c' : cycle_sound c -> turn_ok t -> take_turn t c = Ok c' -> cycle_sound c' /\ cy_profile c' = cy_profile c.
Proof.
  intros Hs Ht Hc. destruct t as [accepts ranked attempt generation budget admitted deadline|future o|future o fin]; cbn in Hc.
  - destruct (next_admission accepts ranked c) as [[lane w]|] eqn:En; injection Hc as <-; [|done]. split; [by eapply admit_sound|done].
  - split; [by eapply close_sound|]. unfold cycle_close in Hc. destruct (dict_get _ _); [|done]. by injection Hc as <-.
  - split.
    + eapply (close_sound (note_owner fin c)); [|exact Hc]. destruct Hs. by split.
    + unfold cycle_close in Hc. destruct (dict_get _ _); [|done]. by injection Hc as <-.
Qed.

(** C17. Lanes never overlap and never exceed the profile: after any turns of a cycle - admissions
    from any Order, completions, expiries - the Attempts at work hold different Lanes of the
    profile, none of them offered as free; no Work was admitted twice; the units, processor,
    memory, processes and disk they hold together fit the profile, and so do the recorded
    peaks. *)
Theorem lanes_exclusive p turns c :
  LaneProfile_new p = Ok p -> Forall turn_ok turns -> take_turns turns (cycle_new p) = Ok c ->
  NoDup ((lb_lane_id <$> active_bindings c) ++ cy_free_lanes c)
  /\ (length (active_bindings c) <= lanes p)%nat
  /\ NoDup (lb_work_id <$> cy_admitted c)
  /\ totals_within p (active_bindings c)
  /\ within p (cy_peak_resources c) (cy_peak_cpu c) (cy_peak_memory c) (cy_peak_pids c) (cy_peak_filesystem c).
Proof.
  intros Hp Hok Hrun. assert (Hs : cycle_sound c /\ cy_profile c = p).
  { assert (H0 : cycle_sound (cycle_new p) /\ cy_profile (cycle_new p) = p) by (split; [by apply cycle_new_sound|done]).
    revert Hrun H0. generalize (cycle_new p) as c0. induction Hok as [|t turns Ht _ IH]; intros c0 Hrun [H0 Hp0]; cbn in Hrun.
    - by injection Hrun as <-.
    - apply bind_ok in Hrun as (c1 & H1 & Hrun). destruct (turn_sound t c0 c1 H0 Ht H1) as [Hs1 Hp1]. apply (IH c1 Hrun). split; [done|congruence]. }
  destruct Hs as [Hs Hprof]. pose proof (cs_lanes c Hs) as Hn. split_and!; [done| |apply Hs|rewrite <-Hprof; apply Hs|rewrite <-Hprof; apply Hs].
  apply NoDup_app in Hn as (Hn & _ & _). rewrite <-(length_fmap lb_lane_id).
  transitivity (length (lane_name <$> seq 1 (lanes p))); [|by rewrite length_fmap, length_seq].
  apply submseteq_length, NoDup_submseteq; [done|]. intros x Hx. pose proof (cs_named c Hs) as Hall. rewrite Forall_forall, Hprof in Hall.
  apply Hall. set_solver.
Qed.
