(* ===== verification/FenceInterface.v ===== *)
(** What the generation fence promises to the components that take Work through it.

    [GenerationFence] has the three operations the Lanes call; its laws speak of the ledger of
    owners only.  The fence of [work_generation.py] over any sound event log keeps them. *)

From S2P Require Import Prelude Canon Text PyJson EventStore EventContracts EventLog WorkGeneration WorkGenerationLogic WorkGenerationFacts WorkGenerationTheorems.
Local Open Scope Z_scope.

Class GenerationFence (F : Type) : Type := {
  gf_projection : Prog F (list GenerationState);
  gf_acquire : string -> string -> Prog F GenerationIdentity;
  gf_close : string -> GenerationDisposition -> Prog F unit
}.

Definition taking (g w a : string) : Owner := {| own_generation := g; own_work := w; own_attempt := a; own_end := None |}.

(** The owner once its generation [gid] is closed with [d]. *)
Definition give_one (d : GenerationDisposition) (gid : string) (o : Owner) : Owner := {|
  own_generation := own_generation o; own_work := own_work o; own_attempt := own_attempt o;
  own_end := if bool_decide (own_generation o = gid) then match own_end o with None => Some d | e => e end else own_end o |}.

Definition give (d : GenerationDisposition) (gid : string) (l : list Owner) : list Owner := give_one d gid <$> l.

(** [gf_owns f l]: the fence is intact and its ledger is [l]; [gf_damaged f]: a torn write left it
    unreadable. *)
Class GenerationFenceOk (F : Type) `{GenerationFence F} : Type := {
  gf_owns : F -> list Owner -> Prop;
  gf_damaged : F -> Prop;
  gf_exclusive f l : gf_owns f l -> exclusive l;
  gf_projection_ok f l : gf_owns f l -> exists gens, gf_projection f = (f, Done gens) /\ owner_of <$> gens = l;
  gf_acquire_ok f l wid aid :
    gf_owns f l ->
    match gf_acquire wid aid f with
    | (f', Done i) => gf_owns f' (l ++ [taking (id_generation i) wid aid]) /\ id_work i = wid /\ id_attempt i = aid
    | (f', _) => gf_owns f' l \/ (exists g, gf_owns f' (l ++ [taking g wid aid])) \/ gf_damaged f'
    end;
  gf_close_ok f l gid d :
    gf_owns f l ->
    match gf_close gid d f with
    | (f', Done _) => gf_owns f' (give d gid l)
        /\ exists o, o ∈ l /\ own_generation o = gid /\ (own_end o = None \/ own_end o = Some d)
    | (f', _) => gf_owns f' l \/ gf_owns f' (give d gid l) \/ gf_damaged f'
    end
}.

Lemma give_other d gid l : gid ∉ own_generation <$> l -> give d gid l = l.
Proof.
  induction l as [|o l IH]; intros Hg; [done|]. cbn. f_equal; [|apply IH; set_solver]. destruct o. unfold give_one. cbn.
  rewrite bool_decide_false; [done|]. cbn in Hg. set_solver.
Qed.

Lemma give_ended d gid l :
  NoDup (own_generation <$> l) -> (exists o, o ∈ l /\ own_generation o = gid /\ own_end o <> None) -> give d gid l = l.
Proof.
  intros Hn (o & Ho & Hg & He). apply list_elem_of_split in Ho as (l1 & l2 & ->). rewrite fmap_app, fmap_cons in Hn.
  apply NoDup_app in Hn as (_ & Hd & [Hx _]%NoDup_cons). unfold give. rewrite fmap_app, fmap_cons.
  change (give d gid l1 ++ give_one d gid o :: give d gid l2 = l1 ++ o :: l2). rewrite !give_other.
  - destruct o as [g w a e]. cbn in *. unfold give_one. cbn. destruct e as [e|]; [|done]. by case_bool_decide.
  - by rewrite <-Hg.
  - rewrite <-Hg. intros Hin. apply (Hd _ Hin). by left.
Qed.

(** ** The fence over an event log *)

Section log_fence.
Context {DG : Digester} {W : Type} `{EventLogOk W} (run : string) (timestamp : W -> string).

#[local] Instance log_fence : GenerationFence W := {|
  gf_projection := p ← projection run; mret (generations p);
  gf_acquire := acquire run timestamp;
  gf_close := close run timestamp
|}.

(** The log takes the events the fence writes. *)
Hypothesis events_taken : forall ev content, writable ev content -> log_accepts (generation_event ev) content.

Definition ledger_of (w : W) (l : list Owner) : Prop := exists es st, log_sound w es /\ legal es st /\ ownership st = l.

Lemma took_ledger es st wid aid gid es' w :
  log_sound w es' -> took es st wid aid gid es' -> ledger_of w (ownership st ++ [taking gid wid aid]).
Proof.
  intros Hw (st' & Hl & _ & Hst). exists es', st'. split; [done|]. split; [done|]. unfold ownership. by rewrite Hst, !fmap_app.
Qed.

Lemma gave_ledger st d gid es' w :
  projector_ok st -> exclusive (ownership st) -> log_sound w es' -> gave st d gid es' ->
  ledger_of w (give d gid (ownership st))
  /\ exists o, o ∈ ownership st /\ own_generation o = gid /\ (own_end o = None \/ own_end o = Some d).
Proof.
  intros Hok [Hn _] Hw (st' & s & Hl & Hs & Hcase). pose proof (ok_names _ Hok _ _ Hs) as Hname.
  assert (Ho : owner_of s ∈ ownership st).
  { unfold ownership. apply list_elem_of_fmap. exists s. split; [done|]. apply list_elem_of_fmap. exists (gid, s). split; [done|].
    by apply dict_get_Some_elem. }
  split.
  - exists es', st'. split; [done|]. split; [done|]. destruct Hcase as [[Hd ->]|(Hd & n & Hst & _)].
    + symmetry. apply give_ended; [done|]. exists (owner_of s). split; [done|]. split; [done|]. cbn. congruence.
    + destruct (dict_set_replace gid (closed_state s d n) s _ Hs) as (l1 & l2 & Hold & Hset). unfold ownership in *.
      rewrite Hst, Hset. rewrite Hold in Hn |- *. rewrite !fmap_app, !fmap_cons in Hn |- *.
      rewrite fmap_app, fmap_cons in Hn. unfold give. apply NoDup_app in Hn as (_ & Hdis & [Hx _]%NoDup_cons).
      assert (Hgo : own_generation (owner_of s) = gid) by done. cbn [snd fst] in *.
      assert (E1 : give d gid (owner_of <$> l1.*2) = owner_of <$> l1.*2).
      { apply give_other. intros Hin. apply (Hdis gid Hin). rewrite <-Hgo at 1. by left. }
      assert (E2 : give d gid (owner_of <$> l2.*2) = owner_of <$> l2.*2) by (apply give_other; by rewrite <-Hgo).
      unfold give in E1, E2. rewrite !fmap_app, !fmap_cons, E1, E2. f_equal. f_equal. unfold give_one, owner_of, closed_state. cbn.
      rewrite bool_decide_true by done. by rewrite Hd.
  - exists (owner_of s). split; [done|]. split; [done|]. cbn. destruct Hcase as [[? _]|[? _]]; auto.
Qed.

#[local] Instance log_fence_ok : GenerationFenceOk W.
Proof.
  refine {| gf_owns := ledger_of; gf_damaged := log_damaged |}.
  - intros w l (es & st & _ & [Hl _] & <-). apply (project_log_ok _ _ Hl).
  - intros w l (es & st & Hw & Hl & <-). destruct (projection_done run es st w Hw Hl) as (p & Hp & Hg & _).
    exists (generations p). split; [|by rewrite Hg]. unfold gf_projection, log_fence, mbind, Prog_bind. cbv beta iota. by rewrite Hp.
  - intros w l wid aid (es & st & Hw & Hl & <-). pose proof (runs_acquire_step run timestamp events_taken es st wid aid Hl w Hw) as Hr.
    change (gf_acquire wid aid w) with (acquire run timestamp wid aid w).
    destruct (acquire run timestamp wid aid w) as [w' [i|e|]].
    + destruct Hr as (es' & Hw' & Ht & ? & ?). split; [|done]. by eapply took_ledger.
    + destruct Hr as [(es' & Hw' & [Hl'|(g & Ht)])|]; [left; by exists es', st|right; left|by right; right]. exists g. by eapply took_ledger.
    + destruct Hr as [(es' & Hw' & [Hl'|(g & Ht)])|]; [left; by exists es', st|right; left|by right; right]. exists g. by eapply took_ledger.
  - intros w l gid d (es & st & Hw & Hl & <-). pose proof (runs_close_step run timestamp events_taken es st gid d Hl w Hw) as Hr.
    change (gf_close gid d w) with (close run timestamp gid d w). destruct (project_log_ok _ _ (proj1 Hl)) as (Hok & _ & Hex).
    destruct (close run timestamp gid d w) as [w' [i|e|]].
    + destruct Hr as (es' & Hw' & Ht). by eapply gave_ledger.
    + destruct Hr as [(es' & Hw' & [Hl'|Ht])|]; [left; by exists es', st|right; left; by eapply gave_ledger|by right; right].
    + destruct Hr as [(es' & Hw' & [Hl'|Ht])|]; [left; by exists es', st|right; left; by eapply gave_ledger|by right; right].
Defined.
End log_fence.
