(* ===== verification/FinalContracts.v ===== *)
(** The facts of the final interval of a Run and their replay.

    [src/solver/final_interval_contracts.py] and [src/solver/final_interval_projection.py]. *)

From S2P Require Import Prelude Canon Text Moment PyJson EventStore EventContracts.
Local Open Scope Z_scope.

Definition FINAL_INTERVAL_RECORDED : string := "final-interval.recorded".
Definition RECEIPT_FILE : string := "final-interval.receipt.json".

Inductive FinalIntervalRecord : Type :=
  | TRANSITION
  | ENTITLEMENT_RESERVED
  | ENTITLEMENT_SPENT
  | ENTITLEMENT_CLOSED
  | DRAIN_REQUESTED
  | DRAIN_RESULT
  | SUBMISSION_RECONCILED
  | CLEANUP_REQUESTED
  | CLEANUP_RESULT
  | TERMINAL_INVENTORY.

#[export] Instance FinalIntervalRecord_eq_dec : EqDecision FinalIntervalRecord.
Proof. solve_decision. Defined.

Definition fact_value (r : FinalIntervalRecord) : string :=
  match r with
  | TRANSITION => "transition"
  | ENTITLEMENT_RESERVED => "entitlement-reserved"
  | ENTITLEMENT_SPENT => "entitlement-spent"
  | ENTITLEMENT_CLOSED => "entitlement-closed"
  | DRAIN_REQUESTED => "drain-requested"
  | DRAIN_RESULT => "drain-result"
  | SUBMISSION_RECONCILED => "submission-reconciled"
  | CLEANUP_REQUESTED => "cleanup-requested"
  | CLEANUP_RESULT => "cleanup-result"
  | TERMINAL_INVENTORY => "terminal-inventory"
  end.

Definition all_facts : list FinalIntervalRecord :=
  [TRANSITION; ENTITLEMENT_RESERVED; ENTITLEMENT_SPENT; ENTITLEMENT_CLOSED; DRAIN_REQUESTED; DRAIN_RESULT;
   SUBMISSION_RECONCILED; CLEANUP_REQUESTED; CLEANUP_RESULT; TERMINAL_INVENTORY].

(** [FinalIntervalRecord(text)]. *)
Definition fact_of (text : string) : option FinalIntervalRecord :=
  py_next (fun r => bool_decide (fact_value r = text)) all_facts.

Inductive AdmissionMode : Type := ORDINARY | FINAL_CHANCE | SUBMISSION_RESERVE | MODE_CLOSED.

#[export] Instance AdmissionMode_eq_dec : EqDecision AdmissionMode.
Proof. solve_decision. Defined.

Definition mode_value (m : AdmissionMode) : string :=
  match m with
  | ORDINARY => "ordinary"
  | FINAL_CHANCE => "final-chance"
  | SUBMISSION_RESERVE => "submission-reserve"
  | MODE_CLOSED => "closed"
  end.

Definition all_modes : list AdmissionMode := [ORDINARY; FINAL_CHANCE; SUBMISSION_RESERVE; MODE_CLOSED].

Definition mode_of (text : string) : option AdmissionMode := py_next (fun m => bool_decide (mode_value m = text)) all_modes.

(** [tuple(AdmissionMode).index(mode)]. *)
Definition mode_rank (m : AdmissionMode) : Z :=
  match m with ORDINARY => 0 | FINAL_CHANCE => 1 | SUBMISSION_RESERVE => 2 | MODE_CLOSED => 3 end.

(** [FinalChanceState], [SubmissionDisposition], [CleanupDisposition], [RunDisposition]: the values
    the facts carry. *)
Definition CHANCE_RESERVED : string := "reserved".
Definition CHANCE_SPENT : string := "spent".
Definition CHANCE_CLOSED : string := "closed".

Definition ACCEPTED : string := "accepted".
Definition REJECTED : string := "rejected".
Definition REFUSED_AND_SPENT : string := "refused-and-spent".
Definition POSSIBLY_SENT_ : string := "possibly-sent".
Definition UNKNOWN_AND_SPENT : string := "unknown-and-spent".

(** [SubmissionDisposition(text)]. *)
Definition SubmissionDisposition_new (text : string) : result string :=
  raise_unless (one_of text [ACCEPTED; REJECTED; REFUSED_AND_SPENT; POSSIBLY_SENT_; UNKNOWN_AND_SPENT])
    (ValueError "not a valid SubmissionDisposition");;
  Ok text.

Definition CLEANUP_RELEASED : string := "released".
Definition CLEANUP_UNSETTLED : string := "unsettled".
Definition RUN_CLOSED : string := "closed".
Definition CLOSED_WITH_UNSETTLED_CLEANUP : string := "closed-with-unsettled-cleanup".

(** ** The event *)

Record FinalIntervalRecorded : Type := {
  fi_event_id : string;
  fi_record : FinalIntervalRecord;
  fi_observed_at : string;
  fi_lane_id : string;
  fi_challenge_id : string;
  fi_candidate_id : string;
  fi_reservation_id : string;
  fi_state : string;
  fi_outcome : string;
  fi_inventory : fields
}.

Definition final_payload (ev : FinalIntervalRecorded) (bd : string) (bb : Z) : fields := [
  ("event_id", JStr (fi_event_id ev));
  ("record", JStr (fact_value (fi_record ev)));
  ("observed_at", JStr (fi_observed_at ev));
  ("lane_id", JStr (fi_lane_id ev));
  ("challenge_id", JStr (fi_challenge_id ev));
  ("candidate_id", JStr (fi_candidate_id ev));
  ("reservation_id", JStr (fi_reservation_id ev));
  ("state", JStr (fi_state ev));
  ("outcome", JStr (fi_outcome ev));
  ("inventory", JObj (fi_inventory ev));
  ("blob_digest", JStr bd);
  ("blob_bytes", JInt bb)].

Definition final_event (ev : FinalIntervalRecorded) : CanonicalEvent := {|
  ev_type := FINAL_INTERVAL_RECORDED; identity := JStr (fi_event_id ev); event_id := Some (fi_event_id ev);
  ev_payload := final_payload ev |}.

Definition final_texts : list string :=
  ["event_id"; "record"; "observed_at"; "lane_id"; "challenge_id"; "candidate_id"; "reservation_id"; "state"; "outcome"; "blob_digest"].

Definition is_obj (j : json) : bool := match j with JObj _ => true | _ => false end.

Definition final_validate (p : fields) : result unit :=
  raise_unless (py_all (fun n => dict_has n p) (final_texts ++ ["inventory"; "blob_bytes"]))
    (InvalidEventError "Final-interval payload is incomplete");;
  raise_unless (py_all (fun n => is_str (get_or n JNull p)) final_texts && is_obj (get_or "inventory" JNull p)
      && is_int (get_or "blob_bytes" JNull p))
    (InvalidEventError "Final-interval payload field has the wrong type");;
  raise_if (negb (truthy (get_or "event_id" JNull p))
      || match get_or "record" JNull p with JStr r => bool_decide (fact_of r = None) | _ => true end)
    (InvalidEventError "Final-interval identity or record is unsupported");;
  raise_unless (py_eqb (get_or "blob_digest" JNull p) (JStr EMPTY_BLOB_DIGEST) && py_eqb (get_or "blob_bytes" JNull p) (JInt 0))
    (InvalidEventError "Final-interval facts cannot carry a body").

Definition final_contract : Contract := {|
  validate_payload := final_validate; identity_from_payload := identity_by_event_id; exact_payload_identity := false |}.

(** ** Replay *)

Record Chance : Type := { ch_challenge : string; ch_state : string }.
Record Submitted : Type := { sb_outcome : string; sb_observed_at : string }.

Record FinalDocument : Type := {
  fd_mode : string;
  fd_chances : list (string * Chance);
  fd_drain_requests : list (string * string);
  fd_submissions : list (string * Submitted);
  fd_cleanup_requested : bool;
  fd_cleanup_targets : list string;
  fd_cleanup_authority : string;
  fd_cleanup : list (string * string);
  fd_terminal : option fields;
  fd_trace : list fields
}.

Definition empty_document : FinalDocument := {|
  fd_mode := mode_value ORDINARY; fd_chances := []; fd_drain_requests := []; fd_submissions := []; fd_cleanup_requested := false;
  fd_cleanup_targets := []; fd_cleanup_authority := ""; fd_cleanup := []; fd_terminal := None; fd_trace := [] |}.

(** The row kept in the trace. *)
Definition trace_row (row : fields) : fields :=
  List.filter (fun kv => negb (one_of kv.1 ["blob_digest"; "blob_bytes"; "event_id"]) && negb (py_eqb kv.2 (JStr ""))) row.

(** [tuple(inventory.get("targets", ()))] of the targets the controller writes, which are texts. *)
Definition targets_of (inventory : fields) : result (list string) :=
  match get_or "targets" (JList []) inventory with
  | JList l => map_result (fun j => match j with JStr s => Ok s | _ => Err (TypeError "cleanup target") end) l
  | _ => Err (TypeError "cleanup targets")
  end.

(** What a fact does to the document, the trace apart. *)
Definition apply_fact (d : FinalDocument) (record : FinalIntervalRecord) (lane challenge candidate reservation state outcome at_ : string)
    (inventory : fields) : result FinalDocument :=
  let with_chance := {|
    fd_mode := fd_mode d; fd_chances := dict_set lane {| ch_challenge := challenge; ch_state := state |} (fd_chances d);
    fd_drain_requests := fd_drain_requests d; fd_submissions := fd_submissions d; fd_cleanup_requested := fd_cleanup_requested d;
    fd_cleanup_targets := fd_cleanup_targets d; fd_cleanup_authority := fd_cleanup_authority d; fd_cleanup := fd_cleanup d;
    fd_terminal := fd_terminal d; fd_trace := fd_trace d |} in
  let with_outcome := {|
    fd_mode := fd_mode d; fd_chances := fd_chances d; fd_drain_requests := fd_drain_requests d;
    fd_submissions := dict_set candidate {| sb_outcome := outcome; sb_observed_at := at_ |} (fd_submissions d);
    fd_cleanup_requested := fd_cleanup_requested d; fd_cleanup_targets := fd_cleanup_targets d;
    fd_cleanup_authority := fd_cleanup_authority d; fd_cleanup := fd_cleanup d; fd_terminal := fd_terminal d; fd_trace := fd_trace d |} in
  match record with
  | TRANSITION => Ok {|
      fd_mode := state; fd_chances := fd_chances d; fd_drain_requests := fd_drain_requests d; fd_submissions := fd_submissions d;
      fd_cleanup_requested := fd_cleanup_requested d; fd_cleanup_targets := fd_cleanup_targets d;
      fd_cleanup_authority := fd_cleanup_authority d; fd_cleanup := fd_cleanup d; fd_terminal := fd_terminal d; fd_trace := fd_trace d |}
  | ENTITLEMENT_RESERVED | ENTITLEMENT_SPENT | ENTITLEMENT_CLOSED => Ok with_chance
  | DRAIN_REQUESTED => Ok {|
      fd_mode := fd_mode d; fd_chances := fd_chances d; fd_drain_requests := dict_set candidate reservation (fd_drain_requests d);
      fd_submissions := fd_submissions d; fd_cleanup_requested := fd_cleanup_requested d; fd_cleanup_targets := fd_cleanup_targets d;
      fd_cleanup_authority := fd_cleanup_authority d; fd_cleanup := fd_cleanup d; fd_terminal := fd_terminal d; fd_trace := fd_trace d |}
  | DRAIN_RESULT | SUBMISSION_RECONCILED => Ok with_outcome
  | CLEANUP_REQUESTED =>
      targets ← targets_of inventory;
      Ok {|
      fd_mode := fd_mode d; fd_chances := fd_chances d; fd_drain_requests := fd_drain_requests d; fd_submissions := fd_submissions d;
      fd_cleanup_requested := true; fd_cleanup_targets := targets; fd_cleanup_authority := reservation; fd_cleanup := fd_cleanup d;
      fd_terminal := fd_terminal d; fd_trace := fd_trace d |}
  | CLEANUP_RESULT => Ok {|
      fd_mode := fd_mode d; fd_chances := fd_chances d; fd_drain_requests := fd_drain_requests d; fd_submissions := fd_submissions d;
      fd_cleanup_requested := fd_cleanup_requested d; fd_cleanup_targets := fd_cleanup_targets d;
      fd_cleanup_authority := fd_cleanup_authority d; fd_cleanup := dict_set challenge outcome (fd_cleanup d);
      fd_terminal := fd_terminal d; fd_trace := fd_trace d |}
  | TERMINAL_INVENTORY => Ok {|
      fd_mode := mode_value MODE_CLOSED; fd_chances := fd_chances d; fd_drain_requests := fd_drain_requests d;
      fd_submissions := fd_submissions d; fd_cleanup_requested := fd_cleanup_requested d; fd_cleanup_targets := fd_cleanup_targets d;
      fd_cleanup_authority := fd_cleanup_authority d; fd_cleanup := fd_cleanup d; fd_terminal := Some inventory; fd_trace := fd_trace d |}
  end.

Definition with_trace (row : fields) (d : FinalDocument) : FinalDocument := {|
  fd_mode := fd_mode d; fd_chances := fd_chances d; fd_drain_requests := fd_drain_requests d; fd_submissions := fd_submissions d;
  fd_cleanup_requested := fd_cleanup_requested d; fd_cleanup_targets := fd_cleanup_targets d;
  fd_cleanup_authority := fd_cleanup_authority d; fd_cleanup := fd_cleanup d; fd_terminal := fd_terminal d;
  fd_trace := fd_trace d ++ [trace_row row] |}.

Definition project_fact (d : FinalDocument) (row : fields) : result FinalDocument :=
  record ← text_of "record" row;
  record ← match fact_of record with Some r => Ok r | None => Err (ValueError "not a valid FinalIntervalRecord") end;
  lane ← text_of "lane_id" row;
  challenge ← text_of "challenge_id" row;
  candidate ← text_of "candidate_id" row;
  reservation ← text_of "reservation_id" row;
  state ← text_of "state" row;
  outcome ← text_of "outcome" row;
  at_ ← text_of "observed_at" row;
  inventory ← (v ← item "inventory" row; match v with JObj fs => Ok fs | _ => Err (TypeError "inventory") end);
  apply_fact (with_trace row d) record lane challenge candidate reservation state outcome at_ inventory.

Definition is_final_event (e : CommittedEvent) : bool := bool_decide (event_type e = FINAL_INTERVAL_RECORDED).

Fixpoint project_facts (d : FinalDocument) (es : list CommittedEvent) : result FinalDocument :=
  match es with
  | [] => Ok d
  | e :: es => d ← (if is_final_event e then project_fact d (payload e) else Ok d); project_facts d es
  end.

Definition project_final_interval (es : list CommittedEvent) : result FinalDocument := project_facts empty_document es.
