(* ===== verification/LaneController.v ===== *)
(** The Lane controller: admission, settlement and restart over the admission journal and the
    generation fence.

    [LaneController] of [src/solver/lane_topology.py].  The fence is any [GenerationFence]; the
    Order, the clock and the final interval answer each call, and their answers are
    arguments. *)

From S2P Require Import Prelude Canon Moment EventContracts WorkGeneration FenceInterface FinalContracts LaneTopology.
Local Open Scope Z_scope.

(** What the final interval answers during one admission: the mode, asked three times; whether
    it reserves the Lane's final chance; what is left to score in; its cutoff; and how
    spending the chance ends. *)
Record FinalAnswers : Type := {
  fa_mode : outcome AdmissionMode;
  fa_chance : outcome bool;
  fa_scoreable : outcome Z;
  fa_mode_again : outcome AdmissionMode;
  fa_cutoff : moment;
  fa_spend : outcome unit;
  fa_mode_last : outcome AdmissionMode
}.

Record Answers : Type := {
  an_order : outcome (list WorkCandidate);
  an_now : moment;
  an_final : option FinalAnswers
}.

Definition answer {W A} (o : outcome A) : Prog W A := fun w => (w, o).

(** [try: ... except ValueError: return True]. *)
Definition lapses {W} (m : Prog W unit) : Prog W bool := fun w =>
  match m w with
  | (w', Done _) => (w', Done false)
  | (w', Raised (ValueError _)) => (w', Done true)
  | (w', Raised e) => (w', Raised e)
  | (w', Crashed) => (w', Crashed)
  end.

Section controller.
Context {F : Type} `{GenerationFence F} (profile : LaneProfile) (set_order : list string -> list string).

Record LaneWorld : Type := { lw_fence : F; lw_journal : LaneJournal; lw_sequence : Z }.

Definition on_fence {A} (m : Prog F A) : Prog LaneWorld A := fun w =>
  match m (lw_fence w) with
  | (f, r) => ({| lw_fence := f; lw_journal := lw_journal w; lw_sequence := lw_sequence w |}, r)
  end.

Definition on_journal {A} (m : Prog LaneJournal A) : Prog LaneWorld A := fun w =>
  match m (lw_journal w) with
  | (j, r) => ({| lw_fence := lw_fence w; lw_journal := j; lw_sequence := lw_sequence w |}, r)
  end.

(** [self._attempt_sequence += 1]. *)
Definition next_sequence : Prog LaneWorld Z := fun w =>
  ({| lw_fence := lw_fence w; lw_journal := lw_journal w; lw_sequence := lw_sequence w + 1 |}, Done (lw_sequence w + 1)).

Definition lane_attempt (n : Z) : string := "lane-attempt-" +:+ pad6 n.

(** The final interval's word before an admission: [None] when it refuses, or whether a final
    chance was reserved, and the time left. *)
Definition final_gate (final : option FinalAnswers) (remaining : Z) : Prog LaneWorld (option (bool * Z)) :=
  match final with
  | None => mret (Some (false, remaining))
  | Some f =>
      mode ← answer (fa_mode f);
      match mode with
      | SUBMISSION_RESERVE | MODE_CLOSED => mret None
      | FINAL_CHANCE =>
          granted ← answer (fa_chance f);
          if granted : bool then scoreable ← answer (fa_scoreable f); mret (Some (true, Z.min remaining scoreable))
          else mret None
      | ORDINARY =>
          again ← answer (fa_mode_again f);
          mret (if bool_decide (again = ORDINARY) then Some (false, remaining) else None)
      end
  end.

(** Whether the final interval withdraws an admission already bound. *)
Definition withdrawn (final : option FinalAnswers) (granted : bool) : Prog LaneWorld bool :=
  match final with
  | None => mret false
  | Some f =>
      if granted then lapses (answer (fa_spend f))
      else mode ← answer (fa_mode_last f); mret (negb (bool_decide (mode = ORDINARY)))
  end.

Definition admit_one (a : Answers) (claimed : list string) (lane : string) (resources : Z) (active : list LaneBinding) (remaining : Z) :
    Prog LaneWorld (option LaneBinding) :=
  ranked ← answer (an_order a);
  match py_next (fun c => negb (bool_decide (wc_work_id c ∈ claimed))) ranked with
  | None => mret None
  | Some c =>
      if negb (lane_fits profile c active resources) then mret None else
      gate ← final_gate (an_final a) remaining;
      match gate with
      | None => mret None
      | Some (granted, final) =>
          let admitted := an_now a in
          let budget := admission_budget c final (fa_cutoff <$> an_final a) admitted in
          let deadline := plus_us admitted budget in
          n ← next_sequence;
          let attempt := lane_attempt n in
          on_journal (jl_reserve lane c attempt (attempt +:+ ":resource-envelope") admitted deadline budget);;
          identity ← on_fence (gf_acquire (wc_work_id c) attempt);
          let b := binding_for lane c attempt (id_generation identity) budget admitted deadline in
          on_journal (jl_bind b);;
          gone ← withdrawn (an_final a) granted;
          if gone : bool then
            on_fence (gf_close (id_generation identity) INTERRUPT);;
            on_journal (jl_interrupt_attempt attempt);;
            mret None
          else mret (Some b)
      end
  end.

Definition disposition_for (v : LaneVerdict) : GenerationDisposition :=
  match v with LANE_COMPLETE => COMPLETE | _ => INTERRUPT end.

(** [_close]. *)
Definition settle (b : LaneBinding) (o : LaneOutcome) : Prog LaneWorld unit :=
  on_journal (jl_begin_settle o);;
  on_fence (gf_close (lb_generation_id b) (disposition_for (lo_outcome o)));;
  on_journal (jl_finish_settle (lb_generation_id b)).

Definition journal_rows : Prog LaneWorld (list LaneRow) := ask (fun w => jl_rows (lw_journal w)).

Fixpoint close_states (attempts : list string) (states : list GenerationState) : Prog LaneWorld unit :=
  match states with
  | [] => mret tt
  | s :: states =>
      (if WorkGeneration.active s && bool_decide (attempt_id s ∈ attempts) then on_fence (gf_close (generation_id s) INTERRUPT)
       else mret tt);;
      close_states attempts states
  end.

Fixpoint interrupt_all (attempts : list string) : Prog LaneWorld unit :=
  match attempts with
  | [] => mret tt
  | a :: attempts => on_journal (jl_interrupt_attempt a);; interrupt_all attempts
  end.

Definition verdict_of (s : LaneJournalState) : result LaneVerdict :=
  match s with
  | CLOSING v => Ok v
  | _ => Err (ValueError "only a closing Lane journal state has a pending verdict")
  end.

(** The settlements a restart finishes.  A closing row is settled once, so its state is still
    the one it had when the loop began. *)
Fixpoint finish_closing (states : list (string * GenerationState)) (rows : list LaneRow) : Prog LaneWorld unit :=
  match rows with
  | [] => mret tt
  | r :: rows =>
      s ← try (match dict_get (lr_generation_id r) states with Some s => Ok s | None => Err (KeyError (lr_generation_id r)) end);
      (if WorkGeneration.active s then
         v ← try (verdict_of (lr_state r)); on_fence (gf_close (generation_id s) (disposition_for v))
       else mret tt);;
      on_journal (jl_finish_settle (generation_id s));;
      finish_closing states rows
  end.

Definition states_dict (states : list GenerationState) : list (string * GenerationState) :=
  foldl (fun d s => dict_set (generation_id s) s d) [] states.

(** [_fence_interrupted_lanes]; [set_order] is the order a Python set is iterated in. *)
Definition fence_interrupted : Prog LaneWorld unit :=
  rows ← journal_rows;
  let attempts := set_order (remove_dups (unsettled_attempt_ids rows)) in
  states ← on_fence gf_projection;
  close_states attempts states;;
  interrupt_all attempts;;
  states ← on_fence gf_projection;
  rows ← journal_rows;
  finish_closing (states_dict states) (closing_rows rows).

(** [LaneController.__init__]: a new process, with the journal read back from its file. *)
Definition lane_start (run : string) : Prog LaneWorld unit :=
  try (raise_if (bool_decide (run = "")) (ValueError "Lane topology requires a Run identity"));;
  states ← on_fence gf_projection;
  (fun w =>
     match jl_load (jl_file (lw_journal w)) (jl_writes (lw_journal w)) with
     | Ok j => ({| lw_fence := lw_fence w; lw_journal := j; lw_sequence := Z.of_nat (length states) |}, Done tt)
     | Err e => (w, Raised e)
     end);;
  fence_interrupted.
End controller.
