(* ===== verification/LaneLogic.v ===== *)
(** Reasoning about the Lane controller: what the journal and the ledger of owners say of each
    other, and rules for programs over both. *)

From S2P Require Import Prelude Canon Moment EventContracts WorkGeneration WorkGenerationLogic FenceInterface LaneTopology LaneController.
Local Open Scope Z_scope.

(** ** Rows *)

Definition live (r : LaneRow) : bool := unsettled (lr_state r) || is_closing (lr_state r).

Definition attempts_of (rows : list LaneRow) : list string := lr_attempt_id <$> rows.

Lemma update_last_Some {A} (p : A -> bool) f rows rows' :
  update_last p f rows = Some rows' ->
  exists l1 r l2, rows = l1 ++ r :: l2 /\ rows' = l1 ++ f r :: l2 /\ p r = true.
Proof.
  revert rows'. induction rows as [|x rows IH]; intros rows' Hu; [done|]. cbn in Hu. destruct (update_last p f rows) as [rs|].
  - injection Hu as <-. destruct (IH rs eq_refl) as (l1 & r & l2 & -> & -> & Hp). by exists (x :: l1), r, l2.
  - destruct (p x) eqn:Hx; [|done]. injection Hu as <-. by exists [], x, rows.
Qed.

Lemma update_last_None {A} (p : A -> bool) f (rows : list A) : update_last p f rows = None -> forall r, r ∈ rows -> p r = false.
Proof.
  induction rows as [|x rows IH]; intros Hu r Hr; [by apply not_elem_of_nil in Hr|]. cbn in Hu.
  destruct (update_last p f rows) as [rs|]; [done|]. destruct (p x) eqn:Hx; [done|].
  apply elem_of_cons in Hr as [->|Hr]; [done|]. by apply IH.
Qed.

Lemma map_skip {A} (p : A -> bool) (f : A -> A) (l : list A) :
  (forall x, x ∈ l -> p x = false) -> (fun x => if p x then f x else x) <$> l = l.
Proof. induction l as [|x l IH]; intros Hl; [done|]. rewrite fmap_cons, (Hl x) by (by left). f_equal. apply IH. intros y Hy. apply Hl. by right. Qed.

(** One row matches: updating it is mapping. *)
Lemma update_or_unique {A} e (p : A -> bool) f (key : A -> string) (rows : list A) r :
  r ∈ rows -> p r = true -> NoDup (key <$> List.filter p rows) -> (forall x, p x = true -> key x = key r) ->
  update_or e p f rows = Ok ((fun x => if p x then f x else x) <$> rows).
Proof.
  intros Hr Hp Hn Hkey. unfold update_or. destruct (update_last p f rows) as [rows'|] eqn:Hu.
  2:{ rewrite (update_last_None p f rows Hu r Hr) in Hp. done. }
  destruct (update_last_Some p f rows rows' Hu) as (l1 & x & l2 & -> & -> & Hx). f_equal.
  rewrite List.filter_app, fmap_app in Hn. cbn in Hn. rewrite Hx in Hn. apply NoDup_app in Hn as (_ & Hd & Hn2).
  rewrite fmap_cons in Hn2. apply NoDup_cons in Hn2 as [Hx2 _].
  assert (Hin : forall l y, y ∈ l -> p y = true -> key x ∈ key <$> List.filter p l).
  { intros l y Hy Hpy. apply list_elem_of_fmap. exists y. split; [by rewrite (Hkey x Hx), (Hkey y Hpy)|].
    apply list_elem_of_In, List.filter_In. by rewrite <-list_elem_of_In. }
  rewrite fmap_app, fmap_cons, Hx, !map_skip; [done|..].
  - intros y Hy. destruct (p y) eqn:Hpy; [|done]. destruct (Hx2 (Hin l2 y Hy Hpy)).
  - intros y Hy. destruct (p y) eqn:Hpy; [|done]. destruct (Hd _ (Hin l1 y Hy Hpy)). by left.
Qed.

(** ** The journal and the ledger *)

(** Rows that are not settled have different Attempts, unsettled ones different Works; a bound row
    names a generation of its Attempt; and a generation still active for an Attempt of the
    journal has a row that is not settled. *)
Record lanes_ok (rows : list LaneRow) (l : list Owner) : Prop := {
  lk_live : NoDup (attempts_of (List.filter live rows));
  lk_works : NoDup (lr_work_id <$> List.filter (fun r => unsettled (lr_state r)) rows);
  lk_bound r : r ∈ rows -> lr_state r = LANE_ACTIVE \/ is_closing (lr_state r) = true ->
    exists o, o ∈ l /\ own_generation o = lr_generation_id r /\ own_attempt o = lr_attempt_id r;
  lk_owned o : o ∈ l -> own_end o = None -> own_attempt o ∈ attempts_of rows ->
    exists r, r ∈ rows /\ live r = true /\ lr_attempt_id r = own_attempt o
}.

(** The rows not settled were reserved by this process. *)
Definition numbered (n : Z) (rows : list LaneRow) : Prop :=
  0 <= n /\ forall r, r ∈ rows -> live r = true -> exists k, 0 <= k <= n /\ lr_attempt_id r = lane_attempt k.

Definition good (n : Z) (rows : list LaneRow) (l : list Owner) : Prop := lanes_ok rows l /\ numbered n rows.

Lemma lane_attempt_inj n m : 0 <= n -> 0 <= m -> lane_attempt n = lane_attempt m -> n = m.
Proof. intros Hn Hm He. unfold lane_attempt in He. apply pad6_inj; [done..|]. by repeat (injection He as He). Qed.

Lemma filter_in {A} (p : A -> bool) (l : list A) x : x ∈ List.filter p l <-> x ∈ l /\ p x = true.
Proof. by rewrite list_elem_of_In, List.filter_In, <-list_elem_of_In. Qed.

Lemma nodup_key {A B} (k : A -> B) (l : list A) x y : NoDup (k <$> l) -> x ∈ l -> y ∈ l -> k x = k y -> x = y.
Proof.
  intros Hn Hx Hy He. apply list_elem_of_lookup in Hx as [i Hi], Hy as [j Hj]. assert (i = j) as ->; [|congruence].
  eapply (NoDup_lookup (k <$> l)); [done|..].
  - by rewrite list_lookup_fmap, Hi.
  - rewrite list_lookup_fmap, Hj. cbn. by rewrite He.
Qed.

Lemma one_owner l o o' : exclusive l -> o ∈ l -> o' ∈ l -> own_attempt o = own_attempt o' -> o = o'.
Proof. intros (_ & Ha & _). by apply nodup_key. Qed.

(** No generation of the Attempt is active. *)
Definition ended_attempt (a : string) (l : list Owner) : Prop := forall o, o ∈ l -> own_attempt o = a -> own_end o <> None.

Lemma nodup_filter_change {A B} (p : A -> bool) (k : A -> B) l1 x y l2 :
  k y = k x -> (p y = true -> p x = true) ->
  NoDup (k <$> List.filter p (l1 ++ x :: l2)) -> NoDup (k <$> List.filter p (l1 ++ y :: l2)).
Proof.
  intros Hk Hp. rewrite !List.filter_app. cbn. destruct (p y).
  - rewrite Hp by done. rewrite !fmap_app, !fmap_cons. by rewrite Hk.
  - destruct (p x); [|done]. rewrite !fmap_app, fmap_cons. rewrite <-Permutation_middle. by intros [_ ?]%NoDup_cons.
Qed.

(** A row changes its state. *)
Lemma lanes_ok_change l1 r r' l2 l :
  lanes_ok (l1 ++ r :: l2) l -> lr_attempt_id r' = lr_attempt_id r -> lr_work_id r' = lr_work_id r ->
  live r = true -> (unsettled (lr_state r') = true -> unsettled (lr_state r) = true) ->
  (lr_state r' = LANE_ACTIVE \/ is_closing (lr_state r') = true ->
     exists o, o ∈ l /\ own_generation o = lr_generation_id r' /\ own_attempt o = lr_attempt_id r) ->
  (live r' = false -> ended_attempt (lr_attempt_id r) l) ->
  lanes_ok (l1 ++ r' :: l2) l.
Proof.
  intros [Hn Hw Hb Ho] Ha Hwk Hlive Hun Hbound Hend. split.
  - by eapply nodup_filter_change.
  - by eapply nodup_filter_change.
  - intros x Hx Hst. apply elem_of_app in Hx as [Hx|[->|Hx]%elem_of_cons]; [apply Hb; set_solver| |apply Hb; set_solver].
    rewrite Ha. by apply Hbound.
  - intros o Hin He Hat. destruct (Ho o Hin He) as (x & Hx & Hxl & Hxa).
    { unfold attempts_of in *. rewrite fmap_app, fmap_cons in *. by rewrite <-Ha. }
    destruct (decide (lr_attempt_id r = own_attempt o)) as [E|E].
    + exists r'. split; [set_solver|]. split; [|by rewrite Ha]. destruct (live r'); [done|]. by destruct (Hend eq_refl o Hin (eq_sym E)).
    + exists x. split; [|done]. apply elem_of_app in Hx as [?|[->|?]%elem_of_cons]; set_solver.
Qed.

Lemma numbered_change n l1 r r' l2 :
  numbered n (l1 ++ r :: l2) -> lr_attempt_id r' = lr_attempt_id r -> live r = true -> numbered n (l1 ++ r' :: l2).
Proof.
  intros [Hn Hk] Ha Hl. split; [done|]. intros x Hx Hxl.
  apply elem_of_app in Hx as [Hx|[->|Hx]%elem_of_cons]; [apply Hk; set_solver| |apply Hk; set_solver].
  rewrite Ha. apply Hk; [set_solver|done].
Qed.

(** ** Steps *)

Lemma give_elem d gid l o' :
  o' ∈ give d gid l -> exists o, o ∈ l /\ own_generation o = own_generation o' /\ own_attempt o = own_attempt o'
    /\ (own_end o' = None -> own_end o = None) /\ (own_generation o' = gid -> own_end o' <> None).
Proof.
  intros (o & -> & Ho)%list_elem_of_fmap. exists o. cbn. split_and!; try done.
  - case_bool_decide; [|done]. by destruct (own_end o).
  - intros Hg. rewrite bool_decide_true by done. by destruct (own_end o).
Qed.

(** Closing a generation keeps the journal in step. *)
Lemma lanes_ok_give d gid rows l : lanes_ok rows l -> lanes_ok rows (give d gid l).
Proof.
  intros [Hn Hw Hb Ho]. split; [done..| |].
  - intros r Hr Hst. destruct (Hb r Hr Hst) as (o & Hin & Hg & Ha). exists (give_one d gid o).
    split; [|done]. unfold give. apply list_elem_of_fmap. by exists o.
  - intros o' Hin He Hat. destruct (give_elem d gid l o' Hin) as (o & Hol & Hg & Ha & Hend & _).
    rewrite <-Ha in Hat |- *. apply Ho; auto.
Qed.

Lemma lanes_ok_take g w a rows l :
  lanes_ok rows l -> (exists r, r ∈ rows /\ live r = true /\ lr_attempt_id r = a) -> lanes_ok rows (l ++ [taking g w a]).
Proof.
  intros [Hn Hw Hb Ho] Hr. split; [done..| |].
  - intros r Hin Hst. destruct (Hb r Hin Hst) as (o & Hol & Hgo). exists o. split; [set_solver|done].
  - intros o [Hin| ->%list_elem_of_singleton]%elem_of_app He Hat; [by apply Ho|]. exact Hr.
Qed.

(** Another user of the fence takes Work for an Attempt the journal does not know. *)
Lemma lanes_ok_foreign g w a rows l : lanes_ok rows l -> a ∉ attempts_of rows -> lanes_ok rows (l ++ [taking g w a]).
Proof.
  intros [Hn Hw Hb Ho] Ha. split; [done..| |].
  - intros r Hin Hst. destruct (Hb r Hin Hst) as (o & Hol & Hgo). exists o. split; [set_solver|done].
  - intros o [Hin| ->%list_elem_of_singleton]%elem_of_app He Hat; [by apply Ho|]. done.
Qed.

(** [reserve]. *)
Lemma reserve_good lane c n envelope admitted deadline budget rows rows' l :
  good n rows l -> reserve_row lane c (lane_attempt (n + 1)) envelope admitted deadline budget rows = Ok rows' ->
  good (n + 1) rows' l /\ exists r, r ∈ rows' /\ live r = true /\ lr_attempt_id r = lane_attempt (n + 1).
Proof.
  intros [[Hn Hw Hb Ho] [Hpos Hnum]] Hr. unfold reserve_row in Hr. apply bind_ok in Hr as ([] & Hany%raise_if_ok & Hr).
  injection Hr as <-. match goal with |- context [rows ++ [?x]] => set (new := x) end.
  assert (Hfresh : lane_attempt (n + 1) ∉ attempts_of (List.filter live rows)).
  { intros (r & Ha & [Hin Hl]%filter_in)%list_elem_of_fmap. destruct (Hnum r Hin Hl) as (k & Hk & Hrk).
    rewrite Hrk in Ha. apply lane_attempt_inj in Ha; lia. }
  split; [split; split|exists new; split; [set_solver|done]].
  - unfold attempts_of. rewrite List.filter_app, fmap_app. apply NoDup_app. split; [done|]. split; [|apply NoDup_singleton].
    intros x Hx ->%list_elem_of_singleton. done.
  - rewrite List.filter_app, fmap_app. apply NoDup_app. split; [done|]. split; [|apply NoDup_singleton].
    intros x (r & -> & [Hin Hu]%filter_in)%list_elem_of_fmap Hx%list_elem_of_singleton. cbn in Hx.
    unfold py_any in Hany. assert (Hex : existsb (fun r => unsettled (lr_state r) && bool_decide (lr_work_id r = wc_work_id c)) rows = true).
    { apply existsb_exists. exists r. split; [by apply list_elem_of_In|]. rewrite Hu. by rewrite bool_decide_true. }
    congruence.
  - intros r [Hin| ->%list_elem_of_singleton]%elem_of_app Hst; [by apply Hb|]. by destruct Hst.
  - intros o Hin He Hat. unfold attempts_of in Hat. rewrite fmap_app in Hat. apply elem_of_app in Hat as [Hat|Hat%list_elem_of_singleton].
    + destruct (Ho o Hin He Hat) as (r & Hr & Hl & Ha). exists r. split; [set_solver|done].
    + exists new. split; [set_solver|done].
  - lia.
  - intros r [Hin| ->%list_elem_of_singleton]%elem_of_app Hl.
    + destruct (Hnum r Hin Hl) as (k & Hk & Hrk). exists k. split; [lia|done].
    + exists (n + 1). split; [lia|done].
Qed.

Lemma update_or_ok {A} e (p : A -> bool) f rows rows' :
  update_or e p f rows = Ok rows' -> exists l1 r l2, rows = l1 ++ r :: l2 /\ rows' = l1 ++ f r :: l2 /\ p r = true.
Proof. unfold update_or. destruct (update_last p f rows) eqn:E; [|done]. intros [= <-]. by apply update_last_Some. Qed.

Lemma bind_good b w n rows rows' l :
  good n rows l -> taking (lb_generation_id b) w (lb_attempt_id b) ∈ l -> bind_row b rows = Ok rows' -> good n rows' l.
Proof.
  intros [Hok Hnum] Hin (l1 & r & l2 & -> & -> & Hp)%update_or_ok. bool_to_prop.
  assert (Hl : live r = true) by (unfold live; by rewrite H0). split; [|by eapply numbered_change].
  eapply lanes_ok_change; [exact Hok|done|done|done|by rewrite H0| |done].
  intros _. eexists. split; [exact Hin|]. cbn. auto.
Qed.

Lemma begin_settle_good o n rows rows' l : good n rows l -> begin_settle_row o rows = Ok rows' -> good n rows' l.
Proof.
  intros [Hok Hnum] (l1 & r & l2 & -> & -> & Hp)%update_or_ok. bool_to_prop.
  assert (Hl : live r = true) by (unfold live; by rewrite H0). split; [|by eapply numbered_change].
  eapply lanes_ok_change; [exact Hok|done|done|done|done| |done].
  intros _. apply (lk_bound _ _ Hok r); [set_solver|by left].
Qed.

Lemma finish_settle_ok d g rows rows' l :
  exclusive (give d g l) -> lanes_ok rows (give d g l) -> finish_settle_row g rows = Ok rows' -> lanes_ok rows' (give d g l).
Proof.
  intros Hex Hok (l1 & r & l2 & -> & -> & Hp)%update_or_ok. bool_to_prop.
  destruct (lk_bound _ _ Hok r) as (o & Ho & Hg & Ha); [set_solver|by right|].
  assert (Hset : unsettled (settled_state (lr_state r)) = false /\ is_closing (settled_state (lr_state r)) = false
    /\ settled_state (lr_state r) <> LANE_ACTIVE) by (by destruct (lr_state r)).
  eapply lanes_ok_change; [exact Hok|done|done|unfold live; rewrite H0; by rewrite orb_true_r|..]; cbn.
  - intros Hu. destruct Hset as (He & _). congruence.
  - intros [Hx|Hx]; [by destruct Hset as (_ & _ & ?)|]. destruct Hset as (_ & He & _). congruence.
  - intros _ o' Ho' Ha'. rewrite (one_owner _ o' o Hex Ho' Ho) by congruence.
    destruct (give_elem d g l o Ho) as (_ & _ & _ & _ & _ & Hend). apply Hend. congruence.
Qed.

Lemma interrupt_ok a rows rows' l :
  lanes_ok rows l -> ended_attempt a l -> interrupt_row a rows = Ok rows' -> lanes_ok rows' l.
Proof.
  intros Hok Hend (l1 & r & l2 & -> & -> & Hp)%update_or_ok. bool_to_prop.
  eapply lanes_ok_change; [exact Hok|done|done|unfold live; by rewrite H0|done|by intros [?|?]|]. intros _. by rewrite H.
Qed.

(** An update of a row that is not settled keeps the numbering. *)
Lemma numbered_update e p f n rows rows' :
  numbered n rows -> update_or e p f rows = Ok rows' -> (forall r, p r = true -> live r = true) ->
  (forall r, lr_attempt_id (f r) = lr_attempt_id r) -> numbered n rows'.
Proof. intros Hn (l1 & r & l2 & -> & -> & Hp)%update_or_ok Hl Ha. eapply numbered_change; eauto. Qed.

Lemma finish_settle_good d g n rows rows' l :
  exclusive (give d g l) -> good n rows (give d g l) -> finish_settle_row g rows = Ok rows' -> good n rows' (give d g l).
Proof.
  intros Hex [Hok Hnum] Hf. split; [by eapply finish_settle_ok|]. eapply numbered_update; [exact Hnum|exact Hf| |done].
  intros r [_ Hc]%andb_true_iff. unfold live. rewrite Hc. apply orb_true_r.
Qed.

Lemma interrupt_good a n rows rows' l :
  good n rows l -> ended_attempt a l -> interrupt_row a rows = Ok rows' -> good n rows' l.
Proof.
  intros [Hok Hnum] Hend Hf. split; [by eapply interrupt_ok|]. eapply numbered_update; [exact Hnum|exact Hf| |done].
  intros r [_ Hu]%andb_true_iff. unfold live. by rewrite Hu.
Qed.

Lemma give_ends d g w a l :
  exclusive (give d g l) -> taking g w a ∈ l -> ended_attempt a (give d g l).
Proof.
  intros Hex Hin o Ho Ha. assert (Hg : give_one d g (taking g w a) ∈ give d g l) by (apply list_elem_of_fmap; by eexists).
  rewrite (one_owner _ o _ Hex Ho Hg Ha). unfold give_one. cbn. by rewrite bool_decide_true.
Qed.

(** ** Programs *)

Section lruns.
Context {F : Type} `{GenerationFenceOk F}.

(** The process runs: what is in memory is in the file. *)
Definition lane_at (w : LaneWorld) (n : Z) (rows : list LaneRow) (l : list Owner) : Prop :=
  jl_rows (lw_journal w) = rows /\ jl_file (lw_journal w) = rows /\ gf_owns (lw_fence w) l /\ lw_sequence w = n.

(** The process has ended: what is left. *)
Definition lane_rest (w : LaneWorld) (rows : list LaneRow) (l : list Owner) : Prop :=
  jl_file (lw_journal w) = rows /\ gf_owns (lw_fence w) l.

Definition lruns {A} (n : Z) (rows : list LaneRow) (l : list Owner) (m : Prog LaneWorld A)
    (Q : A -> Z -> list LaneRow -> list Owner -> Prop) (E : option exn -> Z -> list LaneRow -> list Owner -> Prop) : Prop :=
  forall w, lane_at w n rows l ->
    match m w with
    | (w', Done a) => exists n' rows' l', lane_at w' n' rows' l' /\ Q a n' rows' l'
    | (w', Raised e) => (exists n' rows' l', lane_at w' n' rows' l' /\ E (Some e) n' rows' l') \/ gf_damaged (lw_fence w')
    | (w', Crashed) => (exists n' rows' l', lane_rest w' rows' l' /\ E None n' rows' l') \/ gf_damaged (lw_fence w')
    end.

Lemma lr_ret {A} n rows l (a : A) (Q : A -> Z -> list LaneRow -> list Owner -> Prop) E : Q a n rows l -> lruns n rows l (mret a) Q E.
Proof. intros HQ w Hw. by exists n, rows, l. Qed.

Lemma lr_bind {A B} n rows l (m : Prog LaneWorld A) (k : A -> Prog LaneWorld B) R Q E :
  lruns n rows l m R E -> (forall a n' rows' l', R a n' rows' l' -> lruns n' rows' l' (k a) Q E) -> lruns n rows l (m ≫= k) Q E.
Proof.
  intros Hm Hk w Hw. specialize (Hm w Hw). unfold mbind, Prog_bind.
  destruct (m w) as [w' [a|e|]]; [|done..]. destruct Hm as (n' & rows' & l' & Hw' & HR). by apply (Hk a n' rows' l' HR).
Qed.

Lemma lr_conseq {A} n rows l (m : Prog LaneWorld A) (Q Q' : A -> Z -> list LaneRow -> list Owner -> Prop)
    (E E' : option exn -> Z -> list LaneRow -> list Owner -> Prop) :
  lruns n rows l m Q E -> (forall a n' rows' l', Q a n' rows' l' -> Q' a n' rows' l') ->
  (forall e n' rows' l', E e n' rows' l' -> E' e n' rows' l') -> lruns n rows l m Q' E'.
Proof.
  intros Hm HQ HE w Hw. specialize (Hm w Hw). destruct (m w) as [w' [a|e|]]; [|destruct Hm as [Hm|]; [left|by right]..];
    destruct Hm as (n' & rows' & l' & Hw' & Hr); exists n', rows', l'; auto.
Qed.

Lemma lr_exclusive {A} n rows l (m : Prog LaneWorld A) Q E : (exclusive l -> lruns n rows l m Q E) -> lruns n rows l m Q E.
Proof. intros Hm w Hw. apply Hm; [|done]. destruct Hw as (_ & _ & Ho & _). by eapply gf_exclusive. Qed.

Lemma lr_answer {A} n rows l (o : outcome A) (Q : A -> Z -> list LaneRow -> list Owner -> Prop) (E : option exn -> Z -> list LaneRow -> list Owner -> Prop) :
  (forall a, Q a n rows l) -> (forall e, E e n rows l) -> lruns n rows l (answer o) Q E.
Proof.
  intros HQ HE w Hw. unfold answer. destruct o as [a|e|]; [by exists n, rows, l|left; by exists n, rows, l|].
  left. exists n, rows, l. split; [|done]. by destruct Hw as (_ & ? & ? & _).
Qed.

Lemma lr_try {A} n rows l (r : result A) (Q : A -> Z -> list LaneRow -> list Owner -> Prop) (E : option exn -> Z -> list LaneRow -> list Owner -> Prop) :
  match r with Ok a => Q a n rows l | Err e => E (Some e) n rows l end -> lruns n rows l (try r) Q E.
Proof. intros Hr w Hw. unfold try. destruct r; [by exists n, rows, l|left; by exists n, rows, l]. Qed.

Lemma lr_ask {A} n rows l (g : LaneWorld -> A) (Q : A -> Z -> list LaneRow -> list Owner -> Prop) E :
  (forall w, lane_at w n rows l -> Q (g w) n rows l) -> lruns n rows l (ask g) Q E.
Proof. intros HQ w Hw. exists n, rows, l. split; [done|]. by apply HQ. Qed.

Lemma lr_next n rows l (Q : Z -> Z -> list LaneRow -> list Owner -> Prop) E : Q (n + 1) (n + 1) rows l -> lruns n rows l next_sequence Q E.
Proof.
  intros HQ w (Hr & Hf & Ho & Hn). unfold next_sequence. exists (n + 1), rows, l. rewrite Hn. split; [|done].
  by split_and!.
Qed.

Lemma lr_journal n rows l f (Q : unit -> Z -> list LaneRow -> list Owner -> Prop) (E : option exn -> Z -> list LaneRow -> list Owner -> Prop) :
  match f rows with Ok rows' => Q tt n rows' l | Err e => E (Some e) n rows l end -> E None n rows l ->
  lruns n rows l (on_journal (jl_change f)) Q E.
Proof.
  intros HQ HE w (Hr & Hf & Ho & Hn). unfold on_journal, jl_change. rewrite Hr. destruct (f rows) as [rows'|e].
  - unfold jl_write. cbn. destruct (jl_writes (lw_journal w)).
    + left. exists n, rows, l. by split.
    + exists n, rows', l. by split.
  - left. exists n, rows, l. by split.
Qed.

Lemma lr_acquire n rows l wid aid (Q : GenerationIdentity -> Z -> list LaneRow -> list Owner -> Prop) (E : option exn -> Z -> list LaneRow -> list Owner -> Prop) :
  (forall i, Q i n rows (l ++ [taking (id_generation i) wid aid])) ->
  (forall e, E e n rows l) -> (forall e g, E e n rows (l ++ [taking g wid aid])) ->
  lruns n rows l (on_fence (gf_acquire wid aid)) Q E.
Proof.
  intros HQ HE1 HE2 w (Hr & Hf & Ho & Hn). unfold on_fence. pose proof (gf_acquire_ok (lw_fence w) l wid aid Ho) as Ha.
  destruct (gf_acquire wid aid (lw_fence w)) as [f' [i|e|]].
  - destruct Ha as (Ho' & _ & _). exists n, rows, (l ++ [taking (id_generation i) wid aid]). by split.
  - destruct Ha as [Ho'|[(g & Ho')|Hd]]; [left|left|by right]; [exists n, rows, l|exists n, rows, (l ++ [taking g wid aid])]; by split.
  - destruct Ha as [Ho'|[(g & Ho')|Hd]]; [left|left|by right]; [exists n, rows, l|exists n, rows, (l ++ [taking g wid aid])]; by split.
Qed.

(** What a failure of the fence's own [close] raises. *)
Definition from_close (e : option exn) : Prop :=
  match e with Some e => exists f g d f', gf_close g d f = (f', Raised e) | None => True end.

Lemma lr_close n rows l gid d (Q : unit -> Z -> list LaneRow -> list Owner -> Prop) (E : option exn -> Z -> list LaneRow -> list Owner -> Prop) :
  (exclusive (give d gid l) -> Q tt n rows (give d gid l)) ->
  (forall e, from_close e -> E e n rows l) -> (forall e, from_close e -> E e n rows (give d gid l)) ->
  lruns n rows l (on_fence (gf_close gid d)) Q E.
Proof.
  intros HQ HE1 HE2 w (Hr & Hf & Ho & Hn). unfold on_fence. pose proof (gf_close_ok (lw_fence w) l gid d Ho) as Hc.
  destruct (gf_close gid d (lw_fence w)) as [f' [[]|e|]] eqn:Ec.
  - destruct Hc as (Ho' & _). exists n, rows, (give d gid l). split; [by split|]. apply HQ. by eapply gf_exclusive.
  - assert (from_close (Some e)) by (by exists (lw_fence w), gid, d, f').
    destruct Hc as [Ho'|[Ho'|Hd]]; [left|left|by right]; [exists n, rows, l|exists n, rows, (give d gid l)]; split; auto; by split.
  - destruct Hc as [Ho'|[Ho'|Hd]]; [left|left|by right]; [exists n, rows, l|exists n, rows, (give d gid l)]; (split; [by split|]); [apply HE1|apply HE2]; done.
Qed.

Lemma lr_projection n rows l (Q : list GenerationState -> Z -> list LaneRow -> list Owner -> Prop) E :
  (forall gens, owner_of <$> gens = l -> Q gens n rows l) -> lruns n rows l (on_fence gf_projection) Q E.
Proof.
  intros HQ w (Hr & Hf & Ho & Hn). unfold on_fence. destruct (gf_projection_ok _ _ Ho) as (gens & -> & Hg).
  exists n, rows, l. split; [by split|]. by apply HQ.
Qed.

(** ** Admission and settlement keep the journal in step *)

Context (profile : LaneProfile).

Definition kept : option exn -> Z -> list LaneRow -> list Owner -> Prop := fun _ => good.

Lemma lr_withdrawn n rows l final granted :
  good n rows l -> lruns n rows l (withdrawn final granted) (fun _ n' rows' l' => n' = n /\ rows' = rows /\ l' = l) kept.
Proof.
  intros Hg. destruct final as [f|]; cbn; [|by apply lr_ret]. destruct granted.
  - intros w Hw. unfold lapses, answer. destruct (fa_spend f) as [[]|e|]; [by exists n, rows, l| |].
    + destruct e; try (left; by exists n, rows, l). by exists n, rows, l.
    + left. exists n, rows, l. split; [by destruct Hw as (_ & ? & ? & _)|done].
  - eapply (lr_bind _ _ _ _ _ (fun _ n' rows' l' => n' = n /\ rows' = rows /\ l' = l)); [by apply lr_answer|].
    intros mode n' rows' l' (-> & -> & ->). by apply lr_ret.
Qed.

Lemma lr_gate n rows l final remaining :
  good n rows l -> lruns n rows l (final_gate final remaining) (fun _ n' rows' l' => n' = n /\ rows' = rows /\ l' = l) kept.
Proof.
  intros Hg. destruct final as [f|]; cbn; [|by apply lr_ret].
  eapply (lr_bind _ _ _ _ _ (fun _ n' rows' l' => n' = n /\ rows' = rows /\ l' = l)); [by apply lr_answer|].
  intros [] ? ? ? (-> & -> & ->); try by apply lr_ret.
  - eapply (lr_bind _ _ _ _ _ (fun _ n' rows' l' => n' = n /\ rows' = rows /\ l' = l)); [by apply lr_answer|].
    intros again ? ? ? (-> & -> & ->). by apply lr_ret.
  - eapply (lr_bind _ _ _ _ _ (fun _ n' rows' l' => n' = n /\ rows' = rows /\ l' = l)); [by apply lr_answer|].
    intros [] ? ? ? (-> & -> & ->); [|by apply lr_ret].
    eapply (lr_bind _ _ _ _ _ (fun _ n' rows' l' => n' = n /\ rows' = rows /\ l' = l)); [by apply lr_answer|].
    intros s ? ? ? (-> & -> & ->). by apply lr_ret.
Qed.
End lruns.
