(* ===== verification/LaneSteps.v ===== *)
(** Admissions and settlements keep the admission journal and the generation fence in step, and
    what a restart makes of both. *)

From S2P Require Import Prelude Canon Moment EventContracts WorkGeneration WorkGenerationLogic FenceInterface LaneTopology LaneController LaneLogic.
Local Open Scope Z_scope.

Lemma numbered_next n rows : numbered n rows -> numbered (n + 1) rows.
Proof. intros [Hn Hk]. split; [lia|]. intros r Hr Hl. destruct (Hk r Hr Hl) as (k & ? & ?). exists k. split; [lia|done]. Qed.

Section steps.
Context {F : Type} `{GenerationFenceOk F} (profile : LaneProfile) (set_order : list string -> list string).

Lemma lr_admit a claimed lane resources active remaining n rows l :
  good n rows l -> lruns n rows l (admit_one profile a claimed lane resources active remaining) (fun _ => good) kept.
Proof.
  intros Hg. unfold admit_one.
  eapply (lr_bind _ _ _ _ _ (fun _ n' rows' l' => n' = n /\ rows' = rows /\ l' = l)); [by apply lr_answer|].
  intros ranked ? ? ? (-> & -> & ->). destruct (py_next _ ranked) as [c|]; [|by apply lr_ret].
  destruct (negb _); [by apply lr_ret|]. eapply lr_bind; [by apply lr_gate|]. intros gate ? ? ? (-> & -> & ->).
  destruct gate as [[granted final]|]; [|by apply lr_ret].
  assert (Hg1 : good (n + 1) rows l) by (split; [apply Hg|by apply numbered_next, Hg]).
  eapply (lr_bind _ _ _ _ _ (fun k n' rows' l' => k = n + 1 /\ n' = n + 1 /\ rows' = rows /\ l' = l)); [by apply lr_next|].
  intros k ? ? ? (-> & -> & -> & ->). set (attempt := lane_attempt (n + 1)).
  eapply (lr_bind _ _ _ _ _ (fun _ n' rows' l' => n' = n + 1 /\ l' = l /\ good (n + 1) rows' l
    /\ exists r, r ∈ rows' /\ live r = true /\ lr_attempt_id r = attempt)).
  { apply lr_journal; [|exact Hg1]. destruct (reserve_row _ _ _ _ _ _ _ rows) as [rows'|e] eqn:Er; [|exact Hg1].
    split; [done|]. split; [done|]. by eapply reserve_good. }
  intros _ ? rows1 ? (-> & -> & Hg2 & Hr).
  eapply (lr_bind _ _ _ _ _ (fun i n' rows' l' => n' = n + 1 /\ rows' = rows1 /\ l' = l ++ [taking (id_generation i) (wc_work_id c) attempt])).
  { apply lr_acquire; [done|intros; exact Hg2|]. intros e g. split; [|apply Hg2]. apply lanes_ok_take; [apply Hg2|done]. }
  intros i ? ? ? (-> & -> & ->). set (l1 := l ++ _).
  assert (Hg3 : good (n + 1) rows1 l1) by (split; [|apply Hg2]; apply lanes_ok_take; [apply Hg2|done]).
  eapply (lr_bind _ _ _ _ _ (fun _ n' rows' l' => n' = n + 1 /\ l' = l1 /\ good (n + 1) rows' l1)).
  { apply lr_journal; [|exact Hg3]. destruct (bind_row _ rows1) as [rows'|e] eqn:Eb; [|exact Hg3].
    split; [done|]. split; [done|]. eapply (bind_good _ (wc_work_id c)); [exact Hg3| |exact Eb]. unfold l1. set_solver. }
  intros _ ? rows2 ? (-> & -> & Hg4). eapply lr_bind; [by apply lr_withdrawn|]. intros [] ? ? ? (-> & -> & ->); [|by apply lr_ret].
  assert (Hg5 : forall d g, good (n + 1) rows2 (give d g l1)) by (intros; split; [apply lanes_ok_give|]; apply Hg4).
  eapply (lr_bind _ _ _ _ _ (fun _ n' rows' l' => n' = n + 1 /\ rows' = rows2 /\ l' = give INTERRUPT (id_generation i) l1
    /\ exclusive l')); [apply lr_close; [done|intros; exact Hg4|intros; apply Hg5]|].
  intros _ ? ? ? (-> & -> & -> & Hex).
  eapply (lr_bind _ _ _ _ _ (fun _ => good)); [|intros; by apply lr_ret].
  apply lr_journal; [|apply Hg5]. destruct (interrupt_row _ rows2) as [rows'|e] eqn:Ei; [|apply Hg5].
  eapply interrupt_good; [apply Hg5| |exact Ei]. apply (give_ends _ _ (wc_work_id c)); [exact Hex|]. unfold l1. set_solver.
Qed.

Lemma lr_settle b o n rows l : good n rows l -> lruns n rows l (settle b o) (fun _ => good) kept.
Proof.
  intros Hg. unfold settle. eapply (lr_bind _ _ _ _ _ (fun _ n' rows' l' => good n' rows' l')).
  { apply lr_journal; [|exact Hg]. destruct (begin_settle_row o rows) as [rows'|e] eqn:Eb; [|exact Hg]. by eapply begin_settle_good. }
  intros _ n1 rows1 l1 Hg1. assert (Hg2 : forall d g, good n1 rows1 (give d g l1)) by (intros; split; [apply lanes_ok_give|]; apply Hg1).
  eapply (lr_bind _ _ _ _ _ (fun _ n' rows' l' => n' = n1 /\ rows' = rows1
    /\ l' = give (disposition_for (lo_outcome o)) (lb_generation_id b) l1 /\ exclusive l')).
  { apply lr_close; [done|intros; exact Hg1|intros; apply Hg2]. }
  intros _ ? ? ? (-> & -> & -> & Hex). apply lr_journal; [|apply Hg2].
  destruct (finish_settle_row _ rows1) as [rows'|e] eqn:Ef; [|apply Hg2]. by eapply finish_settle_good.
Qed.
End steps.

(** ** What a restart makes of the journal and the ledger *)

Definition end_as (d : GenerationDisposition) (o : Owner) : Owner := {|
  own_generation := own_generation o; own_work := own_work o; own_attempt := own_attempt o;
  own_end := match own_end o with None => Some d | e => e end |}.

Lemma give_one_end d g o : give_one d g o = if bool_decide (own_generation o = g) then end_as d o else o.
Proof. unfold give_one, end_as. by destruct o; case_bool_decide. Qed.

Lemma end_as_twice d d' o : end_as d' (end_as d o) = end_as d o.
Proof. unfold end_as. cbn. by destruct (own_end o). Qed.

(** Interrupted rows fail, settlements under way finish with their verdict. *)
Definition interrupted (r : LaneRow) : LaneRow := with_state (SETTLED LANE_FAILED) (lr_generation_id r) (Some (0, "restart-interrupted")) r.

Definition settle_row (r : LaneRow) : LaneRow :=
  if unsettled (lr_state r) then interrupted r
  else if is_closing (lr_state r) then with_state (settled_state (lr_state r)) (lr_generation_id r) (lr_settled r) r else r.

(** A generation of an interrupted Attempt is interrupted, one under settlement is closed as its
    verdict says. *)
Definition settle_owner (rows : list LaneRow) (o : Owner) : Owner :=
  if bool_decide (own_attempt o ∈ unsettled_attempt_ids rows) then end_as INTERRUPT o
  else match py_next (fun r => bool_decide (lr_generation_id r = own_generation o)) (closing_rows rows) with
    | Some r => match lr_state r with CLOSING v => end_as (disposition_for v) o | _ => o end
    | None => o
    end.

(** ** The loops of a restart *)

Lemma nodup_filter_sub {A B} (p q : A -> bool) (k : A -> B) (l : list A) :
  (forall x, p x = true -> q x = true) -> NoDup (k <$> List.filter q l) -> NoDup (k <$> List.filter p l).
Proof.
  intros Hpq. induction l as [|x l IH]; [done|]. cbn. intros Hn. destruct (p x) eqn:Hp.
  - rewrite (Hpq x Hp), fmap_cons in Hn. rewrite fmap_cons. apply NoDup_cons in Hn as [Hx Hn]. apply NoDup_cons. split; [|by apply IH].
    intros (y & Hy & [Hin Hpy]%filter_in)%list_elem_of_fmap. apply Hx, list_elem_of_fmap. exists y. split; [done|]. apply filter_in. auto.
  - apply IH. destruct (q x); [|done]. rewrite fmap_cons in Hn. by apply NoDup_cons in Hn as [_ ?].
Qed.

Lemma give_at d l1 o l2 :
  NoDup (own_generation <$> l1 ++ o :: l2) -> give d (own_generation o) (l1 ++ o :: l2) = l1 ++ end_as d o :: l2.
Proof.
  rewrite fmap_app, fmap_cons. intros (_ & Hd & [Hx _]%NoDup_cons)%NoDup_app. unfold give. rewrite fmap_app, fmap_cons.
  change (give d (own_generation o) l1 ++ give_one d (own_generation o) o :: give d (own_generation o) l2 = l1 ++ end_as d o :: l2).
  rewrite !give_other; [|done|intros Hin; apply (Hd _ Hin); by left]. by rewrite give_one_end, bool_decide_true.
Qed.

Definition fence_one (attempts : list string) (o : Owner) : Owner :=
  if bool_decide (own_attempt o ∈ attempts) then end_as INTERRUPT o else o.

Definition interrupt_in (attempts : list string) (r : LaneRow) : LaneRow :=
  if unsettled (lr_state r) && bool_decide (lr_attempt_id r ∈ attempts) then interrupted r else r.

Section restart.
Context {F : Type} `{GenerationFenceOk F}.

(** A restart that stops on the way leaves the journal and the ledger in step, and raises only
    what closing a generation raised. *)
Definition stopped (e : option exn) (n : Z) (rows : list LaneRow) (l : list Owner) : Prop := lanes_ok rows l /\ from_close e.

Lemma lr_close_states attempts n rows states : forall done_,
  lanes_ok rows ((fence_one attempts <$> done_) ++ (owner_of <$> states)) ->
  lruns n rows ((fence_one attempts <$> done_) ++ (owner_of <$> states)) (close_states attempts states)
    (fun _ n' rows' l' => n' = n /\ rows' = rows /\ l' = fence_one attempts <$> done_ ++ (owner_of <$> states) /\ lanes_ok rows l') stopped.
Proof.
  induction states as [|s states IH]; intros done_ Hok; cbn [close_states].
  { change (owner_of <$> []) with (@nil Owner) in *. rewrite !app_nil_r in *. by apply lr_ret. }
  set (l0 := (fence_one attempts <$> done_) ++ (owner_of <$> s :: states)) in *.
  eapply (lr_bind _ _ _ _ _ (fun _ n' rows' l' => n' = n /\ rows' = rows /\ lanes_ok rows l'
    /\ l' = (fence_one attempts <$> done_ ++ [owner_of s]) ++ (owner_of <$> states))).
  - apply lr_exclusive. intros (Hn & _). destruct (WorkGeneration.active s) eqn:Ea; cbn [andb].
    + case_bool_decide as Hin.
      * assert (Hgive : give INTERRUPT (generation_id s) l0 = (fence_one attempts <$> done_ ++ [owner_of s]) ++ (owner_of <$> states)).
        { unfold l0. rewrite fmap_cons. change (generation_id s) with (own_generation (owner_of s)). rewrite give_at by exact Hn.
          rewrite fmap_app, <-app_assoc. cbn. unfold fence_one at 3. by rewrite bool_decide_true. }
        apply lr_close.
        -- intros _. split; [done|]. split; [done|]. split; [by apply lanes_ok_give|done].
        -- intros e He. by split.
        -- intros e He. split; [by apply lanes_ok_give|done].
      * apply lr_ret. do 3 (split; [done|]). unfold l0. rewrite fmap_app, <-app_assoc. cbn. unfold fence_one at 3. by rewrite bool_decide_false.
    + apply lr_ret. do 3 (split; [done|]). unfold l0. rewrite fmap_app, <-app_assoc. cbn. do 2 f_equal. unfold fence_one, end_as, owner_of. cbn.
      unfold WorkGeneration.active in Ea. apply bool_decide_eq_false in Ea. by destruct (disposition s); case_bool_decide.
  - intros _ ? ? ? (-> & -> & Hok' & ->).
    assert (E : done_ ++ (owner_of <$> s :: states) = (done_ ++ [owner_of s]) ++ (owner_of <$> states)) by (by rewrite <-app_assoc).
    rewrite E. by apply (IH (done_ ++ [owner_of s])).
Qed.

Lemma lr_interrupt_all n l attempts : forall rows,
  lanes_ok rows l -> NoDup attempts -> (forall a, a ∈ attempts -> a ∈ unsettled_attempt_ids rows /\ ended_attempt a l) ->
  lruns n rows l (interrupt_all attempts)
    (fun _ n' rows' l' => n' = n /\ l' = l /\ rows' = interrupt_in attempts <$> rows /\ lanes_ok rows' l) stopped.
Proof.
  induction attempts as [|a attempts IH]; intros rows Hok Hn Ha; cbn [interrupt_all].
  { apply lr_ret. do 2 (split; [done|]). assert (Hid : interrupt_in [] <$> rows = rows); [|by rewrite Hid].
    rewrite <-(list_fmap_id rows) at 2. apply list_fmap_ext. intros i r _. unfold interrupt_in. by rewrite andb_false_r. }
  apply NoDup_cons in Hn as [Hna Hn]. destruct (Ha a) as [Hin Hend]; [by left|].
  apply list_elem_of_fmap in Hin as (r & -> & [Hr Hu]%filter_in).
  set (p := fun x => bool_decide (lr_attempt_id x = lr_attempt_id r) && unsettled (lr_state x)).
  assert (Hrow : interrupt_row (lr_attempt_id r) rows = Ok ((fun x => if p x then interrupted x else x) <$> rows)).
  { apply (update_or_unique _ p interrupted lr_attempt_id rows r); [done|by unfold p; rewrite bool_decide_true|..].
    - eapply nodup_filter_sub; [|apply (lk_live _ _ Hok)]. intros x [_ Hx]%andb_true_iff. unfold live. by rewrite Hx.
    - intros x [Hx _]%andb_true_iff. by bool_to_prop. }
  set (rows1 := _ <$> rows) in Hrow.
  eapply (lr_bind _ _ _ _ _ (fun _ n' rows' l' => n' = n /\ l' = l /\ rows' = rows1 /\ lanes_ok rows1 l)).
  { apply lr_journal; [|by split]. rewrite Hrow. do 3 (split; [done|]). by eapply interrupt_ok. }
  intros _ ? ? ? (-> & -> & -> & Hok1).
  assert (Hsame : interrupt_in attempts <$> rows1 = interrupt_in (lr_attempt_id r :: attempts) <$> rows).
  { unfold rows1. rewrite <-list_fmap_compose. apply list_fmap_ext. intros i x _. unfold interrupt_in, p, compose.
    destruct (unsettled (lr_state x)) eqn:Hx; rewrite ?andb_true_r, ?andb_false_r; cbn [andb]; [|by rewrite Hx].
    case_bool_decide as E; [cbn; by rewrite (bool_decide_true (lr_attempt_id x ∈ lr_attempt_id r :: attempts)) by (rewrite E; left)|]. rewrite Hx. cbn [andb].
    by rewrite (bool_decide_ext (lr_attempt_id x ∈ lr_attempt_id r :: attempts) (lr_attempt_id x ∈ attempts)) by set_solver. }
  rewrite <-Hsame. apply IH; [done..|]. intros b Hb. destruct (Ha b) as [Hub He]; [by right|]. split; [|done].
  apply list_elem_of_fmap in Hub as (x & -> & [Hx Hxu]%filter_in). apply list_elem_of_fmap. exists x. split; [done|].
  apply filter_in. split; [|done]. apply list_elem_of_fmap. exists x. split; [|done]. unfold p. rewrite bool_decide_false; [done|]. congruence.
Qed.
End restart.

(** ** What a restart of the Lane controller leaves, and what holds along every history of
    admissions, settlements, restarts and the fence's other users. *)

(** ** Finishing the settlements under way *)

Definition finished (r : LaneRow) : LaneRow := with_state (settled_state (lr_state r)) (lr_generation_id r) (lr_settled r) r.

Definition finish_in (gens : list string) (r : LaneRow) : LaneRow :=
  if bool_decide (lr_generation_id r ∈ gens) && is_closing (lr_state r) then finished r else r.

Definition finish_owner (closing_ : list LaneRow) (o : Owner) : Owner :=
  match py_next (fun r => bool_decide (lr_generation_id r = own_generation o)) closing_ with
  | Some r => match lr_state r with CLOSING v => end_as (disposition_for v) o | _ => o end
  | None => o
  end.

Lemma is_closing_spec s : is_closing s = true -> exists v, s = CLOSING v.
Proof. destruct s; try done. by eexists. Qed.

(** The generations of closing rows differ. *)
Lemma closing_generations rows l :
  exclusive l -> lanes_ok rows l -> NoDup (lr_generation_id <$> closing_rows rows).
Proof.
  intros Hex Hok. assert (Hn : NoDup (attempts_of (closing_rows rows))).
  { eapply nodup_filter_sub; [|apply (lk_live _ _ Hok)]. intros x Hx. unfold live. rewrite Hx. apply orb_true_r. }
  assert (Hb : forall r, r ∈ closing_rows rows -> exists o, o ∈ l /\ own_generation o = lr_generation_id r /\ own_attempt o = lr_attempt_id r).
  { intros r [Hr Hc]%filter_in. apply (lk_bound _ _ Hok r Hr). by right. }
  induction (closing_rows rows) as [|r cl IH]; [constructor|]. rewrite fmap_cons. unfold attempts_of in Hn. rewrite fmap_cons in Hn.
  apply NoDup_cons in Hn as [Hr Hn]. apply NoDup_cons. split; [|apply IH; [done|]; intros; apply Hb; by right].
  intros (r' & Hg & Hr')%list_elem_of_fmap. apply Hr, list_elem_of_fmap. exists r'. split; [|done].
  destruct (Hb r) as (o & Ho & Hog & Hoa); [by left|]. destruct (Hb r') as (o' & Ho' & Hog' & Hoa'); [by right|].
  assert (o = o') as ->; [|congruence]. destruct Hex as (Hng & _).
  eapply nodup_key; [exact Hng|done|done|congruence].
Qed.

(** A closing row is settled: the one row of its generation. *)
Lemma finish_row_maps rows r :
  r ∈ closing_rows rows -> NoDup (lr_generation_id <$> closing_rows rows) ->
  finish_settle_row (lr_generation_id r) rows = Ok (finish_in [lr_generation_id r] <$> rows).
Proof.
  intros [Hr Hc]%filter_in Hn. unfold finish_settle_row.
  rewrite (update_or_unique _ _ _ lr_generation_id rows r); [|done|by rewrite bool_decide_true|..].
  - f_equal. apply list_fmap_ext. intros i x _. unfold finish_in, finished.
    by rewrite (bool_decide_ext (lr_generation_id x ∈ [lr_generation_id r]) (lr_generation_id x = lr_generation_id r)) by set_solver.
  - eapply nodup_filter_sub; [|exact Hn]. by intros x [_ ?]%andb_true_iff.
  - intros x [Hx _]%andb_true_iff. by bool_to_prop.
Qed.

Lemma finish_in_step g gens (rows : list LaneRow) :
  finish_in gens <$> (finish_in [g] <$> rows) = finish_in (g :: gens) <$> rows.
Proof.
  rewrite <-list_fmap_compose. apply list_fmap_ext. intros i r _. unfold finish_in, compose.
  destruct (is_closing (lr_state r)) eqn:Hc; rewrite ?andb_true_r, ?andb_false_r; [|by rewrite Hc, andb_false_r].
  destruct (decide (lr_generation_id r = g)) as [E|E].
  - assert (Hs : is_closing (lr_state (finished r)) = false) by (apply is_closing_spec in Hc as [v Hv]; unfold finished; cbn; by rewrite Hv).
    rewrite (bool_decide_true (lr_generation_id r ∈ [g])), (bool_decide_true (lr_generation_id r ∈ g :: gens)) by set_solver.
    by rewrite Hs, andb_false_r.
  - rewrite (bool_decide_false (lr_generation_id r ∈ [g])) by set_solver. rewrite Hc, andb_true_r.
    by rewrite (bool_decide_ext (lr_generation_id r ∈ g :: gens) (lr_generation_id r ∈ gens)) by set_solver.
Qed.

Lemma finish_owner_step r v cl (l : list Owner) :
  lr_state r = CLOSING v -> lr_generation_id r ∉ lr_generation_id <$> cl ->
  finish_owner cl <$> give (disposition_for v) (lr_generation_id r) l = finish_owner (r :: cl) <$> l.
Proof.
  intros Hv Hr. unfold give. rewrite <-list_fmap_compose. apply list_fmap_ext. intros i o _. unfold compose. rewrite give_one_end.
  unfold finish_owner at 2. cbn. unfold py_next. cbn.
  rewrite (bool_decide_ext (lr_generation_id r = own_generation o) (own_generation o = lr_generation_id r)) by (split; congruence).
  case_bool_decide as E; [|done]. rewrite Hv. unfold finish_owner. destruct (py_next _ cl) as [r'|] eqn:En; [|done]. exfalso.
  apply py_next_Some in En as [Hin Hg]. bool_to_prop. apply Hr, list_elem_of_fmap. exists r'. cbn in Hg. split; [congruence|done].
Qed.

Section finish.
Context {F : Type} `{GenerationFenceOk F}.

Lemma lr_finish_closing n states cl : forall rows l,
  lanes_ok rows l -> NoDup (lr_generation_id <$> cl) -> NoDup (lr_generation_id <$> closing_rows rows) ->
  (forall r, r ∈ cl -> r ∈ closing_rows rows /\ exists s, dict_get (lr_generation_id r) states = Some s
     /\ generation_id s = lr_generation_id r /\ owner_of s ∈ l) ->
  lruns n rows l (finish_closing states cl)
    (fun _ n' rows' l' => n' = n /\ rows' = finish_in (lr_generation_id <$> cl) <$> rows /\ l' = finish_owner cl <$> l /\ lanes_ok rows' l')
    stopped.
Proof.
  induction cl as [|r cl IH]; intros rows l Hok Hn Hnr Hcl; cbn [finish_closing].
  { apply lr_ret. change (finish_in (lr_generation_id <$> [])) with (fun r : LaneRow => r). change (finish_owner []) with (fun o : Owner => o).
    by rewrite !list_fmap_id. }
  destruct (Hcl r) as (Hr & s & Hs & Hg & Ho); [by left|]. pose proof Hr as [_ (v & Hv)%is_closing_spec]%filter_in.
  rewrite fmap_cons in Hn. apply NoDup_cons in Hn as [Hrn Hn]. rewrite Hs.
  eapply (lr_bind _ _ _ _ _ (fun s' n' rows' l' => s' = s /\ n' = n /\ rows' = rows /\ l' = l)); [by apply lr_try|].
  intros ? ? ? ? (-> & -> & -> & ->). set (l1 := give (disposition_for v) (lr_generation_id r) l).
  assert (Hok1 : lanes_ok rows l1) by (by apply lanes_ok_give).
  eapply (lr_bind _ _ _ _ _ (fun _ n' rows' l' => n' = n /\ rows' = rows /\ l' = l1 /\ exclusive l1)).
  { apply lr_exclusive. intros Hex. destruct (WorkGeneration.active s) eqn:Ea.
    - rewrite Hv. cbn [verdict_of]. eapply (lr_bind _ _ _ _ _ (fun v' n' rows' l' => v' = v /\ n' = n /\ rows' = rows /\ l' = l)); [by apply lr_try|].
      intros ? ? ? ? (-> & -> & -> & ->). rewrite Hg. apply lr_close; [done|intros; by split|intros; by split].
    - apply lr_ret. do 2 (split; [done|]). assert (Hl1 : l1 = l); [|by rewrite Hl1]. apply give_ended; [apply Hex|].
      exists (owner_of s). split; [done|]. split; [done|]. by apply bool_decide_eq_false in Ea. }
  intros _ ? ? ? (-> & -> & -> & Hex). set (rows1 := finish_in [lr_generation_id r] <$> rows). rewrite Hg.
  eapply (lr_bind _ _ _ _ _ (fun _ n' rows' l' => n' = n /\ rows' = rows1 /\ l' = l1 /\ lanes_ok rows1 l1)).
  { apply lr_journal; [|by split]. pose proof (finish_row_maps rows r Hr Hnr) as Hrow. rewrite Hrow. do 3 (split; [done|]). by eapply finish_settle_ok. }
  intros _ ? ? ? (-> & -> & -> & Hok2). rewrite fmap_cons, <-finish_in_step, <-(finish_owner_step r v) by done.
  apply IH; [done..| |].
  - by eapply closing_generations.
  - intros r' Hr'. destruct (Hcl r') as (Hin' & s' & Hs' & Hg' & Ho'); [by right|].
    assert (Hne : lr_generation_id r' <> lr_generation_id r).
    { intros E. apply Hrn, list_elem_of_fmap. by exists r'. }
    split.
    + apply filter_in in Hin' as [Hin' Hc']. apply filter_in. split; [|done]. apply list_elem_of_fmap. exists r'. split; [|done].
      unfold finish_in. rewrite bool_decide_false by set_solver. done.
    + exists s'. split; [done|]. split; [done|]. apply list_elem_of_fmap. exists (owner_of s'). split; [|done].
      rewrite give_one_end, bool_decide_false; [done|]. cbn. congruence.
Qed.
End finish.

(** ** A restart *)

Lemma states_dict_get gens s :
  NoDup (generation_id <$> gens) -> s ∈ gens -> dict_get (generation_id s) (states_dict gens) = Some s.
Proof.
  unfold states_dict. induction gens as [|x gens IH] using rev_ind; intros Hn Hs; [by apply not_elem_of_nil in Hs|].
  rewrite foldl_app. cbn. rewrite fmap_app in Hn. apply NoDup_app in Hn as (Hn & Hd & _).
  apply elem_of_app in Hs as [Hs|Hs%list_elem_of_singleton]; [|subst x; apply dict_get_set_eq].
  rewrite dict_get_set_ne; [by apply IH|]. intros E. apply (Hd (generation_id s)); [apply list_elem_of_fmap; by exists s|].
  rewrite E. by left.
Qed.

Lemma settle_row_not_live r : live (settle_row r) = false.
Proof. unfold settle_row, live. destruct (lr_state r) as [| |v|v] eqn:E; cbn; rewrite ?E; done. Qed.

(** The rows a restart interrupts, then the ones it finishes. *)
Lemma settle_rows attempts rows :
  (forall r, r ∈ rows -> unsettled (lr_state r) = true -> lr_attempt_id r ∈ attempts) ->
  closing_rows (interrupt_in attempts <$> rows) = closing_rows rows
  /\ finish_in (lr_generation_id <$> closing_rows rows) <$> (interrupt_in attempts <$> rows) = settle_row <$> rows.
Proof.
  intros Hall. assert (Hc : forall r, is_closing (lr_state r) = true -> interrupt_in attempts r = r).
  { intros r (v & Hv)%is_closing_spec. unfold interrupt_in. by rewrite Hv. }
  split.
  - clear Hall. induction rows as [|r rows IH]; [done|]. cbn. unfold closing_rows in IH. rewrite IH.
    destruct (is_closing (lr_state r)) eqn:E; [by rewrite (Hc r E), E|].
    unfold interrupt_in. destruct (_ && _); cbn; [done|by rewrite E].
  - rewrite <-list_fmap_compose. apply list_fmap_ext. intros i r Hr%list_elem_of_lookup_2. unfold compose, settle_row.
    destruct (unsettled (lr_state r)) eqn:Hu.
    + unfold interrupt_in. rewrite Hu, bool_decide_true by (by apply Hall). cbn. unfold finish_in. by rewrite andb_false_r.
    + assert (Hi : interrupt_in attempts r = r) by (unfold interrupt_in; by rewrite Hu). rewrite Hi. unfold finish_in.
      destruct (is_closing (lr_state r)) eqn:E; [|by rewrite andb_false_r].
      rewrite bool_decide_true; [done|]. apply list_elem_of_fmap. exists r. split; [done|]. by apply filter_in.
Qed.

Lemma settle_owners attempts rows (l : list Owner) :
  (forall a, a ∈ attempts <-> a ∈ unsettled_attempt_ids rows) ->
  finish_owner (closing_rows rows) <$> (fence_one attempts <$> l) = settle_owner rows <$> l.
Proof.
  intros Ha. rewrite <-list_fmap_compose. apply list_fmap_ext. intros i o _. unfold compose, settle_owner, fence_one.
  rewrite (bool_decide_ext _ (own_attempt o ∈ unsettled_attempt_ids rows)) by apply Ha.
  case_bool_decide; [|done]. unfold finish_owner. cbn. destruct (py_next _ _) as [r|]; [|done].
  destruct (lr_state r); try done. by rewrite end_as_twice.
Qed.

Section restart.
Context {F : Type} `{GenerationFenceOk F} (set_order : list string -> list string).

(** Iterating a set visits each of its elements. *)
Hypothesis set_order_perm : forall l, set_order l ≡ₚ l.

Lemma lr_fence_interrupted n rows l :
  lanes_ok rows l ->
  lruns n rows l (fence_interrupted set_order)
    (fun _ n' rows' l' => n' = n /\ rows' = settle_row <$> rows /\ l' = settle_owner rows <$> l) stopped.
Proof using set_order_perm.
  intros Hok. unfold fence_interrupted, journal_rows.
  eapply (lr_bind _ _ _ _ _ (fun rs n' rows' l' => rs = rows /\ n' = n /\ rows' = rows /\ l' = l)); [apply lr_ask; by intros w [-> _]|].
  intros ? ? ? ? (-> & -> & -> & ->). set (attempts := set_order _).
  assert (Hin : forall a, a ∈ attempts <-> a ∈ unsettled_attempt_ids rows).
  { intros a. unfold attempts. rewrite set_order_perm. apply elem_of_remove_dups. }
  assert (Hnd : NoDup attempts) by (unfold attempts; rewrite set_order_perm; apply NoDup_remove_dups).
  eapply (lr_bind _ _ _ _ _ (fun gens n' rows' l' => owner_of <$> gens = l /\ n' = n /\ rows' = rows /\ l' = l)); [by apply lr_projection|].
  intros gens ? ? ? (Hgens & -> & -> & ->). eapply lr_bind.
  { rewrite <-Hgens in Hok |- *. exact (lr_close_states attempts n rows gens [] Hok). }
  intros _ ? ? ? (-> & -> & -> & Hok1). cbn [app] in *. rewrite Hgens in *. eapply lr_bind.
  { apply (lr_interrupt_all n _ attempts rows Hok1 Hnd). intros a Ha. split; [by apply Hin|].
    intros o' (o & -> & Ho)%list_elem_of_fmap Hoa. unfold fence_one in *. case_bool_decide as E; [|by destruct E; rewrite Hoa].
    unfold end_as. cbn. by destruct (own_end o). }
  intros _ ? ? ? (-> & -> & -> & Hok2). set (l1 := fence_one attempts <$> l) in *. set (rows1 := interrupt_in attempts <$> rows) in *.
  destruct (settle_rows attempts rows) as [Hclosing Hrows].
  { intros r Hr Hu. apply Hin, list_elem_of_fmap. exists r. split; [done|]. by apply filter_in. }
  eapply (lr_bind _ _ _ _ _ (fun gens n' rows' l' => owner_of <$> gens = l1 /\ n' = n /\ rows' = rows1 /\ l' = l1)); [by apply lr_projection|].
  intros gens1 ? ? ? (Hgens1 & -> & -> & ->).
  eapply (lr_bind _ _ _ _ _ (fun rs n' rows' l' => rs = rows1 /\ n' = n /\ rows' = rows1 /\ l' = l1)); [apply lr_ask; by intros w [-> _]|].
  intros ? ? ? ? (-> & -> & -> & ->). apply lr_exclusive. intros Hex. pose proof (closing_generations rows1 l1 Hex Hok2) as Hcg.
  eapply lr_conseq; [apply (lr_finish_closing n (states_dict gens1) (closing_rows rows1) rows1 l1); [done..|]| |done].
  - intros r Hr. split; [done|]. apply filter_in in Hr as [Hr Hc]. destruct (lk_bound _ _ Hok2 r Hr) as (o & Ho & Hg & _); [by right|].
    rewrite <-Hgens1 in Ho. apply list_elem_of_fmap in Ho as (s & -> & Hs). exists s. cbn in Hg. rewrite <-Hg. split_and!; [|done|].
    + apply states_dict_get; [|done]. destruct Hex as [Hng _]. rewrite <-Hgens1, <-list_fmap_compose in Hng. exact Hng.
    + rewrite <-Hgens1. apply list_elem_of_fmap. by exists s.
  - intros _ n' rows' l' (-> & -> & -> & _). split; [done|]. unfold rows1, l1. rewrite Hclosing. split; [exact Hrows|]. by apply settle_owners.
Qed.
End restart.
