(* ===== verification/LaneTheorems.v ===== *)
(** Histories of the Lane controller and what holds along all of them. *)

From S2P Require Import Prelude Canon Moment EventContracts WorkGeneration WorkGenerationLogic FenceInterface LaneTopology LaneController LaneLogic LaneSteps.
Local Open Scope Z_scope.

Definition is_done {A} (o : outcome A) : bool := match o with Done _ => true | _ => false end.
Definition survives {A} (o : outcome A) : bool := match o with Crashed => false | _ => true end.

(** What another user of the fence does to the ledger: it takes Work for an Attempt the journal
    does not know, or closes any generation. *)
Inductive foreign_step (rows : list LaneRow) : list Owner -> list Owner -> Prop :=
  | foreign_take l g w a : a ∉ attempts_of rows -> foreign_step rows l (l ++ [taking g w a])
  | foreign_give l d g : foreign_step rows l (give d g l).

Lemma foreign_ok rows l l' : rtc (foreign_step rows) l l' -> lanes_ok rows l -> lanes_ok rows l'.
Proof.
  induction 1 as [|l l1 l2 Hs _ IH]; [done|]. intros Hok. apply IH. destruct Hs; [by apply lanes_ok_foreign|by apply lanes_ok_give].
Qed.

Lemma prog_bind_done {W A B} (m : Prog W A) (k : A -> Prog W B) w w' a : m w = (w', Done a) -> (m ≫= k) w = k a w'.
Proof. unfold mbind, Prog_bind. by intros ->. Qed.

Lemma prog_bind_raised {W A B} (m : Prog W A) (k : A -> Prog W B) w w' e : m w = (w', Raised e) -> (m ≫= k) w = (w', Raised e).
Proof. unfold mbind, Prog_bind. by intros ->. Qed.

Section histories.
Context {F : Type} `{GenerationFenceOk F} (profile : LaneProfile) (set_order : list string -> list string).

#[local] Abbreviation World := (LaneWorld (F := F)).

Definition with_writes (k : nat) (w : World) : World := {|
  lw_fence := lw_fence w; lw_sequence := lw_sequence w;
  lw_journal := {| jl_rows := jl_rows (lw_journal w); jl_file := jl_file (lw_journal w); jl_writes := k |} |}.

Definition with_fence (f : F) (w : World) : World := {|
  lw_fence := f; lw_sequence := lw_sequence w; lw_journal := lw_journal w |}.

(** A step of the controller: whether its process runs, and the world.  An operation may end in
    any way that leaves the fence readable. *)
Inductive lane_step : bool * World -> bool * World -> Prop :=
  | step_admit w a claimed lane resources active remaining w' r :
      admit_one profile a claimed lane resources active remaining w = (w', r) -> ~ gf_damaged (lw_fence w') ->
      lane_step (true, w) (survives r, w')
  | step_settle w b o w' r :
      settle b o w = (w', r) -> ~ gf_damaged (lw_fence w') -> lane_step (true, w) (survives r, w')
  | step_start running w run w' r :
      lane_start set_order run w = (w', r) -> ~ gf_damaged (lw_fence w') -> lane_step (running, w) (is_done r, w')
  | step_power running w k : lane_step (running, w) (false, with_writes k w)
  | step_others running w f :
      (forall l, gf_owns (lw_fence w) l -> exists l', gf_owns f l' /\ rtc (foreign_step (jl_file (lw_journal w))) l l') ->
      lane_step (running, w) (running, with_fence f w).

Definition lane_inv (s : bool * World) : Prop :=
  exists n rows l, lanes_ok rows l
    /\ if s.1 then lane_at s.2 n rows l /\ numbered n rows else lane_rest s.2 rows l.

Lemma runs_kept {A} n rows l (m : Prog World A) w w' r :
  lruns n rows l m (fun _ => good) kept -> lane_at w n rows l -> m w = (w', r) -> ~ gf_damaged (lw_fence w') ->
  lane_inv (survives r, w').
Proof.
  intros Hm Hw Er Hnd. specialize (Hm w Hw). rewrite Er in Hm. destruct r as [a|e|]; [|destruct Hm as [Hm|]; [|done]..];
    destruct Hm as (n' & rows' & l' & Hw' & Hok & Hn); by exists n', rows', l'.
Qed.

Hypothesis set_order_perm : forall l, set_order l ≡ₚ l.

(** How a restart ends. *)
Lemma start_runs run w rows l :
  lane_rest w rows l -> lanes_ok rows l ->
  match lane_start set_order run w with
  | (w', Done _) => lane_at w' (Z.of_nat (length l)) (settle_row <$> rows) (settle_owner rows <$> l)
  | (w', Raised e) => gf_damaged (lw_fence w')
      \/ (exists rows' l', lane_rest w' rows' l' /\ lanes_ok rows' l')
         /\ (run = "" \/ load_rows rows = Err e \/ from_close (Some e))
  | (w', Crashed) => gf_damaged (lw_fence w') \/ exists rows' l', lane_rest w' rows' l' /\ lanes_ok rows' l'
  end.
Proof using set_order_perm.
  intros [Hf Ho] Hok. unfold lane_start. case_bool_decide as Hrun; cbn [raise_if].
  { right. split; [by exists rows, l|by left]. }
  destruct w as [f j n]. cbn in Hf, Ho. destruct (gf_projection_ok _ _ Ho) as (gens & Hp & Hg).
  rewrite (prog_bind_done _ _ _ {| lw_fence := f; lw_journal := j; lw_sequence := n |} tt) by done.
  rewrite (prog_bind_done _ _ _ {| lw_fence := f; lw_journal := j; lw_sequence := n |} gens) by (unfold on_fence; cbn; by rewrite Hp).
  cbn [lw_fence lw_journal lw_sequence]. destruct (load_rows rows) as [[]|e] eqn:El.
  2:{ rewrite (prog_bind_raised _ _ _ {| lw_fence := f; lw_journal := j; lw_sequence := n |} e) by (unfold jl_load; cbn; by rewrite Hf, El).
      right. split; [|by right; left]. by exists rows, l. }
  set (w0 := {| lw_fence := f; lw_journal := {| jl_rows := rows; jl_file := rows; jl_writes := jl_writes j |}; lw_sequence := Z.of_nat (length gens) |}).
  rewrite (prog_bind_done _ _ _ w0 tt) by (unfold jl_load; cbn; by rewrite Hf, El).
  assert (Hw0 : lane_at w0 (Z.of_nat (length l)) rows l).
  { unfold w0, lane_at. cbn. split_and!; try done. rewrite <-Hg. by rewrite length_fmap. }
  pose proof (lr_fence_interrupted set_order set_order_perm _ rows l Hok w0 Hw0) as Hr.
  destruct (fence_interrupted set_order w0) as [w' [[]|e|]].
  - by destruct Hr as (? & ? & ? & Hw' & -> & -> & ->).
  - destruct Hr as [(n' & rows' & l' & (_ & Hf' & Ho' & _) & Hok' & Hc)|Hd]; [right|by left]. split; [by exists rows', l'|by right; right].
  - destruct Hr as [(n' & rows' & l' & Hr & Hok' & _)|Hd]; [right|by left]. by exists rows', l'.
Qed.

Lemma settled_ok rows l : lanes_ok rows l -> exclusive l ->
  (forall o, o ∈ settle_owner rows <$> l -> own_attempt o ∈ attempts_of rows -> own_end o <> None).
Proof.
  intros Hok Hex o' (o & -> & Ho)%list_elem_of_fmap Ha He.
  assert (Hids : own_attempt (settle_owner rows o) = own_attempt o /\ (own_end (settle_owner rows o) = None -> own_end o = None)).
  { unfold settle_owner. destruct (own_end o) eqn:E; repeat (case_match || case_bool_decide); unfold end_as; cbn; rewrite ?E; done. }
  destruct Hids as [Hat Hend]. rewrite Hat in Ha. specialize (Hend He).
  destruct (lk_owned _ _ Hok o Ho Hend Ha) as (r & Hr & Hl & Hra). unfold live in Hl. apply orb_true_iff in Hl.
  unfold settle_owner in He. case_bool_decide as Hu; [unfold end_as in He; cbn in He; by rewrite Hend in He|].
  destruct Hl as [Hl|Hl]; [apply Hu, list_elem_of_fmap; exists r; split; [done|by apply filter_in]|].
  destruct (lk_bound _ _ Hok r Hr) as (o2 & Ho2 & Hg2 & Ha2); [by right|]. assert (o2 = o) as -> by (eapply one_owner; [exact Hex|done|done|congruence]).
  destruct (py_next _ _) as [r'|] eqn:En.
  - apply py_next_Some in En as [[Hr' (v & Hv)%is_closing_spec]%filter_in _]. rewrite Hv in He. cbn in He. by rewrite Hend in He.
  - assert (Hf : bool_decide (lr_generation_id r = own_generation o) = false) by (apply (py_next_None _ _ r En); by apply filter_in).
    by rewrite bool_decide_true in Hf.
Qed.

Lemma settled_lanes rows l : lanes_ok rows l -> exclusive l -> lanes_ok (settle_row <$> rows) (settle_owner rows <$> l).
Proof.
  intros Hok Hex. assert (Hnone : forall p, (forall r, p r = true -> live r = true) -> List.filter p (settle_row <$> rows) = []).
  { intros p Hp. clear Hok. induction rows as [|r rs IH]; [done|]. cbn. rewrite IH. destruct (p (settle_row r)) eqn:E; [|done].
    apply Hp in E. by rewrite settle_row_not_live in E. }
  assert (Hat : attempts_of (settle_row <$> rows) = attempts_of rows).
  { unfold attempts_of. rewrite <-list_fmap_compose. apply list_fmap_ext. intros i r _. unfold compose, settle_row. by repeat case_match. }
  split.
  - rewrite Hnone by done. constructor.
  - rewrite Hnone; [constructor|]. intros r Hr. unfold live. by rewrite Hr.
  - intros r (r0 & -> & Hr)%list_elem_of_fmap Hs. exfalso. pose proof (settle_row_not_live r0) as Hl. unfold live in Hl.
    apply orb_false_iff in Hl as [Hl1 Hl2]. destruct Hs as [Hs|Hs]; [by rewrite Hs in Hl1|congruence].
  - intros o Ho He Ha. rewrite Hat in Ha. by destruct (settled_ok rows l Hok Hex o Ho Ha).
Qed.

(** Every step keeps the journal and the ledger in step. *)
Lemma lane_step_inv s s' : lane_inv s -> lane_step s s' -> lane_inv s'.
Proof using set_order_perm.
  intros (n & rows & l & Hok & Hs) Hstep.
  destruct Hstep as [w a claimed lane resources act remaining w' r Er Hnd|w b o w' r Er Hnd|running w run w' r Er Hnd|running w k|running w f Hf]; cbn [fst snd] in *.
  - destruct Hs as [Hw Hn]. eapply runs_kept; [by apply lr_admit|exact Hw|exact Er|done].
  - destruct Hs as [Hw Hn]. eapply runs_kept; [by apply lr_settle|exact Hw|exact Er|done].
  - assert (Hrest : lane_rest w rows l) by (destruct running; [destruct Hs as [(_ & ? & ? & _) _]|]; done).
    pose proof (start_runs run w rows l Hrest Hok) as Hr. rewrite Er in Hr. destruct r as [[]|e|]; cbn [is_done].
    + assert (Hex : exclusive l) by (destruct Hrest as [_ Ho]; by eapply gf_exclusive).
      exists (Z.of_nat (length l)), (settle_row <$> rows), (settle_owner rows <$> l). split; [by apply settled_lanes|]. split; [done|].
      split; [lia|]. intros r (r0 & -> & _)%list_elem_of_fmap Hl. by rewrite settle_row_not_live in Hl.
    + destruct Hr as [|[(rows' & l' & ? & ?) _]]; [done|]. by exists 0, rows', l'.
    + destruct Hr as [|(rows' & l' & ? & ?)]; [done|]. by exists 0, rows', l'.
  - exists n, rows, l. split; [done|]. destruct running; [destruct Hs as [(_ & ? & ? & _) _]|]; done.
  - assert (Ho : gf_owns (lw_fence w) l /\ jl_file (lw_journal w) = rows)
      by (destruct running; [destruct Hs as [(_ & ? & ? & _) _]|destruct Hs]; done).
    destruct Ho as [Ho Hr]. destruct (Hf l Ho) as (l' & Ho' & Hrtc). rewrite Hr in Hrtc.
    exists n, rows, l'. split; [by eapply foreign_ok|]. destruct running; [destruct Hs as [(? & ? & ? & ?) ?]|destruct Hs]; by split_and!.
Qed.

Lemma lane_history_inv s s' : lane_inv s -> rtc lane_step s s' -> lane_inv s'.
Proof using set_order_perm. intros Hs Hr. induction Hr as [|s s1 s2 H1 _ IH]; [done|]. apply IH. by eapply lane_step_inv. Qed.

(** A Run that has admitted nothing yet. *)
Definition fresh_lanes (w : World) : Prop := jl_file (lw_journal w) = [] /\ exists l, gf_owns (lw_fence w) l.

Lemma fresh_inv w : fresh_lanes w -> lane_inv (false, w).
Proof.
  intros [Hf [l Ho]]. exists 0, [], l. split; [|done]. split; cbn; [apply NoDup_nil_2|apply NoDup_nil_2| |].
  - intros r Hr. by apply not_elem_of_nil in Hr.
  - intros o _ _ Ha. by apply not_elem_of_nil in Ha.
Qed.

(** C16. The admission journal and the generation fence stay in step: from a fresh Run, along
    every history of admissions, settlements, restarts, lost power and other users of the
    fence, no two unsettled rows claim one Work, a row that is bound or closing names a
    generation of its own Attempt, and a generation still active for an Attempt of the
    journal has a row that a restart will find. *)
Theorem journal_tracks_fence w running w' :
  fresh_lanes w -> rtc lane_step (false, w) (running, w') ->
  exists l, gf_owns (lw_fence w') l /\ let rows := jl_file (lw_journal w') in
    NoDup (lr_work_id <$> List.filter (fun r => unsettled (lr_state r)) rows)
    /\ (forall r, r ∈ rows -> lr_state r = LANE_ACTIVE \/ is_closing (lr_state r) = true ->
          exists o, o ∈ l /\ own_generation o = lr_generation_id r /\ own_attempt o = lr_attempt_id r)
    /\ (forall o, o ∈ l -> own_end o = None -> own_attempt o ∈ attempts_of rows ->
          exists r, r ∈ rows /\ live r = true /\ lr_attempt_id r = own_attempt o).
Proof using set_order_perm.
  intros Hw Hr. destruct (lane_history_inv _ _ (fresh_inv w Hw) Hr) as (n & rows & l & Hok & Hs). cbn [fst snd] in Hs.
  exists l. assert (Hl : jl_file (lw_journal w') = rows /\ gf_owns (lw_fence w') l)
    by (destruct running; [destruct Hs as [(_ & ? & ? & _) _]|destruct Hs]; done).
  destruct Hl as [-> Ho]. split; [done|]. split_and!; apply Hok.
Qed.

(** C15. A restart settles every Lane: after any such history, a controller that starts leaves
    every row settled - interrupted Attempts failed, settlements under way finished with
    their verdict - closes the generations of interrupted Attempts as interrupted and those
    under settlement as their verdict says, touches no other generation, and no Attempt of
    the journal keeps an active generation. *)
Theorem restart_settles_lanes w running w1 run w2 :
  fresh_lanes w -> rtc lane_step (false, w) (running, w1) -> lane_start set_order run w1 = (w2, Done tt) ->
  exists l, gf_owns (lw_fence w1) l /\ let rows := jl_file (lw_journal w1) in
    jl_rows (lw_journal w2) = settle_row <$> rows /\ jl_file (lw_journal w2) = settle_row <$> rows
    /\ gf_owns (lw_fence w2) (settle_owner rows <$> l)
    /\ (forall o, o ∈ settle_owner rows <$> l -> own_attempt o ∈ attempts_of rows -> own_end o <> None).
Proof using set_order_perm.
  intros Hw Hr Hs. destruct (lane_history_inv _ _ (fresh_inv w Hw) Hr) as (n & rows & l & Hok & Hi). cbn [fst snd] in Hi.
  assert (Hl : lane_rest w1 rows l) by (destruct running; [destruct Hi as [(_ & ? & ? & _) _]|]; done).
  pose proof (start_runs run w1 rows l Hl Hok) as Hst. rewrite Hs in Hst. destruct Hst as (H1 & H2 & H3 & _), Hl as [Hf Ho].
  exists l. rewrite Hf. split; [done|]. cbv zeta. split_and!; [done..|]. apply settled_ok; [done|]. by eapply gf_exclusive.
Qed.

(** A restart fails only for the reasons of others: it raises for an empty Run identity, for a
    journal whose deadlines do not load, or with what closing a generation raised - never
    because a settlement, a reservation or a generation it looks for is absent. *)
Theorem restart_raises_only w running w1 run w2 e :
  fresh_lanes w -> rtc lane_step (false, w) (running, w1) -> lane_start set_order run w1 = (w2, Raised e) ->
  ~ gf_damaged (lw_fence w2) ->
  run = "" \/ load_rows (jl_file (lw_journal w1)) = Err e \/ (exists f g d f', gf_close g d f = (f', Raised e)).
Proof using set_order_perm.
  intros Hw Hr Hs Hnd. destruct (lane_history_inv _ _ (fresh_inv w Hw) Hr) as (n & rows & l & Hok & Hi). cbn [fst snd] in Hi.
  assert (Hl : lane_rest w1 rows l) by (destruct running; [destruct Hi as [(_ & ? & ? & _) _]|]; done).
  pose proof (start_runs run w1 rows l Hl Hok) as Hst. rewrite Hs in Hst. destruct Hl as [-> _]. by destruct Hst as [|[_ ?]].
Qed.
End histories.
