(* ===== verification/LaneWitness.v ===== *)
(** A Run's Lanes over its event store: concrete histories at which the theorems of the Lanes
    apply, and two histories worth knowing. *)

From S2P Require Import Prelude Canon Text Moment Redaction RedactionFacts PyJson EventStore EventStoreLogic EventStoreFacts EventContracts ContractFacts EventLog StoreLog WorkGeneration WorkGenerationLogic WorkGenerationFacts WorkGenerationTheorems FenceStore StoreWitness FenceWitness LaneTopology LaneFacts FenceInterface LaneController LaneLogic LaneSteps LaneTheorems.
Local Open Scope Z_scope.

#[local] Existing Instance marking_digester.
#[local] Instance lane_contracts : Contracts := contracts (fun _ => None).
#[local] Instance lane_log : EventLog World := store_log demo_config.
#[local] Instance lane_log_ok : EventLogOk World := store_log_ok demo_config.
#[local] Instance store_fence : GenerationFence World := log_fence "run-1" noon.
#[local] Instance store_fence_ok : GenerationFenceOk World := log_fence_ok "run-1" noon demo_taken.

Definition small_envelope : EnvelopeSpec := {|
  cpu_us := 1000000; cpu_quota_us := 50000; memory_bytes := 1024; pids := 4; filesystem_bytes := 2048; network := "none";
  LaneTopology.wall_us := 60000000; cleanup_us := 1000000 |}.

Definition two_lanes : LaneProfile := {|
  lanes := 2; global_resource_units := 2; global_cpu_quota_us := 100000; global_memory_bytes := 2048; global_pids := 8;
  global_filesystem_bytes := 4096; global_wall_us := 3600000000; global_cleanup_us := 10000000 |}.

Definition candidate (work : string) (rank : Z) : WorkCandidate := {|
  wc_work_id := work; wc_order_rank := rank; wc_budget_us := 30000000; wc_resource_units := 1; wc_lease_id := ""; wc_envelope := small_envelope;
  wc_tier := 2; wc_order_version := "order-v1" |}.

Definition start_time : moment := Moment 0 (Some 0).

(** ** Turns of a cycle *)

Definition offer : turn :=
  Fill (fun _ => true) [candidate "web-1" 1; candidate "web-2" 2; candidate "web-3" 3] "attempt" "generation" 30000000 start_time start_time.

Definition lane_outcome (b : LaneBinding) (v : LaneVerdict) : LaneOutcome := {|
  lo_binding := b; lo_outcome := v; lo_seconds := 1000000; lo_reason := "" |}.

Definition first_binding : LaneBinding :=
  binding_for "lane-1" (candidate "web-1" 1) "attempt" "generation" 30000000 start_time start_time.

(** Two admissions, a completion that frees its Lane, and one more admission. *)
Definition busy_turns : list turn := [offer; offer; Complete 0%nat (lane_outcome first_binding LANE_COMPLETE); offer].

Lemma lanes_exclusive_witness :
  exists c, take_turns busy_turns (cycle_new two_lanes) = Ok c
    /\ lb_work_id <$> active_bindings c = ["web-2"; "web-3"] /\ NoDup (lb_work_id <$> cy_admitted c).
Proof.
  destruct (take_turns busy_turns (cycle_new two_lanes)) as [c|e] eqn:E; [|vm_compute in E; discriminate]. exists c. split; [reflexivity|].
  split; [vm_compute in E; injection E as <-; reflexivity|].
  apply (lanes_exclusive two_lanes busy_turns c); [reflexivity| |exact E].
  assert (Ho : turn_ok offer) by (repeat constructor).
  repeat constructor; apply Ho.
Defined.

(** ** Restarts *)

Definition in_order (l : list string) : list string := l.

Lemma in_order_perm l : in_order l ≡ₚ l.
Proof. reflexivity. Qed.

Definition lanes_off : LaneWorld := {|
  lw_fence := booted empty_files 99; lw_journal := {| jl_rows := []; jl_file := []; jl_writes := 2%nat |}; lw_sequence := 0 |}.

Definition admitting (work : string) : Answers := {| an_order := Done [candidate work 1]; an_now := start_time; an_final := None |}.

(** The controller starts and admits Work with some time left; the two writes of the journal are
    spent, and the next process has new ones. *)
Definition lanes_on : LaneWorld := (lane_start in_order "run-1" lanes_off).1.
Definition lanes_busy (remaining : Z) : LaneWorld :=
  (admit_one two_lanes (admitting "web-1") [] "lane-1" 0 [] remaining lanes_on).1.
Definition lanes_next : LaneWorld := with_writes 9 (lanes_busy 60000000).
Definition lanes_again : LaneWorld := (lane_start in_order "run-1" lanes_next).1.

Lemma lanes_off_fresh : fresh_lanes lanes_off.
Proof. split; [reflexivity|]. exists [], [], projector_start. split; [apply fresh_sound|]. split; [apply legal_empty|reflexivity]. Qed.

Lemma start_step : lane_step two_lanes in_order (false, lanes_off) (true, lanes_on).
Proof.
  change true with (is_done (Done tt : outcome unit)). eapply step_start; [|apply whole_undamaged; vm_compute; reflexivity].
  apply ends_in. vm_compute. reflexivity.
Qed.

Lemma admit_step remaining :
  survives (admit_one two_lanes (admitting "web-1") [] "lane-1" 0 [] remaining lanes_on).2 = true -> whole (lw_fence (lanes_busy remaining)) = true ->
  rtc (lane_step two_lanes in_order) (false, lanes_off) (false, with_writes 9 (lanes_busy remaining)).
Proof.
  unfold lanes_busy. set (p := admit_one _ _ _ _ _ _ _ lanes_on). assert (Hp : admit_one two_lanes (admitting "web-1") [] "lane-1" 0 [] remaining lanes_on = p) by reflexivity.
  clearbody p. intros Hs Hw. eapply rtc_l; [apply start_step|]. eapply rtc_l; [|apply rtc_once, step_power].
  eapply step_admit; [rewrite Hp; apply surjective_pairing|]. by apply whole_undamaged.
Qed.

Lemma lane_steps_next : rtc (lane_step two_lanes in_order) (false, lanes_off) (false, lanes_next).
Proof. apply admit_step; vm_compute; reflexivity. Qed.

Lemma restart_settles_lanes_witness :
  exists l, gf_owns (lw_fence lanes_next) l /\ gf_owns (lw_fence lanes_again) (settle_owner (jl_file (lw_journal lanes_next)) <$> l)
    /\ lr_state <$> jl_file (lw_journal lanes_next) = [LANE_ACTIVE] /\ lr_state <$> jl_file (lw_journal lanes_again) = [SETTLED LANE_FAILED].
Proof.
  destruct (restart_settles_lanes two_lanes in_order in_order_perm lanes_off false lanes_next "run-1" lanes_again lanes_off_fresh
    lane_steps_next) as (l & Ho & H1 & H2 & H3 & _).
  { unfold lanes_again. apply (ends_in (lane_start in_order "run-1" lanes_next) (Done tt)). vm_compute. reflexivity. }
  exists l. split; [exact Ho|]. split; [exact H3|]. split; vm_compute; reflexivity.
Defined.

Lemma journal_tracks_fence_witness :
  exists l o, gf_owns (lw_fence lanes_next) l /\ o ∈ l /\ own_attempt o = "lane-attempt-000001".
Proof.
  destruct (journal_tracks_fence two_lanes in_order in_order_perm lanes_off false lanes_next lanes_off_fresh lane_steps_next)
    as (l & Ho & _ & Hb & _).
  assert (Hr : exists r, r ∈ jl_file (lw_journal lanes_next) /\ lr_state r = LANE_ACTIVE /\ lr_attempt_id r = "lane-attempt-000001").
  { eexists. split; [vm_compute; left|]. split; reflexivity. }
  destruct Hr as (r & Hr & Hs & Ha). destruct (Hb r Hr (or_introl Hs)) as (o & Hin & _ & Hoa).
  exists l, o. split; [exact Ho|]. split; [exact Hin|]. congruence.
Defined.

(** ** An admission without time left *)

(** What is left of the cycle may have run out between the guard of the loop and the admission: the
    row is reserved with its deadline at its admission. *)
Definition lanes_late : LaneWorld := with_writes 9 (lanes_busy 0).

Lemma restart_raises_only_witness :
  load_rows (jl_file (lw_journal lanes_late)) = Err (ValueError "Lane admission journal deadline is invalid")
  /\ ("run-1" = "" \/ load_rows (jl_file (lw_journal lanes_late)) = Err (ValueError "Lane admission journal deadline is invalid")
      \/ exists f g d f', gf_close g d f = (f', Raised (ValueError "Lane admission journal deadline is invalid"))).
Proof.
  split; [vm_compute; reflexivity|].
  apply (restart_raises_only two_lanes in_order in_order_perm lanes_off false lanes_late "run-1"
    (lane_start in_order "run-1" lanes_late).1); [apply lanes_off_fresh|apply admit_step; vm_compute; reflexivity| |].
  - apply ends_in. vm_compute. reflexivity.
  - apply whole_undamaged. vm_compute. reflexivity.
Defined.

(** ** An Attempt identity used twice *)

(** Power is lost after the reservation and before the generation: the row is interrupted, and the
    next admission reserves the same Attempt identity. *)
Definition one_write : LaneWorld := with_writes 1 lanes_off.
Definition cut_short : LaneWorld :=
  with_writes 9 (on_journal (jl_reserve "lane-1" (candidate "web-1" 1) (lane_attempt 1) "envelope" start_time (plus_us start_time 30000000) 30000000)
    (lane_start in_order "run-1" one_write).1).1.

Lemma attempt_identity_reused :
  (fun r => (lr_attempt_id r, lr_work_id r, lr_state r))
    <$> jl_file (lw_journal (admit_one two_lanes (admitting "web-2") [] "lane-1" 0 [] 60000000 (lane_start in_order "run-1" cut_short).1).1)
  = [("lane-attempt-000001", "web-1", SETTLED LANE_FAILED); ("lane-attempt-000001", "web-2", LANE_ACTIVE)].
Proof. vm_compute. reflexivity. Qed.
