(* ===== verification/MomentFormat.v ===== *)
(** [datetime.fromisoformat], and that it reads back what [isoformat] writes.

    The parser takes the texts [isoformat] writes: a date, a time to the second with an optional
    fraction of six digits, and an optional offset.  Python also reads shorter forms, which
    the program never writes. *)

From Stdlib Require Import Ascii.
From S2P Require Import Prelude Moment.
Local Open Scope Z_scope.

(** ** Parsing *)

Fixpoint take_digits (w : nat) (acc : Z) (s : string) : option (Z * string) :=
  match w, s with
  | O, _ => Some (acc, s)
  | S w, String c s => match digit_value c with Some d => take_digits w (acc * 10 + d) s | None => None end
  | S _, EmptyString => None
  end.

Definition skip (c : Ascii.ascii) (s : string) : option string :=
  match s with String c' s => if bool_decide (c' = c) then Some s else None | EmptyString => None end.

Definition then_digits (c : Ascii.ascii) (w : nat) (s : string) : option (Z * string) :=
  s ← skip c s; take_digits w 0 s.

Definition days_of_civil (y m d : Z) : Z :=
  let y := if m <=? 2 then y - 1 else y in
  let era := y / 400 in
  let yoe := y mod 400 in
  let mp := if 2 <? m then m - 3 else m + 9 in
  let doy := (153 * mp + 2) / 5 + d - 1 in
  let doe := yoe * 365 + yoe / 4 - yoe / 100 + doy in
  era * 146097 + doe - 719468.

(** The date exists. *)
Definition valid_date (y m d : Z) : bool :=
  (1 <=? y) && (y <=? 9999) && bool_decide (civil_of_days (days_of_civil y m d) = (y, m, d)).

Definition parse_fraction (s : string) : option (Z * string) :=
  match s with
  | String "."%char s => take_digits 6 0 s
  | s => Some (0, s)
  end.

Definition parse_offset_of (sign : Z) (s : string) : option (option Z) :=
  h ← take_digits 2 0 s;
  m ← then_digits ":"%char 2 h.2;
  match m.2 with
  | EmptyString =>
      if (h.1 <? 24) && (m.1 <? 60) then Some (Some (sign * (3600 * h.1 + 60 * m.1))) else None
  | s =>
      r ← then_digits ":"%char 2 s;
      if (h.1 <? 24) && (m.1 <? 60) && (r.1 <? 60) && bool_decide (r.2 = "")
      then Some (Some (sign * (3600 * h.1 + 60 * m.1 + r.1))) else None
  end.

Definition parse_offset (s : string) : option (option Z) :=
  match s with
  | EmptyString => Some None
  | String "+"%char s => parse_offset_of 1 s
  | String "-"%char s => parse_offset_of (-1) s
  | _ => None
  end.

Definition parse_moment (s : string) : option moment :=
  y ← take_digits 4 0 s;
  mo ← then_digits "-"%char 2 y.2;
  d ← then_digits "-"%char 2 mo.2;
  h ← then_digits "T"%char 2 d.2;
  mi ← then_digits ":"%char 2 h.2;
  se ← then_digits ":"%char 2 mi.2;
  us ← parse_fraction se.2;
  o ← parse_offset us.2;
  if valid_date y.1 mo.1 d.1 && (h.1 <? 24) && (mi.1 <? 60) && (se.1 <? 60)
  then Some (Moment (us_per_second * (86400 * days_of_civil y.1 mo.1 d.1 + 3600 * h.1 + 60 * mi.1 + se.1) + us.1) o)
  else None.

Definition fromisoformat (s : string) : result moment :=
  match parse_moment s with Some m => Ok m | None => Err (ValueError "Invalid isoformat string") end.

(** ** Numbers of a fixed width *)

Lemma pretty_go_length k : forall n s,
  Z.of_N n < 10 ^ Z.of_nat k -> (String.length (pretty_N_go n s) <= k + String.length s)%nat.
Proof.
  induction k as [|k IH]; intros n s Hn.
  - assert (n = 0%N) as -> by (cbn in Hn; lia). rewrite pretty_N_go_0. lia.
  - destruct (decide (0 < n)%N) as [Hp|Hp]; [|assert (n = 0%N) as -> by lia; rewrite pretty_N_go_0; lia].
    rewrite pretty_N_go_step by done. etrans; [apply IH|cbn; lia].
    rewrite N2Z.inj_div. apply Z.div_lt_upper_bound; [lia|].
    rewrite Nat2Z.inj_succ, Z.pow_succ_r in Hn by lia. lia.
Qed.

Lemma str_int_length k n : (0 < k)%nat -> 0 <= n < 10 ^ Z.of_nat k -> (String.length (str_int n) <= k)%nat.
Proof.
  intros Hk [Hn Hu]. destruct n as [|p|p]; [done| |lia].
  change (str_int (Zpos p)) with (pretty_N_go (Npos p) ""). pose proof (pretty_go_length k (Npos p) "" Hu) as H. change (String.length "") with 0%nat in H. lia.
Qed.

Lemma zeros_length k : String.length (zeros k) = k.
Proof. induction k as [|k IH]; [done|]. change (S (String.length (zeros k)) = S k). by rewrite IH. Qed.

Lemma app_length_str (a b : string) : String.length (a +:+ b) = (String.length a + String.length b)%nat.
Proof. induction a as [|c a IH]; [done|]. change (S (String.length (a +:+ b)) = S (String.length a + String.length b)). by rewrite IH. Qed.

Lemma pad_length w n : (0 < w)%nat -> 0 <= n < 10 ^ Z.of_nat w -> String.length (pad w n) = w.
Proof. intros Hw Hn. unfold pad. rewrite app_length_str, zeros_length. pose proof (str_int_length w n Hw Hn). lia. Qed.

Lemma take_digits_app t rest : forall acc n,
  int_digits acc t = Some n -> take_digits (String.length t) acc (t +:+ rest) = Some (n, rest).
Proof.
  induction t as [|c t IH]; intros acc n H; [by injection H as ->|].
  change (take_digits (S (String.length t)) acc (String c (t +:+ rest)) = Some (n, rest)). cbn [take_digits int_digits] in *.
  destruct (digit_value c); [|done]. by apply IH.
Qed.

Lemma take_pad w n rest : (0 < w)%nat -> 0 <= n < 10 ^ Z.of_nat w -> take_digits w 0 (pad w n +:+ rest) = Some (n, rest).
Proof.
  intros Hw Hn. rewrite <-(pad_length w n Hw Hn) at 1. apply take_digits_app. unfold pad. rewrite int_digits_zeros.
  apply int_digits_str_int. lia.
Qed.

Lemma then_pad c w n rest :
  (0 < w)%nat -> 0 <= n < 10 ^ Z.of_nat w -> then_digits c w (String c "" +:+ pad w n +:+ rest) = Some (n, rest).
Proof.
  intros Hw Hn. change (String c "" +:+ pad w n +:+ rest) with (String c (pad w n +:+ rest)). unfold then_digits, skip. rewrite bool_decide_true by done. cbn [mbind option_bind]. by apply take_pad.
Qed.

Lemma str_app_nil (s : string) : s +:+ "" = s.
Proof. induction s as [|c s IH]; [done|]. change (String c (s +:+ "") = String c s). by rewrite IH. Qed.

Lemma two_digits c n rest : 0 <= n < 100 -> then_digits c 2 (String c "" +:+ pad 2 n +:+ rest) = Some (n, rest).
Proof. intros Hn. apply then_pad; [lia|]. cbn. lia. Qed.

(** ** The calendar *)

Lemma year_of_era doe : 0 <= doe <= 146096 ->
  let yoe := (doe - doe / 1460 + doe / 36524 - doe / 146096) / 365 in
  0 <= yoe <= 399 /\ 0 <= doe - (365 * yoe + yoe / 4 - yoe / 100) <= 365.
Proof. intros H yoe. subst yoe. split; Z.div_mod_to_equations; lia. Qed.

(** Counting days undoes the calendar. *)
Lemma days_of_civil_of_days day : let '(y, m, d) := civil_of_days day in days_of_civil y m d = day.
Proof.
  unfold civil_of_days. set (z := day + 719468). pose proof (Z.mod_pos_bound z 146097 ltac:(lia)) as Hdoe.
  pose proof (Z.div_mod z 146097 ltac:(lia)) as Hz. set (doe := z mod 146097) in *. set (era := z / 146097) in *.
  destruct (year_of_era doe ltac:(lia)) as [Hy Hd]. set (yoe := _ / 365) in *. set (doy := doe - (365 * yoe + yoe / 4 - yoe / 100)) in *.
  assert (Hmp : 0 <= (5 * doy + 2) / 153 <= 11) by (clearbody doy; Z.div_mod_to_equations; lia).
  set (mp := (5 * doy + 2) / 153) in *. unfold days_of_civil.
  assert (Hera : forall y, y = yoe + era * 400 -> y / 400 = era /\ y mod 400 = yoe).
  { intros y ->. clearbody yoe era. split; Z.div_mod_to_equations; lia. }
  assert (Hdoe' : era * 146097 + (yoe * 365 + yoe / 4 - yoe / 100 + ((153 * mp + 2) / 5 + (doy - (153 * mp + 2) / 5 + 1) - 1)) - 719468 = day)
    by (subst doy; lia).
  destruct (mp <? 10) eqn:E; bool_to_prop.
  - assert ((mp + 3 <=? 2) = false) as -> by lia. assert ((2 <? mp + 3) = true) as -> by lia.
    destruct (Hera (yoe + era * 400 + 0)) as [-> ->]; [lia|]. by replace (mp + 3 - 3) with mp by lia.
  - assert ((mp - 9 <=? 2) = true) as -> by lia. assert ((2 <? mp - 9) = false) as -> by lia.
    destruct (Hera (yoe + era * 400 + 1 - 1)) as [-> ->]; [lia|]. by replace (mp - 9 + 9) with mp by lia.
Qed.

(** The fields of a date from year 1 to 9999. *)
Lemma civil_bounds day : -719162 <= day <= 2932896 ->
  let '(y, m, d) := civil_of_days day in 1 <= y <= 9999 /\ 1 <= m <= 12 /\ 1 <= d <= 31.
Proof.
  intros Hday. unfold civil_of_days. set (z := day + 719468). pose proof (Z.mod_pos_bound z 146097 ltac:(lia)) as Hdoe.
  pose proof (Z.div_mod z 146097 ltac:(lia)) as Hz. set (doe := z mod 146097) in *. set (era := z / 146097) in *.
  destruct (year_of_era doe ltac:(lia)) as [Hy Hd]. set (yoe := _ / 365) in *. set (doy := doe - (365 * yoe + yoe / 4 - yoe / 100)) in *.
  assert (Hmp : 0 <= (5 * doy + 2) / 153 <= 11 /\ 1 <= doy - (153 * ((5 * doy + 2) / 153) + 2) / 5 + 1 <= 31
    /\ (306 <= doy -> 10 <= (5 * doy + 2) / 153) /\ (doy <= 305 -> (5 * doy + 2) / 153 <= 9))
    by (clearbody doy; Z.div_mod_to_equations; lia).
  assert (Hyear : 0 <= yoe + era * 400 <= 9999 /\ (yoe + era * 400 = 0 -> 306 <= doy) /\ (yoe + era * 400 = 9999 -> doy <= 305)).
  { assert (Hdoy : doy = doe - (365 * yoe + yoe / 4 - yoe / 100)) by reflexivity. clearbody doy yoe era doe. subst z.
    Z.div_mod_to_equations. lia. }
  set (mp := (5 * doy + 2) / 153) in *. clearbody mp yoe era. destruct (mp <? 10) eqn:E; bool_to_prop.
  - assert ((mp + 3 <=? 2) = false) as -> by lia. lia.
  - assert ((mp - 9 <=? 2) = true) as -> by lia. lia.
Qed.

(** ** The round trip *)

Lemma offset_digits n rest : 0 <= n < 60 -> take_digits 2 0 (pad 2 n +:+ rest) = Some (n, rest).
Proof. intros Hn. apply take_pad; [lia|]. cbn. lia. Qed.

Lemma parse_offset_text o : -86400 < o < 86400 -> parse_offset (offset_text o) = Some (Some o).
Proof.
  intros Ho. unfold offset_text. set (a := Z.abs o). set (sign := if o <? 0 then -1 else 1).
  assert (Hsign : parse_offset ((if o <? 0 then "-" else "+") +:+ pad 2 (a / 3600) +:+ ":" +:+ pad 2 (a / 60 mod 60)
      +:+ (if a mod 60 =? 0 then "" else ":" +:+ pad 2 (a mod 60)))
    = parse_offset_of sign (pad 2 (a / 3600) +:+ ":" +:+ pad 2 (a / 60 mod 60)
      +:+ (if a mod 60 =? 0 then "" else ":" +:+ pad 2 (a mod 60)))) by (unfold sign; by destruct (o <? 0)).
  rewrite Hsign. unfold parse_offset_of.
  assert (Hb : 0 <= a / 3600 < 24 /\ 0 <= a / 60 mod 60 < 60 /\ 0 <= a mod 60 < 60 /\ 3600 * (a / 3600) + 60 * (a / 60 mod 60) + a mod 60 = a).
  { assert (0 <= a < 86400) by lia. clearbody a. Z.div_mod_to_equations. lia. }
  destruct Hb as (Hh & Hm & Hr & Ha). rewrite offset_digits by lia. cbn [mbind option_bind fst snd].
  rewrite two_digits by lia. cbn [mbind option_bind fst snd].
  assert (Hs : sign * a = o) by (unfold sign, a; destruct (o <? 0) eqn:E; bool_to_prop; lia).
  destruct (a mod 60 =? 0) eqn:E; bool_to_prop.
  - assert ((a / 3600 <? 24) && (a / 60 mod 60 <? 60) = true) as -> by (apply andb_true_iff; lia). do 2 f_equal. lia.
  - assert (Ht : then_digits ":"%char 2 (":" +:+ pad 2 (a mod 60)) = Some (a mod 60, ""))
      by (rewrite <-(str_app_nil (pad 2 (a mod 60))); apply two_digits; lia).
    change (":" +:+ pad 2 (a mod 60)) with (String ":"%char (pad 2 (a mod 60))) in Ht |- *.
    cbv iota beta. rewrite Ht. cbn [mbind option_bind fst snd].
    assert ((a / 3600 <? 24) && (a / 60 mod 60 <? 60) && (a mod 60 <? 60) && bool_decide ("" = "") = true) as ->.
    { rewrite bool_decide_true by done. repeat (apply andb_true_iff; split); lia. }
    do 2 f_equal. lia.
Qed.

(** The moments Python can represent: years 1 to 9999, offsets under a day. *)
Definition representable (m : moment) : Prop :=
  -62135596800000000 <= wall_us m <= 253402300799999999
  /\ match utc_offset m with Some o => -86400 < o < 86400 | None => True end.

Lemma parse_fraction_text us rest :
  0 <= us < 1000000 -> parse_offset rest <> None ->
  parse_fraction ((if us =? 0 then "" else "." +:+ pad 6 us) +:+ rest) = Some (us, rest).
Proof.
  intros Hus Hrest. destruct (us =? 0) eqn:E; bool_to_prop.
  - subst us. change ("" +:+ rest) with rest. unfold parse_fraction. destruct rest as [|c rest]; [done|].
    destruct c as [[] [] [] [] [] [] [] []]; try done.
  - change (("." +:+ pad 6 us) +:+ rest) with (String "."%char (pad 6 us +:+ rest)). cbn [parse_fraction]. apply take_pad; [lia|]. cbn. lia.
Qed.

(** What [isoformat] writes, [fromisoformat] reads back: for every moment Python can represent,
    aware or naive, the text parses to the same wall clock and the same offset. *)
Theorem isoformat_roundtrip m : representable m -> fromisoformat (isoformat m) = Ok m.
Proof.
  intros [Hw Ho]. destruct m as [w o]. cbn in Hw, Ho. unfold fromisoformat, parse_moment, isoformat. cbn [wall_us utc_offset].
  set (secs := w / us_per_second). set (us := w mod us_per_second). set (tod := secs mod 86400). set (day := secs / 86400).
  assert (Hb : -719162 <= day <= 2932896 /\ 0 <= tod < 86400 /\ 0 <= us < 1000000 /\ w = us_per_second * (86400 * day + tod) + us).
  { unfold day, tod, secs, us, us_per_second. Z.div_mod_to_equations. lia. }
  destruct Hb as (Hday & Htod & Hus & Hsum). clearbody day tod us.
  pose proof (civil_bounds day Hday) as Hc. pose proof (days_of_civil_of_days day) as Hd.
  destruct (civil_of_days day) as [[y mo] d] eqn:Ec. destruct Hc as (Hy & Hmo & Hdd).
  assert (Ht : 0 <= tod / 3600 < 24 /\ 0 <= tod / 60 mod 60 < 60 /\ 0 <= tod mod 60 < 60
    /\ 3600 * (tod / 3600) + 60 * (tod / 60 mod 60) + tod mod 60 = tod) by (Z.div_mod_to_equations; lia).
  destruct Ht as (Hh & Hmi & Hse & Hts).
  set (tail := match o with Some o => offset_text o | None => "" end).
  assert (Htail : parse_offset tail = Some o) by (unfold tail; destruct o; [by apply parse_offset_text|done]).
  rewrite take_pad by (cbn; lia). cbn [mbind option_bind fst snd].
  do 5 (rewrite two_digits by lia; cbn [mbind option_bind fst snd]).
  rewrite parse_fraction_text by (done || by rewrite Htail). cbn [mbind option_bind fst snd]. rewrite Htail. cbn [mbind option_bind].
  assert (valid_date y mo d && (tod / 3600 <? 24) && (tod / 60 mod 60 <? 60) && (tod mod 60 <? 60) = true) as ->.
  { unfold valid_date. rewrite Hd, Ec, bool_decide_true by done. repeat (apply andb_true_iff; split); lia. }
  rewrite Hd. do 3 f_equal. lia.
Qed.

Lemma isoformat_roundtrip_witness :
  fromisoformat "2026-09-10T00:26:40.123456+08:00" = Ok (Moment 1789000000123456 (Some 28800)).
Proof.
  change "2026-09-10T00:26:40.123456+08:00" with (isoformat (Moment 1789000000123456 (Some 28800))).
  apply isoformat_roundtrip. unfold representable. cbn. lia.
Defined.
