(* ===== verification/FinalInterval.v ===== *)
(** The controller of the final interval of a Run: admission modes, one final chance per Lane, the
    drain of Candidates and the terminal inventory.

    [FinalIntervalController] of [src/solver/final_interval.py].  Its facts live in any
    [EventLog]; [self._document] is their replay, kept in memory.  The write authority its
    transactions go through is a [FinalAuthority].  The world also holds the readings the
    clock will give: when they run out, power is lost. *)

From S2P Require Import Prelude Canon Text Moment MomentFormat PyJson EventStore EventContracts EventLog FinalContracts.
Local Open Scope Z_scope.

(** ** The window *)

Record FinalWindow : Type := {
  fw_run : string;
  opened_at : moment;
  ends_at : moment;
  reserve_seconds : Z;
  floor_seconds : Z;
  post_interval_us : Z;
  request_deadline_us : Z;
  uncertainty_margin_us : Z;
  enabled_lanes : list string
}.

(** The checks of [__init__]; an end without a zone is not comparable with the opening. *)
Definition invalid_window : exn := ValueError "final interval requires a valid Run window, reserve, floor, and Lane profile".

Definition FinalWindow_new (c : FinalWindow) : result FinalWindow :=
  raise_if (bool_decide (fw_run c = "") || naive (opened_at c)) invalid_window;;
  raise_if (naive (ends_at c)) (TypeError "can't compare offset-naive and offset-aware datetimes");;
  raise_if (at_or_before (ends_at c) (opened_at c)
      || (Z.min (reserve_seconds c) (floor_seconds c) <=? 0)
      || (Z.min (post_interval_us c) (Z.min (request_deadline_us c) (uncertainty_margin_us c)) <=? 0)
      || (us_per_second * reserve_seconds c <=? request_deadline_us c + uncertainty_margin_us c)
      || (us_between (ends_at c) (opened_at c) <=? us_per_second * reserve_seconds c)
      || bool_decide (enabled_lanes c = [])
      || negb (bool_decide (NoDup (enabled_lanes c))))
    invalid_window;;
  Ok c.

Definition cutoff (c : FinalWindow) : moment := plus_seconds (ends_at c) (- reserve_seconds c).

Definition mode_at (c : FinalWindow) (now : moment) : AdmissionMode :=
  if at_or_before (ends_at c) now then MODE_CLOSED
  else if at_or_before (cutoff c) now then SUBMISSION_RESERVE
  else if us_between (cutoff c) now <? us_per_second * floor_seconds c then FINAL_CHANCE
  else ORDINARY.

(** ** Its collaborators *)

(** The write authority: a reservation by name, its key if it has one, the settlement of a local
    transaction and its abortion; [authority_present] is [self._write_authority is not None]. *)
Class FinalAuthority (A G : Type) : Type := {
  authority_present : bool;
  reserve_named : string -> Prog A G;
  reserve_terminal : string -> Prog A G;
  grant_key : G -> option string;
  settle_local : G -> json -> Prog A unit;
  abort_local : G -> string -> Prog A unit
}.

Record RunInventory : Type := { in_attempts : list string; in_instances : list string; in_submissions : list string }.

Definition inventory_document (i : RunInventory) : json := JObj [
  ("attempts", JList (JStr <$> in_attempts i)); ("instances", JList (JStr <$> in_instances i));
  ("submissions", JList (JStr <$> in_submissions i))].

(** How [submit] answers: with a text, or it defers the Candidate before the wire, or its effect is
    indeterminate. *)
Inductive SubmitAnswer : Type := Sent (text : string) | Deferred | Indeterminate.

Record FinalChanceGrant (G : Type) : Type := {
  fg_lane_id : string;
  fg_challenge_id : string;
  fg_admitted_at : moment;
  fg_deadline : moment;
  fg_transaction : option G
}.
Arguments fg_lane_id {G}.
Arguments fg_challenge_id {G}.
Arguments fg_admitted_at {G}.
Arguments fg_deadline {G}.
Arguments fg_transaction {G}.

Record Facts : Type := {
  ft_lane : string; ft_challenge : string; ft_candidate : string; ft_reservation : string; ft_state : string; ft_outcome : string;
  ft_inventory : fields
}.

Definition no_facts : Facts := {|
  ft_lane := ""; ft_challenge := ""; ft_candidate := ""; ft_reservation := ""; ft_state := ""; ft_outcome := ""; ft_inventory := [] |}.

Definition lane_fact (lane challenge reservation state : string) : Facts := {|
  ft_lane := lane; ft_challenge := challenge; ft_candidate := ""; ft_reservation := reservation; ft_state := state; ft_outcome := "";
  ft_inventory := [] |}.

Definition candidate_fact (candidate reservation outcome : string) : Facts := {|
  ft_lane := ""; ft_challenge := ""; ft_candidate := candidate; ft_reservation := reservation; ft_state := ""; ft_outcome := outcome;
  ft_inventory := [] |}.

Definition close_fact (challenge reservation outcome : string) (inventory : fields) : Facts := {|
  ft_lane := ""; ft_challenge := challenge; ft_candidate := ""; ft_reservation := reservation; ft_state := ""; ft_outcome := outcome;
  ft_inventory := inventory |}.

Section controller.
Context {DG : Digester} {L : Type} `{EventLog L} {A G : Type} `{FinalAuthority A G} (c : FinalWindow).

Record FinalWorld : Type := {
  fw_log : L;
  fw_auth : A;
  fw_clock : list moment;
  fw_document : FinalDocument;
  fw_floor : moment;
  fw_chances : list (string * G)
}.

Definition on_log {B} (m : Prog L B) : Prog FinalWorld B := fun w =>
  match m (fw_log w) with
  | (l, r) => ({| fw_log := l; fw_auth := fw_auth w; fw_clock := fw_clock w; fw_document := fw_document w; fw_floor := fw_floor w;
                  fw_chances := fw_chances w |}, r)
  end.

Definition on_auth {B} (m : Prog A B) : Prog FinalWorld B := fun w =>
  match m (fw_auth w) with
  | (a, r) => ({| fw_log := fw_log w; fw_auth := a; fw_clock := fw_clock w; fw_document := fw_document w; fw_floor := fw_floor w;
                  fw_chances := fw_chances w |}, r)
  end.

Definition document : Prog FinalWorld FinalDocument := ask fw_document.

Definition set_document (d : FinalDocument) : Prog FinalWorld unit := fun w =>
  ({| fw_log := fw_log w; fw_auth := fw_auth w; fw_clock := fw_clock w; fw_document := d; fw_floor := fw_floor w;
      fw_chances := fw_chances w |}, Done tt).

Definition set_chances (f : list (string * G) -> list (string * G)) : Prog FinalWorld unit := fun w =>
  ({| fw_log := fw_log w; fw_auth := fw_auth w; fw_clock := fw_clock w; fw_document := fw_document w; fw_floor := fw_floor w;
      fw_chances := f (fw_chances w) |}, Done tt).

(** [max(a, b)], the first of equals. *)
Definition later (a b : moment) : moment := if before a b then b else a.

(** [_observed_now]. *)
Definition observed_now : Prog FinalWorld moment := fun w =>
  match fw_clock w with
  | [] => (w, Crashed)
  | now :: rest =>
      let read floor := {| fw_log := fw_log w; fw_auth := fw_auth w; fw_clock := rest; fw_document := fw_document w; fw_floor := floor;
                           fw_chances := fw_chances w |} in
      if naive now || negb (bool_decide (utc_offset now = Some 0)) || before now (opened_at c)
      then (read (fw_floor w), Raised (ValueError "final-interval clock must be UTC and inside the declared Run"))
      else (read (later (fw_floor w) now), Done (later (fw_floor w) now))
  end.

(** [_record]: the fact is appended under an identity made of its ordinal, then the document is
    replayed from the log. *)
Definition fact_name (ordinal : Z) (record : FinalIntervalRecord) : string :=
  digest_bytes (fw_run c +:+ ":" +:+ str_int ordinal +:+ ":" +:+ fact_value record).

Definition fact_event (ordinal : Z) (record : FinalIntervalRecord) (at_ : moment) (f : Facts) : FinalIntervalRecorded := {|
  fi_event_id := fact_name ordinal record; fi_record := record; fi_observed_at := isoformat at_; fi_lane_id := ft_lane f;
  fi_challenge_id := ft_challenge f; fi_candidate_id := ft_candidate f; fi_reservation_id := ft_reservation f; fi_state := ft_state f;
  fi_outcome := ft_outcome f; fi_inventory := ft_inventory f |}.

Definition count_facts (es : list CommittedEvent) : Z := py_len (List.filter is_final_event es).

Definition record_fact (record : FinalIntervalRecord) (at_ : moment) (f : Facts) : Prog FinalWorld unit :=
  es ← on_log (es ← ask log_read; try es);
  on_log (log_append (final_event (fact_event (count_facts es + 1) record at_ f)) "");;
  es ← on_log (es ← ask log_read; try es);
  d ← try (project_final_interval es);
  set_document d.

(** ** Admission *)

Definition require_lane (lane : string) : Prog FinalWorld unit :=
  try (raise_unless (bool_decide (lane ∈ enabled_lanes c)) (ValueError "Lane is not enabled by the selected profile")).

Definition AdmissionMode_new (text : string) : result AdmissionMode :=
  match mode_of text with Some m => Ok m | None => Err (ValueError "not a valid AdmissionMode") end.

Definition admission_mode (lane : string) : Prog FinalWorld AdmissionMode :=
  require_lane lane;;
  now ← observed_now;
  d ← document;
  durable ← try (AdmissionMode_new (fd_mode d));
  let observed := match fd_terminal d with Some _ => MODE_CLOSED | None => mode_at c now end in
  if mode_rank durable <? mode_rank observed then
    record_fact TRANSITION now {| ft_lane := ""; ft_challenge := ""; ft_candidate := ""; ft_reservation := "";
      ft_state := mode_value observed; ft_outcome := ""; ft_inventory := [] |};;
    mret observed
  else mret durable.

Definition scoreable_seconds : Prog FinalWorld Z :=
  now ← observed_now;
  mret (Z.max 0 (us_between (cutoff c) now)).

Definition reserved_now (ch : Chance) : bool := bool_decide (ch_state ch = CHANCE_RESERVED).

Definition chance_available (lane : string) : Prog FinalWorld bool :=
  require_lane lane;;
  d ← document;
  m ← admission_mode lane;
  mret (bool_decide (m = FINAL_CHANCE)
    && match dict_get lane (fd_chances d) with None => true | Some ch => reserved_now ch end).

Definition chance_name (lane : string) : string := "final-chance:" +:+ lane.

Definition key_or (dflt : string) (g : G) : string := default dflt (grant_key g).

Definition chance_grant (lane challenge : string) (now : moment) (g : option G) : FinalChanceGrant G := {|
  fg_lane_id := lane; fg_challenge_id := challenge; fg_admitted_at := now; fg_deadline := cutoff c; fg_transaction := g |}.

Definition reserve_final_chance (lane challenge : string) : Prog FinalWorld (option (FinalChanceGrant G)) :=
  d ← document;
  let existing := dict_get lane (fd_chances d) in
  m ← admission_mode lane;
  if negb (bool_decide (m = FINAL_CHANCE)) || match existing with Some ch => negb (reserved_now ch) | None => false end then mret None
  else
    try (raise_if (bool_decide (challenge = "")) (ValueError "final chance requires a Challenge identity"));;
    now ← observed_now;
    match existing with
    | Some _ => mret (Some (chance_grant lane challenge now None))
    | None =>
        g ← on_auth (reserve_named (chance_name lane));
        record_fact ENTITLEMENT_RESERVED now (lane_fact lane "" (key_or (chance_name lane) g) CHANCE_RESERVED);;
        set_chances (dict_set lane g);;
        mret (Some (chance_grant lane challenge now (Some g)))
    end.

Definition settled_state_json (s : string) : json := JObj [("state", JStr s)].

Definition spend_final_chance (grant : FinalChanceGrant G) : Prog FinalWorld (FinalChanceGrant G) :=
  d ← document;
  let lane := fg_lane_id grant in
  match dict_get lane (fd_chances d) with
  | None => fail (ValueError "final chance has no matching durable reservation")
  | Some ch =>
      if bool_decide (ch_state ch = CHANCE_SPENT) then
        try (raise_unless (bool_decide (ch_challenge ch = fg_challenge_id grant)) (ValueError "final chance was spent on another Challenge"));;
        mret grant
      else
        try (raise_unless (reserved_now ch) (ValueError "final chance is already closed"));;
        g ← match fg_transaction grant with Some g => mret g | None => on_auth (reserve_named (chance_name lane)) end;
        now ← observed_now;
        if at_or_before (cutoff c) now then
          record_fact ENTITLEMENT_CLOSED now (lane_fact lane "" (key_or (chance_name lane) g) CHANCE_CLOSED);;
          on_auth (settle_local g (settled_state_json CHANCE_CLOSED));;
          set_chances (dict_del lane);;
          fail (ValueError "final chance crossed the submission cutoff before admission")
        else
          record_fact ENTITLEMENT_SPENT now (lane_fact lane (fg_challenge_id grant) (key_or (chance_name lane) g) CHANCE_SPENT);;
          on_auth (settle_local g (settled_state_json CHANCE_SPENT));;
          set_chances (dict_del lane);;
          mret {| fg_lane_id := lane; fg_challenge_id := fg_challenge_id grant; fg_admitted_at := now; fg_deadline := fg_deadline grant;
                  fg_transaction := fg_transaction grant |}
  end.

Definition admit_final_chance (lane challenge : string) : Prog FinalWorld (option (FinalChanceGrant G)) :=
  grant ← reserve_final_chance lane challenge;
  match grant with
  | Some g => g ← spend_final_chance g; mret (Some g)
  | None => mret None
  end.

(** ** The drain *)

Definition submission_name (candidate : string) : string := "submission:" +:+ candidate.

Definition outcome_json (s : string) : json := JObj [("outcome", JStr s)].

Definition said_of_prior (prior : string) : string := if bool_decide (prior = POSSIBLY_SENT_) then UNKNOWN_AND_SPENT else prior.

(** A Candidate not yet in the submissions the drain began with. *)
Definition drain_one (submit : string -> Prog L SubmitAnswer) (now : moment) (candidate : string) : Prog FinalWorld (option string) :=
  g ← on_auth (reserve_named (submission_name candidate));
  match enabled_lanes c with
  | [] => fail (KeyError "tuple index out of range")
  | lane :: _ => admission_mode lane;; mret tt
  end;;
  let reservation := key_or (submission_name candidate) g in
  d ← document;
  (if dict_has candidate (fd_drain_requests d) then mret tt
   else record_fact DRAIN_REQUESTED now (candidate_fact candidate reservation ""));;
  answer ← on_log (submit candidate);
  match answer with
  | Deferred => on_auth (abort_local g "deferred-before-wire");; mret None
  | _ =>
      outcome ← try (match answer with Sent text => SubmissionDisposition_new text | _ => Ok POSSIBLY_SENT_ end);
      result_at ← observed_now;
      record_fact DRAIN_RESULT result_at (candidate_fact candidate reservation outcome);;
      on_auth (settle_local g (outcome_json outcome));;
      mret (Some outcome)
  end.

(** The loop; [submissions] is what the document held when the drain began. *)
Fixpoint drain_loop (submit : string -> Prog L SubmitAnswer) (submissions : list (string * Submitted)) (candidates : list string) :
    Prog FinalWorld (list string) :=
  match candidates with
  | [] => mret []
  | candidate :: rest =>
      now ← observed_now;
      if at_or_before (ends_at c) now then mret []
      else
        said ← match dict_get candidate submissions with
          | Some prior =>
              (if authority_present then
                 g ← on_auth (reserve_named (submission_name candidate)); on_auth (settle_local g (outcome_json (sb_outcome prior)))
               else mret tt);;
              mret (Some (said_of_prior (sb_outcome prior)))
          | None => drain_one submit now candidate
          end;
        more ← drain_loop submit submissions rest;
        mret (match said with Some s => s :: more | None => more end)
  end.

Definition drain (candidates : list string) (submit : string -> Prog L SubmitAnswer) : Prog FinalWorld (list string) :=
  now ← observed_now;
  try (raise_unless (at_or_before (cutoff c) now && before now (ends_at c))
    (ValueError "Candidate drain belongs to the final-submission reserve"));;
  d ← document;
  drain_loop submit (fd_submissions d) candidates.

Definition reconcile_submission (candidate outcome : string) : Prog FinalWorld unit :=
  d ← document;
  resolved ← try (SubmissionDisposition_new outcome);
  try (raise_unless (match dict_get candidate (fd_submissions d) with
      | Some s => bool_decide (sb_outcome s = POSSIBLY_SENT_)
      | None => false
      end) (ValueError "only a possibly-sent Candidate can be reconciled"));;
  if bool_decide (resolved = POSSIBLY_SENT_) then mret tt
  else
    now ← observed_now;
    record_fact SUBMISSION_RECONCILED now (candidate_fact candidate (default "" (dict_get candidate (fd_drain_requests d))) resolved).

(** ** Closing the Run *)

(** [dict.fromkeys(("run-cleanup", *attempts, *instances))]. *)
Definition cleanup_targets (before_ : RunInventory) : list string :=
  dict_keys (foldl (fun d k => dict_set k tt d) []
    ("run-cleanup" :: ((fun i => "attempt:" +:+ i) <$> in_attempts before_) ++ ((fun i => "instance:" +:+ i) <$> in_instances before_))).

Definition unsettled_run : list (string * string) := [("run-cleanup", CLEANUP_UNSETTLED)].

(** What the cleanup said of each target, before the inventory is looked at again. *)
Definition supplied_outcomes (targets : list string) (supplied : list (string * string)) : list (string * string) :=
  let outcomes := foldl (fun o t =>
    dict_set t (if bool_decide (dict_get t supplied = Some CLEANUP_RELEASED) then CLEANUP_RELEASED else CLEANUP_UNSETTLED) o) [] targets in
  if dict_has "run-cleanup" supplied then outcomes else dict_set "run-cleanup" CLEANUP_RELEASED outcomes.

(** A target of a kind is released exactly when the remaining inventory does not name it; something
    left that is no target leaves the Run's cleanup unsettled. *)
Definition look_again (kind : string) (left_ targets : list string) (outcomes : list (string * string)) : list (string * string) :=
  let outcomes := foldl (fun o t =>
    match strip_prefix (kind +:+ ":") t with
    | Some rest => dict_set t (if bool_decide (rest ∈ left_) then CLEANUP_UNSETTLED else CLEANUP_RELEASED) o
    | None => o
    end) outcomes targets in
  if py_any (fun i => negb (bool_decide (kind +:+ ":" +:+ i ∈ targets))) left_
  then dict_set "run-cleanup" CLEANUP_UNSETTLED outcomes else outcomes.

Definition cleanup_outcomes (targets : list string) (supplied : list (string * string)) (remaining : RunInventory) :
    list (string * string) :=
  let supplied := if py_all (fun kv => bool_decide (kv.1 ∈ targets)) supplied then supplied else unsettled_run in
  look_again "instance" (in_instances remaining) targets
    (look_again "attempt" (in_attempts remaining) targets (supplied_outcomes targets supplied)).

(** The results not yet on record, one fact each; what is released stays released. *)
Fixpoint record_cleanup (now : moment) (reservation : string) (durable outcomes : list (string * string)) :
    Prog FinalWorld (list (string * string)) :=
  match outcomes with
  | [] => mret durable
  | (target, value) :: rest =>
      if bool_decide (dict_get target durable = Some value) then record_cleanup now reservation durable rest
      else
        try (raise_if (bool_decide (dict_get target durable = Some CLEANUP_RELEASED)) (ValueError "released cleanup target reappeared"));;
        let outcome := if bool_decide (value = CLEANUP_RELEASED) then CLEANUP_RELEASED else CLEANUP_UNSETTLED in
        record_fact CLEANUP_RESULT now (close_fact target reservation outcome []);;
        record_cleanup now reservation (dict_set target outcome durable) rest
  end.

(** The final chances still reserved, closed one by one. *)
Fixpoint close_chances (now : moment) (chances : list (string * Chance)) : Prog FinalWorld unit :=
  match chances with
  | [] => mret tt
  | (lane, ch) :: rest =>
      (if reserved_now ch then
         held ← ask fw_chances;
         g ← match dict_get lane held with Some g => mret g | None => on_auth (reserve_named (chance_name lane)) end;
         record_fact ENTITLEMENT_CLOSED now (lane_fact lane (ch_challenge ch) (key_or (chance_name lane) g) CHANCE_CLOSED);;
         on_auth (settle_local g (settled_state_json CHANCE_CLOSED));;
         set_chances (dict_del lane)
       else mret tt);;
      close_chances now rest
  end.

Definition terminal_document (closed_at : moment) (remaining : RunInventory) (outcomes : list (string * string)) (disposition_ : string) :
    fields := [
  ("closed_at", JStr (isoformat closed_at)); ("official_ends_at", JStr (isoformat (ends_at c)));
  ("remaining", inventory_document remaining); ("cleanup", JObj ((fun kv => (kv.1, JStr kv.2)) <$> outcomes));
  ("disposition", JStr disposition_)].

Definition chance_json (ch : Chance) : json := JObj [("challenge_id", JStr (ch_challenge ch)); ("state", JStr (ch_state ch))].
Definition submitted_json (s : Submitted) : json := JObj [("outcome", JStr (sb_outcome s)); ("observed_at", JStr (sb_observed_at s))].

(** [receipt]; the seconds of the window are whole numbers here. *)
Definition receipt_of (d : FinalDocument) : json := JObj [
  ("schema_version", JInt 2); ("kind", JStr "final-interval"); ("producer", JStr "run-controller"); ("run_id", JStr (fw_run c));
  ("window", JObj [("opened_at", JStr (isoformat (opened_at c))); ("final_submission_cutoff", JStr (isoformat (cutoff c)));
     ("ends_at", JStr (isoformat (ends_at c))); ("reserve_seconds", JInt (reserve_seconds c));
     ("attempt_floor_seconds", JInt (floor_seconds c));
     ("account_post_interval_seconds", JInt (post_interval_us c / us_per_second));
     ("submission_request_deadline_seconds", JInt (request_deadline_us c / us_per_second));
     ("submission_uncertainty_margin_seconds", JInt (uncertainty_margin_us c / us_per_second))]);
  ("enabled_lanes", JList (JStr <$> enabled_lanes c));
  ("final_chances", JObj ((fun kv => (kv.1, chance_json kv.2)) <$> fd_chances d));
  ("submissions", JObj ((fun kv => (kv.1, submitted_json kv.2)) <$> fd_submissions d));
  ("terminal", match fd_terminal d with Some t => JObj t | None => JNull end);
  ("trace", JList (JObj <$> fd_trace d));
  ("trace_digest", JStr (digest (JList (JObj <$> fd_trace d))))].

Definition write_final_receipt : Prog FinalWorld unit :=
  d ← document;
  on_log (log_receipt RECEIPT_FILE (receipt_of d)).

Definition disposition_json (j : json) : json := JObj [("disposition", j)].

(** [min(now, ends_at)], the first of equals. *)
Definition earlier (a b : moment) : moment := if before b a then b else a.

(** A Run already closed: the receipt is written again and the transaction settled. *)
Definition close_again (terminal : fields) : Prog FinalWorld fields :=
  write_final_receipt;;
  disposition_ ← try (item "disposition" terminal);
  g ← on_auth (reserve_terminal "run-close");
  on_auth (settle_local g (disposition_json disposition_));;
  mret terminal.

(** [try: ... except Exception]. *)
Definition caught {B} (m : Prog L B) : Prog L (result B) := fun l =>
  match m l with
  | (l, Done b) => (l, Done (Ok b))
  | (l, Raised e) => (l, Done (Err e))
  | (l, Crashed) => (l, Crashed)
  end.

(** The targets of the cleanup: those requested before, or the ones requested now. *)
Definition request_cleanup (now : moment) (reservation : string) (before_ : RunInventory) : Prog FinalWorld (list string) :=
  d ← document;
  if fd_cleanup_requested d then
    try (raise_unless (bool_decide (fd_cleanup_authority d = reservation)) (ValueError "cleanup and terminal authority disagree"));;
    mret (fd_cleanup_targets d)
  else
    record_fact CLEANUP_REQUESTED now (close_fact "" reservation "" [("targets", JList (JStr <$> cleanup_targets before_))]);;
    mret (cleanup_targets before_).

(** The terminal inventory of what the cleanup left, its receipt and the settlement. *)
Definition end_run (now : moment) (g : G) (reservation : string) (remaining : RunInventory) (outcomes : list (string * string)) :
    Prog FinalWorld fields :=
  let disposition_ := if py_any (fun kv => negb (bool_decide (kv.2 = CLEANUP_RELEASED))) outcomes
    then CLOSED_WITH_UNSETTLED_CLEANUP else RUN_CLOSED in
  let terminal := terminal_document (earlier now (ends_at c)) remaining outcomes disposition_ in
  record_fact TERMINAL_INVENTORY now (close_fact "" reservation disposition_ terminal);;
  write_final_receipt;;
  on_auth (settle_local g (disposition_json (JStr disposition_)));;
  mret terminal.

(** A Run not closed yet; [cleanup] answers with outcomes or raises, which leaves the Run's cleanup
    unsettled. *)
Definition close_first (now : moment) (inventory : Prog L RunInventory) (cleanup : Prog L (list (string * string))) : Prog FinalWorld fields :=
  d ← document;
  mode ← try (AdmissionMode_new (fd_mode d));
  (if bool_decide (mode = MODE_CLOSED) then mret tt
   else record_fact TRANSITION now {| ft_lane := ""; ft_challenge := ""; ft_candidate := ""; ft_reservation := "";
     ft_state := mode_value MODE_CLOSED; ft_outcome := ""; ft_inventory := [] |});;
  g ← on_auth (reserve_terminal "run-close");
  let reservation := key_or "run-close" g in
  d ← document;
  close_chances now (fd_chances d);;
  before_ ← on_log inventory;
  targets ← request_cleanup now reservation before_;
  supplied ← on_log (caught cleanup);
  remaining ← on_log inventory;
  d ← document;
  let supplied := match supplied with Ok s => s | Err _ => unsettled_run end in
  outcomes ← record_cleanup now reservation (fd_cleanup d) (cleanup_outcomes targets supplied remaining);
  end_run now g reservation remaining outcomes.

Definition close (inventory : Prog L RunInventory) (cleanup : Prog L (list (string * string))) (allow_early_terminal : bool) :
    Prog FinalWorld fields :=
  now ← observed_now;
  try (raise_if (before now (ends_at c) && negb allow_early_terminal) (ValueError "cleanup cannot consume the official Run window"));;
  d ← document;
  match fd_terminal d with
  | Some (kv :: rest) => close_again (kv :: rest)
  | _ => close_first now inventory cleanup
  end.

(** ** Starting *)

(** The moments the trace observed. *)
Definition observed_in (row : fields) : result (list moment) :=
  let v := get_or "observed_at" JNull row in
  if truthy v then m ← fromisoformat (py_str v); Ok [m] else Ok [].

Fixpoint observed_all (rows : list fields) : result (list moment) :=
  match rows with
  | [] => Ok []
  | row :: rows => ms ← observed_in row; rest ← observed_all rows; Ok (ms ++ rest)
  end.

Definition load_document (d : FinalDocument) (floor : moment) : Prog FinalWorld unit := fun w =>
  ({| fw_log := fw_log w; fw_auth := fw_auth w; fw_clock := fw_clock w; fw_document := d; fw_floor := floor; fw_chances := [] |}, Done tt).

(** What [__init__] does once the window was checked. *)
Definition final_start : Prog FinalWorld unit :=
  es ← on_log (es ← ask log_read; try es);
  d ← try (project_final_interval es);
  observed ← try (observed_all (fd_trace d));
  try (raise_unless (py_all (fun kv => bool_decide (kv.1 ∈ enabled_lanes c)) (fd_chances d))
    (ValueError "final-interval authority names a disabled Lane"));;
  load_document d (foldl later (opened_at c) observed).
End controller.
