(* ===== verification/FinalLogic.v ===== *)
(** The final interval as an abstract machine, and rules for the controller's programs. *)

From S2P Require Import Prelude Canon Text Moment MomentFormat PyJson EventStore EventContracts EventLog FinalContracts FinalInterval.
Local Open Scope Z_scope.

(** ** The abstract interval *)

Record Interval : Type := {
  iv_mode : AdmissionMode;
  iv_chances : list (string * Chance);
  iv_outcomes : list (string * string);
  iv_cleanup : list (string * string);
  iv_terminal : option fields
}.

Definition iv_with_chance (lane : string) (ch : Chance) (i : Interval) : Interval := {|
  iv_mode := iv_mode i; iv_chances := dict_set lane ch (iv_chances i); iv_outcomes := iv_outcomes i; iv_cleanup := iv_cleanup i;
  iv_terminal := iv_terminal i |}.

Definition iv_with_outcome (candidate o : string) (i : Interval) : Interval := {|
  iv_mode := iv_mode i; iv_chances := iv_chances i; iv_outcomes := dict_set candidate o (iv_outcomes i); iv_cleanup := iv_cleanup i;
  iv_terminal := iv_terminal i |}.

(** What may happen: the mode advances; a Lane without a chance reserves one while the Run is open;
    a reserved chance is spent or closed; a Candidate gets an outcome, and another one only
    when the first was possibly sent; a cleanup target gets a result unless it was released;
    the Run ends once. *)
Inductive iv_step (lanes : list string) : Interval -> Interval -> Prop :=
  | iv_advance i m : mode_rank (iv_mode i) < mode_rank m ->
      iv_step lanes i {| iv_mode := m; iv_chances := iv_chances i; iv_outcomes := iv_outcomes i; iv_cleanup := iv_cleanup i;
                         iv_terminal := iv_terminal i |}
  | iv_reserve i lane challenge : lane ∈ lanes -> dict_get lane (iv_chances i) = None -> iv_terminal i = None ->
      iv_step lanes i (iv_with_chance lane {| ch_challenge := challenge; ch_state := CHANCE_RESERVED |} i)
  | iv_spend i lane ch challenge : dict_get lane (iv_chances i) = Some ch -> ch_state ch = CHANCE_RESERVED ->
      iv_step lanes i (iv_with_chance lane {| ch_challenge := challenge; ch_state := CHANCE_SPENT |} i)
  | iv_forfeit i lane ch challenge : dict_get lane (iv_chances i) = Some ch -> ch_state ch = CHANCE_RESERVED ->
      iv_step lanes i (iv_with_chance lane {| ch_challenge := challenge; ch_state := CHANCE_CLOSED |} i)
  | iv_result i candidate o : dict_get candidate (iv_outcomes i) = None -> iv_step lanes i (iv_with_outcome candidate o i)
  | iv_resolve i candidate o : dict_get candidate (iv_outcomes i) = Some POSSIBLY_SENT_ -> o <> POSSIBLY_SENT_ ->
      iv_step lanes i (iv_with_outcome candidate o i)
  | iv_clean i target o : dict_get target (iv_cleanup i) <> Some CLEANUP_RELEASED ->
      iv_step lanes i {| iv_mode := iv_mode i; iv_chances := iv_chances i; iv_outcomes := iv_outcomes i;
                         iv_cleanup := dict_set target o (iv_cleanup i); iv_terminal := iv_terminal i |}
  | iv_end i t : iv_terminal i = None \/ iv_terminal i = Some [] ->
      iv_step lanes i {| iv_mode := MODE_CLOSED; iv_chances := iv_chances i; iv_outcomes := iv_outcomes i; iv_cleanup := iv_cleanup i;
                         iv_terminal := Some t |}.

(** What never goes back. *)
Record iv_le (i j : Interval) : Prop := {
  le_mode : mode_rank (iv_mode i) <= mode_rank (iv_mode j);
  le_chance lane ch : dict_get lane (iv_chances i) = Some ch -> ch_state ch <> CHANCE_RESERVED -> dict_get lane (iv_chances j) = Some ch;
  le_outcome cand o : dict_get cand (iv_outcomes i) = Some o -> o <> POSSIBLY_SENT_ -> dict_get cand (iv_outcomes j) = Some o;
  le_cleanup t : dict_get t (iv_cleanup i) = Some CLEANUP_RELEASED -> dict_get t (iv_cleanup j) = Some CLEANUP_RELEASED;
  le_terminal kv t : iv_terminal i = Some (kv :: t) -> iv_terminal j = Some (kv :: t)
}.

Lemma iv_le_refl i : iv_le i i.
Proof. by split. Qed.

Lemma iv_le_trans i j k : iv_le i j -> iv_le j k -> iv_le i k.
Proof.
  intros [M1 C1 O1 K1 T1] [M2 C2 O2 K2 T2]. split; [lia|eauto..].
Qed.

Lemma mode_rank_top m : mode_rank m <= mode_rank MODE_CLOSED.
Proof. by destruct m. Qed.

Lemma iv_step_le lanes i j : iv_step lanes i j -> iv_le i j.
Proof.
  assert (Hset : forall (V : Type) (k : string) (v : V) d k' v', dict_get k' d = Some v' -> (k' = k -> v' = v) -> dict_get k' (dict_set k v d) = Some v').
  { intros V k v d k' v' Hk Hne. rewrite dict_get_set. case_bool_decide as E; [|done]. by rewrite Hne by done. }
  destruct 1 as [i m Hm|i lane challenge Hl Hn Ht|i lane ch challenge Hc Hs|i lane ch challenge Hc Hs|i cand o Hn|i cand o Hp Ho|i t o Hn|i t Ht];
    split; cbn; try done; try lia.
  - intros l ch Hc Hs. apply Hset; [done|]. intros ->. congruence.
  - intros l ch' Hc' Hs'. apply Hset; [done|]. intros ->. exfalso. apply Hs'. congruence.
  - intros l ch' Hc' Hs'. apply Hset; [done|]. intros ->. exfalso. apply Hs'. congruence.
  - intros c' o' Hc' Ho'. apply Hset; [done|]. intros ->. congruence.
  - intros c' o' Hc' Ho'. apply Hset; [done|]. intros ->. congruence.
  - intros t' Ht'. apply Hset; [done|]. intros ->. congruence.
  - apply mode_rank_top.
  - intros kv t' Ht'. destruct Ht; congruence.
Qed.

Lemma iv_steps_le lanes i j : rtc (iv_step lanes) i j -> iv_le i j.
Proof. induction 1 as [i|i j k H1 _ IH]; [apply iv_le_refl|]. eapply iv_le_trans; [by eapply iv_step_le|done]. Qed.

#[local] Arguments mode_of : simpl never.

(** ** Documents *)

Definition abstract_interval (d : FinalDocument) : option Interval :=
  m ← mode_of (fd_mode d);
  Some {| iv_mode := m; iv_chances := fd_chances d; iv_outcomes := (fun kv => (kv.1, sb_outcome kv.2)) <$> fd_submissions d;
          iv_cleanup := fd_cleanup d; iv_terminal := fd_terminal d |}.

Lemma mode_of_value m : mode_of (mode_value m) = Some m.
Proof. by destruct m. Qed.

Lemma dict_get_outcomes cand (subs : list (string * Submitted)) :
  dict_get cand ((fun kv => (kv.1, sb_outcome kv.2)) <$> subs) = sb_outcome <$> dict_get cand subs.
Proof. induction subs as [|[k s] subs IH]; [done|]. rewrite fmap_cons. cbn. case_bool_decide; [done|apply IH]. Qed.

Lemma dict_set_outcomes cand s (subs : list (string * Submitted)) :
  (fun kv => (kv.1, sb_outcome kv.2)) <$> dict_set cand s subs
  = dict_set cand (sb_outcome s) ((fun kv => (kv.1, sb_outcome kv.2)) <$> subs).
Proof. induction subs as [|[k s'] subs IH]; [done|]. rewrite fmap_cons. cbn. case_bool_decide; [done|]. rewrite fmap_cons. by rewrite IH. Qed.

(** ** Facts *)

(** The event records the fact. *)
Definition records (e : CommittedEvent) (eid : string) (record : FinalIntervalRecord) (at_ : moment) (f : Facts) : Prop :=
  is_final_event e = true /\ exists bd bb, payload e = final_payload {|
    fi_event_id := eid; fi_record := record; fi_observed_at := isoformat at_; fi_lane_id := ft_lane f; fi_challenge_id := ft_challenge f;
    fi_candidate_id := ft_candidate f; fi_reservation_id := ft_reservation f; fi_state := ft_state f; fi_outcome := ft_outcome f;
    fi_inventory := ft_inventory f |} bd bb.

Lemma fact_of_value r : fact_of (fact_value r) = Some r.
Proof. by destruct r. Qed.

Definition fact_applied (row : fields) (d : FinalDocument) (record : FinalIntervalRecord) (at_ : moment) (f : Facts) : result FinalDocument :=
  apply_fact (with_trace row d) record (ft_lane f) (ft_challenge f) (ft_candidate f) (ft_reservation f) (ft_state f) (ft_outcome f)
    (isoformat at_) (ft_inventory f).

Lemma project_records e eid record at_ f d :
  records e eid record at_ f -> project_fact d (payload e) = fact_applied (payload e) d record at_ f.
Proof.
  intros [_ (bd & bb & Hp)]. unfold project_fact. set (row := payload e) in *.
  assert (Ht : forall n v, dict_get n row = Some (JStr v) -> text_of n row = Ok v) by (intros n v Hn; unfold text_of, item; by rewrite Hn).
  assert (Hinv : dict_get "inventory" row = Some (JObj (ft_inventory f))) by (by rewrite Hp).
  rewrite (Ht "record" (fact_value record)) by (by rewrite Hp). cbn [mbind result_bind]. rewrite fact_of_value. cbn [mbind result_bind].
  rewrite (Ht "lane_id" (ft_lane f)), (Ht "challenge_id" (ft_challenge f)), (Ht "candidate_id" (ft_candidate f)),
    (Ht "reservation_id" (ft_reservation f)), (Ht "state" (ft_state f)), (Ht "outcome" (ft_outcome f)),
    (Ht "observed_at" (isoformat at_)) by (by rewrite Hp).
  cbn [mbind result_bind]. unfold item. by rewrite Hinv.
Qed.

Lemma project_facts_app d es1 es2 : project_facts d (es1 ++ es2) = (d ← project_facts d es1; project_facts d es2).
Proof.
  revert d. induction es1 as [|e es1 IH]; intros d; [done|]. cbn. destruct (if is_final_event e then _ else _); cbn; [apply IH|done].
Qed.

Lemma project_snoc es d e eid record at_ f :
  project_final_interval es = Ok d -> records e eid record at_ f ->
  project_final_interval (es ++ [e]) = fact_applied (payload e) d record at_ f.
Proof.
  intros Hp Hr. unfold project_final_interval in *. rewrite project_facts_app, Hp. cbn. destruct Hr as [Hf Hr]. rewrite Hf.
  rewrite (project_records e eid record at_ f) by done. by destruct (fact_applied _ _ _ _ _).
Qed.

Lemma project_others es others :
  Forall (fun e => is_final_event e = false) others -> project_final_interval (es ++ others) = project_final_interval es.
Proof.
  intros Ho. unfold project_final_interval. rewrite project_facts_app. destruct (project_facts empty_document es) as [d|]; [|done]. cbn.
  revert d. induction Ho as [|e others He _ IH]; intros d; [done|]. cbn. rewrite He. apply IH.
Qed.

(** The entitlement a fact is about. *)
Definition entitlement (lane : string) (e : CommittedEvent) : option string :=
  if is_final_event e then
    match get_or "record" JNull (payload e), get_or "lane_id" JNull (payload e), get_or "state" JNull (payload e) with
    | JStr r, JStr l, JStr s =>
        if bool_decide (l = lane) && one_of r ["entitlement-reserved"; "entitlement-spent"; "entitlement-closed"] then Some s else None
    | _, _, _ => None
    end
  else None.

Definition entitlements (lane : string) (es : list CommittedEvent) : list string := omap (entitlement lane) es.

Definition expected_entitlements (ch : option Chance) : list string :=
  match ch with
  | None => []
  | Some ch => if bool_decide (ch_state ch = CHANCE_RESERVED) then [CHANCE_RESERVED] else [CHANCE_RESERVED; ch_state ch]
  end.

(** A chance was spent before the cutoff. *)
Definition spent_in_time (c : FinalWindow) (e : CommittedEvent) : Prop :=
  is_final_event e = true -> get_or "record" JNull (payload e) = JStr (fact_value ENTITLEMENT_SPENT) ->
  exists m, get_or "observed_at" JNull (payload e) = JStr (isoformat m) /\ before m (cutoff c) = true.

(** The name of a fact of a log of [n] facts. *)
Definition named_fact `{Digester} (c : FinalWindow) (n : Z) (e : CommittedEvent) : Prop :=
  is_final_event e = true -> exists k r, 1 <= k <= n /\ get_or "event_id" JNull (payload e) = JStr (fact_name c k r).

(** Two of the names a Run gives to its first [n] facts, of different ordinals, are one: two texts
    "run:ordinal:record" with one digest. *)
Definition names_collide `{Digester} (c : FinalWindow) (n : Z) : Prop :=
  exists k r k' r', 1 <= k /\ k < k' /\ k' <= n /\ fact_name c k r = fact_name c k' r'.

(** Two of the names of the facts a document was replayed from, and the one a next fact would have. *)
Definition colliding `{Digester} (c : FinalWindow) (d : FinalDocument) : Prop := names_collide c (py_len (fd_trace d) + 1).

Record interval_ok `{Digester} (c : FinalWindow) (es : list CommittedEvent) (d : FinalDocument) : Prop := {
  io_project : project_final_interval es = Ok d;
  io_mode : exists i, abstract_interval d = Some i;
  io_lanes lane ch : dict_get lane (fd_chances d) = Some ch ->
    lane ∈ enabled_lanes c /\ ch_state ch ∈ [CHANCE_RESERVED; CHANCE_SPENT; CHANCE_CLOSED];
  io_entitled lane : entitlements lane es = expected_entitlements (dict_get lane (fd_chances d));
  io_timed : Forall (spent_in_time c) es;
  io_keys : NoDup (fd_chances d).*1;
  io_count : py_len (fd_trace d) = count_facts es;
  io_names : Forall (named_fact c (count_facts es)) es
}.

(** When a fact may be recorded. *)
Definition allowed (c : FinalWindow) (d : FinalDocument) (record : FinalIntervalRecord) (at_ : moment) (f : Facts) : Prop :=
  match record with
  | TRANSITION => exists m m', mode_of (fd_mode d) = Some m /\ ft_state f = mode_value m' /\ mode_rank m < mode_rank m'
  | ENTITLEMENT_RESERVED =>
      dict_get (ft_lane f) (fd_chances d) = None /\ ft_state f = CHANCE_RESERVED /\ ft_lane f ∈ enabled_lanes c /\ fd_terminal d = None
  | ENTITLEMENT_SPENT =>
      (exists ch, dict_get (ft_lane f) (fd_chances d) = Some ch /\ ch_state ch = CHANCE_RESERVED)
      /\ ft_state f = CHANCE_SPENT /\ before at_ (cutoff c) = true
  | ENTITLEMENT_CLOSED =>
      (exists ch, dict_get (ft_lane f) (fd_chances d) = Some ch /\ ch_state ch = CHANCE_RESERVED) /\ ft_state f = CHANCE_CLOSED
  | DRAIN_REQUESTED => True
  | DRAIN_RESULT => dict_get (ft_candidate f) (fd_submissions d) = None
  | SUBMISSION_RECONCILED =>
      (exists s, dict_get (ft_candidate f) (fd_submissions d) = Some s /\ sb_outcome s = POSSIBLY_SENT_) /\ ft_outcome f <> POSSIBLY_SENT_
  | CLEANUP_REQUESTED => exists l, targets_of (ft_inventory f) = Ok l
  | CLEANUP_RESULT => dict_get (ft_challenge f) (fd_cleanup d) <> Some CLEANUP_RELEASED
  | TERMINAL_INVENTORY => fd_terminal d = None \/ fd_terminal d = Some []
  end.

Definition is_entitlement (record : FinalIntervalRecord) : bool :=
  match record with ENTITLEMENT_RESERVED | ENTITLEMENT_SPENT | ENTITLEMENT_CLOSED => true | _ => false end.

Lemma entitlement_records lane e eid record at_ f :
  records e eid record at_ f ->
  entitlement lane e = if bool_decide (ft_lane f = lane) && is_entitlement record then Some (ft_state f) else None.
Proof.
  intros [Hf (bd & bb & Hp)]. unfold entitlement. rewrite Hf, Hp. cbn. by destruct record.
Qed.

(** A fact that may be recorded moves the abstract interval by a step. *)
Lemma fact_steps c d record at_ f row d' i :
  abstract_interval d = Some i -> (forall lane ch, dict_get lane (fd_chances d) = Some ch -> lane ∈ enabled_lanes c) ->
  allowed c d record at_ f -> fact_applied row d record at_ f = Ok d' ->
  exists i', abstract_interval d' = Some i' /\ rtc (iv_step (enabled_lanes c)) i i'.
Proof.
  intros Hi Hl Ha Hd. unfold abstract_interval in *. apply bind_Some in Hi as (m & Hm & [= <-]). unfold fact_applied in Hd.
  destruct record; cbn in Ha, Hd; [..|apply bind_ok in Hd as (l & _ & Hd)| |]; injection Hd as <-; cbn.
  - destruct Ha as (m0 & m' & Hm0 & -> & Hr). rewrite mode_of_value. eexists. split; [done|]. apply rtc_once.
    eapply iv_advance. cbn. rewrite Hm in Hm0. by injection Hm0 as <-.
  - destruct Ha as (Hn & -> & Hin & Ht). rewrite Hm. eexists. split; [done|]. apply rtc_once. by eapply iv_reserve.
  - destruct Ha as ((ch & Hg & Hs) & -> & _). rewrite Hm. eexists. split; [done|]. apply rtc_once. by eapply iv_spend.
  - destruct Ha as ((ch & Hg & Hs) & ->). rewrite Hm. eexists. split; [done|]. apply rtc_once. by eapply iv_forfeit.
  - rewrite Hm. by eexists.
  - rewrite Hm. cbn. rewrite dict_set_outcomes. eexists. split; [done|]. apply rtc_once. eapply iv_result. cbn.
    by rewrite dict_get_outcomes, Ha.
  - destruct Ha as ((s & Hg & Hs) & Ho). rewrite Hm. cbn. rewrite dict_set_outcomes. eexists. split; [done|]. apply rtc_once.
    eapply iv_resolve; [|done]. cbn. rewrite dict_get_outcomes, Hg. cbn. by rewrite Hs.
  - rewrite Hm. by eexists.
  - rewrite Hm. eexists. split; [done|]. apply rtc_once. by eapply iv_clean.
  - eexists. split; [done|]. apply rtc_once. by eapply iv_end.
Qed.

(** What a fact does to the chances. *)
Lemma fact_chances row d record at_ f d' :
  fact_applied row d record at_ f = Ok d' ->
  fd_chances d' = if is_entitlement record
    then dict_set (ft_lane f) {| ch_challenge := ft_challenge f; ch_state := ft_state f |} (fd_chances d) else fd_chances d.
Proof.
  unfold fact_applied. intros Hd. destruct record; cbn in Hd; [..|apply bind_ok in Hd as (l & _ & Hd)| |]; by injection Hd as <-.
Qed.

(** A fact is one more row of the trace. *)
Lemma fact_trace row d record at_ f d' : fact_applied row d record at_ f = Ok d' -> py_len (fd_trace d') = py_len (fd_trace d) + 1.
Proof.
  unfold fact_applied. intros Hd. assert (Ht : fd_trace d' = fd_trace (with_trace row d)).
  { destruct record; cbn in Hd; [..|apply bind_ok in Hd as (l & _ & Hd)| |]; by injection Hd as <-. }
  rewrite Ht. unfold py_len. cbn. rewrite length_app. cbn. lia.
Qed.

(** The entitlement facts of every Lane stay as they should. *)
Lemma entitled_snoc `{Digester} c es d e eid record at_ f d' :
  interval_ok c es d -> records e eid record at_ f -> allowed c d record at_ f -> fact_applied (payload e) d record at_ f = Ok d' ->
  forall lane, entitlements lane (es ++ [e]) = expected_entitlements (dict_get lane (fd_chances d')).
Proof.
  intros Hok Hr Ha Hd lane. unfold entitlements. rewrite omap_app. cbn. rewrite (entitlement_records lane e eid record at_ f Hr).
  fold (entitlements lane es). rewrite (io_entitled _ _ _ Hok lane), (fact_chances _ _ _ _ _ _ Hd).
  destruct (is_entitlement record) eqn:Ee; [|by rewrite andb_false_r, app_nil_r]. rewrite dict_get_set, andb_true_r.
  rewrite (bool_decide_ext (ft_lane f = lane) (lane = ft_lane f)) by (split; congruence).
  case_bool_decide as El; [|by rewrite app_nil_r]. subst lane. destruct record; try done; cbn in Ha.
  - destruct Ha as (-> & -> & _). done.
  - destruct Ha as ((ch & -> & Hs) & -> & _). cbn. by rewrite Hs.
  - destruct Ha as ((ch & -> & Hs) & ->). cbn. by rewrite Hs.
Qed.

Lemma count_facts_app es1 es2 : count_facts (es1 ++ es2) = count_facts es1 + count_facts es2.
Proof. unfold count_facts, py_len. rewrite List.filter_app, length_app. lia. Qed.

Lemma count_facts_nonneg es : 0 <= count_facts es.
Proof. unfold count_facts, py_len. lia. Qed.

Lemma fact_keeps `{Digester} c es d e eid record at_ f d' :
  interval_ok c es d -> records e eid record at_ f -> allowed c d record at_ f -> fact_applied (payload e) d record at_ f = Ok d' ->
  eid = fact_name c (count_facts es + 1) record -> interval_ok c (es ++ [e]) d'.
Proof.
  intros Hok Hr Ha Hd Heid. pose proof Hok as [Hp [i Hi] Hl He Ht Hk Hcnt Hn]. split.
  - by rewrite (project_snoc es d e eid record at_ f Hp Hr).
  - destruct (fact_steps c d record at_ f _ d' i Hi ltac:(intros; by eapply Hl) Ha Hd) as (i' & ? & _). eauto.
  - intros lane ch. rewrite (fact_chances _ _ _ _ _ _ Hd). destruct (is_entitlement record) eqn:Ee; [|apply Hl]. rewrite dict_get_set.
    case_bool_decide as El; [|apply Hl]. intros [= <-]. subst lane. cbn. destruct record; try done; cbn in Ha.
    + destruct Ha as (_ & -> & ? & _). split; [done|set_solver].
    + destruct Ha as ((ch & Hc & _) & -> & _). split; [by eapply Hl|set_solver].
    + destruct Ha as ((ch & Hc & _) & ->). split; [by eapply Hl|set_solver].
  - by eapply entitled_snoc.
  - apply Forall_app. split; [done|]. apply Forall_singleton. intros _ Hrec. destruct Hr as [_ (bd & bb & Hpay)].
    rewrite Hpay in Hrec |- *. cbn in Hrec. exists at_. split; [done|]. destruct record; try done. apply Ha.
  - rewrite (fact_chances _ _ _ _ _ _ Hd). destruct (is_entitlement record); [by apply dict_set_NoDup|done].
  - rewrite (fact_trace _ _ _ _ _ _ Hd), count_facts_app, Hcnt. destruct Hr as [Hf _]. unfold count_facts at 3. cbn. by rewrite Hf.
  - rewrite count_facts_app. pose proof (count_facts_nonneg es). pose proof Hr as [Hf (bd & bb & Hpay)].
    assert (Hone : count_facts [e] = 1) by (unfold count_facts; cbn; by rewrite Hf). rewrite Hone. apply Forall_app. split.
    + eapply Forall_impl; [exact Hn|]. intros e' He' Hf'. destruct (He' Hf') as (k & r & Hk' & Hid). exists k, r. split; [lia|done].
    + apply Forall_singleton. intros _. exists (count_facts es + 1), record. split; [lia|]. rewrite Hpay. cbn. by rewrite Heid.
Qed.

(** ** Programs *)

Section fruns.
Context {DG : Digester} {L : Type} `{EventLogOk L} {A G : Type} `{FinalAuthority A G} (c : FinalWindow).

#[local] Abbreviation World := (FinalWorld (L := L) (A := A) (G := G)).

(** The log takes every fact. *)
Definition facts_taken : Prop := forall ev, fi_event_id ev <> "" -> log_accepts (final_event ev) "".

(** Names are digests, and no digest is empty. *)
Definition names_given : Prop := forall n r, fact_name c n r <> "".

Definition fruns {B} (es : list CommittedEvent) (d : FinalDocument) (m : Prog World B)
    (Q : B -> list CommittedEvent -> FinalDocument -> Prop) (E : list CommittedEvent -> Prop) : Prop :=
  forall w, log_sound (fw_log w) es -> fw_document w = d ->
    match m w with
    | (w', Done b) => exists es' d', log_sound (fw_log w') es' /\ fw_document w' = d' /\ Q b es' d'
    | (w', _) => (exists es', log_sound (fw_log w') es' /\ E es') \/ log_damaged (fw_log w')
    end.

Lemma fr_ret {B} es d (b : B) (Q : B -> list CommittedEvent -> FinalDocument -> Prop) E : Q b es d -> fruns es d (mret b) Q E.
Proof. intros HQ w Hw Hd. by exists es, d. Qed.

Lemma fr_bind {B C} es d (m : Prog World B) (k : B -> Prog World C) R Q E :
  fruns es d m R E -> (forall b es' d', R b es' d' -> fruns es' d' (k b) Q E) -> fruns es d (m ≫= k) Q E.
Proof.
  intros Hm Hk w Hw Hd. specialize (Hm w Hw Hd). unfold mbind, Prog_bind. destruct (m w) as [w' [b|e|]]; [|done..].
  destruct Hm as (es' & d' & Hw' & Hd' & HR). by apply (Hk b es' d' HR).
Qed.

Lemma fr_conseq {B} es d (m : Prog World B) (Q Q' : B -> list CommittedEvent -> FinalDocument -> Prop) (E E' : list CommittedEvent -> Prop) :
  fruns es d m Q E -> (forall b es' d', Q b es' d' -> Q' b es' d') -> (forall es', E es' -> E' es') -> fruns es d m Q' E'.
Proof. intros Hm HQ HE w Hw Hd. specialize (Hm w Hw Hd). destruct (m w) as [w' [b|e|]]; naive_solver. Qed.

Lemma fr_fail {B} es d e (Q : B -> list CommittedEvent -> FinalDocument -> Prop) (E : list CommittedEvent -> Prop) :
  E es -> fruns es d (fail e) Q E.
Proof. intros HE w Hw Hd. left. by exists es. Qed.

(** Steps that neither read nor write the log and the document. *)
Definition aside {B} (m : Prog World B) : Prop := forall w, fw_log (m w).1 = fw_log w /\ fw_document (m w).1 = fw_document w.

Lemma fr_aside {B} es d (m : Prog World B) (Q : B -> list CommittedEvent -> FinalDocument -> Prop) (E : list CommittedEvent -> Prop) :
  aside m -> (forall b w w', fw_document w = d -> m w = (w', Done b) -> Q b es d) -> E es -> fruns es d m Q E.
Proof.
  intros Ha HQ HE w Hw Hd. destruct (Ha w) as [Hl Hdoc]. destruct (m w) as [w' r] eqn:Er. cbn in Hl, Hdoc. rewrite <-Hl in Hw.
  destruct r as [b|e|]; [|left; by exists es..]. exists es, d. split; [done|]. split; [congruence|]. by eapply HQ.
Qed.

Lemma aside_try {B} (r : result B) : aside (try r).
Proof. intros w. by destruct r. Qed.
Lemma aside_auth {B} (m : Prog A B) : aside (on_auth m).
Proof. intros w. unfold on_auth. by destruct (m (fw_auth w)). Qed.
Lemma aside_ret {B} (b : B) : aside (mret b).
Proof. done. Qed.
Lemma aside_bind {B C} (m : Prog World B) (k : B -> Prog World C) : aside m -> (forall b, aside (k b)) -> aside (m ≫= k).
Proof.
  intros Hm Hk w. unfold mbind, Prog_bind. destruct (Hm w) as [Hl Hd]. destruct (m w) as [w' [b|e|]]; cbn in *; [|done..].
  destruct (Hk b w') as [Hl' Hd']. by rewrite Hl', Hd'.
Qed.
Lemma aside_chances f : aside (set_chances f).
Proof. done. Qed.
Lemma aside_ask {B} (g : World -> B) : aside (ask g).
Proof. done. Qed.
Lemma aside_clock : aside (observed_now c).
Proof. intros w. unfold observed_now. destruct (fw_clock w); [done|]. by destruct (_ || _). Qed.
End fruns.
