(* ===== verification/FinalFacts.v ===== *)
(** Every operation of the final interval moves it by steps of the abstract machine. *)

From S2P Require Import Prelude Canon Text Moment MomentFormat PyJson EventStore EventContracts EventLog FinalContracts FinalInterval FinalLogic.
Local Open Scope Z_scope.

Lemma fact_terminal row d record at_ f d' :
  fact_applied row d record at_ f = Ok d' -> record <> TERMINAL_INVENTORY -> fd_terminal d' = fd_terminal d.
Proof.
  unfold fact_applied. intros Hd Hr. destruct record; cbn in Hd; [..|apply bind_ok in Hd as (l & _ & Hd)| |]; by injection Hd as <-.
Qed.

Lemma allowed_applies c d record at_ f row : allowed c d record at_ f -> exists d', fact_applied row d record at_ f = Ok d'.
Proof.
  intros Ha. unfold fact_applied. destruct record; cbn in *; try by eexists. destruct Ha as (l & ->). by eexists.
Qed.

Lemma others_count others : Forall (fun e => is_final_event e = false) others -> count_facts others = 0.
Proof. induction 1 as [|e others He _ IH]; [done|]. unfold count_facts in *. cbn. by rewrite He. Qed.

Lemma interval_ok_others `{Digester} c es d others :
  interval_ok c es d -> Forall (fun e => is_final_event e = false) others -> interval_ok c (es ++ others) d.
Proof.
  intros [Hp Hi Hl He Ht Hk Hc Hn] Ho. split; [by rewrite project_others|done|done| | |done| |].
  - intros lane. unfold entitlements. rewrite omap_app. rewrite <-He.
    assert (Hnone : omap (entitlement lane) others = []); [|by rewrite Hnone, app_nil_r].
    induction Ho as [|e others Hf _ IH]; [done|]. cbn. unfold entitlement at 1. by rewrite Hf.
  - apply Forall_app. split; [done|]. eapply Forall_impl; [exact Ho|]. intros e Hf Hf'. congruence.
  - rewrite count_facts_app, (others_count others Ho). lia.
  - apply Forall_app. split.
    + eapply Forall_impl; [exact Hn|]. intros e He' Hf. destruct (He' Hf) as (k & r & Hk' & Hid). exists k, r. split; [|done].
      rewrite count_facts_app. pose proof (count_facts_nonneg others). lia.
    + eapply Forall_impl; [exact Ho|]. intros e Hf Hf'. congruence.
Qed.

Lemma colliding_mono `{Digester} c d d' : py_len (fd_trace d) <= py_len (fd_trace d') -> colliding c d -> colliding c d'.
Proof. intros Hle (k & r & k' & r' & ? & ? & ? & ?). exists k, r, k', r'. split_and!; [lia..|done]. Qed.

(** Under the next name the log holds no fact, unless names collide. *)
Lemma next_unseen `{Digester} c es d record :
  interval_ok c es d -> unseen es FINAL_INTERVAL_RECORDED (fact_name c (count_facts es + 1) record) \/ colliding c d.
Proof.
  intros Hok. set (n := count_facts es + 1).
  destruct (decide (Exists (fun e => event_type e = FINAL_INTERVAL_RECORDED /\ get_or "event_id" JNull (payload e) = JStr (fact_name c n record)) es))
    as [Hex|Hno].
  - right. apply Exists_exists in Hex as (e & He & Ht & Hid).
    destruct (proj1 (Forall_forall _ _) (io_names _ _ _ Hok) e He) as (k & r & Hk & Hid'); [unfold is_final_event; by rewrite Ht, bool_decide_true|].
    exists k, r, n, record. rewrite (io_count _ _ _ Hok). fold n. split_and!; [lia..|congruence].
  - left. intros e He Ht Hid. apply Hno. apply Exists_exists. eauto.
Qed.

Section facts.
Context {DG : Digester} {L : Type} `{EventLogOk L} {A G : Type} `{FinalAuthority A G} (c : FinalWindow).

#[local] Abbreviation World := (FinalWorld (L := L) (A := A) (G := G)).

Hypothesis taken : facts_taken.
Hypothesis named : names_given c.

(** The interval got from the document [d] to the log [es'] and the document [d']. *)
Definition reach (d : FinalDocument) (es' : list CommittedEvent) (d' : FinalDocument) : Prop :=
  interval_ok c es' d' /\ py_len (fd_trace d) <= py_len (fd_trace d')
  /\ exists i i', abstract_interval d = Some i /\ abstract_interval d' = Some i' /\ rtc (iv_step (enabled_lanes c)) i i'.

Definition reached (d : FinalDocument) (es' : list CommittedEvent) : Prop := exists d', reach d es' d'.

Lemma reach_refl es d : interval_ok c es d -> reach d es d.
Proof. intros Hok. split; [done|]. split; [done|]. destruct (io_mode _ _ _ Hok) as [i Hi]. by exists i, i. Qed.

Lemma reach_trans d es1 d1 es2 d2 : reach d es1 d1 -> reach d1 es2 d2 -> reach d es2 d2.
Proof.
  intros (_ & Hle1 & i & i1 & Hi & Hi1 & Hs1) (Hok & Hle2 & i1' & i2 & Hi1' & Hi2 & Hs2). split; [done|]. split; [lia|]. exists i, i2. split; [done|]. split; [done|].
  rewrite Hi1 in Hi1'. injection Hi1' as <-. by etrans.
Qed.

Lemma reached_trans d es1 d1 es2 : reach d es1 d1 -> reached d1 es2 -> reached d es2.
Proof. intros Hr1 (d2 & Hr2). exists d2. by eapply reach_trans. Qed.

(** Appending the next fact. *)
Lemma append_fact w es d record at_ f :
  let ev := fact_event c (count_facts es + 1) record at_ f in
  log_sound w es -> interval_ok c es d ->
  match log_append (final_event ev) "" w with
  | (w', Done _) => (log_sound w' es /\ colliding c d) \/ exists e, entry_of es (final_event ev) "" e /\ log_sound w' (es ++ [e])
  | (w', _) => log_sound w' es \/ (exists e, entry_of es (final_event ev) "" e /\ log_sound w' (es ++ [e])) \/ log_damaged w'
  end.
Proof using taken named.
  intros ev Hw Hok. assert (Hacc : log_accepts (final_event ev) "") by apply (taken ev (named _ _)).
  destruct (next_unseen c es d record Hok) as [Hun|Hcol].
  - pose proof (log_append_sound w es (final_event ev) "" _ Hw Hacc eq_refl eq_refl Hun) as Hap.
    destruct (log_append _ _ w) as [w' [e|x|]]; [|done..]. right. by exists e.
  - pose proof (log_append_any w es (final_event ev) "" Hw Hacc) as Hap.
    destruct (log_append _ _ w) as [w' [e|x|]]; [|done..]. destruct Hap; auto.
Qed.

(** The document after a fact was recorded; under a name that collides the log may hold another
    event already. *)
Definition recorded (d : FinalDocument) (record : FinalIntervalRecord) (at_ : moment) (f : Facts) (d' : FinalDocument) : Prop :=
  (exists row, fact_applied row d record at_ f = Ok d') \/ d' = d /\ colliding c d.

Lemma recorded_grows d record at_ f d' : recorded d record at_ f d' -> colliding c d -> colliding c d'.
Proof. intros [(row & Hd)|[-> _]]; [|done]. apply colliding_mono. rewrite (fact_trace _ _ _ _ _ _ Hd). lia. Qed.

(** Recording a fact that may be recorded. *)
Lemma fr_record es d record at_ f :
  interval_ok c es d -> allowed c d record at_ f ->
  fruns (A := A) (G := G) es d (record_fact c record at_ f)
    (fun _ es' d' => reach d es' d' /\ recorded d record at_ f d') (reached d).
Proof using taken named.
  intros Hok Ha. pose proof (reach_refl es d Hok) as Hself.
  set (ev := fact_event c (count_facts es + 1) record at_ f).
  assert (Hnext : forall e, entry_of es (final_event ev) "" e -> exists d', reach d (es ++ [e]) d'
    /\ project_final_interval (es ++ [e]) = Ok d' /\ fact_applied (payload e) d record at_ f = Ok d').
  { intros e [Ht (bd & bb & Hp) _]. assert (Hr : records e (fi_event_id ev) record at_ f).
    { split; [unfold is_final_event; by rewrite Ht, bool_decide_true|]. exists bd, bb. exact Hp. }
    destruct (allowed_applies c d record at_ f (payload e) Ha) as (d' & Hd'). exists d'.
    pose proof (fact_keeps c es d e (fi_event_id ev) record at_ f d' Hok Hr Ha Hd' eq_refl) as Hok'. split; [|split; [apply Hok'|done]]. split; [done|].
    split; [rewrite (fact_trace _ _ _ _ _ _ Hd'); lia|].
    destruct (io_mode _ _ _ Hok) as [i Hi].
    destruct (fact_steps c d record at_ f (payload e) d' i Hi ltac:(intros; by eapply (io_lanes _ _ _ Hok)) Ha Hd') as (i' & ? & ?). eauto. }
  intros w Hw Hd. unfold record_fact. unfold mbind at 1, Prog_bind at 1, on_log at 1. unfold mbind at 1, Prog_bind at 1, ask at 1, try at 1.
  rewrite (log_sound_read _ _ Hw). fold ev. unfold mbind at 1, Prog_bind at 1, on_log at 1. cbn [fw_log].
  pose proof (append_fact (fw_log w) es d record at_ f Hw Hok) as Hap. fold ev in Hap.
  destruct (log_append (final_event ev) "" (fw_log w)) as [l' [e|x|]].
  - unfold mbind at 1, Prog_bind at 1, on_log at 1. unfold mbind at 1, Prog_bind at 1, ask at 1, try at 1. cbn [fw_log].
    destruct Hap as [[Hl Hcol]|(e' & He & Hl)]; rewrite (log_sound_read _ _ Hl).
    + unfold mbind, Prog_bind, try. rewrite (io_project _ _ _ Hok). cbn. exists es, d. split; [done|]. split; [done|]. split; [done|by right].
    + destruct (Hnext e' He) as (d' & Hr & Hp & Hf). unfold mbind, Prog_bind, try. rewrite Hp. cbn. exists (es ++ [e']), d'.
      split; [done|]. split; [done|]. split; [done|]. left. by exists (payload e').
  - destruct Hap as [Hl|[(e' & He & Hl)|Hl]]; [left; exists es; split; [done|]; by exists d|left|by right].
    destruct (Hnext e' He) as (d' & Hr & _). exists (es ++ [e']). split; [done|]. by exists d'.
  - destruct Hap as [Hl|[(e' & He & Hl)|Hl]]; [left; exists es; split; [done|]; by exists d|left|by right].
    destruct (Hnext e' He) as (d' & Hr & _). exists (es ++ [e']). split; [done|]. by exists d'.
Qed.

(** A callback that leaves the interval's facts alone. *)
Definition foreign {B} (m : Prog L B) : Prop :=
  forall l es, log_sound l es ->
    let kept l' := exists others, Forall (fun e => is_final_event e = false) others /\ log_sound l' (es ++ others) in
    match m l with (l', Done _) => kept l' | (l', _) => kept l' \/ log_damaged l' end.

Lemma fr_foreign {B} es d (m : Prog L B) :
  foreign m -> interval_ok c es d -> fruns (A := A) (G := G) es d (on_log m) (fun _ es' d' => d' = d /\ reach d es' d) (reached d).
Proof.
  intros Hm Hok w Hw Hd. specialize (Hm _ _ Hw). unfold on_log. cbn in Hm.
  assert (Hin : forall others, Forall (fun e => is_final_event e = false) others -> reach d (es ++ others) d).
  { intros others Ho. apply reach_refl. by apply interval_ok_others. }
  destruct (m (fw_log w)) as [l' [b|x|]].
  - destruct Hm as (others & Ho & Hl). exists (es ++ others), d. split; [done|]. split; [done|]. auto.
  - destruct Hm as [(others & Ho & Hl)|Hd']; [left|by right]. exists (es ++ others). split; [done|]. exists d. auto.
  - destruct Hm as [(others & Ho & Hl)|Hd']; [left|by right]. exists (es ++ others). split; [done|]. exists d. auto.
Qed.

(** ** Programs that move the interval *)

Definition moves {B} (es : list CommittedEvent) (d : FinalDocument) (m : Prog World B) (R : B -> FinalDocument -> Prop) : Prop :=
  fruns es d m (fun b es' d' => reach d es' d' /\ R b d') (reached d).

Lemma mv_ret {B} es d (b : B) (R : B -> FinalDocument -> Prop) : interval_ok c es d -> R b d -> moves es d (mret b) R.
Proof. intros Hok HR. apply fr_ret. split; [by apply reach_refl|done]. Qed.

Lemma mv_fail {B} es d e (R : B -> FinalDocument -> Prop) : interval_ok c es d -> moves es d (fail e) R.
Proof. intros Hok. apply fr_fail. exists d. by apply reach_refl. Qed.

Lemma mv_bind {B C} es d (m : Prog World B) (k : B -> Prog World C) S R :
  moves es d m S -> (forall b es' d', interval_ok c es' d' -> S b d' -> moves es' d' (k b) R) -> moves es d (m ≫= k) R.
Proof.
  intros Hm Hk. eapply fr_bind; [exact Hm|]. intros b es' d' [Hr HS]. eapply fr_conseq; [apply (Hk b es' d'); [apply Hr|done]|..].
  - intros b2 es2 d2 [Hr2 HR]. split; [by eapply reach_trans|done].
  - intros es2 Hr2. by eapply reached_trans.
Qed.

Lemma mv_conseq {B} es d (m : Prog World B) (S R : B -> FinalDocument -> Prop) :
  moves es d m S -> (forall b d', S b d' -> R b d') -> moves es d m R.
Proof. intros Hm HS. eapply fr_conseq; [exact Hm|naive_solver|done]. Qed.

(** The trace only grows, so names that collide stay among the names that do. *)
Lemma mv_grows {B} es d (m : Prog World B) (R : B -> FinalDocument -> Prop) :
  moves es d m R -> moves es d m (fun b d' => R b d' /\ (colliding c d -> colliding c d')).
Proof.
  intros Hm. eapply fr_conseq; [exact Hm| |done]. intros b es' d' [Hr HR]. split; [done|]. split; [done|]. apply colliding_mono, Hr.
Qed.

Lemma mv_quiet {B C} es d (m : Prog World B) (k : B -> Prog World C) (P : B -> Prop) R :
  aside m -> interval_ok c es d -> (forall b w w', fw_document w = d -> m w = (w', Done b) -> P b) ->
  (forall b, P b -> moves es d (k b) R) -> moves es d (m ≫= k) R.
Proof.
  intros Ha Hok HP Hk. eapply (fr_bind _ _ _ _ (fun b es' d' => es' = es /\ d' = d /\ P b)).
  - apply fr_aside; [done| |exists d; by apply reach_refl]. intros b w w' Hw Hm. split; [done|]. split; [done|]. by eapply HP.
  - intros b ? ? (-> & -> & Hb). by apply Hk.
Qed.

Lemma mv_aside {B C} es d (m : Prog World B) (k : B -> Prog World C) R :
  aside m -> interval_ok c es d -> (forall b, moves es d (k b) R) -> moves es d (m ≫= k) R.
Proof. intros Ha Hok Hk. by apply (mv_quiet _ _ _ _ (fun _ => True)). Qed.

Lemma mv_document {C} es d (k : FinalDocument -> Prog World C) R :
  interval_ok c es d -> moves es d (k d) R -> moves es d (document ≫= k) R.
Proof.
  intros Hok Hk. apply (mv_quiet _ _ _ _ (fun b => b = d)); [apply aside_ask|done| |by intros ? ->].
  intros b w w' Hw Hm. unfold document, ask in Hm. congruence.
Qed.

Lemma mv_try {B C} es d (r : result B) (k : B -> Prog World C) R :
  interval_ok c es d -> (forall b, r = Ok b -> moves es d (k b) R) -> moves es d (try r ≫= k) R.
Proof.
  intros Hok Hk. apply (mv_quiet _ _ _ _ (fun b => r = Ok b)); [apply aside_try|done| |done].
  intros b w w' _ Hm. unfold try in Hm. destruct r; congruence.
Qed.

Lemma mv_record {C} es d record at_ f (k : unit -> Prog World C) R :
  interval_ok c es d -> allowed c d record at_ f ->
  (forall es' d', interval_ok c es' d' -> recorded d record at_ f d' -> moves es' d' (k tt) R) ->
  moves es d (record_fact c record at_ f ≫= k) R.
Proof using taken named.
  intros Hok Ha Hk. eapply mv_bind; [apply fr_record; done|]. intros [] es' d' Hok' Hd. by apply Hk.
Qed.

Lemma mv_foreign {B C} es d (m : Prog L B) (k : B -> Prog World C) R :
  foreign m -> interval_ok c es d -> (forall b es', interval_ok c es' d -> moves es' d (k b) R) -> moves es d (on_log m ≫= k) R.
Proof.
  intros Hm Hok Hk. eapply (mv_bind _ _ _ _ (fun _ d' => d' = d)).
  - eapply fr_conseq; [by apply fr_foreign| |done]. intros b es' d' [-> Hr]. done.
  - intros b es' d' Hok' ->. by apply Hk.
Qed.

(** ** Admission *)

(** Only the mode and the trace differ. *)
Definition same_but_mode (d d' : FinalDocument) : Prop :=
  fd_chances d' = fd_chances d /\ fd_submissions d' = fd_submissions d /\ fd_drain_requests d' = fd_drain_requests d
  /\ fd_terminal d' = fd_terminal d /\ fd_cleanup d' = fd_cleanup d.

Lemma transition_same row d at_ f d' : fact_applied row d TRANSITION at_ f = Ok d' -> same_but_mode d d'.
Proof. unfold fact_applied. cbn. by intros [= <-]. Qed.

Lemma mode_of_some text m : AdmissionMode_new text = Ok m -> mode_of text = Some m.
Proof. unfold AdmissionMode_new. destruct (mode_of text); congruence. Qed.

Lemma mv_admission_mode es d lane :
  interval_ok c es d ->
  moves es d (admission_mode c lane)
    (fun m d' => same_but_mode d d' /\ lane ∈ enabled_lanes c /\ (m <> MODE_CLOSED -> fd_terminal d = None)).
Proof using taken named.
  intros Hok. unfold admission_mode, require_lane. apply mv_try; [done|]. intros [] Hl%raise_unless_ok. bool_to_prop.
  apply mv_aside; [apply aside_clock|done|]. intros now. apply mv_document; [done|]. apply mv_try; [done|]. intros durable Hm%mode_of_some.
  set (observed := match fd_terminal d with Some _ => MODE_CLOSED | None => mode_at c now end).
  assert (Hobs : fd_terminal d <> None -> observed = MODE_CLOSED) by (unfold observed; by destruct (fd_terminal d)).
  destruct (mode_rank durable <? mode_rank observed) eqn:E; bool_to_prop.
  - apply mv_record; [done|cbn; eauto|]. intros es' d' Hok' Hd. apply mv_ret; [done|].
    split; [|split; [done|]]; [destruct Hd as [(row & Hd)|[-> _]]; [by eapply transition_same|done]|].
    intros Hne. destruct (fd_terminal d); [|done]. by destruct Hne; apply Hobs.
  - apply mv_ret; [done|]. split; [done|]. split; [done|]. intros Hne. destruct (fd_terminal d) as [t|] eqn:Et; [|done].
    rewrite Hobs in E by done. destruct Hne. by destruct durable.
Qed.
End facts.
