(* ===== verification/FinalSteps.v ===== *)
(** The operations of the final interval, one by one. *)

From S2P Require Import Prelude Canon Text Moment MomentFormat PyJson EventStore EventContracts EventLog FinalContracts FinalInterval FinalLogic FinalFacts.
Local Open Scope Z_scope.

Section steps.
Context {DG : Digester} {L : Type} `{EventLogOk L} {A G : Type} `{FinalAuthority A G} (c : FinalWindow).

#[local] Abbreviation World := (FinalWorld (L := L) (A := A) (G := G)).

Hypothesis taken : facts_taken.
Hypothesis named : names_given c.

Definition anywhere {B} : B -> FinalDocument -> Prop := fun _ _ => True.

Lemma reserved_now_spec ch : reserved_now ch = true -> ch_state ch = CHANCE_RESERVED.
Proof. unfold reserved_now. by intros ?%bool_decide_eq_true. Qed.

Lemma mv_reserve_final_chance es d lane challenge :
  interval_ok c es d -> moves c es d (reserve_final_chance c lane challenge) anywhere.
Proof using taken named.
  intros Hok. unfold reserve_final_chance. apply mv_document; [done|]. eapply mv_bind; [by apply (mv_admission_mode c taken named)|].
  intros m es1 d1 Hok1 ((Hc & _ & _ & Ht & _) & Hl & Hterm). destruct (negb _ || _) eqn:E; [by apply mv_ret|].
  apply orb_false_iff in E as [Em Ee]. bool_to_prop. subst m. apply mv_try; [done|]. intros [] _.
  apply mv_aside; [apply aside_clock|done|]. intros now. destruct (dict_get lane (fd_chances d)) as [ch|] eqn:Eg; [by apply mv_ret|].
  apply mv_aside; [apply aside_auth|done|]. intros g. apply (mv_record c taken named); [done|cbn|].
  { rewrite Hc, Eg. split; [done|]. split; [done|]. split; [done|]. rewrite Ht. by apply Hterm. }
  intros es2 d2 Hok2 _. apply mv_aside; [apply aside_chances|done|]. intros []. by apply mv_ret.
Qed.

Lemma mv_spend_final_chance es d grant :
  interval_ok c es d -> moves c es d (spend_final_chance c grant) anywhere.
Proof using taken named.
  intros Hok. unfold spend_final_chance. apply mv_document; [done|]. destruct (dict_get _ (fd_chances d)) as [ch|] eqn:Eg; [|by apply mv_fail].
  case_bool_decide as Es; [apply mv_try; [done|]; intros [] _; by apply mv_ret|].
  apply mv_try; [done|]. intros [] Hr%raise_unless_ok%reserved_now_spec.
  apply mv_aside; [by destruct (fg_transaction grant); [|apply aside_auth]|done|]. intros g.
  apply mv_aside; [apply aside_clock|done|]. intros now. destruct (at_or_before (cutoff c) now) eqn:Et.
  - apply (mv_record c taken named); [done|cbn; eauto|]. intros es2 d2 Hok2 _. apply mv_aside; [apply aside_auth|done|]. intros [].
    apply mv_aside; [apply aside_chances|done|]. intros []. by apply mv_fail.
  - apply (mv_record c taken named); [done|cbn|].
    { split; [eauto|]. split; [done|]. unfold at_or_before, before in *. bool_to_prop. lia. }
    intros es2 d2 Hok2 _. apply mv_aside; [apply aside_auth|done|]. intros [].
    apply mv_aside; [apply aside_chances|done|]. intros []. by apply mv_ret.
Qed.

Lemma mv_admit_final_chance es d lane challenge :
  interval_ok c es d -> moves c es d (admit_final_chance c lane challenge) anywhere.
Proof using taken named.
  intros Hok. unfold admit_final_chance. eapply mv_bind; [by apply mv_reserve_final_chance|]. intros [g|] es1 d1 Hok1 _; [|by apply mv_ret].
  eapply mv_bind; [by apply mv_spend_final_chance|]. intros g' es2 d2 Hok2 _. by apply mv_ret.
Qed.

Lemma mv_chance_available es d lane : interval_ok c es d -> moves (A := A) (G := G) c es d (chance_available c lane) anywhere.
Proof using taken named.
  intros Hok. unfold chance_available, require_lane. apply mv_try; [done|]. intros [] _. apply mv_document; [done|].
  eapply mv_bind; [by apply (mv_admission_mode c taken named)|]. intros m es1 d1 Hok1 _. by apply mv_ret.
Qed.

Lemma mv_scoreable es d : interval_ok c es d -> moves (A := A) (G := G) c es d (scoreable_seconds c) anywhere.
Proof using taken named. intros Hok. unfold scoreable_seconds. apply mv_aside; [apply aside_clock|done|]. intros now. by apply mv_ret. Qed.

Lemma mv_aside_only {B} es d (m : Prog World B) : aside m -> interval_ok c es d -> moves c es d m (fun _ d' => d' = d).
Proof. intros Ha Hok. apply fr_aside; [done| |exists d; by apply reach_refl]. intros b w w' _ _. split; [by apply reach_refl|done]. Qed.

(** ** The drain *)

(** What the document says of the submissions of other Candidates is left alone. *)
Definition others_same (candidate : string) (d d' : FinalDocument) : Prop :=
  forall x, x <> candidate -> dict_get x (fd_submissions d') = dict_get x (fd_submissions d).

Lemma requested_same row d at_ f d' : fact_applied row d DRAIN_REQUESTED at_ f = Ok d' -> fd_submissions d' = fd_submissions d.
Proof. unfold fact_applied. cbn. by intros [= <-]. Qed.

Lemma result_others row d at_ f d' :
  fact_applied row d DRAIN_RESULT at_ f = Ok d' -> others_same (ft_candidate f) d d'.
Proof. unfold fact_applied. cbn. intros [= <-] x Hx. cbn. by apply dict_get_set_ne. Qed.

Lemma mv_drain_one es d submit now candidate :
  foreign (submit candidate) -> interval_ok c es d -> dict_get candidate (fd_submissions d) = None ->
  moves c es d (drain_one c submit now candidate) (fun _ d' => others_same candidate d d').
Proof using taken named.
  intros Hsub Hok Hnone. unfold drain_one. apply mv_aside; [apply aside_auth|done|]. intros g.
  eapply (mv_bind _ _ _ _ _ (fun _ d' => fd_submissions d' = fd_submissions d)).
  { destruct (enabled_lanes c) as [|lane lanes] eqn:El; [by apply mv_fail|]. eapply mv_bind; [by apply (mv_admission_mode c taken named)|].
    intros m es1 d1 Hok1 ((_ & Hs & _) & _). by apply mv_ret. }
  intros [] es1 d1 Hok1 Hs1. apply mv_document; [done|].
  eapply (mv_bind _ _ _ _ _ (fun _ d' => fd_submissions d' = fd_submissions d)).
  { destruct (dict_has candidate (fd_drain_requests d1)); [by apply mv_ret|]. eapply mv_conseq; [by apply fr_record|].
    intros [] d2 [(row & Hd)|[-> _]]; [|done]. apply requested_same in Hd. congruence. }
  intros [] es2 d2 Hok2 Hs2. apply mv_foreign; [done|done|]. intros answer es3 Hok3.
  assert (Hrest : forall r, moves (A := A) (G := G) c es3 d2 (outcome ← try r; result_at ← observed_now c;
      record_fact c DRAIN_RESULT result_at (candidate_fact candidate (key_or (submission_name candidate) g) outcome);;
      on_auth (settle_local g (outcome_json outcome));; mret (Some outcome)) (fun _ d' => others_same candidate d d')).
  { intros r. apply mv_try; [done|]. intros outcome _. apply mv_aside; [apply aside_clock|done|]. intros result_at.
    apply (mv_record c taken named); [done|cbn; congruence|]. intros es4 d4 Hok4 Hd. apply mv_aside; [apply aside_auth|done|]. intros [].
    apply mv_ret; [done|]. intros x Hx. rewrite <-Hs2. destruct Hd as [(row & Hd)|[-> _]]; [|done]. by apply (result_others _ _ _ _ _ Hd). }
  destruct answer; [apply Hrest| |apply Hrest]. apply mv_aside; [apply aside_auth|done|]. intros [].
  apply mv_ret; [done|]. intros x _. by rewrite Hs2.
Qed.

Lemma mv_drain_loop submit submissions candidates : forall es d,
  (forall x, foreign (submit x)) -> NoDup candidates -> interval_ok c es d ->
  (forall x, x ∈ candidates -> dict_get x submissions = None -> dict_get x (fd_submissions d) = None) ->
  moves c es d (drain_loop c submit submissions candidates) anywhere.
Proof using taken named.
  induction candidates as [|x rest IH]; intros es d Hsub Hnd Hok Hfree; cbn [drain_loop]; [by apply mv_ret|].
  apply NoDup_cons in Hnd as [Hx Hnd]. apply mv_aside; [apply aside_clock|done|]. intros now.
  destruct (at_or_before (ends_at c) now); [by apply mv_ret|].
  eapply (mv_bind _ _ _ _ _ (fun _ d' => others_same x d d')).
  - destruct (dict_get x submissions) as [prior|] eqn:Ep.
    + apply mv_aside; [|done|intros []; by apply mv_ret].
      destruct authority_present; [|apply aside_ret]. apply aside_bind; [apply aside_auth|]. intros g. apply aside_auth.
    + apply mv_drain_one; [done|done|]. apply Hfree; [by left|done].
  - intros said es1 d1 Hok1 Hsame. eapply mv_bind.
    + apply (IH es1 d1 Hsub Hnd Hok1). intros y Hy Hn. rewrite Hsame by (intros ->; done). apply Hfree; [by right|done].
    + intros more es2 d2 Hok2 _. by apply mv_ret.
Qed.

Lemma mv_drain es d candidates submit :
  (forall x, foreign (submit x)) -> NoDup candidates -> interval_ok c es d ->
  moves c es d (drain (A := A) (G := G) c candidates submit) anywhere.
Proof using taken named.
  intros Hsub Hnd Hok. unfold drain. apply mv_aside; [apply aside_clock|done|]. intros now. apply mv_try; [done|]. intros [] _.
  apply mv_document; [done|]. by apply mv_drain_loop.
Qed.

Lemma mv_reconcile_submission es d candidate outcome :
  interval_ok c es d -> moves c es d (reconcile_submission (A := A) (G := G) c candidate outcome) anywhere.
Proof using taken named.
  intros Hok. unfold reconcile_submission. apply mv_document; [done|]. apply mv_try; [done|]. intros resolved _.
  apply mv_try; [done|]. intros [] Hs%raise_unless_ok. case_bool_decide as Er; [by apply mv_ret|].
  apply mv_aside; [apply aside_clock|done|]. intros now. eapply mv_conseq; [apply (fr_record c taken named); [done|]|done]. cbn.
  destruct (dict_get candidate (fd_submissions d)) as [sub|]; [|done]. bool_to_prop. eauto.
Qed.

(** ** Closing *)

(** A fact about the cleanup leaves the chances and the end of the Run alone. *)
Lemma cleanup_keeps row d record at_ f d' :
  fact_applied row d record at_ f = Ok d' -> record = CLEANUP_REQUESTED \/ record = CLEANUP_RESULT ->
  fd_chances d' = fd_chances d /\ fd_terminal d' = fd_terminal d.
Proof.
  intros Hd Hr. rewrite (fact_chances _ _ _ _ _ _ Hd), (fact_terminal _ _ _ _ _ _ Hd) by (destruct Hr; congruence).
  by destruct Hr as [-> | ->].
Qed.

(** What the loop returns is what the facts say. *)
Lemma mv_record_cleanup now reservation outcomes : forall es d durable,
  interval_ok c es d -> NoDup outcomes.*1 ->
  (forall t, t ∈ outcomes.*1 -> dict_get t durable = dict_get t (fd_cleanup d)) ->
  durable = fd_cleanup d \/ colliding c d ->
  moves c es d (record_cleanup (A := A) (G := G) c now reservation durable outcomes)
    (fun durable' d' => fd_chances d' = fd_chances d /\ fd_terminal d' = fd_terminal d
      /\ (durable' = fd_cleanup d' \/ colliding c d')).
Proof using taken named.
  induction outcomes as [|[t v] rest IH]; intros es d durable Hok Hnd Hagree Hdur; cbn [record_cleanup]; [by apply mv_ret|].
  cbn in Hnd. apply NoDup_cons in Hnd as [Ht Hnd].
  case_bool_decide as Ev; [apply IH; [done|done| |done]; intros t' Ht'; apply Hagree; by right|].
  apply mv_try; [done|]. intros [] Hrel%raise_if_ok. bool_to_prop. apply (mv_record c taken named); [done| |].
  { cbn. by rewrite <-Hagree by (by left). }
  intros es1 d1 Hok1 Hd. pose proof (recorded_grows _ _ _ _ _ _ Hd) as Hgrow. set (o := if bool_decide (v = CLEANUP_RELEASED) then _ else _) in *.
  assert (Hthen : fd_chances d1 = fd_chances d /\ fd_terminal d1 = fd_terminal d
      /\ (forall t', t' <> t -> dict_get t' (fd_cleanup d1) = dict_get t' (fd_cleanup d))
      /\ (fd_cleanup d1 = dict_set t o (fd_cleanup d) \/ colliding c d1)).
  { destruct Hd as [(row & Hd)|[-> Hcol]]; [|auto]. destruct (cleanup_keeps _ _ _ _ _ _ Hd) as [H1' H2']; [by right|].
    unfold fact_applied in Hd. cbn in Hd. injection Hd as <-. cbn in *. split; [done|]. split; [done|]. split; [|by left].
    intros t' Hne. by apply dict_get_set_ne. }
  destruct Hthen as (Hch & Hte & Hoth & Hcl). eapply mv_conseq; [apply (IH es1 d1 (dict_set t o durable) Hok1 Hnd)|].
  - intros t' Ht'. assert (t' <> t) by (by intros ->). rewrite dict_get_set_ne, Hoth by done. apply Hagree. by right.
  - destruct Hcl as [->|]; [|by right]. destruct Hdur as [->|]; [by left|right; auto].
  - cbn. intros durable' d' (-> & -> & Hr). auto.
Qed.

(** Every chance in the list that was reserved gets closed. *)
Lemma mv_close_chances now chances : forall es d,
  interval_ok c es d -> NoDup chances.*1 -> (forall lane ch, (lane, ch) ∈ chances -> dict_get lane (fd_chances d) = Some ch) ->
  moves c es d (close_chances (A := A) (G := G) c now chances)
    (fun _ d' => fd_terminal d' = fd_terminal d
      /\ (forall lane, lane ∉ chances.*1 -> dict_get lane (fd_chances d') = dict_get lane (fd_chances d))
      /\ ((forall lane ch, lane ∈ chances.*1 -> dict_get lane (fd_chances d') = Some ch -> ch_state ch <> CHANCE_RESERVED)
          \/ colliding c d')).
Proof using taken named.
  induction chances as [|[lane ch] rest IH]; intros es d Hok Hnd Hin; cbn [close_chances].
  { apply mv_ret; [done|]. split; [done|]. split; [done|]. left. intros lane ch Hl. by apply not_elem_of_nil in Hl. }
  cbn in Hnd. apply NoDup_cons in Hnd as [Hl Hnd]. pose proof (Hin lane ch ltac:(by left)) as Hg.
  eapply (mv_bind _ _ _ _ _ (fun _ d' => fd_terminal d' = fd_terminal d
    /\ (forall l, l <> lane -> dict_get l (fd_chances d') = dict_get l (fd_chances d))
    /\ ((forall ch', dict_get lane (fd_chances d') = Some ch' -> ch_state ch' <> CHANCE_RESERVED) \/ colliding c d'))).
  - destruct (reserved_now ch) eqn:Er; [|apply mv_ret; [done|]; split; [done|]; split; [done|]; left; intros ch' Hc' Hs].
    + apply reserved_now_spec in Er. apply mv_aside; [apply aside_ask|done|]. intros held.
      apply mv_aside; [destruct (dict_get lane held); [apply aside_ret|apply aside_auth]|done|]. intros g.
      apply (mv_record c taken named); [done|cbn; eauto|]. intros es1 d1 Hok1 Hd.
      apply mv_aside; [apply aside_auth|done|]. intros []. eapply mv_conseq; [by apply mv_aside_only; [apply aside_chances|]|]. cbn. intros _ d' ->.
      destruct Hd as [(row & Hd)|[-> Hcol]]; [|auto]. rewrite (fact_chances _ _ _ _ _ _ Hd), (fact_terminal _ _ _ _ _ _ Hd) by done. cbn.
      split; [done|]. split; [intros l Hne; by apply dict_get_set_ne|]. left. intros ch'. rewrite dict_get_set_eq. by intros [= <-].
    + rewrite Hg in Hc'. injection Hc' as <-. unfold reserved_now in Er. by apply bool_decide_eq_false in Er.
  - intros [] es1 d1 Hok1 (Ht1 & Hoth & Hc1). eapply mv_conseq; [apply mv_grows, (IH es1 d1 Hok1 Hnd)|].
    + intros l ch' Hc'. rewrite Hoth; [apply Hin; by right|]. intros ->. apply Hl. apply list_elem_of_fmap. by exists (lane, ch').
    + cbn. intros _ d' ((Ht' & Hoth' & Hc') & Hgrow). split; [congruence|]. split.
      * intros l Hn. apply not_elem_of_cons in Hn as [Hne Hn]. by rewrite Hoth', Hoth.
      * destruct Hc1 as [Hc1|]; [|right; auto]. destruct Hc' as [Hc'|]; [|by right]. left. intros l ch' Hl'. 
        apply elem_of_cons in Hl' as [->|Hl']; [|by apply Hc']. rewrite (Hoth' lane Hl). apply Hc1.
Qed.

Lemma foldl_NoDup_keys {X V} (f : list (string * V) -> X -> list (string * V)) xs : forall o,
  (forall o x, NoDup o.*1 -> NoDup (f o x).*1) -> NoDup o.*1 -> NoDup (foldl f o xs).*1.
Proof. induction xs as [|x xs IH]; intros o Hf Ho; cbn; [done|]. apply IH; auto. Qed.

Lemma look_again_NoDup kind left_ targets outcomes : NoDup outcomes.*1 -> NoDup (look_again kind left_ targets outcomes).*1.
Proof.
  intros Ho. unfold look_again. set (folded := foldl _ outcomes targets). assert (Hf : NoDup folded.*1).
  { apply foldl_NoDup_keys; [|done]. intros o t Hn. destruct (strip_prefix _ t); [by apply dict_set_NoDup|done]. }
  destruct (py_any _ _); [by apply dict_set_NoDup|done].
Qed.

Lemma cleanup_outcomes_NoDup targets supplied remaining : NoDup (cleanup_outcomes targets supplied remaining).*1.
Proof.
  unfold cleanup_outcomes. do 2 apply look_again_NoDup. unfold supplied_outcomes.
  set (folded := foldl _ [] targets). assert (Hf : NoDup folded.*1).
  { apply foldl_NoDup_keys; [|apply NoDup_nil_2]. intros o t Hn. by apply dict_set_NoDup. }
  destruct (dict_has _ _); [done|by apply dict_set_NoDup].
Qed.

Lemma foreign_receipt name doc : foreign (log_receipt (W := L) name doc).
Proof.
  intros l es Hl. pose proof (log_receipt_sound l es name doc Hl) as Hr.
  assert (Hkept : forall l', log_sound l' es -> exists others, Forall (fun e => is_final_event e = false) others /\ log_sound l' (es ++ others)).
  { intros l' Hl'. exists []. by rewrite app_nil_r. }
  destruct (log_receipt name doc l) as [l' [u|e|]]; cbn; [auto|..]; destruct Hr; auto.
Qed.

(** How a closed Run stands. *)
Definition settled (terminal : fields) (d : FinalDocument) : Prop :=
  fd_terminal d = Some terminal /\ fd_mode d = mode_value MODE_CLOSED
  /\ (forall lane ch, dict_get lane (fd_chances d) = Some ch -> ch_state ch <> CHANCE_RESERVED)
  /\ get_or "disposition" JNull terminal = JStr (if py_any (fun kv => negb (bool_decide (kv.2 = CLEANUP_RELEASED))) (fd_cleanup d)
       then CLOSED_WITH_UNSETTLED_CLEANUP else RUN_CLOSED).

Definition unended (d : FinalDocument) : Prop := fd_terminal d = None \/ fd_terminal d = Some [].

Definition none_reserved (d : FinalDocument) : Prop :=
  forall lane ch, dict_get lane (fd_chances d) = Some ch -> ch_state ch <> CHANCE_RESERVED.

Lemma mv_receipt es d : interval_ok c es d -> moves (A := A) (G := G) c es d (write_final_receipt c) (fun _ d' => d' = d).
Proof.
  intros Hok. unfold write_final_receipt. apply mv_document; [done|].
  eapply fr_conseq; [by apply fr_foreign; [apply foreign_receipt|]| |done]. by intros [] es2 d2 [-> ?].
Qed.

Lemma mv_end_run es d now (g : G) reservation remaining outcomes :
  interval_ok c es d -> unended d -> (outcomes = fd_cleanup d \/ colliding c d) -> (none_reserved d \/ colliding c d) ->
  moves (A := A) (G := G) c es d (end_run c now g reservation remaining outcomes) (fun t d' => settled t d' \/ colliding c d').
Proof using taken named.
  intros Hok Hst Hout Hch. unfold end_run. apply (mv_record c taken named); [done|done|]. intros es1 d1 Hok1 Hd.
  pose proof (recorded_grows _ _ _ _ _ _ Hd) as Hgrow. eapply mv_bind; [by apply mv_receipt|]. intros [] es2 ? Hok2 ->. apply mv_aside; [apply aside_auth|done|]. intros []. apply mv_ret; [done|].
  destruct Hd as [(row & Hd)|[-> ?]]; [|by right]. destruct Hout as [->|]; [|right; auto]. destruct Hch as [Hch|]; [|right; auto]. left.
  unfold fact_applied in Hd. cbn in Hd. by injection Hd as <-.
Qed.

Lemma targets_of_texts ts : targets_of [("targets", JList (JStr <$> ts))] = Ok ts.
Proof.
  unfold targets_of. change (get_or _ _ _) with (JList (JStr <$> ts)). cbv iota.
  induction ts as [|t ts IH]; [done|]. rewrite fmap_cons. cbn [map_result mbind result_bind]. by rewrite IH.
Qed.

(** Nothing but the cleanup is touched. *)
Definition but_cleanup (d d' : FinalDocument) : Prop := fd_chances d' = fd_chances d /\ fd_terminal d' = fd_terminal d.

Lemma mv_request_cleanup es d now reservation before_ :
  interval_ok c es d -> moves (A := A) (G := G) c es d (request_cleanup c now reservation before_) (fun _ d' => but_cleanup d d').
Proof using taken named.
  intros Hok. unfold request_cleanup. apply mv_document; [done|]. destruct (fd_cleanup_requested d).
  - apply mv_try; [done|]. intros [] _. by apply mv_ret.
  - apply (mv_record c taken named); [done|cbn; eexists; apply targets_of_texts|]. intros es1 d1 Hok1 Hd. apply mv_ret; [done|].
    destruct Hd as [(row & Hd)|[-> _]]; [|done]. apply (cleanup_keeps _ _ _ _ _ _ Hd). by left.
Qed.

Lemma mv_close_first es d now inventory cleanup :
  foreign inventory -> foreign (caught cleanup) -> interval_ok c es d -> unended d ->
  moves (A := A) (G := G) c es d (close_first c now inventory cleanup) (fun t d' => settled t d' \/ colliding c d').
Proof using taken named.
  intros Hinv Hcl Hok Hun. unfold close_first. apply mv_document; [done|]. apply mv_try; [done|]. intros mode Hm%mode_of_some.
  eapply (mv_bind _ _ _ _ _ (fun _ d' => fd_terminal d' = fd_terminal d)).
  { case_bool_decide as Ec; [by apply mv_ret|]. eapply mv_conseq; [apply (fr_record c taken named); [done|]|].
    - cbn. exists mode, MODE_CLOSED. split; [done|]. split; [done|]. destruct mode; try done; by destruct Ec.
    - cbn. intros [] d1 [(row & Hd)|[-> _]]; [|done]. by rewrite (fact_terminal _ _ _ _ _ _ Hd). }
  intros [] es1 d1 Hok1 Ht1. apply mv_aside; [apply aside_auth|done|]. intros g. apply mv_document; [done|].
  eapply mv_bind; [apply mv_close_chances; [done|apply (io_keys _ _ _ Hok1)|]|].
  { intros lane ch Hin. apply dict_elem_get; [apply (io_keys _ _ _ Hok1)|done]. }
  cbn. intros [] es2 d2 Hok2 (Ht2 & Hoth & Hcls). assert (Hnone : none_reserved d2 \/ colliding c d2).
  { destruct Hcls as [Hcls|]; [left|by right]. intros lane ch Hg. destruct (decide (lane ∈ (fd_chances d1).*1)) as [|Hn]; [by eapply Hcls|].
    rewrite Hoth in Hg by done. apply dict_get_None in Hn. congruence. }
  apply mv_foreign; [done|done|]. intros before_ es3 Hok3. eapply mv_bind; [by apply mv_grows, mv_request_cleanup|].
  intros targets es4 d4 Hok4 [[Hch4 Ht4] Hg4]. apply mv_foreign; [done|done|]. intros supplied es5 Hok5.
  apply mv_foreign; [done|done|]. intros remaining es6 Hok6. apply mv_document; [done|].
  eapply mv_bind; [apply mv_grows, mv_record_cleanup; [done|apply cleanup_outcomes_NoDup|done|by left]|].
  intros outcomes es7 d7 Hok7 ((Hch7 & Ht7 & Hout) & Hg7). apply mv_end_run; [done| |done|].
  - unfold unended. by rewrite Ht7, Ht4, Ht2, Ht1.
  - destruct Hnone as [Hnone|]; [left|right; auto]. unfold none_reserved. by rewrite Hch7, Hch4.
Qed.

Lemma mv_close es d inventory cleanup early :
  foreign inventory -> foreign (caught cleanup) -> interval_ok c es d ->
  moves (A := A) (G := G) c es d (close c inventory cleanup early)
    (fun t d' => match fd_terminal d with Some (kv :: rest) => t = kv :: rest /\ d' = d | _ => settled t d' \/ colliding c d' end).
Proof using taken named.
  intros Hinv Hcl Hok. unfold close. apply mv_aside; [apply aside_clock|done|]. intros now. apply mv_try; [done|]. intros [] _.
  apply mv_document; [done|]. destruct (fd_terminal d) as [[|kv rest]|] eqn:Et; [apply mv_close_first; try done; by right| |apply mv_close_first; try done; by left].
  unfold close_again. eapply mv_bind; [by apply mv_receipt|]. intros [] es1 ? Hok1 ->. apply mv_try; [done|]. intros disp _.
  apply mv_aside; [apply aside_auth|done|]. intros g. apply mv_aside; [apply aside_auth|done|]. intros []. by apply mv_ret.
Qed.

(** ** Starting *)

(** A start replays the log. *)
Lemma fr_start es d d0 : interval_ok c es d ->
  fruns (A := A) (G := G) es d0 (final_start c) (fun _ es' d' => es' = es /\ d' = d) (fun es' => es' = es).
Proof.
  intros Hok w Hw _. unfold final_start. unfold mbind at 1, Prog_bind at 1, on_log at 1. unfold mbind at 1, Prog_bind at 1, ask at 1, try at 1.
  rewrite (log_sound_read _ _ Hw). unfold mbind at 1, Prog_bind at 1, try at 1. rewrite (io_project _ _ _ Hok).
  unfold mbind at 1, Prog_bind at 1, try at 1. destruct (observed_all (fd_trace d)) as [ms|x]; [|left; eauto].
  unfold mbind, Prog_bind, try. destruct (raise_unless _ _); cbn; [exists es, d; auto|left; eauto].
Qed.
End steps.
