(* ===== verification/FinalTheorems.v ===== *)
(** Histories of the final interval and what holds along all of them. *)

From S2P Require Import Prelude Canon Text Moment MomentFormat PyJson EventStore EventContracts EventLog FinalContracts FinalInterval FinalLogic FinalFacts FinalSteps.
Local Open Scope Z_scope.

Definition interval_start : Interval := {|
  iv_mode := ORDINARY; iv_chances := []; iv_outcomes := []; iv_cleanup := []; iv_terminal := None |}.

Definition no_final_facts (es : list CommittedEvent) : Prop := Forall (fun e => is_final_event e = false) es.

Lemma empty_ok `{Digester} c : interval_ok c [] empty_document.
Proof.
  split; [done|by eexists|done|done|constructor|constructor|done|constructor].
Qed.

Lemma interval_terminal d i : abstract_interval d = Some i -> iv_terminal i = fd_terminal d.
Proof. unfold abstract_interval. by intros (m & _ & [= <-])%bind_Some. Qed.

(** ** The clock *)

Section clock.
Context {DG : Digester} {L : Type} `{EventLog L} {A G : Type} `{FinalAuthority A G} (c : FinalWindow).

#[local] Abbreviation World := (FinalWorld (L := L) (A := A) (G := G)).

Lemma interval_bind_done {B C} (m : Prog World B) (k : B -> Prog World C) w w' x :
  (m ≫= k) w = (w', Done x) -> exists w1 b, m w = (w1, Done b) /\ k b w1 = (w', Done x).
Proof. unfold mbind, Prog_bind. destruct (m w) as [w1 [b|e|]]; [eauto|done|done]. Qed.

Lemma try_done {B} (r : result B) (w w' : World) b : try r w = (w', Done b) -> w' = w /\ r = Ok b.
Proof. unfold try. destruct r; by intros [= -> ->]. Qed.

(** The next reading, and never one before the last. *)
Lemma observed_now_done (w w' : World) now :
  observed_now c w = (w', Done now) ->
  exists reading rest, fw_clock w = reading :: rest /\ utc_offset reading = Some 0 /\ at_or_before (opened_at c) reading = true
    /\ now = later (fw_floor w) reading /\ fw_floor w' = now /\ fw_log w' = fw_log w /\ fw_document w' = fw_document w.
Proof.
  unfold observed_now. destruct (fw_clock w) as [|reading rest]; [done|]. destruct (_ || _) eqn:E; [done|]. intros [= <- <-].
  apply orb_false_iff in E as [E Eb]. apply orb_false_iff in E as [_ Eu]. bool_to_prop. exists reading, rest. cbn. split_and!; try done.
  unfold before, at_or_before in *. bool_to_prop. lia.
Qed.

(** The mode a Lane is told is the later of the one on record and the one the clock says, where the
    clock never goes back and the end of the Run closes it; only Lanes of the profile are told. *)
Theorem admission_mode_exact (w w' : World) lane m :
  admission_mode c lane w = (w', Done m) ->
  lane ∈ enabled_lanes c
  /\ exists reading rest durable, fw_clock w = reading :: rest /\ mode_of (fd_mode (fw_document w)) = Some durable
    /\ mode_rank m = Z.max (mode_rank durable)
         (mode_rank match fd_terminal (fw_document w) with Some _ => MODE_CLOSED | None => mode_at c (later (fw_floor w) reading) end).
Proof.
  unfold admission_mode, require_lane. intros (w1 & [] & [-> Hl%raise_unless_ok]%try_done & Hm)%interval_bind_done. bool_to_prop. split; [done|].
  apply interval_bind_done in Hm as (w1 & now & (reading & rest & Hc & _ & _ & -> & _ & _ & Hd)%observed_now_done & Hm).
  apply interval_bind_done in Hm as (w2 & d & [= <- <-] & Hm). apply interval_bind_done in Hm as (w2 & durable & [-> Hmode%mode_of_some]%try_done & Hm).
  rewrite Hd in Hmode, Hm. exists reading, rest, durable. split; [done|]. split; [done|].
  set (observed := match fd_terminal _ with Some _ => _ | None => _ end) in *. destruct (_ <? _) eqn:E; bool_to_prop.
  - apply interval_bind_done in Hm as (w3 & [] & _ & [= _ <-]). lia.
  - injection Hm as _ <-. lia.
Qed.

(** A window that was accepted has its cutoff strictly inside, leaves after it more than a request
    and its uncertainty, gives final chances only before it, ordinary Work only with the floor
    to spare, and its modes never go back. *)
Theorem window_leaves_time now later_ :
  FinalWindow_new c = Ok c ->
  before (opened_at c) (cutoff c) = true /\ before (cutoff c) (ends_at c) = true
  /\ request_deadline_us c + uncertainty_margin_us c < us_between (ends_at c) (cutoff c)
  /\ (mode_at c now = FINAL_CHANCE -> before now (cutoff c) = true)
  /\ (mode_at c now = ORDINARY -> us_per_second * floor_seconds c <= us_between (cutoff c) now)
  /\ (at_or_before now later_ = true -> mode_rank (mode_at c now) <= mode_rank (mode_at c later_)).
Proof.
  unfold FinalWindow_new. intros (_ & _ & (_ & Hends%raise_if_ok & (_ & Hw%raise_if_ok & _)%bind_ok)%bind_ok)%bind_ok.
  do 6 apply orb_false_iff in Hw as [Hw ?]. bool_to_prop.
  assert (Hcut : instant (cutoff c) = instant (ends_at c) - us_per_second * reserve_seconds c).
  { unfold cutoff, plus_seconds, instant, wall_us, utc_offset. destruct (ends_at c) as [us [o|]]; cbn; lia. }
  unfold mode_at, at_or_before, before, us_between in *. bool_to_prop. unfold us_per_second in *.
  split_and!; try lia; intros; repeat case_match; bool_to_prop; try done; cbn; try lia.
Qed.

(** ** The drain of settled Candidates *)

Lemma drain_loop_aside submit submissions candidates :
  (forall x, x ∈ candidates -> dict_get x submissions <> None) -> aside (drain_loop (A := A) (G := G) c submit submissions candidates).
Proof.
  induction candidates as [|x rest IH]; intros Hall; cbn [drain_loop]; [apply aside_ret|].
  apply aside_bind; [apply aside_clock|]. intros now. destruct (at_or_before _ _); [apply aside_ret|].
  pose proof (Hall x ltac:(by left)) as Hx. destruct (dict_get x submissions) as [prior|]; [|done].
  apply aside_bind; [|intros said; apply aside_bind; [apply IH; intros y Hy; apply Hall; by right|intros more; apply aside_ret]].
  apply aside_bind; [|intros []; apply aside_ret]. destruct authority_present; [|apply aside_ret].
  apply aside_bind; [apply aside_auth|]. intros g. apply aside_auth.
Qed.

Definition prior_outcomes (submissions : list (string * Submitted)) (candidates : list string) : list string :=
  omap (fun x => said_of_prior ∘ sb_outcome <$> dict_get x submissions) candidates.

Lemma drain_loop_says submit submissions candidates : forall (w w' : World) l,
  (forall x, x ∈ candidates -> dict_get x submissions <> None) ->
  drain_loop c submit submissions candidates w = (w', Done l) -> l `prefix_of` prior_outcomes submissions candidates.
Proof.
  induction candidates as [|x rest IH]; intros w w' l Hall; cbn [drain_loop]; [by intros [= _ <-]|].
  intros (w1 & now & _ & Hm)%interval_bind_done. destruct (at_or_before _ _); [injection Hm as _ <-; apply prefix_nil|].
  pose proof (Hall x ltac:(by left)) as Hx. cbn [prior_outcomes omap list_omap]. destruct (dict_get x submissions) as [prior|]; [|done].
  apply interval_bind_done in Hm as (w2 & said & (w3 & [] & _ & [= _ <-])%interval_bind_done & Hm).
  apply interval_bind_done in Hm as (w4 & more & Hmore & [= _ <-]). cbn. apply prefix_cons. eapply IH; [|exact Hmore].
  intros y Hy. apply Hall. by right.
Qed.

(** A Candidate with an outcome is not submitted again: draining only such Candidates, whatever
    the submitter would do and however the drain ends, changes neither the log nor the document,
    and what it returns are the outcomes on record, in order, a possibly sent one as spent. *)
Theorem drain_settled candidates submit (w : World) :
  (forall x, x ∈ candidates -> dict_get x (fd_submissions (fw_document w)) <> None) ->
  match drain c candidates submit w with
  | (w', r) => fw_log w' = fw_log w /\ fw_document w' = fw_document w
      /\ forall l, r = Done l -> l `prefix_of` prior_outcomes (fd_submissions (fw_document w)) candidates
  end.
Proof.
  intros Hall. destruct (drain c candidates submit w) as [w' r] eqn:E. unfold drain in E.
  unfold mbind at 1, Prog_bind at 1 in E. pose proof (aside_clock (A := A) (G := G) c w) as [Hl Hd].
  destruct (observed_now c w) as [w1 [now|e|]]; cbn in Hl, Hd; [|injection E as <- <-; by rewrite Hl, Hd..].
  unfold mbind at 1, Prog_bind at 1 in E. destruct (try _ w1) as [w2 r2] eqn:Et.
  assert (w2 = w1) as -> by (unfold try in Et; destruct (raise_unless _ _); by injection Et).
  destruct r2 as [[]|e|]; [|injection E as <- <-; by rewrite Hl, Hd..].
  change (drain_loop c submit (fd_submissions (fw_document w1)) candidates w1 = (w', r)) in E. rewrite Hd in E.
  pose proof (drain_loop_aside submit _ candidates Hall w1) as [Hl' Hd']. rewrite E in Hl', Hd'. cbn in Hl', Hd'.
  split; [congruence|]. split; [congruence|]. intros l ->. by eapply drain_loop_says.
Qed.
End clock.

Section histories.
Context {DG : Digester} {L : Type} `{EventLogOk L} {A G : Type} `{FinalAuthority A G} (c : FinalWindow).

#[local] Abbreviation World := (FinalWorld (L := L) (A := A) (G := G)).

(** The operations of the controller; [submit], [inventory] and [cleanup] are the caller's and
    leave the interval's facts alone. *)
Inductive operation : forall B, Prog World B -> Prop :=
  | op_admission_mode lane : operation _ (admission_mode c lane)
  | op_scoreable_seconds : operation _ (scoreable_seconds c)
  | op_chance_available lane : operation _ (chance_available c lane)
  | op_reserve_final_chance lane challenge : operation _ (reserve_final_chance c lane challenge)
  | op_spend_final_chance grant : operation _ (spend_final_chance c grant)
  | op_admit_final_chance lane challenge : operation _ (admit_final_chance c lane challenge)
  | op_drain candidates submit : NoDup candidates -> (forall x, foreign (submit x)) -> operation _ (drain c candidates submit)
  | op_reconcile_submission candidate outcome : operation _ (reconcile_submission c candidate outcome)
  | op_close inventory cleanup early : foreign inventory -> foreign (caught cleanup) -> operation _ (close c inventory cleanup early).

(** The document in memory is the replay of the log. *)
Definition document_current (w : World) : Prop := exists es, log_read (fw_log w) = Ok es /\ project_final_interval es = Ok (fw_document w).

(** A step: an operation of a process whose document is current, ended in any way that leaves the
    log readable; a start, from whatever memory; other components' events; the loss of the memory. *)
Inductive final_step : World -> World -> Prop :=
  | step_operation B (m : Prog World B) w w' r :
      operation B m -> document_current w -> m w = (w', r) -> ~ log_damaged (fw_log w') -> final_step w w'
  | step_begin w w' r : final_start c w = (w', r) -> ~ log_damaged (fw_log w') -> final_step w w'
  | step_elsewhere w w' :
      (forall es, log_sound (fw_log w) es -> exists others, no_final_facts others /\ log_sound (fw_log w') (es ++ others)) ->
      final_step w w'.

(** The abstract interval the log stands for. *)
Definition interval_at (w : World) : option Interval :=
  match log_read (fw_log w) with
  | Ok es => match project_final_interval es with Ok d => abstract_interval d | Err _ => None end
  | Err _ => None
  end.

Hypothesis taken : facts_taken.
Hypothesis named : names_given c.

Lemma operation_moves B (m : Prog World B) es d : operation B m -> interval_ok c es d -> exists R, moves c es d m R.
Proof using taken named.
  intros Hop Hok. destruct Hop; eexists.
  - by apply (mv_admission_mode c taken named).
  - by apply (mv_scoreable c).
  - by apply (mv_chance_available c taken named).
  - by apply (mv_reserve_final_chance c taken named).
  - by apply (mv_spend_final_chance c taken named).
  - by apply (mv_admit_final_chance c taken named).
  - by apply (mv_drain c taken named).
  - by apply (mv_reconcile_submission c taken named).
  - by apply (mv_close c taken named).
Qed.

Lemma current_document w es d : document_current w -> log_sound (fw_log w) es -> interval_ok c es d -> fw_document w = d.
Proof.
  intros (es0 & Hr & Hp) Hl Hok. rewrite (log_sound_read _ _ Hl) in Hr. injection Hr as <-. pose proof (io_project _ _ _ Hok). congruence.
Qed.

Lemma final_step_reach w w' es d : final_step w w' -> log_sound (fw_log w) es -> interval_ok c es d ->
  exists es' d', log_sound (fw_log w') es' /\ reach c d es' d'.
Proof using taken named.
  intros Hs Hl Hok. destruct Hs as [B m w w' r Hop Hcur Hr Hnd|w w' r Hr Hnd|w w' Ho].
  - destruct (operation_moves B m es d Hop Hok) as [R Hm]. specialize (Hm w Hl (current_document w es d Hcur Hl Hok)). rewrite Hr in Hm.
    destruct r as [b|e|]; [destruct Hm as (es' & d' & Hl' & _ & Hre & _); eauto|destruct Hm as [(es' & Hl' & d' & Hre)|]; [eauto|done]..].
  - pose proof (fr_start c es d _ Hok w Hl eq_refl) as Hm. rewrite Hr in Hm.
    destruct r as [b|e|]; [destruct Hm as (es' & d' & Hl' & _ & -> & ->)|destruct Hm as [(es' & Hl' & ->)|]; [|done]..];
      exists es, d; (split; [done|by apply reach_refl]).
  - destruct (Ho es Hl) as (others & Hn & Hl'). exists (es ++ others), d. split; [done|]. apply reach_refl. by apply interval_ok_others.
Qed.

Lemma final_steps_reach w w' es d : rtc final_step w w' -> log_sound (fw_log w) es -> interval_ok c es d ->
  exists es' d', log_sound (fw_log w') es' /\ reach c d es' d'.
Proof using taken named.
  intros Hs. revert es d. induction Hs as [w|w w1 w2 H1' _ IH]; intros es d Hl Hok; [exists es, d; split; [done|by apply reach_refl]|].
  destruct (final_step_reach w w1 es d H1' Hl Hok) as (es1 & d1 & Hl1 & Hr1). destruct (IH es1 d1 Hl1 (proj1 Hr1)) as (es2 & d2 & Hl2 & Hr2).
  exists es2, d2. split; [done|]. by eapply reach_trans.
Qed.

(** A log without facts of the interval. *)
Definition fresh_interval (w : World) : Prop := exists es, log_sound (fw_log w) es /\ no_final_facts es.

Lemma fresh_reach w w' : fresh_interval w -> rtc final_step w w' -> exists es' d', log_sound (fw_log w') es' /\ reach c empty_document es' d'.
Proof using taken named.
  intros (es & Hl & Hn) Hs. apply (final_steps_reach w w' es empty_document Hs Hl).
  apply (interval_ok_others c [] empty_document es (empty_ok c) Hn).
Qed.

Lemma interval_at_reach w d es' d' i : log_sound (fw_log w) es' -> reach c d es' d' -> abstract_interval d = Some i ->
  exists i', interval_at w = Some i' /\ abstract_interval d' = Some i' /\ rtc (iv_step (enabled_lanes c)) i i'.
Proof.
  intros Hl (Hok & _ & i0 & i' & Hi0 & Hi' & Hs) Hi. rewrite Hi in Hi0. injection Hi0 as <-. exists i'. split; [|done].
  unfold interval_at. by rewrite (log_sound_read _ _ Hl), (io_project _ _ _ Hok).
Qed.

(** C18. The final interval refines an abstract machine: along every history of the controller's
    operations - which return, raise or lose power -, restarts and other components' events, the
    log replays to an interval that moves only by its steps; so the mode never goes back, a
    spent or closed chance, a definite outcome and a released target stand, and a Run ends
    once. A history has an operation only where the document in memory is the replay of the
    log: an append that raised after its commit leaves a stale document, and the process is
    started again before its next operation ([stale_chance_moves] shows what happens if it is
    not). A drain lists each Candidate once ([drain_repeats]), callbacks leave the interval's
    facts alone, no write is torn, and the log takes every fact. *)
Theorem interval_refines w w1 w2 :
  fresh_interval w -> rtc final_step w w1 -> rtc final_step w1 w2 ->
  exists i1 i2, interval_at w1 = Some i1 /\ interval_at w2 = Some i2
    /\ rtc (iv_step (enabled_lanes c)) interval_start i1 /\ rtc (iv_step (enabled_lanes c)) i1 i2 /\ iv_le i1 i2.
Proof using taken named.
  intros Hf H1' H2'. destruct (fresh_reach w w1 Hf H1') as (es1 & d1 & Hl1 & Hr1).
  destruct (interval_at_reach w1 _ _ _ interval_start Hl1 Hr1 eq_refl) as (i1 & Hi1 & Hd1 & Hs1).
  destruct (final_steps_reach w1 w2 es1 d1 H2' Hl1 (proj1 Hr1)) as (es2 & d2 & Hl2 & Hr2).
  destruct (interval_at_reach w2 _ _ _ i1 Hl2 Hr2 Hd1) as (i2 & Hi2 & _ & Hs2).
  exists i1, i2. split_and!; try done. by eapply iv_steps_le.
Qed.

(** C19. A Lane has one final chance: along every history of operations, restarts and other
    components' events the log holds, of each Lane, no entitlement fact, a reservation, or a
    reservation and one end of it; only Lanes of the profile have any, and a chance is spent only
    before the submission cutoff. As above, an operation runs only where the document in memory
    is the replay of the log: after an append that raised once it had committed the process is
    started again first, or a Lane can reserve twice ([stale_chance_twice]); a drain lists each
    Candidate once, no write is torn, and the log takes every fact. *)
Theorem final_chance_once w w' lane :
  fresh_interval w -> rtc final_step w w' ->
  exists es, log_read (fw_log w') = Ok es
    /\ entitlements lane es ∈ [[]; [CHANCE_RESERVED]; [CHANCE_RESERVED; CHANCE_SPENT]; [CHANCE_RESERVED; CHANCE_CLOSED]]
    /\ (entitlements lane es <> [] -> lane ∈ enabled_lanes c) /\ Forall (spent_in_time c) es.
Proof using taken named.
  intros Hf Hs. destruct (fresh_reach w w' Hf Hs) as (es & d & Hl & Hr). exists es. split; [by apply log_sound_read|].
  destruct Hr as [Hok _]. rewrite (io_entitled _ _ _ Hok). pose proof (io_timed _ _ _ Hok) as Htimed.
  destruct (dict_get lane (fd_chances d)) as [ch|] eqn:Eg; [|split; [by left|done]].
  destruct (io_lanes _ _ _ Hok lane ch Eg) as [Hin Hst]. split; [|done]. cbn.
  rewrite !elem_of_cons in Hst. destruct Hst as [-> |[-> |[-> |Hst]]]; [set_solver..|by apply not_elem_of_nil in Hst].
Qed.

(** How a closing that returns leaves the log and the document. *)
Lemma close_returns w1 w2 es d inventory cleanup early t :
  log_sound (fw_log w1) es -> interval_ok c es d -> fw_document w1 = d -> foreign inventory -> foreign (caught cleanup) ->
  close c inventory cleanup early w1 = (w2, Done t) ->
  exists es', log_sound (fw_log w2) es' /\ interval_ok c es' (fw_document w2)
    /\ match fd_terminal d with Some (kv :: rest) => t = kv :: rest /\ fw_document w2 = d | _ => settled t (fw_document w2) \/ colliding c (fw_document w2) end.
Proof using taken named.
  intros Hl Hok Hd Hinv Hcl Hc. pose proof (mv_close c taken named es d inventory cleanup early Hinv Hcl Hok w1 Hl Hd) as Hm. rewrite Hc in Hm.
  destruct Hm as (es' & d' & Hl' & <- & (Hok' & _) & Hset). by exists es'.
Qed.

Lemma settled_terminal t d : settled t d -> exists kv rest, t = kv :: rest /\ fd_terminal d = Some (kv :: rest).
Proof. intros (Ht & _ & _ & Hd). destruct t as [|kv rest]; [done|eauto]. Qed.

(** C20. A Run that closes is settled: when closing a Run that has not ended returns, on a controller
    whose document is the replay of the log, the log replays to the document then in memory, that
    document has exactly the returned inventory, its mode is closed, it leaves no chance
    reserved, and the disposition is "closed" exactly when every cleanup target was released -
    unless, among the facts of this very log and the one that would come next, two of different
    ordinals were given names with one digest. The inventory and the cleanup are callbacks
    that leave the interval's facts alone, and the log takes every fact. *)
Theorem close_settles w w1 w2 inventory cleanup early t :
  fresh_interval w -> rtc final_step w w1 -> document_current w1 -> foreign inventory -> foreign (caught cleanup) ->
  unended (fw_document w1) -> close c inventory cleanup early w1 = (w2, Done t) ->
  document_current w2 /\ (settled t (fw_document w2) \/ colliding c (fw_document w2)).
Proof using taken named.
  intros Hf Hs Hcur Hinv Hcl Hun Hc. destruct (fresh_reach w w1 Hf Hs) as (es & d & Hl & [Hok _]).
  pose proof (current_document w1 es d Hcur Hl Hok) as Hd. rewrite Hd in Hun.
  destruct (close_returns w1 w2 es d inventory cleanup early t Hl Hok Hd Hinv Hcl Hc) as (es' & Hl' & Hok' & Hset).
  split; [exists es'; split; [by apply log_sound_read|apply Hok']|]. by destruct Hun as [Hun|Hun]; rewrite Hun in Hset.
Qed.

(** Closing is idempotent: whatever happens between two closings that return, the second gives
    the same inventory as the first and records nothing, whatever its own inventory and
    cleanup say - unless two names of the log the first left collide. *)
Theorem close_again_same w w1 w2 w3 w4 inventory cleanup early t inventory' cleanup' early' t' :
  fresh_interval w -> rtc final_step w w1 -> document_current w1 -> foreign inventory -> foreign (caught cleanup) ->
  close c inventory cleanup early w1 = (w2, Done t) ->
  rtc final_step w2 w3 -> document_current w3 -> foreign inventory' -> foreign (caught cleanup') ->
  close c inventory' cleanup' early' w3 = (w4, Done t') ->
  t' = t /\ fw_document w4 = fw_document w3 \/ colliding c (fw_document w2).
Proof using taken named.
  intros Hf Hs Hcur Hinv Hcl Hc Hs' Hcur' Hinv' Hcl' Hc'. destruct (fresh_reach w w1 Hf Hs) as (es & d & Hl & [Hok _]).
  pose proof (current_document w1 es d Hcur Hl Hok) as Hd.
  destruct (close_returns w1 w2 es d inventory cleanup early t Hl Hok Hd Hinv Hcl Hc) as (es2 & Hl2 & Hok2 & Hset).
  assert (Ht : (exists kv rest, t = kv :: rest /\ fd_terminal (fw_document w2) = Some (kv :: rest)) \/ colliding c (fw_document w2)).
  { destruct (fd_terminal d) as [[|kv rest]|] eqn:Et;
      [destruct Hset as [Hset|]; [left; by apply settled_terminal|by right]|left|destruct Hset as [Hset|]; [left; by apply settled_terminal|by right]].
    destruct Hset as [-> ->]. eauto. }
  destruct Ht as [(kv & rest & -> & Ht)|]; [left|by right].
  destruct (final_steps_reach w2 w3 es2 _ Hs' Hl2 Hok2) as (es3 & d3 & Hl3 & Hok3 & _ & i2 & i3 & Hi2 & Hi3 & Hst).
  pose proof (current_document w3 es3 d3 Hcur' Hl3 Hok3) as Hd3.
  destruct (close_returns w3 w4 es3 d3 inventory' cleanup' early' t' Hl3 Hok3 Hd3 Hinv' Hcl' Hc') as (_ & _ & _ & Hset').
  pose proof (le_terminal _ _ (iv_steps_le _ _ _ Hst) kv rest) as Hle. rewrite (interval_terminal _ _ Hi2), (interval_terminal _ _ Hi3) in Hle.
  rewrite (Hle Ht) in Hset'. by rewrite Hd3.
Qed.
End histories.
