(* ===== verification/FinalStore.v ===== *)
(** The final interval over the canonical event store: the contract takes the facts the controller
    writes, so what the interval promises over any sound log it promises over the store. *)

From S2P Require Import Prelude Canon Text Moment MomentFormat Redaction RedactionFacts PyJson EventStore EventStoreLogic EventStoreFacts EventContracts ContractFacts EventLog StoreLog FenceStore FinalContracts FinalInterval FinalLogic FinalFacts FinalSteps FinalTheorems.
Local Open Scope Z_scope.

(** The contract of the facts accepts every fact that has a name. *)
Lemma final_contract_accepts ev bd : fi_event_id ev <> "" -> bd = EMPTY_BLOB_DIGEST ->
  final_validate (final_payload ev bd 0) = Ok tt.
Proof.
  intros Hn ->. destruct ev as [eid r at_ lane ch cand res st out inv]. cbn in Hn. unfold final_validate. cbn.
  by destruct eid, r.
Qed.

Section final_store.
Context {DG : Digester} {HD : HexDigester DG} (others : string -> option Contract) (cfg : Config) (c : FinalWindow).
Hypothesis no_secrets : redactor cfg = [].
Hypothesis served : others FINAL_INTERVAL_RECORDED = Some final_contract.

#[local] Instance final_contracts : Contracts := contracts others.
#[local] Instance final_log : EventLog World := store_log cfg.
#[local] Instance final_log_ok : EventLogOk World := store_log_ok cfg.

Lemma final_taken : facts_taken.
Proof using HD no_secrets served.
  intros ev Hn. change (taken cfg (final_event ev) ""). unfold taken, payload_of. rewrite no_secrets, redact_nothing, redact_fields_nothing.
  split; [|split; [done|by intros eid [= <-]]]. split.
  - exists final_contract. split; [exact served|]. apply (final_contract_accepts ev _ Hn). apply digest_empty.
  - done.
  - done.
  - intros [Ht _]. vm_compute in Ht. discriminate.
Qed.

Lemma final_named : names_given c.
Proof using HD.
  intros n r Hn. unfold fact_name in Hn. pose proof (digest_hex (fw_run c +:+ ":" +:+ str_int n +:+ ":" +:+ fact_value r)) as Hx. by rewrite Hn in Hx.
Qed.
End final_store.
