(* ===== verification/FinalSettlement.v ===== *)
(** The write authority of the final interval: its local transactions are reservations.

    [_settle_local] and [_abort] of [src/solver/final_interval.py] over
    [src/solver/write_reservation.py].  The callables that name the requests are the Run's. *)

From S2P Require Import Prelude Canon Text PyJson Reservation ReservationLogic ReservationFacts ReservationBytes ReservationWitness Moment FinalInterval.
Local Open Scope Z_scope.

Section settlement.
Context `{Digester} (faults : Faults) (redact : string -> string) (boot : string) (proof : list (string * json)).

Definition closed_state (s : ReservationState) : bool :=
  match s with COMMITTED | TERMINAL | RELEASED => true | _ => false end.

Definition settle_reserved (g : WriteReservation) (observation : json) : M unit :=
  found ← current_locked (key g);
  match found with
  | None => mret tt
  | Some current =>
      if closed_state (state current) then mret tt
      else
        committed ← (if bool_decide (state current = POSSIBLY_SENT) then
            refuse_indeterminate redact current "canonical final-interval event proves the local transaction"
          else if negb (bool_decide (state current = RESERVED)) then
            raise (EffectIndeterminate ("final interval transaction is already " +:+ state_value (state current)))
          else
            started ← start current;
            commit faults redact started observation);
        (if requires_receipt (retention committed) then write_receipt proof (key committed) else mret tt);;
        if retains_object (retention committed) then
          release_retained faults redact committed "final-interval transaction durably closed";; mret tt
        else mret tt
  end.

Definition abort_reserved (g : WriteReservation) (reason : string) : M unit :=
  found ← current_locked (key g);
  match found with
  | Some current => if bool_decide (state current = RESERVED) then abort_ faults redact current reason;; mret tt else mret tt
  | None => mret tt
  end.

(** The authority; [request_of] and [terminal_of] are what the Run reserves under a name. *)
#[local] Instance reserved_authority (request_of terminal_of : string -> Request) : FinalAuthority World WriteReservation := {|
  authority_present := true;
  reserve_named := fun name => reserve faults redact boot (request_of name);
  reserve_terminal := fun name => reserve faults redact boot (terminal_of name);
  grant_key := fun g => Some (key g);
  settle_local := settle_reserved;
  abort_local := abort_reserved |}.

(** ** Settling *)

(** The reservation is the latest of its key, in the state. *)
Definition stands (r : WriteReservation) (s : ReservationState) (rs : list Row) : Prop :=
  exists c, status (key r) rs = Some c /\ state c = s /\ effect_fingerprint c = effect_fingerprint r.

(** Moving the latest record of a key on. *)
Lemma runs_moved {B} rs0 rs es0 es k c r (m : M B) (Q : B -> list Row -> list string -> Prop) :
  keeps rs0 rs es0 es -> status k rs = Some c -> legal_next rs r -> key r = k ->
  (forall rs', keeps rs0 rs' es0 es -> status k rs' = Some (norm r) -> runs rs' es m Q (fun rs' es' => keeps rs0 rs' es0 es')) ->
  runs rs es (append_locked r None;; m) Q (fun rs' es' => keeps rs0 rs' es0 es').
Proof.
  intros Hk Hs Hn Hkey Hm. apply runs_bind, runs_append_kept; [done|done|]. intros n rs' Hk'. apply Hm; [done|].
  unfold rs'. rewrite status_snoc. cbn. by rewrite bool_decide_true.
Qed.

Lemma runs_local_start rs0 rs es0 es r :
  keeps rs0 rs es0 es -> stands r RESERVED rs ->
  runs rs es (start r) (fun a rs' es' => keeps rs0 rs' es0 es' /\ key a = key r /\ stands a STARTED rs')
    (fun rs' es' => keeps rs0 rs' es0 es').
Proof.
  intros Hk (c & Hs & Hst & Hf). unfold start. apply runs_fmap. unfold claim_start. apply runs_require; [done|]. intros c' Hs' Hf'.
  rewrite Hs in Hs'. injection Hs' as <-. rewrite bool_decide_true by done. pose proof (status_key _ _ _ Hs) as Hkey.
  eapply runs_moved; [done|exact Hs| |done|].
  - apply (legal_transition rs r); [done|]. split; [done|]. cbn. by rewrite Hst.
  - intros rs' Hk' Hs'. apply runs_ret. split; [done|]. split; [done|]. eexists. cbn. rewrite Hkey. split; [exact Hs'|done].
Qed.

Lemma runs_local_commit rs0 rs es0 es r obs :
  keeps rs0 rs es0 es -> stands r STARTED rs ->
  runs rs es (commit faults redact r obs) (fun a rs' es' => keeps rs0 rs' es0 es' /\ key a = key r /\ stands a COMMITTED rs')
    (fun rs' es' => keeps rs0 rs' es0 es').
Proof.
  intros Hk (c & Hs & Hst & Hf). unfold commit, finish. apply runs_require; [done|]. intros c' Hs' Hf'.
  rewrite Hs in Hs'. injection Hs' as <-. rewrite Hst. cbn [is_final]. rewrite (bool_decide_true (expected COMMITTED = Some STARTED)) by done.
  cbn [negb]. pose proof (status_key _ _ _ Hs) as Hkey. eapply runs_moved; [done|exact Hs| |done|].
  - apply (legal_transition rs r); [done|]. split; [done|]. cbn. by rewrite Hst.
  - intros rs' Hk' Hs'. apply runs_quiet_bind; [destruct (retains_object _); solve_quiet|done|intros []].
    apply runs_ret. split; [done|]. split; [done|]. eexists. cbn. rewrite Hkey. split; [exact Hs'|done].
Qed.

Lemma runs_refuse_sent rs0 rs es0 es r reason :
  keeps rs0 rs es0 es -> stands r POSSIBLY_SENT rs ->
  runs rs es (refuse_indeterminate redact r reason) (fun a rs' es' => keeps rs0 rs' es0 es' /\ key a = key r /\ stands a TERMINAL rs')
    (fun rs' es' => keeps rs0 rs' es0 es').
Proof.
  intros Hk (c & Hs & Hst & Hf). unfold refuse_indeterminate. apply runs_require; [done|]. intros c' Hs' Hf'.
  rewrite Hs in Hs'. injection Hs' as <-. rewrite Hst. cbn. pose proof (status_key _ _ _ Hs) as Hkey.
  eapply runs_moved; [done|exact Hs| |done|].
  - apply (legal_transition rs r); [done|]. split; [done|]. cbn. by rewrite Hst.
  - intros rs' Hk' Hs'. apply runs_ret. split; [done|]. split; [done|]. eexists. cbn. rewrite Hkey. split; [exact Hs'|done].
Qed.

Definition key_closed (k : string) (rs : list Row) : Prop :=
  match status k rs with Some c => closed_state (state c) = true | None => True end.

Lemma runs_release rs0 rs es0 es r s reason :
  keeps rs0 rs es0 es -> stands r s rs -> closed_state s = true ->
  runs rs es (release_retained faults redact r reason) (fun _ rs' es' => keeps rs0 rs' es0 es' /\ key_closed (key r) rs')
    (fun rs' es' => keeps rs0 rs' es0 es').
Proof.
  intros Hk (c & Hs & Hst & Hf) Hc. unfold release_retained. apply runs_require; [done|]. intros c' Hs' Hf'.
  rewrite Hs in Hs'. injection Hs' as <-. case_bool_decide as Hr.
  { apply runs_ret. split; [done|]. unfold key_closed. by rewrite Hs, Hst. }
  destruct (_ || _) eqn:E; [by apply runs_raise|]. apply orb_false_iff in E as [E1 E2]. bool_to_prop.
  pose proof (status_key _ _ _ Hs) as Hkey. eapply runs_moved; [done|exact Hs| |done|].
  - apply (legal_transition rs r); [done|]. split; [done|]. cbn. by destruct (state c).
  - intros rs' Hk' Hs'. apply runs_quiet_bind; [solve_quiet|done|intros ?]. apply runs_ret. split; [done|]. unfold key_closed. by rewrite Hs'.
Qed.

Lemma runs_local_settle rs es g obs :
  wf_rows rs -> lawful rs ->
  runs rs es (settle_reserved g obs) (fun _ rs' es' => keeps rs rs' es es' /\ key_closed (key g) rs') (fun rs' es' => keeps rs rs' es es').
Proof.
  intros Hwf Hl. pose proof (keeps_refl rs es Hwf Hl) as Hk. unfold settle_reserved. apply runs_current.
  destruct (status (key g) rs) as [c|] eqn:Es; [|apply runs_ret; split; [done|]; unfold key_closed; by rewrite Es].
  pose proof (status_key _ _ _ Es) as Hkey.
  destruct (closed_state (state c)) eqn:Ec; [apply runs_ret; split; [done|]; unfold key_closed; by rewrite Es|].
  assert (Hst : forall s, state c = s -> stands c s rs) by (intros s Hs; exists c; by rewrite Hkey).
  apply runs_bind. eapply (runs_weaken _ _ _ (fun a rs' es' => keeps rs rs' es es' /\ key a = key g
    /\ exists s, closed_state s = true /\ stands a s rs') _ (fun rs' es' => keeps rs rs' es es')); [..|done].
  - case_bool_decide as Ep.
    { eapply runs_weaken; [by apply (runs_refuse_sent rs); [|apply Hst]| |done]. cbn. intros a rs' es' (? & ? & ?).
      split; [done|]. split; [congruence|]. by exists TERMINAL. }
    case_bool_decide as Er; cbn [negb]; [|by apply runs_raise]. apply runs_bind.
    eapply runs_weaken; [by apply (runs_local_start rs); [|apply Hst]| |done]. cbn. intros a rs1 es1 (Hk1 & Hka & Hs1).
    eapply runs_weaken; [by apply (runs_local_commit rs)| |done]. cbn. intros a' rs' es' (? & ? & ?).
    split; [done|]. split; [congruence|]. by exists COMMITTED.
  - intros a rs1 es1 (Hk1 & Hka & s & Hs & Hsa).
    apply runs_quiet_bind; [destruct (requires_receipt _); [apply quiet_write_receipt|solve_quiet]|done|intros []].
    destruct (retains_object _).
    + apply runs_bind. eapply runs_weaken; [apply (runs_release rs rs1 es es1 a s _ Hk1 Hsa Hs)| |done]. cbn. intros _ rs2 es2 (Hk2 & Hc2). apply runs_ret.
      split; [done|]. by rewrite <-Hka.
    + apply runs_ret. split; [done|]. destruct Hsa as (c' & Hs' & <- & _). unfold key_closed. by rewrite <-Hka, Hs'.
Qed.
End settlement.

(** A local transaction settles once: when settling returns, its key has no reservation or a
    committed, terminal or released one, the ledger only grew and no effect ran; and settling it
    again, with any observation, changes nothing. *)
Theorem settlement_once `{Digester} faults redact proof (w w' : World) claims g obs obs' :
  reachable w claims -> settle_reserved faults redact proof g obs w = (w', Done tt) ->
  rows_locked (disk w) `prefix_of` rows_locked (disk w') /\ effects w' = effects w /\ key_closed (key g) (rows_locked (disk w'))
  /\ settle_reserved faults redact proof g obs' w' = (w', Done tt).
Proof.
  intros (Hwf & Hl & _)%reachable_sound Hrun.
  pose proof (runs_local_settle faults redact proof _ (effects w) g obs Hwf Hl w eq_refl eq_refl) as Hr. rewrite Hrun in Hr.
  destruct Hr as (((_ & _ & Hp) & He) & Hc). do 3 (split; [done|]).
  unfold settle_reserved, current_locked, mbind, M_bind, get, mret, M_ret. unfold key_closed, status in Hc. fold (latest_locked (disk w')) in Hc.
  destruct (dict_get (key g) (latest_locked (disk w'))) as [c|]; [by rewrite Hc|done].
Qed.

#[local] Existing Instance short_digester.

Definition granted : World * outcome WriteReservation :=
  reserve no_faults plain "boot-1" (plain_request "final-chance:lane-1" submit (capacity 20 1 3) SHARED RELEASE) (fresh 50).

Definition grant : option WriteReservation := match granted.2 with Done g => Some g | _ => None end.

Lemma settlement_once_witness :
  exists g w', grant = Some g /\ settle_reserved no_faults plain [] g (JObj [("state", JStr "spent")]) granted.1 = (w', Done tt)
    /\ states w' = [("final-chance:lane-1", RESERVED); ("final-chance:lane-1", STARTED); ("final-chance:lane-1", COMMITTED)]
    /\ settle_reserved no_faults plain [] g (JObj [("state", JStr "closed")]) w' = (w', Done tt).
Proof.
  destruct grant as [g|] eqn:Eg; [|vm_compute in Eg; discriminate]. exists g.
  assert (Hr : reachable granted.1 []).
  { assert (Hg : granted.1 = (run_op no_faults plain "boot-1" [] (OpReserve (plain_request "final-chance:lane-1" submit (capacity 20 1 3) SHARED RELEASE)) (fresh 50)).1)
      by (vm_compute; reflexivity).
    rewrite Hg. apply reach_op, reach_provision. }
  destruct (settle_reserved no_faults plain [] g (JObj [("state", JStr "spent")]) granted.1) as [w' r] eqn:Es.
  exists w'. assert (Hd : r = Done tt /\ states w' = [("final-chance:lane-1", RESERVED); ("final-chance:lane-1", STARTED); ("final-chance:lane-1", COMMITTED)]).
  { vm_compute in Eg. injection Eg as <-. vm_compute in Es. injection Es as <- <-. split; reflexivity. }
  destruct Hd as [-> Hst]. split; [reflexivity|]. split; [reflexivity|]. split; [exact Hst|].
  exact (proj2 (proj2 (proj2 (settlement_once no_faults plain [] granted.1 w' [] g (JObj [("state", JStr "spent")]) (JObj [("state", JStr "closed")]) Hr Es)))).
Defined.
