(* ===== verification/FinalWitness.v ===== *)
(** A Run's final interval: concrete histories at which its theorems apply, over the event store
    and over a log in memory. *)

From S2P Require Import Prelude Canon Text Moment MomentFormat Redaction RedactionFacts PyJson EventStore EventStoreLogic EventStoreFacts EventContracts ContractFacts EventLog StoreLog FenceStore StoreWitness FenceWitness FinalContracts FinalInterval FinalLogic FinalFacts FinalSteps FinalTheorems FinalStore.
Local Open Scope Z_scope.

#[local] Existing Instance marking_digester.

(** ** A log in memory *)

Definition memory_event (es : list CommittedEvent) (e : CanonicalEvent) (content : string) : CommittedEvent := {|
  sequence := last_sequence es + 1; previous_digest := ""; event_digest := ""; event_type := ev_type e;
  payload := ev_payload e EMPTY_BLOB_DIGEST (Z.of_nat (String.length content)); envelope := []; blob_digest := EMPTY_BLOB_DIGEST;
  blob_bytes := Z.of_nat (String.length content); body := content |}.

Definition same_name (e : CanonicalEvent) (c : CommittedEvent) : bool :=
  bool_decide (event_type c = ev_type e)
  && match event_id e with Some eid => bool_decide (get_or "event_id" JNull (payload c) = JStr eid) | None => false end.

Definition memory_append (e : CanonicalEvent) (content : string) : Prog (list CommittedEvent) CommittedEvent := fun es =>
  match py_next (same_name e) es with
  | Some c => (es, Done c)
  | None => (es ++ [memory_event es e content], Done (memory_event es e content))
  end.

#[local] Instance memory_log : EventLog (list CommittedEvent) := {|
  log_read := Ok; log_append := memory_append; log_receipt := fun _ _ => mret tt |}.

Lemma memory_entry es e content : entry_of es e content (memory_event es e content).
Proof. split; [done|by eexists _, _|done]. Qed.

#[local] Instance memory_log_ok : EventLogOk (list CommittedEvent).
Proof.
  refine {| log_sound := fun w es => w = es; log_damaged := fun _ => False; log_accepts := fun _ _ => True |}.
  - by intros w es ->.
  - intros w es e content eid -> _ Hid _ Hun. cbn. unfold memory_append. destruct (py_next _ _) as [c|] eqn:E.
    + apply py_next_Some in E as [Hin Hs]. unfold same_name in Hs. rewrite Hid in Hs. apply andb_true_iff in Hs as [Ht Hs]. bool_to_prop.
      by destruct (Hun c Hin Ht).
    + split; [apply memory_entry|done].
  - intros w es e content -> _. cbn. unfold memory_append. destruct (py_next _ _); [by left|right]. eexists. by split; [apply memory_entry|].
  - by intros w es name doc ->.
Defined.

(** ** A Run *)

(** A caller whose grants are names. *)
#[local] Instance plain_authority : FinalAuthority unit string := {|
  authority_present := false; reserve_named := fun name => mret name; reserve_terminal := fun name => mret name;
  grant_key := fun _ => None; settle_local := fun _ _ => mret tt; abort_local := fun _ _ => mret tt |}.

Definition at_second (s : Z) : moment := Moment (us_per_second * s) (Some 0).

(** Two hours, the last ten minutes of which are for submissions. *)
Definition demo_window : FinalWindow := {|
  fw_run := "run-1"; opened_at := at_second 0; ends_at := at_second 7200; reserve_seconds := 600; floor_seconds := 900;
  post_interval_us := 1000000; request_deadline_us := 30000000; uncertainty_margin_us := 5000000; enabled_lanes := ["lane-1"; "lane-2"] |}.

Lemma demo_named : names_given demo_window.
Proof. exact (final_named (HD := marking_hex) demo_window). Qed.

Lemma memory_taken : facts_taken (L := list CommittedEvent).
Proof. done. Qed.

Lemma window_leaves_time_witness :
  mode_at demo_window (at_second 6000) = FINAL_CHANCE /\ before (at_second 6000) (cutoff demo_window) = true.
Proof.
  split; [reflexivity|].
  destruct (window_leaves_time demo_window (at_second 6000) (at_second 6000) ltac:(reflexivity)) as (_ & _ & _ & H & _).
  apply H. reflexivity.
Defined.

Lemma read_same (l es : list CommittedEvent) : log_read l = Ok es -> l = es.
Proof. by intros [= ->]. Qed.

Section memory.
#[local] Abbreviation Interval_ := (FinalWorld (L := list CommittedEvent) (A := unit) (G := string)).

Definition interval_off (readings : list Z) : Interval_ := {|
  fw_log := []; fw_auth := tt; fw_clock := at_second <$> readings; fw_document := empty_document; fw_floor := at_second 0; fw_chances := [] |}.

Definition interval_on (readings : list Z) : Interval_ := (final_start demo_window (interval_off readings)).1.

Lemma interval_off_fresh readings : fresh_interval (interval_off readings).
Proof. exists []. split; [reflexivity|constructor]. Qed.

Lemma begins readings : rtc (final_step demo_window) (interval_off readings) (interval_on readings).
Proof. apply rtc_once. eapply (step_begin demo_window _ _ _ (surjective_pairing _)). intros []. Qed.

#[local] Abbreviation lane_admitted := (admit_final_chance (A := unit) (G := string) demo_window "lane-1" "web-1").

(** A Lane takes its final chance at the Challenge web-1. *)
Definition chance_taken : Interval_ := (lane_admitted (interval_on [5800; 5801; 5802])).1.

Lemma performs {B} (m : Prog Interval_ B) w : operation demo_window B m -> document_current w -> final_step demo_window w (m w).1.
Proof. intros Ho Hc. eapply (step_operation _ _ _ _ _ _ Ho Hc (surjective_pairing _)). intros []. Qed.

Lemma on_current readings : document_current (interval_on readings).
Proof. by eexists. Qed.

Lemma takes_chance : rtc (final_step demo_window) (interval_on [5800; 5801; 5802]) chance_taken.
Proof. apply rtc_once. apply performs; [constructor|apply on_current]. Qed.

Lemma interval_refines_witness :
  exists i1 i2, interval_at (interval_on [5800; 5801; 5802]) = Some i1 /\ interval_at chance_taken = Some i2
    /\ iv_le i1 i2 /\ iv_mode i2 = FINAL_CHANCE.
Proof.
  destruct (interval_refines demo_window memory_taken demo_named (interval_off [5800; 5801; 5802]) (interval_on [5800; 5801; 5802]) chance_taken
    (interval_off_fresh _) (begins _) takes_chance) as (i1 & i2 & H1 & H2 & _ & _ & Hle).
  exists i1, i2. split; [exact H1|]. split; [exact H2|]. split; [exact Hle|]. vm_compute in H2. injection H2 as <-. reflexivity.
Defined.

Lemma final_chance_once_witness :
  exists es, log_read (fw_log chance_taken) = Ok es /\ entitlements "lane-1" es = [CHANCE_RESERVED; CHANCE_SPENT] /\ Forall (spent_in_time demo_window) es.
Proof.
  destruct (final_chance_once demo_window memory_taken demo_named (interval_off [5800; 5801; 5802]) chance_taken "lane-1" (interval_off_fresh _)
    (transitivity (begins _) takes_chance)) as (es & Hr & _ & _ & Ht).
  exists es. split; [exact Hr|]. split; [|exact Ht]. rewrite <-(read_same _ _ Hr). vm_compute. reflexivity.
Defined.

Lemma admission_mode_exact_witness :
  "lane-1" ∈ enabled_lanes demo_window /\ (admission_mode demo_window "lane-1" (interval_on [5800])).2 = Done FINAL_CHANCE.
Proof.
  assert (Hr : (admission_mode demo_window "lane-1" (interval_on [5800])).2 = Done FINAL_CHANCE) by (vm_compute; reflexivity).
  split; [|exact Hr]. destruct (admission_mode_exact demo_window (interval_on [5800]) (admission_mode demo_window "lane-1" (interval_on [5800])).1
    "lane-1" FINAL_CHANCE) as [H _]; [|exact H]. rewrite <-Hr. apply surjective_pairing.
Defined.

(** ** Closing *)

Definition nothing_left : Prog (list CommittedEvent) RunInventory := mret {| in_attempts := []; in_instances := []; in_submissions := [] |}.
Definition all_released : Prog (list CommittedEvent) (list (string * string)) := mret [("run-cleanup", CLEANUP_RELEASED)].

Lemma idle_foreign {B} (b : B) : foreign (L := list CommittedEvent) (mret b).
Proof. intros l es ->. exists []. split; [constructor|]. symmetry. apply app_nil_r. Qed.

#[local] Abbreviation close_now := (close (A := unit) (G := string) demo_window nothing_left all_released false).
Definition run_closed : Interval_ := (close_now (interval_on [7200; 7300])).1.

Definition closing : fields := [
  ("closed_at", JStr "1970-01-01T02:00:00+00:00"); ("official_ends_at", JStr "1970-01-01T02:00:00+00:00");
  ("remaining", JObj [("attempts", JList []); ("instances", JList []); ("submissions", JList [])]);
  ("cleanup", JObj [("run-cleanup", JStr "released")]); ("disposition", JStr "closed")].

Lemma closes : close_now (interval_on [7200; 7300]) = (run_closed, Done closing).
Proof. unfold run_closed. apply ends_in. vm_compute. reflexivity. Qed.

Lemma closes_again : close_now run_closed = ((close_now run_closed).1, Done closing).
Proof. apply ends_in. vm_compute. reflexivity. Qed.

(** The five names of this log's facts and of a next one are told apart. *)
Definition fact_kinds : list FinalIntervalRecord := [
  TRANSITION; ENTITLEMENT_RESERVED; ENTITLEMENT_SPENT; ENTITLEMENT_CLOSED; DRAIN_REQUESTED; DRAIN_RESULT; SUBMISSION_RECONCILED;
  CLEANUP_REQUESTED; CLEANUP_RESULT; TERMINAL_INVENTORY].

Definition names_of (ordinal : Z) : list string := fact_name demo_window ordinal <$> fact_kinds.

Lemma name_of_kind ordinal r : fact_name demo_window ordinal r ∈ names_of ordinal.
Proof. apply list_elem_of_fmap_2. destruct r; set_solver. Qed.

Lemma names_told_apart : ~ colliding demo_window (fw_document run_closed).
Proof.
  intros (k & r & k' & r' & Hk & Hkk & Hk' & Heq).
  assert (Hlen : py_len (fd_trace (fw_document run_closed)) = 4) by (vm_compute; reflexivity). rewrite Hlen in Hk'.
  assert (Hall : List.forallb (fun k' => List.forallb (fun k => List.forallb (fun n => bool_decide (n ∉ names_of k)) (names_of k'))
      (List.filter (fun k => k <? k') [1; 2; 3; 4])) [2; 3; 4; 5] = true) by (vm_compute; reflexivity).
  rewrite List.forallb_forall in Hall. specialize (Hall k' ltac:(cbn; lia)). rewrite List.forallb_forall in Hall.
  specialize (Hall k ltac:(apply List.filter_In; split; [cbn; lia|lia])). rewrite List.forallb_forall in Hall.
  specialize (Hall _ (proj1 (list_elem_of_In _ _) (name_of_kind k' r'))). bool_to_prop. apply Hall. rewrite <-Heq. apply name_of_kind.
Qed.

Lemma close_settles_witness : document_current run_closed /\ settled closing (fw_document run_closed).
Proof.
  destruct (close_settles demo_window memory_taken demo_named (interval_off [7200; 7300]) (interval_on [7200; 7300]) run_closed
    nothing_left all_released false closing (interval_off_fresh _) (begins _) (on_current _) (idle_foreign _) (idle_foreign _)
    ltac:(left; reflexivity) closes) as [Hcur [Hset|Hcol]]; [exact (conj Hcur Hset)|destruct (names_told_apart Hcol)].
Defined.

Lemma close_again_same_witness : closing = closing /\ fw_document (close_now run_closed).1 = fw_document run_closed.
Proof.
  assert (Hcur : document_current run_closed) by (exists (fw_log run_closed); split; [reflexivity|vm_compute; reflexivity]).
  destruct (close_again_same demo_window memory_taken demo_named (interval_off [7200; 7300]) (interval_on [7200; 7300]) run_closed run_closed
    (close_now run_closed).1 nothing_left all_released false closing nothing_left all_released false closing (interval_off_fresh _) (begins _)
    (on_current _) (idle_foreign _) (idle_foreign _) closes (rtc_refl _ _) Hcur (idle_foreign _) (idle_foreign _) closes_again)
    as [H|Hcol]; [exact H|destruct (names_told_apart Hcol)].
Defined.

(** ** The drain *)

Definition rejects (candidate : string) : Prog (list CommittedEvent) SubmitAnswer := mret (Sent "rejected").

Definition drained : Interval_ := (drain demo_window ["flag-1"] rejects (interval_on [6700; 6701; 6702; 6703; 6704; 6705])).1.

Lemma drain_settled_witness :
  (drain demo_window ["flag-1"] rejects drained).2 = Done ["rejected"]
  /\ fw_log (drain demo_window ["flag-1"] rejects drained).1 = fw_log drained.
Proof.
  split; [vm_compute; reflexivity|].
  assert (Hall : forall x, x ∈ ["flag-1"] -> dict_get x (fd_submissions (fw_document drained)) <> None).
  { intros x ->%list_elem_of_singleton. vm_compute. discriminate. }
  pose proof (drain_settled demo_window ["flag-1"] rejects drained Hall) as H.
  destruct (drain demo_window ["flag-1"] rejects drained) as [w' r]. exact (proj1 H).
Defined.

(** A Candidate listed twice is submitted twice: the drain looks at the submissions it began with. *)
Lemma drain_repeats :
  exists w', drain demo_window ["flag-1"; "flag-1"] rejects (interval_on [6700; 6701; 6702; 6703; 6704; 6705; 6706]) = (w', Done ["rejected"; "rejected"])
    /\ length (List.filter (fun e => bool_decide (get_or "record" JNull (payload e) = JStr "drain-result")) (fw_log w')) = 2%nat.
Proof. eexists. vm_compute. split; reflexivity. Qed.
End memory.

(** ** A document that is not the replay of the log

    A log in memory whose appends may raise once the event is stored: the first part lists, append by
    append, which ones do. *)
Definition flaky_append (e : CanonicalEvent) (content : string) : Prog (list bool * list CommittedEvent) CommittedEvent := fun l =>
  match memory_append e content l.2 with
  | (es, r) => ((tail l.1, es), if default false (head l.1) then Raised (OSError "raised after the commit") else r)
  end.

#[local] Instance flaky_log : EventLog (list bool * list CommittedEvent) := {|
  log_read := fun l => Ok l.2; log_append := flaky_append; log_receipt := fun _ _ => mret tt |}.

#[local] Instance flaky_log_ok : EventLogOk (list bool * list CommittedEvent).
Proof.
  refine {| log_sound := fun w es => w.2 = es; log_damaged := fun _ => False; log_accepts := fun _ _ => True |}.
  - by intros w es <-.
  - intros [flags l] es e content eid <- Ha Hid Hi Hun. pose proof (log_append_sound l l e content eid eq_refl Ha Hid Hi Hun) as Hs.
    cbn in *. unfold flaky_append. cbn. unfold memory_append in *. destruct (py_next (same_name e) l), (head flags) as [[]|]; cbn; naive_solver.
  - intros [flags l] es e content <- Ha. cbn. unfold flaky_append, memory_append. cbn.
    destruct (find (same_name e) l), (head flags) as [[]|]; cbn; first [by left|right; try left; eexists; by split; [apply memory_entry|]].
  - by intros w es name doc <-.
Defined.

Section flaky.
#[local] Abbreviation Flaky := (FinalWorld (L := list bool * list CommittedEvent) (A := unit) (G := string)).

(** A controller in the final-chance part of its Run, started over an empty log. *)
Definition flaky_on (flags : list bool) : Flaky := (final_start demo_window {|
  fw_log := (flags, []); fw_auth := tt; fw_clock := at_second <$> seqZ 5800 20; fw_document := empty_document; fw_floor := at_second 0;
  fw_chances := [] |}).1.

#[local] Abbreviation reserve_ := (reserve_final_chance (L := list bool * list CommittedEvent) (A := unit) (G := string) demo_window).
#[local] Abbreviation admit_ := (admit_final_chance (L := list bool * list CommittedEvent) (A := unit) (G := string) demo_window).

(** The append of the reservation raises after its commit; the same process tries again: its document
    does not have the first reservation, and the log gets a second one of the one chance. *)
Example stale_chance_twice :
  let first := reserve_ "lane-1" "web-1" (flaky_on [false; true]) in
  let again := reserve_ "lane-1" "web-1" first.1 in
  first.2 = Raised (OSError "raised after the commit")
  /\ (exists grant, again.2 = Done (Some grant)) /\ entitlements "lane-1" (fw_log again.1).2 = [CHANCE_RESERVED; CHANCE_RESERVED].
Proof. vm_compute. split; [reflexivity|]. split; [eexists; reflexivity|reflexivity]. Qed.

(** The append of the spending raises after its commit; the same process spends the chance again,
    on another Challenge, and the replay of the log follows it. *)
Example stale_chance_moves :
  let first := admit_ "lane-1" "web-1" (flaky_on [false; false; true]) in
  let again := admit_ "lane-1" "pwn-1" first.1 in
  first.2 = Raised (OSError "raised after the commit")
  /\ ((i ← interval_at first.1; dict_get "lane-1" (iv_chances i)) = Some {| ch_challenge := "web-1"; ch_state := CHANCE_SPENT |})
  /\ (exists grant, again.2 = Done (Some grant))
  /\ ((i ← interval_at again.1; dict_get "lane-1" (iv_chances i)) = Some {| ch_challenge := "pwn-1"; ch_state := CHANCE_SPENT |}).
Proof. vm_compute. split; [reflexivity|]. split; [reflexivity|]. split; [eexists; reflexivity|reflexivity]. Qed.
End flaky.
