(* ===== verification/FinalReceipt.v ===== *)
(** The checks a reader makes of a final-interval receipt.

    [verify_receipt] of [src/solver/final_interval_receipt.py].  A receipt is any document; what
    Python raises while reading one is an error here. *)

From S2P Require Import Prelude Canon Text Moment MomentFormat PyJson EventStore EventContracts FinalContracts FinalInterval.
Local Open Scope Z_scope.

(** ** Python on documents *)

Definition hashable (j : json) : bool := match j with JList _ | JObj _ => false | _ => true end.

(** [len(l) == len(set(l))]. *)
Definition all_distinct (l : list json) : result bool :=
  raise_unless (py_all hashable l) (TypeError "unhashable type");;
  Ok (bool_decide (NoDup (py_norm <$> l))).

(** [x in l]. *)
Definition among (x : json) (l : list json) : bool := py_any (py_eqb x) l.

(** [a < b], which an aware and a naive moment do not answer. *)
Definition moment_lt (a b : moment) : result bool :=
  raise_unless (Bool.eqb (naive a) (naive b)) (TypeError "can't compare offset-naive and offset-aware datetimes");;
  Ok (before a b).

Definition moment_le (a b : moment) : result bool := lt ← moment_lt b a; Ok (negb lt).

Definition event_text (name : string) (row : fields) : string := py_str (get_or name (JStr "") row).

(** [set(d) == names]. *)
Definition exact_keys (names : list string) (d : fields) : bool :=
  py_all (fun kv => one_of kv.1 names) d && py_all (fun n => dict_has n d) names.

Definition as_obj (j : json) : option fields := match j with JObj fs => Some fs | _ => None end.
Definition as_list (j : json) : option (list json) := match j with JList l => Some l | _ => None end.

(** ** Shape *)

Record ReceiptShape : Type := {
  rs_opened : moment;
  rs_cutoff : moment;
  rs_ends : moment;
  rs_floor : Z;
  rs_lanes : list json;
  rs_chances : fields;
  rs_submissions : fields;
  rs_terminal : json;
  rs_trace : list json
}.

Definition final_receipt_fields : list string :=
  ["schema_version"; "kind"; "producer"; "run_id"; "window"; "enabled_lanes"; "final_chances"; "submissions"; "terminal"; "trace";
   "trace_digest"].

Definition window_moment (name : string) (window : fields) : result moment := v ← item name window; fromisoformat (py_str v).

(** A positive number that is no truth value. *)
Definition positive_number (j : json) : bool := match j with JInt n => 0 <? n | _ => false end.

Definition bad_boundaries : exn := ValueError "final-interval boundaries are invalid".

Definition validate_boundaries (opened cutoff_ ends : moment) (window : fields) : result Z :=
  first ← moment_lt opened cutoff_;
  raise_unless first bad_boundaries;;
  second ← moment_lt cutoff_ ends;
  raise_unless second bad_boundaries;;
  let reserve := as_int (get_or "reserve_seconds" JNull window) in
  raise_unless (match reserve with Some n => us_between ends cutoff_ =? us_per_second * n | None => false end) bad_boundaries;;
  floor ← match get_or "attempt_floor_seconds" JNull window with JInt n => Ok n | _ => Err bad_boundaries end;
  raise_if (floor <=? 0) bad_boundaries;;
  raise_unless (py_all (fun n => positive_number (get_or n JNull window))
    ["account_post_interval_seconds"; "submission_request_deadline_seconds"; "submission_uncertainty_margin_seconds"]) bad_boundaries;;
  raise_if (match as_int (get_or "submission_request_deadline_seconds" JNull window),
              as_int (get_or "submission_uncertainty_margin_seconds" JNull window), reserve with
            | Some d, Some u, Some n => n <=? d + u
            | _, _, _ => true
            end) bad_boundaries;;
  Ok floor.

Section digests.
Context `{Digester}.

Definition validate_receipt_shape (receipt : fields) : result ReceiptShape :=
  raise_unless (exact_keys final_receipt_fields receipt && py_eqb (get_or "schema_version" JNull receipt) (JInt 2)
      && py_eqb (get_or "kind" JNull receipt) (JStr "final-interval"))
    (ValueError "final-interval receipt shape is invalid");;
  window ← match as_obj (get_or "window" JNull receipt) with Some w => Ok w | None => Err (ValueError "final-interval window is invalid") end;
  opened ← window_moment "opened_at" window;
  cutoff_ ← window_moment "final_submission_cutoff" window;
  ends ← window_moment "ends_at" window;
  floor ← validate_boundaries opened cutoff_ ends window;
  let bad_ledger := ValueError "final-chance ledger is invalid" in
  lanes ← match as_list (get_or "enabled_lanes" JNull receipt) with Some l => Ok l | None => Err bad_ledger end;
  raise_if (bool_decide (lanes = [])) bad_ledger;;
  distinct ← all_distinct lanes;
  raise_unless distinct bad_ledger;;
  chances ← match as_obj (get_or "final_chances" JNull receipt) with Some c => Ok c | None => Err bad_ledger end;
  raise_unless (py_all (fun kv => among (JStr kv.1) lanes) chances) bad_ledger;;
  submissions ← match as_obj (get_or "submissions" JNull receipt) with
    | Some s => Ok s
    | None => Err (ValueError "final-interval submission projection is invalid")
    end;
  trace ← match as_list (get_or "trace" JNull receipt) with Some l => Ok l | None => Err (ValueError "final-interval trace is invalid") end;
  raise_unless (py_eqb (JStr (digest (JList trace))) (get_or "trace_digest" JNull receipt)) (ValueError "final-interval trace is invalid");;
  Ok {| rs_opened := opened; rs_cutoff := cutoff_; rs_ends := ends; rs_floor := floor; rs_lanes := lanes; rs_chances := chances;
        rs_submissions := submissions; rs_terminal := get_or "terminal" JNull receipt; rs_trace := trace |}.
End digests.

(** ** Replaying the trace *)

Record TraceState : Type := {
  ts_transitions : list (AdmissionMode * Z);
  ts_chances : list (string * list fields);
  ts_drains : list (string * list string);
  ts_authorities : list (string * string);
  ts_submissions : list (string * Submitted);
  ts_cleanup : list (string * string);
  ts_history : list (string * list string);
  ts_terminals : list fields;
  ts_requests : Z;
  ts_authority : string;
  ts_targets : list string;
  ts_prior : moment;
  ts_rank : Z
}.

(** The Lanes that are texts; the others never occur in a trace. *)
Definition lane_texts (lanes : list json) : list string := omap as_str lanes.

Definition trace_start (s : ReceiptShape) : TraceState := {|
  ts_transitions := []; ts_chances := (fun l => (l, [])) <$> lane_texts (rs_lanes s); ts_drains := []; ts_authorities := [];
  ts_submissions := []; ts_cleanup := []; ts_history := []; ts_terminals := []; ts_requests := 0; ts_authority := ""; ts_targets := [];
  ts_prior := rs_opened s; ts_rank := -1 |}.

(** The transition to [m] came before the row at [index]. *)
Definition came_before (m : AdmissionMode) (index : Z) (st : TraceState) : bool :=
  match dict_get m (ts_transitions st) with Some i => i <? index | None => false end.

Definition add_to {A} (k : string) (v : A) (d : list (string * list A)) : list (string * list A) := dict_set k (default [] (dict_get k d) ++ [v]) d.

Definition with_prior (at_ : moment) (st : TraceState) : TraceState := {|
  ts_transitions := ts_transitions st; ts_chances := ts_chances st; ts_drains := ts_drains st; ts_authorities := ts_authorities st;
  ts_submissions := ts_submissions st; ts_cleanup := ts_cleanup st; ts_history := ts_history st; ts_terminals := ts_terminals st;
  ts_requests := ts_requests st; ts_authority := ts_authority st; ts_targets := ts_targets st; ts_prior := at_; ts_rank := ts_rank st |}.

Definition floor_moment (s : ReceiptShape) : moment := plus_seconds (rs_cutoff s) (- rs_floor s).

Definition replay_transition (s : ReceiptShape) (index : Z) (at_ : moment) (row : fields) (st : TraceState) : result TraceState :=
  mode ← match mode_of (event_text "state" row) with Some m => Ok m | None => Err (ValueError "final-interval transition is invalid") end;
  raise_if (bool_decide (mode = ORDINARY) || (mode_rank mode <=? ts_rank st)) (ValueError "final-interval transition is not monotone");;
  (if bool_decide (mode = FINAL_CHANCE) then
     after ← moment_lt (floor_moment s) at_;
     raise_unless after (ValueError "final-chance transition clock is invalid");;
     early ← moment_lt at_ (rs_cutoff s);
     raise_unless early (ValueError "final-chance transition clock is invalid")
   else Ok tt);;
  (if bool_decide (mode = SUBMISSION_RESERVE) then
     after ← moment_le (rs_cutoff s) at_;
     raise_unless after (ValueError "submission-reserve transition clock is invalid");;
     early ← moment_lt at_ (rs_ends s);
     raise_unless early (ValueError "submission-reserve transition clock is invalid")
   else Ok tt);;
  Ok {| ts_transitions := dict_set mode index (ts_transitions st); ts_chances := ts_chances st; ts_drains := ts_drains st;
        ts_authorities := ts_authorities st; ts_submissions := ts_submissions st; ts_cleanup := ts_cleanup st; ts_history := ts_history st;
        ts_terminals := ts_terminals st; ts_requests := ts_requests st; ts_authority := ts_authority st; ts_targets := ts_targets st;
        ts_prior := ts_prior st; ts_rank := mode_rank mode |}.

Definition bad_chance_clock : exn := ValueError "final-chance clock is invalid".

Definition replay_entitlement (s : ReceiptShape) (index : Z) (at_ : moment) (record : FinalIntervalRecord) (row : fields) (st : TraceState) :
    result TraceState :=
  let lane := event_text "lane_id" row in
  raise_unless (dict_has lane (ts_chances st)) (ValueError "final-chance trace names a disabled Lane");;
  raise_unless (came_before FINAL_CHANCE index st) (ValueError "final chance lacks its transition");;
  (if bool_decide (record = ENTITLEMENT_CLOSED) then Ok tt
   else
     after ← moment_le (floor_moment s) at_;
     raise_unless after bad_chance_clock;;
     late ← moment_le (rs_cutoff s) at_;
     raise_if late bad_chance_clock);;
  Ok {| ts_transitions := ts_transitions st; ts_chances := add_to lane row (ts_chances st); ts_drains := ts_drains st;
        ts_authorities := ts_authorities st; ts_submissions := ts_submissions st; ts_cleanup := ts_cleanup st; ts_history := ts_history st;
        ts_terminals := ts_terminals st; ts_requests := ts_requests st; ts_authority := ts_authority st; ts_targets := ts_targets st;
        ts_prior := ts_prior st; ts_rank := ts_rank st |}.

Definition all_dispositions : list string := [ACCEPTED; REJECTED; REFUSED_AND_SPENT; POSSIBLY_SENT_; UNKNOWN_AND_SPENT].

Definition bad_drain_authority : exn := ValueError "Candidate drain authority is invalid".

Definition replay_drain (s : ReceiptShape) (index : Z) (at_ : moment) (record : FinalIntervalRecord) (row : fields) (st : TraceState) :
    result TraceState :=
  let candidate := event_text "candidate_id" row in
  raise_if (bool_decide (candidate = "")) (ValueError "Candidate drain trace is invalid");;
  raise_unless (came_before SUBMISSION_RESERVE index st) (ValueError "Candidate drain lacks its transition");;
  let reservation := event_text "reservation_id" row in
  raise_if (bool_decide (reservation = "")) bad_drain_authority;;
  (if bool_decide (record = DRAIN_REQUESTED) then
     after ← moment_le (rs_cutoff s) at_;
     raise_unless after (ValueError "Candidate drain clock is invalid");;
     early ← moment_lt at_ (rs_ends s);
     raise_unless early (ValueError "Candidate drain clock is invalid")
   else raise_unless (bool_decide (dict_get candidate (ts_authorities st) = Some reservation)) bad_drain_authority);;
  submissions ← (if bool_decide (record = DRAIN_REQUESTED) then Ok (ts_submissions st)
    else
      let outcome := event_text "outcome" row in
      raise_unless (one_of outcome all_dispositions) (ValueError "Candidate submission projection is invalid");;
      raise_if (bool_decide (record = SUBMISSION_RECONCILED)
          && (bool_decide (outcome = POSSIBLY_SENT_)
              || negb (bool_decide (sb_outcome <$> dict_get candidate (ts_submissions st) = Some POSSIBLY_SENT_))))
        (ValueError "Candidate reconciliation trace is invalid");;
      Ok (dict_set candidate {| sb_outcome := outcome; sb_observed_at := isoformat at_ |} (ts_submissions st)));
  Ok {| ts_transitions := ts_transitions st; ts_chances := ts_chances st; ts_drains := add_to candidate (fact_value record) (ts_drains st);
        ts_authorities := if bool_decide (record = DRAIN_REQUESTED) then dict_set candidate reservation (ts_authorities st) else ts_authorities st;
        ts_submissions := submissions; ts_cleanup := ts_cleanup st; ts_history := ts_history st; ts_terminals := ts_terminals st;
        ts_requests := ts_requests st; ts_authority := ts_authority st; ts_targets := ts_targets st; ts_prior := ts_prior st;
        ts_rank := ts_rank st |}.

Definition valid_cleanup_identity (identity : string) : bool :=
  bool_decide (identity = "run-cleanup")
  || py_any (fun prefix => match strip_prefix prefix identity with Some rest => negb (bool_decide (rest = "")) | None => false end)
       ["attempt:"; "instance:"].

Definition bad_request : exn := ValueError "cleanup request lacks its closed transition".

Definition replay_request (index : Z) (row : fields) (st : TraceState) : result TraceState :=
  raise_unless (came_before MODE_CLOSED index st && truthy (get_or "reservation_id" JNull row)) bad_request;;
  targets ← match as_obj (get_or "inventory" JNull row) with
    | Some inventory => match as_list (get_or "targets" JNull inventory) with Some l => Ok l | None => Err bad_request end
    | None => Err bad_request
    end;
  raise_unless (negb (bool_decide (targets = [])) && among (JStr "run-cleanup") targets) bad_request;;
  distinct ← all_distinct targets;
  raise_unless (distinct && py_all (fun t => valid_cleanup_identity (py_str t)) targets) bad_request;;
  Ok {| ts_transitions := ts_transitions st; ts_chances := ts_chances st; ts_drains := ts_drains st; ts_authorities := ts_authorities st;
        ts_submissions := ts_submissions st; ts_cleanup := ts_cleanup st; ts_history := ts_history st; ts_terminals := ts_terminals st;
        ts_requests := ts_requests st + 1; ts_authority := event_text "reservation_id" row; ts_targets := py_str <$> targets;
        ts_prior := ts_prior st; ts_rank := ts_rank st |}.

Definition replay_result (row : fields) (st : TraceState) : result TraceState :=
  raise_unless (ts_requests st =? 1) (ValueError "cleanup result lacks its request");;
  let target := event_text "challenge_id" row in
  let outcome := event_text "outcome" row in
  raise_unless (bool_decide (event_text "reservation_id" row = ts_authority st) && one_of target (ts_targets st)
      && one_of outcome [CLEANUP_RELEASED; CLEANUP_UNSETTLED])
    (ValueError "cleanup result is invalid");;
  Ok {| ts_transitions := ts_transitions st; ts_chances := ts_chances st; ts_drains := ts_drains st; ts_authorities := ts_authorities st;
        ts_submissions := ts_submissions st; ts_cleanup := dict_set target outcome (ts_cleanup st);
        ts_history := add_to target outcome (ts_history st); ts_terminals := ts_terminals st; ts_requests := ts_requests st;
        ts_authority := ts_authority st; ts_targets := ts_targets st; ts_prior := ts_prior st; ts_rank := ts_rank st |}.

Definition replay_terminal (s : ReceiptShape) (index : Z) (row : fields) (st : TraceState) : result TraceState :=
  raise_unless ((ts_requests st =? 1) && (index =? py_len (rs_trace s) - 1)
      && py_eqb (get_or "reservation_id" JNull row) (JStr (ts_authority st)))
    (ValueError "terminal inventory lacks its cleanup request");;
  inventory ← match as_obj (get_or "inventory" JNull row) with
    | Some i => Ok i
    | None => Err (ValueError "final-interval terminal projection is invalid")
    end;
  Ok {| ts_transitions := ts_transitions st; ts_chances := ts_chances st; ts_drains := ts_drains st; ts_authorities := ts_authorities st;
        ts_submissions := ts_submissions st; ts_cleanup := ts_cleanup st; ts_history := ts_history st;
        ts_terminals := ts_terminals st ++ [inventory]; ts_requests := ts_requests st; ts_authority := ts_authority st;
        ts_targets := ts_targets st; ts_prior := ts_prior st; ts_rank := ts_rank st |}.

Definition bad_clock : exn := ValueError "final-interval trace clock is invalid".

Definition replay_row (s : ReceiptShape) (index : Z) (event : json) (st : TraceState) : result TraceState :=
  row ← match as_obj event with Some r => Ok r | None => Err (ValueError "final-interval trace is invalid") end;
  at_ ← match fromisoformat (event_text "observed_at" row) with Ok m => Ok m | Err _ => Err bad_clock end;
  back ← moment_lt at_ (ts_prior st);
  raise_if back bad_clock;;
  record ← match fact_of (event_text "record" row) with Some r => Ok r | None => Err (ValueError "final-interval trace record is invalid") end;
  let st := with_prior at_ st in
  match record with
  | TRANSITION => replay_transition s index at_ row st
  | ENTITLEMENT_RESERVED | ENTITLEMENT_SPENT | ENTITLEMENT_CLOSED => replay_entitlement s index at_ record row st
  | DRAIN_REQUESTED | DRAIN_RESULT | SUBMISSION_RECONCILED => replay_drain s index at_ record row st
  | CLEANUP_REQUESTED => replay_request index row st
  | CLEANUP_RESULT => replay_result row st
  | TERMINAL_INVENTORY => replay_terminal s index row st
  end.

Fixpoint replay_rows (s : ReceiptShape) (index : Z) (events : list json) (st : TraceState) : result TraceState :=
  match events with
  | [] => Ok st
  | e :: rest => st ← replay_row s index e st; replay_rows s (index + 1) rest st
  end.

Definition replay_trace (s : ReceiptShape) : result TraceState := replay_rows s 0 (rs_trace s) (trace_start s).

(** ** The projections *)

Definition chance_records : list (list string) :=
  [["entitlement-reserved"; "entitlement-spent"]; ["entitlement-reserved"; "entitlement-closed"]].

Definition bad_chance_state : exn := ValueError "final-chance trace state is invalid".

(** The two facts of a Lane that took its chance. *)
Definition validate_pair (chances : fields) (lane : string) (first last : fields) : result unit :=
  raise_if (bool_decide (event_text "reservation_id" first = "") || bool_decide (event_text "reservation_id" last = "")
      || negb (bool_decide (event_text "reservation_id" first = event_text "reservation_id" last)))
    (ValueError "final-chance trace has inconsistent authority");;
  let state := get_or "state" JNull last in
  raise_unless (py_eqb (get_or "state" JNull first) (JStr CHANCE_RESERVED) && bool_decide (event_text "challenge_id" first = "")) bad_chance_state;;
  raise_unless (hashable state) (TypeError "unhashable type");;
  raise_unless (py_eqb state (JStr CHANCE_SPENT) || py_eqb state (JStr CHANCE_CLOSED)) bad_chance_state;;
  raise_if (py_eqb state (JStr CHANCE_SPENT) && bool_decide (event_text "challenge_id" last = "")) bad_chance_state;;
  raise_if (py_eqb state (JStr CHANCE_CLOSED) && negb (bool_decide (event_text "challenge_id" last = ""))) bad_chance_state;;
  raise_unless (py_eqb (get_or lane JNull chances)
      (JObj [("challenge_id", JStr (event_text "challenge_id" last)); ("state", JStr (event_text "state" last))]))
    (ValueError "final-chance trace contradicts its ledger").

Definition validate_chance (chances : fields) (lane : string) (events : list fields) : result unit :=
  match events with
  | [] => raise_if (dict_has lane chances) (ValueError "final-chance ledger lacks its trace")
  | first :: rest =>
      raise_unless (bool_decide ((event_text "record" <$> events) ∈ chance_records)) (ValueError "final-chance trace is not zero-or-one");;
      match rest with
      | [last] => validate_pair chances lane first last
      | _ => Ok tt
      end
  end.

Fixpoint validate_chances (chances : fields) (d : list (string * list fields)) : result unit :=
  match d with [] => Ok tt | (lane, events) :: d => validate_chance chances lane events;; validate_chances chances d end.

Definition drain_records : list (list string) :=
  [["drain-requested"]; ["drain-requested"; "drain-result"]; ["drain-requested"; "drain-result"; "submission-reconciled"]].

Definition validate_trace_projection (s : ReceiptShape) (st : TraceState) : result unit :=
  validate_chances (rs_chances s) (ts_chances st);;
  raise_unless (py_all (fun kv => bool_decide (kv.2 ∈ drain_records)) (ts_drains st)) (ValueError "Candidate drain trace is not replay-monotone").

Definition submissions_json (l : list (string * Submitted)) : json := JObj ((fun kv => (kv.1, submitted_json kv.2)) <$> l).

Definition validate_submission_projection (s : ReceiptShape) (st : TraceState) : result unit :=
  raise_unless (py_eqb (JObj (rs_submissions s)) (submissions_json (ts_submissions st)))
    (ValueError "final-interval submission projection contradicts its trace").

(** ** The end of the Run *)

Definition cleanup_histories : list (list string) := [[CLEANUP_RELEASED]; [CLEANUP_UNSETTLED]; [CLEANUP_UNSETTLED; CLEANUP_RELEASED]].

Definition bad_terminal : exn := ValueError "final-interval terminal projection is invalid".

(** The lists of the remaining inventory, each without repetition. *)
Fixpoint distinct_lists (remaining : fields) : result unit :=
  match remaining with
  | [] => Ok tt
  | (_, v) :: rest =>
      l ← match as_list v with Some l => Ok l | None => Err bad_terminal end;
      d ← all_distinct l;
      raise_unless d bad_terminal;;
      distinct_lists rest
  end.

Definition remaining_list (name : string) (remaining : fields) : list json := default [] (as_list (get_or name JNull remaining)).

Definition is_released (j : json) : bool := py_eqb j (JStr CLEANUP_RELEASED).

Definition cleanup_json (l : list (string * string)) : json := JObj ((fun kv => (kv.1, JStr kv.2)) <$> l).

(** What is left of a kind was a target, and a target of the kind is released exactly when it is not left. *)
Definition validate_left (kind : string) (left_ : list json) (targets : list string) (cleanup : fields) : result unit :=
  raise_if (py_any (fun i => negb (one_of (kind +:+ ":" +:+ py_str i) targets)) left_)
    (ValueError "terminal inventory contains an unauthorized cleanup target");;
  raise_if (py_any (fun kv => match strip_prefix (kind +:+ ":") kv.1 with
      | Some rest => Bool.eqb (is_released kv.2) (among (JStr rest) left_)
      | None => false
      end) cleanup)
    (ValueError "cleanup outcome contradicts terminal inventory").

Definition possibly_sent_rows (submissions : fields) : result (list string) :=
  map_result (fun kv => match as_obj kv.2 with
    | Some row => Ok (kv.1, py_eqb (get_or "outcome" JNull row) (JStr POSSIBLY_SENT_))
    | None => Err (TypeError "submission row")
    end) submissions ≫= fun l => Ok ((List.filter snd l).*1).

Definition terminal_fields : list string := ["closed_at"; "official_ends_at"; "remaining"; "cleanup"; "disposition"].

Definition validate_terminal (s : ReceiptShape) (st : TraceState) : result unit :=
  raise_unless (ts_requests st =? 1) (ValueError "final-interval cleanup request is invalid");;
  raise_unless (py_all (fun kv => bool_decide (kv.2 ∈ cleanup_histories)) (ts_history st)) (ValueError "cleanup result is not replay-monotone");;
  raise_unless (dict_has MODE_CLOSED (ts_transitions st)) (ValueError "final-interval closed transition is absent");;
  let contradicts := ValueError "final-interval terminal projection contradicts its trace" in
  terminal ← match ts_terminals st, as_obj (rs_terminal s) with
    | [projected], Some terminal => raise_unless (py_eqb (JObj terminal) (JObj projected)) contradicts;; Ok terminal
    | _, _ => Err contradicts
    end;
  raise_unless (exact_keys terminal_fields terminal) bad_terminal;;
  raise_unless (py_eqb (get_or "official_ends_at" JNull terminal) (JStr (isoformat (rs_ends s)))) bad_terminal;;
  closed_at ← fromisoformat (event_text "closed_at" terminal);
  after ← moment_le (rs_opened s) closed_at;
  raise_unless after bad_terminal;;
  early ← moment_le closed_at (rs_ends s);
  raise_unless early bad_terminal;;
  remaining ← match as_obj (get_or "remaining" JNull terminal) with Some r => Ok r | None => Err bad_terminal end;
  raise_unless (exact_keys ["attempts"; "instances"; "submissions"] remaining) bad_terminal;;
  distinct_lists remaining;;
  cleanup ← match as_obj (get_or "cleanup" JNull terminal) with Some c => Ok c | None => Err bad_terminal end;
  raise_unless (py_eqb (JObj cleanup) (cleanup_json (ts_cleanup st)) && exact_keys (ts_targets st) cleanup) bad_terminal;;
  raise_unless (py_eqb (get_or "disposition" JNull terminal)
      (JStr (if py_any (fun kv => negb (is_released kv.2)) cleanup then CLOSED_WITH_UNSETTLED_CLEANUP else RUN_CLOSED))) bad_terminal;;
  sent ← possibly_sent_rows (rs_submissions s);
  raise_unless (py_all (fun c => among (JStr c) (remaining_list "submissions" remaining)) sent) bad_terminal;;
  validate_left "attempt" (remaining_list "attempts" remaining) (ts_targets st) cleanup;;
  validate_left "instance" (remaining_list "instances" remaining) (ts_targets st) cleanup.

Definition verify_receipt `{Digester} (receipt : fields) : result unit :=
  shape ← validate_receipt_shape receipt;
  state ← replay_trace shape;
  validate_trace_projection shape state;;
  validate_submission_projection shape state;;
  validate_terminal shape state.
