(* ===== verification/FinalReceiptFacts.v ===== *)
(** A final-interval receipt that verifies says what its trace replays to. *)

From Stdlib Require Import Ascii.
From S2P Require Import Prelude Canon Text Moment MomentFormat PyJson EventStore EventContracts EventLog StoreWitness FinalContracts FinalInterval FinalWitness FinalReceipt.
Local Open Scope Z_scope.

(** ** The controller's replay of a trace *)

(** What the controller's projection makes of a row of a trace, as the verifier reads the row: this is
    [apply_fact] and not [project_final_interval] to the letter.  An absent text is read as the empty one
    where the projection raises [KeyError], other values are taken through [str], and the time of the row is
    parsed and printed again. *)
Definition row_applied (d : FinalDocument) (row : fields) (record : FinalIntervalRecord) (at_ : moment) : result FinalDocument :=
  apply_fact (with_trace row d) record (event_text "lane_id" row) (event_text "challenge_id" row) (event_text "candidate_id" row)
    (event_text "reservation_id" row) (event_text "state" row) (event_text "outcome" row) (isoformat at_)
    (default [] (as_obj (get_or "inventory" JNull row))).

Definition replayed (d : FinalDocument) (event : json) : result FinalDocument :=
  row ← match as_obj event with Some r => Ok r | None => Err (TypeError "trace row") end;
  record ← match fact_of (event_text "record" row) with Some r => Ok r | None => Err (ValueError "not a valid FinalIntervalRecord") end;
  at_ ← fromisoformat (event_text "observed_at" row);
  row_applied d row record at_.

Fixpoint replayed_all (d : FinalDocument) (events : list json) : result FinalDocument :=
  match events with [] => Ok d | e :: rest => d ← replayed d e; replayed_all d rest end.

(** ** Cleanup targets are texts *)

Lemma valid_identity_head s : valid_cleanup_identity s = true -> exists ch rest, s = String ch rest /\ ch ∈ ["r"; "a"; "i"]%char.
Proof.
  unfold valid_cleanup_identity. intros [Hs|Hs]%orb_true_iff; [bool_to_prop; subst s; eexists _, _; split; [done|set_solver]|].
  cbn [py_any existsb] in Hs. repeat (apply orb_true_iff in Hs as [Hs|Hs]); try done;
    destruct (strip_prefix _ s) as [rest|] eqn:E; try done; apply strip_prefix_Some in E as ->; eexists _, _; (split; [done|set_solver]).
Qed.

Lemma str_int_head n ch rest : str_int n = String ch rest -> ch ∉ ["r"; "a"; "i"]%char.
Proof.
  intros Hs Hin. destruct (decide (0 <= n)) as [Hn|Hn].
  - pose proof (int_digits_str_int n Hn) as Hd. rewrite Hs in Hd. cbn in Hd.
    rewrite !elem_of_cons in Hin. destruct Hin as [-> |[-> |[-> |Hin]]]; [done..|]. by apply not_elem_of_nil in Hin.
  - destruct n as [|p|p]; [lia..|]. change (str_int (Zneg p)) with (String "-"%char (pretty_N_go (Npos p) "")) in Hs. injection Hs as <- _. set_solver.
Qed.

Lemma target_text t : hashable t = true -> valid_cleanup_identity (py_str t) = true -> t = JStr (py_str t).
Proof.
  intros Hh (ch & rest & Hs & Hin)%valid_identity_head. destruct t as [|b|n|s|l|fs]; try done; cbn in Hs.
  - injection Hs as <- _. set_solver.
  - destruct b; injection Hs as <- _; set_solver.
  - by destruct (str_int_head n ch rest Hs).
Qed.

(** ** The verifier's state and the document *)

Definition last_chance (events : list fields) : option Chance :=
  (fun row => {| ch_challenge := event_text "challenge_id" row; ch_state := event_text "state" row |}) <$> last events.

Record tracks (lanes : list string) (st : TraceState) (d : FinalDocument) : Prop := {
  tk_submissions : ts_submissions st = fd_submissions d;
  tk_cleanup : ts_cleanup st = fd_cleanup d;
  tk_chances lane events : dict_get lane (ts_chances st) = Some events -> dict_get lane (fd_chances d) = last_chance events;
  tk_terminal : fd_terminal d = last (ts_terminals st);
  tk_lanes lane : lane ∈ lanes -> dict_get lane (ts_chances st) <> None
}.

Lemma tracks_prior lanes at_ st d : tracks lanes st d -> tracks lanes (with_prior at_ st) d.
Proof. by intros [H1 H2 H3 H4 H5]. Qed.

Ltac ok_steps H := repeat (apply bind_ok in H as (? & _ & H)).

Section rows.
Context (s : ReceiptShape) (index : Z) (at_ : moment) (row : fields) (st st' : TraceState) (d : FinalDocument) (lanes : list string).
Hypothesis Ht : tracks lanes st d.

Lemma tracks_transition : replay_transition s index at_ row st = Ok st' -> exists d', row_applied d row TRANSITION at_ = Ok d' /\ tracks lanes st' d'.
Proof using Ht.
  intros Hr. unfold replay_transition in Hr. ok_steps Hr. injection Hr as <-. destruct Ht. by eexists.
Qed.

Lemma tracks_entitlement record :
  record = ENTITLEMENT_RESERVED \/ record = ENTITLEMENT_SPENT \/ record = ENTITLEMENT_CLOSED ->
  replay_entitlement s index at_ record row st = Ok st' -> exists d', row_applied d row record at_ = Ok d' /\ tracks lanes st' d'.
Proof using Ht.
  intros Hrec Hr. unfold replay_entitlement in Hr. ok_steps Hr. injection Hr as <-. destruct Ht as [Hsub Hcl Hch Hte Hln].
  assert (Hd : exists d', row_applied d row record at_ = Ok d' /\ fd_submissions d' = fd_submissions d /\ fd_cleanup d' = fd_cleanup d
    /\ fd_terminal d' = fd_terminal d
    /\ fd_chances d' = dict_set (event_text "lane_id" row) {| ch_challenge := event_text "challenge_id" row; ch_state := event_text "state" row |} (fd_chances d)).
  { by destruct Hrec as [-> |[-> | ->]]; eexists. }
  destruct Hd as (d' & Hd & Hd1 & Hd2 & Hd3 & Hd4). exists d'. split; [done|]. split; cbn; [congruence..| |congruence|].
  2:{ intros lane Hl. unfold add_to. rewrite dict_get_set. case_bool_decide as El; [done|by apply Hln]. }
  intros lane events. rewrite Hd4. unfold add_to. rewrite !dict_get_set. case_bool_decide as El; [|apply Hch]. intros [= <-].
  unfold last_chance. by rewrite last_snoc.
Qed.

Lemma tracks_drain record :
  record = DRAIN_REQUESTED \/ record = DRAIN_RESULT \/ record = SUBMISSION_RECONCILED ->
  replay_drain s index at_ record row st = Ok st' -> exists d', row_applied d row record at_ = Ok d' /\ tracks lanes st' d'.
Proof using Ht.
  intros Hrec Hr. unfold replay_drain in Hr. do 4 apply bind_ok in Hr as (? & _ & Hr). apply bind_ok in Hr as (subs & Hs & Hr).
  injection Hr as <-. destruct Ht as [Hsub Hcl Hch Hte Hln]. destruct Hrec as [-> |Hrec].
  { rewrite bool_decide_true in Hs by done. injection Hs as <-. eexists. split; [done|]. by split. }
  rewrite bool_decide_false in Hs by (by destruct Hrec as [-> | ->]). ok_steps Hs. injection Hs as <-.
  destruct Hrec as [-> | ->]; (eexists; split; [done|]; split; cbn; [by rewrite Hsub|done..]).
Qed.

Lemma tracks_request : replay_request index row st = Ok st' -> exists d', row_applied d row CLEANUP_REQUESTED at_ = Ok d' /\ tracks lanes st' d'.
Proof using Ht.
  intros Hr. unfold replay_request in Hr. apply bind_ok in Hr as (? & _ & Hr). apply bind_ok in Hr as (targets & Htg & Hr).
  destruct (as_obj (get_or "inventory" JNull row)) as [inventory|] eqn:Ei; [|done].
  destruct (as_list (get_or "targets" JNull inventory)) as [l|] eqn:El; [|done]. injection Htg as ->.
  apply bind_ok in Hr as (? & _ & Hr). apply bind_ok in Hr as (distinct & Hdi & Hr). apply bind_ok in Hr as (? & Hva%raise_unless_ok & Hr).
  apply andb_true_iff in Hva as [_ Hva]. unfold all_distinct in Hdi. apply bind_ok in Hdi as (? & Hha%raise_unless_ok & _).
  injection Hr as <-. destruct Ht as [Hsub Hcl Hch Hte Hln]. unfold row_applied. cbn [apply_fact].
  assert (default [] (as_obj (get_or "inventory" JNull row)) = inventory) as -> by (by rewrite Ei).
  assert (Htx : targets_of inventory = Ok (py_str <$> targets)); [|cbn in Htx |- *; rewrite Htx; by eexists].
  unfold targets_of. unfold get_or in *. destruct (dict_get "targets" inventory) as [j|]; [|done]. cbn in *.
  destruct j; try done. injection El as ->. clear -Hva Hha.
  induction targets as [|t targets IH]; [done|]. cbn in Hva, Hha. apply andb_true_iff in Hva as [Hv Hva]. apply andb_true_iff in Hha as [Hh Hha].
  rewrite fmap_cons. rewrite (target_text t Hh Hv) at 1. cbn [map_result mbind result_bind]. by rewrite IH.
Qed.

Lemma tracks_result : replay_result row st = Ok st' -> exists d', row_applied d row CLEANUP_RESULT at_ = Ok d' /\ tracks lanes st' d'.
Proof using Ht.
  intros Hr. unfold replay_result in Hr. ok_steps Hr. injection Hr as <-. destruct Ht as [Hsub Hcl Hch Hte Hln].
  eexists. split; [done|]. split; cbn; [done|by rewrite Hcl|done..].
Qed.

Lemma tracks_terminal : replay_terminal s index row st = Ok st' -> exists d', row_applied d row TERMINAL_INVENTORY at_ = Ok d' /\ tracks lanes st' d'.
Proof using Ht.
  intros Hr. unfold replay_terminal in Hr. apply bind_ok in Hr as (? & _ & Hr). apply bind_ok in Hr as (inventory & Hi & Hr).
  injection Hr as <-. destruct (as_obj _) as [i|] eqn:Ei; [|done]. injection Hi as ->. destruct Ht as [Hsub Hcl Hch Hte Hln].
  unfold row_applied. rewrite Ei. eexists. split; [done|]. split; cbn; [done..| |done]. by rewrite last_snoc.
Qed.
End rows.

Lemma tracks_row lanes s index event st st' d :
  tracks lanes st d -> replay_row s index event st = Ok st' -> exists d', replayed d event = Ok d' /\ tracks lanes st' d'.
Proof.
  intros Ht Hr. unfold replay_row in Hr. unfold replayed. apply bind_ok in Hr as (row & Hrow & Hr).
  destruct (as_obj event) as [r|] eqn:Eo; [|done]. injection Hrow as ->.
  apply bind_ok in Hr as (at_ & Hat & Hr). destruct (fromisoformat _) as [m|] eqn:Em; [|done]. injection Hat as ->.
  apply bind_ok in Hr as (back & _ & Hr). apply bind_ok in Hr as ([] & _ & Hr). apply bind_ok in Hr as (record & Hrec & Hr).
  destruct (fact_of (event_text "record" row)) as [r|] eqn:Ef; [|done]. injection Hrec as ->.
  cbn [mbind result_bind]. rewrite Ef. cbn [mbind result_bind]. rewrite Em. cbn [mbind result_bind].
  apply (tracks_prior lanes at_) in Ht. destruct record;
    [by eapply tracks_transition|eapply tracks_entitlement; eauto|eapply tracks_entitlement; eauto|eapply tracks_entitlement; eauto
    |eapply tracks_drain; eauto|eapply tracks_drain; eauto|eapply tracks_drain; eauto|by eapply tracks_request|by eapply tracks_result
    |by eapply tracks_terminal].
Qed.

Lemma tracks_rows lanes s events : forall index st st' d,
  tracks lanes st d -> replay_rows s index events st = Ok st' -> exists d', replayed_all d events = Ok d' /\ tracks lanes st' d'.
Proof.
  induction events as [|e events IH]; intros index st st' d Ht Hr; cbn in *; [injection Hr as <-; eauto|].
  apply bind_ok in Hr as (st1 & H1 & Hr). destruct (tracks_row lanes s index e st st1 d Ht H1) as (d1 & -> & Ht1). by eapply IH.
Qed.

Lemma tracks_start s : tracks (lane_texts (rs_lanes s)) (trace_start s) empty_document.
Proof.
  split; [done..| |done|].
  2:{ intros lane Hl Hg. cbn in Hg. apply dict_get_None in Hg. apply Hg. rewrite <-list_fmap_compose. by rewrite list_fmap_id. }
  intros lane events Hg. cbn in Hg. apply dict_get_Some_elem, list_elem_of_fmap in Hg as (l & [= -> ->] & _). done.
Qed.

(** ** What a verified receipt says *)

Lemma chances_each chances d lane events : validate_chances chances d = Ok tt -> (lane, events) ∈ d -> validate_chance chances lane events = Ok tt.
Proof.
  induction d as [|[l ev] d IH]; intros Hv Hin; [by apply not_elem_of_nil in Hin|]. cbn in Hv. apply bind_ok in Hv as ([] & H1 & Hv).
  apply elem_of_cons in Hin as [[= -> ->]|Hin]; [done|by apply IH].
Qed.

Lemma validated_chance chances lane events :
  validate_chance chances lane events = Ok tt ->
  match last_chance events with
  | Some ch => py_eqb (get_or lane JNull chances) (chance_json ch) = true /\ length events = 2%nat
  | None => dict_has lane chances = false
  end.
Proof.
  unfold validate_chance. destruct events as [|first rest]; [by intros ?%raise_if_ok|]. intros ([] & Hrec%raise_unless_ok & Hv)%bind_ok. bool_to_prop.
  destruct rest as [|last_ [|x rest]]; [|unfold validate_pair in Hv|].
  - exfalso. unfold chance_records in Hrec. rewrite !elem_of_cons in Hrec. destruct Hrec as [|[|Hrec]]; [done..|by apply not_elem_of_nil in Hrec].
  - ok_steps Hv. apply raise_unless_ok in Hv. by cbn.
  - exfalso. unfold chance_records in Hrec. rewrite !elem_of_cons in Hrec. destruct Hrec as [|[|Hrec]]; [done..|by apply not_elem_of_nil in Hrec].
Qed.

(** C21. A receipt that verifies is the replay of its trace: the controller's own projection of a fact, run over
    the rows of the trace as the verifier reads them (absent texts as empty, others through [str], times
    parsed and printed again), gives the receipt's submissions, its terminal inventory and, for every
    Lane of the profile, its final chance. *)
Theorem receipt_replays `{Digester} receipt :
  verify_receipt receipt = Ok tt ->
  exists shape d, validate_receipt_shape receipt = Ok shape /\ replayed_all empty_document (rs_trace shape) = Ok d
    /\ py_eqb (JObj (rs_submissions shape)) (submissions_json (fd_submissions d)) = true
    /\ (exists t, fd_terminal d = Some t /\ py_eqb (rs_terminal shape) (JObj t) = true)
    /\ forall lane, lane ∈ lane_texts (rs_lanes shape) ->
         match dict_get lane (fd_chances d) with
         | Some ch => py_eqb (get_or lane JNull (rs_chances shape)) (chance_json ch) = true
         | None => dict_has lane (rs_chances shape) = false
         end.
Proof.
  unfold verify_receipt. intros (shape & Hs & (st & Hr & ([] & Hp & ([] & Hsub%raise_unless_ok & Hv)%bind_ok)%bind_ok)%bind_ok)%bind_ok.
  destruct (tracks_rows _ shape _ 0 _ st empty_document (tracks_start shape) Hr) as (d & Hd & Ht). exists shape, d. split; [done|]. split; [done|].
  split; [by rewrite <-(tk_submissions _ _ _ Ht)|]. split.
  - unfold validate_terminal in Hv. do 3 apply bind_ok in Hv as (? & _ & Hv). apply bind_ok in Hv as (terminal & Htm & _).
    destruct (ts_terminals st) as [|t [|]] eqn:Et; try done. destruct (as_obj (rs_terminal shape)) as [tm|] eqn:Eo; [|done].
    apply bind_ok in Htm as ([] & He%raise_unless_ok & _). exists t. rewrite (tk_terminal _ _ _ Ht), Et. split; [done|].
    destruct (rs_terminal shape); try done. by injection Eo as ->.
  - intros lane Hl. unfold validate_trace_projection in Hp. apply bind_ok in Hp as ([] & Hp & _).
    destruct (dict_get lane (ts_chances st)) as [events|] eqn:Eg; [|by destruct (tk_lanes _ _ _ Ht lane Hl)].
    rewrite (tk_chances _ _ _ Ht lane events Eg). apply dict_get_Some_elem in Eg.
    pose proof (validated_chance _ _ _ (chances_each _ _ _ _ Hp Eg)) as Hc. destruct (last_chance events); [by destruct Hc|done].
Qed.

(** ** Receipts the controller writes: one that verifies, and one that does not. *)

#[local] Existing Instance marking_digester.
#[local] Existing Instance memory_log.
#[local] Existing Instance plain_authority.

Definition receipt_fields_of (d : FinalDocument) : fields := match receipt_of demo_window d with JObj r => r | _ => [] end.

Definition closed_receipt : fields := receipt_fields_of (fw_document run_closed).

Lemma receipt_replays_witness :
  exists shape d, validate_receipt_shape closed_receipt = Ok shape /\ replayed_all empty_document (rs_trace shape) = Ok d
    /\ length (rs_trace shape) = 4%nat.
Proof.
  assert (Hv : verify_receipt closed_receipt = Ok tt) by (vm_compute; reflexivity).
  destruct (receipt_replays closed_receipt Hv) as (shape & d & Hs & Hd & _). exists shape, d. split; [exact Hs|]. split; [exact Hd|].
  vm_compute in Hs. injection Hs as <-. reflexivity.
Defined.

(** A Run that drains a Candidate, with the clock at the given readings, and then closes. *)
Definition drained_run (readings : list Z) : FinalDocument :=
  fw_document (close demo_window nothing_left all_released false (drain demo_window ["flag-1"] rejects (interval_on readings)).1).1.

(** While the clock stands still the receipt verifies; when it moves on between the drain's own
    reading and the transition it causes, the trace goes back in time and the receipt is refused. *)
Lemma drained_receipt_refused :
  verify_receipt (receipt_fields_of (drained_run [6700; 6700; 6700; 6700; 7200])) = Ok tt
  /\ verify_receipt (receipt_fields_of (drained_run [6700; 6701; 6702; 6703; 7200])) = Err bad_clock.
Proof. vm_compute. split; reflexivity. Qed.
