(* ===== verification/JsonText.v ===== *)
(** [json.loads], and that it reads back what [canonical_bytes] writes.

    Numbers with a fraction or an exponent and escapes above U+00FF have no value here and do not
    parse; [canonical_bytes] of a [json] writes neither. *)

From Stdlib Require Import Ascii.
From S2P Require Import Prelude Canon Text PyJson.
Local Open Scope Z_scope.

(** ** The parser *)

Definition json_space (c : ascii) : bool := let n := Z.of_N (N_of_ascii c) in (n =? 32) || (n =? 9) || (n =? 10) || (n =? 13).

Fixpoint skip_space (s : string) : string :=
  match s with String c r => if json_space c then skip_space r else s | EmptyString => s end.

Definition hex_value (c : ascii) : option Z :=
  let n := Z.of_N (N_of_ascii c) in
  if (48 <=? n) && (n <=? 57) then Some (n - 48)
  else if (97 <=? n) && (n <=? 102) then Some (n - 87)
  else if (65 <=? n) && (n <=? 70) then Some (n - 55)
  else None.

(** The character of a two-character escape. *)
Definition unescaped (c : ascii) : option ascii :=
  if bool_decide (c = quote) then Some quote
  else if bool_decide (c = backslash) then Some backslash
  else if bool_decide (c = "/"%char) then Some "/"%char
  else if bool_decide (c = "n"%char) then Some (ascii_of_N 10)
  else if bool_decide (c = "r"%char) then Some (ascii_of_N 13)
  else if bool_decide (c = "t"%char) then Some (ascii_of_N 9)
  else if bool_decide (c = "b"%char) then Some (ascii_of_N 8)
  else if bool_decide (c = "f"%char) then Some (ascii_of_N 12)
  else None.

Definition prepend (c : ascii) (r : option (string * string)) : option (string * string) :=
  '(t, rest) ← r; Some (String c t, rest).

(** A string after its opening quote. *)
Fixpoint parse_chars (s : string) : option (string * string) :=
  match s with
  | EmptyString => None
  | String c r =>
      if bool_decide (c = quote) then Some (EmptyString, r)
      else if bool_decide (c = backslash) then
        match r with
        | String e r2 =>
            if bool_decide (e = "u"%char) then
              match r2 with
              | String z1 (String z2 (String h1 (String h2 r3))) =>
                  match hex_value z1, hex_value z2, hex_value h1, hex_value h2 with
                  | Some 0, Some 0, Some x, Some y => prepend (ascii_of_N (Z.to_N (16 * x + y))) (parse_chars r3)
                  | _, _, _, _ => None
                  end
              | _ => None
              end
            else match unescaped e with Some c => prepend c (parse_chars r2) | None => None end
        | EmptyString => None
        end
      else if Z.of_N (N_of_ascii c) <? 32 then None
      else prepend c (parse_chars r)
  end.

(** The digits a text begins with. *)
Fixpoint span_digits (s : string) : string * string :=
  match s with
  | String c r => match digit_value c with Some _ => let '(d, rest) := span_digits r in (String c d, rest) | None => (EmptyString, s) end
  | EmptyString => (EmptyString, s)
  end.

Definition is_fraction (s : string) : bool :=
  match s with String c _ => bool_decide (c ∈ ["."; "e"; "E"]%char) | EmptyString => false end.

(** Digits without a leading zero. *)
Definition parse_natural (s : string) : option (Z * string) :=
  let '(digits, rest) := span_digits s in
  z ← parse_digits digits;
  if bool_decide (str_int z = digits) && negb (is_fraction rest) then Some (z, rest) else None.

Definition parse_number (s : string) : option (json * string) :=
  match s with
  | String "-" r => '(z, rest) ← parse_natural r; Some (JInt (- z), rest)
  | _ => '(z, rest) ← parse_natural s; Some (JInt z, rest)
  end.

(** The items of a list or an object up to its closing bracket. *)
Section items.
Context {A : Type} (item : string -> option (A * string)) (close : ascii).

Fixpoint parse_items (n : nat) (s : string) : option (list A * string) :=
  match n with
  | O => None
  | S n =>
      '(a, r) ← item s;
      match skip_space r with
      | String c r =>
          if bool_decide (c = ","%char) then '(l, rest) ← parse_items n (skip_space r); Some (a :: l, rest)
          else if bool_decide (c = close) then Some ([a], r)
          else None
      | EmptyString => None
      end
  end.

Definition parse_container (n : nat) (s : string) : option (list A * string) :=
  match skip_space s with
  | String c r => if bool_decide (c = close) then Some ([], r) else parse_items n (String c r)
  | EmptyString => None
  end.
End items.

Definition parse_member (parse : string -> option (json * string)) (s : string) : option ((string * json) * string) :=
  match s with
  | String c r =>
      if bool_decide (c = quote) then
        '(k, r) ← parse_chars r;
        match skip_space r with
        | String ":" r => '(j, rest) ← parse (skip_space r); Some ((k, j), rest)
        | _ => None
        end
      else None
  | EmptyString => None
  end.

(** A dict keeps the last value of a key, where the key first stood. *)
Definition dict_of_pairs (l : list (string * json)) : list (string * json) := foldl (fun d kv => dict_set kv.1 kv.2 d) [] l.

Definition parse_word (s : string) : option (json * string) :=
  match strip_prefix "null" s, strip_prefix "true" s, strip_prefix "false" s with
  | Some r, _, _ => Some (JNull, r)
  | _, Some r, _ => Some (JBool true, r)
  | _, _, Some r => Some (JBool false, r)
  | None, None, None => parse_number s
  end.

Fixpoint parse_value (n : nat) (s : string) : option (json * string) :=
  match n with
  | O => None
  | S n =>
      match s with
      | String c r =>
          if bool_decide (c = quote) then '(t, rest) ← parse_chars r; Some (JStr t, rest)
          else if bool_decide (c = "["%char) then
            '(l, rest) ← parse_container (parse_value n) "]" n r; Some (JList l, rest)
          else if bool_decide (c = "{"%char) then
            '(l, rest) ← parse_container (parse_member (parse_value n)) "}" n r; Some (JObj (dict_of_pairs l), rest)
          else parse_word s
      | EmptyString => None
      end
  end.

(** [json.loads]; [None] is [JSONDecodeError]. *)
Definition loads (s : string) : option json :=
  let s := skip_space s in
  '(j, rest) ← parse_value (S (String.length s)) s;
  match skip_space rest with EmptyString => Some j | _ => None end.

(** ** Values with distinct keys, and their keys in order *)

Fixpoint well_keyed (j : json) : Prop :=
  match j with
  | JList l => (fix go l := match l with [] => True | x :: r => well_keyed x /\ go r end) l
  | JObj fs => NoDup fs.*1 /\ (fix go fs := match fs with [] => True | f :: r => well_keyed f.2 /\ go r end) fs
  | _ => True
  end.

Fixpoint key_sorted (j : json) : json :=
  match j with
  | JList l => JList (List.map key_sorted l)
  | JObj fs => JObj (sort_by fst (List.map (fun f => (f.1, key_sorted f.2)) fs))
  | _ => j
  end.

Lemma well_keyed_list l : well_keyed (JList l) <-> Forall well_keyed l.
Proof. cbn. induction l as [|x l IH]; [by split|]. rewrite Forall_cons. by rewrite IH. Qed.

Lemma well_keyed_obj fs : well_keyed (JObj fs) <-> NoDup fs.*1 /\ Forall (fun f => well_keyed f.2) fs.
Proof. cbn. apply and_iff_compat_l. induction fs as [|x l IH]; [by split|]. rewrite Forall_cons. by rewrite IH. Qed.

Lemma sort_by_map {A B} (g : string -> A -> B) (l : list (string * A)) :
  sort_by fst (List.map (fun f => (f.1, g f.1 f.2)) l) = List.map (fun f => (f.1, g f.1 f.2)) (sort_by fst l).
Proof.
  assert (Hins : forall x l, insert_by fst (x.1, g x.1 x.2) (List.map (fun f => (f.1, g f.1 f.2)) l)
    = List.map (fun f => (f.1, g f.1 f.2)) (insert_by fst x l)).
  { intros x m. induction m as [|y m IH]; [done|]. cbn. destruct (cmp_leb x.1 y.1); [done|]. cbn. by rewrite IH. }
  unfold sort_by in *. induction l as [|x l IH]; [done|]. cbn [List.map foldr]. by rewrite IH, Hins.
Qed.

(** ** Reading back *)

(** What may follow a value. *)
Definition stops (s : string) : Prop := match s with EmptyString => True | String c _ => c ∈ [","; "]"; "}"; "010"]%char end.

Lemma parse_escape_char c t : parse_chars (escape_char c +:+ t) = prepend c (parse_chars t).
Proof. destruct c as [[] [] [] [] [] [] [] []]; reflexivity. Qed.

Lemma parse_escape s rest : parse_chars (escape s +:+ String quote rest) = Some (s, rest).
Proof.
  induction s as [|c s IH]; [done|]. cbn [escape]. rewrite str_app_assoc, parse_escape_char, IH. done.
Qed.

(** *** Numbers *)

Lemma digits_span d rest acc z :
  int_digits acc d = Some z -> stops rest -> span_digits (d +:+ rest) = (d, rest).
Proof.
  revert acc. induction d as [|c d IH]; intros acc Hd Hr.
  - destruct rest as [|c r]; [done|]. cbn in Hr |- *. by repeat (apply elem_of_cons in Hr as [->|Hr]; [done|]); apply elem_of_nil in Hr.
  - cbn in Hd. destruct (digit_value c) as [v|] eqn:E; [|done].
    change (String c d +:+ rest) with (String c (d +:+ rest)). cbn. by rewrite E, (IH _ Hd Hr).
Qed.

Lemma stops_no_fraction rest : stops rest -> is_fraction rest = false.
Proof.
  destruct rest as [|c r]; [done|]. cbn. intros Hr. apply bool_decide_eq_false. intros Hf.
  repeat (apply elem_of_cons in Hr as [->|Hr]; [set_solver|]). by apply elem_of_nil in Hr.
Qed.

Lemma parse_natural_str n rest : 0 <= n -> stops rest -> parse_natural (str_int n +:+ rest) = Some (n, rest).
Proof.
  intros Hn Hr. unfold parse_natural. rewrite (digits_span _ _ _ _ (int_digits_str_int n Hn) Hr).
  rewrite parse_str_int by done. cbn. by rewrite bool_decide_true, (stops_no_fraction _ Hr).
Qed.

(** A number is no word and opens nothing. *)
Lemma parse_value_digit n c r d : digit_value c = Some d -> parse_value (S n) (String c r) = '(z, rest) ← parse_natural (String c r); Some (JInt z, rest).
Proof. destruct c as [[] [] [] [] [] [] [] []]; cbn; intros H; try discriminate H; reflexivity. Qed.

Lemma str_int_digit n : 0 <= n -> exists c r d, str_int n = String c r /\ digit_value c = Some d.
Proof.
  intros Hn. pose proof (int_digits_str_int n Hn) as H. destruct (str_int n) as [|c r] eqn:E; [by apply str_int_nonempty in E|].
  cbn in H. destruct (digit_value c) as [d|] eqn:Ed; [|done]. by exists c, r, d.
Qed.

Lemma parse_int n z rest : stops rest -> parse_value (S n) (str_int z +:+ rest) = Some (JInt z, rest).
Proof.
  intros Hr. destruct (Z.le_gt_cases 0 z) as [Hz|Hz].
  - destruct (str_int_digit z Hz) as (c & r & d & E & Hd). pose proof (parse_natural_str z rest Hz Hr) as Hp.
    rewrite E in Hp |- *. change (String c r +:+ rest) with (String c (r +:+ rest)) in *.
    by rewrite (parse_value_digit _ _ _ _ Hd), Hp.
  - destruct z as [|p|p]; [lia..|]. change (str_int (Zneg p) +:+ rest) with (String "-" (str_int (Zpos p) +:+ rest)).
    change (('(z, r) ← parse_natural (str_int (Zpos p) +:+ rest); Some (JInt (- z), r)) = Some (JInt (Zneg p), rest)).
    by rewrite parse_natural_str.
Qed.

(** *** Containers *)

Lemma dumps_head j : exists c r, dumps j = String c r /\ json_space c = false /\ c <> "]"%char.
Proof.
  assert (Hint : forall z, exists c r, str_int z = String c r /\ json_space c = false /\ c <> "]"%char);
    [|destruct j as [|[]|z|s|l|fs]; (apply Hint || by eexists _, _)].
  intros z. destruct (Z.le_gt_cases 0 z) as [Hz|Hz].
  - destruct (str_int_digit z Hz) as (c & r & d & E & Hd). exists c, r. split; [done|]. split.
    + destruct c as [[] [] [] [] [] [] [] []]; cbn in *; done.
    + by intros ->.
  - destruct z as [|p|p]; [lia..|]. by eexists _, _.
Qed.

Lemma skip_dumps j rest : skip_space (dumps j +:+ rest) = dumps j +:+ rest.
Proof. destruct (dumps_head j) as (c & r & -> & Hc & _). change (String c r +:+ rest) with (String c (r +:+ rest)). cbn [skip_space]. by rewrite Hc. Qed.

Lemma dumps_length j : (0 < String.length (dumps j))%nat.
Proof. destruct (dumps_head j) as (c & r & -> & _). cbn. lia. Qed.

Lemma str_length_app (s t : string) : String.length (s +:+ t) = (String.length s + String.length t)%nat.
Proof. induction s as [|c s IH]; [done|]. change (S (String.length (s +:+ t)) = S (String.length s + String.length t)). by rewrite IH. Qed.

(** Items that read back, printed with commas up to the closing bracket, read back. *)
Section items_back.
Context {A B : Type} (item : string -> option (A * string)) (close : ascii) (print : B -> string) (value : B -> A).
Hypothesis close_stops : close ∈ ["]"; "}"]%char.
Hypothesis print_starts : forall b, exists c r, print b = String c r /\ json_space c = false /\ c <> close.

Lemma close_no_space : json_space close = false.
Proof. repeat (apply elem_of_cons in close_stops as [->|close_stops]; [done|]). set_solver. Qed.

Lemma items_start b l : exists c r, join "," (List.map print (b :: l)) = String c r /\ json_space c = false /\ c <> close.
Proof. destruct (print_starts b) as (c & r & E & Hc). destruct l as [|b' l]; cbn; rewrite E; by eexists _, _. Qed.

Lemma skip_items b l t : skip_space (join "," (List.map print (b :: l)) +:+ t) = join "," (List.map print (b :: l)) +:+ t.
Proof. destruct (items_start b l) as (c & r & -> & Hc & _). change (String c r +:+ t) with (String c (r +:+ t)). cbn [skip_space]. by rewrite Hc. Qed.

Lemma parse_items_back n b l rest :
  (length l < n)%nat ->
  Forall (fun b => forall rest, stops rest -> item (print b +:+ rest) = Some (value b, rest)) (b :: l) ->
  parse_items item close n (join "," (List.map print (b :: l)) +:+ String close rest) = Some (List.map value (b :: l), rest).
Proof.
  assert (Hclose : close <> ","%char) by (intros ->; set_solver).
  revert n b. induction l as [|b' l IH]; intros n b Hn [Hb Hl]%Forall_cons; (destruct n as [|n]; [lia|]).
  - cbn [List.map join parse_items]. rewrite Hb by (cbn; set_solver). cbn [mbind option_bind].
    cbn [skip_space]. rewrite close_no_space, bool_decide_false by done. by rewrite bool_decide_true.
  - change (join "," (List.map print (b :: b' :: l))) with (print b +:+ "," +:+ join "," (List.map print (b' :: l))).
    rewrite !str_app_assoc. cbn [parse_items]. rewrite Hb by (cbn; set_solver). cbn [mbind option_bind].
    change (skip_space ("," +:+ ?x)) with (String "," x). cbv iota beta. rewrite bool_decide_true by done.
    rewrite skip_items, IH; [done|cbn in Hn; lia|done].
Qed.

Lemma parse_container_back n l rest :
  (length l <= n)%nat ->
  Forall (fun b => forall rest, stops rest -> item (print b +:+ rest) = Some (value b, rest)) l ->
  parse_container item close n (join "," (List.map print l) +:+ String close rest) = Some (List.map value l, rest).
Proof.
  intros Hn Hl. unfold parse_container. destruct l as [|b l].
  - cbn [List.map join]. change ("" +:+ ?x) with x. cbn [skip_space]. by rewrite close_no_space, bool_decide_true.
  - rewrite skip_items. destruct (items_start b l) as (c & r & E & _ & Hc). rewrite E.
    change (String c r +:+ ?x) with (String c (r +:+ x)). cbv iota beta. rewrite bool_decide_false by done.
    change (String c (r +:+ ?x)) with (String c r +:+ x). rewrite <-E. by apply parse_items_back.
Qed.

Lemma items_length l :
  (length l <= String.length (join "," (List.map print l)))%nat
  /\ Forall (fun b => (String.length (print b) <= String.length (join "," (List.map print l)))%nat) l.
Proof.
  induction l as [|b l [IHl IHf]]; [done|]. destruct (print_starts b) as (c & r & E & _).
  destruct l as [|b' l].
  - cbn. rewrite E. split; [cbn; lia|]. constructor; [|done]. by rewrite E.
  - change (join "," (List.map print (b :: b' :: l))) with (print b +:+ "," +:+ join "," (List.map print (b' :: l))).
    rewrite !str_length_app. cbn [String.length]. split; [cbn [length] in *; lia|]. constructor; [lia|].
    eapply Forall_impl; [exact IHf|]. intros x Hx. cbn beta in Hx |- *. lia.
Qed.
End items_back.

Lemma dict_of_distinct (l : list (string * json)) : NoDup l.*1 -> dict_of_pairs l = l.
Proof.
  unfold dict_of_pairs. assert (Hgen : forall d, NoDup (d ++ l).*1 -> foldl (fun d kv => dict_set kv.1 kv.2 d) d l = d ++ l).
  { induction l as [|[k v] l IH]; intros d Hd; cbn [foldl]; [by rewrite app_nil_r|]. cbn [fst snd].
    rewrite dict_set_new.
    - rewrite IH; [by rewrite <-app_assoc|]. by rewrite <-app_assoc.
    - rewrite dict_get_None. rewrite fmap_app in Hd. apply NoDup_app in Hd as (_ & Hd & _). intros Hk. apply (Hd _ Hk). by left. }
  intros Hn. by apply Hgen.
Qed.

(** *** Values *)

Lemma member_back parse k j rest :
  (forall rest, stops rest -> parse (dumps j +:+ rest) = Some (key_sorted j, rest)) -> stops rest ->
  parse_member parse ((dump_string k +:+ ":" +:+ dumps j) +:+ rest) = Some ((k, key_sorted j), rest).
Proof.
  intros Hj Hr. unfold dump_string. change (String quote ?s +:+ ?t) with (String quote (s +:+ t)).
  change (String quote ?s +:+ ?t) with (String quote (s +:+ t)). unfold parse_member. rewrite bool_decide_true by done.
  rewrite !str_app_assoc. change (String quote "" +:+ ?t) with (String quote t). rewrite parse_escape. cbn [mbind option_bind].
  change (skip_space (":" +:+ ?x)) with (String ":" x). cbv iota beta. by rewrite skip_dumps, Hj.
Qed.

Lemma key_sorted_fields fs :
  key_sorted (JObj fs) = JObj (List.map (fun f => (f.1, key_sorted f.2)) (sort_by fst fs)).
Proof. cbn [key_sorted]. by rewrite (sort_by_map (fun _ => key_sorted)). Qed.

Lemma dumps_fields fs :
  dumps (JObj fs) = "{" +:+ join "," (List.map (fun f => dump_string f.1 +:+ ":" +:+ dumps f.2) (sort_by fst fs)) +:+ "}".
Proof.
  cbn [dumps]. rewrite (sort_by_map (fun k v => dump_string k +:+ ":" +:+ dumps v)). do 3 f_equal.
  induction (sort_by fst fs) as [|f l IH]; [done|]. cbn. by f_equal.
Qed.

Lemma parse_dumps j n rest :
  well_keyed j -> (String.length (dumps j) < n)%nat -> stops rest -> parse_value n (dumps j +:+ rest) = Some (key_sorted j, rest).
Proof.
  revert n rest. induction j as [|b|z|s|l IH|fs IH] using json_rect_nested; intros n rest Hk Hn Hr;
    (destruct n as [|n]; [lia|]).
  - done.
  - by destruct b.
  - by apply parse_int.
  - cbn [dumps]. unfold dump_string. change (String quote ?s +:+ ?t) with (String quote (s +:+ t)).
    cbn [parse_value]. rewrite bool_decide_true by done. rewrite str_app_assoc. change (String quote "" +:+ ?t) with (String quote t).
    by rewrite parse_escape.
  - cbn [dumps]. rewrite !str_app_assoc. change ("[" +:+ ?x) with (String "[" x). change ("]" +:+ ?x) with (String "]" x).
    assert (Hstart : forall b, exists c r, dumps b = String c r /\ json_space c = false /\ c <> "]"%char) by apply dumps_head.
    destruct (items_length _ dumps Hstart l) as [Hlen Hfit]. cbn [dumps] in Hn. rewrite !str_length_app in Hn. cbn [String.length] in Hn.
    cbn [parse_value]. change (bool_decide ("["%char = quote)) with false. change (bool_decide ("["%char = "["%char)) with true. cbv iota.
    rewrite (parse_container_back (parse_value n) "]" dumps key_sorted); [done|set_solver|done|lia|].
    apply well_keyed_list in Hk. rewrite Forall_forall in *. intros x Hx t Ht. apply IH; [done|by apply Hk| |done].
    specialize (Hfit x Hx). cbn beta in Hfit. lia.
  - rewrite dumps_fields, key_sorted_fields in *. set (print := fun f : string * json => dump_string f.1 +:+ ":" +:+ dumps f.2) in *.
    rewrite !str_app_assoc. change ("{" +:+ ?x) with (String "{" x). change ("}" +:+ ?x) with (String "}" x).
    assert (Hstart : forall b, exists c r, print b = String c r /\ json_space c = false /\ c <> "}"%char) by (intros b; by eexists _, _).
    destruct (items_length _ print Hstart (sort_by fst fs)) as [Hlen Hfit]. rewrite !str_length_app in Hn. cbn [String.length] in Hn.
    cbn [parse_value]. change (bool_decide ("{"%char = quote)) with false. change (bool_decide ("{"%char = "["%char)) with false.
    change (bool_decide ("{"%char = "{"%char)) with true. cbv iota.
    apply well_keyed_obj in Hk as [Hnd Hk].
    rewrite (parse_container_back (parse_member (parse_value n)) "}" print (fun f => (f.1, key_sorted f.2))); [|set_solver|done|lia|].
    + cbn [mbind option_bind]. rewrite dict_of_distinct; [done|].
      change (NoDup ((fun f : string * json => (f.1, key_sorted f.2)) <$> sort_by fst fs).*1). rewrite <-list_fmap_compose.
      change (NoDup (fst <$> sort_by fst fs)). by rewrite (sort_by_perm fst fs).
    + rewrite (sort_by_perm fst fs). rewrite (sort_by_perm fst fs) in Hfit. rewrite Forall_forall in *. intros [k v] Hx t Ht.
      apply member_back; [|done]. intros t' Ht'. apply (IH _ Hx); [by apply (Hk _ Hx)| |done].
      specialize (Hfit _ Hx). cbn beta in Hfit. assert (String.length (dumps v) <= String.length (print (k, v)))%nat; [|cbn [snd]; lia].
      unfold print. cbn [fst snd]. rewrite !str_length_app. lia.
Qed.

Lemma skip_dumps_all j rest : stops rest -> skip_space rest = "" -> well_keyed j -> loads (dumps j +:+ rest) = Some (key_sorted j).
Proof.
  intros Hr Hs Hj. unfold loads. rewrite skip_dumps, parse_dumps; [by cbn; rewrite Hs|done| |done]. rewrite str_length_app. lia.
Qed.

(** [json.loads] reads back what [canonical_bytes] writes, its keys in order. *)
Theorem loads_dumps j : well_keyed j -> loads (dumps j) = Some (key_sorted j).
Proof.
  intros Hj. unfold loads. pose proof (skip_dumps j "") as Hs. pose proof (parse_dumps j (S (String.length (dumps j))) "" Hj) as Hp.
  assert (Hnil : forall s : string, s +:+ "" = s) by (induction s as [|c s IH]; [done|]; change (String c (s +:+ "") = String c s); by rewrite IH).
  rewrite Hnil in Hs, Hp. rewrite Hs, Hp; [done|lia|done].
Qed.

(** The same of a file of one line. *)
Lemma loads_line j : well_keyed j -> loads (dumps j +:+ String "010" "") = Some (key_sorted j).
Proof. apply skip_dumps_all; [cbn; set_solver|done]. Qed.

(** ** Keys in order are no other document *)

Lemma insert_by_head {A K} `{CmpOk K} (f : A -> K) x l : Forall (key_le f x) l -> insert_by f x l = x :: l.
Proof. intros Hl. destruct Hl as [|y l Hy _]; [done|]. cbn. by rewrite Hy. Qed.

Lemma sort_by_again {A K} `{CmpOk K} (f : A -> K) l : sort_by f (sort_by f l) = sort_by f l.
Proof.
  assert (Hid : forall m, StronglySorted (key_le f) m -> sort_by f m = m); [|apply Hid, sort_by_sorted].
  intros m Hm. induction Hm as [|x m Hm IH Hx]; [done|]. cbn [sort_by foldr]. fold (sort_by f m). rewrite IH. by apply insert_by_head.
Qed.

Lemma map_Forall_eq {A B} (f g : A -> B) l : Forall (fun x => f x = g x) l -> List.map f l = List.map g l.
Proof. induction 1 as [|x l Hx _ IH]; [done|]. cbn. by rewrite Hx, IH. Qed.

Lemma key_sorted_dumps j : dumps (key_sorted j) = dumps j.
Proof.
  induction j as [|b|z|s|l IH|fs IH] using json_rect_nested; [done..| |].
  - cbn [key_sorted dumps]. do 3 f_equal. rewrite List.map_map. by apply map_Forall_eq.
  - rewrite key_sorted_fields, !dumps_fields. do 3 f_equal. rewrite (sort_by_map (fun _ => key_sorted)), sort_by_again, List.map_map.
    apply map_Forall_eq. rewrite (sort_by_perm fst fs). eapply Forall_impl; [exact IH|]. intros f Hf. cbn beta. cbn [fst snd]. by rewrite Hf.
Qed.

Lemma key_sorted_eq j : py_norm (key_sorted j) = py_norm j.
Proof.
  induction j as [|b|z|s|l IH|fs IH] using json_rect_nested; [done..| |].
  - cbn [key_sorted py_norm]. f_equal. rewrite List.map_map. by apply map_Forall_eq.
  - rewrite key_sorted_fields. cbn [py_norm]. f_equal. rewrite !(sort_by_map (fun _ => py_norm)), (sort_by_map (fun _ => key_sorted)), sort_by_again.
    rewrite List.map_map. apply map_Forall_eq. rewrite (sort_by_perm fst fs). eapply Forall_impl; [exact IH|]. intros f Hf. cbn. by rewrite Hf.
Qed.
