(* ===== verification/Lease.v ===== *)
(** Instance Leases: the contracts, the replay of a ledger and the coordinator.

    [src/solver/instance_lease_contracts.py], [instance_lease_projection.py] and
    [instance_lease.py], over the write authority of [Reservation].  The lock of the coordinator
    makes its methods atomic to each other.  The Board and the corroboration of a row answer once
    per call: their answers are arguments, used only if the effect runs.  [admit_generation] is the admission
    of a Work generation, it grants a sequence and an event
    identity under which the effect runs, or refuses.  A [challenge_id] is an [int] or a [str], kept
    as the JSON value it is written as. *)

From Stdlib Require Import Ascii.
From S2P Require Import Prelude Canon Text PyJson Moment MomentFormat JsonText Reservation WorkGeneration.
Local Open Scope Z_scope.

(** ** Contracts *)

Inductive LeasePhase : Type := LEASE_RESERVED | ATTEMPT_BOUND | RECOVERABLE | LEASE_CLOSED.

#[export] Instance LeasePhase_eq_dec : EqDecision LeasePhase.
Proof. solve_decision. Defined.

Definition phase_value (p : LeasePhase) : string :=
  match p with
  | LEASE_RESERVED => "reserved" | ATTEMPT_BOUND => "attempt-bound" | RECOVERABLE => "recoverable" | LEASE_CLOSED => "closed"
  end.

Inductive LeaseCloseCause : Type := CAUSE_NONE | TERMINATED | EXPIRED | NEVER_DEPLOYED.

#[export] Instance LeaseCloseCause_eq_dec : EqDecision LeaseCloseCause.
Proof. solve_decision. Defined.

Definition cause_value (c : LeaseCloseCause) : string :=
  match c with CAUSE_NONE => "" | TERMINATED => "terminated" | EXPIRED => "expired" | NEVER_DEPLOYED => "never-deployed" end.

Inductive LeaseVerdict : Type :=
  | VERDICT_NONE | CREATE_AMBIGUOUS | RENEW_AMBIGUOUS | RELEASE_AMBIGUOUS | EXPIRY_AMBIGUOUS
  | CREATE_UNSETTLED | RENEW_UNSETTLED | RELEASE_UNSETTLED | EXPIRY_UNSETTLED | FOREIGN_ROW | UNCORROBORATED_ROW.

#[export] Instance LeaseVerdict_eq_dec : EqDecision LeaseVerdict.
Proof. solve_decision. Defined.

Definition verdict_value (v : LeaseVerdict) : string :=
  match v with
  | VERDICT_NONE => ""
  | CREATE_AMBIGUOUS => "create-response-ambiguous" | RENEW_AMBIGUOUS => "renew-response-ambiguous"
  | RELEASE_AMBIGUOUS => "release-response-ambiguous" | EXPIRY_AMBIGUOUS => "expiry-response-ambiguous"
  | CREATE_UNSETTLED => "create-response-unsettled" | RENEW_UNSETTLED => "renew-response-unsettled"
  | RELEASE_UNSETTLED => "release-response-unsettled" | EXPIRY_UNSETTLED => "expiry-response-unsettled"
  | FOREIGN_ROW => "foreign-row" | UNCORROBORATED_ROW => "uncorroborated-row"
  end.

Definition all_phases : list LeasePhase := [LEASE_RESERVED; ATTEMPT_BOUND; RECOVERABLE; LEASE_CLOSED].
Definition all_causes : list LeaseCloseCause := [CAUSE_NONE; TERMINATED; EXPIRED; NEVER_DEPLOYED].
Definition all_verdicts : list LeaseVerdict := [
  VERDICT_NONE; CREATE_AMBIGUOUS; RENEW_AMBIGUOUS; RELEASE_AMBIGUOUS; EXPIRY_AMBIGUOUS; CREATE_UNSETTLED; RENEW_UNSETTLED;
  RELEASE_UNSETTLED; EXPIRY_UNSETTLED; FOREIGN_ROW; UNCORROBORATED_ROW].

(** [E(text)] of a [str] enumeration. *)
Definition member_of {A} (value : A -> string) (all : list A) (s : string) : result A :=
  match py_next (fun a => bool_decide (value a = s)) all with
  | Some a => Ok a
  | None => Err (ValueError (repr_str s +:+ " is not a valid member"))
  end.

Record LeaseIdentity : Type := { li_run_id : string; li_lease_seq : Z }.

#[export] Instance LeaseIdentity_eq_dec : EqDecision LeaseIdentity.
Proof. solve_decision. Defined.

Record RowCorroboration : Type := { rc_verdict : LeaseVerdict; rc_row_id : string }.

(** The dataclass constructor with its [__post_init__]. *)
Definition RowCorroboration_new (v : LeaseVerdict) (row_id : string) : result RowCorroboration :=
  raise_unless (Bool.eqb (negb (bool_decide (row_id = ""))) (bool_decide (v = VERDICT_NONE)))
    (ValueError "row corroboration must be either one owned row or one refusal verdict");;
  Ok {| rc_verdict := v; rc_row_id := row_id |}.

Record LeaseGrant : Type := {
  lg_identity : LeaseIdentity;
  lg_challenge_id : json;
  lg_board_id : string;
  lg_owner_id : string;
  lg_epoch : Z;
  lg_generation_id : string;
  lg_attempt_id : string;
  lg_phase : LeasePhase;
  lg_operation_key : string;
  lg_authority_sequence : Z;
  lg_authority_event_id : string;
  lg_renewal_sequence : Z;
  lg_row_id : string;
  lg_target : string;
  lg_until : option moment;
  lg_verdict : LeaseVerdict;
  lg_close_cause : LeaseCloseCause
}.

Definition grant_document (g : LeaseGrant) : fields := [
  ("run_id", JStr (li_run_id (lg_identity g)));
  ("lease_seq", JInt (li_lease_seq (lg_identity g)));
  ("challenge_id", lg_challenge_id g);
  ("board_id", JStr (lg_board_id g));
  ("owner_id", JStr (lg_owner_id g));
  ("epoch", JInt (lg_epoch g));
  ("generation_id", JStr (lg_generation_id g));
  ("attempt_id", JStr (lg_attempt_id g));
  ("phase", JStr (phase_value (lg_phase g)));
  ("operation_key", JStr (lg_operation_key g));
  ("generation_authority_sequence", JInt (lg_authority_sequence g));
  ("generation_authority_event_id", JStr (lg_authority_event_id g));
  ("renewal_sequence", JInt (lg_renewal_sequence g));
  ("row_id", JStr (lg_row_id g));
  ("target", JStr (lg_target g));
  ("until", JStr (match lg_until g with Some m => isoformat m | None => "" end));
  ("verdict", JStr (verdict_value (lg_verdict g)));
  ("close_cause", JStr (cause_value (lg_close_cause g)))].

(** [int(text)]: an optional sign and digits, single underscores between them. *)
Fixpoint int_text (after_digit : bool) (acc : Z) (s : string) : option Z :=
  match s with
  | EmptyString => if after_digit then Some acc else None
  | String c r =>
      match digit_value c with
      | Some d => int_text true (acc * 10 + d) r
      | None => if after_digit && bool_decide (c = "_"%char) then int_text false acc r else None
      end
  end.

(** [int(value)]. *)
Definition py_int (j : json) : result Z :=
  match j with
  | JInt n => Ok n
  | JBool b => Ok (if b then 1 else 0)
  | JStr s =>
      let n := match strip s with
        | String "-" r => Z.opp <$> int_text false 0 r
        | String "+" r => int_text false 0 r
        | r => int_text false 0 r
        end in
      match n with Some n => Ok n | None => Err (ValueError ("invalid literal for int() with base 10: " +:+ repr_str s)) end
  | _ => Err (TypeError "int() argument must be a string, a bytes-like object or a real number")
  end.

Definition str_item (name : string) (row : fields) : result string := py_str <$> item name row.
Definition int_item (name : string) (row : fields) : result Z := v ← item name row; py_int v.

Definition grant_from_document (row : fields) : result LeaseGrant :=
  run ← str_item "run_id" row;
  seq_ ← int_item "lease_seq" row;
  challenge ← item "challenge_id" row;
  board ← str_item "board_id" row;
  owner ← str_item "owner_id" row;
  epoch ← int_item "epoch" row;
  generation ← str_item "generation_id" row;
  attempt ← str_item "attempt_id" row;
  phase ← str_item "phase" row;
  phase ← member_of phase_value all_phases phase;
  operation_key ← str_item "operation_key" row;
  sequence ← py_int (get_or "generation_authority_sequence" (JInt 0) row);
  renewal ← py_int (get_or "renewal_sequence" (JInt 0) row);
  until ← (if truthy (get_or "until" JNull row)
           then Some <$> (t ← str_item "until" row; fromisoformat t)
           else Ok None);
  verdict ← member_of verdict_value all_verdicts (py_str (get_or "verdict" (JStr "") row));
  cause ← member_of cause_value all_causes (py_str (get_or "close_cause" (JStr "") row));
  Ok {| lg_identity := {| li_run_id := run; li_lease_seq := seq_ |}; lg_challenge_id := challenge; lg_board_id := board;
        lg_owner_id := owner; lg_epoch := epoch; lg_generation_id := generation; lg_attempt_id := attempt; lg_phase := phase;
        lg_operation_key := operation_key; lg_authority_sequence := sequence;
        lg_authority_event_id := py_str (get_or "generation_authority_event_id" (JStr "") row);
        lg_renewal_sequence := renewal; lg_row_id := py_str (get_or "row_id" (JStr "") row);
        lg_target := py_str (get_or "target" (JStr "") row); lg_until := until; lg_verdict := verdict;
        lg_close_cause := cause |}.

(** [LeaseGrant( **{ **grant.__dict__, ...})]. *)
Definition with_outcome (p : LeasePhase) (v : LeaseVerdict) (c : LeaseCloseCause) (g : LeaseGrant) : LeaseGrant := {|
  lg_identity := lg_identity g; lg_challenge_id := lg_challenge_id g; lg_board_id := lg_board_id g; lg_owner_id := lg_owner_id g;
  lg_epoch := lg_epoch g; lg_generation_id := lg_generation_id g; lg_attempt_id := lg_attempt_id g; lg_phase := p;
  lg_operation_key := lg_operation_key g; lg_authority_sequence := lg_authority_sequence g;
  lg_authority_event_id := lg_authority_event_id g; lg_renewal_sequence := lg_renewal_sequence g; lg_row_id := lg_row_id g;
  lg_target := lg_target g; lg_until := lg_until g; lg_verdict := v; lg_close_cause := c |}.

Definition with_operation (p : LeasePhase) (k : string) (renewal : Z) (until : option moment) (g : LeaseGrant) : LeaseGrant := {|
  lg_identity := lg_identity g; lg_challenge_id := lg_challenge_id g; lg_board_id := lg_board_id g; lg_owner_id := lg_owner_id g;
  lg_epoch := lg_epoch g; lg_generation_id := lg_generation_id g; lg_attempt_id := lg_attempt_id g; lg_phase := p;
  lg_operation_key := k; lg_authority_sequence := lg_authority_sequence g;
  lg_authority_event_id := lg_authority_event_id g; lg_renewal_sequence := renewal; lg_row_id := lg_row_id g;
  lg_target := lg_target g; lg_until := until; lg_verdict := lg_verdict g; lg_close_cause := lg_close_cause g |}.

Definition with_admission (sequence : Z) (event_id : string) (g : LeaseGrant) : LeaseGrant := {|
  lg_identity := lg_identity g; lg_challenge_id := lg_challenge_id g; lg_board_id := lg_board_id g; lg_owner_id := lg_owner_id g;
  lg_epoch := lg_epoch g; lg_generation_id := lg_generation_id g; lg_attempt_id := lg_attempt_id g; lg_phase := lg_phase g;
  lg_operation_key := lg_operation_key g; lg_authority_sequence := sequence; lg_authority_event_id := event_id;
  lg_renewal_sequence := lg_renewal_sequence g; lg_row_id := lg_row_id g; lg_target := lg_target g; lg_until := lg_until g;
  lg_verdict := lg_verdict g; lg_close_cause := lg_close_cause g |}.

Definition with_row (row_id target : string) (until : option moment) (g : LeaseGrant) : LeaseGrant := {|
  lg_identity := lg_identity g; lg_challenge_id := lg_challenge_id g; lg_board_id := lg_board_id g; lg_owner_id := lg_owner_id g;
  lg_epoch := lg_epoch g; lg_generation_id := lg_generation_id g; lg_attempt_id := lg_attempt_id g; lg_phase := lg_phase g;
  lg_operation_key := lg_operation_key g; lg_authority_sequence := lg_authority_sequence g;
  lg_authority_event_id := lg_authority_event_id g; lg_renewal_sequence := lg_renewal_sequence g; lg_row_id := row_id;
  lg_target := target; lg_until := until; lg_verdict := lg_verdict g; lg_close_cause := lg_close_cause g |}.

Definition lease_open (g : LeaseGrant) : bool := negb (bool_decide (lg_phase g = LEASE_CLOSED)).

(** ** Replay *)

Definition LEASE_CONTENDER : string := "lease.contender".

(** The verdict of an effect of [operation] whose response is unknown. *)
Definition ambiguous_verdict (other : LeaseVerdict) (operation : string) : LeaseVerdict :=
  if bool_decide (operation = "create") then CREATE_AMBIGUOUS
  else if bool_decide (operation = "renew") then RENEW_AMBIGUOUS
  else if bool_decide (operation = "release") then RELEASE_AMBIGUOUS
  else if bool_decide (operation = "expire") then EXPIRY_AMBIGUOUS
  else other.

Definition is_lease_effect (r : WriteReservation) : bool :=
  startswith "lease." (operation (identity r)) && negb (bool_decide (operation (identity r) = LEASE_CONTENDER)).

(** [s.removeprefix(p)]. *)
Definition removeprefix (p s : string) : string := default s (strip_prefix p s).

(** The body of the loop's [try]: the grant a reservation stands for, [None] where it belongs to
    another Run or Board. *)
Definition replayed_grant (run board : string) (r : WriteReservation) : result (option LeaseGrant) :=
  semantic ← (match loads (subject (identity r)) with
    | Some (JObj fs) => Ok fs
    | Some _ => Err (AttributeError "get")
    | None => Err (ValueError "JSONDecodeError")
    end);
  if negb (py_eqb (get_or "run_id" JNull semantic) (JStr run)) || negb (py_eqb (get_or "board_id" JNull semantic) (JStr board))
  then Ok None
  else
    match state r, observation r with
    | COMMITTED, Some (JObj ((_ :: _) as obs)) => Some <$> grant_from_document obs
    | _, _ =>
        let verdict := ambiguous_verdict CREATE_AMBIGUOUS (removeprefix "lease." (operation (identity r))) in
        Some <$> grant_from_document (dict_set "close_cause" (JStr "")
          (dict_set "verdict" (JStr (verdict_value verdict))
          (dict_set "phase" (JStr (phase_value RECOVERABLE)) semantic)))
    end.

(** [except (KeyError, TypeError, ValueError, json.JSONDecodeError)]. *)
Definition skipped (e : exn) : bool :=
  match e with KeyError _ | TypeError _ | ValueError _ => true | _ => false end.

(** One reservation of the loop. *)
Definition replay_step (run board : string) (current : list (LeaseIdentity * LeaseGrant)) (r : WriteReservation) :
    result (list (LeaseIdentity * LeaseGrant)) :=
  if negb (is_lease_effect r) then Ok current
  else
    match replayed_grant run board r with
    | Ok (Some g) =>
        let newer := match dict_get (lg_identity g) current with None => true | Some previous => lg_epoch previous <=? lg_epoch g end in
        Ok (if newer then dict_set (lg_identity g) g current else current)
    | Ok None => Ok current
    | Err e => if skipped e then Ok current else Err e
    end.

Fixpoint replay_all (run board : string) (current : list (LeaseIdentity * LeaseGrant)) (l : list WriteReservation) :
    result (list (LeaseIdentity * LeaseGrant)) :=
  match l with
  | [] => Ok current
  | r :: l => current ← replay_step run board current r; replay_all run board current l
  end.

Definition by_seq (l : list LeaseGrant) : list LeaseGrant := sort_by (fun g => li_lease_seq (lg_identity g)) l.

Definition replay_leases (l : list WriteReservation) (run board : string) : result (list LeaseGrant) :=
  current ← replay_all run board [] l;
  Ok (by_seq (dict_values current)).

(** ** The coordinator *)

Definition LEASE_EFFECT_CAPACITY : Capacity := capacity 2048 1 3.

Definition ABSENT : string := "absent".
Definition ANSWERED : string := "answered".

(** [Reply] of [src/solver/board.py]. *)
Record Reply : Type := { rp_outcome : string; rp_connection_info : string; rp_until : option moment; rp_detail : string }.

Record Coordinator : Type := {
  co_leases : list (LeaseIdentity * LeaseGrant);
  co_active : list (json * LeaseGrant);
  co_next_seq : Z
}.

(** What the outside answers to one operation, if it is asked: the Board's call, the corroboration
    of the row, and what other threads do to the authority while an effect under way is awaited. *)
Record Outside : Type := {
  out_reply : result Reply;
  out_row : result RowCorroboration;
  out_polls : list (list op);
  out_late_polls : list (list op)
}.

Section coordinator.
Context `{Digester} (faults : Faults) (redact : string -> string) (boot : string) (proof : list (string * json)).
Context {F : Type} (admit_generation : string -> Prog F (option (Z * string))).
Context (run_id board_id owner_id : string).

Record LeaseWorld : Type := { lw_authority : World; lw_fence : F; lw_coordinator : Coordinator }.

Definition on_authority {A} (m : M A) : Prog LeaseWorld A := fun w =>
  let '(a, o) := m (lw_authority w) in
  ({| lw_authority := a; lw_fence := lw_fence w; lw_coordinator := lw_coordinator w |}, o).

Definition on_fence {A} (m : Prog F A) : Prog LeaseWorld A := fun w =>
  let '(f, o) := m (lw_fence w) in
  ({| lw_authority := lw_authority w; lw_fence := f; lw_coordinator := lw_coordinator w |}, o).

Definition keep_coordinator (c : Coordinator) : Prog LeaseWorld unit := fun w =>
  ({| lw_authority := lw_authority w; lw_fence := lw_fence w; lw_coordinator := c |}, Done tt).

(** [except Exception], which power loss is not. *)
Definition rescue {A} (m : Prog LeaseWorld A) (h : exn -> Prog LeaseWorld A) : Prog LeaseWorld A := fun w =>
  match m w with (w', Raised e) => h e w' | r => r end.

(** [_key]. *)
Definition lease_key (i : LeaseIdentity) (operation : string) (epoch : Z) (discriminator : string) : string :=
  "lease:" +:+ li_run_id i +:+ ":" +:+ str_int (li_lease_seq i) +:+ ":" +:+ str_int epoch +:+ ":" +:+ operation
  +:+ (if bool_decide (discriminator = "") then "" else ":" +:+ discriminator).

(** [__init__] once the authority is open: the identity is checked and the ledger replayed. *)
Definition coordinator_of (leases : list LeaseGrant) : Coordinator := {|
  co_leases := dict_of lg_identity leases;
  co_active := dict_of lg_challenge_id (List.filter lease_open leases);
  co_next_seq := maxZ 0 ((fun g => li_lease_seq (lg_identity g)) <$> leases) + 1 |}.

Definition open_coordinator : Prog LeaseWorld unit :=
  try (raise_if (bool_decide (run_id = "") || bool_decide (board_id = "") || bool_decide (owner_id = ""))
    (ValueError "Lease coordinator identity is incomplete"));;
  s ← on_authority get;
  leases ← try (replay_leases (dict_values (latest_locked s)) run_id board_id);
  keep_coordinator (coordinator_of leases).

(** [_remember]. *)
Definition remember (g : LeaseGrant) (c : Coordinator) : Coordinator := {|
  co_leases := dict_set (lg_identity g) g (co_leases c);
  co_active := if bool_decide (lg_phase g = LEASE_CLOSED) then dict_del (lg_challenge_id g) (co_active c)
               else dict_set (lg_challenge_id g) g (co_active c);
  co_next_seq := co_next_seq c |}.

Definition remember_and_return (g : LeaseGrant) : Prog LeaseWorld LeaseGrant :=
  c ← ask lw_coordinator;
  keep_coordinator (remember g c);;
  mret g.

(** [_intent_document]. *)
Definition intent_document (p : LeaseGrant) : fields := grant_document (with_outcome LEASE_RESERVED VERDICT_NONE CAUSE_NONE p).

Definition effect_identity (operation_ : string) (p : LeaseGrant) : EffectIdentity := {|
  operation := "lease." +:+ operation_; subject := dumps (JObj (intent_document p)); payload_digest := "" |}.

(** [a or b] of texts. *)
Definition or_text (a b : string) : string := if bool_decide (a = "") then b else a.

(** [_classify]; [row] is what [corroborate] answers if it is asked. *)
Definition classify (p : LeaseGrant) (operation_ : string) (reply : Reply) (row : result RowCorroboration) : result fields :=
  let answered := bool_decide (rp_outcome reply = ANSWERED) || bool_decide (rp_outcome reply = ABSENT) in
  let creating := bool_decide (operation_ = "create") in
  row ← (if creating && bool_decide (rp_outcome reply = ANSWERED) then row
         else Ok {| rc_verdict := UNCORROBORATED_ROW; rc_row_id := "" |});
  let '(phase, verdict, cause) :=
    if creating then
      (if negb (bool_decide (rp_connection_info reply = "")) && negb (bool_decide (rc_row_id row = "")) then ATTEMPT_BOUND
       else RECOVERABLE,
       if negb (bool_decide (rp_outcome reply = ANSWERED)) then CREATE_UNSETTLED
       else if bool_decide (rc_row_id row = "") then rc_verdict row else VERDICT_NONE,
       CAUSE_NONE)
    else if bool_decide (operation_ ∈ ["release"; "expire"]) then
      let expiring := bool_decide (operation_ = "expire") in
      (if answered then LEASE_CLOSED else RECOVERABLE,
       if answered then VERDICT_NONE else if expiring then EXPIRY_UNSETTLED else RELEASE_UNSETTLED,
       if negb answered then CAUSE_NONE else if expiring then EXPIRED else TERMINATED)
    else
      (if answered then lg_phase p else RECOVERABLE, if answered then VERDICT_NONE else RENEW_UNSETTLED, lg_close_cause p) in
  Ok (grant_document (with_outcome phase verdict cause
    (with_row (or_text (rc_row_id row) (lg_row_id p)) (or_text (rp_connection_info reply) (lg_target p))
      (match rp_until reply with Some u => Some u | None => lg_until p end) p))).

(** The effect of an operation, encoded: the Board's call and the classification of its reply. *)
Definition lease_effect (p : LeaseGrant) (operation_ : string) (out : Outside) : Effect := {|
  eff_result := JObj <$> (reply ← out_reply out; classify p operation_ reply (out_row out));
  eff_indeterminate := fun _ => [];
  eff_observe := None |}.

(** What [execute] returned, as the dict it is. *)
Definition object_fields (j : json) : fields := match j with JObj fs => fs | _ => [] end.

Definition is_conflict (e : exn) : bool := match e with ReservationConflict _ => true | _ => false end.

(** [_run_effect]. *)
Definition run_lease_effect (p : LeaseGrant) (operation_ : string) (out : Outside) : Prog LeaseWorld LeaseGrant :=
  rescue
    (obs ← on_authority (execute faults redact boot proof (lg_operation_key p) (effect_identity operation_ p)
       LEASE_EFFECT_CAPACITY RECORD (lease_effect p operation_ out) (out_polls out) (out_late_polls out));
     try (grant_from_document (object_fields obs)))
    (fun e => if is_conflict e then fail e
      else mret (with_outcome RECOVERABLE (ambiguous_verdict RELEASE_AMBIGUOUS operation_) (lg_close_cause p) p)).

(** [_admit_effect]. *)
Definition admit_effect (generation : GenerationIdentity) (p : LeaseGrant) (operation_ : string) (out : Outside) :
    Prog LeaseWorld LeaseGrant :=
  granted ← on_fence (admit_generation (id_generation generation));
  match granted with
  | Some (sequence, event_id) => run_lease_effect (with_admission sequence event_id p) operation_ out
  | None => fail (StaleLease "Work generation is durably closed or superseded")
  end.

(** [_current]. *)
Definition current_lease (i : LeaseIdentity) (epoch : Z) (generation : GenerationIdentity) : Prog LeaseWorld LeaseGrant :=
  c ← ask lw_coordinator;
  match dict_get i (co_leases c) with
  | Some g =>
      if (lg_epoch g =? epoch) && bool_decide (lg_generation_id g = id_generation generation)
         && bool_decide (lg_attempt_id g = id_attempt generation) && lease_open g
      then mret g
      else fail (StaleLease "Lease identity, epoch or Work generation no longer owns authority")
  | None => fail (StaleLease "Lease identity, epoch or Work generation no longer owns authority")
  end.

(** [_validate_generation]. *)
Definition generation_belongs (challenge : json) (generation : GenerationIdentity) : bool :=
  bool_decide (id_work generation = (if is_int challenge then "integer" else "string") +:+ ":" +:+ py_str challenge)
  && negb (bool_decide (id_generation generation = "")) && negb (bool_decide (id_attempt generation = "")).

(** [_record_contender]: what it records, its key, and the call. *)
Definition contender_identity (i : LeaseIdentity) (attempt : string) : EffectIdentity := {|
  operation := LEASE_CONTENDER;
  subject := dumps (JObj [("contender_attempt_id", JStr attempt); ("lease_seq", JInt (li_lease_seq i)); ("run_id", JStr (li_run_id i))]);
  payload_digest := "" |}.

Definition contender_key (i : LeaseIdentity) (attempt : string) : string :=
  "lease:" +:+ run_id +:+ ":" +:+ str_int (li_lease_seq i) +:+ ":contender:" +:+ attempt.

Definition record_contender (existing : LeaseGrant) (attempt : string) : M unit :=
  let i := lg_identity existing in
  reservation ← reserve faults redact boot
    (plain_request (contender_key i attempt) (contender_identity i attempt) LEASE_EFFECT_CAPACITY SHARED RECORD);
  started ← start reservation;
  commit faults redact started (JObj [("result", JStr "fenced"); ("active_epoch", JInt (lg_epoch existing))]);;
  mret tt.

Definition acquire_lease (challenge : json) (generation : GenerationIdentity) (out : Outside) : Prog LeaseWorld LeaseGrant :=
  try (raise_unless (generation_belongs challenge generation) (StaleLease "Work generation does not belong to this Challenge"));;
  c ← ask lw_coordinator;
  match dict_get challenge (co_active c) with
  | Some existing =>
      on_authority (record_contender existing (id_attempt generation));;
      fail (LeaseContended ("Challenge " +:+ py_repr challenge +:+ " is fenced by Lease "
        +:+ str_int (li_lease_seq (lg_identity existing))))
  | None =>
      let i := {| li_run_id := run_id; li_lease_seq := co_next_seq c |} in
      keep_coordinator {| co_leases := co_leases c; co_active := co_active c; co_next_seq := co_next_seq c + 1 |};;
      g ← admit_effect generation {|
        lg_identity := i; lg_challenge_id := challenge; lg_board_id := board_id; lg_owner_id := owner_id; lg_epoch := 1;
        lg_generation_id := id_generation generation; lg_attempt_id := id_attempt generation; lg_phase := LEASE_RESERVED;
        lg_operation_key := lease_key i "create" 1 ""; lg_authority_sequence := 0; lg_authority_event_id := "";
        lg_renewal_sequence := 0; lg_row_id := ""; lg_target := ""; lg_until := None; lg_verdict := VERDICT_NONE;
        lg_close_cause := CAUSE_NONE |} "create" out;
      remember_and_return g
  end.

Definition renew_lease (i : LeaseIdentity) (epoch : Z) (generation : GenerationIdentity) (until : moment) (out : Outside) :
    Prog LeaseWorld LeaseGrant :=
  g ← current_lease i epoch generation;
  let n := if bool_decide (lg_verdict g = RENEW_AMBIGUOUS) then lg_renewal_sequence g else lg_renewal_sequence g + 1 in
  g ← admit_effect generation (with_operation (lg_phase g) (lease_key i "renew" epoch (str_int n)) n (Some until) g) "renew" out;
  remember_and_return g.

Definition releasing (i : LeaseIdentity) (epoch : Z) (g : LeaseGrant) : LeaseGrant :=
  with_operation LEASE_RESERVED (lease_key i "release" epoch "") (lg_renewal_sequence g) (lg_until g) g.

Definition release_lease (i : LeaseIdentity) (epoch : Z) (generation : GenerationIdentity) (out : Outside) :
    Prog LeaseWorld LeaseGrant :=
  g ← current_lease i epoch generation;
  g ← admit_effect generation (releasing i epoch g) "release" out;
  remember_and_return g.

(** [Reply(ABSENT)]. *)
Definition absent_reply : Reply := {| rp_outcome := ABSENT; rp_connection_info := ""; rp_until := None; rp_detail := "" |}.

Definition expire_lease (i : LeaseIdentity) (epoch : Z) (generation : GenerationIdentity) (corroborated_absence : string)
    (polls late : list (list op)) : Prog LeaseWorld LeaseGrant :=
  try (raise_if (bool_decide (corroborated_absence = "")) (ValueError "Lease expiry requires corroborated absence"));;
  g ← current_lease i epoch generation;
  g ← admit_effect generation
    (with_operation LEASE_RESERVED (lease_key i "expire" epoch corroborated_absence) (lg_renewal_sequence g) (lg_until g) g)
    "expire" {| out_reply := Ok absent_reply; out_row := Ok {| rc_verdict := UNCORROBORATED_ROW; rc_row_id := "" |};
                out_polls := polls; out_late_polls := late |};
  remember_and_return g.

Definition current_of (i : LeaseIdentity) : Prog LeaseWorld LeaseGrant :=
  c ← ask lw_coordinator;
  match dict_get i (co_leases c) with Some g => mret g | None => fail (KeyError (str_int (li_lease_seq i))) end.

Definition active_of (challenge : json) : Prog LeaseWorld (option LeaseGrant) :=
  c ← ask lw_coordinator; mret (dict_get challenge (co_active c)).

Definition leases_of : Prog LeaseWorld (list LeaseGrant) :=
  c ← ask lw_coordinator; mret (by_seq (dict_values (co_leases c))).

Definition reconcile_release (i : LeaseIdentity) (epoch : Z) (snapshot_id : string) (out : Outside) : Prog LeaseWorld LeaseGrant :=
  try (raise_if (bool_decide (snapshot_id = "")) (ValueError "Reconciliation cleanup requires snapshot evidence"));;
  c ← ask lw_coordinator;
  match dict_get i (co_leases c) with
  | Some g =>
      if (lg_epoch g =? epoch) && lease_open g then
        g ← run_lease_effect (releasing i epoch g) "release" out;
        remember_and_return g
      else fail (StaleLease "Lease identity or epoch no longer owns cleanup authority")
  | None => fail (StaleLease "Lease identity or epoch no longer owns cleanup authority")
  end.

Definition reconcile_grant_release (g : LeaseGrant) (snapshot_id : string) (out : Outside) : Prog LeaseWorld LeaseGrant :=
  try (raise_unless (bool_decide (lg_board_id g = board_id) && bool_decide (lg_owner_id g = owner_id))
    (StaleLease "Reconciliation evidence belongs to another Board owner"));;
  if bool_decide (li_run_id (lg_identity g) = run_id) then reconcile_release (lg_identity g) (lg_epoch g) snapshot_id out
  else run_lease_effect (releasing (lg_identity g) (lg_epoch g) g) "release" out.
End coordinator.
