(* ===== verification/LeaseLedger.v ===== *)
(** Leases in the ledger of the write authority: their documents read back, and what a replay
    sees of each reservation. *)

From Stdlib Require Import Ascii.
From S2P Require Import Prelude Canon Text PyJson Moment MomentFormat JsonText Reservation ReservationLogic ReservationFacts WorkGeneration Lease.
Local Open Scope Z_scope.

(** ** Documents *)

Definition until_ok (g : LeaseGrant) : Prop := match lg_until g with Some m => representable m | None => True end.

(** An [int] or a [str]. *)
Definition scalar (j : json) : Prop := match j with JInt _ | JStr _ => True | _ => False end.

Lemma member_phase p : member_of phase_value all_phases (phase_value p) = Ok p.
Proof. by destruct p. Qed.

Lemma member_verdict v : member_of verdict_value all_verdicts (verdict_value v) = Ok v.
Proof. by destruct v. Qed.

Lemma member_cause c : member_of cause_value all_causes (cause_value c) = Ok c.
Proof. by destruct c. Qed.

Lemma isoformat_text m : representable m -> isoformat m <> "".
Proof. intros Hm E. pose proof (isoformat_roundtrip m Hm) as H. by rewrite E in H. Qed.

(** Look a name up in a document written out. *)
Ltac item_of n d := lazymatch d with (n, ?v) :: _ => v | _ :: ?r => item_of n r end.
Ltac grant_items := repeat match goal with
  | |- context [dict_get ?n (grant_document ?g)] =>
      let d := eval unfold grant_document in (grant_document g) in
      let v := item_of n d in change (dict_get n (grant_document g)) with (Some v)
  end.

(** Any dict with the items of a grant's document reads back as the grant. *)
Lemma grant_read g row :
  (forall n, dict_get n row = dict_get n (grant_document g)) -> until_ok g -> grant_from_document row = Ok g.
Proof.
  intros Hget Hu. unfold grant_from_document, str_item, int_item, item, get_or. rewrite !Hget. grant_items.
  cbn -[member_of fromisoformat truthy isoformat]. rewrite member_phase. cbn -[member_of fromisoformat truthy isoformat].
  assert ((if truthy (JStr match lg_until g with Some m => isoformat m | None => "" end)
    then Some <$> fromisoformat match lg_until g with Some m => isoformat m | None => "" end else Ok None) = Ok (lg_until g)) as Hiso.
  { unfold until_ok in Hu. destruct (lg_until g) as [m|]; [|done]. cbn -[isoformat fromisoformat].
    rewrite bool_decide_false by (by apply isoformat_text). cbn -[isoformat fromisoformat]. by rewrite isoformat_roundtrip. }
  rewrite Hiso. cbn -[member_of]. rewrite member_verdict. cbn -[member_of]. rewrite member_cause. by destruct g as [[] ? ? ? ? ? ? ? ? ? ? ? ? ? ? ? ?].
Qed.

Theorem grant_roundtrip g : until_ok g -> grant_from_document (grant_document g) = Ok g.
Proof. intros Hu. by apply grant_read. Qed.

Lemma intent_keyed p : scalar (lg_challenge_id p) -> well_keyed (JObj (intent_document p)).
Proof.
  intros Hc. apply well_keyed_obj. split; [by apply (bool_decide_unpack _)|].
  unfold intent_document, grant_document. repeat constructor; cbn. by destruct (lg_challenge_id p).
Qed.

Lemma dict_get_key_sorted n (fs : fields) :
  dict_get n (sort_by fst (List.map (fun f => (f.1, key_sorted f.2)) fs)) = key_sorted <$> dict_get n fs.
Proof. by rewrite dict_get_sort, dict_get_map. Qed.

(** The stored intent of an effect. *)
Lemma read_intent p :
  scalar (lg_challenge_id p) ->
  exists fs, loads (dumps (JObj (intent_document p))) = Some (JObj fs)
    /\ forall n, dict_get n fs = dict_get n (intent_document p).
Proof.
  intros Hc. rewrite loads_dumps by (by apply intent_keyed). eexists. split; [done|]. intros n.
  rewrite dict_get_key_sorted. unfold intent_document, grant_document.
  repeat (rewrite dict_get_cons; case_bool_decide; [cbn; try done; by destruct (lg_challenge_id p)|]). done.
Qed.

(** The intent: everything of a grant an outcome does not change. *)
Definition intent (p : LeaseGrant) : LeaseGrant := with_outcome LEASE_RESERVED VERDICT_NONE CAUSE_NONE p.

Definition lease_operations : list string := ["create"; "renew"; "release"; "expire"].

Lemma subject_inj p q :
  scalar (lg_challenge_id p) -> scalar (lg_challenge_id q) -> until_ok p -> until_ok q ->
  dumps (JObj (intent_document p)) = dumps (JObj (intent_document q)) -> intent p = intent q.
Proof.
  intros Hp Hq Up Uq E. destruct (read_intent p Hp) as (fs & Hl & Hg), (read_intent q Hq) as (fs' & Hl' & Hg').
  rewrite E, Hl' in Hl. injection Hl as ->. pose proof (grant_read (intent p) fs Hg Up) as H1.
  rewrite (grant_read (intent q) fs Hg' Uq) in H1. congruence.
Qed.

Lemma effect_identity_inj o p o' q :
  scalar (lg_challenge_id p) -> scalar (lg_challenge_id q) -> until_ok p -> until_ok q ->
  effect_identity o p = effect_identity o' q -> o = o' /\ intent p = intent q.
Proof.
  intros Hp Hq Up Uq E. split.
  - apply (f_equal operation) in E. cbn in E. by apply string_app_inj_l in E.
  - apply subject_inj; [done..|]. by apply (f_equal subject) in E.
Qed.

(** ** What a replay sees *)

(** The last grant of each Lease. *)
Definition replays (l : list (option LeaseGrant)) : list (LeaseIdentity * LeaseGrant) :=
  foldl (fun d o => match o with Some g => dict_set (lg_identity g) g d | None => d end) [] l.

Definition replayed (l : list (option LeaseGrant)) (i : LeaseIdentity) : option LeaseGrant := dict_get i (replays l).

Lemma replayed_snoc l o i :
  replayed (l ++ [o]) i = match o with
    | Some g => if bool_decide (i = lg_identity g) then Some g else replayed l i
    | None => replayed l i
    end.
Proof. unfold replayed, replays. rewrite foldl_app. cbn. destruct o as [g|]; [|done]. by rewrite dict_get_set. Qed.

Lemma replays_keys l : NoDup (replays l).*1 /\ Forall (fun ig => lg_identity ig.2 = ig.1 /\ Some ig.2 ∈ l) (replays l).
Proof.
  induction l as [|o l [IHn IHf]] using rev_ind; [split; constructor|].
  assert (IHf' : Forall (fun ig => lg_identity ig.2 = ig.1 /\ Some ig.2 ∈ l ++ [o]) (replays l)).
  { eapply Forall_impl; [exact IHf|]. cbn. intros ig [? ?]. split; [done|]. apply elem_of_app. by left. }
  unfold replays in *. rewrite foldl_app. cbn. destruct o as [g|]; [|done]. split; [by apply dict_set_NoDup|].
  apply dict_set_Forall; [done|]. cbn. split; [done|]. apply elem_of_app. right. by left.
Qed.

Lemma replayed_identity l i g : replayed l i = Some g -> lg_identity g = i /\ Some g ∈ l.
Proof.
  intros Hg%dict_get_Some_elem. destruct (replays_keys l) as [_ Hf]. rewrite Forall_forall in Hf. by destruct (Hf _ Hg).
Qed.

Section view.
Context (run board : string).

Definition sight (c : WriteReservation) : result (option LeaseGrant) :=
  if is_lease_effect c then replayed_grant run board c else Ok None.

(** A reservation a replay reads without an error it does not catch, under the only epoch there is. *)
Definition plain_sight (c : WriteReservation) : Prop :=
  exists o, sight c = Ok o /\ match o with Some g => lg_epoch g = 1 | None => True end.

Definition seen (c : WriteReservation) : option LeaseGrant := match sight c with Ok o => o | Err _ => None end.

Definition view (rs : list Row) : list (string * option LeaseGrant) := (fun kc => (kc.1, seen kc.2)) <$> latest_of rs.

Definition leases_in (rs : list Row) (i : LeaseIdentity) : option LeaseGrant := replayed (view rs).*2 i.

Lemma replay_step_sight d c :
  replay_step run board d c = match sight c with
    | Ok (Some g) => Ok (if match dict_get (lg_identity g) d with None => true | Some p => lg_epoch p <=? lg_epoch g end
                         then dict_set (lg_identity g) g d else d)
    | Ok None => Ok d
    | Err e => if skipped e then Ok d else Err e
    end.
Proof. unfold replay_step, sight. destruct (is_lease_effect c); [|done]. cbn [negb]. by destruct (replayed_grant run board c) as [[g|]|e]. Qed.

Lemma replay_all_replays l :
  Forall plain_sight l -> replay_all run board [] l = Ok (replays (seen <$> l)).
Proof.
  intros Hl. assert (Hgen : forall d, Forall (fun ig => lg_epoch ig.2 = 1) d ->
    replay_all run board d l = Ok (foldl (fun d o => match o with Some g => dict_set (lg_identity g) g d | None => d end) d (seen <$> l))).
  { induction Hl as [|c l (o & Hs & He) _ IH]; intros d Hd; [done|]. cbn [replay_all fmap list_fmap foldl].
    rewrite replay_step_sight. unfold seen at 1. rewrite Hs. destruct o as [g|]; cbn [mbind result_bind]; [|by apply IH].
    assert (match dict_get (lg_identity g) d with None => true | Some p => lg_epoch p <=? lg_epoch g end = true) as ->.
    { destruct (dict_get (lg_identity g) d) as [p|] eqn:E; [|done]. apply dict_get_Some_elem in E. rewrite Forall_forall in Hd.
      pose proof (Hd _ E) as Hp. cbn in Hp. rewrite Hp, He. done. }
    apply IH. by apply dict_set_Forall. }
  by apply Hgen.
Qed.

Lemma map_dict_set {A B} (f : A -> B) k (a : A) (d : list (string * A)) :
  (fun ka => (ka.1, f ka.2)) <$> dict_set k a d = dict_set k (f a) ((fun ka => (ka.1, f ka.2)) <$> d).
Proof.
  induction d as [|[k' a'] d IH]; [done|]. cbn. case_bool_decide; [done|]. cbn. by f_equal.
Qed.

Lemma dict_get_map_values {A B} (f : A -> B) k (d : list (string * A)) :
  dict_get k ((fun ka => (ka.1, f ka.2)) <$> d) = f <$> dict_get k d.
Proof. induction d as [|[k' a'] d IH]; [done|]. cbn. by case_bool_decide. Qed.

Lemma seen_norm c : seen (norm c) = seen c.
Proof. done. Qed.

Lemma view_snoc rs row : view (rs ++ [row]) = dict_set (key (written row)) (seen (written row)) (view rs).
Proof. unfold view, latest_of. rewrite foldl_app. cbn. by rewrite map_dict_set. Qed.

Lemma view_get k rs : dict_get k (view rs) = seen <$> status k rs.
Proof. apply dict_get_map_values. Qed.

Lemma dict_set_same {A} k (a : A) (d : list (string * A)) : dict_get k d = Some a -> dict_set k a d = d.
Proof.
  induction d as [|[k' a'] d IH]; [done|]. cbn. case_bool_decide; [by intros [= ->]; subst|]. intros Hd. by rewrite IH.
Qed.

(** A record that shows what its reservation already showed, or that shows nothing, changes nothing. *)
Lemma leases_snoc_same rs row i :
  match status (key (written row)) rs with Some c => seen (written row) = seen c | None => seen (written row) = None end ->
  leases_in (rs ++ [row]) i = leases_in rs i.
Proof.
  intros Hs. unfold leases_in. rewrite view_snoc. pose proof (view_get (key (written row)) rs) as Hv.
  destruct (status _ rs) as [c|]; cbn in Hv.
  - by rewrite Hs, dict_set_same.
  - rewrite dict_set_new by done. rewrite fmap_app. cbn. by rewrite replayed_snoc, Hs.
Qed.

Lemma leases_snoc_new rs row i :
  status (key (written row)) rs = None ->
  leases_in (rs ++ [row]) i = match seen (written row) with
    | Some g => if bool_decide (i = lg_identity g) then Some g else leases_in rs i
    | None => leases_in rs i
    end.
Proof.
  intros Hs. unfold leases_in. rewrite view_snoc. pose proof (view_get (key (written row)) rs) as Hv. rewrite Hs in Hv.
  rewrite dict_set_new by done. rewrite fmap_app. cbn. by rewrite replayed_snoc.
Qed.
End view.
