(* ===== verification/LeaseEffects.v ===== *)
(** One Lease effect in the ledger: what [execute] appends and returns, for a key nobody used and for
    one that has a reservation. *)

From S2P Require Import Prelude Canon Text PyJson JsonText Reservation ReservationLogic ReservationFacts WorkGeneration Lease LeaseLedger.
Local Open Scope Z_scope.

(** The effects a history presents to the authority, as a list that has all of them. *)
Class AtHand : Type := at_hand : list EffectIdentity.

Section effects.
Context `{Digester} {AH : AtHand} (faults : Faults) (redact : string -> string) (boot : string) (proof : list (string * json)).

(** Two of the effects at hand, different ones, have one fingerprint. *)
Definition collision : Prop := exists i j : EffectIdentity, i ∈ at_hand /\ j ∈ at_hand /\ i <> j /\ fingerprint i = fingerprint j.

(** A record of another component: a replay passes it over, and it is bound to no Lease effect at
    hand, unless fingerprints collide. *)
Definition foreign (r : WriteReservation) : Prop :=
  is_lease_effect r = false
  /\ forall o p, o ∈ lease_operations -> effect_identity o p ∈ at_hand -> effect_fingerprint r = fingerprint (effect_identity o p) -> collision.

(** The ledger grows by such records, under keys that have no others. *)
Inductive foreign_growth (rs : list Row) : list Row -> Prop :=
  | growth_none : foreign_growth rs rs
  | growth_snoc rs' row :
      foreign_growth rs rs' -> foreign (written row) ->
      (forall c, status (key (written row)) rs' = Some c -> is_lease_effect c = false) -> foreign_growth rs (rs' ++ [row]).

Lemma foreign_status rs rs' k c :
  foreign_growth rs rs' -> status k rs = Some c -> is_lease_effect c = true -> status k rs' = Some c.
Proof.
  intros Hg Hs Hc. induction Hg as [|rs' row _ IH Hrow Hkey]; [done|]. rewrite status_snoc.
  case_bool_decide as E; [|done]. subst k. apply Hkey in IH. congruence.
Qed.

(** What other threads may do while an effect is awaited. *)
Definition foreign_op (o : op) : Prop := forall rs es, wf_rows rs ->
  runs rs es (run_op faults redact boot proof o) (fun _ rs' _ => wf_rows rs' /\ foreign_growth rs rs')
    (fun rs' _ => wf_rows rs' /\ foreign_growth rs rs').

Lemma growth_trans rs1 rs2 rs3 : foreign_growth rs1 rs2 -> foreign_growth rs2 rs3 -> foreign_growth rs1 rs3.
Proof. intros H1 H2. induction H2; [done|]. by constructor. Qed.

Lemma runs_foreign_ops l rs es :
  wf_rows rs -> Forall foreign_op l ->
  runs rs es (run_ops faults redact boot proof l) (fun _ rs' _ => wf_rows rs' /\ foreign_growth rs rs')
    (fun rs' _ => wf_rows rs' /\ foreign_growth rs rs').
Proof.
  intros Hwf Hl. revert rs es Hwf. induction Hl as [|o l Ho _ IH]; intros rs es Hwf; cbn.
  { apply runs_ret. split; [done|]. constructor. }
  apply runs_bind.
  apply (runs_weaken _ _ _ (fun _ rs' _ => wf_rows rs' /\ foreign_growth rs rs') _ (fun rs' _ => wf_rows rs' /\ foreign_growth rs rs')); [| |done].
  - apply runs_catch. eapply runs_weaken; [by apply Ho|done|]. cbn. intros rs1 es1 H1. split; [done|]. intros e. by apply runs_ret.
  - intros [] rs1 es1 [Hwf1 Hg1]. eapply runs_weaken; [by apply IH| |]; cbn; intros; (split; [naive_solver|]); eapply growth_trans; naive_solver.
Qed.

(** Awaiting a reservation of a Lease effect that no one moves on. *)
Lemma runs_await polls k c rs es :
  wf_rows rs -> Forall (Forall foreign_op) polls -> key c = k -> status k rs = Some c -> is_lease_effect c = true ->
  runs rs es (await_terminal faults redact boot proof polls c) (fun r rs' _ => r = c /\ wf_rows rs' /\ foreign_growth rs rs')
    (fun rs' _ => wf_rows rs' /\ foreign_growth rs rs').
Proof.
  intros Hwf Hp Hkey Hs Hc. revert rs es Hwf Hs. induction Hp as [|others polls Ho _ IH]; intros rs es Hwf Hs; cbn;
    (destruct (is_open (state c)); [|apply runs_ret; split; [done|]; split; [done|]; constructor]).
  - apply runs_ret. split; [done|]. split; [done|]. constructor.
  - apply runs_bind. eapply runs_weaken; [by apply runs_foreign_ops| |done]. cbn. intros [] rs1 es1 [Hwf1 Hg1].
    apply runs_current. rewrite Hkey. pose proof (foreign_status _ _ _ _ Hg1 Hs Hc) as Hs1. rewrite Hs1.
    eapply runs_weaken; [by apply IH| |]; cbn; intros; (split_and?; [naive_solver..|]); eapply growth_trans; naive_solver.
Qed.

(** ** Programs that raise no [ReservationConflict] *)

Definition peaceful {A} (m : M A) : Prop := forall w w' e, m w = (w', Raised e) -> is_conflict e = false.

Lemma peaceful_ret {A} (a : A) : peaceful (mret a).
Proof. by intros w w' e. Qed.

Lemma peaceful_raise {A} e : is_conflict e = false -> peaceful (raise (A := A) e).
Proof. by intros He w w' e' [= _ <-]. Qed.

Lemma peaceful_bind {A B} (m : M A) (f : A -> M B) : peaceful m -> (forall a, peaceful (f a)) -> peaceful (m ≫= f).
Proof.
  intros Hm Hf w w' e. unfold mbind, M_bind. destruct (m w) as [w1 [a|e1|]] eqn:E; [apply Hf| |done]. intros [= <- <-]. by eapply Hm.
Qed.

Lemma peaceful_get : peaceful get.
Proof. by intros w w' e. Qed.

Lemma peaceful_durable f : peaceful (durable f).
Proof. intros w w' e. unfold durable. by destruct (writes_left w). Qed.

Lemma peaceful_capacity c : peaceful (lift (Capacity_new c)).
Proof. unfold Capacity_new, raise_if. intros w w' e. destruct (py_any _ _); cbn; [by intros [= _ <-]|done]. Qed.

Ltac peace := repeat first
  [ apply peaceful_ret | apply peaceful_get | apply peaceful_durable | apply peaceful_capacity
  | apply peaceful_raise; reflexivity | apply peaceful_bind; [|intros ?]
  | match goal with |- peaceful (if ?b then _ else _) => destruct b
                  | |- peaceful (match ?x with _ => _ end) => destruct x end ].

Lemma peaceful_take_slots p cl count names : peaceful (take_slots faults p cl count names).
Proof. revert count. induction names as [|x names IH]; intros count; cbn; [peace|]. unfold clear_slot. peace; apply IH. Qed.

Lemma peaceful_slots p count : peaceful (available_object_slots faults p count).
Proof. unfold available_object_slots. peace. apply peaceful_take_slots. Qed.

Lemma peaceful_headroom ps : peaceful (headroom_of faults ps).
Proof.
  induction ps as [|p ps IH]; cbn; [peace|]. apply peaceful_bind; [|intros c; peace; apply IH].
  unfold available_capacity. peace. apply peaceful_slots.
Qed.

Lemma peaceful_append r lp : peaceful (append_locked r lp).
Proof. unfold append_locked. peace. Qed.

Lemma peaceful_release_slots p names b : peaceful (release_slots faults p names b).
Proof. revert b. induction names as [|x names IH]; intros b; cbn; [peace|]. unfold clear_slot. peace; apply IH. Qed.

Lemma peaceful_give_back r : peaceful (give_back faults r).
Proof. unfold give_back, release_object_slots, replenish_extent. peace. apply peaceful_release_slots. Qed.

(** [runs], where what is raised is no conflict either. *)
Definition sure {A} rs es (m : M A) (Q : A -> list Row -> list string -> Prop) (X : list Row -> list string -> Prop) : Prop :=
  forall w, rows_locked (disk w) = rs -> effects w = es ->
    match m w with
    | (w', Done a) => Q a (rows_locked (disk w')) (effects w')
    | (w', Raised e) => is_conflict e = false /\ X (rows_locked (disk w')) (effects w')
    | (w', Crashed) => X (rows_locked (disk w')) (effects w')
    end.

Lemma sure_peaceful {A} rs es (m : M A) Q X : peaceful m -> runs rs es m Q X -> sure rs es m Q X.
Proof.
  intros Hp Hm w Hr He. specialize (Hm w Hr He). specialize (Hp w). destruct (m w) as [w' [a|e|]]; [done| |done].
  split; [by eapply Hp|done].
Qed.

Lemma sure_bind {A B} rs es (m : M A) (f : A -> M B) Q X :
  sure rs es m (fun a rs' es' => sure rs' es' (f a) Q X) X -> sure rs es (m ≫= f) Q X.
Proof.
  intros Hm w Hr He. specialize (Hm w Hr He). unfold mbind, M_bind. destruct (m w) as [w' [a|e|]]; [by apply Hm|done|done].
Qed.

Lemma sure_weaken {A} rs es (m : M A) Q Q' X :
  sure rs es m Q X -> (forall a rs' es', Q a rs' es' -> Q' a rs' es') -> sure rs es m Q' X.
Proof. intros Hm HQ w Hr He. specialize (Hm w Hr He). destruct (m w) as [w' [a|e|]]; [by apply HQ|done|done]. Qed.

Lemma sure_ret {A} rs es (a : A) (Q : A -> list Row -> list string -> Prop) X : Q a rs es -> sure rs es (mret a) Q X.
Proof. intros HQ w <- <-. exact HQ. Qed.

Lemma sure_raise {A} rs es e (Q : A -> list Row -> list string -> Prop) (X : list Row -> list string -> Prop) :
  is_conflict e = false -> X rs es -> sure rs es (raise e) Q X.
Proof. intros Hc HE w <- <-. by split. Qed.

Lemma sure_current {B} rs es k (f : option WriteReservation -> M B) Q X :
  sure rs es (f (status k rs)) Q X -> sure rs es (current_locked k ≫= f) Q X.
Proof.
  intros Hf w Hr He. unfold current_locked, latest_locked. cbn.
  unfold mbind, M_bind, get, mret, M_ret. rewrite Hr. by apply Hf.
Qed.

Lemma sure_require {B} rs es r c (f : WriteReservation -> M B) Q (X : list Row -> list string -> Prop) :
  status (key r) rs = Some c -> effect_fingerprint c = effect_fingerprint r ->
  sure rs es (f c) Q X -> sure rs es (require_current r ≫= f) Q X.
Proof.
  intros Hs Hf Hm. unfold require_current. apply sure_bind, sure_current. rewrite Hs. unfold assert_same_effect.
  rewrite bool_decide_true by done. apply sure_bind. by apply sure_ret, sure_ret.
Qed.

(** A handler is entered with an exception that is no conflict. *)
Lemma sure_catch {A} rs es (m : M A) h Q (X : list Row -> list string -> Prop) :
  sure rs es m Q (fun rs' es' => X rs' es' /\ forall e, is_conflict e = false -> sure rs' es' (h e) Q X) ->
  sure rs es (catch m h) Q X.
Proof.
  intros Hm w Hr He. specialize (Hm w Hr He). unfold catch. destruct (m w) as [w' [a|e|]]; [done| |by destruct Hm].
  destruct Hm as [Hc [_ Hh]]. by apply Hh.
Qed.

(** ** A key nobody used *)

Section new_key.
Context (k : string) (i : EffectIdentity) (eff : Effect) (rs0 : list Row).

Definition of_effect (r : WriteReservation) : Prop :=
  key r = k /\ identity r = sanitized_identity redact i /\ effect_fingerprint r = fingerprint i.

(** The ledger grew by records of the effect, none of which commits it. *)
Definition only_effect (rs : list Row) : Prop :=
  wf_rows rs /\ exists l, rs = rs0 ++ l /\ Forall (fun row => of_effect (written row) /\ state (written row) <> COMMITTED) l.

(** ... and then by the record that commits it with [v]. *)
Definition committed_effect (v : json) (rs : list Row) : Prop :=
  wf_rows rs /\ exists rs1 row, rs = rs1 ++ [row] /\ only_effect rs1 /\ of_effect (written row)
    /\ state (written row) = COMMITTED /\ observation (written row) = Some (bounded redact v).

Lemma sure_append_effect rs es r lp (Q : unit -> list Row -> list string -> Prop) :
  only_effect rs -> of_effect r -> state r <> COMMITTED ->
  (forall rs', only_effect rs' -> status k rs' = Some (norm r) -> Q tt rs' es) ->
  sure rs es (append_locked r lp) Q (fun rs' _ => only_effect rs').
Proof.
  intros (Hwf & l & -> & Hl) Hr Hst HQ. apply sure_peaceful; [apply peaceful_append|]. apply runs_append; [done| |by split; [|exists l]].
  intros n rs' Hwf'. apply HQ.
  - split; [done|]. exists (l ++ [{| ordinal := n; written := r |}]). split; [unfold rs'; by rewrite app_assoc|].
    apply Forall_app. by split; [|constructor].
  - unfold rs'. rewrite status_snoc. cbn. destruct Hr as [-> _]. by rewrite bool_decide_true.
Qed.

Lemma sure_quiet {A B} rs es (m : M A) (f : A -> M B) Q :
  quiet m -> peaceful m -> only_effect rs ->
  (forall a, sure rs es (f a) Q (fun rs' _ => only_effect rs')) -> sure rs es (m ≫= f) Q (fun rs' _ => only_effect rs').
Proof. intros Hq Hp Ho Hf. apply sure_bind, sure_peaceful; [done|]. by apply runs_quiet. Qed.

(** The reservation stands in the ledger as the effect's. *)
Definition stands_as (s : ReservationState) (r : WriteReservation) (rs : list Row) : Prop :=
  exists c, status k rs = Some c /\ state c = s /\ of_effect c /\ retention c = RECORD
    /\ key r = k /\ effect_fingerprint r = fingerprint i.

Lemma sure_admit n rs es :
  only_effect rs ->
  sure rs es (admit_request faults redact boot (plain_request k i n SHARED RECORD))
    (fun r rs' _ => only_effect rs' /\ state r = RESERVED /\ stands_as RESERVED r rs') (fun rs' _ => only_effect rs').
Proof.
  intros Ho. unfold admit_request. apply sure_quiet; [auto with quiet|apply peaceful_headroom|done|]. intros headroom.
  apply sure_quiet; [auto with quiet|apply peaceful_slots|done|]. intros names.
  apply sure_quiet; [solve_quiet|unfold cap_sub; peace|done|]. intros [|].
  - apply sure_bind. unfold record_refusal. apply sure_quiet; [auto with quiet|apply peaceful_get|done|]. intros s.
    destruct (_ <? 1); [by apply sure_ret, sure_raise|].
    apply sure_append_effect; [done|done|done|]. intros rs' Ho' _. by apply sure_raise.
  - apply sure_quiet; [auto with quiet|unfold cap_sub; peace|done|]. intros left. apply sure_bind.
    apply sure_append_effect; [done|done|done|]. intros rs1 Ho1 Hs1. apply sure_bind.
    apply sure_catch. apply sure_peaceful; [unfold shrink_extent; peace|]. apply runs_quiet; [auto with quiet| |].
    + intros _. apply sure_ret. split; [done|]. split; [done|]. eexists. split; [exact Hs1|]. by repeat split.
    + split; [done|]. intros e He. apply sure_bind. apply sure_append_effect; [done|done|done|]. intros rs2 Ho2 _.
      apply sure_quiet; [auto with quiet|apply peaceful_give_back|done|]. intros _. by apply sure_raise.
Qed.

Lemma sure_claim rs es r :
  only_effect rs -> stands_as RESERVED r rs ->
  sure rs es (claim_start r) (fun a rs' _ => only_effect rs' /\ a.2 = true /\ stands_as STARTED a.1 rs') (fun rs' _ => only_effect rs').
Proof.
  intros Ho (c & Hs & Hst & (Hk & Hi & Hf) & Hret & Hkr & Hfr). unfold claim_start.
  apply (sure_require _ _ _ c); [by rewrite Hkr|congruence|]. rewrite bool_decide_true by done. apply sure_bind.
  apply sure_append_effect; [done|done|done|]. intros rs' Ho' Hs'. apply sure_ret. split; [done|]. split; [done|].
  eexists. split; [exact Hs'|]. by repeat split.
Qed.

Lemma sure_commit rs es r v :
  only_effect rs -> stands_as STARTED r rs ->
  sure rs es (commit faults redact r v)
    (fun a rs' _ => committed_effect v rs' /\ observation a = Some (bounded redact v) /\ retention a = RECORD)
    (fun rs' _ => only_effect rs' /\ stands_as STARTED r rs').
Proof.
  intros Ho (c & Hs & Hst & (Hk & Hi & Hf) & Hret & Hkr & Hfr). unfold commit, finish.
  apply (sure_require _ _ _ c); [by rewrite Hkr|congruence|]. rewrite Hst. cbn [is_final].
  change (bool_decide (expected COMMITTED = Some STARTED)) with true. change (bool_decide (COMMITTED = ABORTED)) with false. cbn [negb].
  apply sure_bind, sure_peaceful; [apply peaceful_append|]. apply runs_append; [apply Ho| |split; [done|by exists c]]. intros n rs' Hwf'.
  cbn [retention transitioned default]. rewrite Hret.
  change (retains_object RECORD) with true. cbv iota. apply sure_bind, sure_ret, sure_ret. split; [|done]. split; [done|].
  exists rs. by eexists.
Qed.

(** The handler of a failed effect. *)
Lemma sure_handler {A} started e rs es (Q : A -> list Row -> list string -> Prop) :
  only_effect rs -> stands_as STARTED started rs -> is_conflict e = false ->
  sure rs es (
    found ← current_locked k;
    (match found with
     | Some current =>
         if bool_decide (state current = STARTED) then
           sent ← possibly_sent faults redact started (exn_name e) (eff_indeterminate eff e);
           if requires_receipt (retention sent) then
             catch (write_receipt proof k) (fun e' => if tolerated e' then mret tt else raise e')
           else mret tt
         else mret tt
     | None => mret tt
     end);;
    raise e) Q (fun rs' _ => only_effect rs').
Proof.
  intros Ho (c & Hs & Hst & (Hk & Hi & Hf) & Hret & Hkr & Hfr) He. apply sure_current. rewrite Hs, bool_decide_true by done.
  apply sure_bind, sure_bind. unfold possibly_sent, finish. apply (sure_require _ _ _ c); [by rewrite Hkr|congruence|]. rewrite Hst.
  cbn [is_final]. change (bool_decide (expected POSSIBLY_SENT = Some STARTED)) with true.
  change (bool_decide (POSSIBLY_SENT = ABORTED)) with false. cbn [negb]. apply sure_bind, sure_append_effect; [done|done|done|].
  intros rs' Ho' _. cbn [retention transitioned default]. rewrite Hret. change (retains_object RECORD) with true. cbv iota.
  apply sure_bind, sure_ret, sure_ret. change (requires_receipt RECORD) with false. cbv iota.
  by apply sure_ret, sure_raise.
Qed.

(** A first execution appends records of this effect only, and returns what it committed; what it
    raises is a conflict only if the effect raised one. *)
Lemma sure_execute n es polls late :
  wf_rows rs0 -> status k rs0 = None -> eff_observe eff = None ->
  (forall e, eff_result eff = Err e -> is_conflict e = false) ->
  sure rs0 es (execute faults redact boot proof k i n RECORD eff polls late)
    (fun obs rs' _ => exists v, eff_result eff = Ok v /\ obs = bounded redact v /\ committed_effect v rs')
    (fun rs' _ => only_effect rs').
Proof.
  intros Hwf Hnone Hobs Heff. assert (Ho : only_effect rs0) by (split; [done|]; exists []; by rewrite app_nil_r).
  unfold execute. apply sure_bind. unfold reserve. cbn [rq_key rq_need plain_request].
  destruct (_ || _); [by apply sure_raise|]. apply sure_current. rewrite Hnone.
  eapply sure_weaken; [by apply sure_admit|]. cbn beta. intros r rs1 es1 (Ho1 & Hr & Hst1). rewrite Hr.
  change (bool_decide (RESERVED = COMMITTED)) with false. change (bool_decide (RESERVED = STARTED)) with false. cbv iota.
  apply sure_bind, sure_ret. rewrite Hr.
  change (bool_decide (RESERVED = COMMITTED)) with false. change (bool_decide (RESERVED = RESERVED)) with true. cbv iota. cbn [negb].
  apply sure_bind. eapply sure_weaken; [by apply sure_claim|]. cbn beta. intros [started acquired] rs2 es2 (Ho2 & Hacq & Hst2).
  cbn in Hacq, Hst2. subst acquired. cbn [negb]. apply sure_bind, sure_catch, sure_bind, sure_peaceful; [by intros w w' e|]. apply runs_effect.
  destruct (eff_result eff) as [v|e] eqn:Hv; cbn [lift].
  - apply sure_bind, sure_ret. eapply sure_weaken; cycle 1.
    + intros a rs3 es3 HQ. revert HQ. instantiate (1 := fun a rs3 _ => committed_effect v rs3 /\ observation a = Some (bounded redact v) /\ retention a = RECORD).
      cbn beta. intros (Hc3 & Ha & Hret). unfold receipt_if_required. rewrite Hret.
      change (requires_receipt RECORD) with false. cbv iota. apply sure_bind, sure_ret. rewrite Hobs, Ha. apply sure_ret. by exists v.
    + intros w Hr2 He2. pose proof (sure_commit rs2 _ started v Ho2 Hst2 w Hr2 He2) as Hc. destruct (commit faults redact started v w) as [w' [a|e|]]; [done| |].
      * destruct Hc as (Hce & Ho3 & Hst3). split; [done|]. split; [done|]. intros e' He'. by apply sure_handler.
      * destruct Hc as (Ho3 & Hst3). split; [done|]. intros e' He'. by apply sure_handler.
  - apply sure_bind, sure_raise; [by apply Heff|]. split; [done|]. intros e' He'. by apply sure_handler.
Qed.
End new_key.

(** ** A key that has a reservation *)

(** An execution that finds its key used appends nothing of its own; it returns only what was
    committed for the same effect. *)
Lemma runs_execute_old k o p n eff polls late rs es c :
  wf_rows rs -> Forall (Forall foreign_op) polls -> o ∈ lease_operations ->
  status k rs = Some c -> (effect_fingerprint c = fingerprint (effect_identity o p) -> is_lease_effect c = true /\ state c <> RESERVED) ->
  runs rs es (execute faults redact boot proof k (effect_identity o p) n RECORD eff polls late)
    (fun obs rs' _ => rs' = rs /\ state c = COMMITTED /\ effect_fingerprint c = fingerprint (effect_identity o p)
       /\ obs = default (JObj []) (observation c))
    (fun rs' _ => wf_rows rs' /\ foreign_growth rs rs').
Proof.
  intros Hwf Hpolls Ho Hs Hres. assert (Hg : wf_rows rs /\ foreign_growth rs rs) by (split; [done|constructor]).
  unfold execute. apply runs_bind. unfold reserve. cbn [rq_key rq_need rq_identity plain_request].
  destruct (_ || _); [by apply runs_raise|]. apply runs_current. rewrite Hs. unfold assert_same_effect. apply runs_bind.
  case_bool_decide as Hf; [|by apply runs_raise]. apply runs_ret. change (retryable _ c) with false. cbv iota.
  destruct (_ && _); [by apply runs_raise|]. apply runs_ret.
  case_bool_decide as Hcom.
  { apply runs_quiet_bind; [unfold receipt_if_required; solve_quiet|done|intros []]. by apply runs_ret. }
  destruct (Hres Hf) as [Hlease Hnr].
  apply runs_bind. apply (runs_weaken _ _ _ (fun r rs' _ => r = c /\ wf_rows rs' /\ foreign_growth rs rs') _ (fun rs' _ => wf_rows rs' /\ foreign_growth rs rs')); [| |done].
  { case_bool_decide; [|by apply runs_ret]. apply (runs_await _ k); [done|done|by eapply status_key|done|done]. }
  intros r rs' es' (-> & Hg'). rewrite bool_decide_false by done. rewrite bool_decide_false by done. cbn [negb].
  apply runs_quiet_bind; [solve_quiet|done|intros []]. by apply runs_raise.
Qed.
End effects.
