(* ===== verification/LeaseInvariant.v ===== *)
(** What a ledger says of the Leases of a Run, kept by every Lease effect, by other components'
    records and by restarts. *)

From S2P Require Import Prelude Canon Text PyJson JsonText Moment MomentFormat Reservation ReservationLogic ReservationFacts WorkGeneration Lease LeaseLedger LeaseEffects.
Local Open Scope Z_scope.

Section invariant.
Context `{Digester} {AH : AtHand} (run board : string).
Abbreviation seen := (seen run board).
Abbreviation leases_in := (leases_in run board).

Definition lease_fit (p : LeaseGrant) : Prop :=
  scalar (lg_challenge_id p) /\ until_ok p
  /\ (li_run_id (lg_identity p) = run -> lg_board_id p = board /\ lg_epoch p = 1).

(** Two grants of one Lease, held by one Attempt. *)
Definition same_lease (p g : LeaseGrant) : Prop :=
  lg_identity g = lg_identity p /\ lg_challenge_id g = lg_challenge_id p /\ lg_board_id g = lg_board_id p
  /\ lg_owner_id g = lg_owner_id p /\ lg_epoch g = lg_epoch p /\ lg_generation_id g = lg_generation_id p
  /\ lg_attempt_id g = lg_attempt_id p.

(** The record of the effect [o] of [p] was stored whole: its identity was not cut or redacted, and
    what it committed reads as a grant of the same Lease. *)
Definition stored_whole (o : string) (p : LeaseGrant) (r : WriteReservation) : Prop :=
  identity r = effect_identity o p
  /\ (state r = COMMITTED -> exists g, observation r = Some (JObj (grant_document g)) /\ same_lease p g /\ until_ok g).

(** ... of whichever effect at hand it is a record. *)
Definition whole (r : WriteReservation) : Prop := forall o p,
  o ∈ lease_operations -> effect_identity o p ∈ at_hand -> scalar (lg_challenge_id p) -> until_ok p ->
  effect_fingerprint r = fingerprint (effect_identity o p) -> stored_whole o p r.

Definition intact (rs : list Row) : Prop := Forall (fun row => whole (written row)) rs.

Definition lease_entry (r : WriteReservation) : Prop := exists o p,
  o ∈ lease_operations /\ effect_identity o p ∈ at_hand /\ lease_fit p /\ effect_fingerprint r = fingerprint (effect_identity o p) /\ stored_whole o p r.

Lemma intent_same p q : intent p = intent q -> same_lease p q.
Proof. destruct p, q. cbn. intros [=]. subst. by repeat split. Qed.

Lemma same_lease_trans p q g : same_lease p q -> same_lease q g -> same_lease p g.
Proof. unfold same_lease. intuition congruence. Qed.

(** ** What a replay sees of an entry *)

Definition ambiguous (o : string) (p : LeaseGrant) : LeaseGrant :=
  with_outcome RECOVERABLE (ambiguous_verdict CREATE_AMBIGUOUS o) CAUSE_NONE p.

Lemma lease_effect_named o p r : o ∈ lease_operations -> identity r = effect_identity o p ->
  is_lease_effect r = true /\ removeprefix "lease." (operation (identity r)) = o.
Proof.
  intros Ho Hi. unfold is_lease_effect. rewrite Hi. cbn [operation effect_identity].
  unfold lease_operations in Ho. by repeat (apply elem_of_cons in Ho as [->|Ho]; [done|]); apply elem_of_nil in Ho.
Qed.

Lemma replayed_ambiguous o p fs :
  (forall n, dict_get n fs = dict_get n (intent_document p)) -> until_ok p ->
  grant_from_document (dict_set "close_cause" (JStr "")
    (dict_set "verdict" (JStr (verdict_value (ambiguous_verdict CREATE_AMBIGUOUS o)))
    (dict_set "phase" (JStr (phase_value RECOVERABLE)) fs))) = Ok (ambiguous o p).
Proof.
  intros Hfs Hu. apply grant_read; [|done]. intros n. rewrite !dict_get_set, Hfs.
  do 3 (case_bool_decide; [subst; reflexivity|]). unfold ambiguous, intent_document, grant_document.
  rewrite !dict_get_cons. repeat (case_bool_decide; [first [reflexivity|congruence]|]). done.
Qed.

Lemma sight_entry o p r :
  o ∈ lease_operations -> lease_fit p -> stored_whole o p r ->
  if bool_decide (li_run_id (lg_identity p) = run)
  then exists g, sight run board r = Ok (Some g) /\ same_lease p g /\ lg_epoch g = 1
    /\ (lease_open g = false -> state r = COMMITTED)
    /\ (state r <> COMMITTED -> g = ambiguous o p)
    /\ (state r = COMMITTED -> observation r = Some (JObj (grant_document g)) /\ until_ok g)
  else sight run board r = Ok None.
Proof.
  intros Ho (Hsc & Hu & Hfit) (Hi & Hcom). destruct (lease_effect_named o p r Ho Hi) as [Hl Hname].
  unfold sight. rewrite Hl. unfold replayed_grant. rewrite Hname, Hi. cbn [subject effect_identity].
  destruct (read_intent p Hsc) as (fs & -> & Hfs). cbn [mbind result_bind]. unfold get_or. rewrite !Hfs.
  change (dict_get "run_id" (intent_document p)) with (Some (JStr (li_run_id (lg_identity p)))).
  change (dict_get "board_id" (intent_document p)) with (Some (JStr (lg_board_id p))). change (default JNull (Some ?x)) with x. rewrite !py_eqb_str.
  case_bool_decide as Hrun; [|done]. destruct (Hfit Hrun) as [Hb He]. rewrite bool_decide_true by done. cbn [negb orb].
  assert (Hamb : state r <> COMMITTED -> match state r, observation r with
    | COMMITTED, Some (JObj ((_ :: _) as obs)) => Some <$> grant_from_document obs
    | _, _ => Some <$> grant_from_document (dict_set "close_cause" (JStr "")
        (dict_set "verdict" (JStr (verdict_value (ambiguous_verdict CREATE_AMBIGUOUS o)))
        (dict_set "phase" (JStr (phase_value RECOVERABLE)) fs)))
    end = Ok (Some (ambiguous o p))).
  { intros Hst. rewrite (replayed_ambiguous o p fs Hfs Hu). by destruct (state r). }
  destruct (decide (state r = COMMITTED)) as [Hst|Hst].
  - destruct (Hcom Hst) as (g & Hobs & Hsame & Hug). exists g. rewrite Hst, Hobs. cbn [grant_document].
    change (Some <$> grant_from_document (grant_document g) = Ok (Some g)
      /\ same_lease p g /\ lg_epoch g = 1 /\ (lease_open g = false -> COMMITTED = COMMITTED)
      /\ (COMMITTED <> COMMITTED -> g = ambiguous o p) /\ (COMMITTED = COMMITTED -> Some (JObj (grant_document g)) = Some (JObj (grant_document g)) /\ until_ok g)).
    rewrite grant_roundtrip by done. split_and!; [done|done| |done|done|done]. destruct Hsame as (_ & _ & _ & _ & -> & _). done.
  - exists (ambiguous o p). rewrite Hamb by done. split_and!; [done|by repeat split|done|done|done|done].
Qed.

Lemma entry_seen r : lease_entry r -> plain_sight run board r
  /\ forall g, seen r = Some g -> li_run_id (lg_identity g) = run /\ (lease_open g = false -> state r = COMMITTED).
Proof.
  intros (o & p & Ho & _ & Hfit & Hf & Hw). pose proof (sight_entry o p r Ho Hfit Hw) as Hs. unfold LeaseLedger.seen, plain_sight.
  case_bool_decide as Hrun.
  - destruct Hs as (g & Hs & Hsame & He & Hcl & _). rewrite Hs. split; [by eexists|]. intros g' [= <-]. split; [|done].
    destruct Hsame as [-> _]. done.
  - rewrite Hs. split; [by eexists|done].
Qed.

Lemma foreign_sight r : is_lease_effect r = false -> sight run board r = Ok None.
Proof. intros Hl. unfold sight. by rewrite Hl. Qed.

Lemma foreign_seen r : is_lease_effect r = false -> seen r = None.
Proof. intros Hr. unfold LeaseLedger.seen. by rewrite foreign_sight. Qed.

(** ** The invariant of a ledger *)

Record ledger_ok (rs : list Row) : Prop := {
  ledger_wf : wf_rows rs;
  ledger_entries k c : status k rs = Some c -> foreign c \/ lease_entry c;
  (** a closed Lease is closed in a replay *)
  ledger_closed k c g : status k rs = Some c -> seen c = Some g -> lease_open g = false ->
    exists g', leases_in rs (lg_identity g) = Some g' /\ lease_open g' = false;
  (** at most one Lease of a Challenge is open *)
  ledger_exclusive i j g h : leases_in rs i = Some g -> leases_in rs j = Some h -> lease_open g = true -> lease_open h = true ->
    lg_challenge_id g = lg_challenge_id h -> i = j
}.

Lemma ledger_empty : ledger_ok [].
Proof. split; [constructor|done..]. Qed.

(** Records that show nothing new. *)
Inductive unseen_growth (rs : list Row) : list Row -> Prop :=
  | unseen_none : unseen_growth rs rs
  | unseen_snoc rs' row :
      unseen_growth rs rs' -> foreign (written row) \/ lease_entry (written row) ->
      match status (key (written row)) rs' with Some c => seen (written row) = seen c | None => seen (written row) = None end ->
      unseen_growth rs (rs' ++ [row]).

Lemma unseen_leases rs rs' i : unseen_growth rs rs' -> leases_in rs' i = leases_in rs i.
Proof. intros Hg. induction Hg as [|rs' row _ IH _ Hs]; [done|]. by rewrite leases_snoc_same. Qed.

Lemma unseen_status rs rs' k c g :
  unseen_growth rs rs' -> status k rs' = Some c -> seen c = Some g -> exists c0, status k rs = Some c0 /\ seen c0 = Some g.
Proof.
  intros Hg. revert c. induction Hg as [|rs' row _ IH _ Hs]; intros c Hc Hsee; [by exists c|]. rewrite status_snoc in Hc.
  case_bool_decide as E; [|by eapply IH]. injection Hc as <-. rewrite seen_norm in Hsee. subst k.
  destruct (status _ rs') as [c1|] eqn:E1; [|congruence]. apply (IH c1); [done|congruence].
Qed.

Lemma unseen_entries rs rs' k c :
  (forall k c, status k rs = Some c -> foreign c \/ lease_entry c) -> unseen_growth rs rs' -> status k rs' = Some c -> foreign c \/ lease_entry c.
Proof.
  intros Hrs Hg. revert c. induction Hg as [|rs' row _ IH Hrow _]; intros c; [apply Hrs|]. rewrite status_snoc.
  case_bool_decide; [|apply IH]. by intros [= <-].
Qed.

Lemma ledger_unseen rs rs' : ledger_ok rs -> wf_rows rs' -> unseen_growth rs rs' -> ledger_ok rs'.
Proof.
  intros [Hwf He Hc Hx] Hwf' Hg. split; [done|..].
  - intros k c. by apply (unseen_entries rs).
  - intros k c g Hk Hs Ho. rewrite (unseen_leases _ _ _ Hg). destruct (unseen_status _ _ _ _ _ Hg Hk Hs) as (c0 & Hk0 & Hs0). by eapply Hc.
  - intros i j g h. rewrite !(unseen_leases _ _ _ Hg). apply Hx.
Qed.

Lemma foreign_unseen rs rs' : foreign_growth rs rs' -> unseen_growth rs rs'.
Proof.
  induction 1 as [|rs' row _ IH Hrow Hkey]; [constructor|]. constructor; [done|by left|]. rewrite (foreign_seen _ (proj1 Hrow)).
  destruct (status _ rs') as [c|] eqn:E; [|done]. by rewrite (foreign_seen c) by (by apply Hkey).
Qed.

(** ** A new entry *)

Lemma status_new_key k rs l row :
  status k rs = None -> Forall (fun row => key (written row) = k) (l ++ [row]) ->
  view run board (rs ++ l ++ [row]) = view run board rs ++ [(k, seen (written row))]
  /\ forall k', status k' (rs ++ l ++ [row]) = if bool_decide (k' = k) then Some (norm (written row)) else status k' rs.
Proof.
  intros Hs Hl. revert row Hl. induction l as [|r l IH] using rev_ind; intros row Hl.
  - apply Forall_cons in Hl as [Hk _]. cbn [app]. split.
    + rewrite view_snoc, Hk. apply dict_set_new. by rewrite view_get, Hs.
    + intros k'. by rewrite status_snoc, Hk.
  - apply Forall_app in Hl as [Hl [Hk _]%Forall_cons]. destruct (IH r Hl) as [Hv Hst]. rewrite (app_assoc rs (l ++ [r]) [row]). split.
    + rewrite view_snoc, Hk, Hv. assert (Hd : dict_get k (view run board rs) = None) by (by rewrite view_get, Hs).
      revert Hd. clear. induction (view run board rs) as [|[k' o] d IHd]; cbn; [by rewrite bool_decide_true|].
      case_bool_decide; [done|]. intros Hd. by rewrite IHd.
    + intros k'. rewrite status_snoc, Hk, Hst. by case_bool_decide.
Qed.

(** The Lease [i] may get an entry: none of its entries is closed, and no other open Lease has its
    Challenge. *)
Definition may_enter (rs : list Row) (i : LeaseIdentity) (challenge : json) : Prop :=
  (forall k c g, status k rs = Some c -> seen c = Some g -> lg_identity g = i -> lease_open g = true)
  /\ (forall j g, leases_in rs j = Some g -> lease_open g = true -> lg_challenge_id g = challenge -> j = i).

Lemma ledger_new_entry rs k l row g :
  ledger_ok rs -> wf_rows (rs ++ l ++ [row]) -> status k rs = None -> Forall (fun row => key (written row) = k) (l ++ [row]) ->
  lease_entry (written row) -> seen (written row) = Some g -> may_enter rs (lg_identity g) (lg_challenge_id g) ->
  ledger_ok (rs ++ l ++ [row])
  /\ (forall j, leases_in (rs ++ l ++ [row]) j = if bool_decide (j = lg_identity g) then Some g else leases_in rs j)
  /\ (forall k' c h, status k' (rs ++ l ++ [row]) = Some c -> seen c = Some h -> h = g \/ exists c0, status k' rs = Some c0 /\ seen c0 = Some h).
Proof.
  intros [Hwf He Hc Hx] Hwf' Hs Hl Hentry Hsee [Hopen Hchall]. destruct (status_new_key k rs l row Hs Hl) as [Hv Hst].
  assert (Hleases : forall j, leases_in (rs ++ l ++ [row]) j = if bool_decide (j = lg_identity g) then Some g else leases_in rs j).
  { intros j. unfold LeaseLedger.leases_in. rewrite Hv, fmap_app. cbn. by rewrite replayed_snoc, Hsee. }
  assert (Hent : forall k' c h, status k' (rs ++ l ++ [row]) = Some c -> seen c = Some h -> h = g \/ exists c0, status k' rs = Some c0 /\ seen c0 = Some h).
  { intros k' c h. rewrite Hst. case_bool_decide; [|eauto]. intros [= <-]. rewrite seen_norm, Hsee. intros [= ->]. by left. }
  split; [|done]. split; [done|..].
  - intros k' c. rewrite Hst. case_bool_decide; [|apply He]. intros [= <-]. by right.
  - intros k' c h Hk' Hh Ho. rewrite Hleases. case_bool_decide as E.
    + exists g. split; [done|]. destruct (Hent _ _ _ Hk' Hh) as [<-|(c0 & Hc0 & Hh0)]; [done|]. by rewrite (Hopen _ _ _ Hc0 Hh0 E) in Ho.
    + destruct (Hent _ _ _ Hk' Hh) as [->|(c0 & Hc0 & Hh0)]; [done|]. by eapply Hc.
  - intros i j gi gj. rewrite !Hleases. repeat case_bool_decide; subst; intros Hi Hj Oi Oj Hch; simplify_eq; [done| | |by eapply Hx].
    + symmetry. by eapply Hchall.
    + by eapply Hchall.
Qed.
End invariant.

(** ** The coordinator's operations one by one: what each leaves in the ledger and in memory. *)

(** No Lease effect is reserved and not started. *)
Definition settled (rs : list Row) : Prop := forall k c, status k rs = Some c -> is_lease_effect c = true -> state c <> RESERVED.

(** A reservation bound to a Lease effect is one, and past its start. *)
Lemma used_key `{Digester} {AH : AtHand} run board rs k c o p :
  ledger_ok run board rs -> settled rs -> o ∈ lease_operations -> effect_identity o p ∈ at_hand -> status k rs = Some c ->
  collision \/ (effect_fingerprint c = fingerprint (effect_identity o p) -> is_lease_effect c = true /\ state c <> RESERVED).
Proof.
  intros Hl Hset Ho Hin Hs. destruct (ledger_entries _ _ _ Hl _ _ Hs) as [[_ Hnf]|(o' & q & Ho' & _ & _ & _ & Hi & _)].
  - destruct (decide (effect_fingerprint c = fingerprint (effect_identity o p))) as [Hf|Hf]; [|by right]. left. by apply (Hnf o p).
  - right. intros _. destruct (lease_effect_named o' q c Ho' Hi) as [Hc _]. split; [done|]. by apply (Hset _ _ Hs).
Qed.

Section steps.
Context `{Digester} {AH : AtHand} (faults : Faults) (redact : string -> string) (boot : string) (proof : list (string * json)).
Context {F : Type} (admit_generation : string -> Prog F (option (Z * string))).
Context (run board owner : string).
Abbreviation seen := (seen run board).
Abbreviation leases_in := (leases_in run board).
Abbreviation ledger_ok := (ledger_ok run board).

(** After an effect on the Lease of [p] that ended as [g]: other Leases are as they were, and what
    is new is of this Lease, closed only if [g] is. *)
Record effect_post (rs rs' : list Row) (p g : LeaseGrant) : Prop := {
  post_ledger : ledger_ok rs';
  post_others j : j <> lg_identity p -> leases_in rs' j = leases_in rs j;
  post_own h : leases_in rs' (lg_identity p) = Some h -> lease_open h = true ->
    lease_open g = true /\ (leases_in rs (lg_identity p) = Some h \/ same_lease p h);
  post_ended : lease_open g = false -> leases_in rs' (lg_identity p) = Some g;
  post_entries k c h : status k rs' = Some c -> seen c = Some h ->
    (exists c0, status k rs = Some c0 /\ seen c0 = Some h) \/ same_lease p h /\ (lease_open h = false -> h = g)
}.

Lemma post_unseen rs rs' p g :
  ledger_ok rs -> wf_rows rs' -> unseen_growth run board rs rs' -> lease_open g = true -> effect_post rs rs' p g.
Proof.
  intros Hl Hwf Hg Ho. split.
  - by eapply ledger_unseen.
  - intros j _. by apply unseen_leases.
  - intros h. rewrite (unseen_leases _ _ _ _ _ Hg). auto.
  - congruence.
  - intros k c h Hc Hs. left. by eapply unseen_status.
Qed.

Lemma post_entry rs k l row o p g g' :
  ledger_ok rs -> wf_rows (rs ++ l ++ [row]) -> status k rs = None -> Forall (fun row => key (written row) = k) (l ++ [row]) ->
  lease_entry run board (written row) -> seen (written row) = Some g -> same_lease p g -> o ∈ lease_operations ->
  may_enter run board rs (lg_identity p) (lg_challenge_id p) ->
  (lease_open g = false -> g = g') -> (lease_open g' = false -> g = g') -> effect_post rs (rs ++ l ++ [row]) p g'.
Proof.
  intros Hl Hwf Hs Hk He Hsee Hsame Ho Hmay Hcl Hcl'. pose proof Hsame as (Hi & Hch & _). rewrite <-Hi, <-Hch in Hmay.
  destruct (ledger_new_entry run board rs k l row g Hl Hwf Hs Hk He Hsee Hmay) as (Hl' & Hleases & Hent). split; [done|..].
  - intros j Hj. rewrite Hleases, bool_decide_false; [done|congruence].
  - intros h. rewrite Hleases, bool_decide_true by done. intros [= <-] Hopen. split; [|by right].
    destruct (lease_open g') eqn:E; [done|]. rewrite <-(Hcl' eq_refl) in E. congruence.
  - intros E. rewrite Hleases, bool_decide_true by done. by rewrite (Hcl' E).
  - intros k' c h Hc Hh. destruct (Hent _ _ _ Hc Hh) as [->|?]; [|by left]. right. by split.
Qed.

(** ** One effect *)

Context (o : string) (p : LeaseGrant) (out : Outside).
Hypothesis o_lease : o ∈ lease_operations.
Hypothesis p_at_hand : effect_identity o p ∈ at_hand.
Hypothesis p_fits : lease_fit run board p.
Hypothesis p_own : li_run_id (lg_identity p) = run.

(** The Board and the corroboration raise no [ReservationConflict], and other threads leave Leases alone. *)
Definition fair_outside : Prop :=
  (forall e, out_reply out = Err e -> is_conflict e = false) /\ (forall e, out_row out = Err e -> is_conflict e = false)
  /\ Forall (Forall (foreign_op faults redact boot proof)) (out_polls out).

Lemma lease_effect_fair e : fair_outside -> eff_result (lease_effect p o out) = Err e -> is_conflict e = false.
Proof.
  intros (Hr & Hw & _). cbn. destruct (out_reply out) as [reply|e'] eqn:E; cbn; [|intros [= <-]; by apply Hr].
  intros He. apply Hw. unfold classify in He.
  destruct (bool_decide (o = "create") && bool_decide (rp_outcome reply = ANSWERED)), (out_row out) as [row|e'];
    cbn [mbind result_bind] in He; try done; try (by injection He as <-);
    (match type of He with context [match ?x with (_, _) => _ end] => destruct x as [[? ?] ?] end; done).
Qed.

Lemma ambiguous_same v c : same_lease p (with_outcome RECOVERABLE v c p).
Proof. by repeat split. Qed.

(** Records of the effect that do not commit it. *)
Lemma post_only k rs rs' g :
  ledger_ok rs -> status k rs = None -> intact rs' -> only_effect redact k (effect_identity o p) rs rs' ->
  may_enter run board rs (lg_identity p) (lg_challenge_id p) -> lease_open g = true -> effect_post rs rs' p g.
Proof.
  intros Hl Hs Hint (Hwf & l & -> & Hrows) Hmay Hg. destruct l as [|row l _] using rev_ind.
  { rewrite app_nil_r in *. apply post_unseen; [done|done|constructor|done]. }
  apply Forall_app in Hint as [_ [_ [Hw _]%Forall_cons]%Forall_app].
  pose proof Hrows as [_ [[(Hk & _ & Hf) Hst] _]%Forall_cons]%Forall_app.
  pose proof (Hw o p o_lease p_at_hand (proj1 p_fits) (proj1 (proj2 p_fits)) Hf) as Hwhole.
  pose proof (sight_entry run board o p _ o_lease p_fits Hwhole) as Hsight. rewrite bool_decide_true in Hsight by done.
  destruct Hsight as (h & Hsee & Hsame & _ & _ & Hamb & _). assert (lease_open h = true) as Ho by (by rewrite (Hamb Hst)).
  eapply (post_entry rs k l row o p h g); [done|done|done| | | |done|done|done|congruence|congruence].
  - eapply Forall_impl; [exact Hrows|]. by intros ? [[-> _] _].
  - by exists o, p.
  - unfold LeaseLedger.seen. by rewrite Hsee.
Qed.

(** The record that commits it: what was returned is a grant of this Lease. *)
Lemma post_committed k rs rs' v :
  ledger_ok rs -> status k rs = None -> intact rs' -> committed_effect redact k (effect_identity o p) rs v rs' ->
  may_enter run board rs (lg_identity p) (lg_challenge_id p) ->
  exists g, bounded redact v = JObj (grant_document g) /\ until_ok g /\ same_lease p g /\ effect_post rs rs' p g.
Proof.
  intros Hl Hs Hint (Hwf & rs1 & row & -> & (_ & l & -> & Hrows) & (Hk & _ & Hf) & Hst & Hobs) Hmay.
  pose proof Hint as [_ [Hw _]%Forall_cons]%Forall_app.
  pose proof (Hw o p o_lease p_at_hand (proj1 p_fits) (proj1 (proj2 p_fits)) Hf) as Hwhole.
  pose proof (sight_entry run board o p _ o_lease p_fits Hwhole) as Hsight. rewrite bool_decide_true in Hsight by done.
  destruct Hsight as (g & Hsee & Hsame & _ & _ & _ & Hcom). destruct (Hcom Hst) as [Hg Hu]. exists g.
  split; [congruence|]. split; [done|]. split; [done|]. rewrite <-app_assoc in *.
  eapply (post_entry rs k l row o p g g); [done|done|done| | | |done|done|done|done|done].
  - apply Forall_app. split; [|by constructor]. eapply Forall_impl; [exact Hrows|]. by intros ? [[-> _] _].
  - by exists o, p.
  - unfold LeaseLedger.seen. by rewrite Hsee.
Qed.

(** An entry bound to the same effect is of the same Lease. *)
Lemma post_recorded rs k c :
  ledger_ok rs -> may_enter run board rs (lg_identity p) (lg_challenge_id p) -> status k rs = Some c -> state c = COMMITTED ->
  effect_fingerprint c = fingerprint (effect_identity o p) ->
  collision \/ exists g, observation c = Some (JObj (grant_document g)) /\ until_ok g /\ same_lease p g /\ effect_post rs rs p g.
Proof.
  intros Hl Hmay Hs Hst Hf. destruct (ledger_entries _ _ _ Hl _ _ Hs) as [[_ Hnf]|(o' & q & Ho' & Hin & Hq & Hfq & Hwq)].
  { left. by apply (Hnf o p). }
  destruct (decide (effect_identity o' q = effect_identity o p)) as [E|E]; [|left; exists (effect_identity o' q), (effect_identity o p); split_and!; [done|done|done|congruence]].
  right. apply effect_identity_inj in E as [-> E]; [|apply Hq|apply p_fits|apply Hq|apply p_fits]. apply symmetry, intent_same in E.
  pose proof (sight_entry run board o q c o_lease Hq Hwq) as Hsight. rewrite bool_decide_true in Hsight by (destruct E as [-> _]; done).
  destruct Hsight as (g & Hsee & Hsame & _ & _ & _ & Hcom). destruct (Hcom Hst) as [Hg Hu]. exists g. split; [done|]. split; [done|].
  pose proof (same_lease_trans _ _ _ E Hsame) as Hpg. split; [done|].
  assert (Hgo : lease_open g = true).
  { apply (proj1 Hmay k c g); [done| |apply Hpg]. unfold LeaseLedger.seen. by rewrite Hsee. }
  apply post_unseen; [done|apply Hl|constructor|done].
Qed.

Lemma effect_executed n w :
  let rs := rows_locked (disk w) in
  ledger_ok rs -> settled rs -> may_enter run board rs (lg_identity p) (lg_challenge_id p) -> fair_outside ->
  match execute faults redact boot proof (lg_operation_key p) (effect_identity o p) n RECORD (lease_effect p o out)
    (out_polls out) (out_late_polls out) w with
  | (w', Done obs) => intact (rows_locked (disk w')) ->
      collision \/ exists g, obs = JObj (grant_document g) /\ until_ok g /\ same_lease p g /\ effect_post rs (rows_locked (disk w')) p g
  | (w', Raised e) => intact (rows_locked (disk w')) -> collision \/
      (forall g, lease_open g = true -> effect_post rs (rows_locked (disk w')) p g)
      /\ (is_conflict e = true -> wf_rows (rows_locked (disk w')) /\ unseen_growth run board rs (rows_locked (disk w')))
  | (w', Crashed) => intact (rows_locked (disk w')) -> collision \/ effect_post rs (rows_locked (disk w')) p (ambiguous o p)
  end.
Proof.
  intros rs Hl Hset Hmay Hfair. destruct (status (lg_operation_key p) rs) as [c|] eqn:Hs.
  - pose proof (used_key run board rs _ c o p Hl Hset o_lease p_at_hand Hs) as Hres.
    destruct Hres as [Hcol|Hres]; [destruct (execute _ _ _ _ _ _ _ _ _ _ _ w) as [w' []]; intros _; by left|].
    pose proof (runs_execute_old faults redact boot proof (lg_operation_key p) o p n (lease_effect p o out) (out_polls out) (out_late_polls out)
      rs (effects w) c (ledger_wf _ _ _ Hl) (proj2 (proj2 Hfair)) o_lease Hs Hres w eq_refl eq_refl) as Hr.
    destruct (execute _ _ _ _ _ _ _ _ _ _ _ w) as [w' [obs|e|]].
    + intros _. destruct Hr as (Hrs & Hst & Hf & ->). rewrite Hrs.
      destruct (post_recorded rs _ c Hl Hmay Hs Hst Hf) as [?|(g & Hobs & Hg)]; [by left|]. right. exists g. by rewrite Hobs.
    + intros _. right. destruct Hr as [Hwf Hg%(foreign_unseen run board)]. split; [|done]. intros g Ho. by apply post_unseen.
    + intros _. right. destruct Hr as [Hwf Hg%(foreign_unseen run board)]. by apply post_unseen.
  - pose proof (sure_execute faults redact boot proof (lg_operation_key p) (effect_identity o p) (lease_effect p o out) rs n (effects w)
      (out_polls out) (out_late_polls out) (ledger_wf _ _ _ Hl) Hs eq_refl (fun e => lease_effect_fair e Hfair) w eq_refl eq_refl) as Hr.
    destruct (execute _ _ _ _ _ _ _ _ _ _ _ w) as [w' [obs|e|]]; intros Hint.
    + right. destruct Hr as (v & _ & -> & Hc). by apply (post_committed (lg_operation_key p) rs).
    + right. destruct Hr as [He Ho]. split; [|by rewrite He]. intros g Hg. by apply (post_only (lg_operation_key p) rs).
    + right. by apply (post_only (lg_operation_key p) rs).
Qed.

(** [_run_effect]: it ends as a grant of the Lease, or raises a conflict that left no trace. *)
Lemma effect_ran (w : LeaseWorld (F := F)) :
  let rows (w : LeaseWorld (F := F)) := rows_locked (disk (lw_authority w)) in
  let rs := rows w in
  ledger_ok rs -> settled rs -> may_enter run board rs (lg_identity p) (lg_challenge_id p) -> fair_outside ->
  match run_lease_effect faults redact boot proof p o out w with
  | (w', Done g) => lw_coordinator w' = lw_coordinator w /\ (intact (rows w') -> collision \/ until_ok g /\ same_lease p g /\ effect_post rs (rows w') p g)
  | (w', Raised e) => lw_coordinator w' = lw_coordinator w /\ (intact (rows w') ->
      collision \/ wf_rows (rows w') /\ unseen_growth run board rs (rows w'))
  | (w', Crashed) => intact (rows w') -> collision \/ effect_post rs (rows w') p (ambiguous o p)
  end.
Proof.
  intros rows rs Hl Hset Hmay Hfair. unfold run_lease_effect, rescue, mbind, Prog_bind, on_authority.
  pose proof (effect_executed LEASE_EFFECT_CAPACITY (lw_authority w) Hl Hset Hmay Hfair) as Hr. cbv zeta in Hr. fold (rows w) in Hr.
  destruct (execute _ _ _ _ _ _ _ _ _ _ _ (lw_authority w)) as [a [obs|e|]]; cbv iota beta.
  - unfold try. destruct (grant_from_document (object_fields obs)) as [g|e] eqn:Hg.
    + cbn. split; [done|]. intros Hint. destruct (Hr Hint) as [?|(h & -> & Hu & Hrest)]; [by left|]. right.
      cbn in Hg. rewrite grant_roundtrip in Hg by done. injection Hg as <-. done.
    + destruct (is_conflict e) eqn:Hc; cbn; (split; [done|]); intros Hint;
        (destruct (Hr Hint) as [?|(h & -> & Hu & _)]; [by left|]); cbn in Hg; by rewrite grant_roundtrip in Hg.
  - destruct (is_conflict e) eqn:Hc; cbn.
    + split; [done|]. intros Hint. destruct (Hr Hint) as [?|[_ Hun]]; [by left|]. right. by apply Hun.
    + split; [done|]. intros Hint. destruct (Hr Hint) as [?|[Hpost _]]; [by left|]. right.
      split; [apply p_fits|]. split; [apply ambiguous_same|]. by apply Hpost.
  - exact Hr.
Qed.
End steps.

(** ** An effect on a Lease of another Run *)

Section other_run.
Context `{Digester} {AH : AtHand} (faults : Faults) (redact : string -> string) (boot : string) (proof : list (string * json)).
Context {F : Type} (run board : string) (o : string) (p : LeaseGrant) (out : Outside).
Hypothesis o_lease : o ∈ lease_operations.
Hypothesis p_at_hand : effect_identity o p ∈ at_hand.
Hypothesis p_fits : lease_fit run board p.
Hypothesis p_other : li_run_id (lg_identity p) <> run.

Lemma other_unseen k rs l :
  status k rs = None -> intact (rs ++ l) -> Forall (fun row => of_effect redact k (effect_identity o p) (written row)) l ->
  unseen_growth run board rs (rs ++ l).
Proof.
  intros Hs Hint Hl.
  assert (Hrows : Forall (fun row => lease_entry run board (written row) /\ seen run board (written row) = None) l).
  { apply Forall_app in Hint as [_ Hint]. rewrite Forall_forall in Hint, Hl |- *. intros row Hrow. destruct (Hl _ Hrow) as (_ & _ & Hf).
    pose proof (Hint _ Hrow o p o_lease p_at_hand (proj1 p_fits) (proj1 (proj2 p_fits)) Hf) as Hw. split; [by exists o, p|].
    pose proof (sight_entry run board o p _ o_lease p_fits Hw) as Hsight. rewrite bool_decide_false in Hsight by done.
    unfold seen. by rewrite Hsight. }
  clear Hint. assert (Hst : match status k (rs ++ l) with Some c => seen run board c = None | None => True end /\ unseen_growth run board rs (rs ++ l)); [|apply Hst].
  induction l as [|row l IH] using rev_ind; [rewrite app_nil_r, Hs; split; [done|constructor]|].
  apply Forall_app in Hl as [Hl [(Hk & _) _]%Forall_cons], Hrows as [Hrows [[He Hsee] _]%Forall_cons].
  destruct (IH Hl Hrows) as [Hc Hg]. rewrite app_assoc. split.
  - rewrite status_snoc, Hk, bool_decide_true by done. by rewrite seen_norm.
  - constructor; [done|by right|]. rewrite Hk. by destruct (status k (rs ++ l)) as [c|]; rewrite Hsee.
Qed.

Lemma other_ran (w : LeaseWorld (F := F)) :
  let rows (w : LeaseWorld (F := F)) := rows_locked (disk (lw_authority w)) in
  ledger_ok run board (rows w) -> settled (rows w) -> fair_outside faults redact boot proof out ->
  let w' := (run_lease_effect faults redact boot proof p o out w).1 in
  lw_coordinator w' = lw_coordinator w
  /\ (intact (rows w') -> collision \/ wf_rows (rows w') /\ unseen_growth run board (rows w) (rows w')).
Proof.
  intros rows Hl Hset Hfair w'.
  assert (Hexec : let a := (execute faults redact boot proof (lg_operation_key p) (effect_identity o p) LEASE_EFFECT_CAPACITY RECORD
      (lease_effect p o out) (out_polls out) (out_late_polls out) (lw_authority w)).1 in
    lw_authority w' = a /\ lw_coordinator w' = lw_coordinator w).
  { unfold w', run_lease_effect, rescue, mbind, Prog_bind, on_authority, try.
    destruct (execute _ _ _ _ _ _ _ _ _ _ _ (lw_authority w)) as [a [obs|e|]]; cbv iota beta; [|destruct (is_conflict e)|]; try done.
    destruct (grant_from_document _) as [g|e]; [done|]. by destruct (is_conflict e). }
  destruct Hexec as [Ha Hc]. split; [done|]. unfold rows at 1 2 4. rewrite Ha. clear w' Ha Hc. fold (rows w).
  destruct (status (lg_operation_key p) (rows w)) as [c|] eqn:Hs.
  - pose proof (used_key run board (rows w) _ c o p Hl Hset o_lease p_at_hand Hs) as Hres.
    destruct Hres as [Hcol|Hres]; [intros _; by left|].
    pose proof (runs_execute_old faults redact boot proof (lg_operation_key p) o p LEASE_EFFECT_CAPACITY (lease_effect p o out) (out_polls out) (out_late_polls out)
      (rows w) (effects (lw_authority w)) c (ledger_wf _ _ _ Hl) (proj2 (proj2 Hfair)) o_lease Hs Hres (lw_authority w) eq_refl eq_refl) as Hr.
    intros _. right. destruct (execute _ _ _ _ _ _ _ _ _ _ _ (lw_authority w)) as [a [obs|e|]]; cbn [fst].
    + destruct Hr as (-> & _). split; [apply Hl|constructor].
    + destruct Hr as [Hwf Hg]. split; [done|by apply foreign_unseen].
    + destruct Hr as [Hwf Hg]. split; [done|by apply foreign_unseen].
  - pose proof (sure_execute faults redact boot proof (lg_operation_key p) (effect_identity o p) (lease_effect p o out) (rows w) LEASE_EFFECT_CAPACITY
      (effects (lw_authority w)) (out_polls out) (out_late_polls out) (ledger_wf _ _ _ Hl) Hs eq_refl (fun e => lease_effect_fair faults redact boot proof o p out e Hfair)
      (lw_authority w) eq_refl eq_refl) as Hr.
    intros Hint. right.
    assert (Honly : forall rs', only_effect redact (lg_operation_key p) (effect_identity o p) (rows w) rs' -> intact rs' ->
      wf_rows rs' /\ unseen_growth run board (rows w) rs').
    { intros rs' (Hwf & l & -> & Hrows) Hi. split; [done|]. eapply other_unseen; [done|done|]. eapply Forall_impl; [exact Hrows|]. by intros ? [? _]. }
    destruct (execute _ _ _ _ _ _ _ _ _ _ _ (lw_authority w)) as [a [obs|e|]]; cbn [fst] in Hint |- *.
    + destruct Hr as (v & _ & _ & Hwf & rs1 & row & E & (_ & l & -> & Hrows) & Hrow & _). rewrite E in *. split; [done|]. rewrite <-app_assoc in *.
      eapply other_unseen; [done|done|]. apply Forall_app. split; [|by constructor]. eapply Forall_impl; [exact Hrows|]. by intros ? [? _].
    + destruct Hr as [_ Ho]. by apply Honly.
    + by apply Honly.
Qed.
End other_run.
