(* ===== verification/LeaseFacts.v ===== *)
(** The coordinator's memory against its ledger: every operation keeps them in step. *)

From S2P Require Import Prelude Canon Text PyJson JsonText Moment MomentFormat Reservation ReservationLogic ReservationFacts WorkGeneration Lease LeaseLedger LeaseEffects LeaseInvariant.
Local Open Scope Z_scope.

Section memory.
Context `{Digester} {AH : AtHand} (run board owner : string).
Abbreviation seen := (seen run board).
Abbreviation leases_in := (leases_in run board).
Abbreviation ledger_ok := (ledger_ok run board).

(** A coordinator at work over a ledger. *)
Record running (c : Coordinator) (rs : list Row) : Prop := {
  run_keys : NoDup (co_leases c).*1 /\ NoDup (co_active c).*1;
  run_lease i g : dict_get i (co_leases c) = Some g ->
    lg_identity g = i /\ li_run_id i = run /\ li_lease_seq i < co_next_seq c /\ lease_fit run board g;
  run_active ch g : dict_get ch (co_active c) = Some g ->
    lg_challenge_id g = ch /\ lease_open g = true /\ dict_get (lg_identity g) (co_leases c) = Some g;
  run_open i g : dict_get i (co_leases c) = Some g -> lease_open g = true -> dict_get (lg_challenge_id g) (co_active c) = Some g;
  run_ended i g : dict_get i (co_leases c) = Some g -> lease_open g = false ->
    exists h, leases_in rs i = Some h /\ lease_open h = false;
  run_shown i h : leases_in rs i = Some h -> lease_open h = true ->
    exists g, dict_get i (co_leases c) = Some g /\ lease_open g = true /\ lg_challenge_id g = lg_challenge_id h;
  run_closed k r h : status k rs = Some r -> seen r = Some h -> lease_open h = false ->
    exists g, dict_get (lg_identity h) (co_leases c) = Some g /\ lease_open g = false;
  run_fresh k r h : status k rs = Some r -> seen r = Some h -> li_lease_seq (lg_identity h) < co_next_seq c
}.

(** Memory at odds with nothing: the Lease is open in memory. *)
Lemma running_may_enter c rs i g :
  running c rs -> dict_get i (co_leases c) = Some g -> lease_open g = true -> may_enter run board rs i (lg_challenge_id g).
Proof.
  intros Hr Hg Ho. split.
  - intros k r h Hk Hs <-. destruct (lease_open h) eqn:E; [done|]. destruct (run_closed _ _ Hr _ _ _ Hk Hs E) as (g' & Hg' & Hc). congruence.
  - intros j h Hj Hoh Hch. destruct (run_shown _ _ Hr _ _ Hj Hoh) as (g' & Hg' & Ho' & Hch').
    pose proof (run_open _ _ Hr _ _ Hg Ho) as H1. pose proof (run_open _ _ Hr _ _ Hg' Ho') as H2. rewrite Hch', Hch, H1 in H2.
    injection H2 as ->. apply (run_lease _ _ Hr) in Hg as [<- _], Hg' as [<- _]. done.
Qed.

Lemma fresh_may_enter c rs ch :
  running c rs -> dict_get ch (co_active c) = None -> may_enter run board rs {| li_run_id := run; li_lease_seq := co_next_seq c |} ch.
Proof.
  intros Hr Hch. split.
  - intros k r h Hk Hs Hi. pose proof (run_fresh _ _ Hr _ _ _ Hk Hs) as Hlt. rewrite Hi in Hlt. cbn in Hlt. lia.
  - intros j h Hj Ho <-. destruct (run_shown _ _ Hr _ _ Hj Ho) as (g & Hg & Ho' & Hc). apply (run_open _ _ Hr) in Hg; [|done]. congruence.
Qed.

Lemma fresh_unknown c rs : running c rs -> dict_get {| li_run_id := run; li_lease_seq := co_next_seq c |} (co_leases c) = None.
Proof.
  intros Hr. destruct (dict_get _ (co_leases c)) as [g|] eqn:E; [|done]. apply (run_lease _ _ Hr) in E as (_ & _ & Hlt & _). cbn in Hlt. lia.
Qed.

(** The ledger grew by records that show nothing new. *)
Lemma running_unseen c rs rs' : running c rs -> unseen_growth run board rs rs' -> running c rs'.
Proof.
  intros Hr Hg. destruct Hr as [Hk Hl Ha Ho He Hs Hc Hf]. split; [done..| | | |].
  - intros i g. rewrite (unseen_leases _ _ _ _ _ Hg). apply He.
  - intros i h. rewrite (unseen_leases _ _ _ _ _ Hg). apply Hs.
  - intros k r h Hkr Hsr. destruct (unseen_status _ _ _ _ _ _ _ Hg Hkr Hsr) as (c0 & ? & ?). by eapply Hc.
  - intros k r h Hkr Hsr. destruct (unseen_status _ _ _ _ _ _ _ Hg Hkr Hsr) as (c0 & ? & ?). by eapply Hf.
Qed.

(** The counter may skip numbers. *)
Lemma running_next c rs n :
  running c rs -> co_next_seq c <= n -> running {| co_leases := co_leases c; co_active := co_active c; co_next_seq := n |} rs.
Proof.
  intros [Hk Hl Ha Ho He Hs Hc Hf] Hn. split; cbn; [done| |done..|].
  - intros i g Hg. destruct (Hl _ _ Hg) as (? & ? & ? & ?). split_and!; [done|done|lia|done].
  - intros k r h Hkr Hsr. pose proof (Hf _ _ _ Hkr Hsr). lia.
Qed.

(** Remembering the outcome [g] of an effect on the Lease of [p], which is open in memory or new. *)
Section remembering.
Context (c : Coordinator) (rs rs' : list Row) (p g : LeaseGrant).
Hypothesis at_work : running c rs.
Hypothesis own : li_run_id (lg_identity p) = run.
Hypothesis numbered : li_lease_seq (lg_identity p) < co_next_seq c.
Hypothesis held : match dict_get (lg_identity p) (co_leases c) with
  | Some g0 => lease_open g0 = true /\ lg_challenge_id g0 = lg_challenge_id p
  | None => dict_get (lg_challenge_id p) (co_active c) = None
  end.
Hypothesis outcome : same_lease p g.
Hypothesis fits : lease_fit run board g.
Hypothesis posted : effect_post run board rs rs' p g.

(** Who holds the Challenge of [p] in memory is the Lease itself. *)
Lemma holder h : dict_get (lg_challenge_id p) (co_active c) = Some h -> lg_identity h = lg_identity p.
Proof.
  intros Hh. destruct (dict_get (lg_identity p) (co_leases c)) as [g0|] eqn:E; [|congruence]. destruct held as [Ho Hch].
  pose proof (run_open _ _ at_work _ _ E Ho) as H0. rewrite Hch, Hh in H0. injection H0 as ->. by apply (run_lease _ _ at_work) in E as [-> _].
Qed.

Lemma holds_its_challenge h i :
  dict_get i (co_leases c) = Some h -> lease_open h = true -> lg_challenge_id h = lg_challenge_id p -> i = lg_identity p.
Proof.
  intros Hh Ho Hch. pose proof (run_open _ _ at_work _ _ Hh Ho) as Ha. rewrite Hch in Ha. apply holder in Ha.
  apply (run_lease _ _ at_work) in Hh as [<- _]. done.
Qed.

Lemma remember_get i :
  dict_get i (co_leases (remember g c)) = if bool_decide (i = lg_identity p) then Some g else dict_get i (co_leases c).
Proof. cbn. rewrite dict_get_set. destruct outcome as [-> _]. done. Qed.

Lemma remember_active ch :
  dict_get ch (co_active (remember g c)) =
  if bool_decide (ch = lg_challenge_id p) then (if lease_open g then Some g else None) else dict_get ch (co_active c).
Proof.
  cbn. unfold lease_open. destruct outcome as (_ & -> & _). case_bool_decide as Hcl.
  - cbn [negb]. case_bool_decide as E.
    + subst. apply dict_get_del_eq, at_work.
    + by apply dict_get_del_ne.
  - cbn [negb]. by rewrite dict_get_set.
Qed.

Lemma remember_running : running (remember g c) rs'.
Proof.
  pose proof outcome as (Hi & Hch & _). destruct at_work as [[Hk1 Hk2] Hl Ha Ho He Hs Hc Hf]. split.
  - cbn. split; [by apply dict_set_NoDup|]. case_bool_decide; [by apply dict_del_NoDup|by apply dict_set_NoDup].
  - intros i h. rewrite remember_get. case_bool_decide as E; [|apply Hl]. intros [= <-]. subst i. by split_and!.
  - intros ch h. rewrite remember_active, remember_get. case_bool_decide as E.
    + subst ch. destruct (lease_open g) eqn:Hg; [|done]. intros [= <-]. by rewrite bool_decide_true.
    + intros Hh. destruct (Ha _ _ Hh) as (Hc1 & Hc2 & Hc3). split_and!; [done|done|]. rewrite bool_decide_false; [done|].
      intros Hih. rewrite Hih in Hc3. rewrite Hc3 in held. destruct held as [_ Heq]. congruence.
  - intros i h. rewrite remember_get, remember_active. case_bool_decide as E.
    + intros [= <-] Hg. by rewrite bool_decide_true, Hg.
    + intros Hh Hoh. rewrite bool_decide_false; [by apply (Ho i)|]. intros Hch'. by apply E, (holds_its_challenge h).
  - intros i h. rewrite remember_get. case_bool_decide as E.
    + intros [= <-] Hg. subst i. exists g. split; [|done]. by apply (post_ended _ _ _ _ _ _ posted).
    + intros Hh Hg. rewrite (post_others _ _ _ _ _ _ posted) by done. by eapply He.
  - intros i h. rewrite remember_get. case_bool_decide as E.
    + subst i. intros Hh Hoh. destruct (post_own _ _ _ _ _ _ posted _ Hh Hoh) as [Hg Hcase]. exists g. split; [done|]. split; [done|].
      destruct Hcase as [Hold|Hsame]; [|destruct Hsame as (_ & -> & _); done].
      destruct (Hs _ _ Hold Hoh) as (g0 & Hg0 & Hog0 & <-). rewrite Hg0 in held. destruct held as [_ ->]. done.
    + rewrite (post_others _ _ _ _ _ _ posted) by done. apply Hs.
  - intros k r h Hk Hsee Hcl. rewrite remember_get. destruct (post_entries _ _ _ _ _ _ posted _ _ _ Hk Hsee) as [(c0 & Hk0 & Hs0)|[Hsame Heq]].
    + destruct (Hc _ _ _ Hk0 Hs0 Hcl) as (g0 & Hg0 & Hcl0). rewrite bool_decide_false; [by exists g0|].
      intros E. rewrite E in Hg0. rewrite Hg0 in held. destruct held. congruence.
    + exists g. rewrite <-(Heq Hcl). split; [|done]. destruct Hsame as [-> _]. by rewrite bool_decide_true.
  - intros k r h Hk Hsee. cbn. destruct (post_entries _ _ _ _ _ _ posted _ _ _ Hk Hsee) as [(c0 & Hk0 & Hs0)|[[-> _] _]]; [by eapply Hf|done].
Qed.
End remembering.
End memory.

(** ** Records of contenders, and the restart of a coordinator over the ledger it finds. *)

(** ** A contender *)

Section contender.
Context `{Digester} {AH : AtHand} (faults : Faults) (redact : string -> string) (boot : string) (run board : string).
Context (i : LeaseIdentity) (attempt : string) (rs0 : list Row).
Abbreviation k := (contender_key run i attempt).
Abbreviation ci := (contender_identity i attempt).

Hypothesis ci_at_hand : ci ∈ at_hand.

Definition contending (rs : list Row) : Prop :=
  wf_rows rs /\ foreign_growth rs0 rs
  /\ forall c, status k rs = Some c -> effect_fingerprint c = fingerprint ci -> is_lease_effect c = false.

Lemma contender_foreign r : is_lease_effect r = false -> effect_fingerprint r = fingerprint ci -> foreign r.
Proof.
  intros Hr Hf. split; [done|]. intros o p Ho Hin Heq. exists ci, (effect_identity o p). split_and!; [done|done| |congruence]. clear Heq.
  intros Heq%(f_equal operation). unfold lease_operations in Ho. cbn in Heq.
  by repeat (apply elem_of_cons in Ho as [->|Ho]; [done|]); apply elem_of_nil in Ho.
Qed.

Lemma contending_start : ledger_ok run board rs0 -> collision \/ contending rs0.
Proof.
  intros Hl. destruct (status k rs0) as [c|] eqn:Hs; [|right; split; [apply Hl|]; split; [constructor|]; intros ?; by rewrite Hs].
  destruct (ledger_entries _ _ _ Hl _ _ Hs) as [[Hc _]|(o & p & Ho & Hin & _ & Hf & _)].
  - right. split; [apply Hl|]. split; [constructor|]. intros c'. rewrite Hs. by intros [= <-].
  - destruct (decide (effect_fingerprint c = fingerprint ci)) as [Ec|Ec].
    + left. apply (proj2 (contender_foreign {| key := ""; identity := ci; effect_fingerprint := fingerprint ci; need := capacity 0 0 0;
        pool := SHARED; state := RESERVED; object_slots := []; observation := None; boot_id := ""; retention := RECORD;
        grant_remaining_bytes := 0; grant_headroom := None |} eq_refl eq_refl) o p Ho Hin). cbn [effect_fingerprint]. etrans; [symmetry; exact Ec|exact Hf].
    + right. split; [apply Hl|]. split; [constructor|]. intros c'. rewrite Hs. by intros [= <-].
Qed.

Lemma runs_append_contender rs es r lp (Q : unit -> list Row -> list string -> Prop) :
  contending rs -> key r = k -> effect_fingerprint r = fingerprint ci -> is_lease_effect r = false ->
  match status k rs with Some c => effect_fingerprint c = fingerprint ci | None => True end ->
  (forall rs', contending rs' -> status k rs' = Some (norm r) -> Q tt rs' es) ->
  runs rs es (append_locked r lp) Q (fun rs' _ => contending rs').
Proof.
  intros (Hwf & Hg & Hc) Hk Hf Hl Hst HQ. apply runs_append; [done| |done]. intros n rs' Hwf'.
  assert (Hs : status k rs' = Some (norm r)) by (unfold rs'; rewrite status_snoc; cbn; by rewrite Hk, bool_decide_true).
  apply HQ; [|done]. split; [done|]. split.
  - constructor; [done|by apply contender_foreign|]. cbn. rewrite Hk. intros c Hsc. rewrite Hsc in Hst. by apply Hc.
  - intros c. rewrite Hs. by intros [= <-].
Qed.

(** The redactor leaves the operation's name alone. *)
Hypothesis contender_name : bounded_text redact LEASE_CONTENDER = LEASE_CONTENDER.

Lemma contender_passed r : identity r = sanitized_identity redact ci -> is_lease_effect r = false.
Proof. intros Hi. unfold is_lease_effect. rewrite Hi. cbn. by rewrite contender_name. Qed.

Lemma runs_reserve_contender rs es n :
  contending rs ->
  runs rs es (reserve faults redact boot (plain_request k ci n SHARED RECORD))
    (fun r rs' _ => contending rs' /\ key r = k /\ effect_fingerprint r = fingerprint ci) (fun rs' _ => contending rs').
Proof.
  intros Hc. unfold reserve. destruct (_ || _); [by apply runs_raise|]. apply runs_current.
  change (rq_key (plain_request k ci n SHARED RECORD)) with k. change (rq_identity (plain_request k ci n SHARED RECORD)) with ci.
  destruct (status k rs) as [c|] eqn:Hs.
  - unfold assert_same_effect. apply runs_bind. case_bool_decide as Hf; [|by apply runs_raise]. apply runs_ret.
    change (retryable _ c) with false. cbv iota. destruct (_ && _); [by apply runs_raise|]. apply runs_ret.
    split; [done|]. split; [by eapply status_key|done].
  - unfold admit_request. apply runs_quiet_bind; [auto with quiet|done|]. intros headroom.
    apply runs_quiet_bind; [auto with quiet|done|]. intros names. apply runs_quiet_bind; [solve_quiet|done|]. intros [|].
    + apply runs_bind. unfold record_refusal. apply runs_bind, runs_get_at. intros s.
      destruct (_ <? 1); [by apply runs_ret, runs_raise|]. apply runs_append_contender; [done|done|done|by apply contender_passed|by rewrite Hs|].
      intros rs' Hc' _. by apply runs_raise.
    + apply runs_quiet_bind; [auto with quiet|done|]. intros left. apply runs_bind.
      apply runs_append_contender; [done|done|done|by apply contender_passed|by rewrite Hs|]. intros rs1 Hc1 Hs1. apply runs_bind.
      apply runs_catch. apply runs_quiet; [auto with quiet| |].
      * intros _. by apply runs_ret.
      * split; [done|]. intros e. apply runs_bind. apply runs_append_contender; [done|done|done|by apply contender_passed|by rewrite Hs1|].
        intros rs2 Hc2 _. apply runs_quiet_bind; [auto with quiet|done|]. intros _. by apply runs_raise.
Qed.

Lemma runs_move_contender {B} rs es r (f : WriteReservation -> M B) (Q : B -> list Row -> list string -> Prop) :
  contending rs -> key r = k -> effect_fingerprint r = fingerprint ci ->
  (forall c, status k rs = Some c -> effect_fingerprint c = fingerprint ci -> is_lease_effect c = false ->
     runs rs es (f c) Q (fun rs' _ => contending rs')) ->
  runs rs es (require_current r ≫= f) Q (fun rs' _ => contending rs').
Proof.
  intros Hc Hk Hf Hm. apply runs_require; [done|]. intros c Hs Hfc. rewrite Hk in Hs. apply Hm; [done|congruence|].
  apply (proj2 (proj2 Hc)); [done|congruence].
Qed.

Lemma runs_contender existing es :
  lg_identity existing = i -> contending rs0 ->
  runs rs0 es (record_contender faults redact boot run existing attempt) (fun _ rs' _ => contending rs') (fun rs' _ => contending rs').
Proof.
  intros Hi Hc. unfold record_contender. rewrite Hi. apply runs_bind. eapply runs_weaken; [by apply runs_reserve_contender| |done].
  cbn beta. intros r rs1 es1 (Hc1 & Hk1 & Hf1). apply runs_bind. unfold start. apply runs_fmap. unfold claim_start.
  apply runs_move_contender; [done|done|done|]. intros c Hs Hf Hl.
  assert (Hcommit : forall r rs es, contending rs -> key r = k -> effect_fingerprint r = fingerprint ci ->
    runs rs es (commit faults redact r (JObj [("result", JStr "fenced"); ("active_epoch", JInt (lg_epoch existing))]);; mret tt)
      (fun _ rs' _ => contending rs') (fun rs' _ => contending rs')).
  { intros x rs2 es2 Hc2 Hk2 Hf2. apply runs_bind. unfold commit, finish. apply runs_move_contender; [done|done|done|]. intros d Hsd Hfd Hld.
    destruct (is_final (state d)); [by apply runs_ret, runs_ret|]. destruct (negb _); [by apply runs_raise|].
    apply runs_bind, runs_append_contender; [done|exact (status_key _ _ _ Hsd)|done|done|by rewrite Hsd|]. intros rs3 Hc3 _.
    apply runs_quiet_bind; [destruct (retains_object _); solve_quiet|done|intros []]. by apply runs_ret, runs_ret. }
  pose proof (status_key _ _ _ Hs) as Hkc. case_bool_decide as Hst.
  - apply runs_bind, runs_append_contender; [done|done|done|done|by rewrite Hs|]. intros rs2 Hc2 _. apply runs_ret. by apply Hcommit.
  - apply runs_ret. by apply Hcommit.
Qed.
End contender.

(** ** A boot *)

Section boot.
Context `{Digester} {AH : AtHand} (faults : Faults) (boot : string) (proof : list (string * json)) (run board : string).
Abbreviation seen := (seen run board).
Abbreviation leases_in := (leases_in run board).

(** Moving a reservation on without committing it shows nothing new. *)
Lemma turned_unseen c s obs b ret :
  foreign c \/ lease_entry run board c -> state c <> COMMITTED -> s <> COMMITTED ->
  let r := transitioned c s obs b ret in (foreign r \/ lease_entry run board r) /\ seen r = seen c.
Proof.
  intros [Hc|(o & p & Ho & Hin & Hfit & Hf & Hw)] Hst Hs r.
  - split; [left; exact Hc|]. rewrite (foreign_seen run board c (proj1 Hc)). by apply foreign_seen, (proj1 Hc).
  - assert (Hr : stored_whole o p r) by (split; [apply Hw|done]). split; [right; by exists o, p|].
    pose proof (sight_entry run board o p c Ho Hfit Hw) as H1. pose proof (sight_entry run board o p r Ho Hfit Hr) as H2.
    unfold LeaseLedger.seen. case_bool_decide; [|by rewrite H1, H2].
    destruct H1 as (g1 & -> & _ & _ & _ & H1 & _), H2 as (g2 & -> & _ & _ & _ & H2 & _). by rewrite (H1 Hst), (H2 Hs).
Qed.

Definition unseen_from (rs rs' : list Row) : Prop := wf_rows rs' /\ unseen_growth run board rs rs'.

Lemma unseen_from_trans rs1 rs2 rs3 : unseen_from rs1 rs2 -> unseen_from rs2 rs3 -> unseen_from rs1 rs3.
Proof.
  intros [_ H1] [Hwf H2]. split; [done|]. clear Hwf. induction H2 as [|rs' row _ IH Hrow Hs]; [done|]. by constructor.
Qed.

Lemma recover_turns r : recover faults boot r = mret tt
  \/ exists s obs b ret m, recover faults boot r = (append_locked (transitioned r s obs b ret) None;; m)
       /\ quiet m /\ s <> COMMITTED /\ state r <> COMMITTED.
Proof.
  unfold recover. case_bool_decide; [by left|]. destruct (state r) eqn:E; try (by left); right.
  - do 5 eexists. split; [reflexivity|]. split; [auto with quiet|done].
  - do 5 eexists. split; [reflexivity|]. split; [solve_quiet|done].
Qed.

Lemma runs_recover_unseen l : forall rs es, wf_rows rs -> NoDup (key <$> l) ->
  Forall (fun r => status (key r) rs = Some r) l -> Forall (fun r => foreign r \/ lease_entry run board r) l ->
  runs rs es (recover_all faults boot l) (fun _ rs' _ => unseen_from rs rs') (fun rs' _ => unseen_from rs rs').
Proof.
  induction l as [|r l IH]; intros rs es Hwf Hnd Hall Hent; cbn [recover_all].
  { apply runs_ret. split; [done|constructor]. }
  apply NoDup_cons in Hnd as [Hnew Hnd]. apply Forall_cons in Hall as [Hr Hall]. apply Forall_cons in Hent as [He Hent].
  apply runs_bind. destruct (recover_turns r) as [->|(s & obs & b & ret & m & -> & Hm & Hs & Hst)].
  { apply runs_ret. by apply IH. }
  apply runs_bind, runs_append; [done| |split; [done|constructor]]. intros n rs' Hwf'.
  destruct (turned_unseen r s obs b ret He Hst Hs) as [Hent' Hseen].
  assert (H1 : unseen_from rs rs').
  { split; [done|]. constructor; [constructor|done|]. cbn. by rewrite Hr. }
  apply runs_quiet; [done|intros _|done].
  eapply runs_weaken; [apply (IH rs' es Hwf' Hnd); [|done]| |].
  - rewrite Forall_forall in Hall |- *. intros x Hx. unfold rs'. rewrite status_snoc. cbn. rewrite bool_decide_false; [by apply Hall|].
    intros E. apply Hnew. rewrite <-E. by apply list_elem_of_fmap_2.
  - cbn. intros _ rs2 _ H2. by eapply unseen_from_trans.
  - cbn. intros rs2 _ H2. by eapply unseen_from_trans.
Qed.

Lemma boot_unseen w :
  let rs := rows_locked (disk w) in ledger_ok run board rs ->
  unseen_from rs (rows_locked (disk (open_authority faults boot proof w).1)).
Proof.
  intros rs Hl. assert (Hruns : runs rs (effects w) (open_authority faults boot proof) (fun _ rs' _ => unseen_from rs rs') (fun rs' _ => unseen_from rs rs')).
  { unfold open_authority. apply runs_bind. unfold reconcile_prior_boots. apply runs_get. intros s Hs. unfold latest_locked. rewrite Hs.
    destruct (latest_values rs) as [Hnd Hall]. eapply runs_weaken; [apply runs_recover_unseen; [apply Hl|done|done|]| |done].
    - rewrite Forall_forall in Hall |- *. intros x Hx. apply (ledger_entries _ _ _ Hl (key x)). by apply Hall.
    - cbn. intros _ rs1 es1 H1. apply runs_quiet; [solve_quiet|done|done]. }
  specialize (Hruns w eq_refl eq_refl). by destruct (open_authority faults boot proof w) as [w' []].
Qed.

(** ** The coordinator over what it finds *)

Lemma ledger_plain rs : ledger_ok run board rs -> Forall (plain_sight run board) (dict_values (latest_of rs)).
Proof.
  intros Hl. destruct (latest_values rs) as [_ Hall]. rewrite Forall_forall in Hall |- *. intros r Hr.
  destruct (ledger_entries _ _ _ Hl _ _ (Hall _ Hr)) as [Hf|He].
  - exists None. split; [|done]. by apply foreign_sight, (proj1 Hf).
  - by apply entry_seen.
Qed.

Lemma view_values rs : seen <$> dict_values (latest_of rs) = (view run board rs).*2.
Proof. unfold view, dict_values. rewrite <-!list_fmap_compose. done. Qed.

Lemma replay_ledger rs :
  ledger_ok run board rs -> replay_leases (dict_values (latest_of rs)) run board = Ok (by_seq (dict_values (replays (view run board rs).*2))).
Proof.
  intros Hl. unfold replay_leases. rewrite replay_all_replays by (by apply ledger_plain). cbn [mbind result_bind]. by rewrite view_values.
Qed.

Lemma view_shown rs k c g : status k rs = Some c -> seen c = Some g -> exists h, leases_in rs (lg_identity g) = Some h.
Proof.
  intros Hs Hg. assert (Hin : Some g ∈ (view run board rs).*2).
  { apply list_elem_of_fmap. exists (k, Some g). split; [done|]. apply dict_get_Some_elem. by rewrite view_get, Hs, <-Hg. }
  unfold LeaseLedger.leases_in. induction (view run board rs).*2 as [|o l IH] using rev_ind; [by apply elem_of_nil in Hin|].
  rewrite replayed_snoc. apply elem_of_app in Hin as [Hin|Hin%list_elem_of_singleton].
  - destruct o as [h|]; [|by apply IH]. case_bool_decide; [by eexists|by apply IH].
  - subst o. rewrite bool_decide_true by done. by eexists.
Qed.

Lemma shown_by rs i g : leases_in rs i = Some g -> lg_identity g = i /\ exists k c, status k rs = Some c /\ seen c = Some g.
Proof.
  intros Hg. destruct (replayed_identity _ _ _ Hg) as [Hi Hin]. split; [done|]. apply list_elem_of_fmap in Hin as ([k o] & Ho & Hin). cbn in Ho. subst o.
  unfold view in Hin. apply list_elem_of_fmap in Hin as ([k' c] & E & Hin). cbn in E. injection E as <- Hsee. exists k, c. split; [|done].
  apply dict_elem_get; [apply latest_keys|done].
Qed.

Lemma shown_entry rs i g : ledger_ok run board rs -> leases_in rs i = Some g -> lg_identity g = i /\ li_run_id i = run /\ lease_fit run board g.
Proof.
  intros Hl Hg. destruct (shown_by rs i g Hg) as (Hi & k & c & Hin & Hsee). split; [done|].
  destruct (ledger_entries _ _ _ Hl _ _ Hin) as [Hf|(o & p & Ho & _ & Hfit & _ & Hw)].
  { by rewrite (foreign_seen run board c (proj1 Hf)) in Hsee. }
  pose proof (sight_entry run board o p c Ho Hfit Hw) as Hsight. unfold LeaseLedger.seen in Hsee. case_bool_decide as Hrun; [|by rewrite Hsight in Hsee].
  destruct Hsight as (h & Hh & (Hs1 & Hs2 & Hs3 & _ & Hs5 & _) & Hep & _ & Hamb & Hcom). rewrite Hh in Hsee. injection Hsee as ->.
  split; [by rewrite <-Hi, Hs1|]. split; [rewrite Hs2; apply Hfit|]. split.
  - destruct (decide (state c = COMMITTED)) as [Hst|Hst]; [by apply Hcom|]. rewrite (Hamb Hst). apply Hfit.
  - intros _. rewrite Hs3. split; [by apply Hfit|done].
Qed.

Lemma dict_of_NoDup {A K} `{EqDecision K} (f : A -> K) (l : list A) : NoDup (dict_of f l).*1.
Proof.
  unfold dict_of. assert (Hgen : forall d : list (K * A), NoDup d.*1 -> NoDup (foldl (fun d x => dict_set (f x) x d) d l).*1).
  { induction l as [|x l IH]; intros d Hd; [done|]. cbn. apply IH. by apply dict_set_NoDup. }
  apply Hgen. constructor.
Qed.

Lemma coordinator_running rs :
  ledger_ok run board rs -> running run board (coordinator_of (by_seq (dict_values (replays (view run board rs).*2)))) rs.
Proof.
  intros Hl. set (l := by_seq _). destruct (replays_keys (view run board rs).*2) as [Hnd Hids].
  assert (Hperm : l ≡ₚ dict_values (replays (view run board rs).*2)) by apply sort_by_perm.
  assert (Hin : forall g, g ∈ l <-> leases_in rs (lg_identity g) = Some g).
  { intros g. rewrite Hperm. unfold dict_values. rewrite list_elem_of_fmap. rewrite Forall_forall in Hids. split.
    - intros ([i g'] & -> & Hin). destruct (Hids _ Hin) as [E _]. cbn in E |- *. rewrite E. by apply dict_elem_get.
    - intros Hg%dict_get_Some_elem. by exists (lg_identity g, g). }
  assert (Hdist : NoDup (lg_identity <$> l)).
  { rewrite Hperm. unfold dict_values. rewrite <-list_fmap_compose. rewrite (list_fmap_ext (lg_identity ∘ snd) fst); [done|].
    intros n [i g] Hn. cbn. rewrite Forall_forall in Hids. by destruct (Hids _ (list_elem_of_lookup_2 _ _ _ Hn)). }
  assert (Hget : forall i g, dict_get i (dict_of lg_identity l) = Some g <-> leases_in rs i = Some g).
  { intros i g. rewrite dict_of_get by done. rewrite Hin. split; [by intros [? <-]|]. intros Hg.
    destruct (shown_entry rs i g Hl Hg) as [<- _]. done. }
  assert (Hfil : forall g, g ∈ List.filter lease_open l <-> leases_in rs (lg_identity g) = Some g /\ lease_open g = true).
  { intros g. rewrite <-Hin, !list_elem_of_In, List.filter_In. done. }
  assert (Hdist2 : NoDup (lg_challenge_id <$> List.filter lease_open l)).
  { apply NoDup_fmap_2_strong.
    - intros x y [Hx Ox]%Hfil [Hy Oy]%Hfil Hch. pose proof (ledger_exclusive _ _ _ Hl _ _ _ _ Hx Hy Ox Oy Hch) as E. rewrite E in Hx. congruence.
    - apply NoDup_ListNoDup, List.NoDup_filter, NoDup_ListNoDup. by eapply NoDup_fmap_1. }
  assert (Hseq : forall i g, leases_in rs i = Some g -> li_lease_seq i < maxZ 0 ((fun g => li_lease_seq (lg_identity g)) <$> l) + 1).
  { intros i g Hg. destruct (shown_entry rs i g Hl Hg) as [<- _]. apply Hin in Hg.
    pose proof (maxZ_ge 0 _ _ (list_elem_of_fmap_2 (fun g => li_lease_seq (lg_identity g)) _ _ Hg)) as Hle. cbn beta in Hle. lia. }
  assert (Hact : forall ch g, dict_get ch (dict_of lg_challenge_id (List.filter lease_open l)) = Some g
    <-> (leases_in rs (lg_identity g) = Some g /\ lease_open g = true) /\ lg_challenge_id g = ch).
  { intros ch g. rewrite dict_of_get by done. by rewrite Hfil. }
  split; cbn [coordinator_of co_leases co_active co_next_seq].
  - split; apply dict_of_NoDup.
  - intros i g Hg%Hget. destruct (shown_entry rs i g Hl Hg) as (Hi & Hr & Hfit). split_and!; [done|done|by eapply Hseq|done].
  - intros ch g Hg%Hact. destruct Hg as [[Hg Ho] Hch]. split_and!; [done|done|]. by apply Hget.
  - intros i g Hg%Hget Ho. apply Hact. destruct (shown_entry rs i g Hl Hg) as [<- _]. done.
  - intros i g Hg%Hget Ho. by exists g.
  - intros i h Hh Ho. exists h. by rewrite Hget.
  - intros k r h Hk Hs Ho. destruct (ledger_closed _ _ _ Hl _ _ _ Hk Hs Ho) as (g & Hg & Hcl). exists g. by rewrite Hget.
  - intros k r h Hk Hs. destruct (view_shown rs k r h Hk Hs) as (g & Hg). by eapply Hseq.
Qed.
End boot.
