(* ===== verification/LeaseTheorems.v ===== *)
(** Histories of a Lease coordinator: its operations, other users of the authority, power losses and
    restarts. *)

From S2P Require Import Prelude Canon Text PyJson JsonText Moment MomentFormat Reservation ReservationLogic ReservationFacts WorkGeneration Lease LeaseLedger LeaseEffects LeaseInvariant LeaseFacts.
Local Open Scope Z_scope.

Section histories.
Context `{Digester} {AH : AtHand} (redact : string -> string) {F : Type} (admit_generation : string -> Prog F (option (Z * string))) (run board owner : string).
Abbreviation seen := (seen run board).
Abbreviation leases_in := (leases_in run board).
Abbreviation ledger_ok := (ledger_ok run board).
Abbreviation LW := (LeaseWorld (F := F)).

Definition rows (w : LW) : list Row := rows_locked (disk (lw_authority w)).

(** Replayed, the Lease is closed. *)
Definition ended (rs : list Row) (i : LeaseIdentity) : Prop := exists h, leases_in rs i = Some h /\ lease_open h = false.

Definition carried (rs rs' : list Row) : Prop := forall i, ended rs i -> ended rs' i.

(** What a step from [w] leaves: a ledger in order, closed Leases closed, and memory in step unless
    power was lost. *)
Definition kept_post {A} (w : LW) (r : LW * outcome A) : Prop :=
  intact (rows r.1) -> collision \/ ledger_ok (rows r.1) /\ carried (rows w) (rows r.1)
    /\ match r.2 with Crashed => True | _ => running run board (lw_coordinator r.1) (rows r.1) end.

Lemma carried_unseen rs rs' : unseen_growth run board rs rs' -> carried rs rs'.
Proof. intros Hg i (h & Hh & Ho). exists h. by rewrite (unseen_leases _ _ _ _ _ Hg). Qed.

Lemma carried_post rs rs' p g :
  may_enter run board rs (lg_identity p) (lg_challenge_id p) -> effect_post run board rs rs' p g -> carried rs rs'.
Proof.
  intros [Hopen _] Hp i (h & Hh & Ho). destruct (decide (i = lg_identity p)) as [->|Hi].
  - destruct (shown_by run board rs _ h Hh) as (Hid & k & c & Hs & Hsee). rewrite (Hopen _ _ _ Hs Hsee Hid) in Ho. done.
  - exists h. by rewrite (post_others _ _ _ _ _ _ Hp).
Qed.

Lemma same_fit p g : lease_fit run board p -> same_lease p g -> until_ok g -> lease_fit run board g.
Proof.
  intros (Hsc & _ & Hfit) (Hi & Hch & Hb & _ & He & _) Hu. split; [by rewrite Hch|]. split; [done|]. rewrite Hi, Hb, He. done.
Qed.

Section step.
Context (faults : Faults) (boot : string) (proof : list (string * json)).

(** An effect whose outcome is remembered. *)
Lemma kept_effect w p o out :
  let c := lw_coordinator w in
  ledger_ok (rows w) -> settled (rows w) -> running run board c (rows w) -> o ∈ lease_operations -> effect_identity o p ∈ at_hand -> lease_fit run board p ->
  li_run_id (lg_identity p) = run -> li_lease_seq (lg_identity p) < co_next_seq c ->
  match dict_get (lg_identity p) (co_leases c) with
  | Some g0 => lease_open g0 = true /\ lg_challenge_id g0 = lg_challenge_id p
  | None => dict_get (lg_challenge_id p) (co_active c) = None
  end ->
  may_enter run board (rows w) (lg_identity p) (lg_challenge_id p) -> fair_outside faults redact boot proof out ->
  kept_post w ((g ← run_lease_effect faults redact boot proof p o out; remember_and_return g) w).
Proof.
  intros c Hl Hset Hrun Ho Hat Hfit Hown Hnum Hheld Hmay Hfair. unfold mbind, Prog_bind.
  pose proof (effect_ran faults redact boot proof (F := F) run board o p out Ho Hat Hfit Hown w Hl Hset Hmay Hfair) as Hr.
  cbv zeta in Hr. destruct (run_lease_effect faults redact boot proof p o out w) as [w' [g|e|]]; cbv iota beta.
  - destruct Hr as [Hc Hpost]. unfold remember_and_return, mbind, Prog_bind, ask, keep_coordinator, mret, Prog_ret. cbv iota beta.
    intros Hint. destruct (Hpost Hint) as [?|(Hu & Hsame & Hp)]; [by left|]. right. cbn. split; [apply Hp|]. split; [by eapply carried_post|].
    rewrite Hc. eapply remember_running; [done|done|done|exact Hheld|done|by eapply same_fit|exact Hp].
  - destruct Hr as [Hc Hun]. intros Hint. destruct (Hun Hint) as [?|[Hwf Hg]]; [by left|]. right. cbn in *.
    split; [by eapply ledger_unseen|]. split; [by apply carried_unseen|]. rewrite Hc. by eapply running_unseen.
  - intros Hint. destruct (Hr Hint) as [?|Hp]; [by left|]. right. cbn. split; [apply Hp|]. split; [by eapply carried_post|done].
Qed.

Lemma kept_same {A} w w' (r : outcome A) :
  ledger_ok (rows w) -> running run board (lw_coordinator w') (rows w) -> rows w' = rows w -> kept_post w (w', r).
Proof.
  intros Hl Hr Hrows _. right. cbn. rewrite Hrows. split; [done|]. split; [by intros i|]. by destruct r.
Qed.

(** The effect presented under an admission of the fence, if there is one. *)
Definition admitted_effect (w : LW) (generation : GenerationIdentity) (p : LeaseGrant) (o : string) : list EffectIdentity :=
  match (admit_generation (id_generation generation) (lw_fence w)).2 with
  | Done (Some (n, event)) => [effect_identity o (with_admission n event p)]
  | _ => []
  end.

Lemma kept_admitted w generation p o out :
  let c := lw_coordinator w in
  ledger_ok (rows w) -> settled (rows w) -> running run board c (rows w) -> o ∈ lease_operations ->
  admitted_effect w generation p o ⊆ at_hand -> lease_fit run board p ->
  li_run_id (lg_identity p) = run -> li_lease_seq (lg_identity p) < co_next_seq c ->
  match dict_get (lg_identity p) (co_leases c) with
  | Some g0 => lease_open g0 = true /\ lg_challenge_id g0 = lg_challenge_id p
  | None => dict_get (lg_challenge_id p) (co_active c) = None
  end ->
  may_enter run board (rows w) (lg_identity p) (lg_challenge_id p) -> fair_outside faults redact boot proof out ->
  kept_post w ((g ← admit_effect faults redact boot proof admit_generation generation p o out; remember_and_return g) w).
Proof.
  intros c Hl Hset Hrun Ho Hat Hfit Hown Hnum Hheld Hmay Hfair. unfold admit_effect. unfold admitted_effect in Hat.
  assert (Hassoc : forall A B C (m : Prog LW A) (f : A -> Prog LW B) (k : B -> Prog LW C) (w : LW), ((m ≫= f) ≫= k) w = (m ≫= (fun a => f a ≫= k)) w).
  { intros A B C m f k w0. unfold mbind, Prog_bind. by destruct (m w0) as [w1 []]. }
  rewrite Hassoc. unfold mbind at 1, Prog_bind at 1. unfold on_fence. destruct (admit_generation (id_generation generation) (lw_fence w)) as [f [[[n e]|]|e|]].
  - apply (kept_effect {| lw_authority := lw_authority w; lw_fence := f; lw_coordinator := lw_coordinator w |} (with_admission n e p)); try done.
    apply Hat. by left.
  - by apply kept_same.
  - by apply kept_same.
  - by apply kept_same.
Qed.

Lemma current_lease_cases w i epoch generation :
  (exists g, current_lease (F := F) i epoch generation w = (w, Done g) /\ dict_get i (co_leases (lw_coordinator w)) = Some g
     /\ lease_open g = true /\ lg_epoch g = epoch /\ lg_generation_id g = id_generation generation /\ lg_attempt_id g = id_attempt generation)
  \/ exists x, current_lease (F := F) i epoch generation w = (w, Raised (StaleLease x)).
Proof.
  unfold current_lease, mbind, Prog_bind, ask. destruct (dict_get i (co_leases (lw_coordinator w))) as [g|]; [|right; by eexists].
  destruct (_ && _) eqn:E; [|right; by eexists]. left. exists g. bool_to_prop. by split_and!.
Qed.

Lemma kept_current {A} w i epoch generation (k : LeaseGrant -> Prog LW A) :
  ledger_ok (rows w) -> running run board (lw_coordinator w) (rows w) ->
  (forall g, dict_get i (co_leases (lw_coordinator w)) = Some g -> lease_open g = true -> kept_post w (k g w)) ->
  kept_post w ((current_lease i epoch generation ≫= k) w).
Proof.
  intros Hl Hr Hk. unfold mbind, Prog_bind. destruct (current_lease_cases w i epoch generation) as [(g & -> & Hg & Ho & _)|(x & ->)].
  - by apply Hk.
  - by apply kept_same.
Qed.

(** An operation on a Lease open in memory, whatever it proposes. *)
Lemma kept_operation w i g phase k n until generation o out :
  ledger_ok (rows w) -> settled (rows w) -> running run board (lw_coordinator w) (rows w) ->
  dict_get i (co_leases (lw_coordinator w)) = Some g -> lease_open g = true -> o ∈ lease_operations ->
  match until with Some m => representable m | None => True end -> fair_outside faults redact boot proof out ->
  let p := with_operation phase k n until g in
  (admitted_effect w generation p o ⊆ at_hand ->
    kept_post w ((g ← admit_effect faults redact boot proof admit_generation generation p o out; remember_and_return g) w))
  /\ (effect_identity o p ∈ at_hand -> kept_post w ((g ← run_lease_effect faults redact boot proof p o out; remember_and_return g) w)).
Proof.
  intros Hl Hset Hrun Hg Ho Hop Hu Hfair p. destruct (run_lease _ _ _ _ Hrun _ _ Hg) as (Hi & Hr & Hseq & Hsc & _ & Hfit).
  assert (Hp : lease_fit run board p) by (by split_and!). pose proof (running_may_enter _ _ _ _ _ _ Hrun Hg Ho) as Hmay. rewrite <-Hi in *.
  assert (Hheld : match dict_get (lg_identity p) (co_leases (lw_coordinator w)) with
    | Some g0 => lease_open g0 = true /\ lg_challenge_id g0 = lg_challenge_id p
    | None => dict_get (lg_challenge_id p) (co_active (lw_coordinator w)) = None end).
  { change (lg_identity p) with (lg_identity g). by rewrite Hg. }
  split; intros Hat; [by apply kept_admitted|by apply kept_effect].
Qed.

Lemma until_of w i g :
  running run board (lw_coordinator w) (rows w) -> dict_get i (co_leases (lw_coordinator w)) = Some g ->
  match lg_until g with Some m => representable m | None => True end.
Proof. intros Hr Hg. by destruct (run_lease _ _ _ _ Hr _ _ Hg) as (_ & _ & _ & _ & Hu & _). Qed.

(** ** The operations *)

Inductive LeaseOp : Type :=
  | Acquire (challenge : json) (generation : GenerationIdentity) (out : Outside)
  | Renew (i : LeaseIdentity) (epoch : Z) (generation : GenerationIdentity) (until : moment) (out : Outside)
  | Release (i : LeaseIdentity) (epoch : Z) (generation : GenerationIdentity) (out : Outside)
  | Expire (i : LeaseIdentity) (epoch : Z) (generation : GenerationIdentity) (absence : string) (polls late : list (list op))
  | ReconcileRelease (i : LeaseIdentity) (epoch : Z) (snapshot : string) (out : Outside)
  | ReconcileGrant (g : LeaseGrant) (snapshot : string) (out : Outside).

Definition do_lease_op (o : LeaseOp) : Prog LW LeaseGrant :=
  match o with
  | Acquire challenge generation out => acquire_lease faults redact boot proof admit_generation run board owner challenge generation out
  | Renew i epoch generation until out => renew_lease faults redact boot proof admit_generation i epoch generation until out
  | Release i epoch generation out => release_lease faults redact boot proof admit_generation i epoch generation out
  | Expire i epoch generation absence polls late => expire_lease faults redact boot proof admit_generation i epoch generation absence polls late
  | ReconcileRelease i epoch snapshot out => reconcile_release faults redact boot proof i epoch snapshot out
  | ReconcileGrant g snapshot out => reconcile_grant_release faults redact boot proof run board owner g snapshot out
  end.

(** The Lease a new one of the coordinator is asked as. *)
Definition new_lease (w : LW) (challenge : json) (generation : GenerationIdentity) : LeaseGrant :=
  let i := {| li_run_id := run; li_lease_seq := co_next_seq (lw_coordinator w) |} in {|
  lg_identity := i; lg_challenge_id := challenge; lg_board_id := board; lg_owner_id := owner; lg_epoch := 1;
  lg_generation_id := id_generation generation; lg_attempt_id := id_attempt generation; lg_phase := LEASE_RESERVED;
  lg_operation_key := lease_key i "create" 1 ""; lg_authority_sequence := 0; lg_authority_event_id := ""; lg_renewal_sequence := 0;
  lg_row_id := ""; lg_target := ""; lg_until := None; lg_verdict := VERDICT_NONE; lg_close_cause := CAUSE_NONE |}.

Definition renewing (i : LeaseIdentity) (epoch : Z) (until : moment) (g : LeaseGrant) : LeaseGrant :=
  let n := if bool_decide (lg_verdict g = RENEW_AMBIGUOUS) then lg_renewal_sequence g else lg_renewal_sequence g + 1 in
  with_operation (lg_phase g) (lease_key i "renew" epoch (str_int n)) n (Some until) g.

Definition expiring (i : LeaseIdentity) (epoch : Z) (absence : string) (g : LeaseGrant) : LeaseGrant :=
  with_operation LEASE_RESERVED (lease_key i "expire" epoch absence) (lg_renewal_sequence g) (lg_until g) g.

(** The effects an operation may present to the authority: at most one. *)
Definition presented (o : LeaseOp) (w : LW) : list EffectIdentity :=
  let held i (f : LeaseGrant -> list EffectIdentity) := match dict_get i (co_leases (lw_coordinator w)) with Some g => f g | None => [] end in
  match o with
  | Acquire challenge generation _ =>
      match dict_get challenge (co_active (lw_coordinator w)) with
      | Some existing => [contender_identity (lg_identity existing) (id_attempt generation)]
      | None => admitted_effect w generation (new_lease w challenge generation) "create"
      end
  | Renew i epoch generation until _ => held i (fun g => admitted_effect w generation (renewing i epoch until g) "renew")
  | Release i epoch generation _ => held i (fun g => admitted_effect w generation (releasing i epoch g) "release")
  | Expire i epoch generation absence _ _ => held i (fun g => admitted_effect w generation (expiring i epoch absence g) "expire")
  | ReconcileRelease i epoch _ _ => held i (fun g => [effect_identity "release" (releasing i epoch g)])
  | ReconcileGrant g _ _ =>
      let i := lg_identity g in
      if bool_decide (li_run_id i = run) then held i (fun g' => [effect_identity "release" (releasing i (lg_epoch g) g')])
      else [effect_identity "release" (releasing i (lg_epoch g) g)]
  end.

(** Arguments of the types the signatures state, and an outside that keeps off the Leases. *)
Definition fair_op (o : LeaseOp) : Prop :=
  match o with
  | Acquire challenge _ out => scalar challenge /\ fair_outside faults redact boot proof out
  | Renew _ _ _ until out => representable until /\ fair_outside faults redact boot proof out
  | Release _ _ _ out | ReconcileRelease _ _ _ out => fair_outside faults redact boot proof out
  | Expire _ _ _ _ polls _ => Forall (Forall (foreign_op faults redact boot proof)) polls
  | ReconcileGrant g _ out => scalar (lg_challenge_id g) /\ until_ok g /\ fair_outside faults redact boot proof out
  end.

Hypothesis contender_name : bounded_text redact LEASE_CONTENDER = LEASE_CONTENDER.

Lemma kept_acquire w challenge generation out :
  ledger_ok (rows w) -> settled (rows w) -> running run board (lw_coordinator w) (rows w) ->
  scalar challenge -> fair_outside faults redact boot proof out -> presented (Acquire challenge generation out) w ⊆ at_hand ->
  kept_post w (acquire_lease faults redact boot proof admit_generation run board owner challenge generation out w).
Proof.
  intros Hl Hset Hrun Hsc Hfair Hat. cbn [presented] in Hat. unfold acquire_lease. unfold mbind at 1, Prog_bind at 1. unfold try, raise_unless.
  destruct (generation_belongs challenge generation); [|by apply kept_same]. unfold mbind at 1, Prog_bind at 1, ask.
  destruct (dict_get challenge (co_active (lw_coordinator w))) as [existing|] eqn:Hact.
  - unfold mbind, Prog_bind, on_authority.
    pose proof (Hat _ ltac:(by left)) as Hci.
    destruct (contending_start run board (lg_identity existing) (id_attempt generation) (rows w) Hci Hl) as [?|Hc]; [intros _; by left|].
    pose proof (runs_contender faults redact boot run (lg_identity existing) (id_attempt generation) (rows w) Hci contender_name existing
      (effects (lw_authority w)) eq_refl Hc (lw_authority w) eq_refl eq_refl) as Hr.
    destruct (record_contender _ _ _ _ _ _ (lw_authority w)) as [a [[]|e|]]; intros _; right; cbn; unfold rows in *; cbn in *;
      destruct Hr as (Hwf & Hg%(foreign_unseen run board) & _);
      (split; [by eapply ledger_unseen|]); (split; [by apply carried_unseen|]); try done; by eapply running_unseen.
  - unfold mbind at 1, Prog_bind at 1, keep_coordinator. cbv iota beta.
    set (w1 := {| lw_authority := _; lw_fence := _; lw_coordinator := {| co_leases := _; co_active := _; co_next_seq := _ |} |}).
    assert (Hrun1 : running run board (lw_coordinator w1) (rows w1)) by (apply running_next; [done|lia]).
    change (kept_post w1 ((g ← admit_effect faults redact boot proof admit_generation generation (new_lease w challenge generation) "create" out;
      remember_and_return g) w1)).
    apply kept_admitted; cbn [new_lease lg_identity lg_challenge_id li_run_id li_lease_seq]; [done|done|done|set_solver|exact Hat|by split_and!|done|cbn; lia| | |done].
    + change (co_leases (lw_coordinator w1)) with (co_leases (lw_coordinator w)). rewrite (fresh_unknown _ _ _ _ Hrun). exact Hact.
    + by apply fresh_may_enter.
Qed.

Lemma kept_reconcile w i epoch snapshot out :
  ledger_ok (rows w) -> settled (rows w) -> running run board (lw_coordinator w) (rows w) -> fair_outside faults redact boot proof out ->
  presented (ReconcileRelease i epoch snapshot out) w ⊆ at_hand -> kept_post w (reconcile_release faults redact boot proof i epoch snapshot out w).
Proof.
  intros Hl Hset Hrun Hfair Hat. cbn [presented] in Hat. unfold reconcile_release. unfold mbind at 1, Prog_bind at 1, try, raise_if. destruct (bool_decide _); [by apply kept_same|].
  unfold mbind at 1, Prog_bind at 1, ask. destruct (dict_get i (co_leases (lw_coordinator w))) as [g|] eqn:Hg; [|by apply kept_same].
  destruct (_ && _) eqn:E; [|by apply kept_same]. bool_to_prop.
  apply (kept_operation w i g _ _ _ _ {| id_generation := ""; id_work := ""; id_attempt := "" |}); [done..|set_solver|by eapply until_of|done|].
  apply Hat. by left.
Qed.

Lemma kept_op w o :
  ledger_ok (rows w) -> settled (rows w) -> running run board (lw_coordinator w) (rows w) -> fair_op o ->
  presented o w ⊆ at_hand -> kept_post w (do_lease_op o w).
Proof.
  intros Hl Hset Hrun Hfair Hat. destruct o as [challenge generation out|i epoch generation until out|i epoch generation out
    |i epoch generation absence polls late|i epoch snapshot out|g snapshot out]; cbn [do_lease_op fair_op] in *.
  - by apply kept_acquire; [..|apply Hfair|apply Hfair|].
  - destruct Hfair. apply kept_current; [done|done|]. intros g Hg Ho. cbn [presented] in Hat. rewrite Hg in Hat.
    apply (kept_operation w i g); [done..|set_solver|done|done|exact Hat].
  - apply kept_current; [done|done|]. intros g Hg Ho. cbn [presented] in Hat. rewrite Hg in Hat.
    apply (kept_operation w i g); [done..|set_solver|by eapply until_of|done|exact Hat].
  - unfold expire_lease. unfold mbind at 1, Prog_bind at 1, try, raise_if. destruct (bool_decide _); [by apply kept_same|].
    apply kept_current; [done|done|]. intros g Hg Ho. cbn [presented] in Hat. rewrite Hg in Hat.
    apply (kept_operation w i g); [done..|set_solver|by eapply until_of|by split_and!|exact Hat].
  - by apply kept_reconcile.
  - destruct Hfair as (Hsc & Hu & Hfair). unfold reconcile_grant_release. unfold mbind at 1, Prog_bind at 1, try, raise_unless.
    destruct (_ && _); [|by apply kept_same]. cbn [presented] in Hat. case_bool_decide as Hrn; [by apply kept_reconcile|].
    pose proof (Hat _ ltac:(by left)) as Hin.
    assert (Hp : lease_fit run board (releasing (lg_identity g) (lg_epoch g) g)) by (by split_and!).
    destruct (other_ran faults redact boot proof (F := F) run board "release" (releasing (lg_identity g) (lg_epoch g) g) out
      ltac:(set_solver) Hin Hp Hrn w Hl Hset Hfair) as [Hc Hun]. intros Hint. destruct (Hun Hint) as [?|[Hwf Hg]]; [by left|]. right.
    fold (rows w) in Hg. split; [by eapply ledger_unseen|]. split; [by apply carried_unseen|]. rewrite Hc.
    destruct (run_lease_effect _ _ _ _ _ _ _ w).2; [by eapply running_unseen..|done].
Qed.
End step.

(** ** Histories *)

(** A step of a Run's Leases; the flag says whether a coordinator is at work. *)
Inductive lease_step : bool * LW -> bool * LW -> Prop :=
  (** an operation that returns, raises or loses power; its records were stored whole, and it found
      no Lease effect reserved and not started *)
  | step_op faults boot proof o w :
      settled (rows w) -> fair_op faults boot proof o -> presented o w ⊆ at_hand -> intact (rows (do_lease_op faults boot proof o w).1) ->
      lease_step (true, w) (match (do_lease_op faults boot proof o w).2 with Crashed => false | _ => true end, (do_lease_op faults boot proof o w).1)
  (** another user of the authority *)
  | step_others b w w' :
      lw_coordinator w' = lw_coordinator w -> wf_rows (rows w') -> foreign_growth (rows w) (rows w') -> lease_step (b, w) (b, w')
  (** the process ends and another one boots, as far as it gets *)
  | step_boot faults boot proof n b w :
      lease_step (b, w) (false, {| lw_authority := (open_authority faults boot proof
          {| disk := disk (lw_authority w); writes_left := n; effects := effects (lw_authority w) |}).1;
        lw_fence := lw_fence w; lw_coordinator := lw_coordinator w |})
  (** its coordinator is built from the ledger *)
  | step_open w w' : open_coordinator run board owner w = (w', Done tt) -> lease_step (false, w) (true, w').

Definition in_step (s : bool * LW) : Prop :=
  ledger_ok (rows s.2) /\ (s.1 = true -> running run board (lw_coordinator s.2) (rows s.2)).

Hypothesis contender_name : bounded_text redact LEASE_CONTENDER = LEASE_CONTENDER.

Lemma step_keeps s s' : in_step s -> lease_step s s' -> collision \/ in_step s' /\ carried (rows s.2) (rows s'.2).
Proof.
  intros [Hl Hrun] Hs. destruct Hs as [faults boot proof o w Hset Hfair Hat Hint|b w w' Hc Hwf Hg|faults boot proof n b w|w w' Ho]; cbn in *.
  - pose proof (kept_op faults boot proof contender_name w o Hl Hset (Hrun eq_refl) Hfair Hat Hint) as [?|(Hl' & Hca & Hr)]; [by left|]. right.
    split; [|done]. split; [done|]. cbn. by destruct (do_lease_op faults boot proof o w).2.
  - right. apply (foreign_unseen run board) in Hg. split; [|by apply carried_unseen]. split; cbn; [by eapply ledger_unseen|].
    intros ->. rewrite Hc. eapply running_unseen; [by apply Hrun|done].
  - right. destruct (boot_unseen faults boot proof run board {| disk := disk (lw_authority w); writes_left := n; effects := effects (lw_authority w) |} Hl)
      as [Hwf Hg]. split; [|by apply carried_unseen]. split; cbn; [|done]. by eapply ledger_unseen.
  - right. unfold open_coordinator in Ho. unfold mbind at 1, Prog_bind at 1, try at 1, raise_if in Ho. destruct (_ || _); [done|].
    unfold mbind, Prog_bind, on_authority, get, keep_coordinator, try, latest_locked in Ho. cbv iota beta in Ho.
    change (rows_locked (disk (lw_authority w))) with (rows w) in Ho. rewrite (replay_ledger run board _ Hl) in Ho. injection Ho as <-.
    split; [|by intros i]. split; cbn; [done|]. intros _. by apply coordinator_running.
Qed.

Lemma steps_keep s s' : in_step s -> rtc lease_step s s' -> collision \/ in_step s' /\ carried (rows s.2) (rows s'.2).
Proof.
  intros Hs Hrtc. revert Hs. induction Hrtc as [s|s1 s2 s3 H12 _ IH]; intros Hs; [right; split; [done|by intros i]|].
  destruct (step_keeps _ _ Hs H12) as [?|[H2 Hc]]; [by left|]. destruct (IH H2) as [?|[H3 Hc']]; [by left|]. right. split; [done|].
  intros i Hi. by apply Hc', Hc.
Qed.

(** A Run that has no ledger yet. *)
Definition fresh_run (profile : WriteProfile) (n : nat) (f : F) (c : Coordinator) : LW := {|
  lw_authority := {| disk := fresh_store profile; writes_left := n; effects := [] |}; lw_fence := f; lw_coordinator := c |}.

Lemma fresh_in_step profile n f c : in_step (false, fresh_run profile n f c).
Proof. split; [|done]. unfold rows. cbn. rewrite fresh_rows. apply ledger_empty. Qed.

(** C22. Along every history of a Run's Leases - operations that return, raise or lose power, other users of the
    authority, reboots and coordinators rebuilt from the ledger - a Challenge has at most one open Lease, and
    the coordinator's index of active Leases holds exactly the open ones - unless, among the effects the
    history's operations presented ([at_hand] lists them), two different ones have one fingerprint.
    A history goes on only while the records of its Lease effects are stored whole: a subject of more than
    512 bytes is cut, an ordinary release can reach that, and a restart then finds the released Lease open
    ([cut_record_ignored]). An operation finds no Lease effect reserved and not started (a boot aborts those
    of earlier boots); the Board raises no [ReservationConflict], and other users write no Lease effects. *)
Theorem leases_exclusive profile n f c w :
  rtc lease_step (false, fresh_run profile n f c) (true, w) ->
  collision
  \/ (forall i j g h, dict_get i (co_leases (lw_coordinator w)) = Some g -> dict_get j (co_leases (lw_coordinator w)) = Some h ->
        lease_open g = true -> lease_open h = true -> lg_challenge_id g = lg_challenge_id h -> i = j)
     /\ (forall ch g, dict_get ch (co_active (lw_coordinator w)) = Some g <->
          dict_get (lg_identity g) (co_leases (lw_coordinator w)) = Some g /\ lease_open g = true /\ lg_challenge_id g = ch).
Proof.
  intros Hs. destruct (steps_keep _ _ (fresh_in_step profile n f c) Hs) as [?|[[_ Hrun] _]]; [by left|]. right. specialize (Hrun eq_refl). cbn in Hrun.
  split.
  - intros i j g h Hg Hh Og Oh Hch. apply (run_lease _ _ _ _ Hrun) in Hg as Hi, Hh as Hj. destruct Hi as [<- _], Hj as [<- _].
    pose proof (run_open _ _ _ _ Hrun _ _ Hg Og) as H1. pose proof (run_open _ _ _ _ Hrun _ _ Hh Oh) as H2. rewrite Hch, H2 in H1. congruence.
  - intros ch g. split; [|by intros (Hg & Ho & <-); apply (run_open _ _ _ _ Hrun _ _ Hg)].
    intros Hg. by destruct (run_active _ _ _ _ Hrun _ _ Hg) as (? & ? & ?).
Qed.

(** C23. Once a Lease of such a history is closed it stays closed through everything that follows, restarts
    included - unless, among the effects the history's operations presented, two different ones have one
    fingerprint. As above a history goes on only while the records of its Lease effects are stored whole -
    a release whose subject is longer than 512 bytes is not, and its Lease is open again after a restart
    ([cut_record_ignored]) - and an operation finds no Lease effect reserved and not started. *)
Theorem closed_lease_final profile n f c w1 w2 i g :
  rtc lease_step (false, fresh_run profile n f c) (true, w1) -> rtc lease_step (true, w1) (true, w2) ->
  dict_get i (co_leases (lw_coordinator w1)) = Some g -> lease_open g = false ->
  collision \/ exists h, dict_get i (co_leases (lw_coordinator w2)) = Some h /\ lease_open h = false.
Proof.
  intros H1 H2 Hg Ho. destruct (steps_keep _ _ (fresh_in_step profile n f c) H1) as [?|[Hin1 _]]; [by left|].
  destruct (steps_keep _ _ Hin1 H2) as [?|[[_ Hrun2] Hca]]; [by left|]. right. specialize (Hrun2 eq_refl). cbn in *.
  destruct Hin1 as [_ Hrun1]. specialize (Hrun1 eq_refl). cbn in Hrun1.
  destruct (Hca i) as (h & Hh & Hoh); [exact (run_ended _ _ _ _ Hrun1 _ _ Hg Ho)|].
  destruct (shown_by run board _ _ _ Hh) as (<- & k & r & Hs & Hsee). by eapply (run_closed _ _ _ _ Hrun2).
Qed.
End histories.
