(* ===== verification/LeaseSafety.v ===== *)
(** Who may touch the Board: every Lease effect is one an open Lease, or its first Attempt, was
    admitted to; and a release that ended unsettled is not retried. *)

From S2P Require Import Prelude Canon Text PyJson JsonText Moment MomentFormat EventStore EventContracts EventLog Reservation ReservationLogic ReservationFacts WorkGeneration WorkGenerationLogic WorkGenerationFacts Lease LeaseLedger LeaseEffects LeaseInvariant LeaseTheorems.
Local Open Scope Z_scope.

(** ** Programs that run no effect *)

Definition still {A} (m : M A) : Prop := forall w, effects (m w).1 = effects w.

Lemma still_quiet {A} (m : M A) : quiet m -> still m.
Proof. intros Hm w. by apply Hm. Qed.

Lemma still_bind {A B} (m : M A) (f : A -> M B) : still m -> (forall a, still (f a)) -> still (m ≫= f).
Proof.
  intros Hm Hf w. unfold mbind, M_bind. specialize (Hm w). destruct (m w) as [w1 [a|e|]]; [|done..]. rewrite Hf. exact Hm.
Qed.

Lemma still_fmap {A B} (f : A -> B) (m : M A) : still m -> still (f <$> m).
Proof. intros Hm w. unfold fmap, M_fmap. specialize (Hm w). by destruct (m w) as [w1 []]. Qed.

Lemma still_catch {A} (m : M A) h : still m -> (forall e, still (h e)) -> still (catch m h).
Proof. intros Hm Hh w. unfold catch. specialize (Hm w). destruct (m w) as [w1 [a|e|]]; [done| |done]. rewrite Hh. exact Hm. Qed.

Lemma still_append r lp : still (append_locked r lp).
Proof.
  unfold append_locked. apply still_bind; [by apply still_quiet; auto with quiet|]. intros s.
  destruct (first_empty_record _); [|by apply still_quiet; auto with quiet]. destruct (_ <? _); [by apply still_quiet; auto with quiet|].
  intros w. unfold durable. by destruct (writes_left w).
Qed.

Ltac stay := repeat first
  [ apply still_append | match goal with |- still (give_back _ _) => apply still_quiet; auto with quiet end | apply still_bind; [|intros ?] | apply still_fmap | apply still_catch; [|intros ?]
  | match goal with |- still (if ?b then _ else _) => destruct b
                  | |- still (match ?x with _ => _ end) => destruct x end
  | apply still_quiet; solve [auto with quiet | solve_quiet] ].

Section safety.
Context `{Digester} (redact : string -> string).

Lemma still_reserve faults boot rq : still (reserve faults redact boot rq).
Proof. unfold reserve, admit_request, record_refusal, assert_same_effect. stay. Qed.

Lemma still_contender faults boot run existing attempt : still (record_contender faults redact boot run existing attempt).
Proof.
  unfold record_contender. apply still_bind; [apply still_reserve|]. intros r.
  unfold start, claim_start, commit, finish, require_current, assert_same_effect. stay.
Qed.

Context {F : Type} (admit_generation : string -> Prog F (option (Z * string))) (run board owner : string).
Abbreviation LW := (LeaseWorld (F := F)).

Definition board_effects (w : LW) : list string := effects (lw_authority w).

(** The Work generation was admitted to an effect. *)
Definition admitted (w : LW) (generation : GenerationIdentity) : Prop :=
  exists x, (admit_generation (id_generation generation) (lw_fence w)).2 = Done (Some x).

(** The Attempt of the generation holds the Lease, which is open. *)
Definition holds_lease (w : LW) (i : LeaseIdentity) (epoch : Z) (generation : GenerationIdentity) : Prop :=
  exists g, dict_get i (co_leases (lw_coordinator w)) = Some g /\ lease_open g = true /\ lg_epoch g = epoch
    /\ lg_generation_id g = id_generation generation /\ lg_attempt_id g = id_attempt generation.

Definition reconciles (w : LW) (i : LeaseIdentity) (epoch : Z) (snapshot : string) : Prop :=
  snapshot <> "" /\ exists g, dict_get i (co_leases (lw_coordinator w)) = Some g /\ lease_open g = true /\ lg_epoch g = epoch.

Definition authorised (w : LW) (o : LeaseOp) : Prop :=
  match o with
  | Acquire challenge generation _ =>
      generation_belongs challenge generation = true /\ dict_get challenge (co_active (lw_coordinator w)) = None /\ admitted w generation
  | Renew i epoch generation _ _ | Release i epoch generation _ | Expire i epoch generation _ _ _ =>
      holds_lease w i epoch generation /\ admitted w generation
  | ReconcileRelease i epoch snapshot _ => reconciles w i epoch snapshot
  | ReconcileGrant g snapshot _ =>
      lg_board_id g = board /\ lg_owner_id g = owner
      /\ (li_run_id (lg_identity g) = run -> reconciles w (lg_identity g) (lg_epoch g) snapshot)
  end.

Lemma admit_effect_unadmitted {A} faults boot proof w generation p o out (k : LeaseGrant -> Prog LW A) :
  board_effects ((admit_effect faults redact boot proof admit_generation generation p o out ≫= k) w).1 <> board_effects w -> admitted w generation.
Proof.
  unfold admit_effect, mbind, Prog_bind, on_fence. unfold admitted.
  destruct (admit_generation (id_generation generation) (lw_fence w)) as [f [[x|]|e|]]; cbn; [by exists x|done..].
Qed.

Lemma current_lease_authorised {A} w i epoch generation (k : LeaseGrant -> Prog LW A) :
  board_effects ((current_lease i epoch generation ≫= k) w).1 <> board_effects w ->
  exists g, holds_lease w i epoch generation /\ board_effects (k g w).1 <> board_effects w.
Proof.
  unfold mbind, Prog_bind. destruct (current_lease_cases w i epoch generation) as [(g & -> & Hg & Hrest)|(x & ->)]; [|done].
  intros Hk. exists g. split; [by exists g|done].
Qed.

Lemma reconcile_authorised faults boot proof w i epoch snapshot out :
  board_effects (reconcile_release faults redact boot proof i epoch snapshot out w).1 <> board_effects w -> reconciles w i epoch snapshot.
Proof.
  unfold reconcile_release. unfold mbind at 1, Prog_bind at 1, try, raise_if. case_bool_decide as Hs; [done|].
  unfold mbind at 1, Prog_bind at 1, ask. destruct (dict_get i (co_leases (lw_coordinator w))) as [g|] eqn:Hg; [|done].
  destruct (_ && _) eqn:E; [|done]. bool_to_prop. intros _. split; [done|]. by exists g.
Qed.

Lemma effect_authorised faults boot proof o w :
  board_effects (do_lease_op redact admit_generation run board owner faults boot proof o w).1 <> board_effects w -> authorised w o.
Proof.
  destruct o as [challenge generation out|i epoch generation until out|i epoch generation out
    |i epoch generation absence polls late|i epoch snapshot out|g snapshot out]; cbn [do_lease_op authorised].
  - unfold acquire_lease. unfold mbind at 1, Prog_bind at 1, try, raise_unless. destruct (generation_belongs challenge generation); [|done].
    unfold mbind at 1, Prog_bind at 1, ask. destruct (dict_get challenge (co_active (lw_coordinator w))) as [existing|] eqn:Ha.
    + unfold mbind, Prog_bind, on_authority. pose proof (still_contender faults boot run existing (id_attempt generation) (lw_authority w)) as Hst.
      by destruct (record_contender _ _ _ _ _ _ (lw_authority w)) as [a []].
    + unfold mbind at 1, Prog_bind at 1, keep_coordinator. cbv iota beta. intros Hne. split; [done|]. split; [done|].
      exact (admit_effect_unadmitted faults boot proof _ generation _ _ _ _ Hne).
  - intros (g & Hh & Hne)%current_lease_authorised. split; [done|]. by apply admit_effect_unadmitted in Hne.
  - intros (g & Hh & Hne)%current_lease_authorised. split; [done|]. by apply admit_effect_unadmitted in Hne.
  - unfold expire_lease. unfold mbind at 1, Prog_bind at 1, try, raise_if. destruct (bool_decide _); [done|].
    intros (g & Hh & Hne)%current_lease_authorised. split; [done|]. by apply admit_effect_unadmitted in Hne.
  - apply reconcile_authorised.
  - unfold reconcile_grant_release. unfold mbind at 1, Prog_bind at 1, try, raise_unless. destruct (_ && _) eqn:E; [|done]. bool_to_prop.
    case_bool_decide as Hr; [|done]. intros Hne%reconcile_authorised. by split_and!.
Qed.

(** C24. An operation of the coordinator asks the Board for anything only with authority: acquiring needs a
    generation of this very Challenge, which no open Lease fences, and its admission by the fence; renewing,
    releasing and expiring need the open Lease at the presented epoch, held by the presented generation and
    Attempt, and its admission; a reconciling release needs snapshot evidence and the open Lease at the
    presented epoch, or a Lease of another Run of the same Board and owner. *)
Theorem board_effect_authorised faults boot proof o w :
  board_effects (do_lease_op redact admit_generation run board owner faults boot proof o w).1 <> board_effects w -> authorised w o.
Proof. apply effect_authorised. Qed.

(** ** A release that is retried *)

(** C26. A release whose key is on the ledger from an earlier admission is not retried: under a new admission of
    the fence the effect presented is another one than the effect [q] on the ledger, and either these very
    two have one fingerprint or the release raises [ReservationConflict], asks nothing of the Board and
    leaves the ledger and the coordinator as they are. *)
Theorem second_release_conflicts faults boot proof w i epoch generation out g c q f n event :
  dict_get i (co_leases (lw_coordinator w)) = Some g -> lease_open g = true -> lg_epoch g = epoch ->
  lg_generation_id g = id_generation generation -> lg_attempt_id g = id_attempt generation -> lease_fit run board g ->
  status (lease_key i "release" epoch "") (rows w) = Some c ->
  effect_fingerprint c = fingerprint (effect_identity "release" q) -> scalar (lg_challenge_id q) -> until_ok q ->
  admit_generation (id_generation generation) (lw_fence w) = (f, Done (Some (n, event))) -> n <> lg_authority_sequence q ->
  let presented := effect_identity "release" (with_admission n event (releasing i epoch g)) in
  let stored := effect_identity "release" q in
  presented <> stored
  /\ (fingerprint presented = fingerprint stored
      \/ release_lease faults redact boot proof admit_generation i epoch generation out w
         = ({| lw_authority := lw_authority w; lw_fence := f; lw_coordinator := lw_coordinator w |},
            Raised (ReservationConflict "idempotency key is already bound to a different semantic effect"))).
Proof.
  intros Hg Ho He Hgen Hatt (Hsc & Hu & _) Hs Hf Hqs Hqu Hadm Hn. set (p := with_admission n event (releasing i epoch g)). cbv zeta. split.
  { intros E. apply effect_identity_inj in E as [_ E]; [|done..]. apply (f_equal lg_authority_sequence) in E. by cbn in E. }
  destruct (decide (fingerprint (effect_identity "release" p) = fingerprint (effect_identity "release" q))) as [Ef|Ef]; [by left|].
  right. unfold release_lease. unfold mbind at 1, Prog_bind at 1.
  destruct (current_lease_cases w i epoch generation) as [(g' & -> & Hg' & _)|(x & Hx)]; cycle 1.
  { exfalso. unfold current_lease, mbind, Prog_bind, ask in Hx. rewrite Hg, He, Hgen, Hatt, Z.eqb_refl, Ho in Hx.
    by rewrite !bool_decide_true in Hx by done. }
  rewrite Hg in Hg'. injection Hg' as <-. unfold admit_effect, mbind, Prog_bind, on_fence. rewrite Hadm. cbv iota beta.
  unfold run_lease_effect, rescue, mbind, Prog_bind, on_authority. fold p. cbn [lw_authority lw_fence lw_coordinator].
  assert (Hexec : execute faults redact boot proof (lg_operation_key p) (effect_identity "release" p) LEASE_EFFECT_CAPACITY RECORD
      (lease_effect p "release" out) (out_polls out) (out_late_polls out) (lw_authority w)
    = (lw_authority w, Raised (ReservationConflict "idempotency key is already bound to a different semantic effect"))).
  { unfold execute. unfold mbind at 1, M_bind at 1. unfold reserve. cbn [rq_key rq_need rq_identity plain_request].
    change (bool_decide (lg_operation_key p = "")) with false. change (operations LEASE_EFFECT_CAPACITY <? 3) with false. cbn [orb].
    unfold current_locked, mbind, M_bind, get, mret, M_ret, latest_locked. cbn -[assert_same_effect execute p].
    change (dict_get (lg_operation_key p) (latest_of (rows_locked (disk (lw_authority w))))) with (status (lease_key i "release" epoch "") (rows w)).
    rewrite Hs. unfold assert_same_effect. rewrite bool_decide_false by congruence. done. }
  rewrite Hexec. done.
Qed.
End safety.

(** ** Over the generation fence *)

Section fenced.
Context {DG : Digester} {W : Type} `{EventLogOk W} (run_name : string) (timestamp : W -> string) (redact : string -> string)
  (run board owner : string).

(** [_admit_lease_effect] of [src/solver/__main__.py], up to the effect it runs under the grant. *)
Definition admit_lease_effect (generation_id : string) : Prog W (option (Z * string)) :=
  r ← authorize_ run_name timestamp generation_id AUTHORITY_ "";
  mret ((fun g => (grant_sequence g, grant_event_id g)) <$> r.2).

(** The log takes the events the fence writes. *)
Hypothesis events_taken : forall ev content, writable ev content -> log_accepts (generation_event ev) content.

Definition generation_of (o : LeaseOp) : option GenerationIdentity :=
  match o with
  | Acquire _ generation _ | Renew _ _ generation _ _ | Release _ _ generation _ | Expire _ _ generation _ _ _ => Some generation
  | ReconcileRelease _ _ _ _ | ReconcileGrant _ _ _ => None
  end.

Lemma closed_not_admitted (w : LeaseWorld (F := W)) es st generation s :
  log_sound (lw_fence w) es -> legal es st -> dict_get (id_generation generation) (states_by_id st) = Some s -> active s = false ->
  ~ admitted admit_lease_effect w generation.
Proof using events_taken.
  intros Hw Hl Hs Ha (x & Hx). pose proof (runs_authorize run_name timestamp events_taken es st (id_generation generation) AUTHORITY_ "" Hl _ Hw) as Hr.
  unfold admit_lease_effect, mbind, Prog_bind in Hx. destruct (authorize_ _ _ _ _ _ (lw_fence w)) as [f [[d g]|e|]]; [|done..].
  destruct Hr as (es' & _ & _ & s' & Hs' & Hcase). rewrite Hs in Hs'. injection Hs' as <-. rewrite Ha in Hcase.
  destruct Hcase as ([= _ ->] & _). done.
Qed.

(** C25. A closed Work generation cannot touch the Board: whatever its Attempt asks of the
    coordinator, no effect runs. *)
Theorem closed_generation_no_effect faults boot proof o (w : LeaseWorld (F := W)) es st generation s :
  generation_of o = Some generation ->
  log_sound (lw_fence w) es -> legal es st -> dict_get (id_generation generation) (states_by_id st) = Some s -> active s = false ->
  board_effects (do_lease_op redact admit_lease_effect run board owner faults boot proof o w).1 = board_effects w.
Proof using events_taken.
  intros Ho Hw Hl Hs Ha.
  destruct (decide (board_effects (do_lease_op redact admit_lease_effect run board owner faults boot proof o w).1 = board_effects w)) as [|Hne]; [done|].
  apply effect_authorised in Hne. destruct (closed_not_admitted w es st generation s Hw Hl Hs Ha).
  destruct o; cbn in Ho; try done; injection Ho as ->; cbn [authorised] in Hne; tauto.
Qed.
End fenced.

(** ** A record that was cut *)

Lemma replay_all_snoc run board d l r :
  replay_all run board d (l ++ [r]) = d ← replay_all run board d l; replay_step run board d r.
Proof.
  revert d. induction l as [|x l IH]; intros d; cbn; [by destruct (replay_step run board d r)|].
  destruct (replay_step run board d x) as [d'|e]; [apply IH|done].
Qed.

(** A reservation whose stored subject no longer parses is passed over, whatever it committed. *)
Theorem cut_record_ignored run board l r :
  loads (subject (identity r)) = None -> replay_leases (l ++ [r]) run board = replay_leases l run board.
Proof.
  intros Hr. unfold replay_leases. rewrite replay_all_snoc. destruct (replay_all run board [] l) as [d|e]; [|done].
  cbn [mbind result_bind]. unfold replay_step. destruct (negb _); [done|]. unfold replayed_grant. by rewrite Hr.
Qed.
