(* ===== verification/LeaseWitness.v ===== *)
(** Runs of the Lease coordinator on concrete inputs. *)

From S2P Require Import Prelude StoreWitness FenceWitness Canon Text PyJson JsonText Moment MomentFormat EventStore EventContracts EventLog Reservation ReservationLogic ReservationFacts WorkGeneration Lease LeaseLedger LeaseEffects LeaseInvariant LeaseFacts LeaseTheorems LeaseSafety.
Local Open Scope Z_scope.

#[local] Existing Instance marking_digester.

Definition lease_profile : WriteProfile := Pools (capacity 0 0 0) (capacity 8192 4 16) (capacity 0 0 0) (capacity 0 0 0).

Definition first_attempt : GenerationIdentity := {| id_generation := "g"; id_work := "integer:4"; id_attempt := "a" |}.

(** A fence that admits everything, numbering its grants. *)
Definition counting_fence (generation : string) : Prog Z (option (Z * string)) := fun n => (n + 1, Done (Some (n, "e"))).

Definition deployed : Outside := {|
  out_reply := Ok {| rp_outcome := Lease.ANSWERED; rp_connection_info := "t:1"; rp_until := None; rp_detail := "" |};
  out_row := Ok {| rc_verdict := VERDICT_NONE; rc_row_id := "7" |}; out_polls := []; out_late_polls := [] |}.

Definition plain (s : string) : string := s.

Definition no_coordinator : Coordinator := {| co_leases := []; co_active := []; co_next_seq := 0 |}.

Definition run0 := fresh_run lease_profile 40 1 no_coordinator.
Definition run1 := (open_coordinator (F := Z) "r" "b" "o" run0).1.
Definition lease_op (o : LeaseOp) := do_lease_op plain counting_fence "r" "b" "o" no_faults "boot" [] o.
Definition run2 := (lease_op (Acquire (JInt 4) first_attempt deployed) run1).1.
Definition run3 := (lease_op (Release {| li_run_id := "r"; li_lease_seq := 1 |} 1 first_attempt deployed) run2).1.

(** A record of the effect [o] on [p], committed with [g] if it is committed. *)
Definition whole_as (o : string) (p g : LeaseGrant) (r : WriteReservation) : bool :=
  bool_decide (identity r = effect_identity o p) && bool_decide (effect_fingerprint r = fingerprint (effect_identity o p))
  && (negb (bool_decide (state r = COMMITTED)) || bool_decide (observation r = Some (JObj (grant_document g)))).

Section whole.
Context {AH : AtHand}.

Lemma whole_as_whole o p g r :
  ~ collision -> effect_identity o p ∈ at_hand ->
  o ∈ lease_operations -> scalar (lg_challenge_id p) -> until_ok p -> until_ok g -> same_lease p g -> whole_as o p g r = true -> whole r.
Proof.
  intros Hno Hin Ho Hsc Hu Hug Hsame Hr. unfold whole_as in Hr. bool_to_prop. intros o' p' Ho' Hin' Hsc' Hu' Hf.
  assert (E : effect_identity o p = effect_identity o' p').
  { destruct (decide (effect_identity o p = effect_identity o' p')) as [|Hne]; [done|]. destruct Hno.
    exists (effect_identity o p), (effect_identity o' p'). split_and!; [done|done|done|congruence]. }
  split; [congruence|]. intros Hst. exists g. destruct (effect_identity_inj _ _ _ _ Hsc Hsc' Hu Hu' E) as [_ Hint].
  split; [destruct_or!; bool_to_prop; done|]. split; [|done]. eapply same_lease_trans; [|exact Hsame]. apply intent_same. congruence.
Qed.

Lemma intact_app rs1 rs2 : intact rs1 -> intact rs2 -> intact (rs1 ++ rs2).
Proof. intros. by apply Forall_app. Qed.

Lemma intact_as o p g rs :
  ~ collision -> effect_identity o p ∈ at_hand -> o ∈ lease_operations -> scalar (lg_challenge_id p) -> until_ok p -> until_ok g -> same_lease p g ->
  forallb (fun row => whole_as o p g (written row)) rs = true -> intact rs.
Proof.
  intros Hno Hin Ho Hsc Hu Hug Hsame Hrs. rewrite forallb_forall in Hrs. apply Forall_forall. intros row Hrow%list_elem_of_In.
  eapply whole_as_whole; [done..|]. by apply Hrs.
Qed.

End whole.

Lemma settled_rows rs : forallb (fun kc => negb (bool_decide (state kc.2 = RESERVED))) (latest_of rs) = true -> settled rs.
Proof.
  intros Hrs k c Hs _. apply dict_get_Some_elem, list_elem_of_In in Hs. rewrite forallb_forall in Hrs. specialize (Hrs _ Hs). by bool_to_prop.
Qed.

Definition first_lease : LeaseIdentity := {| li_run_id := "r"; li_lease_seq := 1 |}.

Definition lease_grant (phase : LeasePhase) (k : string) (n : Z) (row target : string) (cause : LeaseCloseCause) : LeaseGrant := {|
  lg_identity := first_lease; lg_challenge_id := JInt 4; lg_board_id := "b"; lg_owner_id := "o"; lg_epoch := 1; lg_generation_id := "g";
  lg_attempt_id := "a"; lg_phase := phase; lg_operation_key := k; lg_authority_sequence := n; lg_authority_event_id := "e";
  lg_renewal_sequence := 0; lg_row_id := row; lg_target := target; lg_until := None; lg_verdict := VERDICT_NONE; lg_close_cause := cause |}.

Definition create_key : string := "lease:r:1:1:create".
Definition release_key : string := "lease:r:1:1:release".

(** The two effects of this history, which the checksum tells apart. *)
Definition created : LeaseGrant := lease_grant LEASE_RESERVED create_key 1 "" "" CAUSE_NONE.
Definition released : LeaseGrant := lease_grant LEASE_RESERVED release_key 2 "7" "t:1" CAUSE_NONE.

#[local] Instance two_effects : AtHand := [effect_identity "create" created; effect_identity "release" released].

Lemma two_prints : fingerprint (effect_identity "create" created) <> fingerprint (effect_identity "release" released).
Proof. vm_compute. discriminate. Qed.

(** SHA-256 does so too. *)
Example two_prints_sha256 :
  fingerprint (H := sha256_digester) (effect_identity "create" created)
  <> fingerprint (H := sha256_digester) (effect_identity "release" released).
Proof. vm_compute. discriminate. Qed.

Lemma prints_told_apart : ~ collision.
Proof.
  intros (i & j & Hi & Hj & Hne & E). unfold at_hand, two_effects in Hi, Hj. pose proof two_prints as H2.
  apply elem_of_cons in Hi as [-> | ->%list_elem_of_singleton], Hj as [-> | ->%list_elem_of_singleton]; congruence.
Qed.

Lemma fair_deployed : fair_outside no_faults plain "boot" [] deployed.
Proof. split; [done|]. split; [done|]. constructor. Qed.

Lemma intact_run2 : intact (rows run2).
Proof.
  apply (intact_as "create" created (lease_grant ATTEMPT_BOUND create_key 1 "7" "t:1" CAUSE_NONE));
    [apply prints_told_apart|left|set_solver|done|done|done|by repeat split|]. vm_compute. reflexivity.
Qed.

Lemma intact_run3 : intact (rows run3).
Proof.
  rewrite <-(take_drop 3 (rows run3)). apply intact_app.
  - apply (intact_as "create" created (lease_grant ATTEMPT_BOUND create_key 1 "7" "t:1" CAUSE_NONE));
      [apply prints_told_apart|left|set_solver|done|done|done|by repeat split|]. vm_compute. reflexivity.
  - apply (intact_as "release" released (lease_grant LEASE_CLOSED release_key 2 "7" "t:1" TERMINATED));
      [apply prints_told_apart|right; left|set_solver|done|done|done|by repeat split|]. vm_compute. reflexivity.
Qed.

Abbreviation lease_steps := (rtc (lease_step plain counting_fence "r" "b" "o")).

Lemma step_run1 : lease_step plain counting_fence "r" "b" "o" (false, run0) (true, run1).
Proof. apply step_open. vm_compute. reflexivity. Qed.

Lemma presents_create : presented counting_fence "r" "b" "o" (Acquire (JInt 4) first_attempt deployed) run1 ⊆ at_hand.
Proof.
  assert (E : presented counting_fence "r" "b" "o" (Acquire (JInt 4) first_attempt deployed) run1 = [effect_identity "create" created])
    by (vm_compute; reflexivity). rewrite E. intros x ->%list_elem_of_singleton. left.
Qed.

Lemma presents_release : presented counting_fence "r" "b" "o" (Release first_lease 1 first_attempt deployed) run2 ⊆ at_hand.
Proof.
  assert (E : presented counting_fence "r" "b" "o" (Release first_lease 1 first_attempt deployed) run2 = [effect_identity "release" released])
    by (vm_compute; reflexivity). rewrite E. intros x ->%list_elem_of_singleton. right. left.
Qed.

Lemma step_run2 : lease_step plain counting_fence "r" "b" "o" (true, run1) (true, run2).
Proof.
  pose proof (step_op plain counting_fence "r" "b" "o" no_faults "boot" [] (Acquire (JInt 4) first_attempt deployed) run1) as Hs.
  assert (match (do_lease_op plain counting_fence "r" "b" "o" no_faults "boot" [] (Acquire (JInt 4) first_attempt deployed) run1).2 with
    Crashed => false | _ => true end = true) as E by (vm_compute; reflexivity).
  rewrite E in Hs. apply Hs; [apply settled_rows; vm_compute; reflexivity|split; [done|apply fair_deployed]|exact presents_create|apply intact_run2].
Qed.

Lemma step_run3 : lease_step plain counting_fence "r" "b" "o" (true, run2) (true, run3).
Proof.
  pose proof (step_op plain counting_fence "r" "b" "o" no_faults "boot" [] (Release first_lease 1 first_attempt deployed) run2) as Hs.
  assert (match (do_lease_op plain counting_fence "r" "b" "o" no_faults "boot" [] (Release first_lease 1 first_attempt deployed) run2).2 with
    Crashed => false | _ => true end = true) as E by (vm_compute; reflexivity).
  rewrite E in Hs. apply Hs; [apply settled_rows; vm_compute; reflexivity|apply fair_deployed|exact presents_release|apply intact_run3].
Qed.

Lemma held_to_run2 : lease_steps (false, run0) (true, run2).
Proof. eapply rtc_l; [apply step_run1|]. apply rtc_once, step_run2. Qed.

(** An Attempt deploys an Instance: its Lease is the only open one. *)
Lemma leases_exclusive_witness :
  dict_get (JInt 4) (co_active (lw_coordinator run2)) <> None
  /\ forall i j g h, dict_get i (co_leases (lw_coordinator run2)) = Some g -> dict_get j (co_leases (lw_coordinator run2)) = Some h ->
       lease_open g = true -> lease_open h = true -> lg_challenge_id g = lg_challenge_id h -> i = j.
Proof.
  split; [vm_compute; discriminate|].
  destruct (leases_exclusive plain counting_fence "r" "b" "o" eq_refl lease_profile 40 1 no_coordinator run2 held_to_run2) as [Hc|[Hx _]];
    [destruct (prints_told_apart Hc)|exact Hx].
Defined.

(** It is released, and stays closed through the restart that follows. *)
Definition run4 := (open_coordinator (F := Z) "r" "b" "o" {|
  lw_authority := (open_authority no_faults "boot 2" [] {| disk := disk (lw_authority run3); writes_left := 9; effects := effects (lw_authority run3) |}).1;
  lw_fence := lw_fence run3; lw_coordinator := lw_coordinator run3 |}).1.

Lemma closed_lease_final_witness :
  exists h, dict_get first_lease (co_leases (lw_coordinator run4)) = Some h /\ lease_open h = false.
Proof.
  destruct (closed_lease_final plain counting_fence "r" "b" "o" eq_refl lease_profile 40 1 no_coordinator run3 run4 first_lease
    (lease_grant LEASE_CLOSED release_key 2 "7" "t:1" TERMINATED)) as [Hc|Hx]; [| | | |destruct (prints_told_apart Hc)|exact Hx].
  - eapply rtc_r; [apply held_to_run2|apply step_run3].
  - eapply rtc_l; [apply (step_boot _ _ _ _ _ no_faults "boot 2" [] 9 true run3)|]. apply rtc_once, step_open. vm_compute. reflexivity.
  - vm_compute. reflexivity.
  - reflexivity.
Defined.

Lemma board_effect_authorised_witness : authorised counting_fence "r" "b" "o" run1 (Acquire (JInt 4) first_attempt deployed).
Proof.
  apply (board_effect_authorised plain counting_fence "r" "b" "o" no_faults "boot" []). vm_compute. discriminate.
Defined.

(** The Board does not answer a release; retrying it raises, and the Board is not asked again. *)
Definition unreachable : Outside := {|
  out_reply := Ok {| rp_outcome := "unreachable"; rp_connection_info := ""; rp_until := None; rp_detail := "" |};
  out_row := Ok {| rc_verdict := UNCORROBORATED_ROW; rc_row_id := "" |}; out_polls := []; out_late_polls := [] |}.

Definition unsettled_run := (lease_op (Release first_lease 1 first_attempt unreachable) run2).1.

Definition unsettled_release : LeaseGrant :=
  with_outcome RECOVERABLE RELEASE_UNSETTLED CAUSE_NONE (lease_grant RECOVERABLE release_key 2 "7" "t:1" CAUSE_NONE).

Lemma second_release_conflicts_witness :
  release_lease no_faults plain "boot" [] counting_fence first_lease 1 first_attempt deployed unsettled_run
  = ({| lw_authority := lw_authority unsettled_run; lw_fence := lw_fence unsettled_run + 1; lw_coordinator := lw_coordinator unsettled_run |},
     Raised (ReservationConflict "idempotency key is already bound to a different semantic effect")).
Proof.
  assert (E : effect_fingerprint <$> status release_key (rows unsettled_run) = Some (fingerprint (effect_identity "release" unsettled_release)))
    by (vm_compute; reflexivity).
  apply fmap_Some in E as (c & Hs & Hf). apply eq_sym in Hf.
  destruct (second_release_conflicts plain counting_fence "r" "b" no_faults "boot" [] unsettled_run first_lease 1 first_attempt deployed
    unsettled_release c unsettled_release (lw_fence unsettled_run + 1) (lw_fence unsettled_run) "e") as [_ [Hc|Hx]];
    [vm_compute; reflexivity|reflexivity..|repeat split|exact Hs|exact Hf|exact I|exact I|reflexivity|vm_compute; discriminate| |exact Hx].
  vm_compute in Hc. discriminate Hc.
Defined.

(** An ordinary Lease, created and then released. *)
Definition ordinary_grant (phase : LeasePhase) (k : string) (n : Z) (row target : string) (until : option moment) (cause : LeaseCloseCause) :
    LeaseGrant := {|
  lg_identity := {| li_run_id := "run-2026-09-13"; li_lease_seq := 3 |}; lg_challenge_id := JInt 42; lg_board_id := "https://ctf.example.org";
  lg_owner_id := "team:17"; lg_epoch := 1; lg_generation_id := "generation-000003"; lg_attempt_id := "lane-attempt-000003"; lg_phase := phase;
  lg_operation_key := k; lg_authority_sequence := n; lg_authority_event_id := "generation-000003:authority-000001"; lg_renewal_sequence := 0;
  lg_row_id := row; lg_target := target; lg_until := until; lg_verdict := VERDICT_NONE; lg_close_cause := cause |}.

Definition deadline : moment := Moment 1789300800000000 (Some 0).
Definition ordinary_create := ordinary_grant LEASE_RESERVED "lease:run-2026-09-13:3:1:create" 12 "" "" None CAUSE_NONE.
Definition ordinary_created := ordinary_grant ATTEMPT_BOUND "lease:run-2026-09-13:3:1:create" 12 "1042" "http://challs.ctf.example.org:31337" (Some deadline) CAUSE_NONE.
Definition ordinary_released := ordinary_grant LEASE_CLOSED "lease:run-2026-09-13:3:1:release" 19 "1042" "http://challs.ctf.example.org:31337" (Some deadline) TERMINATED.

Definition recorded (o : string) (p g : LeaseGrant) : WriteReservation := {|
  key := lg_operation_key p; identity := sanitized_identity plain (effect_identity o p); effect_fingerprint := "f"; need := LEASE_EFFECT_CAPACITY;
  pool := SHARED; state := COMMITTED; object_slots := []; observation := Some (bounded plain (JObj (grant_document g))); boot_id := "boot";
  retention := RECORD; grant_remaining_bytes := 0; grant_headroom := None |}.

(** Its release takes 522 characters, of which the reservation keeps the ends; the replay of both reservations
    finds the Lease open. *)
Lemma cut_record_ignored_witness :
  Z.of_nat (String.length (dumps (JObj (intent_document ordinary_released)))) = 522
  /\ lease_open ordinary_released = false /\ lease_open ordinary_created = true
  /\ replay_leases ([recorded "create" ordinary_create ordinary_created] ++ [recorded "release" ordinary_released ordinary_released])
       "run-2026-09-13" "https://ctf.example.org" = Ok [ordinary_created].
Proof.
  split; [vm_compute; reflexivity|]. split; [reflexivity|]. split; [reflexivity|].
  rewrite (cut_record_ignored "run-2026-09-13" "https://ctf.example.org"); [vm_compute; reflexivity|vm_compute; reflexivity].
Defined.

(** The generation that holds a Lease is closed; its Attempt releases the Lease in vain. *)
Definition fenced_attempt : GenerationIdentity := {| id_generation := "generation-000001"; id_work := "integer:4"; id_attempt := "attempt-1" |}.

Definition fenced_run : LeaseWorld := {|
  lw_authority := lw_authority run2; lw_fence := closed_world; lw_coordinator := lw_coordinator run2 |}.

#[local] Existing Instance fence_contracts.
#[local] Existing Instance fence_log.
#[local] Existing Instance fence_log_ok.

Lemma closed_generation_no_effect_witness :
  board_effects (do_lease_op plain (admit_lease_effect "run-1" noon) "r" "b" "o" no_faults "boot" []
    (Acquire (JInt 5) fenced_attempt deployed) fenced_run).1 = board_effects fenced_run.
Proof.
  destruct closed_legal as (es & st & s & Hw & Hl & Hs & Hd).
  apply (closed_generation_no_effect "run-1" noon plain "r" "b" "o" demo_taken no_faults "boot" [] _ fenced_run es st fenced_attempt s);
    [reflexivity|exact Hw|exact Hl|exact Hs|unfold active; rewrite Hd; reflexivity].
Defined.

(** A document nested and escaped. *)
Lemma loads_dumps_witness :
  loads (dumps (JObj [("b", JList [JInt (-7); JStr (String quote "x"); JNull]); ("a", JObj [])]))
  = Some (JObj [("a", JObj []); ("b", JList [JInt (-7); JStr (String quote "x"); JNull])]).
Proof.
  rewrite loads_dumps; [reflexivity|]. repeat split; by apply (bool_decide_unpack _).
Defined.

Lemma grant_roundtrip_witness : grant_from_document (grant_document ordinary_released) = Ok ordinary_released.
Proof. apply grant_roundtrip. vm_compute. repeat split; discriminate. Defined.
