(* ===== verification/InstanceLedger.v ===== *)
(** The Board's Instance ledger: pages, whose rows are ours, and the receipt of a reading.

    [src/solver/instance_ledger.py].  What the broker answers to the request of a page is an argument.
    A receipt is read from its text; a path is the name of the Run directory it lies in, the folder and
    the file name. *)

From Stdlib Require Import Ascii.
From S2P Require Import Prelude Canon Text PyJson JsonText EventContracts FinalContracts FinalReceipt.
Local Open Scope Z_scope.

Module Ledger.

Definition ABSENT : string := "absent".
Definition UNSETTLED : string := "unsettled".
Definition NOT_OURS : string := "not-ours".
Definition EMPTY : string := "empty".
Definition POPULATED : string := "populated".
Definition OUTCOMES : list string := [ABSENT; UNSETTLED; NOT_OURS; EMPTY; POPULATED].
Definition RECEIPT_TYPE : string := "instance-ledger-identity".
Definition RECEIPT_FILENAME : string := RECEIPT_TYPE +:+ ".receipt.json".
Definition RECEIPT_REF : string := "receipt:" +:+ RECEIPT_TYPE.
Definition MANIFEST_ROW_ID : string := "core.board-target-lease".
Definition SCHEMA_VERSION : Z := 1.

Record LedgerRow : Type := {
  lr_row_id : string;
  lr_challenge_id : json;
  lr_user_id : option Z;
  lr_team_id : option Z;
  lr_source_page : Z;
  lr_response_digest : string
}.

(** An [int | None]. *)
Definition opt_int (o : option Z) : json := match o with Some n => JInt n | None => JNull end.

Definition row_document (r : LedgerRow) : json := JObj [
  ("row_id", JStr (lr_row_id r));
  ("challenge_id", lr_challenge_id r);
  ("user_id", opt_int (lr_user_id r));
  ("team_id", opt_int (lr_team_id r));
  ("source_page", JInt (lr_source_page r));
  ("response_digest", JStr (lr_response_digest r))].

Record LedgerPage : Type := {
  pg_status : Z;
  pg_body : string;
  pg_rows : list LedgerRow;
  pg_page : Z;
  pg_total_pages : Z;
  pg_total_rows : Z;
  pg_complete : bool;
  pg_response_digest : string
}.

Record LedgerResult : Type := {
  ld_outcome : string;
  ld_mode : string;
  ld_user_id : Z;
  ld_team_id : option Z;
  ld_identity_digest : string;
  ld_owned : list LedgerRow;
  ld_foreign : list LedgerRow;
  ld_pages : list LedgerPage;
  ld_reason : string
}.

Record AuthenticatedIdentity : Type := { ai_mode : string; ai_user_id : Z; ai_team_id : option Z }.

(** [BoardBrokerResult], as far as the reader of the ledger looks at it. *)
Record PageAnswer : Type := {
  pa_ledger_page : bool;
  pa_answered : bool;
  pa_http_status : Z;
  pa_response_digest : string;
  pa_truncated : bool;
  pa_value : option LedgerPage
}.

Section ledger.
Context `{Digester}.

(** [LedgerPage.digest]. *)
Definition page_digest (p : LedgerPage) : string :=
  if bool_decide (pg_response_digest p = "") then digest_bytes (pg_body p) else pg_response_digest p.

(** The guard of an identity the Board profile settled. *)
Definition unsettled_identity (mode : string) (user : Z) (team : option Z) : bool :=
  negb (one_of mode ["teams"; "users"]) || (user <=? 0)
  || (bool_decide (mode = "teams") && match team with Some t => t =? 0 | None => true end).

(** [_result]. *)
Definition ledger_result (outcome mode : string) (user : Z) (team : option Z) (pages : list LedgerPage)
    (owned foreign : list LedgerRow) (reason : string) : LedgerResult := {|
  ld_outcome := outcome; ld_mode := mode; ld_user_id := user; ld_team_id := team;
  ld_identity_digest := digest (JObj [("mode", JStr mode); ("user_id", JInt user); ("team_id", opt_int team)]);
  ld_owned := owned; ld_foreign := foreign; ld_pages := pages; ld_reason := reason |}.

(** [range(a, b)]. *)
Definition z_range (a b : Z) : list Z := (fun k => a + Z.of_nat k) <$> seq 0 (Z.to_nat (b - a)).

(** A row with its provenance. *)
Definition sourced (p : LedgerPage) (r : LedgerRow) : LedgerRow := {|
  lr_row_id := lr_row_id r; lr_challenge_id := lr_challenge_id r; lr_user_id := lr_user_id r; lr_team_id := lr_team_id r;
  lr_source_page := pg_page p; lr_response_digest := page_digest p |}.

Definition ledger_rows (pages : list LedgerPage) : list LedgerRow := p ← pages; sourced p <$> pg_rows p.

Definition owner (mode : string) (user : Z) (team : option Z) (r : LedgerRow) : bool :=
  if bool_decide (mode = "teams") then bool_decide (lr_team_id r = team) else bool_decide (lr_user_id r = Some user).

Definition unreadable : string := "ledger page is unreadable or truncated".
Definition repeated : string := "ledger pagination is incomplete or repeated".
Definition uncorroborated : string := "ledger empty or row count is uncorroborated".

Definition bad_pagination (first : LedgerPage) (pages : list LedgerPage) : bool :=
  let expected := z_range 1 (pg_total_pages first + 1) in
  bool_decide (expected = []) || negb (bool_decide (pg_page <$> pages = expected))
  || py_any (fun p => negb (pg_total_pages p =? pg_total_pages first)) pages
  || negb (bool_decide (NoDup (page_digest <$> pages))).

Definition identify_ledger (mode : string) (user : Z) (team : option Z) (pages : list LedgerPage) : LedgerResult :=
  if unsettled_identity mode user team
  then ledger_result UNSETTLED mode user team pages [] [] "authenticated identity is unsettled"
  else
    match pages with
    | [] => ledger_result UNSETTLED mode user team pages [] [] "ledger returned no page"
    | first :: _ =>
        if pg_status first =? 404 then ledger_result ABSENT mode user team pages [] [] ""
        else if py_any (fun p => negb (pg_status p =? 200) || negb (pg_complete p)) pages
        then ledger_result UNSETTLED mode user team pages [] [] unreadable
        else if bad_pagination first pages
        then ledger_result UNSETTLED mode user team pages [] [] repeated
        else
          let rows := ledger_rows pages in
          if py_any (fun p => negb (pg_total_rows p =? pg_total_rows first)) pages || negb (py_len rows =? pg_total_rows first)
          then ledger_result UNSETTLED mode user team pages [] [] uncorroborated
          else
            let owned := List.filter (owner mode user team) rows in
            let foreign := List.filter (fun r => negb (owner mode user team r)) rows in
            ledger_result (if negb (bool_decide (owned = [])) then POPULATED
                           else if negb (bool_decide (foreign = [])) then NOT_OURS else EMPTY)
              mode user team pages owned foreign ""
    end.

(** [_broker_page]. *)
Definition broker_page (broker : Z -> PageAnswer) (page : Z) : LedgerPage :=
  let answer := broker page in
  let incomplete status := {| pg_status := status; pg_body := ""; pg_rows := []; pg_page := page; pg_total_pages := 1;
    pg_total_rows := 0; pg_complete := false; pg_response_digest := pa_response_digest answer |} in
  if negb (pa_ledger_page answer) || negb (pa_answered answer) then incomplete (pa_http_status answer)
  else
    match pa_value answer with
    | None => incomplete 200
    | Some p =>
        if pa_truncated answer || negb (bool_decide (page_digest p = pa_response_digest answer)) then
          {| pg_status := pg_status p; pg_body := pg_body p; pg_rows := pg_rows p; pg_page := pg_page p;
             pg_total_pages := pg_total_pages p; pg_total_rows := pg_total_rows p; pg_complete := false;
             pg_response_digest := pg_response_digest p |}
        else p
    end.

Definition read_profiled_instance_ledger (i : AuthenticatedIdentity) (broker : Z -> PageAnswer) : LedgerResult :=
  if unsettled_identity (ai_mode i) (ai_user_id i) (ai_team_id i)
  then identify_ledger (ai_mode i) (ai_user_id i) (ai_team_id i) []
  else
    let first := broker_page broker 1 in
    let rest := if (pg_status first =? 200) && pg_complete first && (1 <? pg_total_pages first)
      then broker_page broker <$> z_range 2 (pg_total_pages first + 1) else [] in
    identify_ledger (ai_mode i) (ai_user_id i) (ai_team_id i) (first :: rest).

(** ** The receipt *)

Definition page_json (p : LedgerPage) : json := JObj [
  ("page", JInt (pg_page p)); ("total_pages", JInt (pg_total_pages p)); ("total_rows", JInt (pg_total_rows p));
  ("status", JInt (pg_status p)); ("complete", JBool (pg_complete p)); ("response_digest", JStr (page_digest p))].

(** [_identity_document]. *)
Definition identity_document (r : LedgerResult) : fields := [("user_id", JInt (ld_user_id r)); ("team_id", opt_int (ld_team_id r))].

Definition manifest_link : json := JObj [("row_id", JStr MANIFEST_ROW_ID); ("receipt_ref", JStr RECEIPT_REF)].

Definition receipt_document (run : string) (r : LedgerResult) : result fields :=
  raise_if (bool_decide (run = "") || negb (one_of (ld_outcome r) OUTCOMES)) (ValueError "Instance-ledger receipt input is invalid");;
  Ok [
    ("schema_version", JInt SCHEMA_VERSION);
    ("receipt_type", JStr RECEIPT_TYPE);
    ("run_id", JStr run);
    ("mode", JStr (ld_mode r));
    ("authenticated_identity", JObj (identity_document r));
    ("authenticated_identity_digest", JStr (ld_identity_digest r));
    ("outcome", JStr (ld_outcome r));
    ("reason", JStr (ld_reason r));
    ("pagination_trace", JList (page_json <$> ld_pages r));
    ("row_ownership_counts", JObj [("owned", JInt (py_len (ld_owned r))); ("foreign", JInt (py_len (ld_foreign r)))]);
    ("owned_rows", JList (row_document <$> ld_owned r));
    ("foreign_rows", JList (row_document <$> ld_foreign r));
    ("manifest_link", manifest_link)].

Definition newline : string := String (ascii_of_N 10) EmptyString.

(** What [write_receipt] writes. *)
Definition receipt_text (run : string) (r : LedgerResult) : result string :=
  d ← receipt_document run r; Ok (canonical_bytes (JObj d) +:+ newline).

(** ** Reading a receipt *)

(** The path [state/runs/<run>/<folder>/<file>]. *)
Record ReceiptPath : Type := { at_run : string; at_folder : string; at_file : string }.

Definition receipt_path (run : string) : ReceiptPath := {| at_run := run; at_folder := "canonical"; at_file := RECEIPT_FILENAME |}.

Definition receipt_fields : list string :=
  ["schema_version"; "receipt_type"; "run_id"; "mode"; "authenticated_identity"; "authenticated_identity_digest"; "outcome"; "reason";
   "pagination_trace"; "row_ownership_counts"; "owned_rows"; "foreign_rows"; "manifest_link"].

(** [len(x)], and what iterating over [x] gives. *)
Definition sized (j : json) : result Z :=
  match j with
  | JStr s => Ok (Z.of_nat (String.length s))
  | JList l => Ok (py_len l)
  | JObj fs => Ok (py_len fs)
  | _ => Err (TypeError "object has no len()")
  end.

Definition items_of (j : json) : list json :=
  match j with
  | JStr s => (fun c => JStr (String c EmptyString)) <$> chars s
  | JList l => l
  | JObj fs => (fun f => JStr f.1) <$> fs
  | _ => []
  end.

Definition invalid (what : string) : exn := ValueError ("Instance-ledger receipt " +:+ what).

Definition hex_text (s : string) : bool := py_all (fun c => bool_decide (c ∈ chars "0123456789abcdef")) (chars s).

(** The document, checked up to its Run. *)
Definition read_receipt (path : ReceiptPath) (raw : string) : result fields :=
  document ← match loads raw with Some d => Ok d | None => Err (invalid "cannot be read as JSON") end;
  raise_unless (bool_decide (raw = canonical_bytes document +:+ newline)) (invalid "is not canonical JSON");;
  document ← match document with JObj fs => Ok fs | _ => Err (invalid "is not canonical JSON") end;
  raise_unless (exact_keys receipt_fields document && py_eqb (get_or "schema_version" JNull document) (JInt SCHEMA_VERSION))
    (invalid "shape is unsupported");;
  raise_unless (py_eqb (get_or "receipt_type" JNull document) (JStr RECEIPT_TYPE)
      && py_any (fun o => py_eqb (get_or "outcome" JNull document) (JStr o)) OUTCOMES)
    (invalid "vocabulary is unsupported");;
  let run := py_str (get_or "run_id" JNull document) in
  raise_unless (negb (bool_decide (run = "")) && bool_decide (at_run path = run) && bool_decide (at_folder path = "canonical")
      && bool_decide (at_file path = RECEIPT_FILENAME))
    (invalid "path does not match its Run identity");;
  Ok document.

Definition verify_counts (document : fields) : result (Z * Z) :=
  let bad := invalid "ownership counts disagree" in
  counts ← match get_or "row_ownership_counts" JNull document with JObj fs => Ok fs | _ => Err bad end;
  owned ← sized (get_or "owned_rows" JNull document);
  foreign ← sized (get_or "foreign_rows" JNull document);
  raise_unless (fields_eqb counts [("owned", JInt owned); ("foreign", JInt foreign)]) bad;;
  Ok (owned, foreign).

(** A positive [int] that is no [bool]. *)
Definition positive_id (j : json) : bool := match j with JInt n => 0 <? n | _ => false end.

Definition verify_identity (document : fields) : result fields :=
  let bad := invalid "authenticated identity is invalid" in
  identity ← match get_or "authenticated_identity" JNull document with JObj fs => Ok fs | _ => Err bad end;
  raise_unless (exact_keys ["user_id"; "team_id"] identity) bad;;
  let mode := get_or "mode" JNull document in
  raise_unless (hashable mode) (TypeError "unhashable type");;
  raise_unless ((py_eqb mode (JStr "teams") || py_eqb mode (JStr "users")) && positive_id (get_or "user_id" JNull identity)) bad;;
  raise_if (py_eqb mode (JStr "teams") && negb (positive_id (get_or "team_id" JNull identity))) bad;;
  let supplied := py_str (get_or "authenticated_identity_digest" JNull document) in
  raise_unless (Z.of_nat (String.length supplied) =? 64) (invalid "identity digest is invalid");;
  raise_unless (hex_text supplied) (invalid "identity digest is invalid");;
  raise_unless (bool_decide (supplied = digest (JObj (("mode", mode) :: identity)))) (invalid "identity digest disagrees");;
  Ok identity.

(** The pages of a trace, which are mappings. *)
Definition verify_trace (document : fields) : result (list fields) :=
  match get_or "pagination_trace" JNull document with
  | JList l => match mapM as_obj l with Some pages => Ok pages | None => Err (invalid "pagination trace is invalid") end
  | _ => Err (invalid "pagination trace is invalid")
  end.

Definition column (name : string) (trace : list fields) : list json := get_or name JNull <$> trace.

Definition settled_trace (trace : list fields) : bool :=
  negb (bool_decide (trace = [])) && py_all (fun s => py_eqb s (JInt 200)) (column "status" trace)
  && py_all (fun item => bool_decide (get_or "complete" JNull item = JBool true)) trace.

(** [len(set(l))]. *)
Definition set_size (l : list json) : result Z :=
  raise_unless (py_all hashable l) (TypeError "unhashable type");;
  Ok (py_len (remove_dups (py_norm <$> l))).

(** The numbers of the pages, 1 to the total the first one says. *)
Definition page_numbers (trace : list fields) : result (list json) :=
  match as_int (get_or "total_pages" JNull (default [] (head trace))) with
  | Some n => Ok (JInt <$> z_range 1 (n + 1))
  | None => Err (TypeError "unsupported operand type(s) for +")
  end.

Definition verify_pagination (trace : list fields) (owned foreign : Z) : result unit :=
  if negb (settled_trace trace) then Ok tt
  else
    let bad := invalid "pagination trace is unsettled" in
    totals ← set_size (column "total_pages" trace);
    raise_unless (totals =? 1) bad;;
    expected ← page_numbers trace;
    raise_unless (py_eqb (JList (column "page" trace)) (JList expected)) bad;;
    row_totals ← set_size (column "total_rows" trace);
    raise_unless (row_totals =? 1) bad;;
    digests ← set_size (column "response_digest" trace);
    raise_unless (digests =? py_len trace) bad;;
    raise_unless (py_all (fun d => match d with JStr s => Z.of_nat (String.length s) =? 64 | _ => false end) (column "response_digest" trace)) bad;;
    raise_unless (py_eqb (get_or "total_rows" JNull (default [] (head trace))) (JInt (owned + foreign))) (invalid "total rows disagree").

Definition expected_outcome (document : fields) (trace : list fields) (owned foreign : Z) : string :=
  if truthy (get_or "reason" JNull document) then UNSETTLED
  else if match column "status" trace with s :: _ => py_eqb s (JInt 404) | [] => false end then ABSENT
  else if negb (settled_trace trace) then UNSETTLED
  else if negb (owned =? 0) then POPULATED
  else if negb (foreign =? 0) then NOT_OURS
  else EMPTY.

(** [(row.get("source_page"), row.get("response_digest"))]. *)
Definition origin (page_name : string) (row : fields) : json * json :=
  (py_norm (get_or page_name JNull row), py_norm (get_or "response_digest" JNull row)).

Definition hashable_pair (p : json * json) : bool := hashable p.1 && hashable p.2.

(** Every row comes from a page of the trace. *)
Fixpoint verify_provenance (provenance : list (json * json)) (rows : list json) : result (list fields) :=
  match rows with
  | [] => Ok []
  | JObj row :: rest =>
      raise_unless (hashable_pair (origin "source_page" row)) (TypeError "unhashable type");;
      raise_unless (bool_decide (origin "source_page" row ∈ provenance)) (invalid "row provenance is invalid");;
      rest ← verify_provenance provenance rest;
      Ok (row :: rest)
  | _ :: _ => Err (invalid "row provenance is invalid")
  end.

Definition verify_receipt (path : ReceiptPath) (raw : string) : result fields :=
  document ← read_receipt path raw;
  '(owned, foreign) ← verify_counts document;
  identity ← verify_identity document;
  trace ← verify_trace document;
  verify_pagination trace owned foreign;;
  raise_unless (py_eqb (get_or "outcome" JNull document) (JStr (expected_outcome document trace owned foreign)))
    (invalid "outcome disagrees with its evidence");;
  raise_unless (py_all (fun item => hashable_pair (origin "page" item)) trace) (TypeError "unhashable type");;
  let provenance := origin "page" <$> trace in
  owned_rows ← verify_provenance provenance (items_of (get_or "owned_rows" JNull document));
  foreign_rows ← verify_provenance provenance (items_of (get_or "foreign_rows" JNull document));
  let owner_key := if py_eqb (get_or "mode" JNull document) (JStr "teams") then "team_id" else "user_id" in
  let ours row := py_eqb (get_or owner_key JNull row) (get_or owner_key JNull identity) in
  raise_if (py_any (fun row => negb (ours row)) owned_rows || py_any ours foreign_rows) (invalid "ownership classification is invalid");;
  raise_unless (py_eqb (get_or "manifest_link" JNull document) manifest_link) (invalid "manifest link is invalid");;
  Ok document.
End ledger.
End Ledger.
