(* ===== verification/LedgerFacts.v ===== *)
(** What a reading of the Instance ledger settles, and which of its receipts verify. *)

From Stdlib Require Import Ascii.
From S2P Require Import Prelude Canon Text PyJson JsonText EventStore EventContracts FenceStore FinalContracts FinalReceipt LeaseLedger InstanceLedger.
Local Open Scope Z_scope.
Import Ledger.

(** ** Sets of values *)

Lemma remove_dups_length {A} `{EqDecision A} (l : list A) : (length (remove_dups l) <= length l)%nat.
Proof. induction l as [|x l IH]; [done|]. cbn. case_decide; cbn; lia. Qed.

Lemma NoDup_set_size {A} `{EqDecision A} (l : list A) : length (remove_dups l) = length l <-> NoDup l.
Proof.
  induction l as [|x l IH]; [split; [constructor|done]|]. cbn. pose proof (remove_dups_length l) as Hl. case_decide as Hx.
  - split; [cbn; lia|]. by intros [? _]%NoDup_cons.
  - cbn. rewrite NoDup_cons, <-IH. split; [intros [=]; done|]. intros [_ ->]. done.
Qed.

Lemma one_value {A} `{EqDecision A} (x : A) l : length (remove_dups (x :: l)) = 1%nat <-> Forall (fun y => y = x) l.
Proof.
  split.
  - intros H1. destruct (remove_dups (x :: l)) as [|z [|]] eqn:E; [done| |done]. apply Forall_forall. intros y Hy.
    assert (Hin : forall u, u ∈ x :: l -> u = z) by (intros u Hu; apply elem_of_remove_dups in Hu; rewrite E in Hu; set_solver).
    rewrite (Hin x), (Hin y); set_solver.
  - intros Hl. induction Hl as [|y l -> Hl IH]; [done|]. change (length (if decide_rel elem_of x (x :: l) then remove_dups (x :: l) else x :: remove_dups (x :: l)) = 1%nat).
    case_decide; [done|set_solver].
Qed.

Section facts.
Context {DG : Digester}.

(** ** Reading a reading *)

(** A result that is not unsettled by its pages names complete ones. *)
Definition whole_pages (pages : list LedgerPage) : Prop :=
  exists first rest, pages = first :: rest
    /\ Forall (fun p => pg_status p = 200 /\ pg_complete p = true /\ pg_total_pages p = pg_total_pages first
         /\ pg_total_rows p = pg_total_rows first) pages
    /\ pg_page <$> pages = z_range 1 (pg_total_pages first + 1)
    /\ NoDup (page_digest <$> pages)
    /\ Z.of_nat (length (ledger_rows pages)) = pg_total_rows first.

Lemma py_any_false {A} (f : A -> bool) l : py_any f l = false <-> Forall (fun x => f x = false) l.
Proof. induction l as [|x l IH]; cbn; [by split|]. rewrite orb_false_iff, Forall_cons. by rewrite IH. Qed.

Lemma bad_pagination_false first rest :
  bad_pagination first (first :: rest) = false <->
  pg_page <$> first :: rest = z_range 1 (pg_total_pages first + 1)
  /\ Forall (fun p => pg_total_pages p = pg_total_pages first) (first :: rest) /\ NoDup (page_digest <$> first :: rest).
Proof.
  unfold bad_pagination. rewrite !orb_false_iff, py_any_false, !negb_false_iff, bool_decide_eq_false, !bool_decide_eq_true.
  assert (Hf : Forall (fun p => negb (pg_total_pages p =? pg_total_pages first) = false) (first :: rest)
    <-> Forall (fun p => pg_total_pages p = pg_total_pages first) (first :: rest)).
  { apply Forall_iff. intros p. rewrite negb_false_iff. apply Z.eqb_eq. }
  rewrite Hf. split; [tauto|]. intros (Hp & ? & ?). split_and!; [|done..]. by rewrite <-Hp.
Qed.

(** The settled branch of [identify_ledger]. *)
Definition split_ledger (mode : string) (user : Z) (team : option Z) (pages : list LedgerPage) : LedgerResult :=
  let owned := List.filter (owner mode user team) (ledger_rows pages) in
  let foreign := List.filter (fun r => negb (owner mode user team r)) (ledger_rows pages) in
  ledger_result (if negb (bool_decide (owned = [])) then POPULATED
                 else if negb (bool_decide (foreign = [])) then NOT_OURS else EMPTY) mode user team pages owned foreign "".

Lemma whole_settles mode user team pages :
  unsettled_identity mode user team = false -> whole_pages pages -> identify_ledger mode user team pages = split_ledger mode user team pages.
Proof.
  intros Hi (first & rest & -> & Hp & Hn & Hd & Hr). unfold identify_ledger. rewrite Hi. rewrite Forall_cons in Hp. destruct Hp as [Hfirst Hp].
  destruct Hfirst as (Hs & Hc & _). rewrite Hs. change (200 =? 404) with false. cbv iota.
  assert (Hall : Forall (fun p => pg_status p = 200 /\ pg_complete p = true /\ pg_total_pages p = pg_total_pages first
         /\ pg_total_rows p = pg_total_rows first) (first :: rest)) by by constructor.
  replace (py_any _ (first :: rest)) with false; [|symmetry; apply py_any_false; eapply Forall_impl; [exact Hall|];
    cbn beta; intros p (-> & -> & _); done].
  replace (bad_pagination first (first :: rest)) with false; [|symmetry; apply bad_pagination_false; split_and!; [done| |done];
    eapply Forall_impl; [exact Hall|]; cbn beta; naive_solver].
  replace (py_any _ (first :: rest)) with false; [|symmetry; apply py_any_false; eapply Forall_impl; [exact Hall|];
    cbn beta; intros p (_ & _ & _ & ->); by rewrite Z.eqb_refl].
  unfold py_len. rewrite Hr, Z.eqb_refl. done.
Qed.

Lemma identify_cases mode user team pages :
  let r := identify_ledger mode user team pages in
  unsettled_identity mode user team = false /\ whole_pages pages /\ r = split_ledger mode user team pages
  \/ (ld_outcome r = UNSETTLED \/ ld_outcome r = ABSENT) /\ ld_owned r = [] /\ ld_foreign r = [].
Proof.
  cbv zeta. unfold identify_ledger. destruct (unsettled_identity mode user team) eqn:Hi; [right; by split; [left|]|].
  destruct pages as [|first rest]; [right; by split; [left|]|]. destruct (_ =? 404); [right; by split; [right|]|].
  destruct (py_any _ _) eqn:Hs; [right; by split; [left|]|]. destruct (bad_pagination _ _) eqn:Hb; [right; by split; [left|]|].
  destruct (py_any _ _ || _) eqn:Hr; [right; by split; [left|]|]. left. split; [done|]. split; [|done]. exists first, rest. split; [done|].
  apply bad_pagination_false in Hb as (Hp & Ht & Hd). apply py_any_false in Hs. apply orb_false_iff in Hr as [Hr Hl]. apply py_any_false in Hr.
  rewrite Forall_forall in *. split_and!; [|done..|].
  - intros p Hin. specialize (Hs p Hin). specialize (Hr p Hin). specialize (Ht p Hin). cbn beta in *. bool_to_prop. done.
  - bool_to_prop. done.
Qed.

(** A ledger is settled - populated, not ours or empty - exactly on the strength of one complete, corroborated
    sequence of pages read under a settled identity; its rows are then all rows of the pages, split by their
    owner, and otherwise it has none. *)
Theorem ledger_settled mode user team pages :
  let r := identify_ledger mode user team pages in
  (ld_outcome r ∈ [POPULATED; NOT_OURS; EMPTY] <-> unsettled_identity mode user team = false /\ whole_pages pages)
  /\ (ld_outcome r ∈ [POPULATED; NOT_OURS; EMPTY] -> ld_owned r ++ ld_foreign r ≡ₚ ledger_rows pages)
  /\ Forall (fun row => owner mode user team row = true) (ld_owned r) /\ Forall (fun row => owner mode user team row = false) (ld_foreign r)
  /\ (ld_outcome r = POPULATED <-> ld_owned r <> []).
Proof.
  cbv zeta. destruct (identify_cases mode user team pages) as [(Hi & Hw & ->)|([Ho|Ho] & -> & ->)].
  - unfold split_ledger. cbn [ld_outcome ld_owned ld_foreign ledger_result]. split_and!.
    + split; [done|]. intros _. repeat case_bool_decide; cbn [negb]; set_solver.
    + intros _. induction (ledger_rows pages) as [|x l IH]; [done|]. cbn [List.filter]. destruct (owner mode user team x); cbn [negb app].
      * by rewrite IH.
      * by rewrite <-Permutation_middle, IH.
    + apply Forall_forall. intros x Hx%list_elem_of_In%List.filter_In. tauto.
    + apply Forall_forall. intros x Hx%list_elem_of_In%List.filter_In. destruct Hx as [_ Hx]. by apply negb_true_iff.
    + split; repeat case_bool_decide; done.
  - rewrite Ho. split_and!; [|set_solver|constructor|constructor|done]. split; [set_solver|]. intros [Hi Hw].
    rewrite whole_settles in Ho by done. revert Ho. unfold split_ledger. cbn. repeat case_bool_decide; done.
  - rewrite Ho. split_and!; [|set_solver|constructor|constructor|done]. split; [set_solver|]. intros [Hi Hw].
    rewrite whole_settles in Ho by done. revert Ho. unfold split_ledger. cbn. repeat case_bool_decide; done.
Qed.

(** ** Reading a receipt back *)

(** A document as it is read back. *)
Definition sorted_fields (d : fields) : fields := sort_by fst (List.map (fun f => (f.1, key_sorted f.2)) d).

Lemma sorted_get n d : dict_get n (sorted_fields d) = key_sorted <$> dict_get n d.
Proof. apply dict_get_key_sorted. Qed.

Lemma sorted_get_or n d : get_or n JNull (sorted_fields d) = key_sorted (get_or n JNull d).
Proof. unfold get_or. rewrite sorted_get. by destruct (dict_get n d). Qed.

Lemma py_all_forall {A} (f : A -> bool) l : py_all f l = true <-> Forall (fun x => f x = true) l.
Proof. unfold py_all. rewrite forallb_forall, Forall_forall. by setoid_rewrite list_elem_of_In. Qed.

Lemma sorted_keys names d : exact_keys names (sorted_fields d) = exact_keys names d.
Proof.
  unfold exact_keys. f_equal.
  - apply eq_true_iff_eq. rewrite !py_all_forall. unfold sorted_fields. rewrite (sort_by_perm fst (List.map _ d)).
    change (List.map ?f d) with (f <$> d). by rewrite Forall_fmap.
  - apply eq_true_iff_eq. rewrite !py_all_forall. apply Forall_iff. intros n. unfold dict_has. rewrite sorted_get.
    rewrite !bool_decide_eq_true, fmap_is_Some. done.
Qed.

Definition page_row (p : LedgerPage) : fields := [
  ("complete", JBool (pg_complete p)); ("page", JInt (pg_page p)); ("response_digest", JStr (page_digest p));
  ("status", JInt (pg_status p)); ("total_pages", JInt (pg_total_pages p)); ("total_rows", JInt (pg_total_rows p))].

Lemma page_read p : key_sorted (page_json p) = JObj (page_row p).
Proof. reflexivity. Qed.

Definition ledger_row (r : LedgerRow) : fields := [
  ("challenge_id", lr_challenge_id r); ("response_digest", JStr (lr_response_digest r)); ("row_id", JStr (lr_row_id r));
  ("source_page", JInt (lr_source_page r)); ("team_id", opt_int (lr_team_id r)); ("user_id", opt_int (lr_user_id r))].

Lemma row_read r : scalar (lr_challenge_id r) -> key_sorted (row_document r) = JObj (ledger_row r).
Proof. intros Hc. destruct r as [i c [u|] [t|] p d]; cbn in *; by destruct c. Qed.

Lemma row_keyed r : scalar (lr_challenge_id r) -> well_keyed (row_document r).
Proof.
  intros Hc. apply well_keyed_obj. split; [by apply (bool_decide_unpack _)|]. destruct r as [i c [u|] [t|] p d]; cbn in *; repeat constructor; by destruct c.
Qed.

Lemma page_keyed p : well_keyed (page_json p).
Proof. apply well_keyed_obj. split; [by apply (bool_decide_unpack _)|by repeat constructor]. Qed.

(** ** The columns of a trace *)

Lemma column_map {A} (f : A -> fields) name l : column name (f <$> l) = (fun x => get_or name JNull (f x)) <$> l.
Proof. unfold column. by rewrite <-list_fmap_compose. Qed.

Lemma set_size_map {A B} `{EqDecision B} (j : B -> json) (f : A -> B) l :
  Inj (=) (=) j -> (forall x, hashable (j x) = true) -> (forall x, py_norm (j x) = j x) ->
  set_size (j <$> (f <$> l)) = Ok (py_len (remove_dups (f <$> l))).
Proof.
  intros Hj Hh Hn. unfold set_size, raise_unless. replace (py_all hashable _) with true; cycle 1.
  { symmetry. apply py_all_forall. rewrite Forall_fmap. apply Forall_forall. intros x _. apply Hh. }
  cbn [raise_if negb mbind result_bind]. do 2 f_equal. rewrite <-list_fmap_compose. unfold compose.
  assert (Hl : forall m : list B, (fun x => py_norm (j x)) <$> m = j <$> m) by (intros m; apply list_fmap_ext; intros; apply Hn).
  rewrite Hl. generalize (f <$> l). intros m. unfold py_len. f_equal. induction m as [|x m IH]; [done|]. cbn.
  case_decide as E1; case_decide as E2; cbn; [done| | |by rewrite IH].
  - exfalso. apply E2. by apply list_elem_of_fmap_inj in E1.
  - exfalso. apply E1. by apply list_elem_of_fmap_2.
Qed.

#[local] Instance JInt_inj : Inj (=) (=) JInt.
Proof. by intros x y [= ->]. Qed.

#[local] Instance JStr_inj : Inj (=) (=) JStr.
Proof. by intros x y [= ->]. Qed.

Definition readable (p : LedgerPage) : bool := (pg_status p =? 200) && pg_complete p.

Lemma settled_rows_trace first rest : settled_trace (page_row <$> first :: rest) = py_all readable (first :: rest).
Proof.
  unfold settled_trace. rewrite column_map. change (bool_decide (page_row <$> first :: rest = [])) with false. cbn [negb andb].
  apply eq_true_iff_eq. rewrite andb_true_iff, !py_all_forall, !Forall_fmap, <-Forall_and. apply Forall_iff. intros p.
  unfold readable, compose, py_eqb. cbn. rewrite andb_true_iff, !bool_decide_eq_true, Z.eqb_eq.
  change (JInt (pg_status p) = JInt 200 /\ JBool (pg_complete p) = JBool true <-> pg_status p = 200 /\ pg_complete p = true).
  split; [by intros [[= ->] [= ->]]|by intros [-> ->]].
Qed.

Lemma same_numbers (f : LedgerPage -> Z) first rest :
  (py_len (remove_dups (f <$> first :: rest)) =? 1) = true <-> Forall (fun p => f p = f first) (first :: rest).
Proof.
  rewrite Z.eqb_eq. unfold py_len. change 1 with (Z.of_nat 1). rewrite Nat2Z.inj_iff. cbn [fmap list_fmap]. rewrite one_value.
  change (list_fmap _ _ f rest) with (f <$> rest). rewrite Forall_fmap, Forall_cons. unfold compose. naive_solver.
Qed.

Lemma trace_column {A} name (j : A -> json) (f : LedgerPage -> A) l :
  (forall p, get_or name JNull (page_row p) = j (f p)) -> column name (page_row <$> l) = j <$> (f <$> l).
Proof. intros Hf. rewrite column_map, <-list_fmap_compose. by apply list_fmap_ext. Qed.

Definition total_pages_column := trace_column "total_pages" JInt pg_total_pages.
Definition total_rows_column := trace_column "total_rows" JInt pg_total_rows.
Definition page_column := trace_column "page" JInt pg_page.
Definition digest_column := trace_column "response_digest" JStr page_digest.

Lemma require_ok {A} b e (k : unit -> result A) a : (raise_unless b e ≫= k) = Ok a <-> b = true /\ k tt = Ok a.
Proof. destruct b; cbn; [tauto|]. split; [done|by intros [? _]]. Qed.

Lemma require_last b e u : raise_unless b e = Ok u <-> b = true.
Proof. by destruct b, u. Qed.

Lemma ints_norm (l : list Z) : List.map py_norm (JInt <$> l) = JInt <$> l.
Proof. induction l as [|x l IH]; [done|]. cbn. by f_equal. Qed.

(** A settled trace passes exactly when its pages are whole and their rows add up. *)
Lemma pagination_ok first rest owned foreign :
  py_all readable (first :: rest) = true ->
  verify_pagination (page_row <$> first :: rest) owned foreign = Ok tt <->
  bad_pagination first (first :: rest) = false /\ Forall (fun p => pg_total_rows p = pg_total_rows first) (first :: rest)
  /\ Forall (fun p => String.length (page_digest p) = 64%nat) (first :: rest) /\ pg_total_rows first = owned + foreign.
Proof.
  intros Hr. unfold verify_pagination. rewrite settled_rows_trace, Hr. cbn [negb].
  rewrite total_pages_column, total_rows_column, page_column, digest_column by done.
  rewrite !set_size_map by (done || apply _). cbn [mbind result_bind].
  change (page_numbers (page_row <$> first :: rest)) with (Ok (JInt <$> z_range 1 (pg_total_pages first + 1))).
  cbn [mbind result_bind]. rewrite !require_ok, require_last, !same_numbers, bad_pagination_false.
  assert (Hp : py_eqb (JList (JInt <$> (pg_page <$> first :: rest))) (JList (JInt <$> z_range 1 (pg_total_pages first + 1))) = true
    <-> pg_page <$> first :: rest = z_range 1 (pg_total_pages first + 1)).
  { unfold py_eqb. rewrite bool_decide_eq_true. cbn [py_norm]. rewrite !ints_norm. split; [|by intros ->]. intros E.
    apply (f_equal (fun j => match j with JList l => l | _ => [] end)) in E. by apply (inj (fmap (M := list) JInt)) in E. }
  assert (Hd : (py_len (remove_dups (page_digest <$> first :: rest)) =? py_len (page_row <$> first :: rest)) = true
    <-> NoDup (page_digest <$> first :: rest)).
  { rewrite Z.eqb_eq. unfold py_len. rewrite Nat2Z.inj_iff, length_fmap, <-(length_fmap page_digest). apply NoDup_set_size. }
  assert (Hl : py_all (fun d => match d with JStr s => Z.of_nat (String.length s) =? 64 | _ => false end)
      (JStr <$> (page_digest <$> first :: rest)) = true <-> Forall (fun p => String.length (page_digest p) = 64%nat) (first :: rest)).
  { rewrite py_all_forall, !Forall_fmap. apply Forall_iff. intros p. unfold compose. rewrite Z.eqb_eq. lia. }
  assert (Ht : py_eqb (get_or "total_rows" JNull (default [] (head (page_row <$> first :: rest)))) (JInt (owned + foreign)) = true
    <-> pg_total_rows first = owned + foreign).
  { unfold py_eqb. rewrite bool_decide_eq_true. change (JInt (pg_total_rows first) = JInt (owned + foreign) <-> pg_total_rows first = owned + foreign).
    split; [by intros [= ->]|by intros ->]. }
  rewrite Hp, Hd, Hl, Ht. tauto.
Qed.

(** ** Receipts of readings *)

Section receipts.
Context {HD : HexDigester DG} (run mode : string) (user : Z) (team : option Z) (pages : list LedgerPage).
Hypothesis run_named : run <> "".
Hypothesis identity_settled : unsettled_identity mode user team = false.
Hypothesis team_positive : mode = "teams" -> exists t, team = Some t /\ 0 < t.
Hypothesis rows_scalar : Forall (fun p => Forall (fun r => scalar (lr_challenge_id r)) (pg_rows p)) pages.

Abbreviation reading := (identify_ledger mode user team pages).

Definition document_of (r : LedgerResult) : fields := [
  ("schema_version", JInt SCHEMA_VERSION); ("receipt_type", JStr RECEIPT_TYPE); ("run_id", JStr run); ("mode", JStr (ld_mode r));
  ("authenticated_identity", JObj (identity_document r)); ("authenticated_identity_digest", JStr (ld_identity_digest r));
  ("outcome", JStr (ld_outcome r)); ("reason", JStr (ld_reason r)); ("pagination_trace", JList (page_json <$> ld_pages r));
  ("row_ownership_counts", JObj [("owned", JInt (py_len (ld_owned r))); ("foreign", JInt (py_len (ld_foreign r)))]);
  ("owned_rows", JList (row_document <$> ld_owned r)); ("foreign_rows", JList (row_document <$> ld_foreign r));
  ("manifest_link", manifest_link)].

Definition scalar_rows (r : LedgerResult) : Prop := Forall (fun row => scalar (lr_challenge_id row)) (ld_owned r ++ ld_foreign r).

Lemma document_written r : ld_outcome r ∈ OUTCOMES -> receipt_text run r = Ok (canonical_bytes (JObj (document_of r)) +:+ newline).
Proof using run_named.
  intros Ho. unfold receipt_text, receipt_document, raise_if, one_of. rewrite (bool_decide_false _ run_named), bool_decide_true by done. done.
Qed.

Lemma document_keyed r : scalar_rows r -> well_keyed (JObj (document_of r)).
Proof.
  intros Hs. apply Forall_app in Hs as [Ho Hf]. apply well_keyed_obj. split; [by apply (bool_decide_unpack _)|].
  assert (Hrows : forall l, Forall (fun row => scalar (lr_challenge_id row)) l -> well_keyed (JList (row_document <$> l))).
  { intros l Hl. apply well_keyed_list, Forall_fmap. eapply Forall_impl; [exact Hl|]. intros row. apply row_keyed. }
  assert (Hpages : well_keyed (JList (page_json <$> ld_pages r))).
  { apply well_keyed_list, Forall_fmap, Forall_forall. intros p _. apply page_keyed. }
  assert (Hid : well_keyed (JObj (identity_document r))).
  { apply well_keyed_obj. split; [by apply (bool_decide_unpack _)|]. repeat constructor. cbn. by destruct (ld_team_id r). }
  repeat (apply Forall_cons; split; [cbn [snd]; first [done|by apply Hrows|apply well_keyed_obj; split; [by apply (bool_decide_unpack _)|by repeat constructor]]|]).
  constructor.
Qed.

Lemma document_read r :
  ld_outcome r ∈ OUTCOMES -> scalar_rows r ->
  read_receipt (receipt_path run) (canonical_bytes (JObj (document_of r)) +:+ newline) = Ok (sorted_fields (document_of r)).
Proof using run_named.
  intros Ho Hs. unfold read_receipt. 
  assert (Hl : loads (canonical_bytes (JObj (document_of r)) +:+ newline) = Some (key_sorted (JObj (document_of r))))
    by exact (loads_line _ (document_keyed _ Hs)). rewrite Hl.
  cbn [mbind result_bind]. unfold canonical_bytes. rewrite key_sorted_dumps. rewrite bool_decide_true by done. cbn [raise_unless mbind result_bind].
  change (key_sorted (JObj (document_of r))) with (JObj (sorted_fields (document_of r))). cbn [mbind result_bind].
  rewrite sorted_keys, !sorted_get_or. change (exact_keys receipt_fields (document_of r)) with true.
  change (py_eqb (key_sorted (get_or "schema_version" JNull (document_of r))) (JInt SCHEMA_VERSION)) with true. cbn [andb raise_unless mbind result_bind].
  change (py_eqb (key_sorted (get_or "receipt_type" JNull (document_of r))) (JStr RECEIPT_TYPE)) with true.
  replace (py_any _ OUTCOMES) with true; cycle 1.
  { symmetry. apply existsb_exists. exists (ld_outcome r). split; [by apply list_elem_of_In|]. apply py_eqb_refl. }
  cbn [andb raise_unless mbind result_bind]. change (py_str (key_sorted (get_or "run_id" JNull (document_of r)))) with run.
  rewrite (bool_decide_false _ run_named). cbn [at_run at_folder at_file receipt_path]. rewrite !bool_decide_true by done. done.
Qed.

Abbreviation read r := (sorted_fields (document_of r)).

Lemma counts_read r : verify_counts (read r) = Ok (py_len (ld_owned r), py_len (ld_foreign r)).
Proof.
  unfold verify_counts. rewrite !sorted_get_or.
  change (get_or "owned_rows" JNull (document_of r)) with (JList (row_document <$> ld_owned r)).
  change (get_or "foreign_rows" JNull (document_of r)) with (JList (row_document <$> ld_foreign r)).
  change (key_sorted (get_or "row_ownership_counts" JNull (document_of r)))
    with (JObj [("foreign", JInt (py_len (ld_foreign r))); ("owned", JInt (py_len (ld_owned r)))]).
  cbn [key_sorted sized mbind result_bind]. unfold py_len. change (row_document <$> ?l) with (List.map row_document l). rewrite !length_map. unfold fields_eqb, py_eqb. by rewrite bool_decide_true.
Qed.

Lemma hex_chars c : is_hex c = true -> bool_decide (c ∈ chars "0123456789abcdef") = true.
Proof. destruct c as [[] [] [] [] [] [] [] []]; vm_compute; done. Qed.

Lemma digest_reads body : String.length (digest_bytes body) = 64%nat /\ hex_text (digest_bytes body) = true.
Proof using HD.
  pose proof (digest_hex body) as Hd. unfold is_sha256 in Hd. apply andb_true_iff in Hd as [Hl%Nat.eqb_eq Hh]. split; [done|].
  unfold hex_text. rewrite py_all_forall in *. eapply Forall_impl; [exact Hh|]. apply hex_chars.
Qed.

Definition identity_read_back : fields := [("team_id", opt_int team); ("user_id", JInt user)].

Definition reading_of (r : LedgerResult) : Prop :=
  ld_mode r = mode /\ ld_user_id r = user /\ ld_team_id r = team
  /\ ld_identity_digest r = digest (JObj [("mode", JStr mode); ("user_id", JInt user); ("team_id", opt_int team)]).

Lemma identity_read r : reading_of r -> verify_identity (read r) = Ok identity_read_back.
Proof using HD identity_settled team_positive.
  clear run_named rows_scalar. intros (Hm & Hu & Ht & Hd). unfold verify_identity. rewrite !sorted_get_or.
  change (key_sorted (get_or "mode" JNull (document_of r))) with (JStr (ld_mode r)).
  change (key_sorted (get_or "authenticated_identity_digest" JNull (document_of r))) with (JStr (ld_identity_digest r)).
  change (key_sorted (get_or "authenticated_identity" JNull (document_of r)))
    with (JObj [("team_id", key_sorted (opt_int (ld_team_id r))); ("user_id", JInt (ld_user_id r))]).
  rewrite Hm, Hu, Ht, Hd. replace (key_sorted (opt_int team)) with (opt_int team) by by destruct team.
  unfold unsettled_identity in identity_settled. rewrite !orb_false_iff in identity_settled. destruct identity_settled as [[Hmode Hpos] Hteam].
  cbn [mbind result_bind]. change (exact_keys ["user_id"; "team_id"] _) with true. cbn [raise_unless mbind result_bind hashable].
  rewrite !py_eqb_str. unfold one_of in Hmode. apply negb_false_iff, bool_decide_eq_true in Hmode.
  change (positive_id (get_or "user_id" JNull [("team_id", opt_int team); ("user_id", JInt user)])) with (0 <? user).
  replace (0 <? user) with true by lia.
  change (positive_id (get_or "team_id" JNull [("team_id", opt_int team); ("user_id", JInt user)])) with (positive_id (opt_int team)).
  replace (bool_decide (mode = "teams") || bool_decide (mode = "users")) with true by
    (repeat case_bool_decide; [done..|]; set_solver). cbn [andb raise_unless mbind result_bind].
  replace (bool_decide (mode = "teams") && negb (positive_id (opt_int team))) with false; cycle 1.
  { case_bool_decide as E; [|done]. destruct (team_positive E) as (t & -> & Hp). cbn. by replace (0 <? t) with true by lia. }
  cbn [raise_if mbind result_bind py_str]. unfold digest. pose proof (digest_reads (canonical_bytes (JObj [("mode", JStr mode); ("user_id", JInt user); ("team_id", opt_int team)])))
    as [-> ->]. change (Z.of_nat 64 =? 64) with true. cbn [raise_unless mbind result_bind]. rewrite bool_decide_true; [done|]. done.
Qed.

Lemma trace_read r : verify_trace (read r) = Ok (page_row <$> ld_pages r).
Proof.
  unfold verify_trace. rewrite sorted_get_or.
  change (key_sorted (get_or "pagination_trace" JNull (document_of r))) with (JList (List.map key_sorted (page_json <$> ld_pages r))).
  cbv iota. replace (mapM as_obj _) with (Some (page_row <$> ld_pages r)); [done|]. symmetry. apply mapM_Some.
  induction (ld_pages r) as [|p l IH]; constructor; done.
Qed.

(** Rows that come from the pages of the trace. *)
Lemma provenance_read ps rows :
  Forall (fun row => scalar (lr_challenge_id row) /\ exists p, p ∈ ps /\ lr_source_page row = pg_page p /\ lr_response_digest row = page_digest p) rows ->
  verify_provenance (origin "page" <$> (page_row <$> ps)) (List.map key_sorted (row_document <$> rows)) = Ok (ledger_row <$> rows).
Proof.
  induction 1 as [|row rows (Hs & p & Hp & Hsrc & Hdg) _ IH]; [done|]. cbn [fmap list_fmap List.map]. rewrite row_read by done.
  cbn [verify_provenance]. change (origin "source_page" (ledger_row row)) with (JInt (lr_source_page row), JStr (lr_response_digest row)).
  cbn [hashable_pair hashable fst snd andb raise_unless mbind result_bind]. rewrite bool_decide_true; cycle 1.
  { rewrite Hsrc, Hdg. apply (list_elem_of_fmap_2 (origin "page") _ (page_row p)). by apply list_elem_of_fmap_2. }
  cbn [raise_unless mbind result_bind]. change (list_fmap _ _ row_document rows) with (row_document <$> rows). by rewrite IH.
Qed.

Definition sourced_rows (r : LedgerResult) : Prop :=
  Forall (fun row => scalar (lr_challenge_id row)
    /\ exists p, p ∈ ld_pages r /\ lr_source_page row = pg_page p /\ lr_response_digest row = page_digest p) (ld_owned r ++ ld_foreign r).

Definition divided (r : LedgerResult) : Prop :=
  Forall (fun row => owner mode user team row = true) (ld_owned r) /\ Forall (fun row => owner mode user team row = false) (ld_foreign r).

Lemma ours_owner row :
  let owner_key := if bool_decide (mode = "teams") then "team_id" else "user_id" in
  py_eqb (get_or owner_key JNull (ledger_row row)) (get_or owner_key JNull identity_read_back) = owner mode user team row.
Proof.
  assert (Hopt : forall a b, py_eqb (opt_int a) (opt_int b) = bool_decide (a = b)).
  { intros [a|] [b|]; unfold py_eqb; cbn; apply bool_decide_ext; naive_solver. }
  unfold owner. cbv zeta. destruct (bool_decide (mode = "teams")); [apply Hopt|apply (Hopt _ (Some user))].
Qed.

(** A receipt of a reading verifies exactly when its pagination does and its outcome is the one its evidence gives. *)
Lemma receipt_read r :
  reading_of r -> ld_outcome r ∈ OUTCOMES -> sourced_rows r -> divided r ->
  verify_receipt (receipt_path run) (canonical_bytes (JObj (document_of r)) +:+ newline) =
    (verify_pagination (page_row <$> ld_pages r) (py_len (ld_owned r)) (py_len (ld_foreign r));;
     raise_unless (bool_decide (ld_outcome r = expected_outcome (read r) (page_row <$> ld_pages r) (py_len (ld_owned r)) (py_len (ld_foreign r))))
       (invalid "outcome disagrees with its evidence");;
     Ok (read r)).
Proof using HD identity_settled team_positive run_named.
  clear rows_scalar. intros Hr Ho Hs [Hown Hfor]. unfold verify_receipt. rewrite document_read; [|done|].
  2: { eapply Forall_impl; [exact Hs|]. naive_solver. }
  cbn [mbind result_bind]. rewrite counts_read. cbn [mbind result_bind]. rewrite identity_read, trace_read by done. cbn [mbind result_bind].
  destruct (verify_pagination _ _ _) as [[]|e]; [|done]. cbn [mbind result_bind]. rewrite !sorted_get_or.
  change (key_sorted (get_or "outcome" JNull (document_of r))) with (JStr (ld_outcome r)). rewrite py_eqb_str.
  destruct (bool_decide (ld_outcome r = _)); [|done]. cbn [raise_unless mbind result_bind].
  replace (py_all _ (page_row <$> ld_pages r)) with true; cycle 1.
  { symmetry. apply py_all_forall, Forall_fmap, Forall_forall. by intros p _. }
  cbn [raise_unless mbind result_bind].
  change (key_sorted (get_or "owned_rows" JNull (document_of r))) with (JList (List.map key_sorted (row_document <$> ld_owned r))).
  change (key_sorted (get_or "foreign_rows" JNull (document_of r))) with (JList (List.map key_sorted (row_document <$> ld_foreign r))).
  cbn [items_of]. apply Forall_app in Hs as [Hs1 Hs2]. rewrite !provenance_read by done. cbn [mbind result_bind].
  change (key_sorted (get_or "mode" JNull (document_of r))) with (JStr (ld_mode r)). rewrite py_eqb_str, (proj1 Hr).
  replace (py_any _ (ledger_row <$> ld_owned r) || _) with false; cycle 1.
  { symmetry. apply orb_false_iff. rewrite !py_any_false, !Forall_fmap. unfold compose. setoid_rewrite ours_owner.
    split; [eapply Forall_impl; [exact Hown|]; by intros row ->|exact Hfor]. }
  done.
Qed.

Lemma reading_facts : reading_of reading /\ ld_outcome reading ∈ OUTCOMES /\ ld_pages reading = pages /\ sourced_rows reading /\ divided reading.
Proof using All.
  assert (Hr : reading_of reading /\ ld_outcome reading ∈ OUTCOMES /\ ld_pages reading = pages).
  { unfold identify_ledger. destruct (unsettled_identity mode user team); [split_and!; [done|cbn; set_solver|done]|].
    destruct pages as [|first rest]; [split_and!; [done|cbn; set_solver|done]|].
    repeat match goal with |- context [if ?b then ledger_result _ _ _ _ _ _ _ _ else _] => destruct b; [split_and!; [done|cbn; set_solver|done]|] end.
    split_and!; [done| |done]. cbn. repeat case_bool_decide; cbn; set_solver. }
  destruct Hr as (Hr & Ho & Hp). split_and!; [done..| |].
  - unfold sourced_rows. rewrite Hp. destruct (identify_cases mode user team pages) as [(_ & _ & ->)|(_ & -> & ->)]; [|constructor].
    apply Forall_forall. intros row Hrow. assert (Hin : row ∈ ledger_rows pages).
    { apply elem_of_app in Hrow. unfold split_ledger in Hrow. cbn in Hrow. rewrite !list_elem_of_In, !List.filter_In in Hrow.
      apply list_elem_of_In. tauto. }
    unfold ledger_rows in Hin. apply list_elem_of_bind in Hin as (p & Hin & Hpin). apply list_elem_of_fmap in Hin as (r0 & -> & Hr0).
    cbn. split; [|by exists p]. rewrite Forall_forall in rows_scalar. specialize (rows_scalar p Hpin). rewrite Forall_forall in rows_scalar. by apply rows_scalar.
  - destruct (ledger_settled mode user team pages) as (_ & _ & H1 & H2 & _). by split.
Qed.

Lemma unreadable_pagination ps o f : py_all readable ps = false -> verify_pagination (page_row <$> ps) o f = Ok tt.
Proof. intros Hps. unfold verify_pagination. destruct ps as [|first rest]; [done|]. by rewrite settled_rows_trace, Hps. Qed.

Lemma len_zero {A} (l : list A) : (py_len l =? 0) = bool_decide (l = []).
Proof. by destruct l. Qed.

Lemma outcome_reason r ps o f : ld_reason r <> "" -> expected_outcome (read r) ps o f = UNSETTLED.
Proof.
  intros Hr. unfold expected_outcome. rewrite sorted_get_or. change (truthy (key_sorted (get_or "reason" JNull (document_of r)))) with
    (negb (bool_decide (ld_reason r = ""))). by rewrite bool_decide_false.
Qed.

Lemma outcome_status r first rest o f : ld_reason r = "" ->
  expected_outcome (read r) (page_row <$> first :: rest) o f =
    if pg_status first =? 404 then ABSENT else if negb (py_all readable (first :: rest)) then UNSETTLED
    else if negb (o =? 0) then POPULATED else if negb (f =? 0) then NOT_OURS else EMPTY.
Proof.
  intros Hr. unfold expected_outcome. rewrite sorted_get_or, settled_rows_trace. change (truthy (key_sorted (get_or "reason" JNull (document_of r)))) with
    (negb (bool_decide (ld_reason r = ""))). rewrite bool_decide_true by done. cbn [negb column fmap list_fmap].
  change (py_eqb (get_or "status" JNull (page_row first)) (JInt 404)) with (py_eqb (JInt (pg_status first)) (JInt 404)).
  replace (py_eqb (JInt (pg_status first)) (JInt 404)) with (pg_status first =? 404); [done|].
  unfold py_eqb. cbn. apply eq_true_iff_eq. rewrite Z.eqb_eq, bool_decide_eq_true. split; [by intros ->|by intros [= ->]].
Qed.

Lemma whole_readable ps : whole_pages ps -> py_all readable ps = true.
Proof.
  intros (first & rest & _ & Hp & _). apply py_all_forall. eapply Forall_impl; [exact Hp|]. cbn beta. intros p (Hs & Hc & _).
  unfold readable. by rewrite Hs, Hc.
Qed.

Lemma split_length {A} (f : A -> bool) l : length l = (length (List.filter f l) + length (List.filter (fun x => negb (f x)) l))%nat.
Proof. induction l as [|x l IH]; [done|]. cbn. destruct (f x); cbn; lia. Qed.

(** The checks that are left, of a reading whose pages fit together or were not all read. *)
Lemma settled_reading :
  Forall (fun p => String.length (page_digest p) = 64%nat) pages -> ld_reason reading ∉ [repeated; uncorroborated] ->
  verify_pagination (page_row <$> pages) (py_len (ld_owned reading)) (py_len (ld_foreign reading)) = Ok tt
  /\ ld_outcome reading = expected_outcome (read reading) (page_row <$> pages) (py_len (ld_owned reading)) (py_len (ld_foreign reading)).
Proof using All.
  intros Hd Hreason. destruct (identify_cases mode user team pages) as [(_ & Hw & E)|(Ho & _)].
  - rewrite E. pose proof (whole_readable _ Hw) as Hread. destruct Hw as (first & rest & Epages & Hp & Hn & Hnd & Hl). rewrite Epages in *.
    rewrite outcome_status, Hread by done. split.
    + apply pagination_ok; [done|]. split; [|split; [|split; [done|]]].
      * apply bad_pagination_false. split_and!; [done| |done]. eapply Forall_impl; [exact Hp|]. naive_solver.
      * eapply Forall_impl; [exact Hp|]. naive_solver.
      * rewrite <-Hl. unfold split_ledger, py_len. cbn [ld_owned ld_foreign ledger_result]. rewrite <-Nat2Z.inj_add. f_equal. apply split_length.
    + rewrite Forall_cons in Hp. destruct Hp as [(-> & _) _]. rewrite !len_zero. change (200 =? 404) with false. done.
  - unfold identify_ledger in *. rewrite identity_settled in *. destruct pages as [|first rest]; [by rewrite outcome_reason|].
    destruct (pg_status first =? 404) eqn:Ef.
    { rewrite outcome_status, Ef by done. split; [|done]. apply unreadable_pagination. cbn. unfold readable at 1. apply Z.eqb_eq in Ef. by rewrite Ef. }
    destruct (py_any _ _) eqn:Eu.
    { rewrite outcome_reason by done. split; [|done]. apply unreadable_pagination. apply not_true_is_false. rewrite py_all_forall. intros Hall.
      assert (py_any (fun p => negb (pg_status p =? 200) || negb (pg_complete p)) (first :: rest) = false); [|congruence].
      apply py_any_false. eapply Forall_impl; [exact Hall|]. unfold readable. intros p. cbn beta. intros [-> ->]%andb_true_iff. done. }
    destruct (bad_pagination _ _); [cbn in Hreason; set_solver|]. destruct (py_any _ _ || _); [cbn in Hreason; set_solver|].
    exfalso. cbn in Ho. revert Ho. repeat case_bool_decide; cbn; by intros [|].
Qed.

(** C30. The receipt of a reading verifies and says what was written - a reading of a named Run under a settled
    identity, of a positive team where the mode is by teams, whose rows name their Challenges by scalars and
    whose pages carry digests of 64 characters, unless the pages were all read and do not fit together.  A
    receipt of an unsettled identity, which is written too, does not verify ([unsettled_identity_refused]). *)
Theorem ledger_receipt_verifies :
  Forall (fun p => String.length (page_digest p) = 64%nat) pages -> ld_reason reading ∉ [repeated; uncorroborated] ->
  exists text written d, receipt_text run reading = Ok text /\ receipt_document run reading = Ok written
    /\ verify_receipt (receipt_path run) text = Ok d /\ fields_eqb d written = true.
Proof using All.
  intros Hd Hreason. destruct reading_facts as (Hr & Ho & Hp & Hs & Hdiv). eexists _, (document_of reading), (read reading).
  split; [by apply document_written|]. split.
  { unfold receipt_document, raise_if, one_of. by rewrite (bool_decide_false _ run_named), bool_decide_true by done. }
  split; [|unfold fields_eqb, py_eqb; apply bool_decide_eq_true, (key_sorted_eq (JObj (document_of reading)))].
  rewrite receipt_read by done. rewrite Hp. destruct (settled_reading Hd Hreason) as [-> <-]. cbn [mbind result_bind]. by rewrite bool_decide_true.
Qed.

(** But a receipt of pages that were all read and do not fit together - numbers that are not 1 to the total,
    totals that differ, one page twice, or rows other than the total when it is not 0 - is written and never
    verifies, though it says itself that the ledger is unsettled. *)
Theorem unsettled_receipt_refused first rest :
  pages = first :: rest -> py_all readable pages = true -> ld_outcome reading = UNSETTLED ->
  ld_reason reading = repeated \/ pg_total_rows first <> 0 ->
  exists text e, receipt_text run reading = Ok text /\ verify_receipt (receipt_path run) text = Err e.
Proof using All.
  intros Epages Hread Ho Hcase. destruct reading_facts as (Hr & Hout & Hp & Hs & Hdiv). eexists _. rewrite document_written by done.
  rewrite receipt_read by done. rewrite Hp, Epages in *.
  destruct (verify_pagination _ _ _) as [[]|e] eqn:E; [exfalso|by exists e].
  apply pagination_ok in E as (Hb & Ht & _ & Hrows); [|done].
  destruct (identify_cases mode user team (first :: rest)) as [(_ & _ & Esplit)|(_ & Hown & Hfor)].
  - rewrite Esplit in Ho. revert Ho. unfold split_ledger. cbn. by repeat case_bool_decide.
  - rewrite Hown, Hfor in Hrows. destruct Hcase as [Hcase|Hcase]; [|by rewrite Hrows in Hcase].
    unfold identify_ledger in Hcase. rewrite identity_settled in Hcase. rewrite Hb in Hcase. destruct (_ =? 404); [done|].
    destruct (py_any _ _); [done|]. by destruct (py_any _ _ || _).
Qed.
End receipts.
End facts.
