(* ===== verification/Reconciliation.v ===== *)
(** The Boot barrier: Board rows, Leases and Work generations are joined before Work is admitted.

    [src/solver/instance_reconciliation.py] and [instance_reconciliation_contracts.py], the archive of
    earlier Runs ([instance_lease_archive.py]) and what [src/solver/__main__.py] puts between them.
    Reconciliation runs before any other thread uses the write authority; what it asks for inside an effect
    - a cleanup, a finalization - is a program over the world the authority is part of ([Host]).  Seconds of
    the clock are microseconds; the clock is read at most once per Lease, and each Lease comes with that
    reading.  The writers of the Runs' directories ([acquire_writer] of [write_reservation_storage.py]) are the
    registry of the process and the locks other processes hold; the archive opens an authority of its own on a
    Run's directory and closes it again. *)

From S2P Require Import Prelude Canon Text PyJson JsonText Moment EventStore EventContracts Reservation WorkGeneration Lease InstanceLedger.
Local Open Scope Z_scope.

(** ** Contracts *)

Inductive AdmissionVerdict : Type := ADMISSION_OPEN | ADMISSION_CLOSED.

#[export] Instance AdmissionVerdict_eq_dec : EqDecision AdmissionVerdict.
Proof. solve_decision. Defined.

Definition admission_value (v : AdmissionVerdict) : string := match v with ADMISSION_OPEN => "open" | ADMISSION_CLOSED => "closed" end.

Record BootOwnership : Type := {
  bo_predecessor_close_event_ids : list string;
  bo_interrupted_attempt_close_event_ids : list string;
  bo_interrupted_attempts_closed : bool;
  bo_predecessors_closed : bool
}.

Definition proved (o : BootOwnership) : bool := bo_predecessors_closed o && bo_interrupted_attempts_closed o.

Definition ownership_document (o : BootOwnership) : json := JObj [
  ("predecessor_close_event_ids", JList (JStr <$> bo_predecessor_close_event_ids o));
  ("interrupted_attempt_close_event_ids", JList (JStr <$> bo_interrupted_attempt_close_event_ids o));
  ("interrupted_attempts_closed", JBool (bo_interrupted_attempts_closed o));
  ("predecessors_closed", JBool (bo_predecessors_closed o))].

Record ReconciliationResult : Type := {
  rr_boot_id : string;
  rr_snapshot_id : string;
  rr_join_digest : string;
  rr_actions : list string;
  rr_unsettled : list string;
  rr_verdict : AdmissionVerdict;
  rr_completion_key : string;
  rr_ownership : BootOwnership;
  rr_cycle_id : string
}.

Definition reconciliation_id (r : ReconciliationResult) : string := or_text (rr_cycle_id r) (rr_boot_id r).

Definition result_document (r : ReconciliationResult) : fields :=
  [("boot_id", JStr (rr_boot_id r)); ("snapshot_id", JStr (rr_snapshot_id r)); ("join_digest", JStr (rr_join_digest r));
   ("actions", JList (JStr <$> rr_actions r)); ("unsettled", JList (JStr <$> rr_unsettled r));
   ("admission", JStr (admission_value (rr_verdict r))); ("completion_key", JStr (rr_completion_key r));
   ("ownership", ownership_document (rr_ownership r))]
  ++ (if bool_decide (rr_cycle_id r = "") then [] else [("cycle_id", JStr (rr_cycle_id r))]).

Inductive ProbationOutcome : Type := PROBATION_PASSED | PROBATION_UNSETTLED.

Definition RECONCILIATION_CAPACITY : Capacity := capacity 4096 1 8.

Definition QUARANTINE_US : Z := 15 * us_per_second.

(** ** A world that holds a write authority *)

Class Host (X : Type) : Type := {
  authority : X -> World;
  set_authority : World -> X -> X;
  authority_set a x : authority (set_authority a x) = a
}.

Section hosted.
Context `{Digester} {X : Type} `{Host X}.
Context (faults : Faults) (redact : string -> string) (boot : string) (proof : list (string * json)).

Definition at_authority {A} (m : M A) : Prog X A := fun x =>
  let '(a, o) := m (authority x) in (set_authority a x, o).

(** [except Exception]. *)
Definition except {A} (m : Prog X A) (h : exn -> Prog X A) : Prog X A := fun x =>
  match m x with (x', Raised e) => h e x' | r => r end.

(** [ReservedEffect.execute] up to [decode], with an effect that is itself a program and no other thread. *)
Definition execute_with (k : string) (i : EffectIdentity) (n : Capacity) (ret : RetentionPolicy) (effect : Prog X json) : Prog X json :=
  reservation ← at_authority (reserve faults redact boot (plain_request k i n SHARED ret));
  if bool_decide (state reservation = COMMITTED) then
    at_authority (receipt_if_required proof reservation);; mret (default (JObj []) (observation reservation))
  else
  if negb (bool_decide (state reservation = RESERVED)) then
    at_authority (if requires_receipt (retention reservation) && is_final (state reservation) then write_receipt proof k else mret tt);;
    fail (EffectIndeterminate ("effect " +:+ k +:+ " is " +:+ state_value (state reservation) +:+ " and cannot be repeated"))
  else
    claim ← at_authority (claim_start reservation);
    let '(started, acquired) := (claim : WriteReservation * bool) in
    if negb acquired then
      if bool_decide (state started = COMMITTED) then mret (default (JObj []) (observation started))
      else fail (EffectIndeterminate ("effect " +:+ k +:+ " was not admitted exactly once"))
    else
      committed ← except (at_authority (run_effect k);; obs ← effect; at_authority (commit faults redact started obs)) (fun e =>
        at_authority (
          found ← current_locked k;
          match found with
          | Some current =>
              if bool_decide (state current = STARTED) then
                sent ← possibly_sent faults redact started (exn_name e) [];
                if requires_receipt (retention sent) then
                  catch (write_receipt proof k) (fun e' => if tolerated e' then mret tt else raise e')
                else mret tt
              else mret tt
          | None => mret tt
          end);;
        fail e);
      at_authority (receipt_if_required proof committed);;
      mret (default (JObj []) (observation committed)).

(** An effect that does nothing but answer. *)
Definition record_with (k : string) (i : EffectIdentity) (obs : json) : Prog X json :=
  execute_with k i RECONCILIATION_CAPACITY RECORD (mret obs).

(** ** The reconciler *)

Context (run_id board_id : string).
Context (cleanup : LeaseGrant -> string -> Prog X bool) (finalize : option (LeaseGrant -> string -> Prog X unit)).

Definition reconciliation_key (rest : string) : string := "instance-reconciliation:" +:+ run_id +:+ ":" +:+ rest.

Definition reconciliation_identity (operation_ subject_ : string) : EffectIdentity := {|
  operation := "instance-reconciliation." +:+ operation_; subject := subject_; payload_digest := "" |}.

(** [_record_snapshot]. *)
Definition snapshot_material (boot_id cycle : string) (ledger : fields) : json :=
  JObj ([("boot_id", JStr boot_id); ("ledger", JObj ledger)] ++ (if bool_decide (cycle = "") then [] else [("cycle_id", JStr cycle)])).

Definition record_snapshot (boot_id cycle : string) (ledger : fields) : Prog X string :=
  let snapshot := digest (snapshot_material boot_id cycle ledger) in
  record_with (reconciliation_key ("snapshot:" +:+ snapshot)) (reconciliation_identity "snapshot" snapshot) (JObj ledger);;
  mret snapshot.

(** [_quarantine_elapsed]. *)
Definition quarantine_key (row : string) : string := reconciliation_key ("quarantine:" +:+ row).

Definition quarantine_identity (row snapshot : string) : EffectIdentity :=
  reconciliation_identity "quarantine" (dumps (JObj [("row_id", JStr row); ("snapshot_id", JStr snapshot)])).

Definition quarantine_observation (snapshot : string) (now : Z) : json := JObj [("snapshot_id", JStr snapshot); ("observed_at", JInt now)].

Definition quarantine_elapsed (row snapshot : string) (now : Z) : Prog X bool :=
  s ← at_authority get;
  match dict_get (quarantine_key row) (latest_locked s) ≫= observation with
  | Some (JObj ((_ :: _) as obs)) =>
      seen ← try (item "snapshot_id" obs);
      if py_eqb (JStr snapshot) seen then mret false
      else
        at_ ← try (item "observed_at" obs);
        at_ ← try (py_int at_);
        mret (QUARANTINE_US <=? now - at_)
  | _ =>
      reservation ← at_authority (reserve faults redact boot
        (plain_request (quarantine_key row) (quarantine_identity row snapshot) RECONCILIATION_CAPACITY SHARED RECORD));
      started ← at_authority (start reservation);
      at_authority (commit faults redact started (quarantine_observation snapshot now));;
      mret false
  end.

Definition action_subject (snapshot join_ action : string) : string :=
  dumps (JObj [("snapshot_id", JStr snapshot); ("join_digest", JStr join_); ("action", JStr action)]).

(** [_settled_cleanup]. *)
Definition settled_cleanup (lease : LeaseGrant) (snapshot : string) : Prog X unit :=
  settled ← cleanup lease snapshot;
  if settled : bool then mret tt else fail (RuntimeError "fixed cleanup did not settle").

(** [_execute_cleanup]. *)
Definition cleanup_key (action : string) : string := reconciliation_key ("cleanup:" +:+ action).

Definition execute_cleanup (snapshot join_ action : string) (lease : LeaseGrant) : Prog X bool :=
  except
    (execute_with (cleanup_key action) (reconciliation_identity "cleanup" (action_subject snapshot join_ action)) RECONCILIATION_CAPACITY RECORD
       (settled_cleanup lease snapshot;; mret (JObj [("action", JStr action); ("result", JStr "settled")]));;
     mret true)
    (fun _ => mret false).

(** [_execute_finalize]. *)
Definition archive_key (lease : LeaseGrant) (snapshot : string) : string :=
  reconciliation_key ("archive:" +:+ li_run_id (lg_identity lease) +:+ ":" +:+ str_int (li_lease_seq (lg_identity lease)) +:+ ":" +:+ snapshot).

Definition execute_finalize (f : LeaseGrant -> string -> Prog X unit) (snapshot join_ action : string) (lease : LeaseGrant) : Prog X bool :=
  except
    (execute_with (archive_key lease snapshot) (reconciliation_identity "archive" (action_subject snapshot join_ action)) RECONCILIATION_CAPACITY RECORD
       (f lease snapshot;; mret (JObj [("action", JStr action); ("result", JStr "closed")]));;
     mret true)
    (fun _ => mret false).

(** [_commit_completion] and [_commit_decision]. *)
Definition completion_subject (snapshot join_ : string) (o : BootOwnership) : string :=
  dumps (JObj [("snapshot_id", JStr snapshot); ("join_digest", JStr join_); ("ownership", ownership_document o)]).

Definition completion_observation (actions : list string) : fields :=
  [("admission", JStr (admission_value ADMISSION_OPEN)); ("actions", JList (JStr <$> actions))].

Definition commit_completion (k snapshot join_ : string) (actions : list string) (o : BootOwnership) : Prog X json :=
  record_with k (reconciliation_identity "complete" (completion_subject snapshot join_ o)) (JObj (completion_observation actions)).

Definition decision_key (id_ : string) : string := reconciliation_key (id_ +:+ ":decision").

Definition commit_decision (r : ReconciliationResult) : Prog X json :=
  record_with (decision_key (reconciliation_id r))
    (reconciliation_identity "decision" (dumps (JObj [("snapshot_id", JStr (rr_snapshot_id r)); ("join_digest", JStr (rr_join_digest r))])))
    (JObj (result_document r)).

(** [_join_document]. *)
Definition lease_tuple (g : LeaseGrant) : Z * (string * (string * (string * string))) :=
  (li_lease_seq (lg_identity g), (lg_row_id g, (lg_generation_id g, (phase_value (lg_phase g), verdict_value (lg_verdict g))))).

Definition tuple_json (t : Z * (string * (string * (string * string)))) : json :=
  let '(seq_, (row, (generation, (phase, verdict)))) := t in JList [JInt seq_; JStr row; JStr generation; JStr phase; JStr verdict].

Definition join_document (ledger : Ledger.LedgerResult) (leases : list LeaseGrant) (gens : list GenerationState) (o : BootOwnership) : json := JObj [
  ("run_id", JStr run_id);
  ("board_id", JStr board_id);
  ("ledger_identity_digest", JStr (Ledger.ld_identity_digest ledger));
  ("ledger_outcome", JStr (Ledger.ld_outcome ledger));
  ("owned_rows", JList (JStr <$> sort_by id (Ledger.lr_row_id <$> Ledger.ld_owned ledger)));
  ("foreign_rows", JList (JStr <$> sort_by id (Ledger.lr_row_id <$> Ledger.ld_foreign ledger)));
  ("leases", JList (tuple_json <$> sort_by id (lease_tuple <$> leases)));
  ("generations", JList (state_document <$> sort_by generation_id gens));
  ("ownership", ownership_document o)].

Definition project_join (ledger : Ledger.LedgerResult) (leases : list LeaseGrant) (gens : list GenerationState) (o : BootOwnership) : string :=
  digest (join_document ledger leases gens o).

(** What one Lease leaves: claims that stay unsettled, and the action taken. *)
Definition lease_name (g : LeaseGrant) : string := "lease:" +:+ str_int (li_lease_seq (lg_identity g)).

Definition terminate_action (g : LeaseGrant) : string := "terminate:" +:+ lg_row_id g.
Definition finalize_action (g : LeaseGrant) : string := "finalize:" +:+ lg_row_id g.

Definition settle_lease (ledger : Ledger.LedgerResult) (active_ids : list string) (snapshot join_ : string) (g : LeaseGrant) (now : Z) :
    Prog X (list string * list string) :=
  if negb (lease_open g) then mret ([], [])
  else if negb (bool_decide (lg_row_id g ∈ Ledger.lr_row_id <$> Ledger.ld_owned ledger)) then
    let action := finalize_action g in
    match finalize with
    | Some f =>
        if negb (bool_decide (Ledger.ld_outcome ledger = Ledger.EMPTY)) then mret ([lease_name g +:+ ":row-unsettled"], [])
        else
          elapsed ← quarantine_elapsed (lg_row_id g) snapshot now;
          if negb elapsed then mret ([action +:+ ":quarantine"], [])
          else
            done_ ← execute_finalize f snapshot join_ action g;
            mret (if done_ : bool then ([], [action]) else ([action +:+ ":outcome-ambiguous"], []))
    | None => mret ([lease_name g +:+ ":row-unsettled"], [])
    end
  else if bool_decide (lg_phase g = RECOVERABLE) && bool_decide (lg_generation_id g ∈ active_ids) then
    mret ([lease_name g +:+ ":effect-ambiguous"], [])
  else if negb (bool_decide (lg_generation_id g ∈ active_ids)) then
    let action := terminate_action g in
    elapsed ← quarantine_elapsed (lg_row_id g) snapshot now;
    if negb elapsed then mret ([action +:+ ":quarantine"], [])
    else
      done_ ← execute_cleanup snapshot join_ action g;
      mret (if done_ : bool then ([], [action]) else ([action +:+ ":outcome-ambiguous"], []))
  else mret ([], []).

Fixpoint settle_leases (ledger : Ledger.LedgerResult) (active_ids : list string) (snapshot join_ : string) (leases : list (LeaseGrant * Z)) :
    Prog X (list string * list string) :=
  match leases with
  | [] => mret ([], [])
  | (g, now) :: rest =>
      one ← settle_lease ledger active_ids snapshot join_ g now;
      others ← settle_leases ledger active_ids snapshot join_ rest;
      mret ((one : list string * list string).1 ++ (others : list string * list string).1, one.2 ++ others.2)
  end.

(** The rows of ours no open Lease names. *)
Definition unattributed (ledger : Ledger.LedgerResult) (leases : list LeaseGrant) : list string :=
  let leased := lg_row_id <$> List.filter lease_open leases in
  (fun row => "row:" +:+ Ledger.lr_row_id row +:+ ":unattributed")
    <$> List.filter (fun row => negb (bool_decide (Ledger.lr_row_id row ∈ leased))) (Ledger.ld_owned ledger).

(** What is unsettled, and the actions taken. *)
Definition settle (ledger : Ledger.LedgerResult) (leases : list (LeaseGrant * Z)) (gens : list GenerationState) (o : BootOwnership)
    (snapshot join_ : string) : Prog X (list string * list string) :=
  if one_of (Ledger.ld_outcome ledger) [Ledger.UNSETTLED; Ledger.ABSENT; Ledger.NOT_OURS]
  then mret (["ledger:" +:+ or_text (Ledger.ld_reason ledger) (Ledger.ld_outcome ledger)], [])
  else if negb (proved o) then mret (["predecessor-or-attempt-ownership-unproved"], [])
  else
    let active_ids := generation_id <$> List.filter active gens in
    each ← settle_leases ledger active_ids snapshot join_ leases;
    mret ((if bool_decide (active_ids = []) then [] else ["live-predecessor-generation"]) ++ (each : list string * list string).1
          ++ unattributed ledger leases.*1, each.2).

Definition completion_key (id_ : string) : string := reconciliation_key (id_ +:+ ":complete").

Definition reconcile (boot_id cycle : string) (ledger : Ledger.LedgerResult) (leases : list (LeaseGrant * Z)) (gens : list GenerationState)
    (o : BootOwnership) : Prog X ReconciliationResult :=
  document ← try (Ledger.receipt_document run_id ledger);
  snapshot ← record_snapshot boot_id cycle document;
  let join_ := project_join ledger leases.*1 gens o in
  found ← settle ledger leases gens o snapshot join_;
  let '(unsettled, actions) := (found : list string * list string) in
  let result verdict unsettled_ key_ := {|
    rr_boot_id := boot_id; rr_snapshot_id := snapshot; rr_join_digest := join_; rr_actions := actions; rr_unsettled := unsettled_;
    rr_verdict := verdict; rr_completion_key := key_; rr_ownership := o; rr_cycle_id := cycle |} in
  r ← (if negb (bool_decide (unsettled = [])) then mret (result ADMISSION_CLOSED (sort_by id unsettled) "")
       else
         let key_ := completion_key (or_text cycle boot_id) in
         except (commit_completion key_ snapshot join_ actions o;; mret (result ADMISSION_OPEN [] key_))
           (fun _ => mret (result ADMISSION_CLOSED ["reconciliation-complete:outcome-ambiguous"] "")));
  commit_decision r;;
  mret r.

(** [probation]: a committed open decision about this join, with its completion. *)
Definition is_decision (cycle : option string) (r : WriteReservation) : bool :=
  bool_decide (operation (identity r) = "instance-reconciliation.decision") && bool_decide (state r = COMMITTED)
  && match cycle with Some c => bool_decide (key r = decision_key c) | None => true end.

Definition passes (latest : list (string * WriteReservation)) (join_ : string) (boot_id : option string) (decision : WriteReservation) : bool :=
  match observation decision with
  | Some (JObj document) =>
      py_eqb (get_or "join_digest" JNull document) (JStr join_)
      && match boot_id with Some b => py_eqb (get_or "boot_id" JNull document) (JStr b) | None => true end
      && py_eqb (get_or "admission" JNull document) (JStr (admission_value ADMISSION_OPEN))
      && match get_or "completion_key" JNull document with
         | JStr k =>
             negb (bool_decide (k = ""))
             && match dict_get k latest with
                | Some c =>
                    bool_decide (state c = COMMITTED) && bool_decide (operation (identity c) = "instance-reconciliation.complete")
                    && match loads (subject (identity c)) with
                       | Some (JObj s) =>
                           py_eqb (get_or "snapshot_id" JNull s) (get_or "snapshot_id" JNull document)
                           && py_eqb (get_or "join_digest" JNull s) (JStr join_)
                           && match observation c with
                              | Some obs => py_eqb obs (JObj [("admission", JStr (admission_value ADMISSION_OPEN));
                                                             ("actions", get_or "actions" (JList []) document)])
                              | None => false
                              end
                       | _ => false
                       end
                | None => false
                end
         | _ => false
         end
  | _ => false
  end.

Definition probation (join_ : string) (boot_id cycle : option string) : Prog X ProbationOutcome :=
  s ← at_authority get;
  let latest := latest_locked s in
  mret (if py_any (passes latest join_ boot_id) (List.filter (is_decision cycle) (dict_values latest))
        then PROBATION_PASSED else PROBATION_UNSETTLED).
End hosted.

(** ** The writers of the Runs' directories *)

(** [_HELD_WRITERS], the registry of this process, and the directories whose writer lock another process has. *)
Record Writers : Type := { wr_held : list string; wr_elsewhere : list string }.

(** [AuthorityStorage.acquire_writer]. *)
Definition acquire_writer (run : string) (ws : Writers) : result Writers :=
  raise_if (bool_decide (run ∈ wr_held ws)) (ReservationConflict "this Run already has a live canonical writer");;
  raise_if (bool_decide (run ∈ wr_elsewhere ws)) (ReservationConflict "this Run already has a live canonical writer");;
  Ok {| wr_held := run :: wr_held ws; wr_elsewhere := wr_elsewhere ws |}.

(** [AuthorityStorage.release_writer]. *)
Definition release_writer (run : string) (ws : Writers) : Writers :=
  if negb (bool_decide (run ∈ wr_held ws)) then ws
  else {| wr_held := List.filter (fun held => negb (bool_decide (held = run))) (wr_held ws); wr_elsewhere := wr_elsewhere ws |}.

(** ** The archive of earlier Runs, and the wiring of a Boot *)

Section boot.
Context `{Digester} (faults : Faults) (redact : string -> string) (boot : string) (proof : list (string * json)).
Context {F : Type} (run_id board_id owner_id : string).

(** The Run's directory with its coordinator over the write authority there, the write authorities of the
    other Runs by their directories, and who writes where. *)
Record BootWorld : Type := {
  bw_run : string;
  bw_lease : LeaseWorld (F := F);
  bw_archives : list (string * World);
  bw_writers : Writers
}.

#[export] Instance boot_host : Host BootWorld := {|
  authority x := lw_authority (bw_lease x);
  set_authority a x := {|
    bw_run := bw_run x; bw_lease := {| lw_authority := a; lw_fence := lw_fence (bw_lease x); lw_coordinator := lw_coordinator (bw_lease x) |};
    bw_archives := bw_archives x; bw_writers := bw_writers x |};
  authority_set _ _ := eq_refl |}.

(** [replay_leases_across_runs]. *)
Definition run_leases (run : string) (a : World) : result (list LeaseGrant) :=
  replay_leases (dict_values (latest_locked (disk a))) run board_id.

Fixpoint archived_leases (runs : list (string * World)) : result (list LeaseGrant) :=
  match runs with
  | [] => Ok []
  | (run, a) :: rest => here ← run_leases run a; more ← archived_leases rest; Ok (here ++ more)
  end.

Definition replay_leases_across_runs (x : BootWorld) : result (list LeaseGrant) :=
  all ← archived_leases (sort_by fst ((bw_run x, lw_authority (bw_lease x)) :: bw_archives x));
  Ok (sort_by (fun g => (li_run_id (lg_identity g), li_lease_seq (lg_identity g))) all).

(** The authority storage of a directory. *)
Definition storage_of (run : string) (x : BootWorld) : option World :=
  if bool_decide (run = bw_run x) then Some (lw_authority (bw_lease x)) else dict_get run (bw_archives x).

Definition with_storage (run : string) (a : World) (x : BootWorld) : BootWorld :=
  if bool_decide (run = bw_run x) then set_authority a x
  else {| bw_run := bw_run x; bw_lease := bw_lease x; bw_archives := dict_set run a (bw_archives x); bw_writers := bw_writers x |}.

Definition with_writers (ws : Writers) (x : BootWorld) : BootWorld :=
  {| bw_run := bw_run x; bw_lease := bw_lease x; bw_archives := bw_archives x; bw_writers := ws |}.

(** A program over the storage of a directory, whose profile the caller reads first. *)
Definition in_storage {A} (run : string) (m : M A) : Prog BootWorld A := fun x =>
  match storage_of run x with
  | None => (x, Raised (OSError "profile.json"))
  | Some a => let '(a', o) := m a in (with_storage run a' x, o)
  end.

Definition take_writer (run : string) : Prog BootWorld unit := fun x =>
  match acquire_writer run (bw_writers x) with Ok ws => (with_writers ws x, Done tt) | Err e => (x, Raised e) end.

(** [WriteAuthority.close]. *)
Definition close_authority (run : string) (x : BootWorld) : BootWorld := with_writers (release_writer run (bw_writers x)) x.

(** [except BaseException: self.close(); raise], which lost power is not, and [finally: authority.close()]. *)
Definition close_if_raised {A} (run : string) (m : Prog BootWorld A) : Prog BootWorld A := fun x =>
  match m x with (x', Raised e) => (close_authority run x', Raised e) | r => r end.

Definition close_after {A} (run : string) (m : Prog BootWorld A) : Prog BootWorld A := fun x =>
  match m x with (x', Crashed) => (x', Crashed) | (x', o) => (close_authority run x', o) end.

(** [WriteAuthority( ... )]: the writer of the directory is acquired, earlier boots are reconciled and receipts
    rewritten; if that raises the writer is given back.  [boot_id] is the identity the new authority draws. *)
Definition new_authority (boot_id run : string) : Prog BootWorld unit :=
  in_storage run get;;
  take_writer run;;
  close_if_raised run (in_storage run (open_authority faults boot_id proof)).

(** [persist_reconciled_close] and its parts. *)
Definition closed_grant (g : LeaseGrant) : LeaseGrant := with_outcome LEASE_CLOSED (lg_verdict g) TERMINATED g.

Definition archive_identity (g : LeaseGrant) (snapshot : string) : EffectIdentity := {|
  operation := "lease.release"; subject := dumps (JObj (dict_set "snapshot_id" (JStr snapshot) (grant_document g))); payload_digest := "" |}.

Definition archive_close_key (g : LeaseGrant) (snapshot : string) : string :=
  lg_operation_key g +:+ ":reconciled:" +:+ snapshot +:+ ":close".

Definition already_closed (g : LeaseGrant) (replayed : list LeaseGrant) : option LeaseGrant :=
  py_next (fun h => bool_decide (lg_identity h = lg_identity g) && negb (lease_open h)) replayed.

Definition persist_in (boot_id : string) (g : LeaseGrant) (snapshot : string) : M LeaseGrant :=
  s ← get;
  replayed ← lift (replay_leases (dict_values (latest_locked s)) (li_run_id (lg_identity g)) (lg_board_id g));
  match already_closed g replayed with
  | Some existing => mret existing
  | None =>
      execute faults id boot_id proof (archive_close_key g snapshot) (archive_identity g snapshot) (capacity 2048 1 3) RECORD
        {| eff_result := Ok (JObj (grant_document (closed_grant g))); eff_indeterminate := fun _ => []; eff_observe := None |} [] [];;
      mret (closed_grant g)
  end.

(** The authority opened for it draws the identity [boot_id] and is closed however it ends, lost power apart. *)
Definition persist_reconciled_close (boot_id : string) (g : LeaseGrant) (snapshot : string) : Prog BootWorld LeaseGrant :=
  let run := li_run_id (lg_identity g) in
  new_authority boot_id run;;
  close_after run (in_storage run (persist_in boot_id g snapshot)).

(** A call of the coordinator. *)
Definition by_coordinator {A} (m : Prog (LeaseWorld (F := F)) A) : Prog BootWorld A := fun x =>
  let '(l, o) := m (bw_lease x) in
  ({| bw_run := bw_run x; bw_lease := l; bw_archives := bw_archives x; bw_writers := bw_writers x |}, o).

(** The identity a new authority draws for the archive of a Lease under a snapshot ([uuid.uuid4]). *)
Context (drawn : LeaseGrant -> string -> string).

(** [_reconcile_lease_cleanup] of [src/solver/__main__.py]; [out] is what the Board answers if it is asked. *)
Definition reconcile_lease_cleanup (out : Outside) (g : LeaseGrant) (snapshot : string) : Prog BootWorld bool :=
  result ← by_coordinator (reconcile_grant_release faults redact boot proof run_id board_id owner_id g snapshot out);
  result ← (if negb (bool_decide (li_run_id (lg_identity g) = run_id)) then persist_reconciled_close (drawn g snapshot) result snapshot else mret result);
  mret (negb (lease_open result)).

(** The reconciler a Boot composes. *)
Definition boot_reconcile (out : LeaseGrant -> Outside) (boot_id cycle : string) (ledger : Ledger.LedgerResult) (leases : list (LeaseGrant * Z))
    (gens : list GenerationState) (o : BootOwnership) : Prog BootWorld ReconciliationResult :=
  reconcile faults redact boot proof run_id board_id (fun g => reconcile_lease_cleanup (out g) g)
    (Some (fun g snapshot => persist_reconciled_close (drawn g snapshot) g snapshot;; mret tt)) boot_id cycle ledger leases gens o.

(** [_owned_instance_row]: the corroboration of a deployed row by a reading of the ledger. *)
Definition owned_instance_row (ledger : Ledger.LedgerResult) (challenge : json) : result RowCorroboration :=
  let of_challenge := List.filter (fun row => py_eqb (Ledger.lr_challenge_id row) challenge) in
  match of_challenge (Ledger.ld_owned ledger) with
  | [row] => RowCorroboration_new VERDICT_NONE (Ledger.lr_row_id row)
  | _ => RowCorroboration_new (if bool_decide (of_challenge (Ledger.ld_foreign ledger) = []) then UNCORROBORATED_ROW else FOREIGN_ROW) ""
  end.
End boot.

(** [_boot_ownership]: what the event log proves of earlier boots and their Attempts. *)
Definition is_record (name : string) (e : EventStore.CommittedEvent) : bool := py_eqb (get_or "record" JNull (EventStore.payload e)) (JStr name).
Definition payload_text (name : string) (e : EventStore.CommittedEvent) : string := py_str (get_or name JNull (EventStore.payload e)).
Definition of_boot (boot_id : string) (e : EventStore.CommittedEvent) : bool := py_eqb (get_or "boot_id" JNull (EventStore.payload e)) (JStr boot_id).

Definition event_ids (closed : list (string * EventStore.CommittedEvent)) (names : list string) : result (list string) :=
  mapM (fun n => match dict_get n closed with
    | Some e => v ← item "event_id" (EventStore.payload e); Ok (py_str v)
    | None => Err (KeyError n)
    end) names.

Definition boot_ownership (events : list EventStore.CommittedEvent) (boot_id : string) (gens : list GenerationState) : result BootOwnership :=
  let boot_opens := List.filter (fun e => is_record "boot-open" e && of_boot boot_id e) events in
  let prior := remove_dups (payload_text "boot_id" <$> List.filter (fun e => is_record "boot-open" e && negb (of_boot boot_id e)) events) in
  let closed_boots := dict_of (payload_text "boot_id") (List.filter (is_record "boot-close") events) in
  let all_closed := py_all (fun b => dict_has b closed_boots) prior in
  predecessors ← (if (py_len boot_opens =? 1) && all_closed then event_ids closed_boots (sort_by id prior) else Ok []);
  let attempt_closes := dict_of (payload_text "attempt_id") (List.filter (is_record "attempt-close") events) in
  let opened := payload_text "attempt_id" <$> List.filter (is_record "attempt-open") events in
  interrupted ← event_ids attempt_closes (attempt_id <$>
    List.filter (fun g => bool_decide (disposition g = Some INTERRUPT) && dict_has (attempt_id g) attempt_closes) gens);
  let attempts_closed := py_all (fun g => negb (active g)
    && (negb (bool_decide (attempt_id g ∈ opened)) || dict_has (attempt_id g) attempt_closes)) gens in
  Ok {| bo_predecessor_close_event_ids := predecessors; bo_interrupted_attempt_close_event_ids := interrupted;
        bo_interrupted_attempts_closed := (py_len boot_opens =? 1) && attempts_closed; bo_predecessors_closed := all_closed |}.
