(* ===== verification/ReconciliationFacts.v ===== *)
(** What an open Boot barrier says, and what stands in its way. *)

From S2P Require Import Prelude Canon Text PyJson JsonText Moment EventStore EventContracts Reservation ReservationLogic ReservationFacts WorkGeneration Lease LeaseLedger LeaseEffects InstanceLedger LedgerFacts Reconciliation.
Local Open Scope Z_scope.

(** ** Growth under one key *)

Definition grown (k : string) (rs rs' : list Row) : Prop :=
  wf_rows rs' /\ exists l, rs' = rs ++ l /\ Forall (fun row => key (written row) = k) l.

Lemma grown_refl k rs : wf_rows rs -> grown k rs rs.
Proof. intros Hwf. split; [done|]. exists []. by rewrite app_nil_r. Qed.

Lemma grown_trans k rs1 rs2 rs3 : grown k rs1 rs2 -> grown k rs2 rs3 -> grown k rs1 rs3.
Proof.
  intros (_ & l1 & -> & H1) (Hwf & l2 & -> & H2). split; [done|]. exists (l1 ++ l2). rewrite app_assoc. split; [done|]. by apply Forall_app.
Qed.

Lemma grown_snoc k rs rs' n r :
  grown k rs rs' -> key r = k -> wf_rows (rs' ++ [{| ordinal := n; written := r |}]) -> grown k rs (rs' ++ [{| ordinal := n; written := r |}]).
Proof. intros Hg Hk Hwf. eapply grown_trans; [exact Hg|]. split; [done|]. eexists. split; [done|]. by apply Forall_singleton. Qed.

Lemma grown_status k k' rs rs' : grown k rs rs' -> k' <> k -> status k' rs' = status k' rs.
Proof.
  intros (_ & l & -> & Hl) Hk. induction l as [|row l IH] using rev_ind; [by rewrite app_nil_r|].
  apply Forall_app in Hl as [Hl Hrow]. rewrite Forall_singleton in Hrow. rewrite app_assoc, status_snoc. rewrite bool_decide_false by congruence. by apply IH.
Qed.

(** Programs of the authority that append records of one key. *)
Definition only_key (k : string) {A} (m : M A) : Prop := forall rs es, wf_rows rs ->
  runs rs es m (fun _ rs' _ => grown k rs rs') (fun rs' _ => grown k rs rs').

Lemma only_quiet k {A} (m : M A) : quiet m -> only_key k m.
Proof. intros Hm rs es Hwf. apply runs_quiet; [done|intros _|]; by apply grown_refl. Qed.

Lemma only_bind k {A B} (m : M A) (f : A -> M B) : only_key k m -> (forall a, only_key k (f a)) -> only_key k (m ≫= f).
Proof.
  intros Hm Hf rs es Hwf. apply runs_bind. eapply runs_weaken; [by apply Hm| |done]. cbn. intros a rs1 es1 Hg1.
  eapply runs_weaken; [apply Hf, Hg1| |]; cbn; intros; by eapply grown_trans.
Qed.

Lemma only_catch k {A} (m : M A) h : only_key k m -> (forall e, only_key k (h e)) -> only_key k (catch m h).
Proof.
  intros Hm Hh rs es Hwf. apply runs_catch. eapply runs_weaken; [by apply Hm|done|]. cbn. intros rs1 es1 Hg1. split; [done|]. intros e.
  eapply runs_weaken; [apply Hh, Hg1| |]; cbn; intros; by eapply grown_trans.
Qed.

Lemma only_append k r lp : key r = k -> only_key k (append_locked r lp).
Proof. intros Hk rs es Hwf. apply runs_append; [done| |by apply grown_refl]. intros n rs' Hwf'. apply grown_snoc; [by apply grown_refl|done..]. Qed.

Lemma only_current k {B} k' (f : option WriteReservation -> M B) :
  only_key k (f None) -> (forall c, key c = k' -> only_key k (f (Some c))) -> only_key k (current_locked k' ≫= f).
Proof.
  intros Hn Hs rs es Hwf. apply runs_current. destruct (status k' rs) as [c|] eqn:E; [|by apply Hn]. apply Hs; [by eapply status_key|done].
Qed.

Lemma only_require k {B} r (f : WriteReservation -> M B) :
  key r = k -> (forall c, key c = k -> only_key k (f c)) -> only_key k (require_current r ≫= f).
Proof.
  intros Hk Hf rs es Hwf. apply runs_require; [by apply grown_refl|]. intros c Hs _. apply Hf; [|done]. rewrite <-Hk. by eapply status_key.
Qed.

Section only.
Context `{Digester} (faults : Faults) (redact : string -> string) (boot : string) (proof : list (string * json)).

Lemma only_admit rq : only_key (rq_key rq) (admit_request faults redact boot rq).
Proof.
  unfold admit_request. apply only_bind; [by apply only_quiet; auto with quiet|]. intros headroom.
  apply only_bind; [by apply only_quiet; auto with quiet|]. intros names. apply only_bind; [by apply only_quiet; solve_quiet|]. intros [|].
  - apply only_bind; [|intros; by apply only_quiet; auto with quiet]. unfold record_refusal.
    apply only_bind; [by apply only_quiet; auto with quiet|]. intros s. destruct (_ <? 1); [by apply only_quiet; solve_quiet|]. by apply only_append.
  - apply only_bind; [by apply only_quiet; auto with quiet|]. intros left. apply only_bind; [by apply only_append|]. intros _.
    apply only_bind; [|intros; apply only_quiet; solve_quiet]. apply only_catch; [apply only_quiet; auto with quiet|]. intros e.
    apply only_bind; [by apply only_append|]. intros _. apply only_quiet. solve_quiet.
Qed.

Lemma only_reserve rq : only_key (rq_key rq) (reserve faults redact boot rq).
Proof.
  unfold reserve. destruct (_ || _); [apply only_quiet; solve_quiet|]. apply only_current; [apply only_admit|]. intros c Hc.
  apply only_bind; [apply only_quiet; unfold assert_same_effect; solve_quiet|]. intros _. destruct (retryable rq c); [apply only_admit|].
  apply only_quiet. solve_quiet.
Qed.

Lemma only_claim r : only_key (key r) (claim_start r).
Proof.
  unfold claim_start. apply only_require; [done|]. intros c Hc. case_bool_decide; [|apply only_quiet; solve_quiet].
  apply only_bind; [by apply only_append|]. intros _. apply only_quiet. solve_quiet.
Qed.

Lemma only_finish r s obs : only_key (key r) (finish faults redact r s obs).
Proof.
  unfold finish. apply only_require; [done|]. intros c Hc. destruct (is_final (state c)); [apply only_quiet; solve_quiet|].
  destruct (negb _); [apply only_quiet; solve_quiet|]. apply only_bind; [by apply only_append|]. intros _. apply only_quiet. solve_quiet.
Qed.

Lemma only_returns k {A B} (m : M A) (P : A -> Prop) (f : A -> M B) :
  only_key k m -> returns m P -> (forall a, P a -> only_key k (f a)) -> only_key k (m ≫= f).
Proof.
  intros Hm HP Hf rs es Hwf. apply runs_bind. eapply runs_weaken; [apply runs_returns; [by apply Hm|exact HP]| |done]. cbn.
  intros a rs1 es1 [Hg1 Ha]. eapply runs_weaken; [apply Hf; [done|apply Hg1]| |]; cbn; intros; by eapply grown_trans.
Qed.

Lemma returns_claim r : returns (claim_start r) (fun a => key a.1 = key r).
Proof.
  intros w w' a Ha.
  assert (Hr : runs (rows_locked (disk w)) (effects w) (claim_start r) (fun a _ _ => key a.1 = key r) (fun _ _ => True)).
  { unfold claim_start. apply runs_require; [done|]. intros c Hs%status_key _. case_bool_decide; [|by apply runs_ret].
    apply runs_bind. intros w1 _ _. destruct (append_locked _ _ w1) as [w2 [[]| |]]; [|done..]. by apply runs_ret. }
  specialize (Hr w eq_refl eq_refl). by rewrite Ha in Hr.
Qed.

Lemma only_execute k i n ret eff : only_key k (execute faults redact boot proof k i n ret eff [] []).
Proof.
  unfold execute. eapply only_returns; [apply (only_reserve (plain_request k i n SHARED ret))|apply returns_reserve|]. cbn. intros r Hr.
  case_bool_decide; [apply only_quiet; unfold receipt_if_required; solve_quiet|].
  eapply (only_returns _ _ (fun r' => key r' = k)).
  { case_bool_decide; apply only_quiet; [|solve_quiet]. cbn. destruct (is_open _); solve_quiet. }
  { case_bool_decide; [|intros w w' a [= _ <-]; done]. cbn. destruct (is_open _); by intros w w' a [= _ <-]. }
  intros r' Hr'. case_bool_decide; [apply only_quiet; unfold receipt_if_required; solve_quiet|].
  destruct (negb _); [apply only_quiet; solve_quiet|]. eapply only_returns; [rewrite <-Hr'; apply only_claim|apply returns_claim|].
  intros [started []] Hs; cbn in Hs |- *; rewrite Hr' in Hs.
  - eapply only_bind; [|intros c; apply only_quiet; unfold receipt_if_required; destruct (eff_observe eff) as [[]|]; solve_quiet].
    apply only_catch.
    + apply only_bind; [intros rs es Hwf; apply runs_effect; by apply grown_refl|]. intros _. apply only_bind; [apply only_quiet; solve_quiet|].
      intros obs. rewrite <-Hs. apply only_finish.
    + intros e. apply only_bind; [apply only_quiet; auto with quiet|]. intros found. apply only_bind; [|intros; apply only_quiet; solve_quiet].
      destruct found as [c|]; [|apply only_quiet; solve_quiet]. case_bool_decide; [|apply only_quiet; solve_quiet].
      apply only_bind; [rewrite <-Hs; apply only_finish|]. intros sent. destruct (requires_receipt _); [|apply only_quiet; solve_quiet].
      apply only_catch; [apply only_quiet; auto with quiet|]. intros e'. apply only_quiet. solve_quiet.
  - apply only_quiet. destruct (is_open _); solve_quiet.
Qed.

(** [r] is what the ledger says of its key. *)
Definition stands (r : WriteReservation) (rs : list Row) : Prop :=
  exists c, status (key r) rs = Some c /\ state c = state r /\ effect_fingerprint c = effect_fingerprint r.

Lemma stands_snoc rs n r : stands r (rs ++ [{| ordinal := n; written := r |}]).
Proof. exists (norm r). rewrite status_snoc, bool_decide_true by done. done. Qed.

Lemma runs_reserve_at k i n ret rs es :
  wf_rows rs ->
  runs rs es (reserve faults redact boot (plain_request k i n SHARED ret)) (fun r rs' _ => grown k rs rs' /\ key r = k /\ stands r rs' /\ (status k rs = None -> state r = RESERVED))
    (fun rs' _ => grown k rs rs').
Proof.
  intros Hwf. assert (Hg : grown k rs rs) by by apply grown_refl. unfold reserve. cbn [rq_key rq_need rq_identity rq_retention plain_request].
  destruct (_ || _); [by apply runs_raise|]. apply runs_current. destruct (status k rs) as [c|] eqn:Es.
  - pose proof (status_key _ _ _ Es) as Hc. apply runs_bind. unfold assert_same_effect. case_bool_decide; [|by apply runs_raise]. apply runs_ret.
    change (retryable _ c) with false. cbv iota. destruct (_ && _); [by apply runs_raise|]. apply runs_ret. split; [done|]. split; [done|]. split; [|done].
    exists c. by rewrite Hc.
  - unfold admit_request. apply runs_quiet_bind; [auto with quiet|done|]. intros headroom.
    apply runs_quiet_bind; [auto with quiet|done|]. intros names. apply runs_quiet_bind; [solve_quiet|done|]. intros [|].
    + apply runs_bind. unfold record_refusal. apply runs_quiet_bind; [auto with quiet|done|]. intros s.
      destruct (_ <? 1); [by apply runs_ret, runs_raise|]. apply runs_append; [done| |done]. intros m rs' Hwf'. by apply runs_raise, grown_snoc.
    + apply runs_quiet_bind; [auto with quiet|done|]. intros left. apply runs_bind, runs_append; [done| |done]. intros m rs' Hwf'.
      assert (Hg' : grown k rs rs') by by apply grown_snoc. apply runs_bind, runs_catch, runs_quiet; [auto with quiet| |].
      * intros _. apply runs_ret. split; [done|]. split; [done|]. split; [apply stands_snoc|done].
      * split; [done|]. intros e. apply runs_bind, runs_append; [done| |done]. intros m' rs'' Hwf''.
        assert (Hg'' : grown k rs rs'') by by apply grown_snoc. apply runs_quiet_bind; [auto with quiet|done|]. intros _. by apply runs_raise.
Qed.

Lemma runs_claim_at r rs es :
  wf_rows rs ->
  runs rs es (claim_start r)
    (fun a rs' _ => grown (key r) rs rs' /\ key a.1 = key r /\ stands a.1 rs' /\ (a.2 = true -> state a.1 = STARTED)
       /\ (stands r rs -> state r = RESERVED -> a.2 = true))
    (fun rs' _ => grown (key r) rs rs').
Proof.
  intros Hwf. assert (Hg : grown (key r) rs rs) by by apply grown_refl. unfold claim_start. apply runs_require; [done|]. intros c Hs Hf.
  pose proof (status_key _ _ _ Hs) as Hc. case_bool_decide.
  - apply runs_bind, runs_append; [done| |done]. intros n rs' Hwf'. apply runs_ret. split; [by apply grown_snoc|]. split; [done|].
    split; [apply stands_snoc|done].
  - apply runs_ret. split; [done|]. split; [done|]. split; [|split; [done|]].
    + exists c. cbn. by rewrite Hc.
    + intros (c' & Hs' & Hst & _) Hr. rewrite Hs in Hs'. injection Hs' as <-. congruence.
Qed.

(** The ledger has a record that commits [k]. *)
Definition committed (k : string) (rs : list Row) : Prop := exists row, row ∈ rs /\ key (written row) = k /\ state (written row) = COMMITTED.

Lemma latest_row k rs c : status k rs = Some c -> exists row, row ∈ rs /\ key (written row) = k /\ c = norm (written row).
Proof.
  induction rs as [|row rs IH] using rev_ind; [done|]. rewrite status_snoc. case_bool_decide as E.
  - intros [= <-]. exists row. split; [set_solver|done].
  - intros (row' & ? & ? & ?)%IH. exists row'. split; [set_solver|done].
Qed.

Lemma stands_committed r rs : stands r rs -> state r = COMMITTED -> committed (key r) rs.
Proof. intros (c & Hs & Hst & _) Hr. destruct (latest_row _ _ _ Hs) as (row & Hin & Hk & ->). exists row. split; [done|]. split; [done|]. cbn in Hst. congruence. Qed.

Lemma runs_commit_at r obs rs es :
  wf_rows rs -> stands r rs -> state r = STARTED ->
  runs rs es (commit faults redact r obs) (fun a rs' _ => grown (key r) rs rs' /\ committed (key r) rs') (fun rs' _ => grown (key r) rs rs').
Proof.
  intros Hwf (c & Hs & Hst & Hf) Hr. assert (Hg : grown (key r) rs rs) by by apply grown_refl. unfold commit, finish. apply runs_require; [done|].
  intros c' Hs' _. rewrite Hs in Hs'. injection Hs' as <-. pose proof (status_key _ _ _ Hs) as Hc. rewrite Hst, Hr. cbn [is_final].
  change (negb (bool_decide (expected COMMITTED = Some STARTED))) with false. cbv iota. apply runs_bind, runs_append; [done| |done].
  intros n rs' Hwf'. assert (Hg' : grown (key r) rs rs') by by apply grown_snoc.
  assert (Hq : committed (key r) rs'). { eexists. split; [unfold rs'; apply elem_of_app; right; by left|]. done. }
  apply runs_quiet_bind; [solve_quiet|done|]. intros _. by apply runs_ret.
Qed.
End only.

(** ** Programs of a host *)

(** What a host keeps while its authority is used. *)
Class HostOk (X : Type) `{Host X} : Type := {
  host_ok : X -> Prop;
  host_ok_set a x : host_ok x -> host_ok (set_authority a x)
}.

Section hosted.
Context `{Digester} {X : Type} {HX : Host X} {HO : HostOk X}.
Context (faults : Faults) (redact : string -> string) (boot : string) (proof : list (string * json)).

Definition rows_at (x : X) : list Row := rows_locked (disk (authority x)).

(** The ledger only grew. *)
Definition grew (rs rs' : list Row) : Prop := wf_rows rs' /\ rs `prefix_of` rs'.

Lemma grew_refl rs : wf_rows rs -> grew rs rs.
Proof. by split. Qed.

Lemma grew_trans rs1 rs2 rs3 : grew rs1 rs2 -> grew rs2 rs3 -> grew rs1 rs3.
Proof. intros [_ ?] [? ?]. split; [done|]. by etrans. Qed.

Lemma grown_grew k rs rs' : grown k rs rs' -> grew rs rs'.
Proof. intros (Hwf & l & -> & _). split; [done|]. by apply prefix_app_r. Qed.

Lemma committed_grew k rs rs' : grew rs rs' -> committed k rs -> committed k rs'.
Proof. intros [_ (l & ->)] (row & Hin & ?). exists row. split; [set_solver|done]. Qed.

(** From a host, its ledger only grew. *)
Definition kept (rs : list Row) (x : X) : Prop := grew rs (rows_at x) /\ host_ok x.

Lemma held_refl x : host_ok x -> wf_rows (rows_at x) -> kept (rows_at x) x.
Proof. intros Hok Hwf. split; [by apply grew_refl|done]. Qed.

Lemma held_trans rs1 rs2 x : grew rs1 rs2 -> kept rs2 x -> kept rs1 x.
Proof. intros Hg [Hg' Hok]. split; [by eapply grew_trans|done]. Qed.

(** From a ledger that reads [rs], [m] returns with [Q]; however it ends, the ledger only grew. *)
Definition does {A} (rs : list Row) (m : Prog X A) (Q : A -> list Row -> Prop) : Prop := forall x, host_ok x -> rows_at x = rs -> wf_rows rs ->
  kept rs (m x).1 /\ match (m x).2 with Done a => Q a (rows_at (m x).1) | _ => True end.

Lemma does_ret {A} rs (a : A) (Q : A -> list Row -> Prop) : (wf_rows rs -> Q a rs) -> does rs (mret a) Q.
Proof. intros HQ x Hok <- Hwf. split; [by apply held_refl|by apply HQ]. Qed.

Lemma does_fail {A} rs e (Q : A -> list Row -> Prop) : does rs (fail e) Q.
Proof. intros x Hok <- Hwf. split; [by apply held_refl|done]. Qed.

Lemma does_try {A} rs (r : result A) (Q : A -> list Row -> Prop) : (forall a, r = Ok a -> wf_rows rs -> Q a rs) -> does rs (try r) Q.
Proof. intros HQ x Hok <- Hwf. destruct r as [a|e]; (split; [by apply held_refl|]); [by apply HQ|done]. Qed.

Lemma does_bind {A B} rs (m : Prog X A) (f : A -> Prog X B) Q Q' :
  does rs m Q' -> (forall a rs', grew rs rs' -> Q' a rs' -> does rs' (f a) Q) -> does rs (m ≫= f) Q.
Proof.
  intros Hm Hf x Hok Hx Hwf. specialize (Hm x Hok Hx Hwf). unfold mbind, Prog_bind. destruct (m x) as [x1 [a|e|]]; cbn in Hm |- *; [|done..].
  destruct Hm as [[Hg Hok1] Ha]. destruct (Hf a _ Hg Ha x1 Hok1 eq_refl (proj1 Hg)) as [Hg' Hb]. split; [by eapply held_trans|done].
Qed.

Lemma does_weaken {A} rs (m : Prog X A) Q Q' : does rs m Q' -> (forall a rs', grew rs rs' -> Q' a rs' -> Q a rs') -> does rs m Q.
Proof.
  intros Hm HQ x Hok Hx Hwf. specialize (Hm x Hok Hx Hwf). destruct (m x) as [x1 [a|e|]]; cbn in *; [|done..]. destruct Hm as [Hk Ha].
  split; [done|apply HQ; [apply Hk|done]].
Qed.

Lemma does_except {A} rs (m : Prog X A) h Q :
  does rs m Q -> (forall e rs', grew rs rs' -> does rs' (h e) Q) -> does rs (except m h) Q.
Proof.
  intros Hm Hh x Hok Hx Hwf. specialize (Hm x Hok Hx Hwf). unfold except. destruct (m x) as [x1 [a|e|]]; cbn in Hm |- *; [done| |done].
  destruct Hm as [[Hg Hok1] _]. destruct (Hh e _ Hg x1 Hok1 eq_refl (proj1 Hg)) as [Hg' Ha]. split; [by eapply held_trans|done].
Qed.

Lemma does_at {A} rs (m : M A) (Q : A -> list Row -> Prop) :
  (forall es, wf_rows rs -> runs rs es m (fun a rs' _ => grew rs rs' /\ Q a rs') (fun rs' _ => grew rs rs')) -> does rs (at_authority m) Q.
Proof.
  intros Hm x Hok Hx Hwf. unfold kept, at_authority, rows_at in *. specialize (Hm (effects (authority x)) Hwf (authority x) Hx eq_refl).
  destruct (m (authority x)) as [a [v|e|]]; cbn in Hm |- *; rewrite authority_set; pose proof (host_ok_set a x Hok); tauto.
Qed.

Lemma does_quiet {A} rs (m : M A) (Q : A -> list Row -> Prop) : quiet m -> (forall a, wf_rows rs -> Q a rs) -> does rs (at_authority m) Q.
Proof. intros Hm HQ. apply does_at. intros es Hwf. apply runs_quiet; [done| |by apply grew_refl]. intros a. split; [by apply grew_refl|by apply HQ]. Qed.

(** An effect that lets the record of [k] be. *)
Definition spares {A} (k : string) (m : Prog X A) : Prop := forall x, host_ok x -> wf_rows (rows_at x) ->
  kept (rows_at x) (m x).1 /\ status k (rows_at (m x).1) = status k (rows_at x).

Lemma runs_grew {A} k rs es (m : M A) Q :
  runs rs es m (fun a rs' es' => grown k rs rs' /\ Q a rs') (fun rs' _ => grown k rs rs') ->
  runs rs es m (fun a rs' es' => grew rs rs' /\ Q a rs') (fun rs' _ => grew rs rs').
Proof.
  intros Hm. eapply runs_weaken; [exact Hm| |]; cbn.
  - intros a rs' _ [Hg HQ]. split; [by eapply grown_grew|done].
  - intros rs' _ Hg. by eapply grown_grew.
Qed.

(** The handler of a failed effect only lets the ledger grow. *)
Lemma does_handler {A} rs k started e (Q : A -> list Row -> Prop) :
  does rs (at_authority (
    found ← current_locked k;
    match found with
    | Some current =>
        if bool_decide (state current = STARTED) then
          sent ← possibly_sent faults redact started (exn_name e) [];
          if requires_receipt (retention sent) then
            catch (write_receipt proof k) (fun e' => if tolerated e' then mret tt else raise e')
          else mret tt
        else mret tt
    | None => mret tt
    end);; fail e) Q.
Proof.
  apply (does_bind _ _ _ _ (fun _ _ => True)); [|intros; apply does_fail]. apply does_at. intros es Hwf.
  apply runs_quiet_bind; [auto with quiet|by apply grew_refl|]. intros found.
  assert (Hq : forall m : M unit, quiet m -> runs rs es m (fun _ rs' _ => grew rs rs' /\ True) (fun rs' _ => grew rs rs')).
  { intros m Hm. apply runs_quiet; [done| |by apply grew_refl]. intros _. split; [by apply grew_refl|done]. }
  destruct found as [c|]; [|apply Hq; solve_quiet]. case_bool_decide; [|apply Hq; solve_quiet].
  apply runs_bind. eapply runs_weaken; [by apply only_finish| |]; cbn; [|intros; by eapply grown_grew].
  intros sent rs4 es4 Hg4%grown_grew. destruct (requires_receipt _).
  - apply runs_catch, runs_quiet; [auto with quiet|by intros|]. split; [done|]. intros e'. apply runs_quiet; [solve_quiet|by intros|done].
  - by apply runs_ret.
Qed.

Lemma does_execute rs k i n ret effect :
  spares k effect -> does rs (execute_with faults redact boot proof k i n ret effect) (fun _ rs' => committed k rs').
Proof.
  intros Hspare. unfold execute_with.
  apply (does_bind _ _ _ _ (fun r rs' => key r = k /\ stands r rs' /\ (status k rs = None -> state r = RESERVED)));
    [apply does_at; intros es Hwf; eapply (runs_grew k); by apply runs_reserve_at|]. intros r rs1 _ (Hk & Hst & _).
  case_bool_decide as Hc.
  { apply (does_bind _ _ _ _ (fun _ rs' => committed k rs')); [apply does_quiet; [unfold receipt_if_required; solve_quiet|]|].
    - intros _ _. rewrite <-Hk. by apply stands_committed.
    - intros [] rs2 Hg Hq. by apply does_ret. }
  destruct (negb _); [apply (does_bind _ _ _ _ (fun _ _ => True)); [by apply does_quiet; [solve_quiet|]|intros; apply does_fail]|].
  apply (does_bind _ _ _ _ (fun a rs' => key a.1 = key r /\ stands a.1 rs' /\ (a.2 = true -> state a.1 = STARTED)
      /\ (stands r rs1 -> state r = RESERVED -> a.2 = true)));
    [apply does_at; intros es Hwf; eapply (runs_grew (key r)); by apply runs_claim_at|].
  intros [started acquired] rs2 _ (Hk2 & Hst2 & Hacq & _). cbn in Hk2, Hst2, Hacq. rewrite Hk in Hk2. destruct acquired; cbn [negb]; cycle 1.
  { case_bool_decide as Hc2; [|apply does_fail]. apply does_ret. intros _. rewrite <-Hk2. by apply stands_committed. }
  specialize (Hacq eq_refl).
  apply (does_bind _ _ _ _ (fun _ rs' => committed k rs')); [apply does_except|].
  - apply (does_bind _ _ _ _ (fun _ rs' => rs' = rs2)).
    { apply does_at. intros es Hwf. apply runs_effect. split; [by apply grew_refl|done]. }
    intros [] rs3 _ ->. apply (does_bind _ _ _ _ (fun _ rs' => stands started rs')).
    { intros x Hok Hx Hwf. rewrite <-Hx in Hwf. destruct (Hspare x Hok Hwf) as [Hg Hs]. rewrite Hx in *. split; [done|].
      destruct (effect x).2; [|done..]. unfold stands. rewrite Hk2, Hs. by rewrite <-Hk2. }
    intros obs rs4 Hg4 Hst4. apply does_at. intros es Hwf. eapply runs_weaken; [by apply runs_commit_at| |]; cbn.
    + intros a rs5 _ [Hg5 Hq]. split; [by eapply grown_grew|]. by rewrite <-Hk2.
    + intros rs5 _ Hg5. by eapply grown_grew.
  - intros e rs3 _. apply does_handler.
  - cbn beta. intros c rs3 _ Hq. apply (does_bind _ _ _ _ (fun _ rs' => committed k rs')).
    + by apply does_quiet; [unfold receipt_if_required; solve_quiet|].
    + intros [] rs4 _ Hq4. by apply does_ret.
Qed.

(** ** Effects that spare a key *)

Lemma spares_mret {A} k (a : A) : spares k (mret a).
Proof. intros x Hok Hwf. split; [by apply held_refl|done]. Qed.

Lemma spares_fail {A} k e : spares (A := A) k (fail e).
Proof. intros x Hok Hwf. split; [by apply held_refl|done]. Qed.

Lemma spares_try {A} k (r : result A) : spares k (try r).
Proof. intros x Hok Hwf. destruct r; (split; [by apply held_refl|done]). Qed.

Lemma spares_then {A B} k (m : Prog X A) (f : A -> Prog X B) : spares k m -> (forall a, spares k (f a)) -> spares k (m ≫= f).
Proof.
  intros Hm Hf x Hok Hwf. destruct (Hm x Hok Hwf) as [Hg Hs]. unfold mbind, Prog_bind. destruct (m x) as [x1 [a|e|]]; cbn in *; [|done..].
  destruct Hg as [Hg Hok1]. destruct (Hf a x1 Hok1 (proj1 Hg)) as [Hg' Hs']. split; [by eapply held_trans|congruence].
Qed.

Lemma spares_except {A} k (m : Prog X A) h : spares k m -> (forall e, spares k (h e)) -> spares k (except m h).
Proof.
  intros Hm Hh x Hok Hwf. destruct (Hm x Hok Hwf) as [Hg Hs]. unfold except. destruct (m x) as [x1 [a|e|]]; cbn in *; [done| |done].
  destruct Hg as [Hg Hok1]. destruct (Hh e x1 Hok1 (proj1 Hg)) as [Hg' Hs']. split; [by eapply held_trans|congruence].
Qed.

Lemma spares_at {A} k k' (m : M A) : only_key k' m -> k <> k' -> spares k (at_authority m).
Proof.
  intros Hm Hk x Hok Hwf. unfold kept, at_authority, rows_at in *. specialize (Hm _ (effects (authority x)) Hwf (authority x) eq_refl eq_refl).
  destruct (m (authority x)) as [a [v|e|]]; cbn in *; rewrite authority_set; pose proof (host_ok_set a x Hok);
    (split; [split; [by eapply grown_grew|done]|by eapply grown_status]).
Qed.

Lemma does_spares {A} k rs (m : Prog X A) : spares k m -> does rs m (fun _ rs' => status k rs' = status k rs).
Proof. intros Hm x Hok <- Hwf. destruct (Hm x Hok Hwf) as [Hg Hs]. split; [done|]. by destruct (m x).2. Qed.

Lemma spares_quarantine k run row snapshot now :
  k <> quarantine_key run row -> spares k (quarantine_elapsed faults redact boot run row snapshot now).
Proof.
  intros Hk. unfold quarantine_elapsed. apply spares_then; [apply (spares_at k (quarantine_key run row)); [apply only_quiet; auto with quiet|done]|]. intros s.
  assert (Hwrite : spares k (
      reservation ← at_authority (reserve faults redact boot (plain_request (quarantine_key run row) (quarantine_identity row snapshot) RECONCILIATION_CAPACITY SHARED RECORD));
      started ← at_authority (start reservation);
      at_authority (commit faults redact started (quarantine_observation snapshot now));;
      mret false)).
  { assert (Hone : only_key (quarantine_key run row) (
      reservation ← reserve faults redact boot (plain_request (quarantine_key run row) (quarantine_identity row snapshot) RECONCILIATION_CAPACITY SHARED RECORD);
      started ← start reservation;
      commit faults redact started (quarantine_observation snapshot now);;
      mret false)).
    { eapply only_returns; [apply (only_reserve faults redact boot (plain_request (quarantine_key run row) _ _ _ _))|apply returns_reserve|].
      cbn. intros r Hr. apply (only_returns _ _ (fun r' => key r' = quarantine_key run row)).
      - intros rs es Hwf. apply runs_fmap. rewrite <-Hr. by apply only_claim.
      - intros w w' a Ha. unfold start, fmap, M_fmap in Ha. destruct (claim_start r w) as [w1 [[a1 b1]| |]] eqn:Ec; [|done..].
        injection Ha as _ <-. rewrite <-Hr. by apply (returns_claim _ _ _ _ Ec).
      - intros r' Hr'. apply only_bind; [rewrite <-Hr'; apply only_finish|]. intros _. apply only_quiet. solve_quiet. }
    intros x Hok Hwf. destruct (spares_at k _ _ Hone Hk x Hok Hwf) as [[Hs Hok'] Hst]. revert Hs Hok' Hst. unfold kept, at_authority, mbind, M_bind, Prog_bind, rows_at. cbn.
    assert (Hset : forall a b, host_ok (set_authority a (set_authority b x))) by (intros; by do 2 apply host_ok_set).
    assert (Hset3 : forall a b c, host_ok (set_authority a (set_authority b (set_authority c x)))) by (intros; by do 3 apply host_ok_set).
    destruct (reserve _ _ _ _ (authority x)) as [w1 [r1| |]]; cbn; [|done..]. rewrite !authority_set.
    destruct (start r1 w1) as [w2 [r2| |]]; cbn; rewrite ?authority_set; [|done..].
    destruct (commit _ _ r2 _ w2) as [w3 [r3| |]]; cbn; rewrite ?authority_set; done. }
  destruct (_ ≫= observation) as [[| | | | |[|]]|]; try exact Hwrite.
  apply spares_then; [apply spares_try|]. intros seen. destruct (py_eqb _ _); [apply spares_mret|]. apply spares_then; [apply spares_try|]. intros t.
  apply spares_then; [apply spares_try|]. intros t'. apply spares_mret.
Qed.

(** An effect that never returns does not pass, under a key nobody used. *)
Lemma fails_execute rs k i n ret effect :
  status k rs = None -> (forall rs', does rs' effect (fun _ _ => False)) ->
  does rs (execute_with faults redact boot proof k i n ret effect) (fun _ _ => False).
Proof.
  intros Hnone Hfail. unfold execute_with.
  apply (does_bind _ _ _ _ (fun r rs' => key r = k /\ stands r rs' /\ (status k rs = None -> state r = RESERVED)));
    [apply does_at; intros es Hwf; eapply (runs_grew k); by apply runs_reserve_at|]. intros r rs1 _ (Hk & Hst & Hres).
  rewrite (Hres Hnone). change (bool_decide (RESERVED = COMMITTED)) with false. change (negb (bool_decide (RESERVED = RESERVED))) with false. cbv iota.
  apply (does_bind _ _ _ _ (fun a rs' => key a.1 = key r /\ stands a.1 rs' /\ (a.2 = true -> state a.1 = STARTED)
      /\ (stands r rs1 -> state r = RESERVED -> a.2 = true)));
    [apply does_at; intros es Hwf; eapply (runs_grew (key r)); by apply runs_claim_at|].
  intros [started acquired] rs2 _ (_ & _ & _ & Hacq). cbn in Hacq. rewrite Hacq by auto. cbn [negb].
  apply (does_bind _ _ _ _ (fun _ _ => False)); [|done]. apply does_except; [|intros e rs3 _; apply does_handler].
  apply (does_bind _ _ _ _ (fun _ _ => True)).
  { apply does_at. intros es Hwf. apply runs_effect. split; [by apply grew_refl|done]. }
  intros [] rs3 _ _. apply (does_bind _ _ _ _ (fun _ _ => False)); [apply Hfail|done].
Qed.

(** ** The reconciler *)

Section reconciler.
Context (run board : string) (cleanup : LeaseGrant -> string -> Prog X bool) (finalize : option (LeaseGrant -> string -> Prog X unit)).
Hypothesis cleanup_spares : forall g snapshot rest, spares (reconciliation_key run rest) (cleanup g snapshot).
Hypothesis finalize_spares : forall f g snapshot rest, finalize = Some f -> spares (reconciliation_key run rest) (f g snapshot).

Abbreviation settle_lease := (settle_lease faults redact boot proof run cleanup finalize).
Abbreviation settle_leases := (settle_leases faults redact boot proof run cleanup finalize).

Lemma does_record rs rest i obs :
  does rs (record_with faults redact boot proof (reconciliation_key run rest) i obs) (fun _ rs' => committed (reconciliation_key run rest) rs').
Proof. apply does_execute, spares_mret. Qed.

Lemma does_cleanup rs snapshot join_ action g :
  does rs (execute_cleanup faults redact boot proof run cleanup snapshot join_ action g) (fun b rs' => b = true -> committed (cleanup_key run action) rs').
Proof using cleanup_spares.
  unfold execute_cleanup. apply does_except; [|intros; by apply does_ret].
  eapply does_bind; [apply does_execute|intros obs rs' _ Hq; by apply does_ret].
  apply spares_then; [|intros; apply spares_mret]. unfold settled_cleanup. apply spares_then; [apply cleanup_spares|].
  intros []; [apply spares_mret|apply spares_fail].
Qed.

Lemma does_finalize rs f snapshot join_ action g :
  finalize = Some f ->
  does rs (execute_finalize faults redact boot proof run f snapshot join_ action g) (fun b rs' => b = true -> committed (archive_key run g snapshot) rs').
Proof using finalize_spares.
  intros Hf. unfold execute_finalize. apply does_except; [|intros; by apply does_ret].
  eapply does_bind; [apply does_execute|intros obs rs' _ Hq; by apply does_ret].
  apply spares_then; [by apply finalize_spares|]. intros []. apply spares_mret.
Qed.

Lemma does_quarantine rs row snapshot now :
  does rs (quarantine_elapsed faults redact boot run row snapshot now) (fun _ _ => True).
Proof.
  unfold quarantine_elapsed. apply (does_bind _ _ _ _ (fun _ _ => True)); [by apply does_quiet; [auto with quiet|]|]. intros s rs1 _ _.
  assert (Hwrite : does rs1 (
      reservation ← at_authority (reserve faults redact boot (plain_request (quarantine_key run row) (quarantine_identity row snapshot) RECONCILIATION_CAPACITY SHARED RECORD));
      started ← at_authority (start reservation);
      at_authority (commit faults redact started (quarantine_observation snapshot now));;
      mret false) (fun _ _ => True)).
  { apply (does_bind _ _ _ _ (fun _ _ => True)); [apply does_at; intros es Hwf; eapply (runs_grew (quarantine_key run row)), runs_weaken;
      [by apply (only_reserve faults redact boot (plain_request (quarantine_key run row) _ _ _ _))|by intros; split|done]|].
    intros r rs2 _ _. apply (does_bind _ _ _ _ (fun _ _ => True)); [apply does_at; intros es Hwf; eapply (runs_grew (key r)), runs_fmap, runs_weaken;
      [by apply only_claim|by intros; split|done]|].
    intros r' rs3 _ _. apply (does_bind _ _ _ _ (fun _ _ => True)); [apply does_at; intros es Hwf; eapply (runs_grew (key r')), runs_weaken;
      [by apply only_finish|by intros; split|done]|].
    intros; by apply does_ret. }
  destruct (_ ≫= observation) as [[| | | | |[|]]|]; try exact Hwrite.
  apply (does_bind _ _ _ _ (fun _ _ => True)); [by apply does_try|]. intros seen rs2 _ _. destruct (py_eqb _ _); [by apply does_ret|].
  apply (does_bind _ _ _ _ (fun _ _ => True)); [by apply does_try|]. intros t rs3 _ _.
  apply (does_bind _ _ _ _ (fun _ _ => True)); [by apply does_try|]. intros t' rs4 _ _. by apply does_ret.
Qed.

(** An open Lease that left nothing unsettled was cleaned up or archived. *)
Definition discharged (ledger : Ledger.LedgerResult) (snapshot : string) (g : LeaseGrant) (rs : list Row) : Prop :=
  lg_row_id g ∈ Ledger.lr_row_id <$> Ledger.ld_owned ledger /\ committed (cleanup_key run (terminate_action g)) rs
  \/ Ledger.ld_outcome ledger = Ledger.EMPTY /\ committed (archive_key run g snapshot) rs.

Lemma discharged_grew ledger snapshot g rs rs' : grew rs rs' -> discharged ledger snapshot g rs -> discharged ledger snapshot g rs'.
Proof. intros Hg [[? ?]|[? ?]]; [left|right]; (split; [done|by eapply committed_grew]). Qed.

Lemma does_settle_lease ledger ids snapshot join_ g now rs :
  does rs (settle_lease ledger ids snapshot join_ g now)
    (fun r rs' => ids = [] -> r.1 = [] -> lease_open g = true -> discharged ledger snapshot g rs').
Proof using cleanup_spares finalize_spares.
  unfold settle_lease. destruct (lease_open g); cbn [negb]; [|by apply does_ret]. case_bool_decide as Hrow; cbn [negb].
  - destruct (_ && _); [by apply does_ret|]. case_bool_decide as Hid; cbn [negb]; [apply does_ret; by intros _ -> _ _; apply elem_of_nil in Hid|].
    eapply does_bind; [apply does_quarantine|]. intros [|] rs1 _ _; cbn [negb]; [|by apply does_ret].
    eapply does_bind; [apply does_cleanup|]. intros [|] rs2 _ Hc; apply does_ret; [|done]. intros _ _ _ _. left. split; [done|by apply Hc].
  - pose proof (fun f rs => does_finalize rs f snapshot join_ (finalize_action g) g) as Hfin. clear finalize_spares.
    destruct finalize as [f|] eqn:Ef; [|by apply does_ret]. case_bool_decide as He; cbn [negb]; [|by apply does_ret].
    eapply does_bind; [apply does_quarantine|]. intros [|] rs1 _ _; cbn [negb]; [|by apply does_ret].
    eapply does_bind; [by apply Hfin|]. intros [|] rs2 _ Hc; apply does_ret; [|done]. intros _ _ _ _. right. split; [done|by apply Hc].
Qed.

Lemma does_settle_leases ledger ids snapshot join_ leases rs :
  does rs (settle_leases ledger ids snapshot join_ leases)
    (fun r rs' => ids = [] -> r.1 = [] -> forall g, g ∈ leases.*1 -> lease_open g = true -> discharged ledger snapshot g rs').
Proof using cleanup_spares finalize_spares.
  revert rs. induction leases as [|[g now] leases IH]; intros rs; cbn [Reconciliation.settle_leases]; [apply does_ret; set_solver|].
  eapply does_bind; [apply does_settle_lease|]. cbn beta. intros one rs1 _ H1. eapply does_bind; [apply IH|]. cbn beta. intros others rs2 Hg2 H2.
  apply does_ret. intros _ Hids [E1 E2]%app_nil g' Hg' Ho. apply elem_of_cons in Hg' as [->|Hg']; [|by apply H2].
  cbn [fst]. eapply discharged_grew; [exact Hg2|]. by apply H1.
Qed.

(** Nothing is left that speaks against admission. *)
Definition clear_to_open (ledger : Ledger.LedgerResult) (leases : list LeaseGrant) (gens : list GenerationState) (o : BootOwnership) (snapshot : string)
    (rs : list Row) : Prop :=
  (Ledger.ld_outcome ledger ∉ [Ledger.UNSETTLED; Ledger.ABSENT; Ledger.NOT_OURS]) /\ proved o = true /\ Forall (fun s => active s = false) gens
  /\ (forall g, g ∈ leases -> lease_open g = true -> discharged ledger snapshot g rs)
  /\ (forall row, row ∈ Ledger.ld_owned ledger -> exists g, g ∈ leases /\ lease_open g = true /\ lg_row_id g = Ledger.lr_row_id row).

Lemma clear_grew ledger leases gens o snapshot rs rs' :
  grew rs rs' -> clear_to_open ledger leases gens o snapshot rs -> clear_to_open ledger leases gens o snapshot rs'.
Proof. intros Hg (? & ? & ? & Hd & ?). split_and!; [done..| |done]. intros g Hin Ho. eapply discharged_grew; [exact Hg|by apply Hd]. Qed.

Lemma does_settle ledger leases gens o snapshot join_ rs :
  does rs (settle faults redact boot proof run cleanup finalize ledger leases gens o snapshot join_)
    (fun r rs' => r.1 = [] -> clear_to_open ledger leases.*1 gens o snapshot rs').
Proof using cleanup_spares finalize_spares.
  unfold settle, one_of. case_bool_decide as Ho; [by apply does_ret|]. destruct (proved o) eqn:Hp; cbn [negb]; [|by apply does_ret].
  eapply does_bind; [apply does_settle_leases|]. cbn beta. intros each rs1 _ Hd. apply does_ret. intros _ E. cbn [fst] in E.
  apply app_nil in E as [Ea E]. apply app_nil in E as [E1 Eu]. case_bool_decide as Hids; [|done]. split_and!; [done..| | |].
  - apply Forall_forall. intros s Hs. destruct (active s) eqn:Ha; [|done]. exfalso.
    assert (generation_id s ∈ generation_id <$> List.filter active gens) as Hin; [|rewrite Hids in Hin; by apply elem_of_nil in Hin].
    apply list_elem_of_fmap_2, list_elem_of_In, List.filter_In. split; [by apply list_elem_of_In|done].
  - by apply Hd.
  - intros row Hrow. unfold unattributed in Eu. apply fmap_nil_inv in Eu.
    destruct (decide (Ledger.lr_row_id row ∈ lg_row_id <$> List.filter lease_open leases.*1)) as [Hin|Hnin].
    + apply list_elem_of_fmap in Hin as (g & Hg & Hin). apply list_elem_of_In, List.filter_In in Hin as [Hin Hopen].
      exists g. split; [by apply list_elem_of_In|done].
    + exfalso. assert (Hin : row ∈ List.filter (fun row => negb (bool_decide (Ledger.lr_row_id row ∈ lg_row_id <$> List.filter lease_open leases.*1)))
        (Ledger.ld_owned ledger)); [|rewrite Eu in Hin; by apply elem_of_nil in Hin].
      apply list_elem_of_In, List.filter_In. split; [by apply list_elem_of_In|]. by rewrite bool_decide_false.
Qed.

(** What a reconciliation that opens admission says. *)
Lemma does_reconcile boot_id cycle ledger leases gens o rs :
  does rs (reconcile faults redact boot proof run board cleanup finalize boot_id cycle ledger leases gens o)
    (fun r rs' => rr_verdict r = ADMISSION_OPEN ->
       Ledger.ld_outcome ledger ∈ Ledger.OUTCOMES /\ clear_to_open ledger leases.*1 gens o (rr_snapshot_id r) rs'
       /\ committed (completion_key run (or_text cycle boot_id)) rs' /\ committed (decision_key run (or_text cycle boot_id)) rs').
Proof using cleanup_spares finalize_spares.
  unfold reconcile. eapply (does_bind _ _ _ _ (fun _ _ => Ledger.ld_outcome ledger ∈ Ledger.OUTCOMES)).
  { apply does_try. intros d Hd _. unfold Ledger.receipt_document, raise_if, one_of in Hd. destruct (bool_decide (run = "")); [done|].
    cbn [orb] in Hd. case_bool_decide as Ho; done. }
  intros document rs1 _ Hout. unfold record_snapshot. eapply (does_bind _ _ _ _ (fun _ _ => True)).
  { eapply does_bind; [apply does_record|]. intros; by apply does_ret. }
  intros snapshot rs2 _ _. eapply does_bind; [apply does_settle|]. cbn beta. intros [unsettled actions] rs3 _ Hclear. cbn [fst] in Hclear.
  cbv zeta.
  eapply (does_bind _ _ _ _ (fun r rs' => reconciliation_id r = or_text cycle boot_id /\ (rr_verdict r = ADMISSION_OPEN ->
    clear_to_open ledger leases.*1 gens o (rr_snapshot_id r) rs' /\ committed (completion_key run (or_text cycle boot_id)) rs'))).
  - case_bool_decide as Hu; cbn [negb]; [|by apply does_ret]. apply does_except; [|intros; by apply does_ret].
    eapply does_bind; [apply does_record|]. cbn beta. intros obs rs4 Hg4 Hc. apply does_ret. intros _. split; [done|]. intros _. split; [|done].
    eapply clear_grew; [exact Hg4|]. by apply Hclear.
  - intros r rs4 _ [Hid Hr]. eapply does_bind; [apply does_record|]. cbn beta. intros obs rs5 Hg5 Hc. apply does_ret. intros _ Hv.
    destruct (Hr Hv) as [H1 H2]. split_and!; [done|by eapply clear_grew|by eapply committed_grew|]. by rewrite <-Hid.
Qed.
(** ** Quarantine *)

(** The ledger has an observation of the row under another snapshot, made fifteen seconds before. *)
Definition quarantined (rs : list Row) (row snapshot : string) (now : Z) : Prop :=
  exists c obs seen at_ t, status (quarantine_key run row) rs = Some c /\ observation c = Some (JObj obs)
    /\ dict_get "snapshot_id" obs = Some seen /\ py_eqb (JStr snapshot) seen = false
    /\ dict_get "observed_at" obs = Some at_ /\ py_int at_ = Ok t /\ 15 * us_per_second <= now - t.

Lemma elapsed_quarantined row snapshot now x x' :
  quarantine_elapsed faults redact boot run row snapshot now x = (x', Done true) -> quarantined (rows_at x) row snapshot now.
Proof.
  unfold quarantine_elapsed, mbind at 1, Prog_bind at 1, at_authority at 1, get. cbv iota beta.
  change (dict_get (quarantine_key run row) (latest_locked (disk (authority x)))) with (status (quarantine_key run row) (rows_at x)).
  assert (Hwrite : forall y, (reservation ← at_authority (reserve faults redact boot
        (plain_request (quarantine_key run row) (quarantine_identity row snapshot) RECONCILIATION_CAPACITY SHARED RECORD));
      started ← at_authority (start reservation);
      at_authority (commit faults redact started (quarantine_observation snapshot now));;
      mret false) y = (x', Done true) -> quarantined (rows_at x) row snapshot now).
  { intros y. unfold mbind, Prog_bind. destruct (at_authority _ y) as [y1 [r| |]]; [|done..]. destruct (at_authority _ y1) as [y2 [r'| |]]; [|done..].
    by destruct (at_authority _ y2) as [y3 [| |]]. }
  destruct (status _ _) as [c|] eqn:Es; cbn [mbind option_bind]; [|apply Hwrite].
  destruct (observation c) as [[| | | | |[|kv obs]]|] eqn:Eo; try apply Hwrite.
  unfold item. destruct (dict_get "snapshot_id" (kv :: obs)) as [seen|] eqn:Eseen; [|done]. unfold mbind at 1, Prog_bind at 1, try at 1. cbv iota.
  destruct (py_eqb (JStr snapshot) seen) eqn:Eq; [done|]. destruct (dict_get "observed_at" (kv :: obs)) as [at_|] eqn:Ea; [|done].
  unfold mbind at 1, Prog_bind at 1, try at 1. cbv iota. destruct (py_int at_) as [t|] eqn:Et; [|done].
  unfold mbind, Prog_bind, try, mret, Prog_ret. intros [= _ Hle]. exists c, (kv :: obs), seen, at_, t. split_and!; [done..|].
  unfold QUARANTINE_US in Hle. lia.
Qed.

(** Until then the row is not acted on: what one Lease leaves does not depend on the callbacks. *)
Lemma elapsed_first {B} (k k' : bool -> Prog X B) row snapshot now x :
  ~ quarantined (rows_at x) row snapshot now -> k false = k' false ->
  (quarantine_elapsed faults redact boot run row snapshot now ≫= k) x = (quarantine_elapsed faults redact boot run row snapshot now ≫= k') x.
Proof.
  intros Hno Hk. unfold mbind, Prog_bind. destruct (quarantine_elapsed _ _ _ _ row snapshot now x) as [y [[|]|e|]] eqn:E; [|by rewrite Hk|done..].
  by apply elapsed_quarantined in E.
Qed.

(** C28. No row is acted on at first sight: unless the ledger already held, under its row's key, an observation of
    that row by another snapshot at least fifteen seconds old, settling a Lease calls neither the cleanup nor
    the finalization - it does exactly the same, step by step and however it ends, whatever these two would
    do, losing power in them included - and reports no action. *)
Theorem action_after_quarantine ledger ids snapshot join_ g now x cleanup' finalize' :
  ~ quarantined (rows_at x) (lg_row_id g) snapshot now -> (finalize = None <-> finalize' = None) ->
  settle_lease ledger ids snapshot join_ g now x
  = Reconciliation.settle_lease faults redact boot proof run cleanup' finalize' ledger ids snapshot join_ g now x
  /\ forall r, (settle_lease ledger ids snapshot join_ g now x).2 = Done r -> r.2 = [].
Proof.
  clear cleanup_spares finalize_spares. intros Hno Hfin. unfold Reconciliation.settle_lease.
  assert (Hnone : forall k : bool -> Prog X (list string * list string), (forall y r, (k false y).2 = Done r -> r.2 = []) -> forall r,
    ((quarantine_elapsed faults redact boot run (lg_row_id g) snapshot now ≫= k) x).2 = Done r -> r.2 = []).
  { intros k Hk r. unfold mbind, Prog_bind. destruct (quarantine_elapsed _ _ _ _ _ _ _ x) as [y [[|]|e|]] eqn:E; [|apply Hk|done..].
    by apply elapsed_quarantined in E. }
  destruct (lease_open g); cbn [negb]; [|by split; [|intros r [= <-]]]. case_bool_decide; cbn [negb].
  - destruct (_ && _); [by split; [|intros r [= <-]]|]. destruct (negb _); [|by split; [|intros r [= <-]]].
    split; [by apply elapsed_first|]. apply Hnone. by intros y r [= <-].
  - destruct finalize as [f|], finalize' as [f'|]; [|discriminate (proj2 Hfin eq_refl)|discriminate (proj1 Hfin eq_refl)|by split; [|intros r [= <-]]].
    destruct (negb _); [by split; [|intros r [= <-]]|]. split; [by apply elapsed_first|]. apply Hnone. by intros y r [= <-].
Qed.

(** A quarantine record without a snapshot - one that a restart found unfinished, or that was refused for lack
    of capacity - stops the reconciliation of its row for good: the check raises [KeyError] and changes nothing. *)
Theorem quarantine_wedged row snapshot now x c obs :
  status (quarantine_key run row) (rows_at x) = Some c -> observation c = Some (JObj obs) -> obs <> [] -> dict_get "snapshot_id" obs = None ->
  (quarantine_elapsed faults redact boot run row snapshot now x).2 = Raised (KeyError "snapshot_id")
  /\ rows_at (quarantine_elapsed faults redact boot run row snapshot now x).1 = rows_at x.
Proof.
  intros Hs Ho Hne Hd.
  assert (E : quarantine_elapsed faults redact boot run row snapshot now x = (set_authority (authority x) x, Raised (KeyError "snapshot_id"))).
  { unfold quarantine_elapsed, mbind at 1, Prog_bind at 1, at_authority at 1, get. cbv iota beta.
    change (dict_get (quarantine_key run row) (latest_locked (disk (authority x)))) with (status (quarantine_key run row) (rows_at x)).
    rewrite Hs. cbn [mbind option_bind]. rewrite Ho. destruct obs as [|kv obs]; [done|]. unfold item. by rewrite Hd. }
  rewrite E. split; [done|]. unfold rows_at. cbn. by rewrite authority_set.
Qed.
(** Probation rests on the ledger and changes nothing: it passes only if a decision about this join is committed
    whose completion - under the key the decision names - is committed too. *)
Theorem probation_rests join_ boot_id cycle x :
  (probation run join_ boot_id cycle x).2 = Done PROBATION_PASSED ->
  rows_at (probation run join_ boot_id cycle x).1 = rows_at x
  /\ exists d document k c, status (key d) (rows_at x) = Some d /\ state d = COMMITTED /\ observation d = Some (JObj document)
    /\ py_eqb (get_or "join_digest" JNull document) (JStr join_) = true /\ get_or "completion_key" JNull document = JStr k
    /\ status k (rows_at x) = Some c /\ state c = COMMITTED /\ operation (identity c) = "instance-reconciliation.complete".
Proof.
  unfold probation, mbind, Prog_bind, at_authority, get, mret, Prog_ret. cbn. intros Hp. split; [unfold rows_at; by rewrite authority_set|].
  destruct (py_any _ _) eqn:E; [|done]. clear Hp. apply existsb_exists in E as (d & Hd & Hp). apply List.filter_In in Hd as [Hd Hdec].
  pose proof (proj2 (latest_values (rows_at x))) as Hl. rewrite Forall_forall in Hl. apply list_elem_of_In in Hd. specialize (Hl d Hd).
  unfold is_decision in Hdec. apply andb_true_iff in Hdec as [Hdec _]. apply andb_true_iff in Hdec as [_ Hst]. apply bool_decide_eq_true in Hst.
  unfold passes in Hp. destruct (observation d) as [[| | | | |document]|] eqn:Ho; try done. apply andb_true_iff in Hp as [Hp Hk].
  apply andb_true_iff in Hp as [Hp _]. apply andb_true_iff in Hp as [Hj _].
  destruct (get_or "completion_key" JNull document) as [| | |k| |] eqn:Ek; try done. apply andb_true_iff in Hk as [_ Hk].
  destruct (dict_get k _) as [c|] eqn:Ec; [|done]. apply andb_true_iff in Hk as [Hk _]. apply andb_true_iff in Hk as [Hcs Hop].
  apply bool_decide_eq_true in Hcs, Hop. by exists d, document, k, c.
Qed.

End reconciler.
End hosted.

(** ** A Boot *)

Section boot.
Context `{Digester} (faults : Faults) (redact : string -> string) (boot : string) (proof : list (string * json)).
Context {F : Type} (run board owner : string) (drawn : LeaseGrant -> string -> string).
Abbreviation LW := (LeaseWorld (F := F)).
Abbreviation BW := (BootWorld (F := F)).

#[local] Instance lease_host : Host LW := {|
  authority := lw_authority;
  set_authority a x := {| lw_authority := a; lw_fence := lw_fence x; lw_coordinator := lw_coordinator x |};
  authority_set _ _ := eq_refl |}.

#[local] Instance lease_host_ok : HostOk LW := {| host_ok _ := True; host_ok_set _ _ _ := I |}.

(** The Run's own authority has a live writer. *)
Definition writer_live (x : BW) : Prop := bw_run x ∈ wr_held (bw_writers x).

#[local] Instance boot_host_ok : HostOk BW := {| host_ok := writer_live; host_ok_set _ _ Hx := Hx |}.

(** ... and its directory is the one of the name [run]. *)
Definition own_host_ok : HostOk BW := {| host_ok x := bw_run x = run /\ writer_live x; host_ok_set _ _ Hx := Hx |}.

(** No other thread is there to be awaited. *)
Definition alone (out : Outside) : Prop := out_polls out = [] /\ out_late_polls out = [].

Lemma lease_key_apart i o epoch d rest : reconciliation_key run rest <> lease_key i o epoch d.
Proof. intros E. discriminate E. Qed.

Lemma spares_on_authority {A} k k' (m : M A) : only_key k' m -> k <> k' -> spares k (on_authority m : Prog LW A).
Proof. intros Hm Hk. exact (spares_at (X := LW) k k' m Hm Hk). Qed.

Lemma spares_lease_effect i epoch g out rest :
  alone out -> spares (reconciliation_key run rest) (run_lease_effect faults redact boot proof (releasing i epoch g) "release" out : Prog LW LeaseGrant).
Proof.
  intros [Hp Hl]. unfold run_lease_effect. rewrite Hp, Hl. apply (spares_except (X := LW)).
  - apply spares_then; [|intros; apply spares_try]. eapply spares_on_authority; [apply only_execute|]. apply lease_key_apart.
  - intros e. destruct (is_conflict e); [apply spares_fail|apply spares_mret].
Qed.

Lemma spares_ask {A B} k (f : LW -> A) (h : A -> Prog LW B) : (forall a, spares k (h a)) -> spares k (ask f ≫= h).
Proof. intros Hh x Hok Hwf. exact (Hh (f x) x Hok Hwf). Qed.

Lemma spares_remember k g : spares k (remember_and_return g : Prog LW LeaseGrant).
Proof. intros x Hok Hwf. split; [split; [by apply grew_refl|done]|done]. Qed.

Lemma spares_reconcile_release i epoch snapshot out rest :
  alone out -> spares (reconciliation_key run rest) (reconcile_release faults redact boot proof i epoch snapshot out : Prog LW LeaseGrant).
Proof.
  intros Ho. unfold reconcile_release. apply spares_then; [apply spares_try|]. intros _. apply spares_ask. intros c.
  destruct (dict_get i (co_leases c)) as [g|]; [|apply spares_fail]. destruct (_ && _); [|apply spares_fail].
  apply spares_then; [by apply spares_lease_effect|]. intros g'. apply spares_remember.
Qed.

Lemma spares_grant_release g snapshot out rest :
  alone out -> spares (reconciliation_key run rest) (reconcile_grant_release faults redact boot proof run board owner g snapshot out : Prog LW LeaseGrant).
Proof.
  intros Ho. unfold reconcile_grant_release. apply spares_then; [apply spares_try|]. intros _.
  case_bool_decide; [by apply spares_reconcile_release|by apply spares_lease_effect].
Qed.

(** *** Writers *)

Lemma acquire_ok run_ ws ws' : acquire_writer run_ ws = Ok ws' -> wr_held ws' = run_ :: wr_held ws /\ run_ ∉ wr_held ws.
Proof.
  unfold acquire_writer. intros (_ & H1%raise_if_ok & (_ & H2%raise_if_ok & [= <-])%bind_ok)%bind_ok. by apply bool_decide_eq_false in H1.
Qed.

Lemma release_held run_ run' ws : run' ∈ wr_held ws -> run' <> run_ -> run' ∈ wr_held (release_writer run_ ws).
Proof.
  intros Hin Hne. unfold release_writer. destruct (negb _); [done|]. cbn. apply list_elem_of_In, List.filter_In.
  split; [by apply list_elem_of_In|]. by rewrite bool_decide_false.
Qed.

(** A program over another directory than the Run's leaves the Run's ledger and its live writer alone. *)
Definition apart {A} (run_ : string) (m : Prog BW A) : Prop := forall x, run_ <> bw_run x -> writer_live x ->
  writer_live (m x).1 /\ rows_at (m x).1 = rows_at x /\ bw_run (m x).1 = bw_run x.

Lemma apart_storage {A} run_ (m : M A) : apart run_ (in_storage run_ m).
Proof.
  intros x Hne Hx. unfold in_storage, storage_of, with_storage. rewrite !bool_decide_false by done.
  destruct (dict_get run_ (bw_archives x)) as [a|]; [|done]. by destruct (m a).
Qed.

Lemma apart_take run_ : apart run_ (take_writer run_).
Proof.
  intros x Hne Hx. unfold take_writer. destruct (acquire_writer run_ (bw_writers x)) as [ws|e] eqn:E; [|done].
  apply acquire_ok in E as [E _]. split; [|done]. unfold writer_live. cbn. rewrite E. by right.
Qed.

Lemma apart_bind {A B} run_ (m : Prog BW A) (f : A -> Prog BW B) : apart run_ m -> (forall a, apart run_ (f a)) -> apart run_ (m ≫= f).
Proof.
  intros Hm Hf x Hne Hx. destruct (Hm x Hne Hx) as (H1 & H2 & H3). unfold mbind, Prog_bind. destruct (m x) as [x1 [a|e|]]; cbn in *; [|done..].
  destruct (Hf a x1) as (H4 & H5 & H6); [congruence|done|]. split_and!; [done|congruence..].
Qed.

Lemma live_closed run_ (x : BW) : run_ <> bw_run x -> writer_live x -> writer_live (close_authority run_ x).
Proof. intros Hne Hx. apply release_held; [exact Hx|]. cbn. congruence. Qed.

Lemma apart_close {A} run_ (m : Prog BW A) : apart run_ m -> apart run_ (close_if_raised run_ m) /\ apart run_ (close_after run_ m).
Proof.
  intros Hm. split; intros x Hne Hx; destruct (Hm x Hne Hx) as (H1 & H2 & H3); [unfold close_if_raised|unfold close_after];
    destruct (m x) as [x1 [a|e|]]; cbn in *; (split_and!; [|done..]); try done; (apply live_closed; [congruence|done]).
Qed.

Lemma apart_new boot_id run_ : apart run_ (new_authority faults proof boot_id run_).
Proof.
  apply apart_bind; [apply apart_storage|]. intros _. apply apart_bind; [apply apart_take|]. intros _. apply apart_close, apart_storage.
Qed.

(** The Run's own directory is not opened a second time. *)
Lemma new_own boot_id x : writer_live x ->
  new_authority faults proof boot_id (bw_run x) x = (x, Raised (ReservationConflict "this Run already has a live canonical writer")).
Proof.
  intros Hx. unfold new_authority, mbind, Prog_bind, in_storage at 1, storage_of, with_storage. rewrite !bool_decide_true by done. cbn [get].
  assert (Hset : set_authority (lw_authority (bw_lease x)) x = x) by (by destruct x as [r [a f c] ar ws]). unfold get. rewrite Hset.
  unfold take_writer, acquire_writer. unfold writer_live in Hx. rewrite (bool_decide_eq_true_2 _ Hx). reflexivity.
Qed.

(** Opening the Run's authority makes its writer live, until it is closed. *)
Lemma opened_live boot_id run_ (x x' : BW) :
  new_authority faults proof boot_id run_ x = (x', Done tt) -> run_ ∈ wr_held (bw_writers x').
Proof.
  unfold new_authority, mbind, Prog_bind. destruct (in_storage run_ get x) as [x1 [s|e|]]; [|done..]. unfold take_writer.
  destruct (acquire_writer run_ (bw_writers x1)) as [ws|e] eqn:E; [|done]. apply acquire_ok in E as [E _].
  unfold close_if_raised, in_storage, with_storage. destruct (storage_of run_ (with_writers ws x1)) as [a|]; [|done].
  destruct (open_authority faults boot_id proof a) as [a' [[]|e|]]; [|done..]. intros [= <-]. case_bool_decide; cbn; rewrite E; by left.
Qed.

Lemma own_fails boot_id g snapshot (x : BW) : li_run_id (lg_identity g) = bw_run x -> writer_live x ->
  persist_reconciled_close faults proof boot_id g snapshot x = (x, Raised (ReservationConflict "this Run already has a live canonical writer")).
Proof. intros Hr Hx. unfold persist_reconciled_close, mbind, Prog_bind. by rewrite Hr, new_own. Qed.

Lemma spares_persist k boot_id g snapshot : spares k (persist_reconciled_close faults proof boot_id g snapshot : Prog BW LeaseGrant).
Proof.
  intros x Hok Hwf. destruct (decide (li_run_id (lg_identity g) = bw_run x)) as [Hr|Hr].
  { rewrite own_fails by done. split; [by apply held_refl|done]. }
  assert (Ha : apart (li_run_id (lg_identity g)) (persist_reconciled_close faults proof boot_id g snapshot)).
  { apply apart_bind; [apply apart_new|]. intros _. apply apart_close, apart_storage. }
  destruct (Ha x Hr Hok) as (Hl & Hrows & _). unfold kept. rewrite Hrows. split; [|done]. split; [by apply grew_refl|done].
Qed.

Lemma spares_boot_cleanup out g snapshot rest :
  alone out -> spares (reconciliation_key run rest) (reconcile_lease_cleanup faults redact boot proof run board owner drawn out g snapshot : Prog BW bool).
Proof.
  intros Ho. unfold reconcile_lease_cleanup. apply spares_then.
  - intros x Hok Hwf. destruct (spares_grant_release g snapshot out rest Ho (bw_lease x) I Hwf) as [[Hg _] Hs]. unfold by_coordinator.
    destruct (reconcile_grant_release _ _ _ _ _ _ _ _ _ _ (bw_lease x)) as [l o]. split; [split; [exact Hg|exact Hok]|exact Hs].
  - intros r. apply spares_then; [|intros; apply spares_mret]. destruct (negb _); [apply spares_persist|apply spares_mret].
Qed.

(** C27. A Boot admits Work only over a settled world.  When its reconciliation returns an open verdict over the pages
    of the Board it read, the identity was settled, and the pages one complete sequence - all answered with 200, all
    complete, numbered without a gap, no two alike, agreeing on their totals, which their rows add up to;
    the earlier boots and their Attempts are proved closed and no Work generation is active; every open Lease, of
    any Run, has a cleanup committed under its row's action key, or - where the Board holds nothing of ours - an
    archive record committed under this snapshot's; every row of ours belongs to an open Lease; and the completion
    and the decision are committed.  A committed cleanup is no proof that the Board terminated the Instance: for a
    Lease of another Run it is committed whatever the Board answered, and an Instance gone from two empty ledgers
    is archived on their word.  The Run's own authority is open and no other thread is awaited. *)
Theorem barrier_opens_settled out boot_id cycle mode user team pages leases gens o (x x' : BW) r :
  let ledger := Ledger.identify_ledger mode user team pages in
  (forall g, alone (out g)) -> writer_live x -> wf_rows (rows_at x) ->
  boot_reconcile faults redact boot proof run board owner drawn out boot_id cycle ledger leases gens o x = (x', Done r) ->
  rr_verdict r = ADMISSION_OPEN ->
  Ledger.unsettled_identity mode user team = false /\ whole_pages pages /\ Ledger.ld_outcome ledger ∈ [Ledger.EMPTY; Ledger.POPULATED]
  /\ proved o = true /\ Forall (fun s => active s = false) gens
  /\ (forall g, g ∈ leases.*1 -> lease_open g = true ->
        lg_row_id g ∈ Ledger.lr_row_id <$> Ledger.ld_owned ledger /\ committed (cleanup_key run (terminate_action g)) (rows_at x')
        \/ Ledger.ld_outcome ledger = Ledger.EMPTY /\ committed (archive_key run g (rr_snapshot_id r)) (rows_at x'))
  /\ (forall row, row ∈ Ledger.ledger_rows pages -> Ledger.owner mode user team row = true ->
        exists g, g ∈ leases.*1 /\ lease_open g = true /\ lg_row_id g = Ledger.lr_row_id row)
  /\ committed (completion_key run (or_text cycle boot_id)) (rows_at x') /\ committed (decision_key run (or_text cycle boot_id)) (rows_at x').
Proof.
  intros ledger Hout Hlive Hwf Hx Hv. unfold boot_reconcile in Hx.
  pose proof (does_reconcile (X := BW) faults redact boot proof run board (fun g => reconcile_lease_cleanup faults redact boot proof run board owner drawn (out g) g)
    (Some (fun g snapshot => persist_reconciled_close faults proof (drawn g snapshot) g snapshot;; mret tt))) as Hd.
  specialize (Hd (fun g s rest => spares_boot_cleanup (out g) g s rest (Hout g))).
  assert (Hfin : forall f g snapshot rest, Some (fun g snapshot => persist_reconciled_close faults proof (drawn g snapshot) g snapshot;; mret tt) = Some f ->
    spares (reconciliation_key run rest) (f g snapshot : Prog BW unit)).
  { intros f g s rest Hf. injection Hf as <-. apply spares_then; [apply spares_persist|]. intros _. apply spares_mret. }
  destruct (Hd Hfin boot_id cycle ledger leases gens o (rows_at x) x Hlive eq_refl Hwf) as [_ Hr].
  rewrite Hx in Hr. cbn [fst snd] in Hr. destruct (Hr Hv) as (Hlo & (Hn & Hp & Ha & Hl & Hrow) & Hc & Hdec).
  assert (Ho : Ledger.ld_outcome ledger ∈ [Ledger.EMPTY; Ledger.POPULATED]).
  { rewrite !not_elem_of_cons in Hn. destruct Hn as (Hu & Hab & Hno & _). unfold Ledger.OUTCOMES in Hlo. rewrite !elem_of_cons in *. naive_solver. }
  destruct (identify_cases mode user team pages) as [(Hid & Hw & Hs)|([Hs|Hs] & _)]; fold ledger in Hs; [|rewrite Hs in Ho; set_solver..].
  split_and!; [done..| |done|done]. intros row Hin Hown. apply Hrow. rewrite Hs. unfold split_ledger. cbn.
  apply list_elem_of_In, List.filter_In. split; [by apply list_elem_of_In|done].
Qed.

(** ** What stands in the way *)

Lemma persist_closed boot_id g snapshot (x x' : BW) h :
  persist_reconciled_close faults proof boot_id g snapshot x = (x', Done h) -> lease_open h = false.
Proof.
  unfold persist_reconciled_close, mbind at 1, Prog_bind at 1. destruct (new_authority _ _ _ _ x) as [x1 [[]|e|]]; [|done..].
  unfold close_after, in_storage. destruct (storage_of _ x1) as [a|]; [|done].
  unfold persist_in, mbind, M_bind, get. destruct (replay_leases _ _ _) as [l|e]; [|done]. cbn [lift]. unfold mret, M_ret.
  destruct (already_closed g l) as [k|] eqn:Ek.
  - intros [= _ <-]. apply py_next_Some in Ek as [_ Ek]. apply andb_true_iff in Ek as [_ Ek]. by apply negb_true_iff.
  - destruct (execute _ _ _ _ _ _ _ _ _ _ _ a) as [a2 [v| |]]; [|done..]. by intros [= _ <-].
Qed.

(** C31. The cleanup of another Run's Lease settles whatever the Board said: when it returns, the answer is that the
    Lease is closed - even if the Board refused to terminate its Instance or never answered - because the archive
    records the close without looking at the outcome. *)
Theorem other_run_cleanup_settles out g snapshot (x x' : BW) b :
  li_run_id (lg_identity g) <> run ->
  reconcile_lease_cleanup faults redact boot proof run board owner drawn out g snapshot x = (x', Done b) -> b = true.
Proof.
  intros Hrun. unfold reconcile_lease_cleanup. unfold mbind at 1, Prog_bind at 1. destruct (by_coordinator _ x) as [x1 [r| |]]; [|done..].
  rewrite bool_decide_false by done. cbn [negb]. unfold mbind, Prog_bind.
  destruct (persist_reconciled_close _ _ _ _ _ x1) as [x2 [h| |]] eqn:Ep; [|done..]. intros [= _ <-]. by rewrite (persist_closed _ _ _ _ _ _ Ep).
Qed.

Lemma archive_apart g snapshot row : archive_key run g snapshot <> quarantine_key run row.
Proof. unfold archive_key, quarantine_key, reconciliation_key. intros E. do 3 apply string_app_inj_l in E. discriminate E. Qed.

(** C32. A Lease of the Run itself whose row is gone is never archived while the Run's authority is open - that is,
    while its directory is in the process's registry of writers, where opening the authority put it
    ([opened_live]): the archive cannot acquire the writer a second time, and the Lease stays unsettled at
    every snapshot under whose key no archive record stands yet, so the barrier does not open over it. *)
Theorem own_lease_unsettled out ledger ids snapshot join_ g now (x x' : BW) r :
  bw_run x = run -> writer_live x -> wf_rows (rows_at x) ->
  li_run_id (lg_identity g) = run -> lease_open g = true -> lg_row_id g ∉ Ledger.lr_row_id <$> Ledger.ld_owned ledger ->
  status (archive_key run g snapshot) (rows_at x) = None ->
  settle_lease faults redact boot proof run (fun g => reconcile_lease_cleanup faults redact boot proof run board owner drawn (out g) g)
    (Some (fun g snapshot => persist_reconciled_close faults proof (drawn g snapshot) g snapshot;; mret tt)) ledger ids snapshot join_ g now x
  = (x', Done r) ->
  r.1 <> [].
Proof.
  intros Hdir Hlive Hwf Hrun Hopen Hrow Hnone Hx.
  set (f := fun (g : LeaseGrant) snapshot => persist_reconciled_close faults proof (drawn g snapshot) g snapshot;; mret tt : Prog BW unit) in *.
  assert (Hd : does (HO := own_host_ok) (rows_at x) (settle_lease faults redact boot proof run
    (fun g => reconcile_lease_cleanup faults redact boot proof run board owner drawn (out g) g) (Some f) ledger ids snapshot join_ g now) (fun r _ => r.1 <> [])).
  { unfold settle_lease. rewrite Hopen, bool_decide_false by done. cbn [negb]. case_bool_decide; cbn [negb]; [|by apply does_ret].
    eapply does_bind; [apply (does_spares (archive_key run g snapshot)), spares_quarantine, archive_apart|]. cbn beta.
    intros [|] rs1 _ Hs1; cbn [negb]; [|by apply does_ret].
    apply (does_bind _ _ _ _ (fun b _ => b = false)); [|intros b rs2 _ ->; by apply does_ret]. unfold execute_finalize.
    apply does_except; [|intros; by apply does_ret].
    apply (does_bind _ _ _ _ (fun _ _ => False)); [|done]. apply fails_execute; [congruence|]. intros rs2.
    apply (does_bind _ _ _ _ (fun _ _ => False)); [|done]. unfold f. apply (does_bind _ _ _ _ (fun _ _ => False)); [|done].
    intros y [Hy1 Hy2] Hy Hwfy. rewrite own_fails by (done || congruence). split; [|done]. cbn. rewrite <-Hy. apply held_refl; [done|congruence]. }
  destruct (Hd x (conj Hdir Hlive) eq_refl Hwf) as [_ Hr]. by rewrite Hx in Hr.
Qed.
End boot.

(** ** Ownership *)

Lemma dict_of_has {A} (f : A -> string) (p : A -> bool) l k :
  dict_has k (dict_of f (List.filter p l)) = true -> exists e, e ∈ l /\ p e = true /\ f e = k.
Proof.
  unfold dict_has, dict_of. rewrite dict_of_acc, bool_decide_eq_true. destruct (List.find _ _) as [e|] eqn:E; [|by intros []].
  intros _. apply List.find_some in E as [Hin Hk]. apply in_rev, List.filter_In in Hin as [Hin Hp]. exists e.
  split; [by apply list_elem_of_In|]. split; [done|]. by apply bool_decide_eq_true in Hk.
Qed.

Lemma ownership_facts events boot_id gens :
  (py_len (List.filter (fun e => is_record "boot-open" e && of_boot boot_id e) events) =? 1) = true ->
  py_all (fun b => dict_has b (dict_of (payload_text "boot_id") (List.filter (is_record "boot-close") events)))
    (remove_dups (payload_text "boot_id" <$> List.filter (fun e => is_record "boot-open" e && negb (of_boot boot_id e)) events)) = true ->
  py_all (fun g => negb (active g) && (negb (bool_decide (attempt_id g ∈ payload_text "attempt_id" <$> List.filter (is_record "attempt-open") events))
    || dict_has (attempt_id g) (dict_of (payload_text "attempt_id") (List.filter (is_record "attempt-close") events)))) gens = true ->
  length (List.filter (fun e => is_record "boot-open" e && of_boot boot_id e) events) = 1%nat
  /\ (forall e, e ∈ events -> is_record "boot-open" e = true -> of_boot boot_id e = false ->
        exists e', e' ∈ events /\ is_record "boot-close" e' = true /\ payload_text "boot_id" e' = payload_text "boot_id" e)
  /\ (forall s, s ∈ gens -> active s = false
        /\ (forall e, e ∈ events -> is_record "attempt-open" e = true -> payload_text "attempt_id" e = attempt_id s ->
             exists e', e' ∈ events /\ is_record "attempt-close" e' = true /\ payload_text "attempt_id" e' = attempt_id s)).
Proof.
  rewrite !py_all_forall, !Forall_forall. intros H1 Hb Ha. split_and!.
  - unfold py_len in H1. lia.
  - intros e He Ho Hf. apply dict_of_has, Hb, elem_of_remove_dups, list_elem_of_fmap_2, list_elem_of_In, List.filter_In.
    split; [by apply list_elem_of_In|]. by rewrite Ho, Hf.
  - intros s Hs. specialize (Ha s Hs). cbn beta in Ha. apply andb_true_iff in Ha as [Hact Ha]. split; [by apply negb_true_iff|].
    intros e He Ho Hid. apply dict_of_has. rewrite bool_decide_true in Ha; [done|]. rewrite <-Hid.
    apply list_elem_of_fmap_2, list_elem_of_In, List.filter_In. split; [by apply list_elem_of_In|done].
Qed.

(** C29. What proves ownership: this boot was opened once, every other boot that was opened is closed, every Work
    generation is closed and every Attempt of one that was opened has its close. *)
Theorem ownership_proved events boot_id gens o :
  boot_ownership events boot_id gens = Ok o -> proved o = true ->
  length (List.filter (fun e => is_record "boot-open" e && of_boot boot_id e) events) = 1%nat
  /\ (forall e, e ∈ events -> is_record "boot-open" e = true -> of_boot boot_id e = false ->
        exists e', e' ∈ events /\ is_record "boot-close" e' = true /\ payload_text "boot_id" e' = payload_text "boot_id" e)
  /\ (forall s, s ∈ gens -> active s = false
        /\ (forall e, e ∈ events -> is_record "attempt-open" e = true -> payload_text "attempt_id" e = attempt_id s ->
             exists e', e' ∈ events /\ is_record "attempt-close" e' = true /\ payload_text "attempt_id" e' = attempt_id s)).
Proof.
  unfold boot_ownership. intros Ho Hp.
  destruct (_ && py_all (fun b => dict_has b _) _) as [] in Ho;
    [destruct (event_ids _ (sort_by id _)) as [pre|]; [|done]|]; cbn [mbind result_bind] in Ho;
    (destruct (event_ids _ (attempt_id <$> _)) as [int|]; [|done]); cbn [mbind result_bind] in Ho; injection Ho as <-;
    unfold proved in Hp; cbn in Hp; apply andb_true_iff in Hp as [Hb Hp]; apply andb_true_iff in Hp as [H1 Ha]; exact (ownership_facts _ _ _ H1 Hb Ha).
Qed.
