(* ===== verification/ReconciliationWitness.v ===== *)
(** Readings of the Instance ledger and Boots on concrete inputs. *)

From Stdlib Require Import Ascii.
From S2P Require Import Prelude StoreWitness FenceWitness Canon Text PyJson JsonText Moment EventStore EventContracts FenceStore Reservation ReservationLogic WorkGeneration Lease LeaseLedger LeaseTheorems LeaseWitness InstanceLedger LedgerFacts Reconciliation ReconciliationFacts.
Local Open Scope Z_scope.

#[local] Existing Instance marking_digester.
#[local] Existing Instance marking_hex.

(** ** Readings *)

Definition b64 : string := text (replicate 64 "b"%char).

Definition board_row : Ledger.LedgerRow := {|
  Ledger.lr_row_id := "7"; Ledger.lr_challenge_id := JInt 4; Ledger.lr_user_id := Some 3; Ledger.lr_team_id := Some 11;
  Ledger.lr_source_page := 0; Ledger.lr_response_digest := "" |}.

Definition board_page (number : Z) (rows : list Ledger.LedgerRow) : Ledger.LedgerPage := {|
  Ledger.pg_status := 200; Ledger.pg_body := ""; Ledger.pg_rows := rows; Ledger.pg_page := number; Ledger.pg_total_pages := 1;
  Ledger.pg_total_rows := Z.of_nat (length rows); Ledger.pg_complete := true; Ledger.pg_response_digest := b64 |}.

Definition populated : Ledger.LedgerResult := Ledger.identify_ledger "teams" 3 (Some 11) [board_page 1 [board_row]].

Lemma team_settled : Ledger.unsettled_identity "teams" 3 (Some 11) = false.
Proof. reflexivity. Qed.

Lemma team_known : "teams" = "teams" -> exists t, Some 11 = Some t /\ 0 < t.
Proof. intros _. by exists 11. Qed.

Lemma ledger_receipt_verifies_witness :
  Ledger.ld_outcome populated = Ledger.POPULATED
  /\ exists text written d, Ledger.receipt_text "run-1" populated = Ok text /\ Ledger.receipt_document "run-1" populated = Ok written
    /\ Ledger.verify_receipt (Ledger.receipt_path "run-1") text = Ok d /\ fields_eqb d written = true.
Proof.
  split; [reflexivity|]. apply (ledger_receipt_verifies "run-1" "teams" 3 (Some 11) [board_page 1 [board_row]]).
  - discriminate.
  - apply team_settled.
  - apply team_known.
  - repeat constructor.
  - repeat constructor.
  - vm_compute. intros Hx. repeat (apply elem_of_cons in Hx as [Hx|Hx]; [discriminate Hx|]). by apply elem_of_nil in Hx.
Defined.

(** A page that says it is the second of one. *)
Lemma unsettled_receipt_refused_witness :
  Ledger.ld_outcome (Ledger.identify_ledger "teams" 3 (Some 11) [board_page 2 []]) = Ledger.UNSETTLED
  /\ exists text e, Ledger.receipt_text "run-1" (Ledger.identify_ledger "teams" 3 (Some 11) [board_page 2 []]) = Ok text
    /\ Ledger.verify_receipt (Ledger.receipt_path "run-1") text = Err e.
Proof.
  split; [reflexivity|]. apply (unsettled_receipt_refused "run-1" "teams" 3 (Some 11) [board_page 2 []]) with (first := board_page 2 []) (rest := []).
  - discriminate.
  - apply team_settled.
  - apply team_known.
  - repeat constructor.
  - reflexivity.
  - reflexivity.
  - reflexivity.
  - left. reflexivity.
Defined.

(** The receipt of a reading under an unsettled identity is written, and does not verify. *)
Example unsettled_identity_refused :
  match Ledger.receipt_text "run-1" (Ledger.identify_ledger "teams" 3 None [board_page 1 [board_row]]) with
  | Ok text => match Ledger.verify_receipt (Ledger.receipt_path "run-1") text with Err _ => true | Ok _ => false end
  | Err _ => false
  end = true.
Proof. vm_compute. reflexivity. Qed.

(** ** Boots *)

Definition boot_profile : WriteProfile := Pools (capacity 0 0 0) (capacity 65536 32 96) (capacity 0 0 0) (capacity 0 0 0).

(** A Run that deployed an Instance and then lost power. *)
Definition first_boot := (open_coordinator (F := Z) "r" "b" "o" (fresh_run boot_profile 400 1 no_coordinator)).1.
Definition deployed_run := (do_lease_op plain counting_fence "r" "b" "o" no_faults "boot" [] (Acquire (JInt 4) first_attempt deployed) first_boot).1.

Definition boot_world (l : LeaseWorld (F := Z)) (archives : list (string * World)) : BootWorld (F := Z) := {|
  bw_run := "r"; bw_lease := l; bw_archives := archives; bw_writers := {| wr_held := ["r"]; wr_elsewhere := [] |} |}.

(** The identities new authorities draw. *)
Definition draw (g : LeaseGrant) (snapshot : string) : string := "archive:" +:+ snapshot.

(** Opening the Run's authority is what registers its writer. *)
Example opening_registers :
  bw_writers (new_authority no_faults [] "boot" "r" {|
    bw_run := "r"; bw_lease := first_boot; bw_archives := []; bw_writers := {| wr_held := []; wr_elsewhere := [] |} |}).1
  = bw_writers (boot_world first_boot []).
Proof. vm_compute. reflexivity. Qed.

Definition owned : BootOwnership := {|
  bo_predecessor_close_event_ids := ["e1"]; bo_interrupted_attempt_close_event_ids := ["e2"]; bo_interrupted_attempts_closed := true;
  bo_predecessors_closed := true |}.

Definition run_lease : LeaseGrant := lease_grant ATTEMPT_BOUND create_key 1 "7" "t:1" CAUSE_NONE.

Definition gone : Outside := {|
  out_reply := Ok {| rp_outcome := ABSENT; rp_connection_info := ""; rp_until := None; rp_detail := "" |};
  out_row := Ok {| rc_verdict := UNCORROBORATED_ROW; rc_row_id := "" |}; out_polls := []; out_late_polls := [] |}.

Definition boot_once (boot_id : string) (now : Z) (x : BootWorld (F := Z)) :=
  boot_reconcile no_faults plain "boot" [] "r" "b" "o" draw (fun _ => gone) boot_id "" populated [(run_lease, now)] [] owned x.

Definition quarantined_world := (boot_once "boot-2" 0 (boot_world deployed_run [])).1.
Definition opened := boot_once "boot-3" (15 * us_per_second) quarantined_world.

Lemma opened_open : exists x r, opened = (x, Done r) /\ rr_verdict r = ADMISSION_OPEN.
Proof.
  assert (E : match opened.2 with Done r => bool_decide (rr_verdict r = ADMISSION_OPEN) | _ => false end = true) by (vm_compute; reflexivity).
  destruct opened as [x [r| |]]; [|discriminate E..]. exists x, r. split; [reflexivity|]. by apply bool_decide_eq_true in E.
Qed.

Lemma quarantined_wf : wf_rows (rows_at quarantined_world).
Proof. apply (bool_decide_unpack _). vm_compute. exact I. Qed.

Lemma quarantined_live : writer_live quarantined_world.
Proof. unfold writer_live. apply (bool_decide_unpack _). vm_compute. exact I. Qed.

(** The second Boot, fifteen seconds after the first, terminates the Instance of the lost Run and opens. *)
Lemma barrier_opens_settled_witness :
  exists x r, opened = (x, Done r) /\ rr_verdict r = ADMISSION_OPEN
    /\ (lg_row_id run_lease ∈ Ledger.lr_row_id <$> Ledger.ld_owned populated /\ committed (cleanup_key "r" (terminate_action run_lease)) (rows_at x)
        \/ Ledger.ld_outcome populated = Ledger.EMPTY /\ committed (archive_key "r" run_lease (rr_snapshot_id r)) (rows_at x)).
Proof.
  destruct opened_open as (x & r & Ho & Hv). exists x, r. split; [exact Ho|]. split; [exact Hv|]. unfold opened, boot_once in Ho.
  destruct (barrier_opens_settled no_faults plain "boot" [] "r" "b" "o" draw (fun _ => gone) "boot-3" "" "teams" 3 (Some 11) [board_page 1 [board_row]]
    [(run_lease, 15 * us_per_second)] [] owned quarantined_world x r (fun _ => conj eq_refl eq_refl) quarantined_live quarantined_wf Ho Hv)
    as (_ & _ & _ & _ & _ & Hl & _).
  apply Hl; [left|reflexivity].
Defined.

(** ** One Lease *)

Definition settle_one (out : Outside) (ledger : Ledger.LedgerResult) (g : LeaseGrant) (snapshot : string) (now : Z) : Prog (BootWorld (F := Z)) (list string * list string) :=
  settle_lease no_faults plain "boot" [] "r" (fun g => reconcile_lease_cleanup no_faults plain "boot" [] "r" "b" "o" draw out g)
    (Some (fun g snapshot => persist_reconciled_close no_faults [] (draw g snapshot) g snapshot;; mret tt)) ledger [] snapshot "join" g now.

Definition settled_one := settle_one gone populated run_lease "s2" (15 * us_per_second) quarantined_world.

Lemma settled_one_acts : exists x r, settled_one = (x, Done r) /\ r.2 <> [].
Proof.
  assert (E : match settled_one.2 with Done r => negb (bool_decide (r.2 = [])) | _ => false end = true) by (vm_compute; reflexivity).
  destruct settled_one as [x [r| |]]; [|discriminate E..]. exists x, r. split; [reflexivity|]. by apply negb_true_iff, bool_decide_eq_false in E.
Qed.

(** A second before the quarantine is over; the cleanup that a Boot runs against one that loses power. *)
Definition powerless_cleanup (g : LeaseGrant) (snapshot : string) : Prog (BootWorld (F := Z)) bool := fun x => (x, Crashed).
Definition powerless_finalize (g : LeaseGrant) (snapshot : string) : Prog (BootWorld (F := Z)) unit := fun x => (x, Crashed).

Lemma a_second_early : ~ quarantined "r" (rows_at quarantined_world) "7" "s2" (14 * us_per_second).
Proof.
  intros (c & obs & seen & at_ & t & Hs & Ho & _ & _ & Ha & Ht & Hle).
  assert (E : (c ← status (quarantine_key "r" "7") (rows_at quarantined_world); o ← observation c;
    match o with JObj fs => dict_get "observed_at" fs | _ => None end) = Some (JInt 0)) by (vm_compute; reflexivity).
  rewrite Hs in E. cbn [mbind option_bind] in E. rewrite Ho in E. cbn [mbind option_bind] in E. rewrite Ha in E. injection E as ->.
  injection Ht as <-.
  unfold us_per_second in Hle. lia.
Qed.

Lemma action_after_quarantine_witness :
  settle_one gone populated run_lease "s2" (14 * us_per_second) quarantined_world
  = settle_lease no_faults plain "boot" [] "r" powerless_cleanup (Some powerless_finalize) populated [] "s2" "join" run_lease (14 * us_per_second)
      quarantined_world
  /\ (exists x r, settled_one = (x, Done r) /\ r.2 <> []).
Proof.
  split; [|exact settled_one_acts]. unfold settle_one.
  apply (action_after_quarantine no_faults plain "boot" [] "r" _ _ populated [] "s2" "join" run_lease (14 * us_per_second) quarantined_world
    powerless_cleanup (Some powerless_finalize)); [exact a_second_early|split; discriminate].
Defined.

(** The Board holds nothing of ours. *)
Definition empty_ledger : Ledger.LedgerResult := Ledger.identify_ledger "teams" 3 (Some 11) [board_page 1 []].
Definition unarchived := settle_one gone empty_ledger run_lease "s2" (15 * us_per_second) quarantined_world.

Lemma unarchived_done : exists x r, unarchived = (x, Done r).
Proof.
  assert (E : match unarchived.2 with Done r => true | _ => false end = true) by (vm_compute; reflexivity).
  destruct unarchived as [x [r| |]]; [|discriminate E..]. by exists x, r.
Qed.

Lemma own_lease_unsettled_witness : exists r, unarchived.2 = Done r /\ r.1 <> [].
Proof.
  destruct unarchived_done as (x & r & Hr). exists r. split; [by rewrite Hr|]. unfold unarchived, settle_one in Hr.
  apply (own_lease_unsettled no_faults plain "boot" [] "r" "b" "o" draw (fun _ => gone) empty_ledger [] "s2" "join" run_lease (15 * us_per_second)
    quarantined_world x r); [vm_compute; reflexivity|exact quarantined_live|exact quarantined_wf|reflexivity|reflexivity|..].
  - apply (bool_decide_unpack _). vm_compute. exact I.
  - vm_compute. reflexivity.
  - exact Hr.
Defined.

(** A Lease of the Run [r0], and a Board that does not answer. *)
Definition other_lease : LeaseGrant := {|
  lg_identity := {| li_run_id := "r0"; li_lease_seq := 1 |}; lg_challenge_id := JInt 4; lg_board_id := "b"; lg_owner_id := "o"; lg_epoch := 1;
  lg_generation_id := "g"; lg_attempt_id := "a"; lg_phase := ATTEMPT_BOUND; lg_operation_key := "lease:r0:1:1:create"; lg_authority_sequence := 1;
  lg_authority_event_id := "e"; lg_renewal_sequence := 0; lg_row_id := "7"; lg_target := "t:1"; lg_until := None; lg_verdict := VERDICT_NONE;
  lg_close_cause := CAUSE_NONE |}.

Definition silent : Outside := {| out_reply := Err (OSError "unreachable"); out_row := Err (OSError "unreachable"); out_polls := []; out_late_polls := [] |}.

Definition archives_world := boot_world deployed_run [("r0", lw_authority first_boot)].

Definition cleaned := reconcile_lease_cleanup no_faults plain "boot" [] "r" "b" "o" draw silent other_lease "s1" archives_world.

Lemma cleaned_done : exists x b, cleaned = (x, Done b).
Proof.
  assert (E : match cleaned.2 with Done r => true | _ => false end = true) by (vm_compute; reflexivity).
  destruct cleaned as [x [r| |]]; [|discriminate E..]. by exists x, r.
Qed.

Lemma other_run_cleanup_settles_witness : cleaned.2 = Done true.
Proof.
  destruct cleaned_done as (x & b & Hb). rewrite Hb. unfold cleaned in Hb. cbn [snd]. f_equal.
  apply (other_run_cleanup_settles no_faults plain "boot" [] "r" "b" "o" draw silent other_lease "s1" archives_world x b); [discriminate|exact Hb].
Defined.

(** A Boot opens over that Lease, though the Board never answered: the cleanup is committed. *)
Definition boot_silent (boot_id : string) (now : Z) (x : BootWorld (F := Z)) :=
  boot_reconcile no_faults plain "boot" [] "r" "b" "o" draw (fun _ => silent) boot_id "" populated [(other_lease, now)] [] owned x.

Example opens_unanswered :
  match (boot_silent "boot-3" (15 * us_per_second) (boot_silent "boot-2" 0 archives_world).1).2 with
  | Done r => rr_verdict r | _ => ADMISSION_CLOSED end = ADMISSION_OPEN.
Proof. vm_compute. reflexivity. Qed.

(** Power fails between the reservation of the quarantine record and its start; the next boot aborts it. *)
Definition short_of_power : BootWorld (F := Z) := boot_world {|
  lw_authority := {| disk := disk (lw_authority deployed_run); writes_left := 34; effects := effects (lw_authority deployed_run) |};
  lw_fence := lw_fence deployed_run; lw_coordinator := lw_coordinator deployed_run |} [].

Definition cut_quarantine := (quarantine_elapsed no_faults plain "boot" "r" "7" "s1" 0 short_of_power).1.

Definition after_restart : BootWorld (F := Z) := set_authority
  (open_authority no_faults "boot 2" [] {| disk := disk (authority cut_quarantine); writes_left := 40; effects := [] |}).1 cut_quarantine.

Definition restarted : fields := [("reason", JStr "restart-before-effect")].

Lemma after_restart_record : exists c, status (quarantine_key "r" "7") (rows_at after_restart) = Some c /\ observation c = Some (JObj restarted).
Proof.
  assert (E : status (quarantine_key "r" "7") (rows_at after_restart) ≫= observation = Some (JObj restarted)) by (vm_compute; reflexivity).
  destruct (status _ _) as [c|]; [|discriminate E]. by exists c.
Qed.

Lemma quarantine_wedged_witness :
  (quarantine_elapsed no_faults plain "boot 2" "r" "7" "s2" (60 * us_per_second) after_restart).2 = Raised (KeyError "snapshot_id").
Proof.
  destruct after_restart_record as (c & Hs & Ho).
  refine (proj1 (quarantine_wedged no_faults plain "boot 2" "r" "7" "s2" (60 * us_per_second) after_restart c restarted Hs Ho _ _)).
  - discriminate.
  - reflexivity.
Defined.

(** ** Ownership *)

Definition logged (id_ record : string) (rest : fields) : EventStore.CommittedEvent := {|
  EventStore.sequence := 1; EventStore.previous_digest := ""; EventStore.event_digest := ""; EventStore.event_type := "record";
  EventStore.payload := [("record", JStr record); ("event_id", JStr id_)] ++ rest; EventStore.envelope := [];
  EventStore.blob_digest := ""; EventStore.blob_bytes := 0; EventStore.body := "" |}.

Definition boot_log : list EventStore.CommittedEvent := [
  logged "e1" "boot-open" [("boot_id", JStr "boot-1")]; logged "e2" "attempt-open" [("attempt_id", JStr "a")];
  logged "e3" "attempt-close" [("attempt_id", JStr "a")]; logged "e4" "boot-close" [("boot_id", JStr "boot-1")];
  logged "e5" "boot-open" [("boot_id", JStr "boot-2")]].

Definition interrupted_work : GenerationState := {|
  generation_id := "g"; work_id := "integer:4"; attempt_id := "a"; disposition := Some INTERRUPT; acquired_sequence := 1; closed_sequence := Some 2 |}.

Lemma ownership_proved_witness :
  boot_ownership boot_log "boot-2" [interrupted_work] = Ok {|
    bo_predecessor_close_event_ids := ["e4"]; bo_interrupted_attempt_close_event_ids := ["e3"]; bo_interrupted_attempts_closed := true;
    bo_predecessors_closed := true |}
  /\ active interrupted_work = false.
Proof.
  assert (E : boot_ownership boot_log "boot-2" [interrupted_work] = Ok {|
    bo_predecessor_close_event_ids := ["e4"]; bo_interrupted_attempt_close_event_ids := ["e3"]; bo_interrupted_attempts_closed := true;
    bo_predecessors_closed := true |}) by (vm_compute; reflexivity).
  split; [exact E|]. destruct (ownership_proved boot_log "boot-2" [interrupted_work] _ E eq_refl) as (_ & _ & Hg). apply (Hg interrupted_work). left.
Defined.

(** ** Probation *)

(** A Boot on an empty Board after [n] closed ones, and what probation then says of the same join. *)
Definition after_boots (n : nat) : BootOwnership := {|
  bo_predecessor_close_event_ids := replicate n "0123456789abcdef0123456789abcdef"; bo_interrupted_attempt_close_event_ids := [];
  bo_interrupted_attempts_closed := true; bo_predecessors_closed := true |}.

Definition probation_after (n : nat) : option (AdmissionVerdict * outcome ProbationOutcome) :=
  let '(x, o) := boot_reconcile no_faults plain "boot" [] "r" "b" "o" draw (fun _ => gone) "boot-3" "" empty_ledger [] [] (after_boots n)
    (boot_world first_boot []) in
  match o with
  | Done r => Some (rr_verdict r, (probation (X := BootWorld (F := Z)) "r" (rr_join_digest r) (Some "boot-3") None x).2)
  | _ => None
  end.

(** After four boots the open decision passes probation. *)
Lemma probation_after_four : probation_after 4 = Some (ADMISSION_OPEN, Done PROBATION_PASSED).
Proof. vm_compute. reflexivity. Qed.

(** After eight the completion's subject was cut where it is stored: the barrier is open and probation unsettled. *)
Lemma probation_after_eight : probation_after 8 = Some (ADMISSION_OPEN, Done PROBATION_UNSETTLED).
Proof. vm_compute. reflexivity. Qed.
